(* ===== verification/_CoqProject ===== *)
-Q . S2P
Prelude.v
Sha256Spec.v
Sha256.v
Sha256Correct.v
Checksum.v
Packet.v
ParsingHelpers.v
RewriteHelpers.v
FilterParsers.v
CString.v
UserParams.v
ParamsCorrect.v
XdpStats.v
XdpFilter.v
XdpFilterCorrect.v
Hashmap.v
HashmapCorrect.v
Strset.v
StrsetCorrect.v
Ringbuf.v
RingbufCorrect.v
RingbufManager.v
XskRing.v
XskRingCorrect.v
Bytes.v
Zip.v
ZipCorrect.v
Nlattr.v
NlattrCorrect.v
Netlink.v
NetlinkCorrect.v
NetlinkQuery.v
Btf.v
BtfBuild.v
BtfRecords.v
BtfCorrect.v
BtfTypes.v
BtfBuildCorrect.v
BtfRoundtrip.v
BtfExt.v
BtfExtCorrect.v
BtfCopy.v
BtfCopyCorrect.v
BtfCopyAll.v
Relo.v
ReloTypes.v
ReloMatch.v
ReloSpec.v
ReloParse.v
ReloInsn.v
ReloInsnCorrect.v
ReloBitfield.v
ReloTargets.v
UserBpf.v
UserBpfCorrect.v
XdpTools.v
XdpToolsCorrect.v
PatchPorts.v
XdpIpHash.v
KeyedHash.v
HashOption.v
XdpIpHashCorrect.v
HashVerifier.v
VerifierCorrect.v
