(* ===== verification/Prelude.v ===== *)
(** * Verification of the XDP "Network Authentication" programs

    ** The system

    The directory [src/Network Authentication] holds an XDP program that signs
    IPv4 packets and the user-space tools around it.  The kernel program
    [xdp_ip_hash_func] ([packet-solutions/xdp_prog_kern_02.c]) parses a frame
    with the helpers of [common/parsing_helpers.h], hashes a secret key and the
    fixed IPv4 header with its own SHA-256, inserts the digest as an IP option
    of 36 bytes, recomputes the header checksum and counts the packet in a
    per-CPU map.  [packet-solutions/hash_verifier.c] captures frames, removes
    the option and recomputes the digest.  [basic-solutions/xdp_loader.c] loads
    the program and pins its maps, [basic-solutions/xdp_stats.c] prints the
    counters; both use [common/common_params.c], [common_user_bpf_xdp.c] and
    [common_libbpf.c].

    The directory [lib/] holds the libraries these programs are built with.  The
    parts of them that have logic of their own and few dependencies are modelled
    too: the packet filter of xdp-tools and its parsers, the rings of AF_XDP
    sockets, and from libbpf the hash map, the string sets, the ring buffers, the
    reader of zip archives, the netlink functions that attach and query programs,
    the objects of BTF type information, read or built, and the CO-RE relocations
    that adapt the instructions of a program to the types of the running kernel.

    ** How the code is modelled

    C functions are pure functions on explicit state.  [option] is the monad of
    faults: [None] stands for an access outside an object (packet, array, map
    value) or through a null pointer, so a theorem that a function returns
    [Some] is a safety theorem.  Integers are [Z], reduced by [u8] ... [u64] or
    [s32] where the C type wraps; the machine is little-endian.  A C loop is
    [for_loop] or [while_loop] over a body that returns [Next] or [Break].
    [for_loop] is structural in the number of iterations; [while_loop] takes
    fuel, and every theorem proves that the fuel given is enough: 4 for the
    carry loop of the checksum ([Checksum.fold_fuel]; a 32-bit sum needs at most
    three foldings), 41 for the searches through at most 40 option bytes
    ([HashVerifier.scan_fuel]), one more than the table length for the option
    tables; the number of entries of the heap for the chains of the hash map
    ([Hashmap.chain_fuel]); 65537 for the search of the end record of a zip
    archive; a quarter of the length for a stream of netlink attributes, a
    sixteenth for the messages of a datagram, and the number of calls on the
    socket for an exchange; a twelfth of the length for the records of a BTF type
    section, an eighth for the groups of a region of .BTF.ext; the
    depth of the references for the alignment of a BTF type, which is bounded
    where there is no cycle; the number of types for the walks behind
    modifiers ([ReloTypes.skip_total]: every type is visited at most once), 65 for
    the nests of a member that is searched by name, whose path has 64 entries, 4
    for the sizes 1, 2, 4 and 8 of the read of a bit field; the recursion of the
    relations between types has the 32 levels and turns of the code; for the
    consumer of a ring buffer the turns that the producer has left; the
    endless loops of the statistics tool have theorems for every
    fuel and a bound on the fuel after which they have returned.

    Code outside the repository is a parameter: kernel helpers that change the
    packet bounds are the class [Packet.XdpHelpers] with their documented laws;
    the SHA-256 library of the verifier is [sha256_lib]; libbpf and libxdp are
    functions of the calls made before them (recorded as a trace) and of their
    arguments; [getopt_long] is the list of its results.  The memory a
    component needs is modelled as it uses it: packets and messages are lists
    of bytes with checked accesses, the hash map has a heap of entries in which
    it changes pointers, the AF_XDP ring is memory shared by two ends whose
    steps interleave, and before each access of the consumer of a libbpf ring
    buffer the producer takes a turn.

    ** Files

    - [Prelude]: integers, bytes, checked arrays, loops, their lemmas, the
      tactics [zcase] and [zeval].
    - [Sha256Spec]: FIPS 180-4; [Sha256]: [sha256_transform], [sha256_init],
      [sha256_update], [sha256_final] over the two per-CPU maps, with the
      overlap of the message buffer and the schedule; [Sha256Correct]: the code
      computes the standard's digest for any sequence of updates of less than
      2^32 bytes each, and on longer ones its 32-bit counter never reaches the
      end ([sha256_update_spins]); what happens when a map lookup fails; how
      much of the temporary buffer may be hashed.
    - [Checksum]: [calculate_ip_checksum] is the RFC 1071 checksum.
    - [Packet]: the packet memory of a program and the helpers.
      [ParsingHelpers]: the parsers, their safety and results.
      [RewriteHelpers]: VLAN push and pop, address swaps.
    - [XdpStats]: the kernel counter and the functions of [xdp_stats.c] that
      read and print; the sums over the CPUs are the true totals after any
      interleaving of packets.
    - [XdpIpHash]: [compute_keyed_hash], [add_ip_option_hash] and
      [xdp_ip_hash_func]; [KeyedHash], [HashOption], [XdpIpHashCorrect]: the
      digest that is computed, the packet that is built, the whole program.
    - [PatchPorts]: the alternative programs [xdp_patch_ports_func] and
      [xdp_pass_func] of the same file.
    - [HashVerifier]: [packet_handler]; [VerifierCorrect]: its safety, and its
      verdict on the packets of the kernel program.
    - [CString], [UserParams], [ParamsCorrect]: C strings, option tables, help
      texts, [parse_cmdline_args].
    - [UserBpf], [UserBpfCorrect]: [reuse_maps], [load_bpf_and_xdp_attach],
      [check_map_fd_info], [open_bpf_map_file], [do_unload],
      [bpf_prog_load_xattr_maps].
    - [XdpTools], [XdpToolsCorrect]: both main programs, [stats_poll],
      [pin_maps_in_bpf_object].
    - [FilterParsers]: the parsers of [headers/xdp/parsing_helpers.h], with
      IPv6 extension headers; the class [LibParser] is what the filter uses of
      them.  [XdpFilter]: [xdpfilt_prog.h], one definition with the features as
      a record, and the ten programs [xdpfilt_*.c]; [XdpFilterCorrect]: safety,
      the duality of allow and deny, the decision on TCP segments.
    - [Hashmap]: [hashmap.c] and [hashmap.h]; [HashmapCorrect]: the
      representation of a map by chains, its preservation, and the refinement
      of a multimap with its size and capacity ([mstate]), for keys of the class
      [HashKey] and allocators of the class [Allocator]; an insertion fails
      only when a request it makes is refused.  What the functions
      [hashmap__free], [strset__free] and [btf__free] pass to [free] is a list of
      blocks in their results; the entries are those of the heap.  [Strset], [StrsetCorrect]: [strset.c], sets of strings whose
      keys in that map are offsets into a region that is grown and overwritten
      behind the strings: the results are those of a list of strings.
    - [Btf], [BtfBuild]: [btf.c] and [btf.h] as far as they read, look up and
      build types.  [BtfRecords]: a type section as a sequence of records of
      words; [BtfCorrect]: the parser on any bytes; [BtfTypes]: sizes,
      alignments and names; [BtfBuildCorrect]: the invariant of an object that
      is built, on the interning of [StrsetCorrect], and why an addition can fail
      ([no_memory]); [BtfRoundtrip]: what is
      written out in either byte order is read back, and the steps of a client.
      [BtfExt], [BtfExtCorrect]: the section .BTF.ext and the groups of records in
      its regions.
      [BtfCopy]: copying types between objects; [BtfCopyCorrect]: the words of a
      record that are visited, the map of string offsets in the heap of the
      strings, one type, and why copying can fail ([copy_refused]); [BtfCopyAll]:
      all types of an object.
    - [Relo]: from [relo_core.c] the relations between types and the access
      paths of CO-RE relocations, and the search for candidates of [libbpf.c];
      [ReloInsn]: the values a relocation computes, the choice among targets and
      the change of the instruction.  [ReloTypes]: well-formed types, walks
      behind modifiers, runs of a step relation; [ReloMatch]: members searched by
      name; [ReloSpec], [ReloParse]: following a path in a target and parsing
      one, against walks as runs of a relation, with the errors a walk has;
      [ReloInsnCorrect]: patched instructions, and when one is refused; [ReloBitfield]: the macro of [bpf_core_read.h] on the
      relocated numbers; [ReloTargets]: several targets.
    - [Ringbuf]: [ringbuf.c]; [RingbufCorrect]: the records in the bytes of a
      ring that is mapped twice, the producer's functions and the consumer,
      interleaved with any producer (the predicate [producer]);
      [RingbufManager]: what the managers acquire, they release.
    - [XskRing]: the functions of [headers/xdp/xsk.h] on the two ends of a ring;
      [XskRingCorrect]: the simulation of a bounded queue.
    - [Bytes]: pieces of byte strings.  [Zip], [ZipCorrect]: [zip.c], its
      safety, what it acquires and gives back, and that it finds what a well-formed archive holds.  [Nlattr],
      [NlattrCorrect]: [nlattr.c], [nlattr.h] and
      [__bpf_set_link_xdp_fd_replace]: safety and policy of the parser, what is
      written is read back.  [Netlink]: the rest of [netlink.c] on a system
      that is a list of exchanges, one for each socket; [NetlinkCorrect]: an
      exchange over bytes is the exchange of its messages; [NetlinkQuery]: what
      a dump of the links enters into the options of a query, and the request
      that attaches a program.

    ** What the theorems show

    Correct: SHA-256 and the checksum implement their standards; no kernel
    program accesses memory outside the packet or its objects, whatever the
    packet and the maps contain; untagged IPv4 frames leave [xdp_ip_hash_func]
    with a well-formed option, a valid checksum and an unchanged payload; VLAN
    push and pop are inverse; the statistics are exact; the parameter parser and
    both tools do not fault on the inputs described by their hypotheses.  The
    programs of the filter are safe and decide by the first rule that matches;
    the hash map is a multimap, the string set interns strings at offsets that
    stay valid, and both free all that they hold; an AF_XDP ring is a bounded
    queue wherever its counters wrap; a libbpf ring buffer delivers the submitted
    records in order, and its managers leak nothing; zip archives and netlink
    messages are read without leaving them, and what was written comes back.
    A netlink exchange returns what its messages say however datagrams are cut
    and calls interrupted, and gives back what it acquired.  The BTF parser
    accepts only objects whose records and names lie inside of them, whatever it
    is given; sizes and alignments are those of recursive definitions; any
    sequence of additions builds an object that reads back the same, from either
    byte order, and an addition with good arguments fails only without memory or
    at a limit; a section .BTF.ext is accepted exactly when groups of records fill
    its regions; types that are copied to another object keep their names and
    refer to the copies.  The path of a relocation is the walk its text describes in the
    local types, and what matches it in a target is the walk with the same names,
    its offset the sum of the offsets on the way; targets are accepted only when
    they agree; an instruction holds the new value, in the width of its field, or
    is refused or poisoned; a bit field is read exactly, wherever the target has it.

    Not correct, each with a theorem that states what happens instead: kernel
    and verifier use different keys, so an authentic packet is reported as a
    mismatch; tagged frames are damaged; without head room a packet leaves with
    a zero checksum; existing IP options become payload; the in-place checksum
    of [xdp_patch_ports_func] loses a carry; the verifier reads past truncated
    frames; the loader ignores [--unload] and looks for old maps at a path that
    does not exist; several error codes are lost by their callers.  Where
    comments of the libraries say something else than the code, the theorems
    state the code: five extension headers, not six; a hash map that grows
    reverses the entries of a key; the first string of an empty string set has
    the offset 0, and a string that is there is not found when the set is full.
    Error messages of netlink that are too short are read beyond their end, so
    that the theorems ask the kernel for whole ones.  The loop of
    [sha256_update] does not end on 2^32 bytes or more.  Appending an object to
    another one writes through NULL when memory runs out behind a new string.

    ** Limits

    Not modelled: output of the debug functions ([bpf_printk], the print
    functions of the kernel file), the pcap set-up in [main] of the verifier,
    the texts the loader prints on success, the blocks under [#if 0], and the
    rest of the libraries under [lib/] (the loader and the linker of libbpf,
    libxdp, the user-space tools of xdp-tools), which the programs only call; of
    [btf.c] the loading from files and from the kernel and deduplication; of the relocations
    the texts for the log, the cache of candidates and the loop over an object's
    relocations, which belong to the loader.  Paths, targets and their types are
    assumed well formed ([ReloTypes.types_ok]: references exist and modifiers end)
    where the code assumes it, and names of members unique, as in C.  In the modelled
    parts of the libraries, system calls are parameters: the results of the
    calls on a netlink socket; the creation of AF_XDP sockets is left out.  Other directories of the repository hold programs in other
    languages.  Concurrency between CPUs needs no interleaved semantics: the
    maps are per-CPU, and [XdpStats] treats any order of packets. *)

From Stdlib Require Export ZArith Lia Btauto.
From stdpp Require Export base tactics option list numbers.

#[export] Set Default Goal Selector "!".

Declare Scope c_scope.
Delimit Scope c_scope with C.
Global Open Scope Z_scope.

(** ** Machine integers: values of C's fixed-width unsigned types are the
    canonical residues in [Z]. *)

Definition u8 (x : Z) : Z := x mod 2 ^ 8.
Definition u16 (x : Z) : Z := x mod 2 ^ 16.
Definition u32 (x : Z) : Z := x mod 2 ^ 32.
Definition u64 (x : Z) : Z := x mod 2 ^ 64.

(** Conversion to [int]: two's complement reduction. *)
Definition s32 (x : Z) : Z := (x + 2 ^ 31) mod 2 ^ 32 - 2 ^ 31.

(** Conversion to [__s16]. *)
Definition s16 (x : Z) : Z := (x + 2 ^ 15) mod 2 ^ 16 - 2 ^ 15.

(** Operators of the type [unsigned int]. *)
Definition add32 (x y : Z) : Z := u32 (x + y).
Definition shl32 (x n : Z) : Z := u32 (Z.shiftl x n).
Definition not32 (x : Z) : Z := u32 (Z.lnot x).

Infix "+₃₂" := add32 (at level 50, left associativity) : c_scope.
Infix "≪₃₂" := shl32 (at level 35, no associativity) : c_scope.
Infix "≫₃₂" := Z.shiftr (at level 35, no associativity) : c_scope.
Infix "∧₃₂" := Z.land (at level 40, left associativity) : c_scope.
Infix "⊕₃₂" := Z.lxor (at level 44, left associativity) : c_scope.
Infix "∨₃₂" := Z.lor (at level 46, left associativity) : c_scope.
Notation "¬₃₂ x" := (not32 x) (at level 30, right associativity) : c_scope.

Definition byte_ok (b : Z) : Prop := 0 <= b < 256.
Definition word_ok (w : Z) : Prop := 0 <= w < 2 ^ 32.
Abbreviation bytes_ok := (Forall byte_ok).

(** [__builtin_bswap16], the body of [bpf_htons]/[bpf_ntohs] and of the
    [ntohs] macro on a little-endian machine. *)
Definition bswap16 (x : Z) : Z :=
  Z.lor (Z.land (Z.shiftr x 8) 255) (Z.shiftl (Z.land x 255) 8).

(** Length of an array, as the integer the code compares indices with. *)
Abbreviation zlen l := (Z.of_nat (length l)).

(** ** Arrays: an access outside the object is a fault ([None]). *)

Definition aget {A} (l : list A) (i : Z) : option A :=
  if 0 <=? i then l !! Z.to_nat i else None.

Definition aset {A} (l : list A) (i : Z) (x : A) : option (list A) :=
  if (0 <=? i) && (i <? zlen l)
  then Some (<[Z.to_nat i := x]> l) else None.

(** Little-endian 16- and 32-bit accesses at a byte offset. *)
Definition ld_le16 (l : list Z) (off : Z) : option Z :=
  b0 ← aget l off; b1 ← aget l (off + 1); Some (b0 + b1 * 2 ^ 8).

Definition ld_le32 (l : list Z) (off : Z) : option Z :=
  b0 ← aget l off; b1 ← aget l (off + 1);
  b2 ← aget l (off + 2); b3 ← aget l (off + 3);
  Some (b0 + b1 * 2 ^ 8 + b2 * 2 ^ 16 + b3 * 2 ^ 24).

Definition st_le16 (l : list Z) (off w : Z) : option (list Z) :=
  l ← aset l off (u8 w); aset l (off + 1) (u8 (Z.shiftr w 8)).

Definition st_le32 (l : list Z) (off w : Z) : option (list Z) :=
  l ← aset l off (u8 w);
  l ← aset l (off + 1) (u8 (Z.shiftr w 8));
  l ← aset l (off + 2) (u8 (Z.shiftr w 16));
  aset l (off + 3) (u8 (Z.shiftr w 24)).

(** [memcpy(l + off, bs, len(bs))] inside one object. *)
Fixpoint aset_list {A} (l : list A) (off : Z) (bs : list A) : option (list A) :=
  match bs with
  | [] => Some l
  | b :: bs' => l' ← aset l off b; aset_list l' (off + 1) bs'
  end.

(** [n] elements from offset [off]. *)
Fixpoint aget_list {A} (l : list A) (off : Z) (n : nat) : option (list A) :=
  match n with
  | O => Some []
  | S n' => b ← aget l off; r ← aget_list l (off + 1) n'; Some (b :: r)
  end.

(** ** Loops *)

(** A loop body falls through to the next iteration or leaves the loop. *)
Inductive ctl (T : Type) : Type :=
| Next (s : T)
| Break (s : T).
Arguments Next {T} s.
Arguments Break {T} s.

Fixpoint for_up {T} (n : nat) (i : Z) (body : Z → T → option (ctl T)) (s : T) : option T :=
  match n with
  | O => Some s
  | S n' =>
      c ← body i s;
      match c with
      | Next s' => for_up n' (i + 1) body s'
      | Break s' => Some s'
      end
  end.

(** [for (i = lo; i < hi; i++) body]. *)
Definition for_loop {T} (lo hi : Z) (body : Z → T → option (ctl T)) (s : T) : option T :=
  for_up (Z.to_nat (hi - lo)) lo body s.

(** [while (1) body]; [None] when the body faults or the fuel is spent. *)
Fixpoint while_loop {T} (fuel : nat) (body : T → option (ctl T)) (s : T) : option T :=
  match fuel with
  | O => None
  | S fuel' =>
      c ← body s;
      match c with
      | Next s' => while_loop fuel' body s'
      | Break s' => Some s'
      end
  end.

(** ** Tactics and hint databases *)

Create HintDb word.
Create Rewrite HintDb arr.

(** Case analysis on the boolean comparisons of [Z] in the goal. *)
Ltac zcase :=
  repeat match goal with
  | |- context [?x <=? ?y] => destruct (Z.leb_spec x y)
  | |- context [?x <? ?y] => destruct (Z.ltb_spec x y)
  | |- context [?x =? ?y] => destruct (Z.eqb_spec x y)
  end; cbn [andb orb negb].

(** Split the binds of an option computation in hypothesis [H]. *)
Ltac opt_inv H :=
  repeat match type of H with
  | (_ ≫= _) = Some _ =>
      let x := fresh "x" in let E := fresh "E" in
      apply bind_Some in H as (x & E & H)
  | Some _ = Some _ => injection H as H
  end.

(** Split hypotheses [Forall P [x; y; ..]], and prove such goals from the
    facts about the elements. *)
Ltac forall_inv :=
  repeat match goal with
  | H : Forall _ (_ :: _) |- _ =>
      let H' := fresh H in pose proof (proj1 (Forall_cons_iff _ _ _) H) as [? H']; clear H
  end.
Ltac forall_intro := repeat (apply Forall_cons; [first [done | by auto with word]|]); try apply Forall_nil.

(** A closed comparison of integers, by evaluation. *)
Ltac zeval := vm_compute; repeat split; first [reflexivity | discriminate | intros H; discriminate H].

(** Linear arithmetic with quotients and remainders by constants. *)
Ltac nat_div := zify; Z.to_euclidean_division_equations; lia.

(** ** Lemmas on machine integers *)

Lemma u8_range x : 0 <= u8 x < 2 ^ 8.
Proof. apply Z.mod_pos_bound; lia. Qed.

Lemma u16_range x : 0 <= u16 x < 2 ^ 16.
Proof. apply Z.mod_pos_bound; lia. Qed.

Lemma u32_range x : 0 <= u32 x < 2 ^ 32.
Proof. apply Z.mod_pos_bound; lia. Qed.

Lemma u64_range x : 0 <= u64 x < 2 ^ 64.
Proof. apply Z.mod_pos_bound; lia. Qed.

Lemma u8_ok x : byte_ok (u8 x).
Proof. pose proof (u8_range x). unfold byte_ok. lia. Qed.

Lemma u32_ok x : word_ok (u32 x).
Proof. apply u32_range. Qed.

Lemma u32_small x : word_ok x → u32 x = x.
Proof. apply Z.mod_small. Qed.

Lemma u8_small x : byte_ok x → u8 x = x.
Proof. intros H. apply Z.mod_small, H. Qed.

Lemma u16_small x : 0 <= x < 2 ^ 16 → u16 x = x.
Proof. apply Z.mod_small. Qed.

Lemma u64_small x : 0 <= x < 2 ^ 64 → u64 x = x.
Proof. apply Z.mod_small. Qed.

#[export] Hint Resolve u8_ok u32_ok u8_range u16_range u32_range u64_range : word.

Lemma testbit_small n x i : 0 <= x < 2 ^ n → n <= i → Z.testbit x i = false.
Proof.
  intros Hx Hi. destruct (Z.ltb_spec n 0) as [|Hn].
  { rewrite Z.pow_neg_r in Hx by lia. lia. }
  rewrite <- (Z.mod_small x (2 ^ n)) by lia. apply Z.mod_pow2_bits_high. lia.
Qed.

Lemma range_of_testbit n x :
  0 <= n → 0 <= x → (∀ i, n <= i → Z.testbit x i = false) → x < 2 ^ n.
Proof.
  intros Hn Hx Hb. destruct (Z.ltb_spec x (2 ^ n)) as [|Hge]; [done|].
  assert (0 < x) by (pose proof (Z.pow_pos_nonneg 2 n); lia).
  assert (n <= Z.log2 x) by (apply Z.log2_le_pow2; lia).
  specialize (Hb (Z.log2 x)). rewrite Z.bit_log2 in Hb by lia.
  by discriminate Hb.
Qed.

Lemma land_ok n x y : 0 <= n → 0 <= x < 2 ^ n → 0 <= y → 0 <= Z.land x y < 2 ^ n.
Proof.
  intros Hn Hx Hy. split; [apply Z.land_nonneg; lia|].
  apply range_of_testbit; [lia|apply Z.land_nonneg; lia|].
  intros i Hi. by rewrite Z.land_spec, (testbit_small n x).
Qed.

Lemma lor_ok n x y : 0 <= n → 0 <= x < 2 ^ n → 0 <= y < 2 ^ n → 0 <= Z.lor x y < 2 ^ n.
Proof.
  intros Hn Hx Hy. split; [apply Z.lor_nonneg; lia|].
  apply range_of_testbit; [lia|apply Z.lor_nonneg; lia|].
  intros i Hi. by rewrite Z.lor_spec, (testbit_small n x), (testbit_small n y).
Qed.

Lemma lxor_ok n x y : 0 <= n → 0 <= x < 2 ^ n → 0 <= y < 2 ^ n → 0 <= Z.lxor x y < 2 ^ n.
Proof.
  intros Hn Hx Hy. split; [apply Z.lxor_nonneg; lia|].
  apply range_of_testbit; [lia|apply Z.lxor_nonneg; lia|].
  intros i Hi. by rewrite Z.lxor_spec, (testbit_small n x), (testbit_small n y).
Qed.

Lemma shiftr_ok n x k : 0 <= k → 0 <= x < 2 ^ n → 0 <= Z.shiftr x k < 2 ^ n.
Proof.
  intros Hk Hx. rewrite Z.shiftr_div_pow2 by lia.
  pose proof (Z.pow_pos_nonneg 2 k ltac:(lia) ltac:(lia)).
  split; [apply Z.div_pos; lia|]. apply Z.div_lt_upper_bound; nia.
Qed.

(** Disjoint bit ranges: [|] is [+]. *)
Lemma lor_add_disjoint n a b : 0 <= n → 0 <= b < 2 ^ n → Z.lor (Z.shiftl a n) b = a * 2 ^ n + b.
Proof.
  intros Hn Hb. rewrite <- Z.shiftl_mul_pow2 by lia.
  pose proof (Z.add_lor_land (Z.shiftl a n) b) as E.
  assert (Z.land (Z.shiftl a n) b = 0) as H0.
  { apply Z.bits_inj'. intros i Hi. rewrite Z.land_spec, Z.bits_0.
    destruct (Z.ltb_spec i n).
    - by rewrite Z.shiftl_spec_low.
    - rewrite (testbit_small n b) by lia. apply andb_false_r. }
  lia.
Qed.

Lemma bswap16_bytes b0 b1 :
  byte_ok b0 → byte_ok b1 → bswap16 (b0 + b1 * 2 ^ 8) = b1 + b0 * 2 ^ 8.
Proof.
  unfold byte_ok, bswap16. intros H0 H1.
  change 255 with (Z.ones 8). rewrite !Z.land_ones, Z.shiftr_div_pow2 by lia.
  rewrite Z.div_add, Z.div_small, Z.mod_add, (Z.mod_small b0) by lia.
  rewrite Z.mod_small, Z.lor_comm, lor_add_disjoint by lia. lia.
Qed.

Lemma bytes_of_u16 x :
  0 <= x < 2 ^ 16 → ∃ b0 b1, byte_ok b0 ∧ byte_ok b1 ∧ x = b0 + b1 * 2 ^ 8.
Proof.
  intros H. exists (x mod 2 ^ 8), (x / 2 ^ 8). unfold byte_ok.
  pose proof (Z.div_mod x (2 ^ 8) ltac:(lia)). pose proof (Z.mod_pos_bound x (2 ^ 8) ltac:(lia)).
  repeat split; try lia.
Qed.

Lemma bswap16_involutive x : 0 <= x < 2 ^ 16 → bswap16 (bswap16 x) = x.
Proof.
  intros (b0 & b1 & H0 & H1 & ->)%bytes_of_u16. by rewrite !bswap16_bytes.
Qed.

Lemma bswap16_range x : 0 <= x < 2 ^ 16 → 0 <= bswap16 x < 2 ^ 16.
Proof.
  intros (b0 & b1 & H0 & H1 & ->)%bytes_of_u16. rewrite bswap16_bytes by done.
  unfold byte_ok in *. lia.
Qed.

Lemma bswap16_inj x y :
  0 <= x < 2 ^ 16 → 0 <= y < 2 ^ 16 → bswap16 x = bswap16 y → x = y.
Proof. intros Hx Hy E. rewrite <- (bswap16_involutive x), E by done. by apply bswap16_involutive. Qed.

#[export] Hint Resolve bswap16_range : word.

(** ** Lemmas on arrays *)

Section arrays.
Context {A : Type}.
Implicit Types l : list A.

Lemma aget_nat l (i : nat) : aget l (Z.of_nat i) = l !! i.
Proof. unfold aget. zcase; [|lia]. by rewrite Nat2Z.id. Qed.

Lemma aget_to_nat l i : 0 <= i → aget l i = l !! Z.to_nat i.
Proof. intros H. unfold aget. zcase; [done|lia]. Qed.

Lemma aget_range l i x : aget l i = Some x → 0 <= i < zlen l.
Proof. unfold aget. zcase; [|done]. intros ?%lookup_lt_Some. lia. Qed.

Lemma aget_is_Some l i : 0 <= i < zlen l → ∃ x, aget l i = Some x.
Proof. intros H. rewrite aget_to_nat by lia. apply lookup_lt_is_Some_2. lia. Qed.

Lemma aget_app_l l1 l2 i : i < zlen l1 → aget (l1 ++ l2) i = aget l1 i.
Proof. intros H. unfold aget. zcase; [|done]. apply lookup_app_l. lia. Qed.

Lemma aget_app_r l1 l2 i : zlen l1 <= i → aget (l1 ++ l2) i = aget l2 (i - zlen l1).
Proof.
  intros H. unfold aget. zcase; [|lia..]. rewrite lookup_app_r by lia. f_equal. lia.
Qed.

Lemma aset_eq l i x : 0 <= i < zlen l → aset l i x = Some (<[Z.to_nat i := x]> l).
Proof. intros H. unfold aset. zcase; [done|lia..]. Qed.

Lemma aset_inv l i x l' :
  aset l i x = Some l' → 0 <= i < zlen l ∧ l' = <[Z.to_nat i := x]> l.
Proof. unfold aset. zcase; intros [= <-]; auto with lia. Qed.

Lemma aset_length l i x l' : aset l i x = Some l' → length l' = length l.
Proof. intros [_ ->]%aset_inv. apply length_insert. Qed.

Lemma aget_aset l i x l' j :
  aset l i x = Some l' → aget l' j = if j =? i then Some x else aget l j.
Proof.
  intros [Hi ->]%aset_inv. unfold aget. zcase; try lia; try done.
  - subst. apply list_lookup_insert_eq. lia.
  - apply list_lookup_insert_ne. lia.
Qed.

Lemma aset_Forall (P : A → Prop) l i x l' :
  aset l i x = Some l' → P x → Forall P l → Forall P l'.
Proof. intros [_ ->]%aset_inv ??. by apply Forall_insert. Qed.

Lemma aget_list_length l off n r : aget_list l off n = Some r → length r = n.
Proof.
  revert off r. induction n as [|n IH]; intros off r H; cbn in H.
  - by injection H as <-.
  - opt_inv H. subst. cbn. f_equal. eauto.
Qed.

Lemma aget_list_eq l off n :
  0 <= off → off + Z.of_nat n <= zlen l →
  aget_list l off n = Some (take n (drop (Z.to_nat off) l)).
Proof.
  revert off. induction n as [|n IH]; intros off H0 Hn; [done|]. cbn [aget_list].
  destruct (aget_is_Some l off) as [x Hx]; [lia|]. rewrite Hx. cbn.
  rewrite IH by lia. cbn.
  rewrite aget_to_nat in Hx by lia.
  rewrite (drop_S l x (Z.to_nat off)) by done. cbn. do 3 f_equal. f_equal. lia.
Qed.

Lemma aset_list_eq l off bs :
  0 <= off → off + zlen bs <= zlen l →
  aset_list l off bs =
    Some (take (Z.to_nat off) l ++ bs ++ drop (Z.to_nat off + length bs) l).
Proof.
  revert l off. induction bs as [|b bs IH]; intros l off H0 Hn; cbn [aset_list].
  { cbn. rewrite Nat.add_0_r, take_drop. done. }
  cbn in Hn. rewrite aset_eq by lia. cbn.
  rewrite IH by (rewrite ?length_insert; lia). f_equal.
  replace (Z.to_nat (off + 1)) with (S (Z.to_nat off)) by lia.
  assert (take (S (Z.to_nat off)) (<[Z.to_nat off:=b]> l) = take (Z.to_nat off) l ++ [b]) as ->.
  { rewrite (take_S_r _ _ b) by (apply list_lookup_insert_eq; lia).
    by rewrite take_insert_ge by lia. }
  rewrite drop_insert_lt by lia. rewrite <- app_assoc. cbn. do 3 f_equal. f_equal. lia.
Qed.

Lemma aset_list_length l off bs l' : aset_list l off bs = Some l' → length l' = length l.
Proof.
  revert l off. induction bs as [|b bs IH]; intros l off H; cbn in H.
  - by injection H as <-.
  - opt_inv H. apply IH in H. apply aset_length in E. congruence.
Qed.
End arrays.

(** Deciding [bytes_ok] on a concrete array. *)
Lemma bytes_ok_dec (l : list Z) :
  forallb (λ b, (0 <=? b) && (b <? 256)) l = true → bytes_ok l.
Proof.
  intros H. apply List.Forall_forall. intros b Hb. apply (proj1 (forallb_forall _ _) H) in Hb.
  unfold byte_ok. lia.
Qed.

#[export] Hint Rewrite @aget_nat @length_insert @length_app @length_take @length_drop
  @length_replicate : arr.

Lemma aget_byte (l : list Z) i b : bytes_ok l → aget l i = Some b → byte_ok b.
Proof.
  intros Hl H. pose proof (aget_range _ _ _ H). rewrite aget_to_nat in H by lia.
  by eapply Forall_lookup_1.
Qed.

(** *** Sums over an array *)

Definition sum_by {A} (f : A → Z) (l : list A) : Z := foldr (λ x s, f x + s) 0 l.

Lemma sum_by_app {A} (f : A → Z) l1 l2 : sum_by f (l1 ++ l2) = sum_by f l1 + sum_by f l2.
Proof. unfold sum_by. induction l1 as [|x l1 IH]; cbn [foldr app]; lia. Qed.

Lemma sum_by_insert {A} (f : A → Z) l i x y :
  l !! i = Some x → sum_by f (<[i := y]> l) = sum_by f l - f x + f y.
Proof.
  unfold sum_by. revert i. induction l as [|z l IH]; intros [|i] H; try done.
  - injection H as ->. change (<[0%nat := y]> (x :: l)) with (y :: l). cbn [foldr]. lia.
  - specialize (IH i H). change (<[S i := y]> (z :: l)) with (z :: <[i := y]> l).
    cbn [foldr]. lia.
Qed.

(** *** 16- and 32-bit accesses to a byte array *)

Lemma aget_take {A} (l : list A) (n : nat) i : i < Z.of_nat n → aget (take n l) i = aget l i.
Proof. intros H. unfold aget. zcase; [|done]. apply lookup_take_lt. lia. Qed.

Lemma aget_drop {A} (l : list A) (n : nat) i :
  0 <= i → aget (drop n l) i = aget l (Z.of_nat n + i).
Proof. intros H. unfold aget. zcase; try lia. rewrite lookup_drop. f_equal. lia. Qed.

Lemma ld_le16_take l (n : nat) off :
  off + 1 < Z.of_nat n → ld_le16 (take n l) off = ld_le16 l off.
Proof. intros H. unfold ld_le16. by rewrite !aget_take by lia. Qed.

Lemma u32_le_bytes w :
  u8 w + u8 (Z.shiftr w 8) * 2 ^ 8 + u8 (Z.shiftr w 16) * 2 ^ 16
  + u8 (Z.shiftr w 24) * 2 ^ 24 = u32 w.
Proof.
  unfold u8, u32. rewrite !Z.shiftr_div_pow2 by lia.
  change (2 ^ 32) with (2 ^ 8 * (2 ^ 8 * (2 ^ 8 * 2 ^ 8))).
  rewrite !Z.rem_mul_r, !Z.div_div by lia.
  change (2 ^ 8 * 2 ^ 8) with (2 ^ 16). change (2 ^ 16 * 2 ^ 8) with (2 ^ 24). lia.
Qed.

Lemma st_le32_ok l off w :
  0 <= off → off + 4 <= zlen l →
  ∃ l', st_le32 l off w = Some l' ∧ length l' = length l
    ∧ ld_le32 l' off = Some (u32 w)
    ∧ (∀ j, j < off ∨ off + 4 <= j → aget l' j = aget l j).
Proof.
  intros H0 H4. unfold st_le32.
  destruct (aset l off _) as [l1|] eqn:E1; [|rewrite aset_eq in E1 by lia; done].
  cbn [mbind option_bind]. pose proof (aset_length _ _ _ _ E1) as L1.
  destruct (aset l1 _ _) as [l2|] eqn:E2; [|rewrite aset_eq in E2 by lia; done].
  cbn [mbind option_bind]. pose proof (aset_length _ _ _ _ E2) as L2.
  destruct (aset l2 _ _) as [l3|] eqn:E3; [|rewrite aset_eq in E3 by lia; done].
  cbn [mbind option_bind]. pose proof (aset_length _ _ _ _ E3) as L3.
  destruct (aset l3 _ _) as [l4|] eqn:E4; [|rewrite aset_eq in E4 by lia; done].
  pose proof (aset_length _ _ _ _ E4) as L4.
  exists l4. split; [done|]. split; [lia|].
  assert (∀ j, aget l4 j = if j =? off + 3 then Some (u8 (Z.shiftr w 24)) else
             if j =? off + 2 then Some (u8 (Z.shiftr w 16)) else
             if j =? off + 1 then Some (u8 (Z.shiftr w 8)) else
             if j =? off then Some (u8 w) else aget l j) as G.
  { intros j. by rewrite (aget_aset _ _ _ _ _ E4), (aget_aset _ _ _ _ _ E3),
      (aget_aset _ _ _ _ _ E2), (aget_aset _ _ _ _ _ E1). }
  split.
  - unfold ld_le32. rewrite !G. zcase; try lia. cbn. f_equal. apply u32_le_bytes.
  - intros j Hj. rewrite G. zcase; try lia; done.
Qed.

Lemma ld_le32_ext l l' off :
  (∀ j, off <= j < off + 4 → aget l' j = aget l j) → ld_le32 l' off = ld_le32 l off.
Proof. intros H. unfold ld_le32. by rewrite !H by lia. Qed.

(** ** Lemmas on loops *)

(** Total-correctness rule of the counting loop whose body never breaks. *)
Lemma for_up_inv {T} (I : Z → T → Prop) body n lo s :
  (∀ i s, lo <= i < lo + Z.of_nat n → I i s →
     ∃ s', body i s = Some (Next s') ∧ I (i + 1) s') →
  I lo s → ∃ s', for_up n lo body s = Some s' ∧ I (lo + Z.of_nat n) s'.
Proof.
  revert lo s. induction n as [|n IH]; intros lo s Hb Hs; cbn [for_up].
  { exists s. by rewrite Z.add_0_r. }
  destruct (Hb lo s) as (s1 & -> & Hs1); [lia|done|]. cbn.
  destruct (IH (lo + 1) s1) as (s2 & -> & H2); [|done|].
  { intros i s' Hi. apply Hb. lia. }
  exists s2. split; [done|]. by replace (lo + Z.of_nat (S n)) with (lo + 1 + Z.of_nat n) by lia.
Qed.

Lemma for_loop_inv {T} (I : Z → T → Prop) body lo hi s :
  lo <= hi →
  (∀ i s, lo <= i < hi → I i s → ∃ s', body i s = Some (Next s') ∧ I (i + 1) s') →
  I lo s → ∃ s', for_loop lo hi body s = Some s' ∧ I hi s'.
Proof.
  intros Hle Hb Hs. unfold for_loop.
  destruct (for_up_inv I body (Z.to_nat (hi - lo)) lo s) as (s' & E & H); [|done|].
  { intros i s' Hi. apply Hb. lia. }
  exists s'. split; [done|]. by replace (lo + Z.of_nat (Z.to_nat (hi - lo))) with hi in H by lia.
Qed.

(** The same with a body that may break, into states satisfying [Q]. *)
Lemma for_loop_inv_break {T} (I : Z → T → Prop) (Q : T → Prop) body lo hi s :
  lo <= hi →
  (∀ i s, lo <= i < hi → I i s → ∃ c, body i s = Some c ∧
     match c with Next s' => I (i + 1) s' | Break s' => Q s' end) →
  I lo s → ∃ s', for_loop lo hi body s = Some s' ∧ (I hi s' ∨ Q s').
Proof.
  intros Hle Hb Hs. unfold for_loop.
  assert (∀ n i s, lo <= i → i + Z.of_nat n = hi → I i s →
    ∃ s', for_up n i body s = Some s' ∧ (I hi s' ∨ Q s')) as G; [|apply G; [lia|lia|done]].
  clear s Hs. induction n as [|n IH]; intros i s Hi Hn Hs; cbn [for_up].
  { exists s. replace hi with i by lia. auto. }
  destruct (Hb i s ltac:(lia) Hs) as ([s1|s1] & -> & H1); cbn; [|by eauto].
  apply IH; [lia|lia|done].
Qed.

(** A loop that breaks or finishes within its measure terminates. *)
Lemma while_loop_inv {T} (I Q : T → Prop) (μ : T → nat) body fuel s :
  (∀ s, I s → ∃ c, body s = Some c ∧
     match c with Next s' => I s' ∧ (μ s' < μ s)%nat | Break s' => Q s' end) →
  I s → (μ s < fuel)%nat → ∃ s', while_loop fuel body s = Some s' ∧ Q s'.
Proof.
  intros Hb. revert s. induction fuel as [|fuel IH]; intros s Hs Hf; [lia|]. cbn [while_loop].
  destruct (Hb s Hs) as ([s'|s'] & -> & H); cbn; [|by eauto].
  destruct H as [H Hμ]. apply IH; [done|lia].
Qed.

Lemma while_loop_break {T} n body (s s' : T) :
  body s = Some (Break s') → while_loop (S n) body s = Some s'.
Proof. intros E. cbn [while_loop]. by rewrite E. Qed.

Lemma while_loop_next {T} n body (s s' : T) :
  body s = Some (Next s') → while_loop (S n) body s = while_loop n body s'.
Proof. intros E. cbn [while_loop]. by rewrite E. Qed.
