(* ===== verification/Sha256Spec.v ===== *)
(** * SHA-256 as FIPS 180-4 defines it

    The reference the implementation of [Sha256] is proved equal to.  Words are
    integers in [0, 2^32), messages lists of bytes.  The functions are written
    from the standard (rotation is arithmetic, the padding length is the
    solution of the standard's congruence, the schedule a growing list), not
    from the C code. *)

From S2P Require Import Prelude.

(** Section 2.2.2 of the standard: the circular right shift of a 32-bit word. *)
Definition ROTR (n x : Z) : Z := x / 2 ^ n + (x mod 2 ^ n) * 2 ^ (32 - n).

(** Section 4.1.2, functions (4.2)-(4.7). *)
Definition Ch (x y z : Z) : Z := Z.lxor (Z.land x y) (Z.land (2 ^ 32 - 1 - x) z).
Definition Maj (x y z : Z) : Z := Z.lxor (Z.lxor (Z.land x y) (Z.land x z)) (Z.land y z).
Definition Sigma0 (x : Z) : Z := Z.lxor (Z.lxor (ROTR 2 x) (ROTR 13 x)) (ROTR 22 x).
Definition Sigma1 (x : Z) : Z := Z.lxor (Z.lxor (ROTR 6 x) (ROTR 11 x)) (ROTR 25 x).
Definition sigma0 (x : Z) : Z := Z.lxor (Z.lxor (ROTR 7 x) (ROTR 18 x)) (x / 2 ^ 3).
Definition sigma1 (x : Z) : Z := Z.lxor (Z.lxor (ROTR 17 x) (ROTR 19 x)) (x / 2 ^ 10).

(** The first 64 primes. *)
Definition is_prime (n : nat) : bool :=
  forallb (λ d, negb (n mod d =? 0)%nat) (seq 2 (n - 2)).

Definition primes64 : list Z := take 64 (Z.of_nat <$> filter (λ n, is_prime n = true) (seq 2 310)).

(** The integer cube root of [x], by its bits from number [n - 1] down. *)
Fixpoint cbrt_bits (n : nat) (x r : Z) : Z :=
  match n with
  | O => r
  | S n' =>
      let r' := r + 2 ^ Z.of_nat n' in
      cbrt_bits n' x (if r' ^ 3 <=? x then r' else r)
  end.

(** Section 4.2.2: the first 32 bits of the fractional parts of the cube roots
    of the first 64 primes. *)
Definition K : list Z :=
  Eval cbv in map (λ p, cbrt_bits 36 (p * 2 ^ 96) 0 mod 2 ^ 32) primes64.

(** The eight working variables, also the hash value. *)
Record words8 : Type := W8 { wa : Z; wb : Z; wc : Z; wd : Z; we : Z; wf : Z; wg : Z; wh : Z }.

Definition words8_list (v : words8) : list Z :=
  [wa v; wb v; wc v; wd v; we v; wf v; wg v; wh v].

(** Section 5.3.3: the first 32 bits of the fractional parts of the square
    roots of the first 8 primes. *)
Definition sqrt_frac (i : nat) : Z := Z.sqrt (default 0 (primes64 !! i) * 2 ^ 64) mod 2 ^ 32.

Definition H0 : words8 :=
  Eval cbv in W8 (sqrt_frac 0) (sqrt_frac 1) (sqrt_frac 2) (sqrt_frac 3)
                 (sqrt_frac 4) (sqrt_frac 5) (sqrt_frac 6) (sqrt_frac 7).

(** Big-endian words of a block of bytes. *)
Definition be32 (b0 b1 b2 b3 : Z) : Z := b0 * 2 ^ 24 + b1 * 2 ^ 16 + b2 * 2 ^ 8 + b3.

Fixpoint block_words (bs : list Z) : list Z :=
  match bs with
  | b0 :: b1 :: b2 :: b3 :: bs' => be32 b0 b1 b2 b3 :: block_words bs'
  | _ => []
  end.

(** Section 6.2.2, step 1: the schedule grows by one word at a time. *)
Definition extend (W : list Z) : list Z :=
  let t := length W in
  let w (n : nat) := default 0 (W !! (t - n)%nat) in
  W ++ [(sigma1 (w 2%nat) + w 7%nat + sigma0 (w 15%nat) + w 16%nat) mod 2 ^ 32].

Definition schedule (block : list Z) : list Z := Nat.iter 48 extend (block_words block).

(** Section 6.2.2, step 3: one round, with its constant and schedule word. *)
Definition round (v : words8) (kw : Z * Z) : words8 :=
  let T1 := (wh v + Sigma1 (we v) + Ch (we v) (wf v) (wg v) + kw.1 + kw.2) mod 2 ^ 32 in
  let T2 := (Sigma0 (wa v) + Maj (wa v) (wb v) (wc v)) mod 2 ^ 32 in
  W8 ((T1 + T2) mod 2 ^ 32) (wa v) (wb v) (wc v) ((wd v + T1) mod 2 ^ 32) (we v) (wf v) (wg v).

(** Section 6.2.2, step 4. *)
Definition add8 (u v : words8) : words8 :=
  W8 ((wa u + wa v) mod 2 ^ 32) ((wb u + wb v) mod 2 ^ 32) ((wc u + wc v) mod 2 ^ 32)
     ((wd u + wd v) mod 2 ^ 32) ((we u + we v) mod 2 ^ 32) ((wf u + wf v) mod 2 ^ 32)
     ((wg u + wg v) mod 2 ^ 32) ((wh u + wh v) mod 2 ^ 32).

Definition compress (H : words8) (block : list Z) : words8 :=
  add8 H (foldl round H (zip K (schedule block))).

(** The hash value after the complete 64-byte blocks of a message. *)
Definition block_at (m : list Z) (i : nat) : list Z := take 64 (drop (64 * i) m).

Definition hash_blocks (m : list Z) : words8 :=
  foldl (λ H i, compress H (block_at m i)) H0 (seq 0 (length m / 64)).

(** Section 5.1.1: one bit, [k] zero bits where [l + 1 + k = 448 (mod 512)],
    and the message length [l] in bits as a 64-bit big-endian integer. *)
Definition be64 (x : Z) : list Z :=
  map (λ i, (x / 2 ^ (8 * (7 - Z.of_nat i))) mod 256) (seq 0 8).

Definition zero_bits (l : Z) : Z := (448 - (l + 1)) mod 512.

Definition pad (m : list Z) : list Z :=
  let l := 8 * zlen m in
  m ++ [128] ++ replicate (Z.to_nat ((zero_bits l - 7) / 8)) 0 ++ be64 l.

Definition be32_bytes (w : Z) : list Z :=
  [w / 2 ^ 24 mod 256; w / 2 ^ 16 mod 256; w / 2 ^ 8 mod 256; w mod 256].

Definition digest (H : words8) : list Z := concat (map be32_bytes (words8_list H)).

Definition sha256 (m : list Z) : list Z := digest (hash_blocks (pad m)).

(** ** Test vectors of the standard *)

(** SHA-256 of "abc". *)
Example sha256_abc : sha256 [97; 98; 99] =
  [0xba; 0x78; 0x16; 0xbf; 0x8f; 0x01; 0xcf; 0xea; 0x41; 0x41; 0x40; 0xde; 0x5d; 0xae; 0x22; 0x23;
   0xb0; 0x03; 0x61; 0xa3; 0x96; 0x17; 0x7a; 0x9c; 0xb4; 0x10; 0xff; 0x61; 0xf2; 0x00; 0x15; 0xad].
Proof. vm_compute. reflexivity. Qed.

(** SHA-256 of the empty message. *)
Example sha256_empty : sha256 [] =
  [0xe3; 0xb0; 0xc4; 0x42; 0x98; 0xfc; 0x1c; 0x14; 0x9a; 0xfb; 0xf4; 0xc8; 0x99; 0x6f; 0xb9; 0x24;
   0x27; 0xae; 0x41; 0xe4; 0x64; 0x9b; 0x93; 0x4c; 0xa4; 0x95; 0x99; 0x1b; 0x78; 0x52; 0xb8; 0x55].
Proof. vm_compute. reflexivity. Qed.

(** ** Shape of the specification *)

Lemma K_length : length K = 64%nat.
Proof. done. Qed.

Lemma extend_length W : length (extend W) = S (length W).
Proof. unfold extend. rewrite length_app. cbn. lia. Qed.

Lemma iter_extend_length n W : length (Nat.iter n extend W) = (length W + n)%nat.
Proof.
  induction n as [|n IH]; [cbn; lia|].
  change (Nat.iter (S n) extend W) with (extend (Nat.iter n extend W)).
  rewrite extend_length, IH. lia.
Qed.

Lemma extend_prefix W i : (i < length W)%nat → extend W !! i = W !! i.
Proof. intros H. unfold extend. by rewrite lookup_app_l. Qed.

Lemma block_words_length n bs : length bs = (4 * n)%nat → length (block_words bs) = n.
Proof.
  revert bs. induction n as [|n IH]; intros bs H.
  - by destruct bs.
  - destruct bs as [|b0 [|b1 [|b2 [|b3 bs]]]]; cbn in H; try lia.
    cbn. rewrite IH; lia.
Qed.

Lemma block_words_lookup bs (i : nat) b0 b1 b2 b3 :
  bs !! (4 * i)%nat = Some b0 → bs !! (4 * i + 1)%nat = Some b1 →
  bs !! (4 * i + 2)%nat = Some b2 → bs !! (4 * i + 3)%nat = Some b3 →
  block_words bs !! i = Some (be32 b0 b1 b2 b3).
Proof.
  revert bs. induction i as [|i IH]; intros bs E0 E1 E2 E3.
  - destruct bs as [|? [|? [|? [|? bs]]]]; cbn in *; congruence.
  - replace (4 * S i)%nat with (4 + 4 * i)%nat in * by lia.
    destruct bs as [|? [|? [|? [|? bs]]]]; cbn -[Nat.mul] in *; try done.
    by apply IH.
Qed.

(** The number of zero bytes the padding holds. *)
Lemma zero_bytes n : (zero_bits (8 * n) - 7) / 8 = (55 - n) mod 64.
Proof.
  unfold zero_bits. replace (448 - (8 * n + 1)) with (7 + 8 * (55 - n)) by lia.
  change 512 with (8 * 64). rewrite Z.rem_mul_r by lia.
  replace ((7 + 8 * (55 - n)) / 8) with (55 - n) by nat_div.
  replace ((7 + 8 * (55 - n)) mod 8) with 7 by nat_div.
  nat_div.
Qed.

Lemma pad_length_mod m : (length (pad m) mod 64 = 0)%nat.
Proof.
  unfold pad. rewrite zero_bytes, !length_app, length_replicate.
  change (length (be64 _)) with 8%nat. cbn [length].
  pose proof (Z.div_mod (55 - zlen m) 64 ltac:(lia)).
  pose proof (Z.mod_pos_bound (55 - zlen m) 64 ltac:(lia)).
  replace (length m + _)%nat with (Z.to_nat (- ((55 - zlen m) / 64) + 1) * 64)%nat by lia.
  apply Nat.Div0.mod_mul.
Qed.

Lemma be32_bytes_ok w : bytes_ok (be32_bytes w).
Proof. repeat constructor; apply Z.mod_pos_bound; lia. Qed.

Lemma digest_length H : length (digest H) = 32%nat.
Proof. done. Qed.

Lemma digest_ok H : bytes_ok (digest H).
Proof. unfold digest, words8_list. cbn. repeat constructor; apply Z.mod_pos_bound; lia. Qed.

Lemma sha256_length m : length (sha256 m) = 32%nat.
Proof. done. Qed.

Lemma sha256_ok m : bytes_ok (sha256 m).
Proof. apply digest_ok. Qed.

(** The first [k] blocks do not depend on what follows them. *)
Lemma blocks_prefix {B} (f : B → list Z → B) m r H k :
  (64 * k <= length m)%nat →
  foldl (λ H i, f H (block_at (m ++ r) i)) H (seq 0 k) =
  foldl (λ H i, f H (block_at m i)) H (seq 0 k).
Proof.
  induction k as [|k IH]; intros Hk; [done|].
  rewrite seq_S, !foldl_app, IH by lia. cbn [foldl]. f_equal.
  unfold block_at. rewrite drop_app_le by lia. rewrite take_app_le; [done|].
  rewrite length_drop. lia.
Qed.

Lemma whole_blocks {A} (m : list A) :
  (length m mod 64 = 0)%nat → ∃ n, length m = (64 * n)%nat.
Proof. intros H. exists (length m / 64)%nat. apply Nat.Div0.div_exact. done. Qed.

Lemma div64 n r : (r < 64)%nat → ((64 * n + r) / 64 = n)%nat.
Proof. intros H. symmetry. by apply Nat.div_unique with r. Qed.

(** Appending a whole block to whole blocks compresses it. *)
Lemma hash_blocks_app m b :
  (length m mod 64 = 0)%nat → length b = 64%nat →
  hash_blocks (m ++ b) = compress (hash_blocks m) b.
Proof.
  intros [n Hn]%whole_blocks Hb. unfold hash_blocks. rewrite length_app, Hb, Hn.
  replace (64 * n + 64)%nat with (64 * S n + 0)%nat by lia.
  replace (64 * n)%nat with (64 * n + 0)%nat by lia.
  rewrite !div64, seq_S, foldl_app, (blocks_prefix compress) by lia. cbn [foldl]. f_equal.
  unfold block_at. rewrite drop_app_ge by lia.
  replace (64 * (0 + n) - length m)%nat with 0%nat by lia.
  rewrite drop_0, take_ge by lia. done.
Qed.

(** Bytes after the last complete block are not hashed. *)
Lemma hash_blocks_partial m r :
  (length m mod 64 = 0)%nat → (length r < 64)%nat → hash_blocks (m ++ r) = hash_blocks m.
Proof.
  intros [n Hn]%whole_blocks Hr. unfold hash_blocks. rewrite length_app, Hn.
  replace (64 * n)%nat with (64 * n + 0)%nat at 2 by lia.
  rewrite !div64 by lia. apply (blocks_prefix compress). lia.
Qed.

(** Words stay in range. *)
Definition words8_ok (v : words8) : Prop := Forall word_ok (words8_list v).

Lemma mod32_ok x : word_ok (x mod 2 ^ 32).
Proof. apply Z.mod_pos_bound. lia. Qed.
#[export] Hint Resolve mod32_ok : word.

Lemma add8_ok u v : words8_ok (add8 u v).
Proof. unfold words8_ok, words8_list. cbn [add8 wa wb wc wd we wf wg wh]. auto 20 with word. Qed.

Lemma H0_ok : words8_ok H0.
Proof. unfold words8_ok, words8_list, word_ok. cbn. repeat constructor; lia. Qed.

Lemma hash_blocks_ok m : words8_ok (hash_blocks m).
Proof.
  unfold hash_blocks. generalize (seq 0 (length m / 64)). intros l.
  assert (∀ H, words8_ok H → words8_ok (foldl (λ H i, compress H (block_at m i)) H l)) as G;
    [|apply G, H0_ok].
  induction l as [|i l IH]; intros H HH; [done|]. cbn. apply IH, add8_ok.
Qed.
