(* ===== verification/Sha256.v ===== *)
(** * The in-kernel SHA-256 ([packet-solutions/xdp_prog_kern_02.c], [sha256.h])

    The hash state lives in two per-CPU array maps: [sha256_ctx_map] holds the
    [SHA256_CTX], [sha256_temp_map] a value of 384 bytes declared as
    [BYTE buffer[128]] followed by [WORD m[64]].  [sha256_transform] reads the
    latter through [struct {WORD m[64];} *], so its schedule starts at byte 0
    and overlaps [buffer]; the value is therefore kept as its bytes.  A map
    lookup that returns NULL is [None] in the map's field; an access outside an
    object makes the whole computation [None]. *)

From S2P Require Import Prelude Sha256Spec.

Local Open Scope c_scope.

(** ** Data *)

Record SHA256_CTX : Type := mkCTX {
  ctx_data : list Z;      (* BYTE data[64] *)
  ctx_datalen : Z;        (* WORD *)
  ctx_bitlen : Z;         (* unsigned long long *)
  ctx_state : words8;     (* WORD state[8], indexed by constants only *)
}.

(** The entry 0 of [sha256_ctx_map] and of [sha256_temp_map] on this CPU. *)
Record bpf_maps : Type := mkMaps {
  sha256_ctx_map : option SHA256_CTX;
  sha256_temp_map : option (list Z);
}.

(** What a [const BYTE data[]] argument points to. *)
Inductive byte_src : Type :=
| CtxData                 (* ctx->data *)
| TempBuffer              (* temp->buffer *)
| Bytes (l : list Z).     (* memory outside the maps *)

Definition src_get (σ : bpf_maps) (src : byte_src) (j : Z) : option Z :=
  match src with
  | CtxData => c ← sha256_ctx_map σ; aget (ctx_data c) j
  | TempBuffer => t ← sha256_temp_map σ; if j <? 128 then aget t j else None
  | Bytes l => aget l j
  end.

(** [temp->m[i]]: word [i] of the temporary value seen as [WORD m[64]]. *)
Definition m_get (σ : bpf_maps) (i : Z) : option Z :=
  t ← sha256_temp_map σ; if i <? 64 then ld_le32 t (4 * i) else None.

Definition m_set (σ : bpf_maps) (i w : Z) : option bpf_maps :=
  t ← sha256_temp_map σ;
  if i <? 64 then
    t' ← st_le32 t (4 * i) w; Some (mkMaps (sha256_ctx_map σ) (Some t'))
  else None.

Definition set_ctx (σ : bpf_maps) (c : SHA256_CTX) : bpf_maps :=
  mkMaps (Some c) (sha256_temp_map σ).

(** ** Macros *)

Definition ROTLEFT (a b : Z) : Z := (a ≪₃₂ b) ∨₃₂ (a ≫₃₂ (32 - b)).
Definition ROTRIGHT (a b : Z) : Z := (a ≫₃₂ b) ∨₃₂ (a ≪₃₂ (32 - b)).
Definition CH (x y z : Z) : Z := (x ∧₃₂ y) ⊕₃₂ (¬₃₂ x ∧₃₂ z).
Definition MAJ (x y z : Z) : Z := (x ∧₃₂ y) ⊕₃₂ (x ∧₃₂ z) ⊕₃₂ (y ∧₃₂ z).
Definition EP0 (x : Z) : Z := ROTRIGHT x 2 ⊕₃₂ ROTRIGHT x 13 ⊕₃₂ ROTRIGHT x 22.
Definition EP1 (x : Z) : Z := ROTRIGHT x 6 ⊕₃₂ ROTRIGHT x 11 ⊕₃₂ ROTRIGHT x 25.
Definition SIG0 (x : Z) : Z := ROTRIGHT x 7 ⊕₃₂ ROTRIGHT x 18 ⊕₃₂ (x ≫₃₂ 3).
Definition SIG1 (x : Z) : Z := ROTRIGHT x 17 ⊕₃₂ ROTRIGHT x 19 ⊕₃₂ (x ≫₃₂ 10).

Definition k : list Z :=
  [0x428a2f98; 0x71374491; 0xb5c0fbcf; 0xe9b5dba5; 0x3956c25b; 0x59f111f1; 0x923f82a4; 0xab1c5ed5]
  ++ [0xd807aa98; 0x12835b01; 0x243185be; 0x550c7dc3; 0x72be5d74; 0x80deb1fe; 0x9bdc06a7; 0xc19bf174]
  ++ [0xe49b69c1; 0xefbe4786; 0x0fc19dc6; 0x240ca1cc; 0x2de92c6f; 0x4a7484aa; 0x5cb0a9dc; 0x76f988da]
  ++ [0x983e5152; 0xa831c66d; 0xb00327c8; 0xbf597fc7; 0xc6e00bf3; 0xd5a79147; 0x06ca6351; 0x14292967]
  ++ [0x27b70a85; 0x2e1b2138; 0x4d2c6dfc; 0x53380d13; 0x650a7354; 0x766a0abb; 0x81c2c92e; 0x92722c85]
  ++ [0xa2bfe8a1; 0xa81a664b; 0xc24b8b70; 0xc76c51a3; 0xd192e819; 0xd6990624; 0xf40e3585; 0x106aa070]
  ++ [0x19a4c116; 0x1e376c08; 0x2748774c; 0x34b0bcb5; 0x391c0cb3; 0x4ed8aa4a; 0x5b9cca4f; 0x682e6ff3]
  ++ [0x748f82ee; 0x78a5636f; 0x84c87814; 0x8cc70208; 0x90befffa; 0xa4506ceb; 0xbef9a3f7; 0xc67178f2].

(** ** [sha256_transform] *)

(** Body of the first loop: word [i] of the block, big-endian. *)
Definition load_word (src : byte_src) (i : Z) (σ : bpf_maps) : option (ctl bpf_maps) :=
  if 16 <=? i then Some (Break σ) else
  let j := i * 4 in
  if 64 <=? j + 3 then Some (Break σ) else
  d0 ← src_get σ src j;
  d1 ← src_get σ src (j + 1);
  d2 ← src_get σ src (j + 2);
  d3 ← src_get σ src (j + 3);
  σ' ← m_set σ i ((d0 ≪₃₂ 24) ∨₃₂ (d1 ≪₃₂ 16) ∨₃₂ (d2 ≪₃₂ 8) ∨₃₂ d3);
  Some (Next σ').

(** Body of the second loop; the guards compare unsigned values with 0. *)
Definition extend_word (i : Z) (σ : bpf_maps) : option (ctl bpf_maps) :=
  if 64 <=? i then Some (Break σ) else
  if (u32 (i - 2) <? 0) || (u32 (i - 7) <? 0) || (u32 (i - 15) <? 0) || (u32 (i - 16) <? 0)
  then Some (Break σ) else
  m2 ← m_get σ (i - 2);
  m7 ← m_get σ (i - 7);
  m15 ← m_get σ (i - 15);
  m16 ← m_get σ (i - 16);
  σ' ← m_set σ i (SIG1 m2 +₃₂ m7 +₃₂ SIG0 m15 +₃₂ m16);
  Some (Next σ').

(** Body of the main compression loop on the variables [a] to [h]. *)
Definition round_body (σ : bpf_maps) (i : Z) (v : words8) : option (ctl words8) :=
  if 64 <=? i then Some (Break v) else
  ki ← aget k i;
  mi ← m_get σ i;
  let t1 := wh v +₃₂ EP1 (we v) +₃₂ CH (we v) (wf v) (wg v) +₃₂ ki +₃₂ mi in
  let t2 := EP0 (wa v) +₃₂ MAJ (wa v) (wb v) (wc v) in
  Some (Next (W8 (t1 +₃₂ t2) (wa v) (wb v) (wc v) (wd v +₃₂ t1) (we v) (wf v) (wg v))).

Definition sha256_transform (data : byte_src) (σ : bpf_maps) : option (Z * bpf_maps) :=
  match sha256_ctx_map σ, sha256_temp_map σ with
  | None, _ | _, None => Some (-1, σ)
  | Some _, Some _ =>
      σ ← for_loop 0 16 (load_word data) σ;
      σ ← for_loop 16 64 extend_word σ;
      c ← sha256_ctx_map σ;
      let s := ctx_state c in
      v ← for_loop 0 64 (round_body σ) s;
      let s' := W8 (wa s +₃₂ wa v) (wb s +₃₂ wb v) (wc s +₃₂ wc v) (wd s +₃₂ wd v)
                   (we s +₃₂ we v) (wf s +₃₂ wf v) (wg s +₃₂ wg v) (wh s +₃₂ wh v) in
      Some (0, set_ctx σ (mkCTX (ctx_data c) (ctx_datalen c) (ctx_bitlen c) s'))
  end.

(** ** [sha256_init], [sha256_update], [sha256_final] *)

Definition sha256_init (σ : bpf_maps) : Z * bpf_maps :=
  match sha256_ctx_map σ with
  | None => (-1, σ)
  | Some c =>
      (0, set_ctx σ (mkCTX (ctx_data c) 0 0
        (W8 0x6a09e667 0xbb67ae85 0x3c6ef372 0xa54ff53a 0x510e527f 0x9b05688c 0x1f83d9ab 0x5be0cd19)))
  end.

Definition update_body (data : byte_src) (len i : Z) (σ : bpf_maps) : option (ctl bpf_maps) :=
  if len <=? i then Some (Break σ) else
  c ← sha256_ctx_map σ;
  if 64 <=? ctx_datalen c then Some (Break σ) else
  b ← src_get σ data i;
  d ← aset (ctx_data c) (ctx_datalen c) b;
  let c := mkCTX d (u32 (ctx_datalen c + 1)) (ctx_bitlen c) (ctx_state c) in
  let σ := set_ctx σ c in
  if ctx_datalen c =? 64 then
    '(_, σ) ← sha256_transform CtxData σ;
    c ← sha256_ctx_map σ;
    Some (Next (set_ctx σ (mkCTX (ctx_data c) 0 (u64 (ctx_bitlen c + 512)) (ctx_state c))))
  else Some (Next σ).

(** The counter is a [WORD], 32 bits, that is compared with a [size_t]. *)
Definition update_iter (data : byte_src) (len : Z) (s : Z * bpf_maps) : option (ctl (Z * bpf_maps)) :=
  let '(i, σ) := s in
  c ← update_body data len i σ;
  match c with
  | Next σ => Some (Next (u32 (i + 1), σ))
  | Break σ => Some (Break (i, σ))
  end.

(** With [len] below 2^32 the loop ends after [len] iterations; a longer one it
    never ends ([Sha256Correct.sha256_update_spins]). *)
Definition sha256_update (data : byte_src) (len : Z) (σ : bpf_maps) : option (Z * bpf_maps) :=
  match sha256_ctx_map σ with
  | None => Some (-1, σ)
  | Some _ => '(_, σ) ← while_loop (S (Z.to_nat len)) (update_iter data len) (0, σ); Some (0, σ)
  end.

(** [while (i < hi) { if (i >= 64) break; ctx->data[i] = 0; i++; }] and the
    counting loop that clears the first 56 bytes. *)
Definition zero_body (i : Z) (d : list Z) : option (ctl (list Z)) :=
  if 64 <=? i then Some (Break d) else
  d' ← aset d i 0; Some (Next d').

(** The eight bytes of the bit count, [ctx->data[56..63]]. *)
Definition put_bitlen (d : list Z) (bitlen : Z) : option (list Z) :=
  d ← aset d 56 (u8 (bitlen ≫₃₂ 56)); d ← aset d 57 (u8 (bitlen ≫₃₂ 48));
  d ← aset d 58 (u8 (bitlen ≫₃₂ 40)); d ← aset d 59 (u8 (bitlen ≫₃₂ 32));
  d ← aset d 60 (u8 (bitlen ≫₃₂ 24)); d ← aset d 61 (u8 (bitlen ≫₃₂ 16));
  d ← aset d 62 (u8 (bitlen ≫₃₂ 8)); aset d 63 (u8 bitlen).

Definition hash_body (s : words8) (i : Z) (hash : list Z) : option (ctl (list Z)) :=
  if 4 <=? i then Some (Break hash) else
  if (i <? 32) && (i + 4 <? 32) && (i + 8 <? 32) && (i + 12 <? 32) &&
     (i + 16 <? 32) && (i + 20 <? 32) && (i + 24 <? 32) && (i + 28 <? 32)
  then
    let byte w := (w ≫₃₂ (24 - i * 8)) ∧₃₂ 0x000000ff in
    h ← aset hash i (byte (wa s)); h ← aset h (i + 4) (byte (wb s));
    h ← aset h (i + 8) (byte (wc s)); h ← aset h (i + 12) (byte (wd s));
    h ← aset h (i + 16) (byte (we s)); h ← aset h (i + 20) (byte (wf s));
    h ← aset h (i + 24) (byte (wg s)); h ← aset h (i + 28) (byte (wh s));
    Some (Next h)
  else Some (Next hash).

(** Padding of the pending data, up to the call that appends the length. *)
Definition final_pad (σ : bpf_maps) : option bpf_maps :=
  c ← sha256_ctx_map σ;
  let i := if 64 <=? ctx_datalen c then 0 else ctx_datalen c in
  let put_80 := if i <? 64 then d ← aset (ctx_data c) i 0x80; Some (d, i + 1)
                else Some (ctx_data c, i) in
  let with_data d := set_ctx σ (mkCTX d (ctx_datalen c) (ctx_bitlen c) (ctx_state c)) in
  if ctx_datalen c <? 56 then
    '(d, i) ← put_80;
    d ← for_loop i 56 zero_body d;
    Some (with_data d)
  else
    '(d, i) ← put_80;
    d ← for_loop i 64 zero_body d;
    '(_, σ) ← sha256_transform CtxData (with_data d);
    c ← sha256_ctx_map σ;
    d ← for_loop 0 56 zero_body (ctx_data c);
    Some (set_ctx σ (mkCTX d (ctx_datalen c) (ctx_bitlen c) (ctx_state c))).

Definition sha256_final (hash : list Z) (σ : bpf_maps) : option (Z * list Z * bpf_maps) :=
  match sha256_ctx_map σ with
  | None => Some (-1, hash, σ)
  | Some _ =>
      σ ← final_pad σ;
      c ← sha256_ctx_map σ;
      let bitlen := u64 (ctx_bitlen c + u32 (ctx_datalen c * 8)) in
      d ← put_bitlen (ctx_data c) bitlen;
      '(_, σ) ← sha256_transform CtxData
        (set_ctx σ (mkCTX d (ctx_datalen c) bitlen (ctx_state c)));
      c ← sha256_ctx_map σ;
      hash ← for_loop 0 4 (hash_body (ctx_state c)) hash;
      Some (0, hash, σ)
  end.
