(* ===== verification/Sha256Correct.v ===== *)
(** * The in-kernel SHA-256 implements FIPS 180-4

    Refinement of [Sha256] to [Sha256Spec]: the macros, one transform, the
    absorption of bytes and the final padding, then the digest of any sequence
    of updates.  Every theorem is a total-correctness statement: the code does
    not fault and returns. *)

From S2P Require Import Prelude Sha256Spec Sha256.

Local Open Scope c_scope.

(** ** The macros compute the functions of the standard *)

Lemma high_bits_range x n : 0 <= n <= 32 → word_ok x → 0 <= x / 2 ^ n < 2 ^ (32 - n).
Proof.
  unfold word_ok. intros Hn Hx. pose proof (Z.pow_pos_nonneg 2 n ltac:(lia) ltac:(lia)).
  split; [apply Z.div_pos; lia|]. apply Z.div_lt_upper_bound; [lia|].
  rewrite <- Z.pow_add_r by lia. replace (n + (32 - n)) with 32 by lia. lia.
Qed.

Lemma ROTRIGHT_ROTR x n : 0 < n < 32 → word_ok x → ROTRIGHT x n = ROTR n x.
Proof.
  intros Hn Hx. pose proof (high_bits_range x n ltac:(lia) Hx).
  unfold ROTRIGHT, ROTR, shl32, u32.
  rewrite Z.shiftl_mul_pow2, Z.shiftr_div_pow2 by lia.
  replace (2 ^ 32) with (2 ^ n * 2 ^ (32 - n)) at 1
    by (rewrite <- Z.pow_add_r by lia; f_equal; lia).
  rewrite Z.mul_mod_distr_r by (apply Z.pow_nonzero; lia).
  rewrite <- Z.shiftl_mul_pow2, Z.lor_comm by lia.
  rewrite lor_add_disjoint, Z.shiftl_mul_pow2 by lia. lia.
Qed.

Lemma ROTRIGHT_ok x n : word_ok x → 0 <= n → word_ok (ROTRIGHT x n).
Proof.
  intros Hx Hn. unfold ROTRIGHT, shl32. apply (lor_ok 32); [lia| |apply u32_range].
  by apply shiftr_ok.
Qed.

Lemma not32_spec x : word_ok x → not32 x = 2 ^ 32 - 1 - x.
Proof.
  unfold word_ok, not32, u32, Z.lnot. intros H.
  symmetry. apply Z.mod_unique with (-1); lia.
Qed.

Lemma CH_Ch x y z : word_ok x → CH x y z = Ch x y z.
Proof. intros H. unfold CH, Ch. by rewrite not32_spec. Qed.

Lemma EP0_Sigma0 x : word_ok x → EP0 x = Sigma0 x.
Proof. intros H. unfold EP0, Sigma0. by rewrite !ROTRIGHT_ROTR by (done || lia). Qed.

Lemma EP1_Sigma1 x : word_ok x → EP1 x = Sigma1 x.
Proof. intros H. unfold EP1, Sigma1. by rewrite !ROTRIGHT_ROTR by (done || lia). Qed.

Lemma SIG0_sigma0 x : word_ok x → SIG0 x = sigma0 x.
Proof.
  intros H. unfold SIG0, sigma0. rewrite !ROTRIGHT_ROTR by (done || lia).
  by rewrite Z.shiftr_div_pow2 by lia.
Qed.

Lemma SIG1_sigma1 x : word_ok x → SIG1 x = sigma1 x.
Proof.
  intros H. unfold SIG1, sigma1. rewrite !ROTRIGHT_ROTR by (done || lia).
  by rewrite Z.shiftr_div_pow2 by lia.
Qed.

Create Rewrite HintDb sha.
#[export] Hint Rewrite CH_Ch EP0_Sigma0 EP1_Sigma1 SIG0_sigma0 SIG1_sigma1
  using assumption : sha.

(** A chain of 32-bit additions reduces once. *)
Lemma add32_3 a b c : a +₃₂ b +₃₂ c = (a + b + c) mod 2 ^ 32.
Proof. unfold add32, u32. by rewrite Zplus_mod_idemp_l. Qed.

Lemma add32_4 a b c d : a +₃₂ b +₃₂ c +₃₂ d = (a + b + c + d) mod 2 ^ 32.
Proof. rewrite (add32_3 a b c). unfold add32, u32. by rewrite Zplus_mod_idemp_l. Qed.

Lemma add32_5 a b c d e : a +₃₂ b +₃₂ c +₃₂ d +₃₂ e = (a + b + c + d + e) mod 2 ^ 32.
Proof. rewrite (add32_4 a b c d). unfold add32, u32. by rewrite Zplus_mod_idemp_l. Qed.

Lemma be32_lor b0 b1 b2 b3 :
  byte_ok b0 → byte_ok b1 → byte_ok b2 → byte_ok b3 →
  (b0 ≪₃₂ 24) ∨₃₂ (b1 ≪₃₂ 16) ∨₃₂ (b2 ≪₃₂ 8) ∨₃₂ b3 = be32 b0 b1 b2 b3.
Proof.
  unfold byte_ok, shl32, be32. intros.
  rewrite !u32_small by (unfold word_ok; rewrite Z.shiftl_mul_pow2 by lia; lia).
  rewrite <- Z.lor_assoc, (lor_add_disjoint 8), <- Z.lor_assoc by lia.
  rewrite (lor_add_disjoint 16), lor_add_disjoint by lia. lia.
Qed.

(** ** The message schedule in the temporary map *)

(** The words [ws] are stored in [temp->m] from index 0. *)
Definition stored (t : list Z) (ws : list Z) : Prop :=
  ∀ j w, ws !! j = Some w → ld_le32 t (4 * Z.of_nat j) = Some w.

Lemma m_get_stored σ t ws (i : nat) :
  sha256_temp_map σ = Some t → stored t ws → (i < length ws)%nat → (i < 64)%nat →
  m_get σ (Z.of_nat i) = Some (default 0 (ws !! i)).
Proof.
  intros Ht Hs Hi H64. unfold m_get. rewrite Ht. cbn. zcase; [|lia].
  destruct (lookup_lt_is_Some_2 ws i Hi) as [w Hw]. rewrite Hw. cbn. by apply Hs.
Qed.

Lemma m_set_stored σ t ws w (i : nat) :
  sha256_temp_map σ = Some t → length t = 384%nat → stored t ws → i = length ws →
  (i < 64)%nat → word_ok w →
  ∃ t', m_set σ (Z.of_nat i) w = Some (mkMaps (sha256_ctx_map σ) (Some t'))
    ∧ length t' = 384%nat ∧ stored t' (ws ++ [w]).
Proof.
  intros Ht HL Hs -> Hi Hw. unfold m_set. rewrite Ht. cbn. zcase; [|lia].
  destruct (st_le32_ok t (4 * zlen ws) w) as (t' & -> & HL' & Hld & Hoth); [lia..|].
  cbn. eexists. split; [done|]. split; [lia|].
  intros j x Hj. apply lookup_app_Some in Hj as [Hj|[Hge Hj]].
  - pose proof (lookup_lt_Some _ _ _ Hj).
    rewrite (ld_le32_ext t); [by apply Hs|]. intros p Hp. apply Hoth. lia.
  - apply list_lookup_singleton_Some in Hj as [Hj <-].
    replace (Z.of_nat j) with (zlen ws) by lia. by rewrite Hld, u32_small.
Qed.

Lemma be32_word_ok b0 b1 b2 b3 :
  byte_ok b0 → byte_ok b1 → byte_ok b2 → byte_ok b3 → word_ok (be32 b0 b1 b2 b3).
Proof. unfold byte_ok, word_ok, be32. lia. Qed.

(** [σ'] is [σ] with another temporary value. *)
Definition same_ctx (σ σ' : bpf_maps) : Prop := sha256_ctx_map σ' = sha256_ctx_map σ.

(** Invariant of both schedule loops: the first [i] words are [ws]. *)
Record sched_inv (c : SHA256_CTX) (ws : list Z) (i : Z) (σ : bpf_maps) : Prop := {
  si_ctx : sha256_ctx_map σ = Some c;
  si_temp : ∃ t, sha256_temp_map σ = Some t ∧ length t = 384%nat ∧ stored t ws;
  si_len : zlen ws = i;
  si_ok : Forall word_ok ws;
}.

Lemma sched_inv_push c ws σ w i :
  sched_inv c ws i σ → word_ok w → i < 64 →
  ∃ σ', m_set σ i w = Some σ' ∧ sched_inv c (ws ++ [w]) (i + 1) σ'.
Proof.
  intros [Hc (t & Ht & HL & Hs) <- Hok] Hw Hi.
  destruct (m_set_stored σ t ws w (length ws)) as (t' & E & HL' & Hs'); [done..|lia|done|].
  rewrite E. eexists. split; [done|]. split.
  - done.
  - by exists t'.
  - rewrite length_app. cbn. lia.
  - apply Forall_app_2; [done|]. by constructor.
Qed.

Lemma load_word_ok c i σ :
  0 <= i < 16 → length (ctx_data c) = 64%nat → bytes_ok (ctx_data c) →
  sched_inv c (take (Z.to_nat i) (block_words (ctx_data c))) i σ →
  ∃ σ', load_word CtxData i σ = Some (Next σ')
    ∧ sched_inv c (take (Z.to_nat (i + 1)) (block_words (ctx_data c))) (i + 1) σ'.
Proof.
  intros Hi Hlen Hok Hinv. unfold load_word, src_get. zcase; try lia.
  rewrite (si_ctx _ _ _ _ Hinv). cbn [mbind option_bind].
  destruct (aget_is_Some (ctx_data c) (i * 4)) as [b0 E0]; [lia|].
  destruct (aget_is_Some (ctx_data c) (i * 4 + 1)) as [b1 E1]; [lia|].
  destruct (aget_is_Some (ctx_data c) (i * 4 + 2)) as [b2 E2]; [lia|].
  destruct (aget_is_Some (ctx_data c) (i * 4 + 3)) as [b3 E3]; [lia|].
  rewrite E0, E1, E2, E3. cbn [mbind option_bind].
  assert (byte_ok b0 ∧ byte_ok b1 ∧ byte_ok b2 ∧ byte_ok b3) as (?&?&?&?)
    by (repeat split; eapply aget_byte; eauto).
  rewrite be32_lor by done.
  destruct (sched_inv_push _ _ _ (be32 b0 b1 b2 b3) _ Hinv) as (σ' & -> & H');
    [by apply be32_word_ok|lia|].
  cbn. eexists. split; [done|].
  replace (Z.to_nat (i + 1)) with (S (Z.to_nat i)) by lia.
  rewrite (take_S_r _ _ (be32 b0 b1 b2 b3)); [done|].
  rewrite aget_to_nat in E0, E1, E2, E3 by lia.
  apply block_words_lookup; [rewrite <- E0|rewrite <- E1|rewrite <- E2|rewrite <- E3]; f_equal; lia.
Qed.

Lemma lookup_word_ok ws i : Forall word_ok ws → word_ok (default 0 (ws !! i)).
Proof.
  intros H. destruct (ws !! i) as [w|] eqn:E; cbn; [by eapply Forall_lookup_1|].
  unfold word_ok. lia.
Qed.

Lemma extend_word_ok c ws i σ :
  16 <= i < 64 → sched_inv c ws i σ →
  ∃ σ', extend_word i σ = Some (Next σ') ∧ sched_inv c (extend ws) (i + 1) σ'.
Proof.
  intros Hi Hinv. unfold extend_word. rewrite !u32_small by (unfold word_ok; lia).
  zcase; try lia.
  pose proof Hinv as [_ (t & Ht & _ & Hs) Hlen Hok].
  replace (i - 2) with (Z.of_nat (length ws - 2)) by lia.
  replace (i - 7) with (Z.of_nat (length ws - 7)) by lia.
  replace (i - 15) with (Z.of_nat (length ws - 15)) by lia.
  replace (i - 16) with (Z.of_nat (length ws - 16)) by lia.
  rewrite !(m_get_stored σ t ws) by (done || lia). cbn [mbind option_bind].
  rewrite SIG1_sigma1, SIG0_sigma0 by (by apply lookup_word_ok).
  rewrite add32_4.
  match goal with |- context [m_set σ i ?w] =>
    destruct (sched_inv_push c ws σ w i Hinv) as (σ' & -> & H'); [apply mod32_ok|lia|] end.
  cbn. eexists. split; [done|]. exact H'.
Qed.

Lemma load_words_ok c σ t :
  length (ctx_data c) = 64%nat → bytes_ok (ctx_data c) →
  sha256_ctx_map σ = Some c → sha256_temp_map σ = Some t → length t = 384%nat →
  ∃ σ', for_loop 0 16 (load_word CtxData) σ = Some σ'
    ∧ sched_inv c (block_words (ctx_data c)) 16 σ'.
Proof.
  intros Hlen Hok Hc Ht HL.
  destruct (for_loop_inv (λ i, sched_inv c (take (Z.to_nat i) (block_words (ctx_data c))) i)
    (load_word CtxData) 0 16 σ) as (σ' & E & H); [lia| | |].
  - intros i σ0 Hi. by apply load_word_ok.
  - split; [done| |done|constructor]. exists t. split_and!; [done..|]. by intros j w Hj.
  - exists σ'. split; [done|]. rewrite take_ge in H; [done|].
    rewrite (block_words_length 16) by lia. lia.
Qed.

Lemma extend_words_ok c σ block :
  sched_inv c (block_words block) 16 σ →
  ∃ σ', for_loop 16 64 extend_word σ = Some σ' ∧ sched_inv c (schedule block) 64 σ'.
Proof.
  unfold schedule. set (ws := block_words block). intros H0.
  destruct (for_loop_inv (λ i, sched_inv c (Nat.iter (Z.to_nat (i - 16)) extend ws) i)
    extend_word 16 64 σ) as (σ' & E & H); [lia| |done|by exists σ'].
  intros i σ0 Hi Hinv. replace (Z.to_nat (i + 1 - 16)) with (S (Z.to_nat (i - 16))) by lia.
  by apply extend_word_ok.
Qed.

(** ** The compression loop *)

Lemma k_K : k = K.
Proof. done. Qed.

Lemma round_ok v kw : words8_ok v → words8_ok (round v kw).
Proof.
  unfold words8_ok, words8_list. intros H.
  forall_inv.
  unfold round. cbv zeta. cbn [wa wb wc wd we wf wg wh]. forall_intro.
Qed.

Lemma round_body_ok c ws σ v (i : nat) kw :
  sched_inv c ws 64 σ → words8_ok v → (i < 64)%nat → zip K ws !! i = Some kw →
  round_body σ (Z.of_nat i) v = Some (Next (round v kw)).
Proof.
  destruct kw as [ki wi].
  intros [_ (t & Ht & _ & Hs) Hlen _] Hv Hi [Hk Hw]%lookup_zip_Some.
  unfold round_body. zcase; [lia|]. rewrite k_K, aget_nat, Hk. cbn [mbind option_bind].
  rewrite (m_get_stored σ t ws) by (done || lia). rewrite Hw.
  cbn [mbind option_bind default from_option id]. unfold words8_ok, words8_list in Hv.
  forall_inv.
  rewrite EP1_Sigma1, CH_Ch, EP0_Sigma0 by done.
  rewrite (add32_5 (wh v)). done.
Qed.

Lemma rounds_ok c ws σ v :
  sched_inv c ws 64 σ → words8_ok v →
  ∃ v', for_loop 0 64 (round_body σ) v = Some v' ∧ v' = foldl round v (zip K ws).
Proof.
  intros Hinv Hv. pose proof (si_len _ _ _ _ Hinv).
  assert (length (zip K ws) = 64%nat) as Hzip by (rewrite length_zip, K_length; lia).
  destruct (for_loop_inv
    (λ i v', v' = foldl round v (take (Z.to_nat i) (zip K ws)) ∧ words8_ok v')
    (round_body σ) 0 64 v) as (v' & E & H'); [lia| |done|].
  - intros i v1 Hi [-> Hok].
    destruct (lookup_lt_is_Some_2 (zip K ws) (Z.to_nat i)) as [kw Hkw]; [lia|].
    eexists. split.
    + rewrite <- (Z2Nat.id i) at 1 by lia. eapply round_body_ok; [done..|lia|done].
    + replace (Z.to_nat (i + 1)) with (S (Z.to_nat i)) by lia.
      rewrite (take_S_r _ _ kw) by done. rewrite foldl_app. split; [done|]. by apply round_ok.
  - exists v'. split; [done|]. destruct H' as [-> _]. rewrite take_ge; [done|lia].
Qed.

(** ** One transform *)

(** Both map entries exist and have the declared sizes. *)
Record maps_ok (c : SHA256_CTX) (σ : bpf_maps) : Prop := {
  mo_ctx : sha256_ctx_map σ = Some c;
  mo_temp : ∃ t, sha256_temp_map σ = Some t ∧ length t = 384%nat;
  mo_data : length (ctx_data c) = 64%nat;
  mo_bytes : bytes_ok (ctx_data c);
  mo_state : words8_ok (ctx_state c);
}.

Lemma add_state s v :
  W8 (wa s +₃₂ wa v) (wb s +₃₂ wb v) (wc s +₃₂ wc v) (wd s +₃₂ wd v)
     (we s +₃₂ we v) (wf s +₃₂ wf v) (wg s +₃₂ wg v) (wh s +₃₂ wh v) = add8 s v.
Proof. done. Qed.

Lemma compress_eq H block : compress H block = add8 H (foldl round H (zip K (schedule block))).
Proof. done. Qed.

Lemma compress_ok H block : words8_ok (compress H block).
Proof. apply add8_ok. Qed.

#[local] Opaque schedule compress.

Lemma sha256_transform_ok c σ :
  maps_ok c σ →
  ∃ σ', sha256_transform CtxData σ = Some (0, σ')
    ∧ maps_ok (mkCTX (ctx_data c) (ctx_datalen c) (ctx_bitlen c)
                 (compress (ctx_state c) (ctx_data c))) σ'.
Proof.
  intros [Hc (t & Ht & HL) Hlen Hok Hst]. unfold sha256_transform. rewrite Hc, Ht.
  destruct (load_words_ok c σ t) as (σ1 & -> & H1); [done..|]. cbn [mbind option_bind].
  destruct (extend_words_ok c σ1 _ H1) as (σ2 & -> & H2). cbn [mbind option_bind].
  rewrite (si_ctx _ _ _ _ H2). cbn [mbind option_bind].
  destruct (rounds_ok c _ σ2 (ctx_state c) H2) as (v & -> & ->); [done|]. cbn [mbind option_bind].
  rewrite add_state, <- compress_eq.
  eexists. split; [reflexivity|]. destruct (si_temp _ _ _ _ H2) as (t2 & Ht2 & HL2 & _).
  split; cbn [set_ctx sha256_ctx_map sha256_temp_map ctx_data ctx_state];
    [reflexivity|by exists t2|assumption..|apply compress_ok].
Qed.

(** ** Absorbing bytes *)

(** The context has absorbed [m]: the complete blocks are in the hash value,
    the rest is pending in [data]. *)
Definition absorbed (c : SHA256_CTX) (m : list Z) : Prop :=
  ∃ full tail, m = full ++ tail ∧ (length full mod 64 = 0)%nat ∧ (length tail < 64)%nat
    ∧ take (length tail) (ctx_data c) = tail ∧ ctx_datalen c = zlen tail
    ∧ ctx_bitlen c = u64 (8 * zlen full) ∧ ctx_state c = hash_blocks full.

Lemma sha256_init_ok c σ :
  maps_ok c σ →
  ∃ c', sha256_init σ = (0, set_ctx σ c') ∧ maps_ok c' (set_ctx σ c') ∧ absorbed c' []
    ∧ ctx_datalen c' = 0.
Proof.
  intros [Hc Ht Hl Hb Hs]. unfold sha256_init. rewrite Hc.
  eexists. split; [reflexivity|]. split; [split; [done|done|done|done|apply H0_ok]|].
  split; [|done]. exists [], []. cbn [length ctx_data]. split_and!; try done. cbn; lia.
Qed.

Lemma update_step c σ m src len i b :
  maps_ok c σ → absorbed c m → byte_ok b → src_get σ src i = Some b → i < len →
  ∃ c' σ', update_body src len i σ = Some (Next σ') ∧ maps_ok c' σ' ∧ absorbed c' (m ++ [b])
    ∧ (ctx_datalen c + 1 < 64 →
       sha256_temp_map σ' = sha256_temp_map σ ∧ ctx_datalen c' = ctx_datalen c + 1).
Proof.
  intros [Hc Ht Hl Hbs Hs] (full & tail & -> & Hfull & Htail & Htake & Hdl & Hbl & Hst) Hb Hget Hi.
  unfold update_body. rewrite Hget, Hc. cbn [mbind option_bind]. zcase; try lia.
  rewrite aset_eq by lia. cbn [mbind option_bind ctx_datalen].
  rewrite u32_small by (unfold word_ok; lia).
  replace (Z.to_nat (ctx_datalen c)) with (length tail) by lia.
  set (d := <[length tail := b]> (ctx_data c)).
  assert (length d = 64%nat) by (unfold d; by rewrite length_insert).
  assert (bytes_ok d) by (by apply Forall_insert).
  assert (take (S (length tail)) d = tail ++ [b]) as Hd.
  { rewrite (take_S_r _ _ b) by (apply list_lookup_insert_eq; lia). f_equal.
    unfold d. by rewrite take_insert_ge by lia. }
  set (c1 := mkCTX d (ctx_datalen c + 1) (ctx_bitlen c) (ctx_state c)).
  assert (maps_ok c1 (set_ctx σ c1)) as Hm1 by (split; done).
  zcase.
  - destruct (sha256_transform_ok c1 _ Hm1) as (σ2 & -> & [Hc2 Ht2 Hl2 Hb2 Hs2]).
    cbn [mbind option_bind]. rewrite Hc2. cbn [mbind option_bind ctx_data ctx_bitlen ctx_state c1].
    do 2 eexists. split; [reflexivity|].
    split; [split; [reflexivity|done|done|done|apply compress_ok]|].
    split; [|lia]. exists (full ++ d), [].
    assert (length tail = 63%nat) by lia.
    assert (tail ++ [b] = d) as Hdd by (rewrite <- Hd; apply take_ge; lia).
    split_and!; [by rewrite app_nil_r, <- app_assoc, Hdd| |cbn; lia|done|done| |].
    + rewrite length_app. apply whole_blocks in Hfull as [n Hn].
      replace (length full + length d)%nat with (64 * S n + 0)%nat by lia.
      rewrite Nat.add_0_r, Nat.mul_comm. apply Nat.Div0.mod_mul.
    + cbn [ctx_bitlen]. rewrite Hbl, length_app. unfold u64. rewrite Zplus_mod_idemp_l. f_equal. lia.
    + cbn [ctx_state]. by rewrite Hst, hash_blocks_app.
  - do 2 eexists. split; [reflexivity|]. split; [exact Hm1|]. split; [|done].
    exists full, (tail ++ [b]). rewrite length_app. cbn [c1 ctx_data ctx_datalen ctx_bitlen ctx_state length].
    rewrite Nat.add_1_r, app_assoc. split_and!; [done|done|lia|done|lia|done|done].
Qed.

Lemma update_iter_eq data len i σ : update_iter data len (i, σ) =
  c ← update_body data len i σ; match c with Next σ => Some (Next (u32 (i + 1), σ)) | Break σ => Some (Break (i, σ)) end.
Proof. done. Qed.

(** Below 2^32 the counter does not wrap. *)
Lemma update_counts data len n : ∀ i σ, 0 <= i → i + Z.of_nat n = len → len < 2 ^ 32 →
  ('(_, σ') ← while_loop (S n) (update_iter data len) (i, σ); Some σ') = for_up n i (update_body data len) σ.
Proof.
  induction n as [|n IH]; intros i σ Hi Hlen Hw.
  - cbn [while_loop for_up]. unfold update_iter, update_body. by rewrite (proj2 (Z.leb_le len i)) by lia.
  - cbn [for_up]. change (while_loop (S (S n)) ?b ?s) with (c ← b s; match c with Next s' => while_loop (S n) b s' | Break s' => Some s' end).
    rewrite update_iter_eq. destruct (update_body data len i σ) as [[σ'|σ']|]; cbn [mbind option_bind]; [|done|done].
    rewrite u32_small by (unfold word_ok; lia). apply IH; lia.
Qed.

Lemma sha256_update_loop data len σ c : sha256_ctx_map σ = Some c → 0 <= len < 2 ^ 32 →
  sha256_update data len σ = σ' ← for_loop 0 len (update_body data len) σ; Some (0, σ').
Proof.
  intros Hc Hl. unfold sha256_update, for_loop. rewrite Hc, Z.sub_0_r, <- (update_counts data len (Z.to_nat len) 0 σ) by lia.
  by destruct (while_loop _ _ _) as [[i σ']|].
Qed.

(** From 2^32 bytes on, the counter never gets to the length. *)
Lemma sha256_update_spins c σ m l fuel :
  maps_ok c σ → absorbed c m → bytes_ok l → 2 ^ 32 <= zlen l → while_loop fuel (update_iter (Bytes l) (zlen l)) (0, σ) = None.
Proof.
  intros Hm Ha Hl Hlen. enough (∀ i c σ m, word_ok i → maps_ok c σ → absorbed c m → while_loop fuel (update_iter (Bytes l) (zlen l)) (i, σ) = None) as H
    by (by apply (H 0 c σ m)).
  clear c σ m Hm Ha. induction fuel as [|fuel IH]; intros i c σ m Hi Hm Ha; [done|]. cbn [while_loop]. destruct (aget_is_Some l i ltac:(unfold word_ok in Hi; lia)) as [b Hb].
  destruct (update_step c σ m (Bytes l) (zlen l) i b Hm Ha) as (c' & σ' & E & Hm' & Ha' & _); [by eapply aget_byte|done|unfold word_ok in Hi; lia|].
  rewrite update_iter_eq, E. cbn [mbind option_bind]. apply (IH _ c' σ' (m ++ [b])); [apply u32_ok|done|done].
Qed.

Lemma sha256_update_ok c σ m l :
  maps_ok c σ → absorbed c m → bytes_ok l → zlen l < 2 ^ 32 →
  ∃ c' σ', sha256_update (Bytes l) (zlen l) σ = Some (0, σ') ∧ maps_ok c' σ' ∧ absorbed c' (m ++ l).
Proof.
  intros Hm Ha Hl Hlen. rewrite (sha256_update_loop _ _ _ _ (mo_ctx _ _ Hm)) by lia.
  destruct (for_loop_inv
    (λ i σ, ∃ c, maps_ok c σ ∧ absorbed c (m ++ take (Z.to_nat i) l))
    (update_body (Bytes l) (zlen l)) 0 (zlen l) σ) as (σ' & -> & c' & Hm' & Ha'); [lia| | |].
  - intros i σ1 Hi (c1 & Hm1 & Ha1). destruct (aget_is_Some l i Hi) as [b Hb].
    destruct (update_step c1 σ1 _ (Bytes l) (zlen l) i b Hm1 Ha1) as (c2 & σ2 & -> & Hm2 & Ha2 & _);
      [by eapply aget_byte|done|lia|].
    exists σ2. split; [done|]. exists c2. split; [done|].
    replace (Z.to_nat (i + 1)) with (S (Z.to_nat i)) by lia.
    rewrite (take_S_r _ _ b) by (rewrite <- aget_to_nat by lia; done). by rewrite app_assoc.
  - exists c. by rewrite take_0, app_nil_r.
  - exists c', σ'. rewrite take_ge in Ha' by lia. done.
Qed.

(** Hashing the temporary buffer: no transform runs before the bytes are
    copied as long as they fit in the pending block. *)
Lemma sha256_update_temp_ok c σ m t n :
  maps_ok c σ → absorbed c m → sha256_temp_map σ = Some t → bytes_ok (take n t) →
  (n <= 128)%nat → ctx_datalen c + Z.of_nat n < 64 →
  ∃ c' σ', sha256_update TempBuffer (Z.of_nat n) σ = Some (0, σ')
    ∧ maps_ok c' σ' ∧ absorbed c' (m ++ take n t).
Proof.
  intros Hm Ha Ht Hb Hn Hd. rewrite (sha256_update_loop _ _ _ _ (mo_ctx _ _ Hm)) by lia.
  destruct (mo_temp _ _ Hm) as (t' & Ht' & HL). rewrite Ht in Ht'. injection Ht' as <-.
  destruct (for_loop_inv
    (λ i σ, sha256_temp_map σ = Some t ∧ ∃ c1, maps_ok c1 σ ∧ absorbed c1 (m ++ take (Z.to_nat i) t)
       ∧ ctx_datalen c1 = ctx_datalen c + i)
    (update_body TempBuffer (Z.of_nat n)) 0 (Z.of_nat n) σ)
    as (σ' & -> & _ & c' & Hm' & Ha' & _); [lia| | |].
  - intros i σ1 Hi (Ht1 & c1 & Hm1 & Ha1 & Hd1). destruct (aget_is_Some t i) as [b Hbi]; [lia|].
    destruct (update_step c1 σ1 _ TempBuffer (Z.of_nat n) i b Hm1 Ha1)
      as (c2 & σ2 & -> & Hm2 & Ha2 & Hsame); [| |lia|].
    + eapply (Forall_lookup_1 _ (take n t) (Z.to_nat i)); [done|].
      rewrite lookup_take_lt by lia. by rewrite <- aget_to_nat by lia.
    + cbn. rewrite Ht1. cbn. zcase; [done|lia].
    + exists σ2. split; [done|]. destruct Hsame as [-> ?]; [lia|]. split; [done|].
      exists c2. split; [done|]. split; [|lia].
      replace (Z.to_nat (i + 1)) with (S (Z.to_nat i)) by lia.
      rewrite (take_S_r _ _ b) by (rewrite <- aget_to_nat by lia; done). by rewrite app_assoc.
  - split; [done|]. exists c. rewrite take_0, app_nil_r. split_and!; [done..|lia].
  - exists c', σ'. rewrite Nat2Z.id in Ha'. done.
Qed.

(** ** Padding and the digest *)

Lemma zero_loop lo hi (d : list Z) :
  0 <= lo <= hi → hi <= 64 → length d = 64%nat →
  for_loop lo hi zero_body d =
    Some (take (Z.to_nat lo) d ++ replicate (Z.to_nat (hi - lo)) 0 ++ drop (Z.to_nat hi) d).
Proof.
  intros Hlo Hhi Hd.
  destruct (for_loop_inv (λ i d', length d' = 64%nat ∧
      d' = take (Z.to_nat lo) d ++ replicate (Z.to_nat (i - lo)) 0 ++ drop (Z.to_nat i) d)
    zero_body lo hi d) as (d' & -> & _ & H); [lia| | |by rewrite H].
  - intros i d1 Hi [H64 Hd1]. unfold zero_body. zcase; [lia|].
    rewrite aset_eq by lia. cbn [mbind option_bind]. eexists. split; [done|].
    rewrite length_insert. split; [done|]. rewrite Hd1.
    rewrite insert_app_r_alt by (autorewrite with arr; lia).
    rewrite insert_app_r_alt by (autorewrite with arr; lia). autorewrite with arr.
    replace (Z.to_nat i - _ - _)%nat with 0%nat by lia.
    replace (Z.to_nat (i + 1)) with (S (Z.to_nat i)) by lia.
    destruct (lookup_lt_is_Some_2 d (Z.to_nat i)) as [x Hx]; [lia|].
    rewrite (drop_S d x (Z.to_nat i)) by done. cbn.
    replace (Z.to_nat (i + 1 - lo)) with (Z.to_nat (i - lo) + 1)%nat by lia.
    by rewrite replicate_add, <- app_assoc.
  - rewrite Z.sub_diag. change (replicate (Z.to_nat 0) 0 ++ drop (Z.to_nat lo) d) with (drop (Z.to_nat lo) d).
    by rewrite take_drop.
Qed.

Lemma put_bitlen_eq d b :
  length d = 64%nat → put_bitlen d b = Some (take 56 d ++ be64 b).
Proof.
  intros Hd.
  transitivity (aset_list d 56 (be64 b)).
  - unfold put_bitlen, be64, u8. cbn [map seq aset_list].
    rewrite !Z.shiftr_div_pow2 by lia. cbn [Z.of_nat Z.sub Z.mul].
    change (b / 2 ^ (8 * (7 - Z.of_nat 7))) with (b / 1). rewrite Z.div_1_r.
    repeat (apply option_bind_ext_fun; intros ?). by destruct (aset _ _ _).
  - rewrite aset_list_eq by (cbn; lia). rewrite (drop_ge d) by (cbn; lia).
    by rewrite app_nil_r.
Qed.

(** The pending bytes, the byte 0x80 and zeros up to length [hi]. *)
Definition pad_to (hi : nat) (tail : list Z) : list Z :=
  tail ++ [128] ++ replicate (hi - 1 - length tail) 0.

Lemma length_pad_to hi tail : (length tail < hi)%nat → length (pad_to hi tail) = hi.
Proof. intros H. unfold pad_to. rewrite !length_app, length_replicate. cbn. lia. Qed.

Lemma zero_bytes_blocks (full tail : list Z) :
  (length full mod 64 = 0)%nat → (length tail < 64)%nat →
  Z.to_nat ((zero_bits (8 * zlen (full ++ tail)) - 7) / 8) =
    if (length tail <? 56)%nat then (55 - length tail)%nat else (119 - length tail)%nat.
Proof.
  intros [n Hn]%whole_blocks Ht. rewrite zero_bytes, length_app, Hn.
  destruct (Nat.ltb_spec (length tail) 56).
  - rewrite <- (Z.mod_unique (55 - Z.of_nat (64 * n + length tail)) 64 (- Z.of_nat n)
      (55 - zlen tail)); lia.
  - rewrite <- (Z.mod_unique (55 - Z.of_nat (64 * n + length tail)) 64 (- Z.of_nat n - 1)
      (119 - zlen tail)); lia.
Qed.

Lemma pad_short full tail :
  (length full mod 64 = 0)%nat → (length tail < 56)%nat →
  pad (full ++ tail) = full ++ pad_to 56 tail ++ be64 (8 * zlen (full ++ tail)).
Proof.
  intros Hf Ht. unfold pad. rewrite zero_bytes_blocks by (done || lia).
  rewrite (proj2 (Nat.ltb_lt _ _)) by lia. unfold pad_to. by rewrite <- !app_assoc.
Qed.

Lemma pad_long full tail :
  (length full mod 64 = 0)%nat → (56 <= length tail < 64)%nat →
  pad (full ++ tail) =
    (full ++ pad_to 64 tail) ++ replicate 56 0 ++ be64 (8 * zlen (full ++ tail)).
Proof.
  intros Hf Ht. unfold pad. rewrite zero_bytes_blocks by (done || lia).
  rewrite (proj2 (Nat.ltb_ge _ _)) by lia. unfold pad_to. rewrite <- !app_assoc.
  replace (119 - length tail)%nat with (64 - 1 - length tail + 56)%nat by lia.
  by rewrite replicate_add, <- !app_assoc.
Qed.

Lemma be64_ok x : bytes_ok (be64 x).
Proof.
  unfold be64. apply List.Forall_map, List.Forall_forall. intros i _. apply Z.mod_pos_bound. lia.
Qed.

(** The length field holds the low 64 bits of the bit count. *)
Lemma be64_u64 x : be64 (u64 x) = be64 x.
Proof.
  unfold be64. apply map_ext_in. intros i Hi%in_seq.
  apply Z.bits_inj'. intros n Hn.
  change 256 with (2 ^ 8). rewrite <- !Z.shiftr_div_pow2 by lia.
  destruct (Z.ltb_spec n 8).
  - rewrite !Z.mod_pow2_bits_low, !Z.shiftr_spec by lia. unfold u64.
    by rewrite Z.mod_pow2_bits_low by lia.
  - by rewrite !Z.mod_pow2_bits_high by lia.
Qed.

(** What [final_pad] leaves: the padded message is made of hashed blocks, the
    first 56 bytes of [data] and the length field to come. *)
Lemma final_pad_ok c σ m :
  maps_ok c σ → absorbed c m →
  ∃ c' σ' pre, final_pad σ = Some σ' ∧ maps_ok c' σ'
    ∧ ctx_datalen c' = ctx_datalen c ∧ ctx_bitlen c' = ctx_bitlen c
    ∧ (length pre mod 64 = 0)%nat ∧ ctx_state c' = hash_blocks pre
    ∧ pad m = pre ++ take 56 (ctx_data c') ++ be64 (8 * zlen m).
Proof.
  intros Hm (full & tail & -> & Hfull & Htail & Htake & Hdl & Hbl & Hst).
  pose proof Hm as [Hc Ht Hl Hbs Hs].
  unfold final_pad. rewrite Hc. cbn [mbind option_bind].
  rewrite (proj2 (Z.leb_gt 64 (ctx_datalen c))), (proj2 (Z.ltb_lt (ctx_datalen c) 64)) by lia.
  rewrite aset_eq by lia. cbn [mbind option_bind].
  replace (Z.to_nat (ctx_datalen c)) with (length tail) by lia.
  set (d := <[length tail := 128]> (ctx_data c)).
  assert (length d = 64%nat) by (unfold d; by rewrite length_insert).
  assert (bytes_ok d) by (apply Forall_insert; [done|unfold byte_ok; lia]).
  assert (take (S (length tail)) d = tail ++ [128]) as Hd.
  { rewrite (take_S_r _ _ 128) by (apply list_lookup_insert_eq; lia). f_equal.
    unfold d. by rewrite take_insert_ge by lia. }
  assert (∀ hi : nat, (length tail + 1 <= hi <= 64)%nat →
    for_loop (ctx_datalen c + 1) (Z.of_nat hi) zero_body d =
      Some (pad_to hi tail ++ drop hi d)
    ∧ bytes_ok (pad_to hi tail ++ drop hi d)) as Hloop.
  { intros hi Hhi. rewrite zero_loop by lia. unfold pad_to.
    replace (Z.to_nat (ctx_datalen c + 1)) with (S (length tail)) by lia.
    replace (Z.to_nat (Z.of_nat hi - (ctx_datalen c + 1))) with (hi - 1 - length tail)%nat by lia.
    rewrite Hd, Nat2Z.id, <- !app_assoc. split; [done|].
    rewrite !Forall_app. split_and!; [|forall_intro; unfold byte_ok; lia| |by apply Forall_drop].
    - rewrite <- Htake. by apply Forall_take.
    - apply Forall_replicate. unfold byte_ok. lia. }
  zcase.
  - destruct (Hloop 56%nat) as [E Hb']; [lia|]. change (Z.of_nat 56) with 56 in E.
    rewrite E. cbn [mbind option_bind].
    eexists _, _, full. split; [reflexivity|].
    split; [split; [reflexivity|done| |exact Hb'|done]|].
    { cbn [ctx_data]. rewrite length_app, length_pad_to, length_drop by lia. lia. }
    cbn [ctx_datalen ctx_bitlen ctx_state ctx_data]. split_and!; [done..|].
    rewrite take_app_le, take_ge by (rewrite length_pad_to; lia).
    apply pad_short; [done|lia].
  - destruct (Hloop 64%nat) as [E Hb']; [lia|]. change (Z.of_nat 64) with 64 in E.
    rewrite E. cbn [mbind option_bind].
    rewrite (drop_ge d 64), app_nil_r in * by lia. set (d1 := pad_to 64 tail) in *.
    assert (length d1 = 64%nat) by (apply length_pad_to; lia).
    set (c1 := mkCTX d1 (ctx_datalen c) (ctx_bitlen c) (ctx_state c)).
    assert (maps_ok c1 (set_ctx σ c1)) as Hm1 by (split; done).
    destruct (sha256_transform_ok c1 _ Hm1) as (σ2 & -> & [Hc2 Ht2 Hl2 Hb2 Hs2]).
    cbn [mbind option_bind]. rewrite Hc2. cbn [mbind option_bind ctx_data].
    rewrite zero_loop by (cbn; lia). cbn [mbind option_bind c1 ctx_data ctx_datalen ctx_bitlen ctx_state].
    change (Z.to_nat 0) with 0%nat. rewrite take_0. change ([] ++ ?x) with x.
    change (Z.to_nat (56 - 0)) with 56%nat. change (Z.to_nat 56) with 56%nat.
    eexists _, _, (full ++ d1). split; [reflexivity|].
    split; [split; [reflexivity|done| | |apply compress_ok]|].
    { cbn [ctx_data]. rewrite length_app, length_replicate, length_drop. lia. }
    { cbn [ctx_data]. apply Forall_app_2; [apply Forall_replicate; unfold byte_ok; lia|].
      by apply Forall_drop. }
    cbn [ctx_datalen ctx_bitlen ctx_state ctx_data]. split_and!; [done|done| | |].
    + rewrite length_app. apply whole_blocks in Hfull as [n Hn].
      replace (length full + length d1)%nat with (S n * 64)%nat by lia. apply Nat.Div0.mod_mul.
    + by rewrite Hst, hash_blocks_app.
    + rewrite take_app_le, (take_ge (replicate 56 0)) by (rewrite length_replicate; lia).
      apply pad_long; [done|lia].
Qed.

(** The output loop, for any function [byte] giving byte [i] of a word. *)
Definition hash_body_gen (byte : Z → Z → Z) (s : words8) (i : Z) (h : list Z) : option (ctl (list Z)) :=
  if 4 <=? i then Some (Break h) else
  if (i <? 32) && (i + 4 <? 32) && (i + 8 <? 32) && (i + 12 <? 32) &&
     (i + 16 <? 32) && (i + 20 <? 32) && (i + 24 <? 32) && (i + 28 <? 32)
  then
    h ← aset h i (byte i (wa s)); h ← aset h (i + 4) (byte i (wb s));
    h ← aset h (i + 8) (byte i (wc s)); h ← aset h (i + 12) (byte i (wd s));
    h ← aset h (i + 16) (byte i (we s)); h ← aset h (i + 20) (byte i (wf s));
    h ← aset h (i + 24) (byte i (wg s)); h ← aset h (i + 28) (byte i (wh s));
    Some (Next h)
  else Some (Next h).

Lemma hash_loop_gen (byte : Z → Z → Z) s h :
  length h = 32%nat →
  for_loop 0 4 (hash_body_gen byte s) h =
    Some (concat (map (λ w, [byte 0 w; byte 1 w; byte 2 w; byte 3 w]) (words8_list s))).
Proof.
  intros Hh. do 32 (destruct h as [|? h]; [discriminate Hh|]).
  destruct h; [|discriminate Hh]. clear Hh. destruct s. vm_compute. reflexivity.
Qed.

Lemma hash_loop s h :
  length h = 32%nat → for_loop 0 4 (hash_body s) h = Some (digest s).
Proof.
  intros Hh.
  change (hash_body s) with (hash_body_gen (λ i w, (w ≫₃₂ (24 - i * 8)) ∧₃₂ 0x000000ff) s).
  rewrite hash_loop_gen by done. unfold digest. do 2 f_equal.
  apply map_ext. intros w. unfold be32_bytes. change 0x000000ff with (Z.ones 8).
  rewrite !Z.land_ones, !Z.shiftr_div_pow2 by lia. cbn -[Z.pow Z.div Z.modulo].
  change (2 ^ 0) with 1. by rewrite Z.div_1_r.
Qed.

Lemma sha256_final_ok c σ m h :
  maps_ok c σ → absorbed c m → length h = 32%nat →
  ∃ c' σ', sha256_final h σ = Some (0, sha256 m, σ') ∧ maps_ok c' σ'.
Proof.
  intros Hm Ha Hh. unfold sha256_final. rewrite (mo_ctx _ _ Hm).
  destruct (final_pad_ok c σ m Hm Ha)
    as (c1 & σ1 & pre & -> & [Hc1 Ht1 Hl1 Hb1 Hs1] & Hdl & Hbl & Hpre & Hst & Hpad).
  cbn [mbind option_bind]. rewrite Hc1. cbn [mbind option_bind].
  rewrite put_bitlen_eq by done. cbn [mbind option_bind].
  assert (u64 (ctx_bitlen c1 + u32 (ctx_datalen c1 * 8)) = u64 (8 * zlen m)) as ->.
  { destruct Ha as (full & tail & -> & _ & Htl & _ & Hd & Hb & _). rewrite Hbl, Hdl, Hb, Hd.
    rewrite u32_small by (unfold word_ok; lia). unfold u64.
    rewrite Zplus_mod_idemp_l, length_app. f_equal. lia. }
  assert (be64 (u64 (8 * zlen m)) = be64 (8 * zlen m)) as -> by apply be64_u64.
  set (d := take 56 (ctx_data c1) ++ be64 (8 * zlen m)) in *.
  set (c2 := mkCTX d (ctx_datalen c1) (u64 (8 * zlen m)) (ctx_state c1)).
  assert (length d = 64%nat) by (unfold d; rewrite length_app, length_take; change (length (be64 _)) with 8%nat; lia).
  assert (maps_ok c2 (set_ctx σ1 c2)) as Hm2.
  { split; [done|done|done| |done]. apply Forall_app_2; [by apply Forall_take|apply be64_ok]. }
  destruct (sha256_transform_ok c2 _ Hm2) as (σ2 & -> & Hm3).
  cbn [mbind option_bind]. rewrite (mo_ctx _ _ Hm3). cbn [mbind option_bind ctx_state].
  rewrite hash_loop by done. cbn [mbind option_bind].
  eexists _, _. split; [|exact Hm3]. do 3 f_equal. unfold sha256.
  by rewrite Hpad, hash_blocks_app, <- Hst.
Qed.

(** ** The theorems *)

(** A sequence of [sha256_update] calls on memory outside the maps. *)
Fixpoint sha256_updates (chunks : list (list Z)) (σ : bpf_maps) : option bpf_maps :=
  match chunks with
  | [] => Some σ
  | l :: chunks' => '(_, σ) ← sha256_update (Bytes l) (zlen l) σ; sha256_updates chunks' σ
  end.

(** [sha256_init(); sha256_update(...); ...; sha256_final(hash)]. *)
Definition sha256_run (chunks : list (list Z)) (hash : list Z) (σ : bpf_maps)
    : option (Z * list Z * bpf_maps) :=
  σ ← sha256_updates chunks (sha256_init σ).2; sha256_final hash σ.

(** The entries of a freshly created map: zeroed values. *)
Definition ctx0 : SHA256_CTX := mkCTX (replicate 64 0) 0 0 (W8 0 0 0 0 0 0 0 0).
Definition maps0 : bpf_maps := mkMaps (Some ctx0) (Some (replicate 384 0)).

Lemma zeros_ok n : bytes_ok (replicate n 0).
Proof. apply Forall_replicate. unfold byte_ok. lia. Qed.

Lemma maps0_ok : maps_ok ctx0 maps0.
Proof.
  split; [done|by exists (replicate 384 0)|done|apply zeros_ok|].
  change (Forall word_ok (replicate 8 0)). apply Forall_replicate. unfold word_ok. lia.
Qed.

(** Data of one [sha256_update]: shorter than 2^32 bytes. *)
Definition chunk_ok (l : list Z) : Prop := bytes_ok l ∧ zlen l < 2 ^ 32.

Lemma sha256_updates_ok c σ m chunks :
  maps_ok c σ → absorbed c m → Forall chunk_ok chunks →
  ∃ c' σ', sha256_updates chunks σ = Some σ' ∧ maps_ok c' σ' ∧ absorbed c' (m ++ concat chunks).
Proof.
  revert c σ m. induction chunks as [|l chunks IH]; intros c σ m Hm Ha Hl; cbn.
  { exists c, σ. by rewrite app_nil_r. }
  apply Forall_cons_1 in Hl as [[Hb Hlen] Hl]. destruct (sha256_update_ok c σ m l Hm Ha Hb Hlen) as (c1 & σ1 & -> & Hm1 & Ha1).
  cbn [mbind option_bind]. rewrite app_assoc. by apply (IH c1).
Qed.

(** C8: the in-kernel SHA-256 is the SHA-256 of FIPS 180-4: from any state of
    the two map entries, [sha256_init], any sequence of [sha256_update] calls,
    each on less than 2^32 bytes (its counter has 32 bits), and [sha256_final]
    return 0 without a fault, write the digest of the concatenated data to
    [hash] and leave well-formed entries. *)
Theorem sha256_implements_fips c σ chunks hash :
  maps_ok c σ → Forall chunk_ok chunks → length hash = 32%nat →
  ∃ c' σ', sha256_run chunks hash σ = Some (0, sha256 (concat chunks), σ') ∧ maps_ok c' σ'.
Proof.
  intros Hm Hl Hh. unfold sha256_run.
  destruct (sha256_init_ok c σ Hm) as (c1 & -> & Hm1 & Ha1 & _). cbn [snd].
  destruct (sha256_updates_ok c1 _ [] chunks Hm1 Ha1 Hl) as (c2 & σ2 & -> & Hm2 & Ha2).
  cbn [mbind option_bind]. exact (sha256_final_ok c2 σ2 _ hash Hm2 Ha2 Hh).
Qed.

Lemma sha256_implements_fips_witness :
  ∃ c' σ', sha256_run [[97]; [98; 99]] (replicate 32 0) maps0
    = Some (0, sha256 (concat [[97]; [98; 99]]), σ') ∧ maps_ok c' σ'.
Proof.
  apply (sha256_implements_fips ctx0); [apply maps0_ok| |reflexivity].
  repeat apply Forall_cons_2; [split; [by apply bytes_ok_dec|reflexivity]..|apply Forall_nil_2].
Defined.

(** Errors of the map lookups.  With no context entry, every function
    returns -1 and changes nothing; with a context but no temporary entry,
    [sha256_transform] returns -1 and changes nothing, yet [sha256_final]
    ignores it and reports success with the bytes of a hash value that never
    saw the pending data. *)
Theorem sha256_lookup_errors :
  (∀ σ src len hash, sha256_ctx_map σ = None →
     sha256_init σ = (-1, σ) ∧ sha256_update src len σ = Some (-1, σ)
     ∧ sha256_transform src σ = Some (-1, σ) ∧ sha256_final hash σ = Some (-1, hash, σ))
  ∧ (∀ σ src, sha256_temp_map σ = None → sha256_transform src σ = Some (-1, σ))
  ∧ (∀ c hash, length (ctx_data c) = 64%nat → 0 <= ctx_datalen c < 56 → length hash = 32%nat →
       ∃ σ', sha256_final hash (mkMaps (Some c) None) = Some (0, digest (ctx_state c), σ')).
Proof.
  split_and!.
  - intros σ src len hash H. unfold sha256_init, sha256_update, sha256_transform, sha256_final.
    by rewrite H.
  - intros σ src H. unfold sha256_transform. rewrite H. by destruct (sha256_ctx_map σ).
  - intros c hash Hl Hd Hh. unfold sha256_final, final_pad. cbn [sha256_ctx_map mbind option_bind].
    rewrite (proj2 (Z.leb_gt 64 (ctx_datalen c))), (proj2 (Z.ltb_lt (ctx_datalen c) 64)),
      (proj2 (Z.ltb_lt (ctx_datalen c) 56)) by lia.
    rewrite aset_eq by lia. cbn [mbind option_bind].
    rewrite zero_loop by (rewrite ?length_insert; lia).
    cbn [mbind option_bind set_ctx sha256_ctx_map ctx_data].
    rewrite put_bitlen_eq by (autorewrite with arr; lia). cbn [mbind option_bind].
    cbn. rewrite hash_loop by done. by eexists.
Qed.

Lemma sha256_lookup_errors_witness :
  ∃ σ', sha256_final (replicate 32 0) (mkMaps (Some ctx0) None) = Some (0, digest (ctx_state ctx0), σ').
Proof.
  apply (proj2 (proj2 sha256_lookup_errors)); [reflexivity|cbn; lia|reflexivity].
Defined.

(** [sha256_init(); sha256_update(temp->buffer, n); sha256_final(hash)]. *)
Definition sha256_temp_run (n : Z) (hash : list Z) (σ : bpf_maps) : option (Z * list Z * bpf_maps) :=
  '(_, σ) ← sha256_update TempBuffer n (sha256_init σ).2; sha256_final hash σ.

Lemma sha256_temp_run_ok c σ t n hash :
  maps_ok c σ → sha256_temp_map σ = Some t → bytes_ok (take n t) → (n < 64)%nat →
  length hash = 32%nat →
  ∃ c' σ', sha256_temp_run (Z.of_nat n) hash σ = Some (0, sha256 (take n t), σ') ∧ maps_ok c' σ'.
Proof.
  intros Hm Ht Hb Hn Hh. unfold sha256_temp_run.
  destruct (sha256_init_ok c σ Hm) as (c1 & -> & Hm1 & Ha1 & Hd1). cbn [snd].
  destruct (sha256_update_temp_ok c1 _ [] t n Hm1 Ha1) as (c2 & σ2 & -> & Hm2 & Ha2); [done|done|lia..|].
  cbn [mbind option_bind]. exact (sha256_final_ok c2 σ2 _ hash Hm2 Ha2 Hh).
Qed.

Definition overlap_temp : list Z := replicate 64 1 ++ replicate 320 0.

(** The schedule [m] written by [sha256_transform] overlaps
    [temp->buffer].  Hashing [n < 64] bytes of the buffer is exact, because no
    transform runs before they are copied; hashing 65 bytes is not: the 65th
    byte read is one of the schedule, and the digest is not that of the buffer. *)
Theorem sha256_temp_overlap :
  (∀ c σ t n hash, maps_ok c σ → sha256_temp_map σ = Some t → bytes_ok (take n t) →
     (n < 64)%nat → length hash = 32%nat →
     ∃ c' σ', sha256_temp_run (Z.of_nat n) hash σ = Some (0, sha256 (take n t), σ') ∧ maps_ok c' σ')
  ∧ (∃ h σ', sha256_temp_run 65 (replicate 32 0) (mkMaps (Some ctx0) (Some overlap_temp))
       = Some (0, h, σ') ∧ h ≠ sha256 (take 65 overlap_temp)).
Proof.
  split; [apply sha256_temp_run_ok|].
  assert (match sha256_temp_run 65 (replicate 32 0) (mkMaps (Some ctx0) (Some overlap_temp)) with
          | Some (0, h, _) => bool_decide (h ≠ sha256 (take 65 overlap_temp)) | _ => false end = true) as H
    by (vm_compute; reflexivity).
  destruct (sha256_temp_run _ _ _) as [[[[| |] h] σ']|]; try discriminate H.
  exists h, σ'. split; [done|]. by apply bool_decide_eq_true in H.
Qed.

Lemma sha256_temp_overlap_witness :
  ∃ c' σ', sha256_temp_run (Z.of_nat 36) (replicate 32 0) maps0
    = Some (0, sha256 (take 36 (replicate 384 0)), σ') ∧ maps_ok c' σ'.
Proof.
  apply (proj1 sha256_temp_overlap ctx0); [apply maps0_ok|reflexivity| |lia|reflexivity].
  apply Forall_take, zeros_ok.
Defined.
