(* ===== verification/Checksum.v ===== *)
(** * The IPv4 header checksum ([calculate_ip_checksum], [xdp_prog_kern_02.c])

    The argument is the array of bytes the [header] pointer gives access to; a
    read past its end is a fault.  The reference is RFC 1071: the complement of
    the one's complement sum of the 16-bit words, zero-padded. *)

From S2P Require Import Prelude.

(** ** The code *)

(** Body of the summing loop: [sum += buf[i]]. *)
Definition sum_body (header : list Z) (len : Z) (i sum : Z) : option (ctl Z) :=
  if Z.quot len 2 <=? i then Some (Break sum) else
  w ← ld_le16 header (2 * i);
  Some (Next (add32 sum w)).

(** Body of [while (sum >> 16) sum = (sum & 0xFFFF) + (sum >> 16)]. *)
Definition fold_body (sum : Z) : option (ctl Z) :=
  if Z.shiftr sum 16 =? 0 then Some (Break sum)
  else Some (Next (add32 (Z.land sum 0xFFFF) (Z.shiftr sum 16))).

(** Each iteration of the folding loop that is not the last lowers the sum;
    three are enough for any 32-bit value. *)
Definition fold_fuel : nat := 4.

(** The two statements that accumulate the words and the odd last byte. *)
Definition header_sum (header : list Z) (len : Z) : option Z :=
  sum ← for_loop 0 (Z.quot len 2) (sum_body header len) 0;
  if Z.rem len 2 =? 0 then Some sum
  else b ← aget header (len - 1); Some (add32 sum b).

Definition calculate_ip_checksum (header : list Z) (len : Z) : option Z :=
  sum ← header_sum header len;
  sum ← while_loop fold_fuel fold_body sum;
  Some (u16 (Z.lnot sum)).

(** ** The reference *)

(** The 16-bit words of a header as a little-endian machine loads them. *)
Fixpoint le_words (bs : list Z) : list Z :=
  match bs with
  | b0 :: b1 :: bs' => (b0 + b1 * 2 ^ 8) :: le_words bs'
  | [b0] => [b0]
  | [] => []
  end.

(** The 16-bit words in network order. *)
Fixpoint be_words (bs : list Z) : list Z :=
  match bs with
  | b0 :: b1 :: bs' => (b0 * 2 ^ 8 + b1) :: be_words bs'
  | [b0] => [b0 * 2 ^ 8]
  | [] => []
  end.

Definition sum_list (l : list Z) : Z := foldr Z.add 0 l.

(** One's complement addition on 16 bits. *)
Definition oc_add (x y : Z) : Z := if x + y <? 2 ^ 16 then x + y else x + y - (2 ^ 16 - 1).

Definition oc_sum (l : list Z) : Z := foldl oc_add 0 l.

(** RFC 1071: what the sender stores, on words in network order. *)
Definition rfc1071 (bs : list Z) : Z := 2 ^ 16 - 1 - oc_sum (be_words bs).

(** What a receiver computes: the header is accepted when the one's complement
    sum of all its words is all ones. *)
Definition checksum_valid (bs : list Z) : Prop := oc_sum (be_words bs) = 2 ^ 16 - 1.

(** ** One's complement sums *)

(** The representative of [s] modulo 2^16-1 in 1..2^16-1, or 0 for 0. *)
Definition oc_rep (s : Z) : Z := if s =? 0 then 0 else (s - 1) mod 65535 + 1.

Lemma oc_rep_range s : 0 <= oc_rep s < 2 ^ 16.
Proof.
  unfold oc_rep. pose proof (Z.mod_pos_bound (s - 1) 65535 ltac:(lia)). zcase; lia.
Qed.

(** [oc_rep s] is the only value of 0..2^16-1 congruent to [s] that is zero
    exactly when [s] is. *)
Lemma oc_rep_unique s x q :
  0 <= s → 0 <= x < 2 ^ 16 → x = s + 65535 * q → (x = 0 ↔ s = 0) → oc_rep s = x.
Proof.
  intros Hs Hx Hq Hz. unfold oc_rep. zcase; [lia|].
  rewrite <- (Z.mod_unique (s - 1) 65535 (- q) (x - 1)); lia.
Qed.

Lemma oc_rep_congr s : 0 <= s → ∃ q, oc_rep s = s + 65535 * q.
Proof.
  intros Hs. unfold oc_rep. zcase; [exists 0; lia|].
  exists (- ((s - 1) / 65535)). pose proof (Z.div_mod (s - 1) 65535 ltac:(lia)). lia.
Qed.

Lemma oc_rep_zero s : 0 <= s → oc_rep s = 0 ↔ s = 0.
Proof.
  intros Hs. unfold oc_rep. pose proof (Z.mod_pos_bound (s - 1) 65535 ltac:(lia)). zcase; lia.
Qed.

Lemma oc_rep_add s w : 0 <= s → 0 <= w < 2 ^ 16 → oc_add (oc_rep s) w = oc_rep (s + w).
Proof.
  intros Hs Hw. pose proof (oc_rep_range s). destruct (oc_rep_congr s Hs) as [q Hq].
  pose proof (oc_rep_zero s Hs). symmetry. unfold oc_add. zcase.
  - apply oc_rep_unique with q; lia.
  - apply oc_rep_unique with (q - 1); lia.
Qed.

Definition words16_ok (l : list Z) : Prop := Forall (λ w, 0 <= w < 2 ^ 16) l.

Lemma sum_list_nonneg l : words16_ok l → 0 <= sum_list l.
Proof. unfold sum_list. induction 1; cbn; lia. Qed.

Lemma sum_list_app l1 l2 : sum_list (l1 ++ l2) = sum_list l1 + sum_list l2.
Proof. unfold sum_list. induction l1 as [|x l1 IH]; cbn; lia. Qed.

Lemma sum_list_bound l : words16_ok l → sum_list l <= zlen l * 65535.
Proof. unfold sum_list. induction 1; cbn [foldr length]; lia. Qed.

Lemma oc_sum_rep l : words16_ok l → oc_sum l = oc_rep (sum_list l).
Proof.
  intros Hl. unfold oc_sum.
  assert (∀ s, 0 <= s → foldl oc_add (oc_rep s) l = oc_rep (s + sum_list l)) as G.
  { induction Hl as [|w l Hw Hl IH]; intros s Hs; cbn; [by rewrite Z.add_0_r|].
    rewrite oc_rep_add, IH by lia. f_equal. unfold sum_list. lia. }
  apply (G 0). lia.
Qed.

Lemma pair_ind (P : list Z → Prop) :
  P [] → (∀ x, P [x]) → (∀ x y l, P l → P (x :: y :: l)) → ∀ l, P l.
Proof.
  intros H0 H1 H2 l. enough (P l ∧ ∀ x, P (x :: l)) by tauto.
  induction l as [|y l [IH1 IH2]]; auto.
Qed.

Lemma be_words_ok bs : bytes_ok bs → words16_ok (be_words bs).
Proof.
  unfold words16_ok. induction bs as [|x|x y l IH] using pair_ind; intros H; cbn;
    forall_inv; unfold byte_ok in *; repeat (apply List.Forall_cons); auto; lia.
Qed.

Lemma le_words_ok bs : bytes_ok bs → words16_ok (le_words bs).
Proof.
  unfold words16_ok. induction bs as [|x|x y l IH] using pair_ind; intros H; cbn;
    forall_inv; unfold byte_ok in *; repeat (apply List.Forall_cons); auto; lia.
Qed.

(** Byte order multiplies the sum by 256 modulo 2^16-1. *)
Lemma be_le_sum bs :
  bytes_ok bs → ∃ q, sum_list (be_words bs) = 256 * sum_list (le_words bs) + 65535 * q.
Proof.
  induction bs as [|x|x y l IH] using pair_ind; intros H; cbn; forall_inv.
  - by exists 0.
  - exists 0. lia.
  - destruct IH as [q Hq]; [done|]. exists (q - y). unfold sum_list in *. lia.
Qed.

Lemma be_le_zero bs :
  bytes_ok bs → sum_list (be_words bs) = 0 ↔ sum_list (le_words bs) = 0.
Proof.
  induction bs as [|x|x y l IH] using pair_ind; intros H; cbn; forall_inv.
  - done.
  - lia.
  - specialize (IH ltac:(done)). unfold byte_ok in *.
    pose proof (sum_list_nonneg _ (be_words_ok l ltac:(done))).
    pose proof (sum_list_nonneg _ (le_words_ok l ltac:(done))). unfold sum_list in *. lia.
Qed.

Lemma bswap16_congr x : 0 <= x < 2 ^ 16 → ∃ q, bswap16 x = 256 * x + 65535 * q.
Proof.
  intros (b0 & b1 & H0 & H1 & ->)%bytes_of_u16. rewrite bswap16_bytes by done. exists (- b1). lia.
Qed.

Lemma bswap16_zero x : 0 <= x < 2 ^ 16 → bswap16 x = 0 ↔ x = 0.
Proof.
  intros (b0 & b1 & H0 & H1 & ->)%bytes_of_u16. rewrite bswap16_bytes by done.
  unfold byte_ok in *. lia.
Qed.

Lemma bswap16_compl x : 0 <= x < 2 ^ 16 → bswap16 (2 ^ 16 - 1 - x) = 2 ^ 16 - 1 - bswap16 x.
Proof.
  intros (b0 & b1 & H0 & H1 & ->)%bytes_of_u16. unfold byte_ok in *.
  replace (2 ^ 16 - 1 - (b0 + b1 * 2 ^ 8)) with ((255 - b0) + (255 - b1) * 2 ^ 8) by lia.
  rewrite !bswap16_bytes by (unfold byte_ok; lia). lia.
Qed.

(** The one's complement sum commutes with byte swapping. *)
Lemma oc_rep_bswap bs :
  bytes_ok bs → oc_rep (sum_list (be_words bs)) = bswap16 (oc_rep (sum_list (le_words bs))).
Proof.
  intros H. pose proof (sum_list_nonneg _ (be_words_ok bs H)) as Hbe.
  pose proof (sum_list_nonneg _ (le_words_ok bs H)) as Hle.
  pose proof (oc_rep_range (sum_list (le_words bs))) as Hr.
  destruct (be_le_sum bs H) as [q1 E1]. destruct (oc_rep_congr _ Hle) as [q2 E2].
  destruct (bswap16_congr _ Hr) as [q3 E3].
  apply oc_rep_unique with (256 * q2 + q3 - q1); [done|by apply bswap16_range|lia|].
  rewrite bswap16_zero, oc_rep_zero, be_le_zero by done. done.
Qed.

(** ** The code computes the reference *)

Lemma fold_step s : 0 <= s < 2 ^ 32 → oc_rep (s mod 2 ^ 16 + s / 2 ^ 16) = oc_rep s.
Proof.
  intros Hs. pose proof (Z.div_mod s (2 ^ 16) ltac:(lia)).
  pose proof (Z.mod_pos_bound s (2 ^ 16) ltac:(lia)). pose proof (Z.div_pos s (2 ^ 16) ltac:(lia)).
  set (r := s mod 2 ^ 16) in *. set (d := s / 2 ^ 16) in *.
  destruct (oc_rep_congr s) as [q Hq]; [lia|]. pose proof (oc_rep_range s).
  pose proof (oc_rep_zero s ltac:(lia)).
  apply oc_rep_unique with (q + d); lia.
Qed.

Lemma fold_body_eq s :
  0 <= s < 2 ^ 32 →
  fold_body s = Some (if s <? 2 ^ 16 then Break s else Next (s mod 2 ^ 16 + s / 2 ^ 16)).
Proof.
  intros Hs. unfold fold_body. change 0xFFFF with (Z.ones 16).
  rewrite Z.land_ones, Z.shiftr_div_pow2 by lia.
  pose proof (Z.div_mod s (2 ^ 16) ltac:(lia)). pose proof (Z.mod_pos_bound s (2 ^ 16) ltac:(lia)).
  zcase; try lia; [done|]. unfold add32. rewrite u32_small; [done|]. unfold word_ok.
  pose proof (Z.div_lt_upper_bound s (2 ^ 16) (2 ^ 16)). lia.
Qed.

(** Termination of the folding loop within [fold_fuel], and its result. *)
Lemma fold_loop s : 0 <= s < 2 ^ 32 → while_loop fold_fuel fold_body s = Some (oc_rep s).
Proof.
  intros Hs.
  destruct (while_loop_inv
    (λ x, 0 <= x < 2 ^ 32 ∧ oc_rep x = oc_rep s)
    (λ x, x = oc_rep s)
    (λ x, if x <? 2 ^ 16 then 0%nat else if x <? 2 ^ 17 - 1 then 1%nat else 2%nat)
    fold_body fold_fuel s) as (x & E & ->); [|done| |exact E].
  - intros x [Hx Hrep]. rewrite fold_body_eq by done. eexists. split; [done|].
    pose proof (Z.div_mod x (2 ^ 16) ltac:(lia)). pose proof (Z.mod_pos_bound x (2 ^ 16) ltac:(lia)).
    destruct (Z.ltb_spec x (2 ^ 16)).
    + rewrite <- Hrep. symmetry. apply oc_rep_unique with 0; lia.
    + rewrite fold_step by done. split; [split; [lia|done]|]. zcase; lia.
  - unfold fold_fuel. zcase; lia.
Qed.

Lemma ld_le16_word bs (i : nat) :
  (2 * i + 1 < length bs)%nat → ld_le16 bs (2 * Z.of_nat i) = le_words bs !! i.
Proof.
  revert i. induction bs as [|x|x y l IH] using pair_ind; intros i Hi; cbn [length] in Hi; [lia..|].
  destruct i as [|i]; [done|]. change (le_words (x :: y :: l) !! S i) with (le_words l !! i).
  rewrite <- IH by lia. unfold ld_le16.
  rewrite !(aget_app_r [x; y] l) by (cbn; lia). cbn [length].
  by replace (2 * Z.of_nat (S i) - Z.of_nat 2) with (2 * Z.of_nat i) by lia;
    replace (2 * Z.of_nat (S i) + 1 - Z.of_nat 2) with (2 * Z.of_nat i + 1) by lia.
Qed.

Lemma le_words_length bs : length (le_words bs) = ((length bs + 1) / 2)%nat.
Proof.
  induction bs as [|x|x y l IH] using pair_ind; [done..|].
  cbn [le_words length]. rewrite IH.
  replace (S (S (length l)) + 1)%nat with (length l + 1 + 1 * 2)%nat by lia.
  rewrite Nat.div_add by lia. lia.
Qed.

Lemma sum_loop bs header (n : nat) :
  (∀ i, i < n → ld_le16 header (2 * Z.of_nat i) = le_words bs !! i)%nat → words16_ok (le_words bs) →
  (n <= length (le_words bs))%nat → Z.of_nat n * 65535 < 2 ^ 32 →
  ∀ len, Z.quot len 2 = Z.of_nat n →
  for_loop 0 (Z.of_nat n) (sum_body header len) 0 = Some (sum_list (take n (le_words bs))).
Proof.
  intros Hld Hok Hn Hmax len Hlen.
  destruct (for_loop_inv (λ i s, s = sum_list (take (Z.to_nat i) (le_words bs)))
    (sum_body header len) 0 (Z.of_nat n) 0) as (s & -> & ->); [lia| |done|by rewrite Nat2Z.id].
  intros i s Hi ->. unfold sum_body. rewrite Hlen. zcase; [lia|].
  destruct (lookup_lt_is_Some_2 (le_words bs) (Z.to_nat i)) as [w Hw]; [lia|].
  pose proof (Hld (Z.to_nat i) ltac:(lia)) as E. rewrite Z2Nat.id in E by lia.
  rewrite E, Hw. cbn [mbind option_bind].
  eexists. split; [done|]. replace (Z.to_nat (i + 1)) with (S (Z.to_nat i)) by lia.
  rewrite (take_S_r _ _ w), sum_list_app by done. cbn [sum_list foldr]. rewrite Z.add_0_r.
  apply u32_small.
  pose proof (sum_list_nonneg _ (Forall_take _ (Z.to_nat i) _ Hok)).
  pose proof (sum_list_bound _ (Forall_take _ (Z.to_nat i) _ Hok)) as Hb.
  rewrite length_take in Hb. assert (0 <= w < 2 ^ 16) by (by eapply (Forall_lookup_1 _ _ _ _ Hok)).
  unfold word_ok. lia.
Qed.

Lemma lnot_u16 x : 0 <= x < 2 ^ 16 → u16 (Z.lnot x) = 2 ^ 16 - 1 - x.
Proof. intros H. unfold u16, Z.lnot. symmetry. apply Z.mod_unique with (-1); lia. Qed.

Lemma le_words_odd bs (n : nat) :
  length bs = (2 * n + 1)%nat → le_words bs !! n = bs !! (2 * n)%nat.
Proof.
  revert n. induction bs as [|x|x y l IH] using pair_ind; intros n H; cbn [length] in H; [lia| |].
  - by replace n with 0%nat by lia.
  - destruct n as [|n]; [lia|]. replace (2 * S n)%nat with (S (S (2 * n))) by lia.
    apply IH. lia.
Qed.

(** What the loop and the odd byte add up to. *)
Lemma sum_all header (len : nat) :
  bytes_ok header → (len <= length header)%nat → Z.of_nat len * 65535 < 2 ^ 32 →
  header_sum header (Z.of_nat len)
  = Some (sum_list (le_words (take len header))).
Proof.
  intros Hok Hlen Hmax. unfold header_sum. set (bs := take len header).
  assert (bytes_ok bs) as Hbs by (by apply Forall_take).
  assert (length bs = len) as Hlbs by (unfold bs; rewrite length_take; lia).
  pose proof (le_words_ok bs Hbs) as Hw. pose proof (le_words_length bs) as Hln. rewrite Hlbs in Hln.
  pose proof (Nat.div_mod_eq len 2) as Hdiv. pose proof (Nat.mod_upper_bound len 2 ltac:(lia)).
  assert (Z.quot (Z.of_nat len) 2 = Z.of_nat (len / 2)) as Hq
    by (rewrite Z.quot_div_nonneg by lia; symmetry; apply (Nat2Z.inj_div len 2)).
  assert (Z.rem (Z.of_nat len) 2 = Z.of_nat (len mod 2)) as Hr
    by (rewrite Z.rem_mod_nonneg by lia; symmetry; apply (Nat2Z.inj_mod len 2)).
  rewrite Hr, Hq.
  pose proof (sum_list_nonneg _ Hw). pose proof (sum_list_bound _ Hw) as Hb.
  assert (len / 2 <= length (le_words bs))%nat as Hle
    by (rewrite Hln; apply Nat.Div0.div_le_mono; lia).
  rewrite (sum_loop bs); [|intros i Hi; rewrite <- (ld_le16_word bs) by lia; symmetry;
    apply ld_le16_take; lia|done|lia|lia|done].
  cbn [mbind option_bind]. destruct (decide (len mod 2 = 0)%nat) as [E|E].
  - rewrite E. cbn [Z.of_nat Z.eqb]. rewrite take_ge; [done|]. rewrite Hln.
    replace (len + 1)%nat with (1 + (len / 2) * 2)%nat by lia. rewrite Nat.div_add by lia. cbn. lia.
  - replace (len mod 2)%nat with 1%nat by lia. cbn [Z.of_nat Z.eqb].
    assert (length bs = 2 * (len / 2) + 1)%nat as Hodd by lia.
    destruct (lookup_lt_is_Some_2 bs (2 * (len / 2))) as [b Hbl]; [lia|].
    rewrite <- (aget_take header len) by lia. fold bs.
    replace (Z.of_nat len - 1) with (Z.of_nat (2 * (len / 2))) by lia.
    rewrite aget_nat, Hbl. cbn [mbind option_bind].
    pose proof Hbl as Hbw. rewrite <- le_words_odd in Hbw by done.
    assert (le_words bs = take (len / 2) (le_words bs) ++ [b]) as Hsplit.
    { rewrite <- (take_S_r _ _ b) by done. rewrite take_ge; [done|]. rewrite Hln.
      replace (len + 1)%nat with ((len / 2 + 1) * 2)%nat by lia. rewrite Nat.div_mul; lia. }
    f_equal. rewrite Hsplit at 2. rewrite sum_list_app. cbn [sum_list foldr]. rewrite Z.add_0_r.
    apply u32_small. rewrite Hsplit, sum_list_app in Hb, H0. cbn [sum_list foldr] in Hb, H0.
    rewrite <- Hsplit in Hb. unfold word_ok.
    assert (Z.of_nat (length (le_words bs)) <= Z.of_nat len).
    { rewrite Hln. apply inj_le. apply Nat.Div0.div_le_upper_bound. lia. }
    lia.
Qed.

(** The checksum is [rfc1071] in the byte order of the machine. *)
Lemma calculate_ip_checksum_ok header (len : nat) :
  bytes_ok header → (len <= length header)%nat → Z.of_nat len * 65535 < 2 ^ 32 →
  calculate_ip_checksum header (Z.of_nat len) = Some (bswap16 (rfc1071 (take len header))).
Proof.
  intros Hok Hlen Hmax. unfold calculate_ip_checksum. rewrite sum_all by done.
  cbn [mbind option_bind]. set (bs := take len header).
  assert (bytes_ok bs) as Hbs by (by apply Forall_take).
  pose proof (le_words_ok bs Hbs) as Hw.
  pose proof (sum_list_nonneg _ Hw). pose proof (sum_list_bound _ Hw) as Hb.
  assert (length (le_words bs) <= len)%nat.
  { rewrite le_words_length. unfold bs. rewrite length_take.
    destruct len; [cbn; lia|]. apply Nat.Div0.div_le_upper_bound. lia. }
  rewrite fold_loop by lia. cbn [mbind option_bind].
  pose proof (oc_rep_range (sum_list (le_words bs))).
  rewrite lnot_u16 by done. unfold rfc1071.
  rewrite oc_sum_rep, oc_rep_bswap by (by try apply be_words_ok).
  rewrite bswap16_compl by (by apply bswap16_range). by rewrite bswap16_involutive.
Qed.

(** ** Acceptance by the receiver *)

Lemma be_words_app l1 l2 (n : nat) :
  length l1 = (2 * n)%nat → be_words (l1 ++ l2) = be_words l1 ++ be_words l2.
Proof.
  revert n. induction l1 as [|x|x y l IH] using pair_ind; intros n H; cbn in *; [done|lia|].
  by rewrite (IH (n - 1)%nat) by lia.
Qed.

(** Storing the checksum of a header whose checksum field is zero makes its one's
    complement sum all ones. *)
Lemma checksum_stored_valid l1 l2 n s :
  length l1 = (2 * n)%nat → bytes_ok (l1 ++ 0 :: 0 :: l2) →
  s = rfc1071 (l1 ++ 0 :: 0 :: l2) →
  checksum_valid (l1 ++ (s / 2 ^ 8) :: (s mod 2 ^ 8) :: l2).
Proof.
  intros Hn Hok Hs. unfold checksum_valid, rfc1071 in *.
  pose proof (be_words_ok _ Hok) as Hw. rewrite oc_sum_rep in Hs by done.
  pose proof (oc_rep_range (sum_list (be_words (l1 ++ 0 :: 0 :: l2)))) as Hr.
  assert (bytes_ok (l1 ++ s / 2 ^ 8 :: s mod 2 ^ 8 :: l2)) as Hok'.
  { apply Forall_app in Hok as [H1 H2]. apply Forall_app. split; [done|].
    forall_inv. apply List.Forall_cons; [|apply List.Forall_cons; [|done]]; unfold byte_ok;
      pose proof (Z.div_mod s (2 ^ 8) ltac:(lia)); pose proof (Z.mod_pos_bound s (2 ^ 8) ltac:(lia)); lia. }
  rewrite oc_sum_rep by (by apply be_words_ok).
  pose proof (sum_list_nonneg _ Hw) as Hpos.
  destruct (oc_rep_congr _ Hpos) as [q Hq]. pose proof (oc_rep_zero _ Hpos).
  assert (sum_list (be_words (l1 ++ s / 2 ^ 8 :: s mod 2 ^ 8 :: l2)) =
          sum_list (be_words (l1 ++ 0 :: 0 :: l2)) + s) as ->.
  { rewrite !(be_words_app l1 _ n), !sum_list_app by done. cbn [be_words sum_list foldr].
    pose proof (Z.div_mod s (2 ^ 8) ltac:(lia)). lia. }
  apply oc_rep_unique with q; lia.
Qed.

(** ** The theorems *)

(** Every result is a 16-bit value, and the code returns (the folding loop ends
    within [fold_fuel] iterations) whenever the reads are in the array. *)

(** C9: on an array of bytes holding the [len] bytes to sum (an odd count
    included), [calculate_ip_checksum] returns without a fault, and its result
    stored in memory is the RFC 1071 checksum in network byte order. *)
Theorem calculate_ip_checksum_rfc1071 header (len : nat) :
  bytes_ok header → (len <= length header)%nat → Z.of_nat len * 65535 < 2 ^ 32 →
  calculate_ip_checksum header (Z.of_nat len) = Some (bswap16 (rfc1071 (take len header))).
Proof. apply calculate_ip_checksum_ok. Qed.

Lemma calculate_ip_checksum_rfc1071_witness :
  calculate_ip_checksum [0x45; 0; 0; 0x1c; 1; 2; 3] (Z.of_nat 7) =
    Some (bswap16 (rfc1071 [0x45; 0; 0; 0x1c; 1; 2; 3])).
Proof.
  apply (calculate_ip_checksum_rfc1071 [0x45; 0; 0; 0x1c; 1; 2; 3] 7); [|cbn; lia|lia].
  repeat (apply List.Forall_cons; [unfold byte_ok; lia|]). apply List.Forall_nil.
Defined.

(** The folding loop [while (sum >> 16)] terminates on every 32-bit sum and
    leaves the one's complement representative of the sum: a 16-bit value
    congruent to it modulo 2^16-1, zero only for a zero sum. *)
Theorem fold_loop_terminates s :
  0 <= s < 2 ^ 32 →
  ∃ r, while_loop fold_fuel fold_body s = Some r ∧ 0 <= r < 2 ^ 16
    ∧ r mod 65535 = s mod 65535 ∧ (r = 0 ↔ s = 0).
Proof.
  intros Hs. exists (oc_rep s). split; [by apply fold_loop|]. split; [apply oc_rep_range|].
  split; [|apply oc_rep_zero; lia].
  destruct (oc_rep_congr s) as [q ->]; [lia|]. rewrite Z.mul_comm. apply Z.mod_add. lia.
Qed.

Lemma fold_loop_terminates_witness :
  ∃ r, while_loop fold_fuel fold_body 0xFFFFFFFF = Some r ∧ 0 <= r < 2 ^ 16
    ∧ r mod 65535 = 0xFFFFFFFF mod 65535 ∧ (r = 0 ↔ 0xFFFFFFFF = 0).
Proof. apply (fold_loop_terminates 0xFFFFFFFF). lia. Defined.
