(* ===== verification/Packet.v ===== *)
(** * The packet seen by an XDP program

    [struct xdp_md] gives a program the packet memory between [ctx->data] and
    [ctx->data_end].  Pointers are the integers of that address range.  A load
    or store outside the range is a fault ([None]): this is the access rule the
    kernel's verifier enforces, and the absence of faults is proved of every
    program of the development.  The machine is little-endian.

    [bpf_xdp_adjust_head] is a kernel helper: an interface ([XdpHelpers]) with
    its documented behaviour as laws. *)

From S2P Require Import Prelude.

Record xdp_md : Type := mkMd {
  xd_data : Z;            (* ctx->data *)
  xd_bytes : list Z;      (* the bytes from ctx->data to ctx->data_end *)
}.

Definition xd_data_end (md : xdp_md) : Z := xd_data md + zlen (xd_bytes md).

(** The fields of the context are [__u32]; the memory holds bytes. *)
Record md_ok (md : xdp_md) : Prop := {
  md_data : 0 <= xd_data md;
  md_end : xd_data_end md < 2 ^ 32;
  md_bytes : bytes_ok (xd_bytes md);
}.

(** ** Accesses *)

Definition ld8 (md : xdp_md) (p : Z) : option Z := aget (xd_bytes md) (p - xd_data md).
Definition ld16 (md : xdp_md) (p : Z) : option Z := ld_le16 (xd_bytes md) (p - xd_data md).
Definition ld_bytes (md : xdp_md) (p : Z) (n : nat) : option (list Z) :=
  aget_list (xd_bytes md) (p - xd_data md) n.

Definition with_bytes (md : xdp_md) (bs : option (list Z)) : option xdp_md :=
  bs ← bs; Some (mkMd (xd_data md) bs).

Definition st8 (md : xdp_md) (p v : Z) : option xdp_md :=
  with_bytes md (aset (xd_bytes md) (p - xd_data md) v).
Definition st16 (md : xdp_md) (p v : Z) : option xdp_md :=
  with_bytes md (st_le16 (xd_bytes md) (p - xd_data md) v).
Definition st_bytes (md : xdp_md) (p : Z) (bs : list Z) : option xdp_md :=
  with_bytes md (aset_list (xd_bytes md) (p - xd_data md) bs).

(** The array a pointer gives access to. *)
Definition view (md : xdp_md) (p : Z) : list Z := drop (Z.to_nat (p - xd_data md)) (xd_bytes md).

(** A 16-bit field in network order. *)
Definition be16 (x : Z) : list Z := [x / 2 ^ 8; x mod 2 ^ 8].

(** ** Constants of the kernel headers *)

Definition ETH_P_IP : Z := 0x0800.
Definition ETH_P_IPV6 : Z := 0x86DD.
Definition ETH_P_8021Q : Z := 0x8100.
Definition ETH_P_8021AD : Z := 0x88A8.
Definition IPPROTO_TCP : Z := 6.
Definition IPPROTO_UDP : Z := 17.

Definition XDP_ABORTED : Z := 0.
Definition XDP_DROP : Z := 1.
Definition XDP_PASS : Z := 2.
Definition XDP_TX : Z := 3.
Definition XDP_REDIRECT : Z := 4.

Definition bpf_htons (x : Z) : Z := bswap16 (u16 x).
Definition bpf_ntohs (x : Z) : Z := bswap16 (u16 x).

(** ** The kernel helper *)

(** "Adjust (move) xdp_md->data by delta bytes. [...] Returns 0 on success, or a
    negative error in case of failure."  The bytes of a grown head are not
    specified. *)
Class XdpHelpers : Type := {
  bpf_xdp_adjust_head : xdp_md → Z → Z * xdp_md;
  adjust_head_fail : ∀ md d r md',
    bpf_xdp_adjust_head md d = (r, md') → r ≠ 0 → md' = md;
  adjust_head_grow : ∀ md (n : nat) md',
    bpf_xdp_adjust_head md (- Z.of_nat n) = (0, md') →
    ∃ fresh, length fresh = n ∧ bytes_ok fresh ∧ 0 <= xd_data md - Z.of_nat n
      ∧ md' = mkMd (xd_data md - Z.of_nat n) (fresh ++ xd_bytes md);
  adjust_head_shrink : ∀ md (n : nat) md',
    bpf_xdp_adjust_head md (Z.of_nat n) = (0, md') →
    (n <= length (xd_bytes md))%nat
      ∧ md' = mkMd (xd_data md + Z.of_nat n) (drop n (xd_bytes md));
}.

(** A kernel whose buffer starts at address 0 and keeps at least an Ethernet
    header of data. *)
Definition adjust_head0 (md : xdp_md) (d : Z) : Z * xdp_md :=
  if (xd_data md + d <? 0) || (zlen (xd_bytes md) - d <? 14) then (-22, md)
  else (0, mkMd (xd_data md + d)
                (replicate (Z.to_nat (- d)) 0 ++ drop (Z.to_nat d) (xd_bytes md))).

#[export] Program Instance headroom_kernel : XdpHelpers := {| bpf_xdp_adjust_head := adjust_head0 |}.
Next Obligation.
  intros md d r md'. unfold adjust_head0. destruct (_ || _); intros [= <- <-]; done.
Qed.
Next Obligation.
  intros md n md'. unfold adjust_head0. destruct (Z.ltb_spec (xd_data md + - Z.of_nat n) 0); [done|].
  cbn [orb]. destruct (_ <? 14); intros [= <-]. exists (replicate n 0).
  rewrite Z.opp_involutive, Nat2Z.id, length_replicate.
  replace (Z.to_nat (- Z.of_nat n)) with 0%nat by lia.
  split_and!; [done| |lia|done]. apply Forall_replicate. unfold byte_ok. lia.
Qed.
Next Obligation.
  intros md n md'. unfold adjust_head0. destruct (Z.ltb_spec (xd_data md + Z.of_nat n) 0); [done|].
  cbn [orb]. destruct (Z.ltb_spec (zlen (xd_bytes md) - Z.of_nat n) 14); intros [= <-].
  rewrite Nat2Z.id. replace (Z.to_nat (- Z.of_nat n)) with 0%nat by lia. split; [lia|done].
Qed.

(** ** Lemmas on accesses *)

Lemma ld8_in md p :
  xd_data md <= p < xd_data_end md → ∃ b, ld8 md p = Some b.
Proof. unfold xd_data_end. intros H. apply aget_is_Some. lia. Qed.

Lemma ld8_byte md p b : md_ok md → ld8 md p = Some b → byte_ok b.
Proof. intros [_ _ H]. by apply aget_byte. Qed.

Lemma ld16_in md p :
  md_ok md → xd_data md <= p → p + 1 < xd_data_end md →
  ∃ b0 b1, ld8 md p = Some b0 ∧ ld8 md (p + 1) = Some b1 ∧ byte_ok b0 ∧ byte_ok b1
    ∧ ld16 md p = Some (b0 + b1 * 2 ^ 8).
Proof.
  intros Hok Hp He. destruct (ld8_in md p) as [b0 E0]; [lia|].
  destruct (ld8_in md (p + 1)) as [b1 E1]; [lia|].
  exists b0, b1. split_and!; [done|done|by eapply ld8_byte|by eapply ld8_byte|].
  unfold ld16, ld_le16. unfold ld8 in E0, E1. replace (p - xd_data md + 1) with (p + 1 - xd_data md) by lia.
  by rewrite E0, E1.
Qed.

Lemma ld16_range md p w : md_ok md → ld16 md p = Some w → 0 <= w < 2 ^ 16.
Proof.
  intros [_ _ Hb]. unfold ld16, ld_le16. intros H. opt_inv H.
  apply (aget_byte _ _ _ Hb) in E. apply (aget_byte _ _ _ Hb) in E0. unfold byte_ok in *. lia.
Qed.

Lemma view_length md p :
  xd_data md <= p <= xd_data_end md → zlen (view md p) = xd_data_end md - p.
Proof. unfold view, xd_data_end. intros H. rewrite length_drop. lia. Qed.

Lemma view_ok md p : md_ok md → bytes_ok (view md p).
Proof. intros [_ _ H]. by apply Forall_drop. Qed.

(** ** Fields in network order *)

Lemma bpf_ntohs_range x : 0 <= bpf_ntohs x < 2 ^ 16.
Proof. apply bswap16_range, u16_range. Qed.

Lemma be16_ok x : 0 <= x < 2 ^ 16 → bytes_ok (be16 x).
Proof.
  intros H. pose proof (Z.div_mod x (2 ^ 8) ltac:(lia)). pose proof (Z.mod_pos_bound x (2 ^ 8) ltac:(lia)).
  unfold be16. repeat (apply List.Forall_cons; [unfold byte_ok; lia|]). apply List.Forall_nil.
Qed.

Lemma be16_length x : length (be16 x) = 2%nat.
Proof. done. Qed.
#[export] Hint Rewrite be16_length : arr.

(** Loading a network-order field gives its byte swap. *)
Lemma ld_le16_be16 pre x post :
  0 <= x < 2 ^ 16 → ld_le16 (pre ++ be16 x ++ post) (zlen pre) = Some (bpf_htons x).
Proof.
  intros Hx. unfold ld_le16.
  rewrite (aget_app_r pre _ (zlen pre)), (aget_app_r pre _ (zlen pre + 1)) by lia.
  rewrite Z.sub_diag. replace (zlen pre + 1 - zlen pre) with 1 by lia. cbn [be16 app].
  change (aget (x / 2 ^ 8 :: x mod 2 ^ 8 :: post) 0) with (Some (x / 2 ^ 8)).
  change (aget (x / 2 ^ 8 :: x mod 2 ^ 8 :: post) 1) with (Some (x mod 2 ^ 8)).
  cbn [mbind option_bind]. f_equal. unfold bpf_htons. rewrite u16_small by done.
  pose proof (Z.div_mod x (2 ^ 8) ltac:(lia)). pose proof (Z.mod_pos_bound x (2 ^ 8) ltac:(lia)).
  replace x with (x mod 2 ^ 8 + x / 2 ^ 8 * 2 ^ 8) at 3 by lia.
  rewrite bswap16_bytes by (unfold byte_ok; lia). done.
Qed.

Lemma ld16_field md pre x post p :
  xd_bytes md = pre ++ be16 x ++ post → 0 <= x < 2 ^ 16 → p = xd_data md + zlen pre →
  ld16 md p = Some (bpf_htons x).
Proof.
  intros E Hx ->. unfold ld16. rewrite E.
  replace (xd_data md + zlen pre - xd_data md) with (zlen pre) by lia. by apply ld_le16_be16.
Qed.

Lemma bpf_ntohs_htons x : 0 <= x < 2 ^ 16 → bpf_ntohs (bpf_htons x) = x.
Proof.
  intros H. unfold bpf_ntohs, bpf_htons. rewrite (u16_small x) by done.
  rewrite u16_small by (by apply bswap16_range). by apply bswap16_involutive.
Qed.

Lemma u16_u16 x : u16 (u16 x) = u16 x.
Proof. apply u16_small, u16_range. Qed.

Lemma bpf_htons_u16 x : bpf_htons (u16 x) = bpf_htons x.
Proof. unfold bpf_htons. by rewrite u16_u16. Qed.

Lemma bpf_htons_inj x y :
  0 <= x < 2 ^ 16 → 0 <= y < 2 ^ 16 → bpf_htons x = bpf_htons y → x = y.
Proof. intros Hx Hy E. by rewrite <- (bpf_ntohs_htons x), E, bpf_ntohs_htons. Qed.

(** ** Accesses at a known split of the packet *)

(** Lists equal up to the association of [++]. *)
Ltac list_eq := cbn [xd_bytes]; repeat (rewrite <- app_assoc || cbn [app]); reflexivity.
(** Offsets in a list whose parts have known lengths. *)
Ltac off_eq := cbn [xd_data]; repeat progress (autorewrite with arr; cbn [length]); lia.


Lemma ld_bytes_at md pre bs post p n :
  xd_bytes md = pre ++ bs ++ post → p = xd_data md + zlen pre → n = length bs →
  ld_bytes md p n = Some bs.
Proof.
  intros E -> ->. unfold ld_bytes. rewrite E.
  replace (xd_data md + zlen pre - xd_data md) with (zlen pre) by lia.
  rewrite aget_list_eq by (rewrite ?length_app; lia).
  by rewrite Nat2Z.id, drop_app_length, take_app_length.
Qed.

Lemma ld8_at md pre b post p :
  xd_bytes md = pre ++ b :: post → p = xd_data md + zlen pre → ld8 md p = Some b.
Proof.
  intros E ->. unfold ld8. rewrite E.
  replace (xd_data md + zlen pre - xd_data md) with (zlen pre) by lia.
  by rewrite aget_nat, lookup_app_r, Nat.sub_diag by lia.
Qed.

Lemma st_bytes_at md pre old post p bs :
  xd_bytes md = pre ++ old ++ post → length old = length bs → p = xd_data md + zlen pre →
  st_bytes md p bs = Some (mkMd (xd_data md) (pre ++ bs ++ post)).
Proof.
  intros E Hl ->. unfold st_bytes, with_bytes. rewrite E.
  replace (xd_data md + zlen pre - xd_data md) with (zlen pre) by lia.
  rewrite aset_list_eq by (rewrite ?length_app; lia).
  rewrite Nat2Z.id, take_app_length, drop_app_ge by lia.
  replace (length pre + length bs - length pre)%nat with (length old) by lia.
  by rewrite drop_app_length.
Qed.

Lemma st8_at md pre old post p v :
  xd_bytes md = pre ++ old :: post → p = xd_data md + zlen pre →
  st8 md p v = Some (mkMd (xd_data md) (pre ++ v :: post)).
Proof.
  intros E ->. unfold st8, with_bytes. rewrite E.
  replace (xd_data md + zlen pre - xd_data md) with (zlen pre) by lia.
  rewrite aset_eq by (rewrite length_app; cbn; lia). cbn [mbind option_bind].
  by rewrite Nat2Z.id, insert_app_r_alt, Nat.sub_diag by lia.
Qed.

(** A store of a little-endian value whose bytes are [x], [y]. *)
Lemma st16_at md pre a b post p v x y :
  xd_bytes md = pre ++ a :: b :: post → p = xd_data md + zlen pre →
  byte_ok x → byte_ok y → v = x + y * 2 ^ 8 →
  st16 md p v = Some (mkMd (xd_data md) (pre ++ x :: y :: post)).
Proof.
  unfold byte_ok. intros E -> Hx Hy ->. unfold st16, with_bytes, st_le16. rewrite E.
  replace (xd_data md + zlen pre - xd_data md) with (zlen pre) by lia.
  assert (u8 (x + y * 2 ^ 8) = x) as -> by (unfold u8; rewrite Z.mod_add by lia; apply Z.mod_small; lia).
  assert (u8 (Z.shiftr (x + y * 2 ^ 8) 8) = y) as ->.
  { rewrite Z.shiftr_div_pow2, Z.div_add, Z.div_small by lia. apply Z.mod_small. lia. }
  rewrite aset_eq by (rewrite length_app; cbn; lia). cbn [mbind option_bind].
  rewrite Nat2Z.id, insert_app_r_alt, Nat.sub_diag by lia. cbn [insert list_insert].
  rewrite aset_eq by (rewrite length_app; cbn; lia). cbn [mbind option_bind].
  rewrite insert_app_r_alt by lia.
  by replace (Z.to_nat (zlen pre + 1) - length pre)%nat with 1%nat by lia.
Qed.

(** Storing [bpf_htons x] writes [x] in network order. *)
Lemma st16_htons_at md pre old post p x :
  xd_bytes md = pre ++ old ++ post → length old = 2%nat → p = xd_data md + zlen pre →
  0 <= x < 2 ^ 16 →
  st16 md p (bpf_htons x) = Some (mkMd (xd_data md) (pre ++ be16 x ++ post)).
Proof.
  intros E Hl Hp Hx. destruct old as [|a [|b [|]]]; try discriminate Hl.
  pose proof (Z.div_mod x (2 ^ 8) ltac:(lia)). pose proof (Z.mod_pos_bound x (2 ^ 8) ltac:(lia)).
  apply (st16_at md pre a b post); [done|done|unfold byte_ok; lia|unfold byte_ok; lia|].
  unfold bpf_htons. rewrite u16_small by done.
  replace x with (x mod 2 ^ 8 + x / 2 ^ 8 * 2 ^ 8) at 1 by lia.
  by rewrite bswap16_bytes by (unfold byte_ok; lia).
Qed.

(** The range of an in-range load, and that stores keep the context. *)
Lemma ld_bytes_in md p n :
  xd_data md <= p → p + Z.of_nat n <= xd_data_end md → ∃ bs, ld_bytes md p n = Some bs ∧ length bs = n
    ∧ (bytes_ok (xd_bytes md) → bytes_ok bs).
Proof.
  unfold xd_data_end. intros Hp Hn. unfold ld_bytes. rewrite aget_list_eq by lia.
  eexists. split; [done|]. split; [rewrite length_take, length_drop; lia|].
  intros H. by apply Forall_take, Forall_drop.
Qed.

(** A 16-bit store inside the packet. *)
Lemma st16_in md p v :
  md_ok md → xd_data md <= p → p + 1 < xd_data_end md →
  ∃ md', st16 md p v = Some md' ∧ md_ok md' ∧ xd_data md' = xd_data md ∧ xd_data_end md' = xd_data_end md.
Proof.
  intros [Hd He Hb] Hp Hq. unfold xd_data_end in *. unfold st16, with_bytes, st_le16.
  rewrite aset_eq by lia. cbn [mbind option_bind].
  rewrite aset_eq by (rewrite length_insert; lia). cbn [mbind option_bind].
  eexists. split; [done|]. unfold xd_data_end. cbn [xd_data xd_bytes]. rewrite !length_insert.
  split; [split|done].
  - done.
  - unfold xd_data_end. cbn [xd_data xd_bytes]. rewrite !length_insert. lia.
  - cbn [xd_bytes]. apply Forall_insert; [apply Forall_insert; [done|]|]; apply u8_ok.
Qed.

Lemma bpf_htons_nonneg x : 0 <= bpf_htons x.
Proof. apply bswap16_range, u16_range. Qed.

(** ** Fields of an array *)

Lemma ld_le16_at (pre : list Z) x post p :
  0 <= x < 2 ^ 16 → p = zlen pre → ld_le16 (pre ++ be16 x ++ post) p = Some (bpf_htons x).
Proof. intros Hx ->. by apply ld_le16_be16. Qed.

Lemma st_le16_at (pre old post : list Z) p x :
  length old = 2%nat → p = zlen pre → 0 <= x < 2 ^ 16 →
  st_le16 (pre ++ old ++ post) p (bpf_htons x) = Some (pre ++ be16 x ++ post).
Proof.
  intros Hl -> Hx.
  pose proof (st16_htons_at (mkMd 0 (pre ++ old ++ post)) pre old post (zlen pre) x eq_refl Hl eq_refl Hx) as E.
  unfold st16, with_bytes in E. cbn [xd_data xd_bytes] in E. rewrite Z.sub_0_r in E.
  destruct (st_le16 _ _ _) as [l|]; [|discriminate E]. by injection E as ->.
Qed.

Lemma st_le16_in (l : list Z) p v :
  bytes_ok l → 0 <= p → p + 1 < zlen l →
  ∃ l', st_le16 l p v = Some l' ∧ length l' = length l ∧ bytes_ok l'.
Proof.
  intros Hb Hp Hl. unfold st_le16. rewrite aset_eq by lia. cbn [mbind option_bind].
  rewrite aset_eq by (rewrite length_insert; lia). eexists. split; [done|]. rewrite !length_insert.
  split; [done|]. apply Forall_insert; [apply Forall_insert; [done|]|]; apply u8_ok.
Qed.

Lemma ld_le16_in (l : list Z) p : 0 <= p → p + 1 < zlen l → ∃ w, ld_le16 l p = Some w.
Proof.
  intros Hp Hl. unfold ld_le16. destruct (aget_is_Some l p) as [a ->]; [lia|].
  destruct (aget_is_Some l (p + 1)) as [b ->]; [lia|]. by eexists.
Qed.

Lemma ld_le16_range (l : list Z) p w : bytes_ok l → ld_le16 l p = Some w → 0 <= w < 2 ^ 16.
Proof.
  intros Hb. unfold ld_le16. intros H. opt_inv H.
  apply (aget_byte _ _ _ Hb) in E. apply (aget_byte _ _ _ Hb) in E0. unfold byte_ok in *. lia.
Qed.
