(* ===== verification/ParsingHelpers.v ===== *)
(** * The header parsers ([common/parsing_helpers.h])

    A parser takes the cursor [nh->pos] and [data_end], and returns
    [(ret, nh->pos, *hdr)]: the return value, the cursor after the call and the
    header pointer it wrote, [None] when it wrote none. *)

From S2P Require Import Prelude Packet.

Definition VLAN_MAX_DEPTH : Z := 2.
Definition VLAN_VID_MASK : Z := 0x0fff.

(** [sizeof] of the header structures. *)
Definition sizeof_ethhdr : Z := 14.
Definition sizeof_vlan_hdr : Z := 4.
Definition sizeof_iphdr : Z := 20.
Definition sizeof_ipv6hdr : Z := 40.
Definition sizeof_icmp6hdr : Z := 8.
Definition sizeof_icmphdr : Z := 8.
Definition sizeof_icmphdr_common : Z := 4.
Definition sizeof_udphdr : Z := 8.
Definition sizeof_tcphdr : Z := 20.

(** ** The parsers *)

Definition proto_is_vlan (h_proto : Z) : bool :=
  (h_proto =? bpf_htons ETH_P_8021Q) || (h_proto =? bpf_htons ETH_P_8021AD).

(** State of the VLAN loop: the pointer [vlh], [h_proto] and the ids of
    [struct collect_vlans], absent when the argument is NULL. *)
Record vlan_state : Type := mkVlan { vlh : Z; vl_proto : Z; vl_ids : option (list Z) }.

Definition vlan_body (md : xdp_md) (data_end i : Z) (s : vlan_state) : option (ctl vlan_state) :=
  if negb (proto_is_vlan (vl_proto s)) then Some (Break s) else
  if data_end <? vlh s + sizeof_vlan_hdr then Some (Break s) else
  h_proto ← ld16 md (vlh s + 2);
  ids ← match vl_ids s with
        | None => Some None
        | Some ids =>
            tci ← ld16 md (vlh s);
            ids ← aset ids i (u16 (Z.land (bpf_ntohs tci) VLAN_VID_MASK));
            Some (Some ids)
        end;
  Some (Next (mkVlan (vlh s + sizeof_vlan_hdr) h_proto ids)).

Definition parse_ethhdr_vlan (md : xdp_md) (nh data_end : Z) (vlans : option (list Z))
    : option (Z * Z * option Z * option (list Z)) :=
  let eth := nh in
  let hdrsize := sizeof_ethhdr in
  if data_end <? nh + hdrsize then Some (-1, nh, None, vlans) else
  h_proto ← ld16 md (eth + 12);
  s ← for_loop 0 VLAN_MAX_DEPTH (vlan_body md data_end) (mkVlan (nh + hdrsize) h_proto vlans);
  Some (vl_proto s, vlh s, Some eth, vl_ids s).

Definition parse_ethhdr (md : xdp_md) (nh data_end : Z) : option (Z * Z * option Z) :=
  '(ret, pos, hdr, _) ← parse_ethhdr_vlan md nh data_end None; Some (ret, pos, hdr).

Definition parse_ip6hdr (md : xdp_md) (nh data_end : Z) : option (Z * Z * option Z) :=
  if data_end <? nh + sizeof_ipv6hdr then Some (-1, nh, None) else
  nexthdr ← ld8 md (nh + 6);
  Some (nexthdr, nh + sizeof_ipv6hdr, Some nh).

(** [iph->ihl] is the low nibble of the first byte. *)
Definition parse_iphdr (md : xdp_md) (nh data_end : Z) : option (Z * Z * option Z) :=
  if data_end <? nh + sizeof_iphdr then Some (-1, nh, None) else
  b0 ← ld8 md nh;
  let hdrsize := Z.land b0 15 * 4 in
  if hdrsize <? sizeof_iphdr then Some (-1, nh, None) else
  if data_end <? nh + hdrsize then Some (-1, nh, None) else
  protocol ← ld8 md (nh + 9);
  Some (protocol, nh + hdrsize, Some nh).

Definition parse_icmp6hdr (md : xdp_md) (nh data_end : Z) : option (Z * Z * option Z) :=
  if data_end <? nh + sizeof_icmp6hdr then Some (-1, nh, None) else
  ty ← ld8 md nh; Some (ty, nh + sizeof_icmp6hdr, Some nh).

Definition parse_icmphdr (md : xdp_md) (nh data_end : Z) : option (Z * Z * option Z) :=
  if data_end <? nh + sizeof_icmphdr then Some (-1, nh, None) else
  ty ← ld8 md nh; Some (ty, nh + sizeof_icmphdr, Some nh).

Definition parse_icmphdr_common (md : xdp_md) (nh data_end : Z) : option (Z * Z * option Z) :=
  if data_end <? nh + sizeof_icmphdr_common then Some (-1, nh, None) else
  ty ← ld8 md nh; Some (ty, nh + sizeof_icmphdr_common, Some nh).

(** [bpf_ntohs(h->len) - sizeof(struct udphdr)] is a [size_t] converted to
    [int]; the cursor and the pointer are written before it is tested. *)
Definition parse_udphdr (md : xdp_md) (nh data_end : Z) : option (Z * Z * option Z) :=
  if data_end <? nh + sizeof_udphdr then Some (-1, nh, None) else
  l ← ld16 md (nh + 4);
  let len := s32 (u64 (bpf_ntohs l - sizeof_udphdr)) in
  if len <? 0 then Some (-1, nh + sizeof_udphdr, Some nh)
  else Some (len, nh + sizeof_udphdr, Some nh).

(** [h->doff] is the high nibble of byte 12. *)
Definition parse_tcphdr (md : xdp_md) (nh data_end : Z) : option (Z * Z * option Z) :=
  if data_end <? nh + sizeof_tcphdr then Some (-1, nh, None) else
  b12 ← ld8 md (nh + 12);
  let len := Z.land (Z.shiftr b12 4) 15 * 4 in
  if len <? sizeof_tcphdr then Some (-1, nh, None) else
  if data_end <? nh + len then Some (-1, nh, None) else
  Some (len, nh + len, Some nh).

(** ** The interface of a parser *)

(** What the programs rely on: from a cursor in the packet, a parser never
    faults; it either fails and leaves the cursor, or points to a header that
    lies in the packet before the new cursor. *)
Class HeaderParser (parse : xdp_md → Z → Z → option (Z * Z * option Z)) (size : Z) : Prop :=
  parser_ok : ∀ md nh, md_ok md → xd_data md <= nh <= xd_data_end md →
    ∃ ret pos hdr, parse md nh (xd_data_end md) = Some (ret, pos, hdr)
      ∧ -1 <= ret < 2 ^ 16
      ∧ nh <= pos <= xd_data_end md
      ∧ match hdr with
        | None => ret = -1 ∧ pos = nh
        | Some h => h = nh ∧ nh + size <= pos
        end.

(** A parser that reads a type byte of a fixed-size header. *)
Lemma fixed_parser_ok size off md nh :
  0 <= off < size → md_ok md → xd_data md <= nh <= xd_data_end md →
  ∃ ret pos hdr,
    (if xd_data_end md <? nh + size then Some (-1, nh, None)
     else ty ← ld8 md (nh + off); Some (ty, nh + size, Some nh)) = Some (ret, pos, hdr)
    ∧ -1 <= ret < 2 ^ 16 ∧ nh <= pos <= xd_data_end md
    ∧ match hdr with None => ret = -1 ∧ pos = nh | Some h => h = nh ∧ nh + size <= pos end.
Proof.
  intros Hoff Hok Hnh. zcase; [by repeat eexists; try lia|].
  destruct (ld8_in md (nh + off)) as [b Eb]; [lia|]. rewrite Eb.
  apply ld8_byte in Eb; [|done]. unfold byte_ok in Eb.
  exists b, (nh + size), (Some nh). split_and!; try lia; done.
Qed.

#[export] Instance parse_ip6hdr_parser : HeaderParser parse_ip6hdr 40.
Proof. intros md nh Hok Hnh. apply (fixed_parser_ok 40 6); done || lia. Qed.

Lemma type_parser_ok size md nh :
  0 < size → md_ok md → xd_data md <= nh <= xd_data_end md →
  ∃ ret pos hdr,
    (if xd_data_end md <? nh + size then Some (-1, nh, None)
     else ty ← ld8 md nh; Some (ty, nh + size, Some nh)) = Some (ret, pos, hdr)
    ∧ -1 <= ret < 2 ^ 16 ∧ nh <= pos <= xd_data_end md
    ∧ match hdr with None => ret = -1 ∧ pos = nh | Some h => h = nh ∧ nh + size <= pos end.
Proof.
  intros Hs Hok Hnh. pose proof (fixed_parser_ok size 0 md nh ltac:(lia) Hok Hnh) as H.
  by rewrite Z.add_0_r in H.
Qed.

#[export] Instance parse_icmp6hdr_parser : HeaderParser parse_icmp6hdr 8.
Proof. intros md nh Hok Hnh. apply type_parser_ok; done || lia. Qed.

#[export] Instance parse_icmphdr_parser : HeaderParser parse_icmphdr 8.
Proof. intros md nh Hok Hnh. apply type_parser_ok; done || lia. Qed.

#[export] Instance parse_icmphdr_common_parser : HeaderParser parse_icmphdr_common 4.
Proof. intros md nh Hok Hnh. apply type_parser_ok; done || lia. Qed.

Lemma land15 b : 0 <= Z.land b 15 < 16.
Proof. change 15 with (Z.ones 4). rewrite Z.land_ones by lia. apply (Z.mod_pos_bound b 16). lia. Qed.

#[export] Instance parse_iphdr_parser : HeaderParser parse_iphdr 20.
Proof.
  intros md nh Hok Hnh. unfold parse_iphdr, sizeof_iphdr.
  destruct (Z.ltb_spec (xd_data_end md) (nh + 20)).
  { exists (-1), nh, None. split_and!; try lia; done. }
  destruct (ld8_in md nh) as [b0 ->]; [lia|]. cbn [mbind option_bind]. pose proof (land15 b0).
  zcase; try (exists (-1), nh, None; split_and!; try lia; done).
  destruct (ld8_in md (nh + 9)) as [b9 E9]; [lia|]. rewrite E9.
  apply ld8_byte in E9; [|done]. unfold byte_ok in E9.
  eexists _, _, _. split; [done|]. cbn. split_and!; try lia; done.
Qed.

#[export] Instance parse_tcphdr_parser : HeaderParser parse_tcphdr 20.
Proof.
  intros md nh Hok Hnh. unfold parse_tcphdr, sizeof_tcphdr.
  destruct (Z.ltb_spec (xd_data_end md) (nh + 20)).
  { exists (-1), nh, None. split_and!; try lia; done. }
  destruct (ld8_in md (nh + 12)) as [b ->]; [lia|]. cbn [mbind option_bind].
  pose proof (land15 (Z.shiftr b 4)).
  zcase; try (exists (-1), nh, None; split_and!; try lia; done).
  eexists _, _, _. split; [done|]. cbn. split_and!; try lia; done.
Qed.

(** The conversions of [parse_udphdr]: the value of the subtraction. *)
Lemma udp_len_value l : s32 (u64 (bpf_ntohs l - 8)) = bpf_ntohs l - 8.
Proof.
  pose proof (bpf_ntohs_range l). unfold s32, u64.
  destruct (Z.ltb_spec (bpf_ntohs l) 8).
  - rewrite <- (Z.mod_unique (bpf_ntohs l - 8) (2 ^ 64) (-1) (bpf_ntohs l - 8 + 2 ^ 64)) by lia.
    rewrite <- (Z.mod_unique _ (2 ^ 32) (2 ^ 32) (bpf_ntohs l - 8 + 2 ^ 31)) by lia. lia.
  - rewrite (Z.mod_small _ (2 ^ 64)), (Z.mod_small _ (2 ^ 32)) by lia. lia.
Qed.

#[export] Instance parse_udphdr_parser : HeaderParser parse_udphdr 8.
Proof.
  intros md nh Hok Hnh. unfold parse_udphdr, sizeof_udphdr.
  destruct (Z.ltb_spec (xd_data_end md) (nh + 8)).
  { exists (-1), nh, None. split_and!; try lia; done. }
  destruct (ld16_in md (nh + 4) Hok) as (b0 & b1 & _ & _ & _ & _ & ->); [lia..|].
  cbn [mbind option_bind]. rewrite udp_len_value. pose proof (bpf_ntohs_range (b0 + b1 * 2 ^ 8)).
  zcase; eexists _, _, _; (split; [done|]); cbn; split_and!; try lia; done.
Qed.

(** ** The VLAN loop *)

Lemma vlan_loop_ok md s :
  md_ok md → xd_data md <= vlh s <= xd_data_end md → 0 <= vl_proto s < 2 ^ 16 →
  (∀ ids, vl_ids s = Some ids → length ids = 2%nat) →
  ∃ s', for_loop 0 VLAN_MAX_DEPTH (vlan_body md (xd_data_end md)) s = Some s'
    ∧ vlh s <= vlh s' <= xd_data_end md ∧ 0 <= vl_proto s' < 2 ^ 16.
Proof.
  intros Hok Hv Hp Hids.
  set (I (s' : vlan_state) := vlh s <= vlh s' <= xd_data_end md ∧ 0 <= vl_proto s' < 2 ^ 16
      ∧ ∀ ids, vl_ids s' = Some ids → length ids = 2%nat).
  destruct (for_loop_inv_break (λ _, I) I (vlan_body md (xd_data_end md)) 0 VLAN_MAX_DEPTH s)
    as (s' & E & H); [done| |split_and!; done || lia|].
  - intros i s1 Hi (H1 & H2 & H3). unfold vlan_body, sizeof_vlan_hdr.
    destruct (proto_is_vlan _); cbn [negb]; [|by eexists].
    destruct (Z.ltb_spec (xd_data_end md) (vlh s1 + 4)); [by eexists|].
    destruct (ld16_in md (vlh s1 + 2) Hok) as (a & b & _ & _ & Ha & Hb & ->); [lia..|].
    destruct (ld16_in md (vlh s1) Hok) as (c & d & _ & _ & Hc & Hd & ->); [lia..|].
    unfold byte_ok, VLAN_MAX_DEPTH in *.
    destruct (vl_ids s1) as [ids|]; cbn [mbind option_bind].
    + specialize (H3 ids eq_refl). rewrite aset_eq by lia. cbn [mbind option_bind].
      eexists. split; [done|]. split_and!; cbn; try lia.
      intros ? [= <-]. by rewrite length_insert.
    + eexists. split; [done|]. split_and!; cbn; try lia; done.
  - exists s'. split; [done|]. unfold I in H. tauto.
Qed.

#[export] Instance parse_ethhdr_parser : HeaderParser parse_ethhdr 14.
Proof.
  intros md nh Hok Hnh. unfold parse_ethhdr, parse_ethhdr_vlan, sizeof_ethhdr.
  destruct (Z.ltb_spec (xd_data_end md) (nh + 14)).
  { exists (-1), nh, None. split_and!; try lia; done. }
  destruct (ld16_in md (nh + 12) Hok) as (a & b & _ & _ & Ha & Hb & ->); [lia..|].
  cbn [mbind option_bind]. unfold byte_ok in *.
  destruct (vlan_loop_ok md (mkVlan (nh + 14) (a + b * 2 ^ 8) None) Hok)
    as (s' & -> & Hv & Hp); [cbn; lia|cbn; lia|done|]. cbn in Hv. cbn [mbind option_bind].
  eexists _, _, _. split; [done|]. cbn. split_and!; try lia; done.
Qed.

(** ** Tagged frames *)

(** An IEEE 802.1Q/802.1ad frame: addresses, tags (TPID, TCI), type, payload. *)
Definition eth_frame (macs : list Z) (tags : list (Z * Z)) (ty : Z) (payload : list Z) : list Z :=
  macs ++ concat (map (λ t, be16 t.1 ++ be16 t.2) tags) ++ be16 ty ++ payload.

Definition is_tpid (x : Z) : Prop := x = ETH_P_8021Q ∨ x = ETH_P_8021AD.

Lemma proto_is_vlan_spec x : 0 <= x < 2 ^ 16 → proto_is_vlan (bpf_htons x) = true ↔ is_tpid x.
Proof.
  intros Hx. unfold proto_is_vlan, is_tpid. rewrite orb_true_iff, !Z.eqb_eq. split.
  - intros [E|E]; [left|right]; (apply bpf_htons_inj in E; [done|done|]);
      unfold ETH_P_8021Q, ETH_P_8021AD; lia.
  - intros [->| ->]; auto.
Qed.

Lemma proto_not_vlan x : 0 <= x < 2 ^ 16 → ¬ is_tpid x → proto_is_vlan (bpf_htons x) = false.
Proof. intros Hx Hn. apply not_true_is_false. by rewrite proto_is_vlan_spec. Qed.

Lemma vid_mask tci : 0 <= tci < 2 ^ 16 →
  u16 (Z.land (bpf_ntohs (bpf_htons tci)) VLAN_VID_MASK) = tci mod 4096.
Proof.
  intros H. rewrite bpf_ntohs_htons by done. change VLAN_VID_MASK with (Z.ones 12).
  rewrite Z.land_ones by lia. apply u16_small. pose proof (Z.mod_pos_bound tci 4096). lia.
Qed.

(** One iteration on a tag that lies in the frame. *)
Lemma vlan_body_tag md pre tci ty post i s :
  xd_bytes md = pre ++ be16 tci ++ be16 ty ++ post → 0 <= tci < 2 ^ 16 → 0 <= ty < 2 ^ 16 →
  vlh s = xd_data md + zlen pre → proto_is_vlan (vl_proto s) = true → 0 <= i < 2 →
  (∀ ids, vl_ids s = Some ids → length ids = 2%nat) →
  vlan_body md (xd_data_end md) i s =
    Some (Next (mkVlan (vlh s + 4) (bpf_htons ty)
      (match vl_ids s with None => None | Some ids => Some (<[Z.to_nat i := tci mod 4096]> ids) end))).
Proof.
  intros Hb Htci Hty Hv Hp Hi Hids. unfold vlan_body, sizeof_vlan_hdr. rewrite Hp. cbn [negb].
  assert (xd_data_end md = xd_data md + zlen pre + 4 + zlen post) as Hend.
  { unfold xd_data_end. rewrite Hb, !length_app. cbn. lia. }
  rewrite (proj2 (Z.ltb_ge (xd_data_end md) (vlh s + 4))) by lia. rewrite Hv.
  assert (ld16 md (xd_data md + zlen pre + 2) = Some (bpf_htons ty)) as ->.
  { apply (ld16_field md (pre ++ be16 tci) ty post); [by rewrite <- app_assoc|done|].
    rewrite length_app. change (length (be16 tci)) with 2%nat. lia. }
  rewrite (ld16_field md pre tci (be16 ty ++ post)) by done. cbn [mbind option_bind].
  destruct (vl_ids s) as [ids|]; [|done]. cbn [mbind option_bind].
  rewrite aset_eq by (rewrite (Hids ids) by done; lia). by rewrite vid_mask.
Qed.

Lemma vlan_body_end md i s :
  proto_is_vlan (vl_proto s) = false → vlan_body md (xd_data_end md) i s = Some (Break s).
Proof. intros H. unfold vlan_body. by rewrite H. Qed.

Definition tag_ok (t : Z * Z) : Prop := is_tpid t.1 ∧ 0 <= t.2 < 2 ^ 16.

Lemma is_tpid_range x : is_tpid x → 0 <= x < 2 ^ 16.
Proof. unfold is_tpid, ETH_P_8021Q, ETH_P_8021AD. lia. Qed.

(** The collected VLAN ids: those of the tags, then what the structure held. *)
Definition tag_ids (tags : list (Z * Z)) (ids : list Z) : list Z :=
  map (λ t, t.2 mod 4096) tags ++ drop (length tags) ids.

Lemma for_loop_0_2 {T} (body : Z → T → option (ctl T)) s :
  for_loop 0 2 body s =
    (c ← body 0 s; match c with
                   | Break s' => Some s'
                   | Next s' => c ← body 1 s'; Some (match c with Next s' | Break s' => s' end)
                   end).
Proof.
  unfold for_loop. change (Z.to_nat (2 - 0)) with 2%nat. cbn [for_up].
  change (0 + 1) with 1. change (1 + 1) with 2.
  destruct (body 0 s) as [[s1|s1]|]; cbn [mbind option_bind]; [|done..].
  by destruct (body 1 s1) as [[|]|].
Qed.

Lemma parse_tags md macs tags ty payload vids :
  xd_bytes md = eth_frame macs tags ty payload → length macs = 12%nat → Forall tag_ok tags →
  (length tags <= 2)%nat → 0 <= ty < 2 ^ 16 → ((length tags < 2)%nat → ¬ is_tpid ty) →
  (∀ ids, vids = Some ids → length ids = 2%nat) →
  parse_ethhdr_vlan md (xd_data md) (xd_data_end md) vids =
    Some (bpf_htons ty, xd_data md + 14 + 4 * zlen tags, Some (xd_data md), tag_ids tags <$> vids).
Proof.
  intros Hb Hm Htags Hlen Hty Hnt Hids. unfold parse_ethhdr_vlan, sizeof_ethhdr.
  assert (xd_data md + 14 <= xd_data_end md) as Hend.
  { unfold xd_data_end. rewrite Hb. unfold eth_frame. rewrite !length_app.
    change (length (be16 ty)) with 2%nat. lia. }
  rewrite (proj2 (Z.ltb_ge _ _)) by lia. change VLAN_MAX_DEPTH with 2.
  destruct tags as [|[tp1 tci1] [|[tp2 tci2] [|]]]; cbn [length] in *; [| | |lia];
    unfold eth_frame in Hb; cbn [map concat fst snd app] in Hb; rewrite ?app_nil_r, <- ?app_assoc in Hb;
    repeat match goal with H : Forall _ (_ :: _) |- _ => apply Forall_cons_1 in H as [[? ?] H] end;
    cbn [fst snd] in *.
  - rewrite (ld16_field md macs ty payload) by (done || lia). cbn [mbind option_bind].
    rewrite for_loop_0_2, vlan_body_end by (apply proto_not_vlan; auto with lia).
    cbn. rewrite Z.add_0_r. by destruct vids.
  - rewrite (ld16_field md macs tp1 (be16 tci1 ++ be16 ty ++ payload)) by
      (done || lia || by apply is_tpid_range). cbn [mbind option_bind].
    rewrite for_loop_0_2.
    rewrite (vlan_body_tag md (macs ++ be16 tp1) tci1 ty payload);
      [|by rewrite <- app_assoc|done|done|cbn [vlh]; autorewrite with arr; lia
       |apply proto_is_vlan_spec; [by apply is_tpid_range|done]|lia|done].
    cbn [mbind option_bind].
    rewrite vlan_body_end by (apply proto_not_vlan; auto with lia). cbn.
    destruct vids as [[|x [|y [|]]]|]; try (specialize (Hids _ eq_refl); discriminate Hids);
      cbn; repeat (f_equal; try lia).
  - rewrite (ld16_field md macs tp1 (be16 tci1 ++ be16 tp2 ++ be16 tci2 ++ be16 ty ++ payload)) by
      (done || lia || by apply is_tpid_range). cbn [mbind option_bind].
    rewrite for_loop_0_2.
    rewrite (vlan_body_tag md (macs ++ be16 tp1) tci1 tp2 (be16 tci2 ++ be16 ty ++ payload));
      [|by rewrite <- app_assoc|done|by apply is_tpid_range
       |cbn [vlh]; autorewrite with arr; lia
       |apply proto_is_vlan_spec; [by apply is_tpid_range|done]|lia|done].
    cbn [mbind option_bind].
    rewrite (vlan_body_tag md (macs ++ be16 tp1 ++ be16 tci1 ++ be16 tp2) tci2 ty payload);
      [|by rewrite <- !app_assoc|done|done
       |cbn [vlh]; autorewrite with arr; lia
       |apply proto_is_vlan_spec; [by apply is_tpid_range|done]|lia|].
    + cbn. destruct vids as [[|x [|y [|]]]|]; try (specialize (Hids _ eq_refl); discriminate Hids);
        cbn; repeat (f_equal; try lia).
    + cbn. intros ids' E. destruct vids as [ids|]; [|done]. injection E as <-.
      rewrite length_insert. by apply Hids.
Qed.

(** [parse_ethhdr] on a frame with at most two tags. *)
Lemma parse_ethhdr_tags md macs tags ty payload :
  xd_bytes md = eth_frame macs tags ty payload → length macs = 12%nat → Forall tag_ok tags →
  (length tags <= 2)%nat → 0 <= ty < 2 ^ 16 → ((length tags < 2)%nat → ¬ is_tpid ty) →
  parse_ethhdr md (xd_data md) (xd_data_end md) =
    Some (bpf_htons ty, xd_data md + 14 + 4 * zlen tags, Some (xd_data md)).
Proof.
  intros Hb Hm Ht Hl Hty Hn. unfold parse_ethhdr.
  by rewrite (parse_tags md macs tags ty payload None).
Qed.

(** ** The theorems *)

(** C10: memory safety of the parsers.  From any cursor inside a packet, each
    of them returns without an access outside it; the cursor stays in the
    packet; a failure writes no header and keeps the cursor, and a header that
    is written lies in the packet before the new cursor. *)
Theorem parsers_safe :
  HeaderParser parse_ethhdr 14 ∧ HeaderParser parse_ip6hdr 40 ∧ HeaderParser parse_iphdr 20
  ∧ HeaderParser parse_icmp6hdr 8 ∧ HeaderParser parse_icmphdr 8
  ∧ HeaderParser parse_icmphdr_common 4 ∧ HeaderParser parse_udphdr 8 ∧ HeaderParser parse_tcphdr 20.
Proof. split_and!; apply _. Qed.

(** [parse_ethhdr_vlan] on a frame with up to two VLAN tags returns the
    EtherType after the tags in network byte order, moves the cursor behind
    the tags, keeps the header pointer at the Ethernet header and collects the
    12-bit identifiers; a third tag is left to the caller as the EtherType. *)
Theorem parse_ethhdr_vlan_tags md macs tags ty payload ids :
  xd_bytes md = eth_frame macs tags ty payload → length macs = 12%nat → Forall tag_ok tags →
  (length tags <= 2)%nat → 0 <= ty < 2 ^ 16 → ((length tags < 2)%nat → ¬ is_tpid ty) →
  length ids = 2%nat →
  parse_ethhdr_vlan md (xd_data md) (xd_data_end md) (Some ids) =
    Some (bpf_htons ty, xd_data md + 14 + 4 * zlen tags, Some (xd_data md),
          Some (map (λ t, t.2 mod 4096) tags ++ drop (length tags) ids)).
Proof.
  intros ??????. intros Hids. eapply (parse_tags md macs tags ty payload (Some ids)); try done.
  by intros ? [= <-].
Qed.

Definition tagged_md : xdp_md :=
  mkMd 64 (eth_frame (replicate 12 7) [(0x8100, 0x2005); (0x88A8, 0x1ffe)] 0x0800 [1; 2; 3]).

Lemma parse_ethhdr_vlan_tags_witness :
  parse_ethhdr_vlan tagged_md 64 (xd_data_end tagged_md) (Some [0; 0]) =
    Some (bpf_htons 0x0800, 64 + 14 + 8, Some 64, Some [5; 0xffe]).
Proof.
  apply (parse_ethhdr_vlan_tags tagged_md (replicate 12 7)
    [(0x8100, 0x2005); (0x88A8, 0x1ffe)] 0x0800 [1; 2; 3] [0; 0]);
    [reflexivity|reflexivity| |cbn; lia|lia|cbn; lia|reflexivity].
  repeat (apply List.Forall_cons; [split; [|cbn; lia]|]); [by left|by right|apply List.Forall_nil].
Defined.

(** [parse_iphdr] writes a header exactly when 20 bytes are there, the
    header length field is at least 5 words and the whole header fits; it then
    returns the protocol field and moves the cursor behind the options. *)
Theorem parse_iphdr_accepts md nh ret pos h :
  md_ok md → xd_data md <= nh <= xd_data_end md →
  parse_iphdr md nh (xd_data_end md) = Some (ret, pos, Some h) ↔
  ∃ b0, ld8 md nh = Some b0 ∧ ld8 md (nh + 9) = Some ret ∧ nh + 20 <= xd_data_end md
    ∧ 5 <= b0 mod 16 ∧ nh + 4 * (b0 mod 16) <= xd_data_end md
    ∧ pos = nh + 4 * (b0 mod 16) ∧ h = nh.
Proof.
  intros Hok Hnh. unfold parse_iphdr, sizeof_iphdr.
  assert (∀ b, Z.land b 15 = b mod 16) as Hland
    by (intros b; change 15 with (Z.ones 4); by rewrite Z.land_ones by lia).
  destruct (Z.ltb_spec (xd_data_end md) (nh + 20)).
  { split; [done|]. intros (b0 & ?). lia. }
  destruct (ld8_in md nh) as [b0 E0]; [lia|]. rewrite E0. cbn [mbind option_bind].
  rewrite Hland.
  destruct (Z.ltb_spec (b0 mod 16 * 4) 20).
  { split; [done|]. intros (b & [= <-] & ?). lia. }
  destruct (Z.ltb_spec (xd_data_end md) (nh + b0 mod 16 * 4)).
  { split; [done|]. intros (b & [= <-] & ?). lia. }
  destruct (ld8_in md (nh + 9)) as [b9 E9]; [lia|]. rewrite E9. cbn [mbind option_bind]. split.
  - intros [= -> <- <-]. exists b0. split_and!; done || lia.
  - intros (b & [= <-] & [= ->] & _ & _ & _ & -> & ->). do 3 f_equal. lia.
Qed.

Definition ipv4_md : xdp_md :=
  mkMd 64 (replicate 14 0 ++ 0x46 :: replicate 8 0 ++ 17 :: replicate 14 0).

Lemma ipv4_md_ok : md_ok ipv4_md.
Proof.
  split; [zeval|zeval|]. by apply bytes_ok_dec.
Qed.

Lemma parse_iphdr_accepts_witness : parse_iphdr ipv4_md 78 (xd_data_end ipv4_md) = Some (17, 102, Some 78).
Proof.
  apply (parse_iphdr_accepts ipv4_md 78 17 102 78); [apply ipv4_md_ok|zeval|].
  exists 0x46. split_and!; try reflexivity; zeval.
Defined.

(** [parse_udphdr] returns the payload length announced by the header, and
    -1 when the length field is below the header size although the subtraction
    is made on a [size_t]: the conversions to [int] recover the sign. *)
Theorem parse_udphdr_length md pre l post :
  md_ok md → xd_bytes md = pre ++ be16 l ++ post → 0 <= l < 2 ^ 16 → 4 <= zlen pre → 2 <= zlen post →
  let nh := xd_data md + zlen pre - 4 in
  parse_udphdr md nh (xd_data_end md) = Some (if l <? 8 then -1 else l - 8, nh + 8, Some nh).
Proof.
  intros Hok Hb Hl Hpre Hpost nh. unfold parse_udphdr, sizeof_udphdr.
  assert (xd_data_end md = xd_data md + zlen pre + 2 + zlen post) as Hend.
  { unfold xd_data_end. rewrite Hb. autorewrite with arr. lia. }
  rewrite (proj2 (Z.ltb_ge _ _)) by lia.
  rewrite (ld16_field md pre l post) by (done || lia). cbn [mbind option_bind].
  rewrite udp_len_value, bpf_ntohs_htons by done. zcase; done || lia.
Qed.

Definition udp_md (l : Z) : xdp_md := mkMd 0 ([0; 53; 0; 53] ++ be16 l ++ [0; 0]).

Lemma parse_udphdr_length_witness : parse_udphdr (udp_md 7) 0 8 = Some (-1, 8, Some 0).
Proof.
  apply (parse_udphdr_length (udp_md 7) [0; 53; 0; 53] 7 [0; 0]); [|reflexivity|lia|cbn; lia|cbn; lia].
  split; [zeval|zeval|by apply bytes_ok_dec].
Defined.
