(* ===== verification/RewriteHelpers.v ===== *)
(** * Packet rewriting ([common/rewrite_helpers.h])

    The functions take the context and a header pointer, and return the value
    of the C function with the context after the call. *)

From S2P Require Import Prelude Packet ParsingHelpers.

Section rewrite.
Context `{XdpHelpers}.

Definition vlan_tag_pop (ctx : xdp_md) (eth : Z) : option (Z * xdp_md) :=
  let data_end := xd_data_end ctx in
  eth_proto ← ld16 ctx (eth + 12);
  if negb (proto_is_vlan eth_proto) then Some (-1, ctx) else
  let vlh := eth + sizeof_ethhdr in
  if data_end <? vlh + sizeof_vlan_hdr then Some (-1, ctx) else
  tci ← ld16 ctx vlh;
  let vlid := bpf_ntohs tci in
  h_proto ← ld16 ctx (vlh + 2);
  eth_cpy ← ld_bytes ctx eth 14;
  let '(ret, ctx) := bpf_xdp_adjust_head ctx sizeof_vlan_hdr in
  if negb (ret =? 0) then Some (-1, ctx) else
  let eth := xd_data ctx in
  let data_end := xd_data_end ctx in
  if data_end <? eth + sizeof_ethhdr then Some (-1, ctx) else
  ctx ← st_bytes ctx eth eth_cpy;
  ctx ← st16 ctx (eth + 12) h_proto;
  Some (vlid, ctx).

Definition vlan_tag_push (ctx : xdp_md) (eth vlid : Z) : option (Z * xdp_md) :=
  eth_cpy ← ld_bytes ctx eth 14;
  let '(ret, ctx) := bpf_xdp_adjust_head ctx (0 - sizeof_vlan_hdr) in
  if negb (ret =? 0) then Some (-1, ctx) else
  let data_end := xd_data_end ctx in
  let eth := xd_data ctx in
  if data_end <? eth + sizeof_ethhdr then Some (-1, ctx) else
  ctx ← st_bytes ctx eth eth_cpy;
  let vlh := eth + sizeof_ethhdr in
  if data_end <? vlh + sizeof_vlan_hdr then Some (-1, ctx) else
  ctx ← st16 ctx vlh (bpf_htons vlid);
  proto ← ld16 ctx (eth + 12);
  ctx ← st16 ctx (vlh + 2) proto;
  ctx ← st16 ctx (eth + 12) (bpf_htons ETH_P_8021Q);
  Some (0, ctx).
End rewrite.

(** Offsets: [h_dest] 0, [h_source] 6. *)
Definition swap_src_dst_mac (ctx : xdp_md) (eth : Z) : option xdp_md :=
  h_tmp ← ld_bytes ctx (eth + 6) 6;
  h_dest ← ld_bytes ctx eth 6;
  ctx ← st_bytes ctx (eth + 6) h_dest;
  st_bytes ctx eth h_tmp.

(** Offsets: [saddr] 8, [daddr] 24. *)
Definition swap_src_dst_ipv6 (ctx : xdp_md) (ipv6 : Z) : option xdp_md :=
  tmp ← ld_bytes ctx (ipv6 + 8) 16;
  daddr ← ld_bytes ctx (ipv6 + 24) 16;
  ctx ← st_bytes ctx (ipv6 + 8) daddr;
  st_bytes ctx (ipv6 + 24) tmp.

(** Offsets: [saddr] 12, [daddr] 16. *)
Definition swap_src_dst_ipv4 (ctx : xdp_md) (iphdr : Z) : option xdp_md :=
  tmp ← ld_bytes ctx (iphdr + 12) 4;
  daddr ← ld_bytes ctx (iphdr + 16) 4;
  ctx ← st_bytes ctx (iphdr + 12) daddr;
  st_bytes ctx (iphdr + 16) tmp.

(** ** The tag operations on frames *)

Section rewrite_lemmas.
Context `{XdpHelpers}.

(** Pushing: on success the tag stands between the addresses and the type. *)
Lemma vlan_tag_push_ok ctx macs ty payload vlid :
  xd_bytes ctx = macs ++ be16 ty ++ payload → length macs = 12%nat → 0 <= ty < 2 ^ 16 →
  (bpf_xdp_adjust_head ctx (-4)).1 = 0 →
  vlan_tag_push ctx (xd_data ctx) vlid =
    Some (0, mkMd (xd_data ctx - 4)
               (macs ++ be16 ETH_P_8021Q ++ be16 (u16 vlid) ++ be16 ty ++ payload)).
Proof.
  intros Hb Hm Hty Hadj. unfold vlan_tag_push, sizeof_vlan_hdr, sizeof_ethhdr.
  rewrite (ld_bytes_at ctx [] (macs ++ be16 ty) payload) by
    (rewrite ?Hb, <- ?app_assoc; autorewrite with arr; cbn; done || lia).
  cbn [mbind option_bind]. change (0 - 4) with (-4).
  destruct (bpf_xdp_adjust_head ctx (-4)) as [r ctx1] eqn:E. cbn in Hadj. subst r. cbn [Z.eqb negb].
  destruct (adjust_head_grow ctx 4 ctx1 E) as (fresh & Hf & Hfok & Hpos & ->). rewrite Hb.
  change (Z.of_nat 4) with 4. cbn [xd_data].
  set (d := xd_data ctx - 4). set (all := fresh ++ macs ++ be16 ty ++ payload).
  assert (xd_data_end (mkMd d all) = d + 18 + zlen payload) as ->.
  { unfold xd_data_end, all. cbn [xd_data xd_bytes]. autorewrite with arr. lia. }
  rewrite !(proj2 (Z.ltb_ge _ _)) by lia.
  (* the copied header covers the fresh bytes and the first 10 old ones *)
  destruct fresh as [|f0 [|f1 [|f2 [|f3 [|]]]]]; try discriminate Hf.
  do 12 (destruct macs as [|? macs]; [discriminate Hm|]). destruct macs; [|discriminate Hm].
  unfold all, be16. cbn [app].
  match goal with |- context [st_bytes (mkMd d ?l)] =>
    rewrite (st_bytes_at (mkMd d l) [] (take 14 l) (drop 14 l)) by (cbn; done || lia) end.
  cbn [mbind option_bind app take drop xd_data].
  match goal with |- context [st16 (mkMd d ?l) (d + 14) _] =>
    rewrite <- (bpf_htons_u16 vlid);
    rewrite (st16_htons_at (mkMd d l) (take 14 l) (take 2 (drop 14 l)) (drop 16 l))
      by (cbn; done || lia || apply u16_range) end.
  cbn [mbind option_bind app take drop be16 xd_data].
  match goal with |- context [ld16 (mkMd d ?l) _] =>
    rewrite (ld16_field (mkMd d l) (take 12 l) ty (drop 14 l)) by (cbn; done || lia) end.
  cbn [mbind option_bind].
  match goal with |- context [st16 (mkMd d ?l) (d + 14 + 2) _] =>
    rewrite (st16_htons_at (mkMd d l) (take 16 l) (take 2 (drop 16 l)) (drop 18 l))
      by (cbn; done || lia) end.
  cbn [mbind option_bind app take drop be16 xd_data].
  match goal with |- context [st16 (mkMd d ?l) (d + 12) _] =>
    rewrite (st16_htons_at (mkMd d l) (take 12 l) (take 2 (drop 12 l)) (drop 14 l))
      by (cbn; done || (unfold ETH_P_8021Q; lia)) end.
  done.
Qed.

(** Popping: on success the outermost tag is gone and its TCI is returned. *)
Lemma vlan_tag_pop_ok ctx macs tp tci ty payload :
  xd_bytes ctx = macs ++ be16 tp ++ be16 tci ++ be16 ty ++ payload → length macs = 12%nat →
  is_tpid tp → 0 <= tci < 2 ^ 16 → 0 <= ty < 2 ^ 16 →
  (bpf_xdp_adjust_head ctx 4).1 = 0 →
  vlan_tag_pop ctx (xd_data ctx) =
    Some (tci, mkMd (xd_data ctx + 4) (macs ++ be16 ty ++ payload)).
Proof.
  intros Hb Hm Htp Htci Hty Hadj. unfold vlan_tag_pop, sizeof_vlan_hdr, sizeof_ethhdr.
  pose proof (is_tpid_range tp Htp).
  rewrite (ld16_field ctx macs tp (be16 tci ++ be16 ty ++ payload) (xd_data ctx + 12)) by (done || lia).
  cbn [mbind option_bind]. rewrite (proj2 (proto_is_vlan_spec tp ltac:(done)) Htp). cbn [negb].
  assert (xd_data_end ctx = xd_data ctx + 18 + zlen payload) as Hend.
  { unfold xd_data_end. rewrite Hb. autorewrite with arr. lia. }
  rewrite (proj2 (Z.ltb_ge _ _)) by lia.
  rewrite (ld16_field ctx (macs ++ be16 tp) tci (be16 ty ++ payload) (xd_data ctx + 14)) by
    (rewrite <- ?app_assoc; autorewrite with arr; done || lia).
  cbn [mbind option_bind]. rewrite bpf_ntohs_htons by done.
  assert (ld16 ctx (xd_data ctx + 14 + 2) = Some (bpf_htons ty)) as ->.
  { apply (ld16_field ctx (macs ++ be16 tp ++ be16 tci) ty payload);
      rewrite <- ?app_assoc; autorewrite with arr; done || lia. }
  cbn [mbind option_bind].
  rewrite (ld_bytes_at ctx [] (macs ++ be16 tp) (be16 tci ++ be16 ty ++ payload)) by
    (rewrite ?Hb, <- ?app_assoc; autorewrite with arr; cbn; done || lia).
  cbn [mbind option_bind].
  destruct (bpf_xdp_adjust_head ctx 4) as [r ctx1] eqn:E. cbn in Hadj. subst r. cbn [Z.eqb negb].
  destruct (adjust_head_shrink ctx 4 ctx1 E) as (_ & ->). rewrite Hb.
  change (Z.of_nat 4) with 4. cbn [xd_data]. set (d := xd_data ctx + 4).
  do 12 (destruct macs as [|? macs]; [discriminate Hm|]). destruct macs; [|discriminate Hm].
  unfold be16. cbn [app drop].
  match goal with |- context [xd_data_end (mkMd d ?l)] =>
    assert (xd_data_end (mkMd d l) = d + 14 + zlen payload) as ->
      by (unfold xd_data_end; cbn [xd_data xd_bytes length]; lia) end.
  rewrite (proj2 (Z.ltb_ge _ _)) by lia.
  match goal with |- context [st_bytes (mkMd d ?l)] =>
    rewrite (st_bytes_at (mkMd d l) [] (take 14 l) (drop 14 l)) by (cbn; done || lia) end.
  cbn [mbind option_bind app take drop xd_data].
  match goal with |- context [st16 (mkMd d ?l) (d + 12) _] =>
    rewrite (st16_htons_at (mkMd d l) (take 12 l) (take 2 (drop 12 l)) (drop 14 l))
      by (cbn; done || lia) end.
  done.
Qed.

Lemma vlan_tag_pop_errors ctx :
  md_ok ctx → xd_data ctx + 14 <= xd_data_end ctx →
  (∀ ty, ld16 ctx (xd_data ctx + 12) = Some (bpf_htons ty) → 0 <= ty < 2 ^ 16 → ¬ is_tpid ty →
     vlan_tag_pop ctx (xd_data ctx) = Some (-1, ctx))
  ∧ ((bpf_xdp_adjust_head ctx 4).1 ≠ 0 → vlan_tag_pop ctx (xd_data ctx) = Some (-1, ctx)).
Proof.
  intros Hok Hend. unfold vlan_tag_pop, sizeof_vlan_hdr, sizeof_ethhdr. split.
  - intros ty -> Hty Hn. cbn [mbind option_bind]. by rewrite proto_not_vlan.
  - intros Hadj.
    destruct (ld16_in ctx (xd_data ctx + 12) Hok) as (a & b & _ & _ & _ & _ & ->); [lia..|].
    cbn [mbind option_bind]. destruct (proto_is_vlan _); [|done]. cbn [negb].
    destruct (Z.ltb_spec (xd_data_end ctx) (xd_data ctx + 14 + 4)); [done|].
    destruct (ld16_in ctx (xd_data ctx + 14) Hok) as (? & ? & _ & _ & _ & _ & ->); [lia..|].
    destruct (ld16_in ctx (xd_data ctx + 14 + 2) Hok) as (? & ? & _ & _ & _ & _ & ->); [lia..|].
    destruct (ld_bytes_in ctx (xd_data ctx) 14) as (bs & -> & _); [lia..|].
    cbn [mbind option_bind].
    destruct (bpf_xdp_adjust_head ctx 4) as [r ctx1] eqn:E. cbn in Hadj.
    rewrite (proj2 (Z.eqb_neq r 0)) by done. cbn [negb].
    by rewrite (adjust_head_fail _ _ _ _ E Hadj).
Qed.
End rewrite_lemmas.

(** Two adjacent fields of the same size, exchanged through a copy. *)
Lemma swap_fields ctx pre x y post p q n :
  xd_bytes ctx = pre ++ x ++ y ++ post → length x = n → length y = n →
  p = xd_data ctx + zlen pre → q = p + Z.of_nat n →
  ld_bytes ctx p n = Some x ∧ ld_bytes ctx q n = Some y
  ∧ (ctx ← st_bytes ctx p y; st_bytes ctx q x) = Some (mkMd (xd_data ctx) (pre ++ y ++ x ++ post))
  ∧ (ctx ← st_bytes ctx q x; st_bytes ctx p y) = Some (mkMd (xd_data ctx) (pre ++ y ++ x ++ post)).
Proof.
  intros Hb Hx Hy Hp Hq.
  assert (∀ u : list Z, length u = n → q = xd_data ctx + zlen (pre ++ u)) as Hq'
    by (intros u Hu; rewrite length_app; lia).
  split_and!.
  - by apply (ld_bytes_at ctx pre x (y ++ post)).
  - apply (ld_bytes_at ctx (pre ++ x) y post); [by rewrite <- app_assoc|by apply Hq'|done].
  - rewrite (st_bytes_at ctx pre x (y ++ post)) by (done || lia). cbn [mbind option_bind].
    rewrite (st_bytes_at _ (pre ++ y) y post);
      [by rewrite <- app_assoc|cbn; by rewrite <- app_assoc|lia|by apply Hq'].
  - rewrite (st_bytes_at ctx (pre ++ x) y post);
      [|by rewrite <- app_assoc|lia|by apply Hq'].
    cbn [mbind option_bind].
    rewrite (st_bytes_at _ pre x (x ++ post)); [done|cbn; by rewrite <- app_assoc|lia|done].
Qed.

Lemma swap_mac_ok ctx pre x y post :
  xd_bytes ctx = pre ++ x ++ y ++ post → length x = 6%nat → length y = 6%nat →
  swap_src_dst_mac ctx (xd_data ctx + zlen pre) = Some (mkMd (xd_data ctx) (pre ++ y ++ x ++ post)).
Proof.
  intros Hb Hx Hy. unfold swap_src_dst_mac.
  destruct (swap_fields ctx pre x y post (xd_data ctx + zlen pre) (xd_data ctx + zlen pre + 6) 6)
    as (E1 & E2 & _ & E4); [done..|].
  rewrite E2, E1. exact E4.
Qed.

Lemma swap_ipv6_ok ctx pre x y post :
  xd_bytes ctx = pre ++ x ++ y ++ post → length x = 16%nat → length y = 16%nat →
  swap_src_dst_ipv6 ctx (xd_data ctx + zlen pre - 8) = Some (mkMd (xd_data ctx) (pre ++ y ++ x ++ post)).
Proof.
  intros Hb Hx Hy. unfold swap_src_dst_ipv6.
  destruct (swap_fields ctx pre x y post (xd_data ctx + zlen pre - 8 + 8) (xd_data ctx + zlen pre - 8 + 24) 16)
    as (E1 & E2 & E3 & _); [done|done|done|lia|lia|].
  rewrite E1, E2. exact E3.
Qed.

Lemma swap_ipv4_ok ctx pre x y post :
  xd_bytes ctx = pre ++ x ++ y ++ post → length x = 4%nat → length y = 4%nat →
  swap_src_dst_ipv4 ctx (xd_data ctx + zlen pre - 12) = Some (mkMd (xd_data ctx) (pre ++ y ++ x ++ post)).
Proof.
  intros Hb Hx Hy. unfold swap_src_dst_ipv4.
  destruct (swap_fields ctx pre x y post (xd_data ctx + zlen pre - 12 + 12) (xd_data ctx + zlen pre - 12 + 16) 4)
    as (E1 & E2 & E3 & _); [done|done|done|lia|lia|].
  rewrite E1, E2. exact E3.
Qed.

(** ** The theorems *)

Section theorems.
Context `{XdpHelpers}.

(** Pushing a VLAN tag and popping it restores the packet byte for byte
    and gives back the tag pushed: when the kernel grants both head
    adjustments, [vlan_tag_push] puts TPID 0x8100 and the tag between the
    addresses and the EtherType, and [vlan_tag_pop] on its result returns the
    16 bits of [vlid] and the original context. *)
Theorem vlan_push_pop_roundtrip ctx macs ty payload vlid :
  xd_bytes ctx = macs ++ be16 ty ++ payload → length macs = 12%nat → 0 <= ty < 2 ^ 16 →
  let ctx' := mkMd (xd_data ctx - 4)
                (macs ++ be16 ETH_P_8021Q ++ be16 (u16 vlid) ++ be16 ty ++ payload) in
  (bpf_xdp_adjust_head ctx (-4)).1 = 0 → (bpf_xdp_adjust_head ctx' 4).1 = 0 →
  vlan_tag_push ctx (xd_data ctx) vlid = Some (0, ctx')
  ∧ vlan_tag_pop ctx' (xd_data ctx') = Some (u16 vlid, ctx).
Proof.
  intros Hb Hm Hty ctx' H1 H2. split; [by apply vlan_tag_push_ok|].
  rewrite (vlan_tag_pop_ok ctx' macs ETH_P_8021Q (u16 vlid) ty payload);
    [|done|done|by left|apply u16_range|done|done].
  cbn [xd_data ctx']. rewrite Z.sub_add, <- Hb. by destruct ctx.
Qed.

(** [vlan_tag_pop] returns the whole tag control information, not the
    VLAN identifier its comment promises: on a frame whose tag has priority
    bits the result is not the 12-bit identifier. *)
Theorem vlan_tag_pop_returns_tci ctx macs tp tci ty payload :
  xd_bytes ctx = macs ++ be16 tp ++ be16 tci ++ be16 ty ++ payload → length macs = 12%nat →
  is_tpid tp → 0 <= tci < 2 ^ 16 → 0 <= ty < 2 ^ 16 → (bpf_xdp_adjust_head ctx 4).1 = 0 →
  ∃ ret ctx', vlan_tag_pop ctx (xd_data ctx) = Some (ret, ctx')
    ∧ xd_bytes ctx' = macs ++ be16 ty ++ payload ∧ xd_data_end ctx' = xd_data_end ctx
    ∧ ret = tci ∧ (4096 <= tci → ret ≠ tci mod 4096).
Proof.
  intros Hb Hm Htp Htci Hty Hadj. eexists _, _. split; [by eapply vlan_tag_pop_ok|].
  split_and!; [done| |done|].
  - unfold xd_data_end. cbn [xd_data xd_bytes]. rewrite Hb. autorewrite with arr. lia.
  - intros Hp. pose proof (Z.mod_pos_bound tci 4096). lia.
Qed.
End theorems.

(** The address swaps exchange the two fields and nothing else, so that
    swapping twice is the identity: MAC addresses of an Ethernet header,
    addresses of an IPv6 and of an IPv4 header. *)
Theorem swaps_exchange ctx pre x y post :
  xd_bytes ctx = pre ++ x ++ y ++ post →
  let swapped := mkMd (xd_data ctx) (pre ++ y ++ x ++ post) in
  (length x = 6%nat → length y = 6%nat →
     swap_src_dst_mac ctx (xd_data ctx + zlen pre) = Some swapped
     ∧ swap_src_dst_mac swapped (xd_data ctx + zlen pre) = Some ctx)
  ∧ (length x = 16%nat → length y = 16%nat →
     swap_src_dst_ipv6 ctx (xd_data ctx + zlen pre - 8) = Some swapped
     ∧ swap_src_dst_ipv6 swapped (xd_data ctx + zlen pre - 8) = Some ctx)
  ∧ (length x = 4%nat → length y = 4%nat →
     swap_src_dst_ipv4 ctx (xd_data ctx + zlen pre - 12) = Some swapped
     ∧ swap_src_dst_ipv4 swapped (xd_data ctx + zlen pre - 12) = Some ctx).
Proof.
  intros Hb swapped.
  assert (mkMd (xd_data swapped) (pre ++ x ++ y ++ post) = ctx) as Hctx
    by (cbn [swapped xd_data]; rewrite <- Hb; by destruct ctx).
  split_and!; intros Hx Hy; split.
  - by apply swap_mac_ok.
  - etransitivity; [by apply (swap_mac_ok swapped pre y x post)|by rewrite Hctx].
  - by apply swap_ipv6_ok.
  - etransitivity; [by apply (swap_ipv6_ok swapped pre y x post)|by rewrite Hctx].
  - by apply swap_ipv4_ok.
  - etransitivity; [by apply (swap_ipv4_ok swapped pre y x post)|by rewrite Hctx].
Qed.

(** ** Witnesses *)

Definition plain_frame : xdp_md := mkMd 64 (replicate 12 7 ++ be16 0x0800 ++ [1; 2; 3; 4]).

Lemma vlan_push_pop_roundtrip_witness :
  vlan_tag_push plain_frame 64 0x2005 =
    Some (0, mkMd 60 (replicate 12 7 ++ be16 ETH_P_8021Q ++ be16 (u16 0x2005) ++ be16 0x0800 ++ [1; 2; 3; 4]))
  ∧ vlan_tag_pop (mkMd 60 (replicate 12 7 ++ be16 ETH_P_8021Q ++ be16 (u16 0x2005) ++ be16 0x0800 ++ [1; 2; 3; 4])) 60
    = Some (u16 0x2005, plain_frame).
Proof.
  apply (vlan_push_pop_roundtrip plain_frame (replicate 12 7) 0x0800 [1; 2; 3; 4] 0x2005);
    [reflexivity|reflexivity|lia|reflexivity|reflexivity].
Defined.

Lemma vlan_tag_pop_returns_tci_witness :
  ∃ ret ctx', vlan_tag_pop (mkMd 60 (replicate 12 7 ++ be16 0x8100 ++ be16 0x2005 ++ be16 0x0800 ++ [9])) 60
    = Some (ret, ctx') ∧ xd_bytes ctx' = replicate 12 7 ++ be16 0x0800 ++ [9]
    ∧ xd_data_end ctx' = 79 ∧ ret = 0x2005 ∧ (4096 <= 0x2005 → ret ≠ 0x2005 mod 4096).
Proof.
  apply (vlan_tag_pop_returns_tci
    (mkMd 60 (replicate 12 7 ++ be16 0x8100 ++ be16 0x2005 ++ be16 0x0800 ++ [9])) (replicate 12 7) 0x8100);
    [reflexivity|reflexivity|by left|lia|lia|reflexivity].
Defined.

Lemma swaps_exchange_witness :
  swap_src_dst_mac (mkMd 0 (replicate 6 1 ++ replicate 6 2)) 0 =
    Some (mkMd 0 (replicate 6 2 ++ replicate 6 1)).
Proof.
  apply (swaps_exchange (mkMd 0 (replicate 6 1 ++ replicate 6 2)) [] (replicate 6 1) (replicate 6 2) []);
    reflexivity.
Defined.
