(* ===== verification/FilterParsers.v ===== *)
(** * The header parsers of xdp-tools ([lib/xdp-tools/headers/xdp/parsing_helpers.h])

    The library's version of the parsers differs from that of the programs in
    [common/]: four VLAN tags, chains of IPv6 extension headers, no lower bound
    on the IPv4 and TCP header lengths, and a TCP cursor behind the fixed
    header.  The conventions are those of [ParsingHelpers]. *)

From S2P Require Import Prelude Packet ParsingHelpers.

Definition VLAN_MAX_DEPTH : Z := 4.
Definition IPV6_EXT_MAX_CHAIN : Z := 6.

Definition IPPROTO_HOPOPTS : Z := 0.
Definition IPPROTO_ROUTING : Z := 43.
Definition IPPROTO_FRAGMENT : Z := 44.
Definition IPPROTO_AH : Z := 51.
Definition IPPROTO_DSTOPTS : Z := 60.
Definition IPPROTO_MH : Z := 135.

(** ** The parsers *)

Definition proto_is_vlan (h_proto : Z) : bool :=
  (h_proto =? bpf_htons ETH_P_8021Q) || (h_proto =? bpf_htons ETH_P_8021AD).

(** The state is [(vlh, h_proto)]. *)
Definition vlan_body (md : xdp_md) (data_end i : Z) (s : Z * Z) : option (ctl (Z * Z)) :=
  let '(vlh, h_proto) := s in
  if negb (proto_is_vlan h_proto) then Some (Break s) else
  if data_end <? vlh + sizeof_vlan_hdr then Some (Break s) else
  h_proto ← ld16 md (vlh + 2);
  Some (Next (vlh + sizeof_vlan_hdr, h_proto)).

Definition parse_ethhdr (md : xdp_md) (nh data_end : Z) : option (Z * Z * option Z) :=
  let eth := nh in
  if data_end <? eth + sizeof_ethhdr then Some (-1, nh, None) else
  h_proto ← ld16 md (eth + 12);
  '(vlh, h_proto) ← for_loop 0 VLAN_MAX_DEPTH (vlan_body md data_end) (eth + sizeof_ethhdr, h_proto);
  Some (h_proto, vlh, Some eth).

Definition sizeof_ipv6_opt_hdr : Z := 2.

(** The state is [(nh->pos, next_hdr_type, result)]; a result ends the loop. *)
Definition ext_body (md : xdp_md) (data_end i : Z) (s : Z * Z * option Z) : option (ctl (Z * Z * option Z)) :=
  let '(hdr, next_hdr_type, _) := s in
  if data_end <? hdr + sizeof_ipv6_opt_hdr then Some (Break (hdr, next_hdr_type, Some (-1))) else
  if (next_hdr_type =? IPPROTO_HOPOPTS) || (next_hdr_type =? IPPROTO_DSTOPTS)
     || (next_hdr_type =? IPPROTO_ROUTING) || (next_hdr_type =? IPPROTO_MH) then
    hdrlen ← ld8 md (hdr + 1); nexthdr ← ld8 md hdr;
    Some (Next (hdr + (hdrlen + 1) * 8, nexthdr, None))
  else if next_hdr_type =? IPPROTO_AH then
    hdrlen ← ld8 md (hdr + 1); nexthdr ← ld8 md hdr;
    Some (Next (hdr + (hdrlen + 2) * 4, nexthdr, None))
  else if next_hdr_type =? IPPROTO_FRAGMENT then
    nexthdr ← ld8 md hdr;
    Some (Next (hdr + 8, nexthdr, None))
  else Some (Break (hdr, next_hdr_type, Some next_hdr_type)).

Definition skip_ip6hdrext (md : xdp_md) (nh data_end next_hdr_type : Z) : option (Z * Z) :=
  '(pos, _, r) ← for_loop 0 IPV6_EXT_MAX_CHAIN (ext_body md data_end) (nh, next_hdr_type, None);
  Some (default (-1) r, pos).

Definition parse_ip6hdr (md : xdp_md) (nh data_end : Z) : option (Z * Z * option Z) :=
  if data_end <? nh + sizeof_ipv6hdr then Some (-1, nh, None) else
  nexthdr ← ld8 md (nh + 6);
  '(ret, pos) ← skip_ip6hdrext md (nh + sizeof_ipv6hdr) data_end nexthdr;
  Some (ret, pos, Some nh).

Definition parse_iphdr (md : xdp_md) (nh data_end : Z) : option (Z * Z * option Z) :=
  if data_end <? nh + sizeof_iphdr then Some (-1, nh, None) else
  b0 ← ld8 md nh;
  let hdrsize := Z.land b0 15 * 4 in
  if data_end <? nh + hdrsize then Some (-1, nh, None) else
  protocol ← ld8 md (nh + 9);
  Some (protocol, nh + hdrsize, Some nh).

Definition parse_icmp6hdr (md : xdp_md) (nh data_end : Z) : option (Z * Z * option Z) :=
  if data_end <? nh + sizeof_icmp6hdr then Some (-1, nh, None) else
  ty ← ld8 md nh; Some (ty, nh + sizeof_icmp6hdr, Some nh).

Definition parse_icmphdr (md : xdp_md) (nh data_end : Z) : option (Z * Z * option Z) :=
  if data_end <? nh + sizeof_icmphdr then Some (-1, nh, None) else
  ty ← ld8 md nh; Some (ty, nh + sizeof_icmphdr, Some nh).

Definition parse_icmphdr_common (md : xdp_md) (nh data_end : Z) : option (Z * Z * option Z) :=
  if data_end <? nh + sizeof_icmphdr_common then Some (-1, nh, None) else
  ty ← ld8 md nh; Some (ty, nh + sizeof_icmphdr_common, Some nh).

Definition parse_udphdr (md : xdp_md) (nh data_end : Z) : option (Z * Z * option Z) :=
  if data_end <? nh + sizeof_udphdr then Some (-1, nh, None) else
  l ← ld16 md (nh + 4);
  let len := s32 (u64 (bpf_ntohs l - sizeof_udphdr)) in
  if len <? 0 then Some (-1, nh + sizeof_udphdr, Some nh)
  else Some (len, nh + sizeof_udphdr, Some nh).

(** [h->doff] is the high nibble of byte 12. *)
Definition parse_tcphdr (md : xdp_md) (nh data_end : Z) : option (Z * Z * option Z) :=
  if data_end <? nh + sizeof_tcphdr then Some (-1, nh, None) else
  b12 ← ld8 md (nh + 12);
  let len := Z.land (Z.shiftr b12 4) 15 * 4 in
  if data_end <? nh + len then Some (-1, nh, None) else
  Some (len, nh + sizeof_tcphdr, Some nh).

(** ** The interface *)

(** What the filter relies on: from a cursor in the packet a parser never
    faults; a result that is not negative comes with a header of [size] bytes
    in the packet, and with a cursor that is in the packet again. *)
Class LibParser (parse : xdp_md → Z → Z → option (Z * Z * option Z)) (size : Z) : Prop :=
  lib_parser_ok : ∀ md nh, md_ok md → xd_data md <= nh <= xd_data_end md →
    ∃ ret pos hdr, parse md nh (xd_data_end md) = Some (ret, pos, hdr)
      ∧ -1 <= ret < 2 ^ 16
      ∧ (0 <= ret → hdr = Some nh ∧ nh + size <= xd_data_end md ∧ nh <= pos <= xd_data_end md).

(** The parsers that are the same as those of [ParsingHelpers]. *)
Lemma header_parser_lib parse size : HeaderParser parse size → LibParser parse size.
Proof.
  intros H md nh Hok Hnh. destruct (H md nh Hok Hnh) as (ret & pos & hdr & E & Hr & Hp & Hh).
  exists ret, pos, hdr. split_and!; [done|lia|lia|]. intros H0. destruct hdr as [h|]; [|lia].
  destruct Hh as [-> Hh]. split_and!; (done || lia).
Qed.

#[export] Instance parse_icmp6hdr_lib : LibParser parse_icmp6hdr 8.
Proof. apply header_parser_lib, parse_icmp6hdr_parser. Qed.
#[export] Instance parse_icmphdr_lib : LibParser parse_icmphdr 8.
Proof. apply header_parser_lib, parse_icmphdr_parser. Qed.
#[export] Instance parse_icmphdr_common_lib : LibParser parse_icmphdr_common 4.
Proof. apply header_parser_lib, parse_icmphdr_common_parser. Qed.
#[export] Instance parse_udphdr_lib : LibParser parse_udphdr 8.
Proof. apply header_parser_lib, parse_udphdr_parser. Qed.

#[export] Instance parse_iphdr_lib : LibParser parse_iphdr 20.
Proof.
  intros md nh Hok Hnh. unfold parse_iphdr, sizeof_iphdr.
  destruct (Z.ltb_spec (xd_data_end md) (nh + 20)); [by eexists _, _, _; split; [done|]; split; [lia|intros; lia]|].
  destruct (ld8_in md nh) as [b0 ->]; [lia|]. cbn [mbind option_bind]. pose proof (land15 b0).
  zcase; [by eexists _, _, _; split; [done|]; split; [lia|intros; lia]|].
  destruct (ld8_in md (nh + 9)) as [b9 E9]; [lia|]. rewrite E9.
  apply ld8_byte in E9; [|done]. unfold byte_ok in E9. eexists _, _, _. split; [done|]. split; [lia|].
  intros _. split_and!; (done || lia).
Qed.

#[export] Instance parse_tcphdr_lib : LibParser parse_tcphdr 20.
Proof.
  intros md nh Hok Hnh. unfold parse_tcphdr, sizeof_tcphdr.
  destruct (Z.ltb_spec (xd_data_end md) (nh + 20)); [by eexists _, _, _; split; [done|]; split; [lia|intros; lia]|].
  destruct (ld8_in md (nh + 12)) as [b ->]; [lia|]. cbn [mbind option_bind].
  pose proof (land15 (Z.shiftr b 4)).
  zcase; [by eexists _, _, _; split; [done|]; split; [lia|intros; lia]|].
  eexists _, _, _. split; [done|]. split; [lia|]. intros _. split_and!; (done || lia).
Qed.

#[export] Instance parse_ethhdr_lib : LibParser parse_ethhdr 14.
Proof.
  intros md nh Hok Hnh. unfold parse_ethhdr, sizeof_ethhdr.
  destruct (Z.ltb_spec (xd_data_end md) (nh + 14)); [by eexists _, _, _; split; [done|]; split; [lia|intros; lia]|].
  destruct (ld16_in md (nh + 12) Hok) as (a & b & _ & _ & Ha & Hb & ->); [lia..|].
  cbn [mbind option_bind]. unfold byte_ok in *.
  set (I (s : Z * Z) := nh + 14 <= s.1 <= xd_data_end md ∧ 0 <= s.2 < 2 ^ 16).
  destruct (for_loop_inv_break (λ _, I) I (vlan_body md (xd_data_end md)) 0 VLAN_MAX_DEPTH (nh + 14, a + b * 2 ^ 8))
    as ([vlh proto] & -> & H'); [done| |unfold I; cbn; lia|].
  - intros i [vlh proto] Hi [Hv Hp]. cbn in Hv, Hp. unfold vlan_body, sizeof_vlan_hdr.
    destruct (negb _); [by eexists|]. destruct (Z.ltb_spec (xd_data_end md) (vlh + 4)); [by eexists|].
    destruct (ld16_in md (vlh + 2) Hok) as (c & d & _ & _ & Hc & Hd & ->); [lia..|]. unfold byte_ok in *.
    eexists. split; [done|]. unfold I. cbn. lia.
  - assert (I (vlh, proto)) as [Hv Hp] by tauto. cbn in Hv, Hp. cbn [mbind option_bind].
    eexists _, _, _. split; [done|]. split; [lia|]. intros _. split_and!; (done || lia).
Qed.

(** ** Extension headers *)

Lemma ext_loop_ok md nh ty :
  md_ok md → xd_data md <= nh → 0 <= ty < 2 ^ 8 →
  ∃ r pos, skip_ip6hdrext md nh (xd_data_end md) ty = Some (r, pos)
    ∧ -1 <= r < 2 ^ 8 ∧ nh <= pos ∧ (0 <= r → pos + 2 <= xd_data_end md).
Proof.
  intros Hok Hnh Hty. unfold skip_ip6hdrext.
  set (I (s : Z * Z * option Z) := nh <= s.1.1 ∧ 0 <= s.1.2 < 2 ^ 8 ∧ s.2 = None).
  set (Q (s : Z * Z * option Z) := nh <= s.1.1 ∧ ∃ r, s.2 = Some r ∧ -1 <= r < 2 ^ 8
                                   ∧ (0 <= r → s.1.1 + 2 <= xd_data_end md)).
  destruct (for_loop_inv_break (λ _, I) Q (ext_body md (xd_data_end md)) 0 IPV6_EXT_MAX_CHAIN (nh, ty, None))
    as ([[pos t] r] & -> & H); [done| |unfold I; cbn; split_and!; (done || lia)|].
  - intros i [[pos t] r] Hi (Hp & Ht & _). cbn in Hp, Ht. unfold ext_body, sizeof_ipv6_opt_hdr.
    destruct (Z.ltb_spec (xd_data_end md) (pos + 2)).
    { eexists. split; [done|]. split; [done|]. exists (-1). cbn. split_and!; (done || lia). }
    destruct (ld8_in md (pos + 1)) as [len El]; [lia|]. destruct (ld8_in md pos) as [nx En]; [lia|].
    rewrite El, En. cbn [mbind option_bind].
    apply ld8_byte in El; [|done]. apply ld8_byte in En; [|done]. unfold byte_ok in *.
    repeat match goal with |- ∃ c, (if ?b then _ else _) = _ ∧ _ => destruct b end;
      (eexists; split; [done|]); unfold I, Q; cbn; try (split_and!; (done || lia)).
    split; [done|]. exists t. split_and!; (done || lia).
  - cbn [mbind option_bind]. eexists _, _. split; [done|]. destruct H as [(Hp & _ & H)|(Hp & r' & H & Hr & Hin)];
      cbn in *; rewrite H; cbn; split_and!; (done || lia).
Qed.

#[export] Instance parse_ip6hdr_lib : LibParser parse_ip6hdr 40.
Proof.
  intros md nh Hok Hnh. unfold parse_ip6hdr, sizeof_ipv6hdr.
  destruct (Z.ltb_spec (xd_data_end md) (nh + 40)); [by eexists _, _, _; split; [done|]; split; [lia|intros; lia]|].
  destruct (ld8_in md (nh + 6)) as [b E]; [lia|]. rewrite E. cbn [mbind option_bind].
  apply ld8_byte in E; [|done]. unfold byte_ok in E.
  destruct (ext_loop_ok md (nh + 40) b Hok) as (r & pos & -> & Hr & Hp & Hin); [lia|lia|]. cbn [mbind option_bind].
  eexists _, _, _. split; [done|]. split; [lia|]. intros H0. specialize (Hin H0). split_and!; (done || lia).
Qed.

(** A chain of extension headers: the type of each, the length byte, and the
    bytes behind the first two. *)
Record ext_header : Type := mkExt { ext_type : Z; ext_len : Z; ext_body_bytes : list Z }.

Definition generic_ext (ty : Z) : bool :=
  (ty =? IPPROTO_HOPOPTS) || (ty =? IPPROTO_DSTOPTS) || (ty =? IPPROTO_ROUTING) || (ty =? IPPROTO_MH).

(** RFC 8200 and RFC 4302: the size of a header in bytes. *)
Definition ext_size (e : ext_header) : Z :=
  if generic_ext (ext_type e) then 8 * (ext_len e + 1)
  else if ext_type e =? IPPROTO_AH then 4 * (ext_len e + 2) else 8.

Definition is_ext (ty : Z) : bool := generic_ext ty || (ty =? IPPROTO_AH) || (ty =? IPPROTO_FRAGMENT).

Definition ext_ok (e : ext_header) : Prop :=
  is_ext (ext_type e) = true ∧ byte_ok (ext_len e) ∧ bytes_ok (ext_body_bytes e)
  ∧ 2 + zlen (ext_body_bytes e) = ext_size e.

Definition first_type (exts : list ext_header) (final : Z) : Z :=
  match exts with [] => final | e :: _ => ext_type e end.

Fixpoint chain_bytes (exts : list ext_header) (final : Z) : list Z :=
  match exts with
  | [] => []
  | e :: exts' => first_type exts' final :: ext_len e :: ext_body_bytes e ++ chain_bytes exts' final
  end.

Definition chain_size (exts : list ext_header) : Z := sum_by ext_size exts.

Lemma chain_bytes_length exts final :
  Forall ext_ok exts → zlen (chain_bytes exts final) = chain_size exts.
Proof.
  unfold chain_size, sum_by. induction 1 as [|e exts (_ & _ & _ & He) _ IH]; [done|].
  cbn [chain_bytes foldr length]. rewrite length_app. lia.
Qed.

(** One iteration on a header of the chain. *)
Lemma ext_body_step md pre nx e post i r :
  xd_bytes md = pre ++ nx :: ext_len e :: ext_body_bytes e ++ post → ext_ok e →
  let p := xd_data md + zlen pre in
  ext_body md (xd_data_end md) i (p, ext_type e, r) = Some (Next (p + ext_size e, nx, None)).
Proof.
  intros Hb (Ht & Hl & _ & Hs) p. unfold ext_body, sizeof_ipv6_opt_hdr.
  assert (xd_data_end md = p + 2 + zlen (ext_body_bytes e) + zlen post) as Hend.
  { unfold xd_data_end, p. rewrite Hb, !length_app. cbn [length]. rewrite length_app. lia. }
  rewrite (proj2 (Z.ltb_ge _ _)) by lia.
  assert (ld8 md p = Some nx) as ->.
  { unfold ld8, p. rewrite Hb, aget_app_r by lia. replace (_ - _ - _) with 0 by lia. done. }
  assert (ld8 md (p + 1) = Some (ext_len e)) as ->.
  { unfold ld8, p. rewrite Hb, aget_app_r by lia. replace (_ - _ - _) with 1 by lia. done. }
  cbn [mbind option_bind]. unfold is_ext in Ht. unfold ext_size. unfold generic_ext in *.
  destruct ((ext_type e =? IPPROTO_HOPOPTS) || _ || _ || _); [do 4 f_equal; lia|].
  destruct (ext_type e =? IPPROTO_AH); [do 4 f_equal; lia|].
  destruct (ext_type e =? IPPROTO_FRAGMENT); [done|discriminate Ht].
Qed.

Lemma ext_body_end md p final i r :
  is_ext final = false → p + 2 <= xd_data_end md →
  ext_body md (xd_data_end md) i (p, final, r) = Some (Break (p, final, Some final)).
Proof.
  intros Hf Hp. unfold ext_body, sizeof_ipv6_opt_hdr. rewrite (proj2 (Z.ltb_ge _ _)) by lia.
  unfold is_ext, generic_ext in Hf. apply orb_false_iff in Hf as [Hf Hf3]. apply orb_false_iff in Hf as [Hf1 Hf2].
  by rewrite Hf1, Hf2, Hf3.
Qed.

Lemma ext_chain_run md exts : ∀ pre final post n i r,
  xd_bytes md = pre ++ chain_bytes exts final ++ post → Forall ext_ok exts →
  ∃ r', for_up (length exts + n) i (ext_body md (xd_data_end md)) (xd_data md + zlen pre, first_type exts final, r)
    = for_up n (i + zlen exts) (ext_body md (xd_data_end md))
        (xd_data md + zlen pre + chain_size exts, final, r')
  ∧ (r' = if decide (exts = []) then r else None).
Proof.
  induction exts as [|e exts IH]; intros pre final post n i r Hb He.
  - exists r. cbn. unfold chain_size, sum_by. cbn. rewrite !Z.add_0_r. done.
  - apply Forall_cons_1 in He as [He Hes]. cbn [length Nat.add for_up chain_bytes] in *.
    cbn [first_type]. rewrite (ext_body_step md pre (first_type exts final) e (chain_bytes exts final ++ post));
      [|rewrite Hb; cbn; by rewrite <- !app_assoc|done]. cbn [mbind option_bind].
    destruct (IH (pre ++ first_type exts final :: ext_len e :: ext_body_bytes e) final post n (i + 1) None)
      as (r' & E & Hr'); [rewrite Hb, <- app_assoc; cbn; by rewrite <- app_assoc|done|].
    destruct He as (_ & _ & _ & Hs). rewrite length_app in E. cbn [length] in E.
    replace (xd_data md + Z.of_nat (length pre + S (S (length (ext_body_bytes e)))))
      with (xd_data md + zlen pre + ext_size e) in E by lia.
    exists None. split; [|by rewrite decide_False by done]. rewrite E. unfold chain_size, sum_by. cbn [foldr].
    f_equal; [lia|]. destruct (decide (exts = [])); subst r'; do 2 f_equal; lia.
Qed.

(** Chains of IPv6 extension headers.  With at most five of them, and two
    more bytes behind, [skip_ip6hdrext] returns the protocol at the end of the
    chain and moves the cursor behind it; with six or more it fails.  The
    comment at [IPV6_EXT_MAX_CHAIN] promises six: the sixth iteration of the
    loop is the one that recognises a header that is not an extension. *)
Theorem skip_ip6hdrext_chain md pre exts final post :
  xd_bytes md = pre ++ chain_bytes exts final ++ post → Forall ext_ok exts →
  is_ext final = false → 2 <= zlen post →
  let run := skip_ip6hdrext md (xd_data md + zlen pre) (xd_data_end md) (first_type exts final) in
  ((length exts <= 5)%nat → run = Some (final, xd_data md + zlen pre + chain_size exts))
  ∧ ((6 <= length exts)%nat → ∃ pos, run = Some (-1, pos)).
Proof.
  intros Hb He Hf Hp run.
  assert (xd_data_end md = xd_data md + zlen pre + chain_size exts + zlen post) as Hend
    by (unfold xd_data_end; rewrite Hb, !length_app, <- (chain_bytes_length exts final He); lia).
  split; intros Hl; unfold run, skip_ip6hdrext, for_loop; change (Z.to_nat (IPV6_EXT_MAX_CHAIN - 0)) with 6%nat.
  - replace 6%nat with (length exts + S (5 - length exts))%nat by lia.
    destruct (ext_chain_run md exts pre final post (S (5 - length exts)) 0 None Hb He) as (r' & -> & _).
    cbn [for_up]. by rewrite ext_body_end by (done || lia).
  - rewrite <- (take_drop 6 exts) in Hb, He |- *. set (exts1 := take 6 exts) in *. set (exts2 := drop 6 exts) in *.
    apply Forall_app in He as [He1 He2]. assert (length exts1 = 6%nat) as Hl1 by (unfold exts1; rewrite length_take; lia).
    assert (chain_bytes (exts1 ++ exts2) final = chain_bytes exts1 (first_type exts2 final) ++ chain_bytes exts2 final) as Hc.
    { clear. induction exts1 as [|e l IH]; [done|]. cbn [chain_bytes app]. rewrite IH. cbn.
      rewrite <- app_assoc. by destruct l. }
    rewrite Hc, <- !app_assoc in Hb.
    destruct (ext_chain_run md exts1 pre (first_type exts2 final) (chain_bytes exts2 final ++ post) 0 0 None Hb He1)
      as (r' & E & Hr). rewrite Nat.add_0_r, Hl1 in E.
    assert (first_type (exts1 ++ exts2) final = first_type exts1 (first_type exts2 final)) as ->
      by (destruct exts1; [discriminate Hl1|done]).
    rewrite E. cbn [for_up mbind option_bind]. rewrite decide_False in Hr by (intros ->; discriminate Hl1).
    subst r'. by eexists.
Qed.

(** Hop-by-hop options and a fragment header in front of TCP. *)
Definition ext_md : xdp_md := mkMd 0 ([44; 0; 1; 4; 0; 0; 0; 0] ++ [6; 0; 0; 0; 0; 0; 0; 1] ++ [0; 80]).

Lemma skip_ip6hdrext_chain_witness : skip_ip6hdrext ext_md 0 (xd_data_end ext_md) 0 = Some (6, 16).
Proof.
  apply (skip_ip6hdrext_chain ext_md [] [mkExt 0 0 [1; 4; 0; 0; 0; 0]; mkExt 44 0 [0; 0; 0; 0; 0; 1]] 6 [0; 80]);
    [reflexivity| |reflexivity|cbn; lia|cbn; lia].
  repeat (apply List.Forall_cons; [split_and!; [reflexivity|unfold byte_ok; cbn; lia|by apply bytes_ok_dec|reflexivity]|]).
  apply List.Forall_nil.
Defined.
