(* ===== verification/CString.v ===== *)
(** * C strings and the functions of [<string.h>] and [<stdio.h>] the tools use

    A C string is the list of its bytes before the terminating NUL; a character
    array is the list of its bytes. *)

From Stdlib Require Export Strings.String Strings.Ascii.
From S2P Require Import Prelude.
Export Corelib.Init.Datatypes.

(** The bytes of a literal. *)
Definition cstr (s : string) : list Z := map (λ a, Z.of_N (N_of_ascii a)) (list_ascii_of_string s).

Definition cstr_ok (s : list Z) : Prop := Forall (λ b, 0 < b < 256) s.

(** [strncpy(dest, src, n)] into an array of [n] bytes: the first [n] bytes of
    the string, padded with NULs; without a NUL when the string is too long. *)
Definition strncpy (src : list Z) (n : nat) : list Z :=
  take n src ++ replicate (n - length src) 0.

(** The string stored in an array: the bytes before the first NUL, [None] when
    there is none (a reader runs past the end). *)
Fixpoint read_cstr (a : list Z) : option (list Z) :=
  match a with
  | [] => None
  | b :: a' => if b =? 0 then Some [] else s ← read_cstr a'; Some (b :: s)
  end.

(** [snprintf(&buf[pos], size, ...)] where the formatted text is [s]: the array
    after the call, [None] when it writes outside; the result is [length s]. *)
Definition snprintf (buf : list Z) (pos size : Z) (s : list Z) : option (list Z) :=
  if size <=? 0 then if size =? 0 then Some buf else aset_list buf pos (s ++ [0])
  else aset_list buf pos (take (Z.to_nat (size - 1)) s ++ [0]).

(** [printf("%-ws", s)]. *)
Definition pad_right (w : nat) (s : list Z) : list Z := s ++ replicate (w - length s) 32.

(** [atoi]: optional white space and sign, then decimal digits. *)
Definition is_digit (b : Z) : bool := (48 <=? b) && (b <=? 57).
Definition is_space (b : Z) : bool := ((9 <=? b) && (b <=? 13)) || (b =? 32).

Fixpoint digits (acc : Z) (s : list Z) : Z :=
  match s with
  | b :: s' => if is_digit b then digits (acc * 10 + (b - 48)) s' else acc
  | [] => acc
  end.

Fixpoint atoi (s : list Z) : Z :=
  match s with
  | b :: s' =>
      if is_space b then atoi s'
      else if b =? 45 then - digits 0 s'
      else if b =? 43 then digits 0 s'
      else digits 0 s
  | [] => 0
  end.

(** ** Lemmas *)

Lemma strncpy_length s n : length (strncpy s n) = n.
Proof. unfold strncpy. rewrite length_app, length_take, length_replicate. lia. Qed.

Lemma read_cstr_app s a : Forall (λ b, b ≠ 0) s → read_cstr (s ++ 0 :: a) = Some s.
Proof.
  induction 1 as [|b s Hb _ IH]; [done|]. cbn. by rewrite (proj2 (Z.eqb_neq b 0)), IH.
Qed.

Lemma cstr_ok_nonzero s : cstr_ok s → Forall (λ b, b ≠ 0) s.
Proof. intros H. refine (List.Forall_impl _ _ H). cbv beta. lia. Qed.

Lemma read_cstr_inv a s : read_cstr a = Some s → Forall (λ b, b ≠ 0) s ∧ (length s < length a)%nat.
Proof.
  revert s. induction a as [|b a IH]; intros s H; [done|]. cbn in H.
  destruct (Z.eqb_spec b 0); [injection H as <-; cbn; split; [constructor|lia]|].
  destruct (read_cstr a) as [s'|]; [|done]. injection H as <-. destruct (IH s' eq_refl). cbn.
  split; [by constructor|lia].
Qed.

Lemma read_cstr_none s : cstr_ok s → read_cstr s = None.
Proof.
  induction s as [|b s IH]; intros H; [done|]. apply Forall_cons_1 in H as [Hb H]. cbn.
  rewrite (proj2 (Z.eqb_neq b 0)) by lia. by rewrite IH.
Qed.

(** [strncpy] leaves a string exactly when the source is shorter than the array. *)
Lemma read_strncpy s n :
  cstr_ok s → read_cstr (strncpy s n) = if decide (length s < n)%nat then Some s else None.
Proof.
  intros H. unfold strncpy. destruct (decide (length s < n)%nat) as [Hl|Hl].
  - rewrite take_ge by lia. replace (n - length s)%nat with (S (n - length s - 1)) by lia.
    cbn [replicate]. by apply read_cstr_app, cstr_ok_nonzero.
  - replace (n - length s)%nat with 0%nat by lia. cbn [replicate]. rewrite app_nil_r.
    apply read_cstr_none. by apply Forall_take.
Qed.
