(* ===== verification/UserParams.v ===== *)
(** * Command-line parameters ([common/common_params.c], the option tables)

    [getopt_long] and [if_nametoindex] are library functions: the results the
    former returns one after the other (the option and [optarg], [None] for a
    null pointer) are the list [events], the latter is a parameter.  A read
    through a null pointer or outside an array is a fault. *)

From S2P Require Import Prelude CString.

(** ** Data *)

(** [struct option], the fields the code uses. *)
Record option_entry : Type := mkOption { opt_name : option (list Z); opt_has_arg : Z; opt_val : Z }.

Record option_wrapper : Type := mkWrapper {
  w_option : option_entry; w_help : option (list Z); w_metavar : option (list Z); w_required : bool;
}.

Definition no_argument : Z := 0.
Definition required_argument : Z := 1.
Definition BUFSIZE : Z := 30.
Definition IF_NAMESIZE : nat := 16.
Definition EXIT_OK : Z := 0.
Definition EXIT_FAIL : Z := 1.
Definition EXIT_FAIL_OPTION : Z := 2.
Definition EXIT_FAIL_BPF : Z := 40.

Definition XDP_MODE_UNSPEC : Z := 0.
Definition XDP_MODE_NATIVE : Z := 1.
Definition XDP_MODE_SKB : Z := 2.
Definition XDP_MODE_HW : Z := 3.
Definition XDP_COPY : Z := 2.
Definition XDP_ZEROCOPY : Z := 4.

(** [struct config]; the name pointers are NULL or point to their buffers. *)
Record config : Type := mkConfig {
  attach_mode : Z; xdp_flags : Z; ifindex : Z; ifname : bool; ifname_buf : list Z;
  redirect_ifindex : Z; redirect_ifname : bool; redirect_ifname_buf : list Z;
  do_unload : bool; prog_id : Z; reuse_maps : bool;
  pin_dir : list Z; filename : list Z; progname : list Z; src_mac : list Z; dest_mac : list Z;
  xsk_bind_flags : Z; xsk_if_queue : Z; xsk_poll_mode : bool; unload_all : bool;
}.

(** The parsed configuration and the global [verbose]. *)
Record params : Type := mkParams { p_cfg : config; p_verbose : bool }.

(** ** Help texts *)

Section print.
Variable long_options : list option_wrapper.
Variable buf0 : list Z.      (* the indeterminate [buf[BUFSIZE]] *)

(** One iteration of the loop of [_print_options], for the lines printed. *)
Definition print_option (required : bool) (s : Z * list (list Z)) : option (ctl (Z * list (list Z))) :=
  let '(i, out) := s in
  w ← aget long_options i;
  match opt_name (w_option w) with
  | None => Some (Break s)
  | Some name =>
      if negb (Bool.eqb (w_required w) required) then Some (Next (i + 1, out)) else
      let lead := if 64 <? opt_val (w_option w) then cstr " -" ++ [u8 (opt_val (w_option w))] ++ cstr ","
                  else cstr "    " in
      let text := cstr " --" ++ name in
      buf ← snprintf buf0 0 BUFSIZE text;
      let pos := zlen text in
      buf ← match w_metavar w with
            | None => Some buf
            | Some m => snprintf buf pos (BUFSIZE - pos) (cstr " " ++ m)
            end;
      shown ← read_cstr buf;
      help ← w_help w;
      Some (Next (i + 1, out ++ [lead ++ pad_right 22 shown ++ cstr "  " ++ help]))
  end.

Definition _print_options (required : bool) : option (list (list Z)) :=
  s ← while_loop (S (length long_options)) (print_option required) (0, []); Some s.2.

Definition usage (prog_name doc : list Z) (full : bool) : option (list (list Z)) :=
  let head := cstr "Usage: " ++ prog_name ++ cstr " [options]" in
  if negb full then Some [head; cstr "Use --help (or -h) to see full option list."] else
  req ← _print_options true;
  oth ← _print_options false;
  Some ([head; []; cstr "DOCUMENTATION:"; cstr " " ++ doc; cstr "Required options:"] ++ req
        ++ [[]; cstr "Other options:"] ++ oth ++ [[]]).

(** [for (i = 0; wrapper[i].option.name != 0; i++) {}]. *)
Definition count_body (i : Z) : option (ctl Z) :=
  w ← aget long_options i;
  match opt_name (w_option w) with None => Some (Break i) | Some _ => Some (Next (i + 1)) end.

(** The result and, on success, the array [malloc] returned ([alloc] tells
    whether it returned one). *)
Definition option_wrappers_to_options (alloc : bool) : option (Z * list option_entry) :=
  num ← while_loop (S (length long_options)) count_body 0;
  if negb alloc then Some (-1, []) else
  ws ← aget_list long_options 0 (Z.to_nat num);
  Some (0, map w_option ws).
End print.

(** ** Parsing *)

(** What a case of the switch does: go on with the loop, or exit after
    [usage(argv[0], doc, options_wrapper, full_help)]. *)
Inductive parsed : Type :=
| Go (p : params)
| Exit (full_help : bool).

Definition ch (c : string) : Z := default 0 (head (cstr c)).

Definition set_flags (c : config) (flags : Z) : config :=
  mkConfig (attach_mode c) (xdp_flags c) (ifindex c) (ifname c) (ifname_buf c) (redirect_ifindex c) (redirect_ifname c)
    (redirect_ifname_buf c) (do_unload c) (prog_id c) (reuse_maps c) (pin_dir c) (filename c) (progname c) (src_mac c)
    (dest_mac c) flags (xsk_if_queue c) (xsk_poll_mode c) (unload_all c).

Definition set_mode (c : config) (mode : Z) : config :=
  mkConfig mode (xdp_flags c) (ifindex c) (ifname c) (ifname_buf c) (redirect_ifindex c) (redirect_ifname c)
    (redirect_ifname_buf c) (do_unload c) (prog_id c) (reuse_maps c) (pin_dir c) (filename c) (progname c) (src_mac c)
    (dest_mac c) (xsk_bind_flags c) (xsk_if_queue c) (xsk_poll_mode c) (unload_all c).

Definition set_names (c : config) (dir file prog src dst : list Z) : config :=
  mkConfig (attach_mode c) (xdp_flags c) (ifindex c) (ifname c) (ifname_buf c) (redirect_ifindex c) (redirect_ifname c)
    (redirect_ifname_buf c) (do_unload c) (prog_id c) (reuse_maps c) dir file prog src dst (xsk_bind_flags c)
    (xsk_if_queue c) (xsk_poll_mode c) (unload_all c).

Definition set_switches (c : config) (unload : bool) (id : Z) (reuse : bool) (queue : Z) (poll all : bool) : config :=
  mkConfig (attach_mode c) (xdp_flags c) (ifindex c) (ifname c) (ifname_buf c) (redirect_ifindex c) (redirect_ifname c)
    (redirect_ifname_buf c) unload id reuse (pin_dir c) (filename c) (progname c) (src_mac c) (dest_mac c)
    (xsk_bind_flags c) queue poll all.

Definition set_dev (c : config) (buf : list Z) (index : Z) : config :=
  mkConfig (attach_mode c) (xdp_flags c) index true buf (redirect_ifindex c) (redirect_ifname c) (redirect_ifname_buf c)
    (do_unload c) (prog_id c) (reuse_maps c) (pin_dir c) (filename c) (progname c) (src_mac c) (dest_mac c)
    (xsk_bind_flags c) (xsk_if_queue c) (xsk_poll_mode c) (unload_all c).

Definition set_redirect (c : config) (buf : list Z) (index : Z) : config :=
  mkConfig (attach_mode c) (xdp_flags c) (ifindex c) (ifname c) (ifname_buf c) index true buf
    (do_unload c) (prog_id c) (reuse_maps c) (pin_dir c) (filename c) (progname c) (src_mac c) (dest_mac c)
    (xsk_bind_flags c) (xsk_if_queue c) (xsk_poll_mode c) (unload_all c).

(** [xsk_bind_flags] is a [__u16]. *)
Definition clear_set (flags clear set : Z) : Z := u16 (Z.lor (Z.land flags (Z.lnot clear)) set).

Section parse.
Variable if_nametoindex : list Z → Z.
Variable options_wrapper : list option_wrapper.
Variable buf0 : list Z.

(** The two device cases: the index is read from the copied name. *)
Definition dev_name (optarg : list Z) : option (option (list Z * Z)) :=
  if (IF_NAMESIZE <=? length optarg)%nat then Some None else
  let buf := strncpy optarg IF_NAMESIZE in
  name ← read_cstr buf;
  let index := if_nametoindex name in
  Some (if index =? 0 then None else Some (buf, index)).

(** The body of the switch. *)
Definition parse_option (opt : Z) (optarg : option (list Z)) (p : params) : option parsed :=
  let c := p_cfg p in
  let go c := Some (Go (mkParams c (p_verbose p))) in
  if opt =? ch "d" then
    arg ← optarg; r ← dev_name arg;
    match r with None => Some (Exit false) | Some (buf, i) => go (set_dev c buf i) end
  else if opt =? ch "r" then
    arg ← optarg; r ← dev_name arg;
    match r with None => Some (Exit false) | Some (buf, i) => go (set_redirect c buf i) end
  else if opt =? ch "A" then go (set_mode c XDP_MODE_UNSPEC)
  else if opt =? ch "S" then
    go (set_flags (set_mode c XDP_MODE_SKB) (clear_set (xsk_bind_flags c) XDP_ZEROCOPY XDP_COPY))
  else if opt =? ch "N" then go (set_mode c XDP_MODE_NATIVE)
  else if opt =? 3 then go (set_mode c XDP_MODE_HW)
  else if opt =? ch "M" then
    go (set_switches c (do_unload c) (prog_id c) true (xsk_if_queue c) (xsk_poll_mode c) (unload_all c))
  else if opt =? ch "U" then
    arg ← optarg;
    go (set_switches c true (u32 (atoi arg)) (reuse_maps c) (xsk_if_queue c) (xsk_poll_mode c) (unload_all c))
  else if opt =? ch "p" then
    go (set_switches c (do_unload c) (prog_id c) (reuse_maps c) (xsk_if_queue c) true (unload_all c))
  else if opt =? ch "q" then Some (Go (mkParams c false))
  else if opt =? ch "Q" then
    arg ← optarg;
    go (set_switches c (do_unload c) (prog_id c) (reuse_maps c) (s32 (atoi arg)) (xsk_poll_mode c) (unload_all c))
  else if opt =? 1 then
    arg ← optarg; go (set_names c (pin_dir c) (strncpy arg 512) (progname c) (src_mac c) (dest_mac c))
  else if opt =? 2 then
    arg ← optarg; go (set_names c (pin_dir c) (filename c) (strncpy arg 32) (src_mac c) (dest_mac c))
  else if opt =? ch "L" then
    arg ← optarg; go (set_names c (pin_dir c) (filename c) (progname c) (strncpy arg 18) (dest_mac c))
  else if opt =? ch "R" then
    arg ← optarg; go (set_names c (pin_dir c) (filename c) (progname c) (src_mac c) (strncpy arg 18))
  else if opt =? ch "c" then go (set_flags c (clear_set (xsk_bind_flags c) XDP_ZEROCOPY XDP_COPY))
  else if opt =? ch "z" then go (set_flags c (clear_set (xsk_bind_flags c) XDP_COPY XDP_ZEROCOPY))
  else if opt =? 4 then
    go (set_switches c (do_unload c) (prog_id c) (reuse_maps c) (xsk_if_queue c) (xsk_poll_mode c) true)
  else if opt =? ch "h" then Some (Exit true)
  else Some (Exit false).

(** The call returns the parameters, or the program exits with a code after
    printing lines of help. *)
Inductive parse_result : Type :=
| Parsed (p : params)
| Exited (code : Z) (lines : list (list Z)).

Fixpoint parse_events (argv0 doc : list Z) (events : list (Z * option (list Z))) (p : params)
    : option parse_result :=
  match events with
  | [] => Some (Parsed p)
  | (opt, optarg) :: events' =>
      r ← parse_option opt optarg p;
      match r with
      | Go p => parse_events argv0 doc events' p
      | Exit full_help =>
          lines ← usage options_wrapper buf0 argv0 doc full_help;
          Some (Exited EXIT_FAIL_OPTION lines)
      end
  end.

Definition parse_cmdline_args (alloc : bool) (argv0 doc : list Z) (events : list (Z * option (list Z)))
    (p : params) : option parse_result :=
  '(ret, _) ← option_wrappers_to_options options_wrapper alloc;
  if negb (ret =? 0) then Some (Exited EXIT_FAIL_OPTION []) else
  parse_events argv0 doc events p.
End parse.

(** ** The tables *)

Definition entry (name : string) (has_arg : Z) (val : Z) (help : string) (metavar : option string)
    (required : bool) : option_wrapper :=
  mkWrapper (mkOption (Some (cstr name)) has_arg val) (Some (cstr help)) (cstr <$> metavar) required.

Definition last_entry : option_wrapper := mkWrapper (mkOption None 0 0) None None false.

(** [basic-solutions/xdp_loader.c]. *)
Definition loader_options : list option_wrapper :=
  [ entry "help" no_argument (ch "h") "Show help" None false;
    entry "dev" required_argument (ch "d") "Operate on device <ifname>" (Some "<ifname>"%string) true;
    entry "skb-mode" no_argument (ch "S") "Install XDP program in SKB (AKA generic) mode" None false;
    entry "native-mode" no_argument (ch "N") "Install XDP program in native mode" None false;
    entry "auto-mode" no_argument (ch "A") "Auto-detect SKB or native mode" None false;
    entry "force" no_argument (ch "F") "Force install, replacing existing program on interface" None false;
    entry "unload" no_argument (ch "U") "Unload XDP program instead of loading" None false;
    entry "reuse-maps" no_argument (ch "M") "Reuse pinned maps" None false;
    entry "quiet" no_argument (ch "q") "Quiet mode (no output)" None false;
    entry "filename" required_argument 1 "Load program from <file>" (Some "<file>"%string) false;
    entry "progname" required_argument 2 "Load program from function <name> in the ELF file"
      (Some "<name>"%string) false;
    last_entry ].

(** [basic-solutions/xdp_stats.c]. *)
Definition stats_options : list option_wrapper :=
  [ entry "help" no_argument (ch "h") "Show help" None false;
    entry "dev" required_argument (ch "d") "Operate on device <ifname>" (Some "<ifname>"%string) true;
    entry "quiet" no_argument (ch "q") "Quiet mode (no output)" None false;
    last_entry ].
