(* ===== verification/ParamsCorrect.v ===== *)
(** * Correctness of the parameter parsing

    When the parsing returns and with which configuration; the help texts; the
    array handed to [getopt_long]; two options the loader announces and does not
    support. *)

From S2P Require Import Prelude CString UserParams.

(** ** Option tables *)

(** A table of named entries with help texts, closed by an entry without a
    name; a name that is printed with a metavariable leaves room in [buf]. *)
Definition entry_ok (w : option_wrapper) : Prop :=
  ∃ name help, opt_name (w_option w) = Some name ∧ w_help w = Some help
    ∧ cstr_ok name ∧ (w_metavar w ≠ None → (length name <= 26)%nat).

Definition table_ok (entries : list option_wrapper) (last : option_wrapper) (rest : list option_wrapper)
    (wrappers : list option_wrapper) : Prop :=
  wrappers = entries ++ last :: rest ∧ Forall entry_ok entries ∧ opt_name (w_option last) = None.

Lemma read_cstr_some a : In 0 a → ∃ s, read_cstr a = Some s.
Proof.
  induction a as [|b a IH]; intros H; [done|]. cbn. destruct (Z.eqb_spec b 0); [by eexists|].
  destruct H as [->|H]; [done|]. destruct (IH H) as [s ->]. by eexists.
Qed.

Lemma aset_list_ok {A} (l : list A) off bs :
  0 <= off → off + zlen bs <= zlen l →
  ∃ l', aset_list l off bs = Some l' ∧ length l' = length l ∧ (∀ x, In x bs → In x l').
Proof.
  intros H0 Hl. rewrite aset_list_eq by done. eexists. split; [done|].
  split; [rewrite !length_app, length_take, length_drop; lia|].
  intros x Hx. rewrite !in_app_iff. auto.
Qed.

(** The texts that fit are printed without leaving [buf]. *)
Lemma snprintf_ok buf pos size s :
  length buf = 30%nat → 0 <= pos → 0 < size → pos + size <= 30 →
  ∃ buf', snprintf buf pos size s = Some buf' ∧ length buf' = 30%nat ∧ In 0 buf'.
Proof.
  intros Hb Hp Hs Hle. unfold snprintf. rewrite (proj2 (Z.leb_gt size 0)) by lia.
  destruct (aset_list_ok buf pos (take (Z.to_nat (size - 1)) s ++ [0])) as (b & -> & Hl & Hin);
    [done|rewrite length_app, length_take; cbn [length]; lia|].
  exists b. split; [done|]. split; [congruence|]. apply Hin. rewrite in_app_iff. right. by left.
Qed.

Lemma print_option_ok wrappers buf0 required i out w :
  length buf0 = 30%nat → aget wrappers i = Some w → entry_ok w →
  ∃ out', print_option wrappers buf0 required (i, out) = Some (Next (i + 1, out')).
Proof.
  intros Hb Hw (name & help & Hn & Hh & Hc & Hm). unfold print_option. rewrite Hw. cbn [mbind option_bind].
  rewrite Hn. destruct (negb _); [by eexists|].
  set (text := cstr " --" ++ name). assert (zlen text = 3 + zlen name) as Ht by (unfold text; rewrite length_app; cbn; lia).
  destruct (snprintf_ok buf0 0 BUFSIZE text) as (b1 & -> & Hl1 & Hz1); [done|lia|done|done|]. cbn [mbind option_bind].
  assert (∃ b2, match w_metavar w with None => Some b1
    | Some m => snprintf b1 (zlen text) (BUFSIZE - zlen text) (cstr " " ++ m) end = Some b2 ∧ In 0 b2) as (b2 & -> & Hz2).
  { destruct (w_metavar w) as [m|]; [|by exists b1]. specialize (Hm ltac:(done)). unfold BUFSIZE.
    destruct (snprintf_ok b1 (zlen text) (30 - zlen text) (cstr " " ++ m)) as (b2 & -> & _ & Hz); [done|lia|lia|lia|].
    by exists b2. }
  cbn [mbind option_bind]. destruct (read_cstr_some b2 Hz2) as [shown ->]. cbn [mbind option_bind].
  rewrite Hh. by eexists.
Qed.

Lemma aget_entries {A} (entries : list A) last rest i :
  0 <= i < zlen entries → ∃ w, aget (entries ++ last :: rest) i = Some w ∧ entries !! Z.to_nat i = Some w.
Proof.
  intros Hi. rewrite aget_app_l by lia. destruct (aget_is_Some entries i Hi) as [w Hw].
  exists w. split; [done|]. by rewrite <- aget_to_nat by lia.
Qed.

Lemma aget_last {A} (entries : list A) last rest :
  aget (entries ++ last :: rest) (zlen entries) = Some last.
Proof. by rewrite aget_nat, lookup_app_r, Nat.sub_diag by lia. Qed.

Lemma print_options_ok entries last rest wrappers buf0 required :
  table_ok entries last rest wrappers → length buf0 = 30%nat →
  ∃ lines, _print_options wrappers buf0 required = Some lines.
Proof.
  intros (-> & He & Hlast) Hb. unfold _print_options.
  destruct (while_loop_inv (λ s : Z * list (list Z), 0 <= s.1 <= zlen entries) (λ _, True)
    (λ s, Z.to_nat (zlen entries - s.1)) (print_option (entries ++ last :: rest) buf0 required)
    (S (length (entries ++ last :: rest))) (0, [])) as ([i out] & -> & _); [| |rewrite length_app; cbn [fst length]; lia|by eexists].
  - intros [i out] Hi. cbn [fst] in Hi. destruct (decide (i = zlen entries)) as [->|Hne].
    + unfold print_option. rewrite aget_last. cbn [mbind option_bind]. rewrite Hlast. by eexists.
    + destruct (aget_entries entries last rest i) as (w & Hw & Hl); [lia|].
      destruct (print_option_ok (entries ++ last :: rest) buf0 required i out w Hb Hw) as [out' ->];
        [by eapply Forall_lookup_1|].
      eexists. split; [done|]. cbn [fst]. split; lia.
  - cbn [fst]. lia.
Qed.

Lemma usage_ok entries last rest wrappers buf0 prog doc full :
  table_ok entries last rest wrappers → length buf0 = 30%nat →
  ∃ lines, usage wrappers buf0 prog doc full = Some lines.
Proof.
  intros Ht Hb. unfold usage. destruct (negb full); [by eexists|].
  destruct (print_options_ok entries last rest wrappers buf0 true Ht Hb) as [l1 ->].
  destruct (print_options_ok entries last rest wrappers buf0 false Ht Hb) as [l2 ->]. by eexists.
Qed.

(** The array of options: the named entries, and only they. *)
Lemma options_array entries last rest wrappers :
  table_ok entries last rest wrappers →
  option_wrappers_to_options wrappers true = Some (0, map w_option entries)
  ∧ option_wrappers_to_options wrappers false = Some (-1, []).
Proof.
  intros (-> & He & Hlast). unfold option_wrappers_to_options.
  destruct (while_loop_inv (λ i, 0 <= i <= zlen entries) (λ i, i = zlen entries)
    (λ i, Z.to_nat (zlen entries - i)) (count_body (entries ++ last :: rest))
    (S (length (entries ++ last :: rest))) 0) as (n & -> & ->); [|lia|rewrite length_app; cbn [fst length]; lia|].
  - intros i Hi. unfold count_body. destruct (decide (i = zlen entries)) as [->|Hne].
    + rewrite aget_last. cbn [mbind option_bind]. rewrite Hlast. by eexists.
    + destruct (aget_entries entries last rest i) as (w & -> & Hl); [lia|]. cbn [mbind option_bind].
      destruct (Forall_lookup_1 _ _ _ _ He Hl) as (name & help & -> & _). eexists. split; [done|]. cbn. split; lia.
  - cbn [mbind option_bind negb]. rewrite aget_list_eq, Nat2Z.id by (rewrite ?length_app; cbn [length]; lia).
    rewrite drop_0, take_app_length. done.
Qed.

(** ** Parsing *)

Section parse.
Variable if_nametoindex : list Z → Z.

(** A named device: its buffer holds a string, and the index is its index. *)
Definition dev_ok (set : bool) (buf : list Z) (index : Z) : Prop :=
  set = true → ∃ s, read_cstr buf = Some s ∧ index = if_nametoindex s ∧ index ≠ 0.

Record config_ok (c : config) : Prop := {
  co_ifname : length (ifname_buf c) = 16%nat;
  co_redirect : length (redirect_ifname_buf c) = 16%nat;
  co_pin_dir : length (pin_dir c) = 512%nat;
  co_filename : length (filename c) = 512%nat;
  co_progname : length (progname c) = 32%nat;
  co_src : length (src_mac c) = 18%nat;
  co_dest : length (dest_mac c) = 18%nat;
  co_nodev : ifname c = false → ifindex c = -1;
  co_dev : dev_ok (ifname c) (ifname_buf c) (ifindex c);
  co_rdev : dev_ok (redirect_ifname c) (redirect_ifname_buf c) (redirect_ifindex c);
}.

(** The options whose case reads [optarg]. *)
Definition reads_optarg (opt : Z) : bool :=
  existsb (Z.eqb opt) [ch "d"; ch "r"; ch "U"; ch "Q"; 1; 2; ch "L"; ch "R"].

Definition event_ok (ev : Z * option (list Z)) : Prop :=
  reads_optarg ev.1 = true → ∃ arg, ev.2 = Some arg ∧ cstr_ok arg.

Lemma dev_name_ok arg :
  cstr_ok arg →
  dev_name if_nametoindex arg = Some None
  ∨ ∃ buf i, dev_name if_nametoindex arg = Some (Some (buf, i)) ∧ length buf = 16%nat
      ∧ read_cstr buf = Some arg ∧ i = if_nametoindex arg ∧ i ≠ 0.
Proof.
  intros Hc. unfold dev_name. destruct (Nat.leb_spec IF_NAMESIZE (length arg)); [by left|].
  rewrite read_strncpy by done. rewrite decide_True by done. cbn [mbind option_bind].
  destruct (Z.eqb_spec (if_nametoindex arg) 0); [by left|]. right.
  eexists _, _. split; [done|]. rewrite strncpy_length, read_strncpy, decide_True by done. done.
Qed.

Lemma parse_option_ok opt optarg p :
  config_ok (p_cfg p) → event_ok (opt, optarg) →
  ∃ r, parse_option if_nametoindex opt optarg p = Some r
    ∧ match r with Go p' => config_ok (p_cfg p') | Exit _ => True end.
Proof.
  intros Hc He. unfold event_ok, reads_optarg in He. cbn [existsb fst snd] in He.
  destruct Hc as [H1 H2 H3 H4 H5 H6 H7 H8 H9 H10]. unfold parse_option.
  assert (∀ arg, cstr_ok arg → ∃ r, (r ← dev_name if_nametoindex arg;
     match r with None => Some (Exit false)
     | Some (buf, i) => Some (Go (mkParams (set_dev (p_cfg p) buf i) (p_verbose p))) end) = Some r
     ∧ match r with Go p' => config_ok (p_cfg p') | Exit _ => True end) as Hd.
  { intros arg Ha. destruct (dev_name_ok arg Ha) as [->|(buf & i & -> & Hl & Hr & Hi & Hn)]; [by eexists|].
    eexists. split; [done|]. split; try done. intros _. by exists arg. }
  assert (∀ arg, cstr_ok arg → ∃ r, (r ← dev_name if_nametoindex arg;
     match r with None => Some (Exit false)
     | Some (buf, i) => Some (Go (mkParams (set_redirect (p_cfg p) buf i) (p_verbose p))) end) = Some r
     ∧ match r with Go p' => config_ok (p_cfg p') | Exit _ => True end) as Hr.
  { intros arg Ha. destruct (dev_name_ok arg Ha) as [->|(buf & i & -> & Hl & Hrd & Hi & Hn)]; [by eexists|].
    eexists. split; [done|]. split; try done. intros _. by exists arg. }
  repeat match goal with |- ∃ r, (if opt =? ?k then _ else _) = _ ∧ _ => destruct (opt =? k) end;
    first [ by eexists
          | destruct He as (arg & -> & Ha); [rewrite ?orb_true_r; reflexivity|]; cbn [mbind option_bind];
            first [by apply Hd | by apply Hr
                  | eexists; split; [reflexivity|]; split; cbn; rewrite ?strncpy_length; done]
          | eexists; split; [reflexivity|]; split; done ].
Qed.
End parse.

(** ** The theorems *)

(** Parsing.  For a closed option table whose names leave room in the
    30-byte buffer, and for results of [getopt_long] that carry the arguments
    the cases read, [parse_cmdline_args] returns without a fault: either it
    exits with code 2, or it yields a configuration whose arrays keep their
    sizes and whose device is either unset, with index -1, or a terminated name
    with its non-zero index. *)
Theorem parse_cmdline_args_ok if_nametoindex entries last rest wrappers buf0 alloc argv0 doc events p :
  table_ok entries last rest wrappers → length buf0 = 30%nat →
  Forall event_ok events → config_ok if_nametoindex (p_cfg p) →
  ∃ r, parse_cmdline_args if_nametoindex wrappers buf0 alloc argv0 doc events p = Some r
    ∧ match r with
      | Parsed p' => config_ok if_nametoindex (p_cfg p')
      | Exited code _ => code = EXIT_FAIL_OPTION
      end.
Proof.
  intros Ht Hb He Hp. unfold parse_cmdline_args.
  destruct (options_array _ _ _ _ Ht) as [Ea Eb]. destruct alloc; [rewrite Ea|rewrite Eb; by eexists].
  cbn [mbind option_bind Z.eqb negb]. revert p Hp.
  induction He as [|[opt arg] events Hev _ IH]; intros p Hp; cbn [parse_events]; [by eexists|].
  destruct (parse_option_ok if_nametoindex opt arg p Hp Hev) as (r & -> & Hr). cbn [mbind option_bind].
  destruct r as [p'|full]; [by apply IH|].
  destruct (usage_ok entries last rest wrappers buf0 argv0 doc full Ht Hb) as [lines ->]. by eexists.
Qed.

Definition config0 : config :=
  mkConfig XDP_MODE_NATIVE 0 (-1) false (replicate 16 0) 0 false (replicate 16 0) false 0 false (replicate 512 0)
    (strncpy (cstr "xdp_prog_kern.o") 512) (replicate 32 0) (replicate 18 0) (replicate 18 0) 0 0 false false.

Lemma config0_ok f : config_ok f config0.
Proof. split; try reflexivity; done. Qed.

(** Checking a table by evaluation. *)
Definition entry_okb (w : option_wrapper) : bool :=
  match opt_name (w_option w), w_help w with
  | Some name, Some _ =>
      forallb (λ b, (0 <? b) && (b <? 256)) name
      && match w_metavar w with None => true | Some _ => (length name <=? 26)%nat end
  | _, _ => false
  end.

Lemma cstr_ok_dec s : forallb (λ b, (0 <? b) && (b <? 256)) s = true → cstr_ok s.
Proof.
  intros H. apply List.Forall_forall. intros b Hb. apply (proj1 (forallb_forall _ _) H) in Hb. lia.
Qed.

Lemma entries_ok_dec l : forallb entry_okb l = true → Forall entry_ok l.
Proof.
  intros H. apply List.Forall_forall. intros w Hw. apply (proj1 (forallb_forall _ _) H) in Hw.
  unfold entry_okb in Hw. destruct (opt_name (w_option w)) as [name|] eqn:En; [|done].
  destruct (w_help w) as [help|] eqn:Eh; [|done]. apply andb_prop in Hw as [H1 H2].
  exists name, help. split; [done|]. split; [done|]. split; [by apply cstr_ok_dec|].
  intros Hm. destruct (w_metavar w); [by apply Nat.leb_le|done].
Qed.

Lemma loader_table_ok : table_ok (take 11 loader_options) last_entry [] loader_options.
Proof. split; [reflexivity|]. split; [apply entries_ok_dec; vm_compute; reflexivity|done]. Qed.

Definition lo_index (name : list Z) : Z := if bool_decide (name = cstr "lo") then 1 else 0.

Lemma parse_cmdline_args_ok_witness :
  ∃ r, parse_cmdline_args lo_index loader_options (replicate 30 0) true (cstr "xdp_loader") (cstr "XDP loader")
      [(ch "d", Some (cstr "lo")); (2, Some (cstr "xdp_ip_hash")); (ch "M", None)] (mkParams config0 true) = Some r
    ∧ match r with
      | Parsed p' => config_ok lo_index (p_cfg p')
      | Exited code _ => code = EXIT_FAIL_OPTION
      end.
Proof.
  apply (parse_cmdline_args_ok lo_index (take 11 loader_options) last_entry [] loader_options);
    [apply loader_table_ok|done| |apply config0_ok].
  repeat (apply List.Forall_cons); try apply List.Forall_nil.
  - intros _. eexists. split; [reflexivity|by apply cstr_ok_dec].
  - intros _. eexists. split; [reflexivity|by apply cstr_ok_dec].
  - intros H. vm_compute in H. discriminate H.
Defined.

(** The array given to [getopt_long] is not closed.  For every table the
    array holds the named entries and nothing else; [getopt_long] looks for a
    last entry without a name, and there is none. *)
Theorem options_not_terminated entries last rest wrappers :
  table_ok entries last rest wrappers →
  ∃ options, option_wrappers_to_options wrappers true = Some (0, options)
    ∧ options = map w_option entries ∧ Forall (λ o, opt_name o ≠ None) options.
Proof.
  intros Ht. destruct (options_array _ _ _ _ Ht) as [E _]. destruct Ht as (_ & He & _).
  eexists. split; [exact E|]. split; [done|]. apply List.Forall_map. refine (List.Forall_impl _ _ He).
  intros w (name & help & Hn & _) H. cbv beta in H. congruence.
Qed.

Lemma options_not_terminated_witness :
  ∃ options, option_wrappers_to_options stats_options true = Some (0, options)
    ∧ options = map w_option (take 3 stats_options) ∧ Forall (λ o, opt_name o ≠ None) options.
Proof.
  apply (options_not_terminated (take 3 stats_options) last_entry [] stats_options).
  split; [reflexivity|]. split; [apply entries_ok_dec; vm_compute; reflexivity|done].
Defined.

(** Two options of the loader's table.  [--force] is announced and accepted
    by [getopt_long], but has no case: the program prints its usage and exits.
    [--unload] takes no argument according to the table, so [optarg] is null,
    and its case reads a number from it: a null pointer access.  Names of 32
    bytes or more given to [--progname] leave an array without terminator. *)
Theorem loader_option_faults if_nametoindex p :
  In (entry "force" no_argument (ch "F") "Force install, replacing existing program on interface" None false) loader_options
  ∧ parse_option if_nametoindex (ch "F") None p = Some (Exit false)
  ∧ In (entry "unload" no_argument (ch "U") "Unload XDP program instead of loading" None false) loader_options
  ∧ parse_option if_nametoindex (ch "U") None p = None
  ∧ (∀ name, cstr_ok name → ∃ p', parse_option if_nametoindex 2 (Some name) p = Some (Go p')
       ∧ (read_cstr (progname (p_cfg p')) = None ↔ (32 <= length name)%nat)).
Proof.
  split_and!.
  - cbn. tauto.
  - reflexivity.
  - cbn. tauto.
  - reflexivity.
  - intros name Hc. eexists. split; [reflexivity|]. cbn [p_cfg progname set_names].
    rewrite read_strncpy by done. destruct (decide (length name < 32)%nat); split; (done || lia || intros; lia).
Qed.

Lemma loader_option_faults_witness :
  ∃ p', parse_option lo_index 2 (Some (replicate 40 65)) (mkParams config0 true) = Some (Go p')
    ∧ (read_cstr (progname (p_cfg p')) = None ↔ (32 <= length (replicate 40 65))%nat).
Proof.
  apply (proj2 (proj2 (proj2 (proj2 (loader_option_faults lo_index (mkParams config0 true)))))).
  by apply cstr_ok_dec.
Defined.
