(* ===== verification/XdpStats.v ===== *)
(** * Packet statistics

    Kernel side: [xdp_stats_record_action] ([common/xdp_stats_kern.h]) updates
    the record of an action in the array of the current CPU.  User side:
    [basic-solutions/xdp_stats.c] sums the records of all CPUs, collects the
    five actions and prints the differences between two collections. *)

From S2P Require Import Prelude Packet.

(** ** Data ([xdp_stats_kern_user.h]) *)

Record datarec : Type := mkRec { rx_packets : Z; rx_bytes : Z }.

Definition XDP_ACTION_MAX : Z := XDP_REDIRECT + 1.

(** ** Kernel side *)

(** [stats] is this CPU's array of [xdp_stats_map]; a lookup outside the
    [max_entries] elements returns NULL. *)
Definition xdp_stats_record_action (ctx : xdp_md) (action : Z) (stats : list datarec)
    : Z * list datarec :=
  if XDP_ACTION_MAX <=? action then (XDP_ABORTED, stats) else
  match aget stats action with
  | None => (XDP_ABORTED, stats)
  | Some rec =>
      let rec := mkRec (u64 (rx_packets rec + 1))
                       (u64 (rx_bytes rec + u32 (xd_data_end ctx - xd_data ctx))) in
      (action, <[Z.to_nat action := rec]> stats)
  end.

(** ** User side *)

Record record : Type := mkRecord { timestamp : Z; total : datarec }.

Definition NANOSEC_PER_SEC : Z := 1000000000.

(** [gettime] from the two fields of [struct timespec]. *)
Definition gettime (tv_sec tv_nsec : Z) : Z := u64 (tv_sec * NANOSEC_PER_SEC + tv_nsec).

Definition BPF_MAP_TYPE_ARRAY : Z := 2.
Definition BPF_MAP_TYPE_PERCPU_ARRAY : Z := 6.

Section collect.
(** The lookups of libbpf: the value of a key, and the values of all CPUs. *)
Variable lookup : Z → option datarec.
Variable lookup_percpu : Z → option (list datarec).

Definition map_get_value_array (key : Z) (value : datarec) : datarec :=
  match lookup key with None => value | Some v => v end.

Definition sum_body (values : list datarec) (i : Z) (s : Z * Z) : option (ctl (Z * Z)) :=
  v ← aget values i;
  Some (Next (u64 (s.1 + rx_packets v), u64 (s.2 + rx_bytes v))).

(** [nr_cpus] is [libbpf_num_possible_cpus()]. *)
Definition map_get_value_percpu_array (nr_cpus key : Z) (value : datarec) : option datarec :=
  match lookup_percpu key with
  | None => Some value
  | Some values =>
      s ← for_loop 0 nr_cpus (sum_body values) (0, 0);
      Some (mkRec s.1 s.2)
  end.

(** [value] is the indeterminate content of the local variable. *)
Definition map_collect (nr_cpus map_type key now : Z) (value : datarec) (rec : record)
    : option (bool * record) :=
  let rec := mkRecord now (total rec) in
  if map_type =? BPF_MAP_TYPE_ARRAY then
    Some (true, mkRecord now (map_get_value_array key value))
  else if map_type =? BPF_MAP_TYPE_PERCPU_ARRAY then
    v ← map_get_value_percpu_array nr_cpus key value;
    Some (true, mkRecord now v)
  else Some (false, rec).

(** [now key] is the time read for [key]. *)
Definition collect_body (nr_cpus map_type : Z) (now : Z → Z) (value : datarec) (key : Z)
    (stats : list record) : option (ctl (list record)) :=
  rec ← aget stats key;
  '(_, rec) ← map_collect nr_cpus map_type key (now key) value rec;
  stats ← aset stats key rec;
  Some (Next stats).

Definition stats_collect (nr_cpus map_type : Z) (now : Z → Z) (value : datarec)
    (stats : list record) : option (list record) :=
  for_loop 0 XDP_ACTION_MAX (collect_body nr_cpus map_type now value) stats.
End collect.

(** [calc_period] in nanoseconds: the code divides it by 10^9 as a [double],
    a quotient that is zero exactly when this integer is. *)
Definition calc_period_ns (r p : record) : Z := u64 (timestamp r - timestamp p).

(** A printed line: the action, the counters and the differences the rates
    are computed from. *)
Record stats_row : Type := mkRow {
  row_action : Z; row_packets : Z; row_kbytes : Z;
  row_dpackets : Z; row_dbytes : Z; row_period : Z;
}.

Definition print_body (rec prev : list record) (i : Z) (out : list stats_row)
    : option (ctl (list stats_row)) :=
  r ← aget rec i;
  p ← aget prev i;
  let period := calc_period_ns r p in
  if period =? 0 then Some (Break out) else
  Some (Next (out ++ [mkRow i (rx_packets (total r)) (Z.quot (rx_bytes (total r)) 1000)
    (u64 (rx_packets (total r) - rx_packets (total p)))
    (u64 (rx_bytes (total r) - rx_bytes (total p))) period])).

(** The lines [stats_print] prints; it returns at the first zero period. *)
Definition stats_print (rec prev : list record) : option (list stats_row) :=
  for_loop 0 XDP_ACTION_MAX (print_body rec prev) [].

(** ** Kernel side: lemmas *)

Definition datarec_ok (r : datarec) : Prop :=
  0 <= rx_packets r < 2 ^ 64 ∧ 0 <= rx_bytes r < 2 ^ 64.

Lemma record_action_ok ctx action stats rec :
  md_ok ctx → aget stats action = Some rec → action < XDP_ACTION_MAX →
  xdp_stats_record_action ctx action stats =
    (action, <[Z.to_nat action := mkRec (u64 (rx_packets rec + 1))
                                        (u64 (rx_bytes rec + zlen (xd_bytes ctx)))]> stats).
Proof.
  intros Hok Hrec Ha. unfold xdp_stats_record_action. rewrite (proj2 (Z.leb_gt _ _)), Hrec by done.
  assert (u32 (xd_data_end ctx - xd_data ctx) = zlen (xd_bytes ctx)) as ->; [|done].
  destruct Hok as [Hd He _]. unfold xd_data_end in *. rewrite u32_small; [lia|unfold word_ok; lia].
Qed.

(** ** Sums over the CPUs *)

Lemma u64_add_l a b : u64 (u64 a + b) = u64 (a + b).
Proof. apply Zplus_mod_idemp_l. Qed.

Lemma percpu_sum lookup_percpu key value values :
  lookup_percpu key = Some values →
  map_get_value_percpu_array lookup_percpu (zlen values) key value =
    Some (mkRec (u64 (sum_by rx_packets values)) (u64 (sum_by rx_bytes values))).
Proof.
  intros H. unfold map_get_value_percpu_array. rewrite H.
  destruct (for_loop_inv
    (λ i s, s = (u64 (sum_by rx_packets (take (Z.to_nat i) values)),
                u64 (sum_by rx_bytes (take (Z.to_nat i) values))))
    (sum_body values) 0 (zlen values) (0, 0)) as (s & -> & ->); [lia| |done|].
  - intros i s Hi ->. unfold sum_body. destruct (aget_is_Some values i Hi) as [v Hv]. rewrite Hv.
    cbn [mbind option_bind fst snd]. eexists. split; [done|].
    replace (Z.to_nat (i + 1)) with (S (Z.to_nat i)) by lia.
    rewrite (take_S_r _ _ v) by (rewrite <- aget_to_nat by lia; done).
    rewrite !sum_by_app, !u64_add_l. unfold sum_by. cbn [foldr]. by rewrite !Z.add_0_r.
  - cbn [mbind option_bind fst snd]. by rewrite take_ge by lia.
Qed.

(** ** From packets to the sums a user reads *)

(** A packet handled on a CPU with the action of the program. *)
Record rx_event : Type := mkEv { ev_cpu : nat; ev_ctx : xdp_md; ev_action : Z }.

(** The per-CPU map: an array of records for each CPU. *)
Definition run_event (m : list (list datarec)) (e : rx_event) : list (list datarec) :=
  alter (λ st, (xdp_stats_record_action (ev_ctx e) (ev_action e) st).2) (ev_cpu e) m.

Definition run_events (m : list (list datarec)) (es : list rx_event) : list (list datarec) :=
  foldl run_event m es.

Definition rec0 : datarec := mkRec 0 0.
Definition map_init (nr_cpus : nat) : list (list datarec) := replicate nr_cpus (replicate 5 rec0).

(** The record of [key] on every CPU. *)
Definition column (key : Z) (m : list (list datarec)) : list datarec :=
  map (λ st, default rec0 (aget st key)) m.

Definition event_ok (nr_cpus : nat) (e : rx_event) : Prop :=
  (ev_cpu e < nr_cpus)%nat ∧ md_ok (ev_ctx e) ∧ 0 <= ev_action e.

(** What the events amount to for one action. *)
Definition packets_of (key : Z) (es : list rx_event) : Z :=
  zlen (filter (λ e, ev_action e = key) es).
Definition bytes_of (key : Z) (es : list rx_event) : Z :=
  sum_by (λ e, zlen (xd_bytes (ev_ctx e))) (filter (λ e, ev_action e = key) es).

Lemma packets_of_snoc key es e :
  packets_of key (es ++ [e]) = packets_of key es + (if ev_action e =? key then 1 else 0).
Proof.
  unfold packets_of. rewrite list.filter_app, length_app, list.filter_cons, list.filter_nil.
  case_decide; zcase; try done; cbn; lia.
Qed.

Lemma bytes_of_snoc key es e :
  bytes_of key (es ++ [e]) =
    bytes_of key es + (if ev_action e =? key then zlen (xd_bytes (ev_ctx e)) else 0).
Proof.
  unfold bytes_of. rewrite list.filter_app, sum_by_app, list.filter_cons, list.filter_nil.
  unfold sum_by. case_decide; zcase; try done; cbn [foldr]; lia.
Qed.

(** The map keeps one array of five records per CPU. *)
Definition map_shape (m : list (list datarec)) : Prop := Forall (λ st, length st = 5%nat) m.

Lemma record_action_length ctx action stats :
  length (xdp_stats_record_action ctx action stats).2 = length stats.
Proof.
  unfold xdp_stats_record_action. destruct (_ <=? _); [done|].
  destruct (aget stats action); [|done]. apply length_insert.
Qed.

Lemma run_event_shape m e : map_shape m → map_shape (run_event m e).
Proof.
  intros H. unfold run_event. apply Forall_alter; [done|].
  intros st _ Hst. by rewrite record_action_length.
Qed.

Lemma column_run_event key m e st :
  m !! ev_cpu e = Some st →
  column key (run_event m e) =
    <[ev_cpu e := default rec0 (aget (xdp_stats_record_action (ev_ctx e) (ev_action e) st).2 key)]>
      (column key m).
Proof.
  intros H. unfold column, run_event. apply list_eq. intros j.
  rewrite list_lookup_fmap, list_lookup_alter, list_lookup_insert, list_lookup_fmap.
  rewrite length_map. pose proof (lookup_lt_Some _ _ _ H).
  case_decide; subst; cbn; [|by destruct (decide (_ ∧ _)); [lia|]].
  rewrite decide_True by lia. by rewrite H.
Qed.

Lemma aget_insert {A} (l : list A) i x j :
  0 <= i < zlen l → aget (<[Z.to_nat i := x]> l) j = if j =? i then Some x else aget l j.
Proof. intros H. by apply aget_aset, aset_eq. Qed.

(** The record of [key] after one event on its CPU. *)
Lemma record_action_key ctx action st key :
  md_ok ctx → 0 <= action → length st = 5%nat → 0 <= key < XDP_ACTION_MAX →
  ∃ rec, aget st key = Some rec ∧
    aget (xdp_stats_record_action ctx action st).2 key =
      Some (if action =? key then mkRec (u64 (rx_packets rec + 1)) (u64 (rx_bytes rec + zlen (xd_bytes ctx)))
            else rec).
Proof.
  unfold XDP_ACTION_MAX, XDP_REDIRECT. intros Hok Ha Hst Hk.
  destruct (aget_is_Some st key) as [rec Hrec]; [lia|]. exists rec. split; [done|].
  destruct (Z.ltb_spec action 5).
  - destruct (aget_is_Some st action) as [reca Hreca]; [lia|].
    rewrite (record_action_ok ctx action st reca) by done. cbn [snd].
    rewrite aget_insert by lia. zcase; try lia; [|done]. congruence.
  - unfold xdp_stats_record_action, XDP_ACTION_MAX, XDP_REDIRECT.
    rewrite (proj2 (Z.leb_le _ _)) by lia. cbn [snd]. zcase; [lia|done].
Qed.

Lemma u64_sub_add s a b : u64 (s - a + u64 (a + b)) = u64 (s + b).
Proof. unfold u64. rewrite Zplus_mod_idemp_r. f_equal. lia. Qed.

Lemma column_step key m e :
  map_shape m → event_ok (length m) e → 0 <= key < XDP_ACTION_MAX →
  u64 (sum_by rx_packets (column key (run_event m e))) =
    u64 (sum_by rx_packets (column key m) + if ev_action e =? key then 1 else 0)
  ∧ u64 (sum_by rx_bytes (column key (run_event m e))) =
    u64 (sum_by rx_bytes (column key m)
         + if ev_action e =? key then zlen (xd_bytes (ev_ctx e)) else 0).
Proof.
  intros Hm (Hcpu & Hctx & Ha) Hk.
  destruct (lookup_lt_is_Some_2 m (ev_cpu e) Hcpu) as [st Hst].
  assert (length st = 5%nat) as Hlen by (by eapply (Forall_lookup_1 _ _ _ _ Hm)).
  destruct (record_action_key (ev_ctx e) (ev_action e) st key Hctx Ha Hlen Hk) as (rec & Hrec & Hnew).
  rewrite (column_run_event key m e st Hst), Hnew. cbn [default from_option id].
  assert (column key m !! ev_cpu e = Some rec) as Hcol.
  { unfold column. rewrite list_lookup_fmap, Hst. cbn. by rewrite Hrec. }
  rewrite !(sum_by_insert _ _ _ rec) by done.
  destruct (ev_action e =? key); cbn [rx_packets rx_bytes].
  - by rewrite !u64_sub_add.
  - split; f_equal; lia.
Qed.

Lemma column_init key n :
  0 <= key < XDP_ACTION_MAX → column key (replicate n (replicate 5 rec0)) = replicate n rec0.
Proof.
  unfold XDP_ACTION_MAX, XDP_REDIRECT. intros Hk. unfold column.
  assert (default rec0 (aget (replicate 5 rec0) key) = rec0) as E
    by (rewrite aget_to_nat, lookup_replicate_2 by lia; done).
  induction n as [|n IH]; [done|].
  change (map ?f (replicate (S n) ?x)) with (f x :: map f (replicate n x)).
  cbv beta. by rewrite IH, E.
Qed.

Lemma sum_by_replicate {A} (f : A → Z) n x : sum_by f (replicate n x) = Z.of_nat n * f x.
Proof.
  unfold sum_by. induction n as [|n IH]; [done|]. cbn [replicate foldr]. rewrite IH. lia.
Qed.

Lemma run_events_sums nr_cpus es key :
  Forall (event_ok nr_cpus) es → 0 <= key < XDP_ACTION_MAX →
  let m := run_events (map_init nr_cpus) es in
  map_shape m ∧ length m = nr_cpus
  ∧ u64 (sum_by rx_packets (column key m)) = u64 (packets_of key es)
  ∧ u64 (sum_by rx_bytes (column key m)) = u64 (bytes_of key es).
Proof.
  intros Hes Hk. induction es as [|e es IH] using rev_ind; cbn zeta.
  - unfold run_events, map_init. cbn [foldl].
    assert (∀ f : datarec → Z, f rec0 = 0 →
      sum_by f (column key (replicate nr_cpus (replicate 5 rec0))) = 0) as Hz.
    { intros f Hf. by rewrite column_init, sum_by_replicate, Hf, Z.mul_0_r. }
    rewrite !Hz by done. split_and!; [|by rewrite length_replicate|done|done].
    by apply Forall_replicate.
  - apply Forall_app in Hes as [Hes He]. apply Forall_cons_1 in He as [He _].
    destruct (IH Hes) as (Hm & Hl & Hp & Hb).
    unfold run_events in *. rewrite foldl_app. cbn [foldl]. set (m := foldl run_event _ es) in *.
    destruct (column_step key m e Hm) as [E1 E2]; [by rewrite Hl|done|].
    rewrite E1, E2, packets_of_snoc, bytes_of_snoc.
    rewrite <- (u64_add_l (sum_by rx_packets _)), <- (u64_add_l (sum_by rx_bytes _)), Hp, Hb, !u64_add_l.
    split_and!; [by apply run_event_shape| |done|done].
    unfold run_event. by rewrite length_alter.
Qed.

(** ** The theorems *)

(** [xdp_stats_record_action] returns the action and counts one packet and
    its length, modulo 2^64, in the record of that action only; an action
    outside 0..4 gives [XDP_ABORTED] and counts nothing. *)
Theorem record_action_counts ctx action stats :
  md_ok ctx → length stats = 5%nat → 0 <= action →
  (action < 5 → ∃ rec, aget stats action = Some rec ∧
     xdp_stats_record_action ctx action stats =
       (action, <[Z.to_nat action := mkRec (u64 (rx_packets rec + 1))
                                           (u64 (rx_bytes rec + zlen (xd_bytes ctx)))]> stats))
  ∧ (5 <= action → xdp_stats_record_action ctx action stats = (XDP_ABORTED, stats)).
Proof.
  intros Hok Hlen Ha. split; intros H.
  - destruct (aget_is_Some stats action) as [rec Hrec]; [lia|]. exists rec. split; [done|].
    by apply record_action_ok.
  - unfold xdp_stats_record_action, XDP_ACTION_MAX, XDP_REDIRECT.
    by rewrite (proj2 (Z.leb_le _ _)) by lia.
Qed.

(** C11: from packets to what the statistics program reads: after any sequence
    of packets handled on any CPUs, starting from a fresh per-CPU map,
    [map_get_value_percpu_array] returns for each action the number of packets
    that ended with it and the sum of their lengths, modulo 2^64. *)
Theorem percpu_stats_correct nr_cpus es key lookup_percpu value :
  Forall (event_ok nr_cpus) es → 0 <= key < XDP_ACTION_MAX →
  lookup_percpu key = Some (column key (run_events (map_init nr_cpus) es)) →
  map_get_value_percpu_array lookup_percpu (Z.of_nat nr_cpus) key value =
    Some (mkRec (u64 (packets_of key es)) (u64 (bytes_of key es))).
Proof.
  intros Hes Hk Hl. destruct (run_events_sums nr_cpus es key Hes Hk) as (_ & Hlen & Hp & Hb).
  assert (zlen (column key (run_events (map_init nr_cpus) es)) = Z.of_nat nr_cpus) as Hn
    by (unfold column; rewrite length_map; lia).
  rewrite <- Hn, (percpu_sum _ _ _ _ Hl). by rewrite Hp, Hb.
Qed.

(** A failed lookup goes unnoticed: [map_collect] reports success and
    stores the indeterminate content of its local variable, for both map types
    it knows; an unknown type is reported and leaves the counters. *)
Theorem map_collect_lookup_failure lookup lookup_percpu nr_cpus key now value rec :
  (lookup key = None →
     map_collect lookup lookup_percpu nr_cpus BPF_MAP_TYPE_ARRAY key now value rec =
       Some (true, mkRecord now value))
  ∧ (lookup_percpu key = None →
     map_collect lookup lookup_percpu nr_cpus BPF_MAP_TYPE_PERCPU_ARRAY key now value rec =
       Some (true, mkRecord now value))
  ∧ (∀ map_type, map_type ≠ BPF_MAP_TYPE_ARRAY → map_type ≠ BPF_MAP_TYPE_PERCPU_ARRAY →
     map_collect lookup lookup_percpu nr_cpus map_type key now value rec =
       Some (false, mkRecord now (total rec))).
Proof.
  unfold map_collect, map_get_value_array, map_get_value_percpu_array. split_and!.
  - by intros ->.
  - by intros ->.
  - intros map_type H1 H2. by rewrite (proj2 (Z.eqb_neq _ _) H1), (proj2 (Z.eqb_neq _ _) H2).
Qed.

(** ** Witnesses *)

Definition small_md : xdp_md := mkMd 64 [1; 2; 3].

Lemma small_md_ok : md_ok small_md.
Proof. split; [zeval|zeval|by apply bytes_ok_dec]. Qed.

Lemma record_action_counts_witness :
  ∃ rec, aget (replicate 5 rec0) 2 = Some rec ∧
    xdp_stats_record_action small_md 2 (replicate 5 rec0) =
      (2, <[Z.to_nat 2 := mkRec (u64 (rx_packets rec + 1)) (u64 (rx_bytes rec + 3))]> (replicate 5 rec0)).
Proof. apply (record_action_counts small_md 2 (replicate 5 rec0)); [apply small_md_ok|done|lia|lia]. Defined.

Definition sample_events : list rx_event :=
  [mkEv 0 small_md 2; mkEv 1 small_md 2; mkEv 1 small_md 0; mkEv 1 small_md 7].

Lemma sample_events_ok : Forall (event_ok 2) sample_events.
Proof.
  repeat (apply List.Forall_cons; [split_and!; [cbn; lia|apply small_md_ok|cbn; lia]|]).
  apply List.Forall_nil.
Qed.

Lemma percpu_stats_correct_witness :
  map_get_value_percpu_array (λ key, Some (column key (run_events (map_init 2) sample_events)))
    2 2 rec0 = Some (mkRec 2 6).
Proof.
  apply (percpu_stats_correct 2 sample_events 2); [apply sample_events_ok|zeval|reflexivity].
Defined.

Lemma map_collect_lookup_failure_witness :
  map_collect (λ _, None) (λ _, None) 4 BPF_MAP_TYPE_ARRAY 0 7 (mkRec 99 98) (mkRecord 0 rec0) =
    Some (true, mkRecord 7 (mkRec 99 98)).
Proof. apply (map_collect_lookup_failure (λ _, None) (λ _, None)). reflexivity. Defined.
