(* ===== verification/XdpFilter.v ===== *)
(** * The packet filter of xdp-tools ([lib/xdp-tools/xdp-filter/xdpfilt_prog.h])

    The header is compiled into ten programs, by the preprocessor symbols the
    files [xdpfilt_*.c] define; they are the fields of [features].  The maps are
    per-CPU: the state holds the values of this CPU. *)

From stdpp Require Import gmap.
From S2P Require Import Prelude Packet ParsingHelpers XdpStats FilterParsers.

(** ** Constants ([common_kern_user.h]) *)

Definition FEAT_TCP : Z := 1.
Definition FEAT_UDP : Z := 2.
Definition FEAT_IPV6 : Z := 4.
Definition FEAT_IPV4 : Z := 8.
Definition FEAT_ETHERNET : Z := 16.
Definition FEAT_ALLOW : Z := 32.
Definition FEAT_DENY : Z := 64.

Definition MAP_FLAG_SRC : Z := 1.
Definition MAP_FLAG_DST : Z := 2.
Definition MAP_FLAG_TCP : Z := 4.
Definition MAP_FLAG_UDP : Z := 8.
Definition COUNTER_SHIFT : Z := 6.

(** The symbols [FILT_MODE_*]. *)
Record features : Type := mkF {
  mode_deny : bool; mode_ethernet : bool; mode_ipv4 : bool; mode_ipv6 : bool; mode_udp : bool; mode_tcp : bool;
}.

Definition VERDICT_HIT (f : features) : Z := if mode_deny f then XDP_PASS else XDP_DROP.
Definition VERDICT_MISS (f : features) : Z := if mode_deny f then XDP_DROP else XDP_PASS.

(** [_features], what user space reads from the object file. *)
Definition feature_bits (f : features) : Z :=
  let on (b : bool) (bit : Z) := if b then bit else 0 in
  Z.lor (Z.lor (Z.lor (Z.lor (Z.lor (on (mode_ethernet f) FEAT_ETHERNET) (on (mode_ipv4 f) FEAT_IPV4))
    (on (mode_ipv6 f) FEAT_IPV6)) (on (mode_udp f) FEAT_UDP)) (on (mode_tcp f) FEAT_TCP))
    (if mode_deny f then FEAT_DENY else FEAT_ALLOW).

(** ** The maps *)

(** [filter_ports] is an array of 65536 values, the others are hash tables. *)
Record filter_maps : Type := mkFM {
  filter_ports : list Z; filter_ipv4 : gmap (list Z) Z; filter_ipv6 : gmap (list Z) Z; filter_ethernet : gmap (list Z) Z;
}.

(** [CHECK_MAP] on a looked-up value: the new value when the rule matches. *)
Definition check_value (value : option Z) (mask : Z) : option Z :=
  match value with
  | Some v => if Z.land v mask =? mask then Some (u64 (v + Z.shiftl 1 COUNTER_SHIFT)) else None
  | None => None
  end.

Definition check_ports (m : filter_maps) (key mask : Z) : option filter_maps :=
  v ← check_value (aget (filter_ports m) key) mask;
  Some (mkFM (<[Z.to_nat key := v]> (filter_ports m)) (filter_ipv4 m) (filter_ipv6 m) (filter_ethernet m)).

Definition check_ipv4 (m : filter_maps) (key : list Z) (mask : Z) : option filter_maps :=
  v ← check_value (filter_ipv4 m !! key) mask;
  Some (mkFM (filter_ports m) (<[key := v]> (filter_ipv4 m)) (filter_ipv6 m) (filter_ethernet m)).

Definition check_ipv6 (m : filter_maps) (key : list Z) (mask : Z) : option filter_maps :=
  v ← check_value (filter_ipv6 m !! key) mask;
  Some (mkFM (filter_ports m) (filter_ipv4 m) (<[key := v]> (filter_ipv6 m)) (filter_ethernet m)).

Definition check_ethernet (m : filter_maps) (key : list Z) (mask : Z) : option filter_maps :=
  v ← check_value (filter_ethernet m !! key) mask;
  Some (mkFM (filter_ports m) (filter_ipv4 m) (filter_ipv6 m) (<[key := v]> (filter_ethernet m))).

(** ** The verdicts *)

(** Two consecutive [CHECK_MAP]: destination, then source. *)
Definition first_hit (f : features) (m : filter_maps) (dst src : option filter_maps) : Z * filter_maps :=
  match dst with
  | Some m' => (VERDICT_HIT f, m')
  | None => match src with Some m' => (VERDICT_HIT f, m') | None => (VERDICT_MISS f, m) end
  end.

Section verdicts.
Variable f : features.
Variable ctx : xdp_md.

Definition lookup_verdict_tcp (m : filter_maps) (tcphdr : Z) : option (Z * filter_maps) :=
  dest ← ld16 ctx (tcphdr + 2);
  source ← ld16 ctx tcphdr;
  Some (first_hit f m (check_ports m dest (Z.lor MAP_FLAG_DST MAP_FLAG_TCP))
                      (check_ports m source (Z.lor MAP_FLAG_SRC MAP_FLAG_TCP))).

Definition lookup_verdict_udp (m : filter_maps) (udphdr : Z) : option (Z * filter_maps) :=
  dest ← ld16 ctx (udphdr + 2);
  source ← ld16 ctx udphdr;
  Some (first_hit f m (check_ports m dest (Z.lor MAP_FLAG_DST MAP_FLAG_UDP))
                      (check_ports m source (Z.lor MAP_FLAG_SRC MAP_FLAG_UDP))).

(** Addresses are compared as the bytes of the packet. *)
Definition lookup_verdict_ipv4 (m : filter_maps) (iphdr : Z) : option (Z * filter_maps) :=
  daddr ← ld_bytes ctx (iphdr + 16) 4;
  saddr ← ld_bytes ctx (iphdr + 12) 4;
  Some (first_hit f m (check_ipv4 m daddr MAP_FLAG_DST) (check_ipv4 m saddr MAP_FLAG_SRC)).

Definition lookup_verdict_ipv6 (m : filter_maps) (ipv6hdr : Z) : option (Z * filter_maps) :=
  daddr ← ld_bytes ctx (ipv6hdr + 24) 16;
  saddr ← ld_bytes ctx (ipv6hdr + 8) 16;
  Some (first_hit f m (check_ipv6 m daddr MAP_FLAG_DST) (check_ipv6 m saddr MAP_FLAG_SRC)).

Definition lookup_verdict_ethernet (m : filter_maps) (eth : Z) : option (Z * filter_maps) :=
  h_dest ← ld_bytes ctx eth 6;
  h_source ← ld_bytes ctx (eth + 6) 6;
  Some (first_hit f m (check_ethernet m h_dest MAP_FLAG_DST) (check_ethernet m h_source MAP_FLAG_SRC)).

(** [CHECK_RET] and [CHECK_VERDICT]: the rest runs unless they jump to [out]. *)
Definition CHECK_RET (ret : Z) (m : filter_maps) (rest : option (Z * filter_maps)) : option (Z * filter_maps) :=
  if ret <? 0 then Some (XDP_ABORTED, m) else rest.

Definition CHECK_VERDICT (on : bool) (verdict : filter_maps → option (Z * filter_maps)) (m : filter_maps)
    (rest : filter_maps → option (Z * filter_maps)) : option (Z * filter_maps) :=
  if on then
    '(action, m) ← verdict m;
    if negb (action =? VERDICT_MISS f) then Some (action, m) else rest m
  else rest m.

(** The blocks for UDP and TCP. *)
Definition check_transport (ip_type nh : Z) (m : filter_maps) : option (Z * filter_maps) :=
  let data_end := xd_data_end ctx in
  let tcp (nh : Z) (m : filter_maps) :=
    if mode_tcp f && (ip_type =? IPPROTO_TCP) then
      '(ret, _, hdr) ← parse_tcphdr ctx nh data_end;
      CHECK_RET ret m (tcphdr ← hdr; CHECK_VERDICT true (λ m, lookup_verdict_tcp m tcphdr) m
        (λ m, Some (VERDICT_MISS f, m)))
    else Some (VERDICT_MISS f, m) in
  if mode_udp f && (ip_type =? IPPROTO_UDP) then
    '(ret, nh, hdr) ← parse_udphdr ctx nh data_end;
    CHECK_RET ret m (udphdr ← hdr; CHECK_VERDICT true (λ m, lookup_verdict_udp m udphdr) m (tcp nh))
  else tcp nh m.

(** The code from the parsing of the IP header to [out]; it is compiled when
    one of four features is selected. *)
Definition check_network (eth_type nh : Z) (m : filter_maps) : option (Z * filter_maps) :=
  let data_end := xd_data_end ctx in
  if eth_type =? bpf_htons ETH_P_IP then
    '(ip_type, nh, hdr) ← parse_iphdr ctx nh data_end;
    CHECK_RET ip_type m (iphdr ← hdr;
      CHECK_VERDICT (mode_ipv4 f) (λ m, lookup_verdict_ipv4 m iphdr) m (check_transport ip_type nh))
  else if eth_type =? bpf_htons ETH_P_IPV6 then
    '(ip_type, nh, hdr) ← parse_ip6hdr ctx nh data_end;
    CHECK_RET ip_type m (ipv6hdr ← hdr;
      CHECK_VERDICT (mode_ipv6 f) (λ m, lookup_verdict_ipv6 m ipv6hdr) m (check_transport ip_type nh))
  else Some (VERDICT_MISS f, m).

Definition xdp_filt_action (m : filter_maps) : option (Z * filter_maps) :=
  let data_end := xd_data_end ctx in
  '(eth_type, nh, hdr) ← parse_ethhdr ctx (xd_data ctx) data_end;
  CHECK_RET eth_type m (eth ← hdr;
    CHECK_VERDICT (mode_ethernet f) (λ m, lookup_verdict_ethernet m eth) m
      (λ m, if mode_ipv4 f || mode_ipv6 f || mode_tcp f || mode_udp f
            then check_network eth_type nh m else Some (VERDICT_MISS f, m))).

Definition xdp_filt (m : filter_maps) (stats : list datarec) : option (Z * filter_maps * list datarec) :=
  '(action, m) ← xdp_filt_action m;
  let '(ret, stats) := xdp_stats_record_action ctx action stats in Some (ret, m, stats).
End verdicts.

(** ** The programs *)

Definition xdpfilt_alw_all : features := mkF false true true true true true.
Definition xdpfilt_alw_eth : features := mkF false true false false false false.
Definition xdpfilt_alw_ip : features := mkF false false true true false false.
Definition xdpfilt_alw_tcp : features := mkF false false false false false true.
Definition xdpfilt_alw_udp : features := mkF false false false false true false.
Definition xdpfilt_dny_all : features := mkF true true true true true true.
Definition xdpfilt_dny_eth : features := mkF true true false false false false.
Definition xdpfilt_dny_ip : features := mkF true false true true false false.
Definition xdpfilt_dny_tcp : features := mkF true false false false false true.
Definition xdpfilt_dny_udp : features := mkF true false false false true false.
