(* ===== verification/XdpFilterCorrect.v ===== *)
(** * Correctness of the packet filter

    Safety and the effect on the maps for every program and packet, the relation
    between the allow and the deny programs, and the decision on TCP packets. *)

From stdpp Require Import gmap.
From S2P Require Import Prelude Packet ParsingHelpers XdpStats FilterParsers XdpFilter.

(** ** Rules *)

(** A map value is a counter above six flag bits; a rule matches when all bits
    of its mask are set. *)
Definition matches (value : option Z) (mask : Z) : bool :=
  match value with Some v => Z.land v mask =? mask | None => false end.

Definition bump (v : Z) : Z := u64 (v + 64).

Lemma check_value_spec value mask :
  check_value value mask = if matches value mask then bump <$> value else None.
Proof. destruct value as [v|]; [|done]. cbn. by destruct (_ =? mask). Qed.

(** The counter of one entry was incremented. *)
Inductive counted (m : filter_maps) : filter_maps → Prop :=
| counted_ports key v : aget (filter_ports m) key = Some v →
    counted m (mkFM (<[Z.to_nat key := bump v]> (filter_ports m)) (filter_ipv4 m) (filter_ipv6 m) (filter_ethernet m))
| counted_ipv4 key v : filter_ipv4 m !! key = Some v →
    counted m (mkFM (filter_ports m) (<[key := bump v]> (filter_ipv4 m)) (filter_ipv6 m) (filter_ethernet m))
| counted_ipv6 key v : filter_ipv6 m !! key = Some v →
    counted m (mkFM (filter_ports m) (filter_ipv4 m) (<[key := bump v]> (filter_ipv6 m)) (filter_ethernet m))
| counted_ethernet key v : filter_ethernet m !! key = Some v →
    counted m (mkFM (filter_ports m) (filter_ipv4 m) (filter_ipv6 m) (<[key := bump v]> (filter_ethernet m))).

Lemma check_value_counted value mask v :
  check_value value mask = Some v → ∃ v0, value = Some v0 ∧ v = bump v0.
Proof. rewrite check_value_spec. destruct value as [v0|]; [|done]. destruct (matches _ _); [|done]. intros [= <-]. eauto. Qed.

Lemma check_counted m m' :
  (∃ key mask, check_ports m key mask = Some m' ∨ (∃ key, check_ipv4 m key mask = Some m'
     ∨ check_ipv6 m key mask = Some m' ∨ check_ethernet m key mask = Some m')) → counted m m'.
Proof.
  intros (key & mask & [H|(key' & [H|[H|H]])]); unfold check_ports, check_ipv4, check_ipv6, check_ethernet in H;
    opt_inv H; subst m'; apply check_value_counted in E as (v & E & ->); by econstructor.
Qed.

(** The flag bits of an entry survive its counter, even when that wraps. *)
Lemma bump_flags v : 0 <= v → bump v mod 64 = v mod 64.
Proof. intros H. unfold bump, u64. nat_div. Qed.

Lemma hit_not_miss f : VERDICT_HIT f ≠ VERDICT_MISS f.
Proof. by destruct f as [[] ?????]. Qed.

(** ** Outcomes *)

Definition outcome (f : features) (m : filter_maps) (r : option (Z * filter_maps)) : Prop :=
  ∃ action m', r = Some (action, m')
    ∧ ((action = VERDICT_HIT f ∧ counted m m') ∨ ((action = VERDICT_MISS f ∨ action = XDP_ABORTED) ∧ m' = m)).

Lemma outcome_miss f m : outcome f m (Some (VERDICT_MISS f, m)).
Proof. eexists _, _. split; [done|]. auto. Qed.

Lemma outcome_ret f m ret rest : (0 <= ret → outcome f m rest) → outcome f m (CHECK_RET ret m rest).
Proof.
  intros H. unfold CHECK_RET. destruct (Z.ltb_spec ret 0); [|auto]. eexists _, _. split; [done|]. auto.
Qed.

Lemma outcome_verdict f on verdict m rest :
  (on = true → outcome f m (verdict m)) → outcome f m (rest m) → outcome f m (CHECK_VERDICT f on verdict m rest).
Proof.
  intros Hv Hr. unfold CHECK_VERDICT. destruct on; [|done]. destruct (Hv eq_refl) as (a & m' & -> & H).
  cbn [mbind option_bind]. destruct (Z.eqb_spec a (VERDICT_MISS f)) as [->|Hne]; cbn [negb].
  - destruct H as [[H _]|[_ ->]]; [by destruct (hit_not_miss f)|done].
  - eexists _, _. split; [done|]. auto.
Qed.

Lemma outcome_first_hit f m dst src :
  (∀ m', dst = Some m' → counted m m') → (∀ m', src = Some m' → counted m m') →
  outcome f m (Some (first_hit f m dst src)).
Proof.
  intros Hd Hs. unfold first_hit. destruct dst as [m'|]; [eexists _, _; split; [done|]; auto|].
  destruct src as [m'|]; eexists _, _; (split; [done|]); auto.
Qed.

(** ** Safety *)

Section safety.
Variable f : features.
Variable ctx : xdp_md.
Hypothesis Hok : md_ok ctx.

Lemma ports_outcome m dst src mask1 mask2 p q :
  xd_data ctx <= p → p + 2 <= xd_data_end ctx → xd_data ctx <= q → q + 2 <= xd_data_end ctx →
  dst = ld16 ctx p → src = ld16 ctx q →
  outcome f m (d ← dst; s ← src; Some (first_hit f m (check_ports m d mask1) (check_ports m s mask2))).
Proof.
  intros Hp Hp' Hq Hq' -> ->.
  destruct (ld16_in ctx p Hok) as (? & ? & _ & _ & _ & _ & ->); [lia..|].
  destruct (ld16_in ctx q Hok) as (? & ? & _ & _ & _ & _ & ->); [lia..|]. cbn [mbind option_bind].
  apply outcome_first_hit; intros m' H; apply check_counted; eexists _, _; left; exact H.
Qed.

Lemma addrs_outcome (check : filter_maps → list Z → Z → option filter_maps) m n p q :
  (∀ key mask m', check m key mask = Some m' → counted m m') →
  xd_data ctx <= p → p + Z.of_nat n <= xd_data_end ctx → xd_data ctx <= q → q + Z.of_nat n <= xd_data_end ctx →
  outcome f m (d ← ld_bytes ctx p n; s ← ld_bytes ctx q n;
    Some (first_hit f m (check m d MAP_FLAG_DST) (check m s MAP_FLAG_SRC))).
Proof.
  intros Hc Hp Hp' Hq Hq'. destruct (ld_bytes_in ctx p n Hp Hp') as (d & -> & _). destruct (ld_bytes_in ctx q n Hq Hq') as (s & -> & _).
  cbn [mbind option_bind]. apply outcome_first_hit; intros m'; apply Hc.
Qed.

Lemma transport_outcome ip_type nh m :
  xd_data ctx <= nh <= xd_data_end ctx → outcome f m (check_transport f ctx ip_type nh m).
Proof.
  intros Hnh. unfold check_transport.
  assert (∀ nh m, xd_data ctx <= nh <= xd_data_end ctx → outcome f m
    (if mode_tcp f && (ip_type =? IPPROTO_TCP) then
      '(ret, _, hdr) ← parse_tcphdr ctx nh (xd_data_end ctx);
      CHECK_RET ret m (tcphdr ← hdr; CHECK_VERDICT f true (λ m, lookup_verdict_tcp f ctx m tcphdr) m
        (λ m, Some (VERDICT_MISS f, m)))
    else Some (VERDICT_MISS f, m))) as Htcp.
  { intros nh' m' Hn. destruct (_ && _); [|apply outcome_miss].
    destruct (lib_parser_ok ctx nh' Hok Hn : ∃ ret pos hdr, parse_tcphdr ctx nh' (xd_data_end ctx) = _ ∧ _)
      as (ret & pos & hdr & -> & _ & H). cbn [mbind option_bind].
    apply outcome_ret. intros H0. destruct (H H0) as (-> & Hs & _). cbn [mbind option_bind].
    apply outcome_verdict; [|apply outcome_miss]. intros _.
    eapply (ports_outcome m' _ _ _ _ (nh' + 2) nh'); try reflexivity; lia. }
  destruct (mode_udp f && _); [|by apply Htcp].
  destruct (lib_parser_ok ctx nh Hok Hnh : ∃ ret pos hdr, parse_udphdr ctx nh (xd_data_end ctx) = _ ∧ _)
    as (ret & pos & hdr & -> & _ & H). cbn [mbind option_bind].
  apply outcome_ret. intros H0. destruct (H H0) as (-> & Hs & Hpos). cbn [mbind option_bind].
  apply outcome_verdict; [|apply Htcp; lia]. intros _.
  eapply (ports_outcome m _ _ _ _ (nh + 2) nh); try reflexivity; lia.
Qed.

Lemma network_outcome eth_type nh m :
  xd_data ctx <= nh <= xd_data_end ctx → outcome f m (check_network f ctx eth_type nh m).
Proof.
  intros Hnh. unfold check_network. destruct (_ =? _); [|destruct (_ =? _); [|apply outcome_miss]].
  - destruct (lib_parser_ok ctx nh Hok Hnh : ∃ ret pos hdr, parse_iphdr ctx nh (xd_data_end ctx) = _ ∧ _)
      as (ret & pos & hdr & -> & _ & H). cbn [mbind option_bind].
    apply outcome_ret. intros H0. destruct (H H0) as (-> & Hs & Hpos). cbn [mbind option_bind].
    apply outcome_verdict; [|apply transport_outcome; lia]. intros _.
    apply addrs_outcome; [|lia..]. intros key mask m' E. apply check_counted. exists 0, mask. right. eauto.
  - destruct (lib_parser_ok ctx nh Hok Hnh : ∃ ret pos hdr, parse_ip6hdr ctx nh (xd_data_end ctx) = _ ∧ _)
      as (ret & pos & hdr & -> & _ & H). cbn [mbind option_bind].
    apply outcome_ret. intros H0. destruct (H H0) as (-> & Hs & Hpos). cbn [mbind option_bind].
    apply outcome_verdict; [|apply transport_outcome; lia]. intros _.
    apply addrs_outcome; [|lia..]. intros key mask m' E. apply check_counted. exists 0, mask. right. eauto.
Qed.

Lemma action_outcome m : outcome f m (xdp_filt_action f ctx m).
Proof.
  unfold xdp_filt_action. assert (xd_data ctx <= xd_data ctx <= xd_data_end ctx) as Hn by (unfold xd_data_end; lia).
  destruct (lib_parser_ok ctx _ Hok Hn : ∃ ret pos hdr, parse_ethhdr ctx (xd_data ctx) (xd_data_end ctx) = _ ∧ _)
    as (ret & pos & hdr & -> & _ & H). cbn [mbind option_bind].
  apply outcome_ret. intros H0. destruct (H H0) as (-> & Hs & Hpos). cbn [mbind option_bind].
  apply outcome_verdict.
  - intros _. apply addrs_outcome; [|lia..]. intros key mask m' E. apply check_counted. exists 0, mask. right. eauto.
  - destruct (_ || _ || _ || _); [apply network_outcome; lia|apply outcome_miss].
Qed.
End safety.

(** ** The state *)

(** 65536 ports; all values are 64-bit. *)
Record maps_ok (m : filter_maps) : Prop := {
  mo_ports : zlen (filter_ports m) = 65536;
  mo_ports_range : Forall (λ v, 0 <= v < 2 ^ 64) (filter_ports m);
  mo_ipv4 : map_Forall (λ _ v, 0 <= v < 2 ^ 64) (filter_ipv4 m);
  mo_ipv6 : map_Forall (λ _ v, 0 <= v < 2 ^ 64) (filter_ipv6 m);
  mo_ethernet : map_Forall (λ _ v, 0 <= v < 2 ^ 64) (filter_ethernet m);
}.

Lemma filter_bump_range v : 0 <= bump v < 2 ^ 64.
Proof. apply u64_range. Qed.

Lemma counted_ok m m' : maps_ok m → counted m m' → maps_ok m'.
Proof.
  intros [H1 H2 H3 H4 H5] []; split; cbn; try done;
    try (by rewrite length_insert); try (by apply Forall_insert, filter_bump_range);
    by apply map_Forall_insert_2; [apply filter_bump_range|].
Qed.

(** The rules of a state: the flag bits of all entries. *)
Definition flags_of (m : filter_maps) : list Z * gmap (list Z) Z * gmap (list Z) Z * gmap (list Z) Z :=
  (map (λ v, v mod 64) (filter_ports m), (λ v, v mod 64) <$> filter_ipv4 m,
   (λ v, v mod 64) <$> filter_ipv6 m, (λ v, v mod 64) <$> filter_ethernet m).

Lemma fmap_insert_same (t : gmap (list Z) Z) key v v' :
  t !! key = Some v → v' mod 64 = v mod 64 → (λ v, v mod 64) <$> <[key := v']> t = (λ v, v mod 64) <$> t.
Proof.
  intros Hk Hv. rewrite fmap_insert. apply insert_id. by rewrite lookup_fmap, Hk, Hv.
Qed.

Lemma counted_flags m m' : maps_ok m → counted m m' → flags_of m' = flags_of m.
Proof.
  intros [H1 H2 H3 H4 H5] [key v Hk|key v Hk|key v Hk|key v Hk]; unfold flags_of; cbn [filter_ports filter_ipv4 filter_ipv6 filter_ethernet];
    [|by rewrite (fmap_insert_same _ key v) by (done || apply bump_flags; match goal with H : map_Forall _ ?t, Hk : ?t !! _ = _ |- _ => pose proof (H _ _ Hk) as Hv; cbv beta in Hv; lia end)..].
  pose proof (aget_range _ _ _ Hk). rewrite aget_to_nat in Hk by lia.
  assert (0 <= v < 2 ^ 64) as Hv by (by eapply (Forall_lookup_1 _ _ _ _ H2)).
  do 3 f_equal. rewrite <- (list_insert_id (map (λ v, v mod 64) (filter_ports m)) (Z.to_nat key) (v mod 64)).
  - rewrite <- (bump_flags v) by lia. apply (list_fmap_insert (λ v, v mod 64)).
  - rewrite list_lookup_fmap, Hk. done.
Qed.

(** C17: every program of the filter, on every packet and in every state of the
    maps, returns without an access outside the packet or the maps.  The action
    is the one for a hit, for a miss or [XDP_ABORTED].  With a hit exactly one
    entry was counted, otherwise the maps are unchanged; the maps stay well
    formed and no rule changes, even when a counter wraps; the packet is
    recorded under the action. *)
Theorem xdp_filt_invariant f ctx m stats :
  md_ok ctx → maps_ok m →
  ∃ action m', xdp_filt f ctx m stats =
      Some ((xdp_stats_record_action ctx action stats).1, m', (xdp_stats_record_action ctx action stats).2)
    ∧ ((action = VERDICT_HIT f ∧ counted m m') ∨ ((action = VERDICT_MISS f ∨ action = XDP_ABORTED) ∧ m' = m))
    ∧ maps_ok m' ∧ flags_of m' = flags_of m.
Proof.
  intros Hok Hm. destruct (action_outcome f ctx Hok m) as (action & m' & E & H). exists action, m'.
  unfold xdp_filt. rewrite E. cbn [mbind option_bind].
  destruct (xdp_stats_record_action ctx action stats). cbn. split_and!; [done|done| |].
  - destruct H as [[_ H]|[_ ->]]; [by eapply counted_ok|done].
  - destruct H as [[_ H]|[_ ->]]; [by apply counted_flags|done].
Qed.

(** ** Allow and deny *)

Definition flip (f : features) : features :=
  mkF (negb (mode_deny f)) (mode_ethernet f) (mode_ipv4 f) (mode_ipv6 f) (mode_udp f) (mode_tcp f).

(** Pass and drop exchanged. *)
Definition swap_action (a : Z) : Z :=
  if a =? XDP_PASS then XDP_DROP else if a =? XDP_DROP then XDP_PASS else a.

Lemma swap_action_twice a : swap_action (swap_action a) = a.
Proof.
  unfold swap_action, XDP_PASS, XDP_DROP. destruct (Z.eqb_spec a 2) as [->|H2]; [done|].
  destruct (Z.eqb_spec a 1) as [->|H1]; [done|]. by rewrite (proj2 (Z.eqb_neq a 2)), (proj2 (Z.eqb_neq a 1)).
Qed.

Definition swap_result : option (Z * filter_maps) → option (Z * filter_maps) :=
  fmap (λ r, (swap_action r.1, r.2)).

Lemma swap_verdicts f : swap_action (VERDICT_HIT f) = VERDICT_HIT (flip f)
  ∧ swap_action (VERDICT_MISS f) = VERDICT_MISS (flip f).
Proof. by destruct f as [[] ?????]. Qed.

Lemma swap_miss f m : swap_result (Some (VERDICT_MISS f, m)) = Some (VERDICT_MISS (flip f), m).
Proof. cbn. by rewrite (proj2 (swap_verdicts f)). Qed.

Lemma swap_first_hit f m dst src :
  (swap_action (first_hit f m dst src).1, (first_hit f m dst src).2) = first_hit (flip f) m dst src.
Proof.
  destruct (swap_verdicts f) as [H1 H2]. unfold first_hit. destruct dst; cbn [fst snd]; [by rewrite H1|].
  destruct src; cbn [fst snd]; by rewrite ?H1, ?H2.
Qed.

(** The five lookups: two loads, then the checks. *)
Lemma swap_lookup {A} f m (d s : option A) (check check' : A → option filter_maps) :
  swap_result (d ← d; s ← s; Some (first_hit f m (check d) (check' s)))
  = (d ← d; s ← s; Some (first_hit (flip f) m (check d) (check' s))).
Proof.
  destruct d as [d|]; [|done]. destruct s as [s|]; [|done]. cbn. by rewrite swap_first_hit.
Qed.

Lemma swap_ret m ret rest : swap_result (CHECK_RET ret m rest) = CHECK_RET ret m (swap_result rest).
Proof. unfold CHECK_RET. by destruct (ret <? 0). Qed.

Lemma swap_verdict f on verdict verdict' m rest rest' :
  (∀ m, swap_result (verdict m) = verdict' m) → (∀ m, swap_result (rest m) = rest' m) →
  swap_result (CHECK_VERDICT f on verdict m rest) = CHECK_VERDICT (flip f) on verdict' m rest'.
Proof.
  intros Hv Hr. unfold CHECK_VERDICT. destruct on; [|done]. rewrite <- Hv.
  destruct (verdict m) as [[a m']|]; [|done]. cbn [mbind option_bind swap_result fmap option_fmap option_map fst snd].
  rewrite <- (proj2 (swap_verdicts f)).
  assert ((swap_action a =? swap_action (VERDICT_MISS f)) = (a =? VERDICT_MISS f)) as ->.
  { destruct (Z.eqb_spec a (VERDICT_MISS f)) as [->|Hne]; [apply Z.eqb_refl|]. apply Z.eqb_neq.
    intros E. apply Hne. by rewrite <- (swap_action_twice a), E, swap_action_twice. }
  destruct (negb _); [done|apply Hr].
Qed.

(** A parsed header, the check of the result, and the rest. *)
Lemma swap_parsed m (r : option (Z * Z * option Z)) (rest rest' : Z → Z → Z → option (Z * filter_maps)) :
  (∀ ret pos h, swap_result (rest ret pos h) = rest' ret pos h) →
  swap_result ('(ret, pos, hdr) ← r; CHECK_RET ret m (h ← hdr; rest ret pos h))
  = ('(ret, pos, hdr) ← r; CHECK_RET ret m (h ← hdr; rest' ret pos h)).
Proof.
  intros H. destruct r as [[[ret pos] hdr]|]; [|done]. cbn [mbind option_bind]. rewrite swap_ret.
  f_equal. destruct hdr as [h|]; [apply H|done].
Qed.

Lemma swap_transport f ctx ip_type nh m :
  swap_result (check_transport f ctx ip_type nh m) = check_transport (flip f) ctx ip_type nh m.
Proof.
  assert (∀ nh m, swap_result (if mode_tcp f && (ip_type =? IPPROTO_TCP) then
      '(ret, _, hdr) ← parse_tcphdr ctx nh (xd_data_end ctx);
      CHECK_RET ret m (tcphdr ← hdr; CHECK_VERDICT f true (λ m, lookup_verdict_tcp f ctx m tcphdr) m
        (λ m, Some (VERDICT_MISS f, m))) else Some (VERDICT_MISS f, m))
    = if mode_tcp f && (ip_type =? IPPROTO_TCP) then
      '(ret, _, hdr) ← parse_tcphdr ctx nh (xd_data_end ctx);
      CHECK_RET ret m (tcphdr ← hdr; CHECK_VERDICT (flip f) true (λ m, lookup_verdict_tcp (flip f) ctx m tcphdr) m
        (λ m, Some (VERDICT_MISS (flip f), m))) else Some (VERDICT_MISS (flip f), m)) as Htcp.
  { intros nh' m'. destruct (_ && _); [|apply swap_miss].
    refine (swap_parsed m' _ (λ _ _ h, _) (λ _ _ h, _) _). intros _ _ h.
    apply swap_verdict; [|intros; apply swap_miss]. intros m''. refine (swap_lookup f m'' _ _ (λ d, _) (λ s, _)). }
  unfold check_transport. cbn [mode_tcp mode_udp flip]. destruct (mode_udp f && _); [|apply Htcp].
  refine (swap_parsed m _ (λ _ pos h, _) (λ _ pos h, _) _). intros _ pos h.
  apply swap_verdict; [|intros; apply Htcp]. intros m'. refine (swap_lookup f m' _ _ (λ d, _) (λ s, _)).
Qed.

Lemma swap_network f ctx eth_type nh m :
  swap_result (check_network f ctx eth_type nh m) = check_network (flip f) ctx eth_type nh m.
Proof.
  unfold check_network. cbn [mode_ipv4 mode_ipv6 flip].
  destruct (_ =? _); [|destruct (_ =? _); [|apply swap_miss]].
  - refine (swap_parsed m _ (λ ty pos h, _) (λ ty pos h, _) _). intros ty pos h.
    apply swap_verdict; [|apply swap_transport]. intros m'. refine (swap_lookup f m' _ _ (λ d, _) (λ s, _)).
  - refine (swap_parsed m _ (λ ty pos h, _) (λ ty pos h, _) _). intros ty pos h.
    apply swap_verdict; [|apply swap_transport]. intros m'. refine (swap_lookup f m' _ _ (λ d, _) (λ s, _)).
Qed.

(** C18: the allow and the deny program with the same features take opposite
    decisions on every packet and in every state: one drops what the other
    passes, both abort the same packets, and they count the same entries. *)
Theorem allow_deny_opposite f ctx m :
  xdp_filt_action (flip f) ctx m = swap_result (xdp_filt_action f ctx m).
Proof.
  symmetry. unfold xdp_filt_action. cbn [mode_ethernet mode_ipv4 mode_ipv6 mode_udp mode_tcp flip].
  refine (swap_parsed m _ (λ ty pos h, _) (λ ty pos h, _) _). intros ty pos h. apply swap_verdict.
  - intros m'. refine (swap_lookup f m' _ _ (λ d, _) (λ s, _)).
  - intros m'. destruct (_ || _ || _ || _); [apply swap_network|apply swap_miss].
Qed.

(** ** The decision on a TCP packet *)

Definition has {A} (o : option A) : bool := match o with Some _ => true | None => false end.

Lemma check_has m :
  (∀ key mask, has (check_ports m key mask) = matches (aget (filter_ports m) key) mask)
  ∧ (∀ key mask, has (check_ipv4 m key mask) = matches (filter_ipv4 m !! key) mask)
  ∧ (∀ key mask, has (check_ethernet m key mask) = matches (filter_ethernet m !! key) mask).
Proof.
  unfold check_ports, check_ipv4, check_ethernet. split_and!; intros key mask; rewrite check_value_spec;
    match goal with |- context [matches ?o mask] => destruct (matches o mask) eqn:E; [|done]; by destruct o end.
Qed.

(** One guarded check: it decides, or the rest runs in the same state. *)
Lemma check_step f on verdict m rest dst src :
  (on = true → verdict m = Some (first_hit f m dst src)) →
  ∃ m', CHECK_VERDICT f on verdict m rest
    = if on && (has dst || has src) then Some (VERDICT_HIT f, m') else rest m.
Proof.
  intros H. unfold CHECK_VERDICT. destruct on; [|by exists m]. rewrite H by done. unfold first_hit.
  pose proof (hit_not_miss f) as Hn. apply Z.eqb_neq in Hn.
  destruct dst as [m'|]; [|destruct src as [m'|]]; cbn [has mbind option_bind andb orb].
  - exists m'. by rewrite Hn.
  - exists m'. by rewrite Hn.
  - exists m. by rewrite Z.eqb_refl.
Qed.

(** An untagged frame with an IPv4 and a TCP header; [b0] is version and header
    length, [off] the byte with the TCP data offset. *)
Record tcp_packet : Type := mkTcp {
  t_dmac : list Z; t_smac : list Z; t_b0 : Z; t_h1 : list Z; t_h2 : list Z; t_saddr : list Z; t_daddr : list Z;
  t_opts : list Z; t_sport : Z; t_dport : Z; t_seq : list Z; t_off : Z; t_rest : list Z;
}.

Definition tcp_bytes (p : tcp_packet) : list Z :=
  t_dmac p ++ t_smac p ++ be16 ETH_P_IP ++ t_b0 p :: t_h1 p ++ IPPROTO_TCP :: t_h2 p ++ t_saddr p ++ t_daddr p
  ++ t_opts p ++ be16 (t_sport p) ++ be16 (t_dport p) ++ t_seq p ++ t_off p :: t_rest p.

Record tcp_ok (p : tcp_packet) : Prop := {
  to_macs : length (t_dmac p) = 6%nat ∧ length (t_smac p) = 6%nat;
  to_ip : length (t_h1 p) = 8%nat ∧ length (t_h2 p) = 2%nat ∧ length (t_saddr p) = 4%nat ∧ length (t_daddr p) = 4%nat;
  to_ihl : Z.land (t_b0 p) 15 * 4 = 20 + zlen (t_opts p);
  to_ports : 0 <= t_sport p < 2 ^ 16 ∧ 0 <= t_dport p < 2 ^ 16;
  to_seq : length (t_seq p) = 8%nat;
  to_off : 7 <= zlen (t_rest p) ∧ Z.land (Z.shiftr (t_off p) 4) 15 * 4 <= 13 + zlen (t_rest p);
}.

(** The rules that apply to the packet. *)
Definition tcp_hit (f : features) (m : filter_maps) (p : tcp_packet) : bool :=
  (mode_ethernet f && (matches (filter_ethernet m !! t_dmac p) 2 || matches (filter_ethernet m !! t_smac p) 1))
  || (mode_ipv4 f && (matches (filter_ipv4 m !! t_daddr p) 2 || matches (filter_ipv4 m !! t_saddr p) 1))
  || (mode_tcp f && (matches (aget (filter_ports m) (bpf_htons (t_dport p))) 6
                     || matches (aget (filter_ports m) (bpf_htons (t_sport p))) 5)).

Section tcp.
Variable ctx : xdp_md.
Variable p : tcp_packet.
Hypothesis Hb : xd_bytes ctx = tcp_bytes p.
Hypothesis Hp : tcp_ok p.

Ltac tcp_lengths := destruct Hp as [[? ?] (? & ? & ? & ?) ? [? ?] ? [? ?]].

Lemma tcp_end : xd_data_end ctx = xd_data ctx + 34 + zlen (t_opts p) + 13 + zlen (t_rest p).
Proof.
  tcp_lengths. unfold xd_data_end. rewrite Hb. unfold tcp_bytes.
  repeat (rewrite ?length_app; cbn [length]). rewrite !be16_length. lia.
Qed.

Lemma tcp_eth : parse_ethhdr ctx (xd_data ctx) (xd_data_end ctx) = Some (bpf_htons ETH_P_IP, xd_data ctx + 14, Some (xd_data ctx)).
Proof.
  pose proof tcp_end. tcp_lengths. unfold parse_ethhdr, sizeof_ethhdr. rewrite (proj2 (Z.ltb_ge _ _)) by lia.
  erewrite (ld16_field ctx (t_dmac p ++ t_smac p) ETH_P_IP);
    [|rewrite Hb; unfold tcp_bytes; by rewrite <- app_assoc|unfold ETH_P_IP; lia|rewrite length_app; lia].
  cbn [mbind option_bind]. reflexivity.
Qed.

Lemma tcp_ip : FilterParsers.parse_iphdr ctx (xd_data ctx + 14) (xd_data_end ctx)
  = Some (IPPROTO_TCP, xd_data ctx + 34 + zlen (t_opts p), Some (xd_data ctx + 14)).
Proof.
  pose proof tcp_end. tcp_lengths. unfold FilterParsers.parse_iphdr, sizeof_iphdr. rewrite (proj2 (Z.ltb_ge _ _)) by lia.
  erewrite (ld8_at ctx (t_dmac p ++ t_smac p ++ be16 ETH_P_IP) (t_b0 p) _ (xd_data ctx + 14));
    [|rewrite Hb; unfold tcp_bytes; by rewrite <- !app_assoc|rewrite !length_app, be16_length; lia].
  cbn [mbind option_bind]. rewrite (proj2 (Z.ltb_ge _ _)) by lia.
  erewrite (ld8_at ctx (t_dmac p ++ t_smac p ++ be16 ETH_P_IP ++ t_b0 p :: t_h1 p) IPPROTO_TCP _ (xd_data ctx + 14 + 9));
    [|rewrite Hb; unfold tcp_bytes; repeat (rewrite <- ?app_assoc; cbn [app]); reflexivity
     |repeat (rewrite ?length_app; cbn [length]); rewrite be16_length; lia].
  cbn [mbind option_bind]. do 3 f_equal. lia.
Qed.

Lemma tcp_tcp : exists len, 0 <= len ∧
  FilterParsers.parse_tcphdr ctx (xd_data ctx + 34 + zlen (t_opts p)) (xd_data_end ctx)
  = Some (len, xd_data ctx + 54 + zlen (t_opts p), Some (xd_data ctx + 34 + zlen (t_opts p))).
Proof.
  pose proof tcp_end. tcp_lengths. unfold FilterParsers.parse_tcphdr, sizeof_tcphdr. rewrite (proj2 (Z.ltb_ge _ _)) by lia.
  erewrite (ld8_at ctx (t_dmac p ++ t_smac p ++ be16 ETH_P_IP ++ t_b0 p :: t_h1 p ++ IPPROTO_TCP :: t_h2 p ++ t_saddr p
      ++ t_daddr p ++ t_opts p ++ be16 (t_sport p) ++ be16 (t_dport p) ++ t_seq p) (t_off p) _ (xd_data ctx + 34 + zlen (t_opts p) + 12));
    [|rewrite Hb; unfold tcp_bytes; repeat (rewrite <- ?app_assoc; cbn [app]); reflexivity
     |repeat (rewrite ?length_app; cbn [length]); rewrite !be16_length; lia].
  cbn [mbind option_bind]. pose proof (land15 (Z.shiftr (t_off p) 4)). rewrite (proj2 (Z.ltb_ge _ _)) by lia.
  eexists. split; [|do 3 f_equal; lia]. lia.
Qed.

Lemma tcp_ports : ld16 ctx (xd_data ctx + 34 + zlen (t_opts p) + 2) = Some (bpf_htons (t_dport p))
  ∧ ld16 ctx (xd_data ctx + 34 + zlen (t_opts p)) = Some (bpf_htons (t_sport p)).
Proof.
  tcp_lengths. set (pre := t_dmac p ++ t_smac p ++ be16 ETH_P_IP ++ t_b0 p :: t_h1 p ++ IPPROTO_TCP :: t_h2 p ++ t_saddr p
    ++ t_daddr p ++ t_opts p).
  assert (zlen pre = 34 + zlen (t_opts p)) as Hpre
    by (unfold pre; repeat (rewrite ?length_app; cbn [length]); rewrite !be16_length; lia).
  assert (xd_bytes ctx = pre ++ be16 (t_sport p) ++ be16 (t_dport p) ++ t_seq p ++ t_off p :: t_rest p) as Hpb
    by (rewrite Hb; unfold tcp_bytes, pre; repeat (rewrite <- ?app_assoc; cbn [app]); reflexivity).
  split.
  - eapply (ld16_field ctx (pre ++ be16 (t_sport p))); [rewrite Hpb; by rewrite <- !app_assoc|done|].
    rewrite length_app, be16_length. lia.
  - eapply (ld16_field ctx pre); [exact Hpb|done|lia].
Qed.

Lemma tcp_addresses :
  ld_bytes ctx (xd_data ctx) 6 = Some (t_dmac p) ∧ ld_bytes ctx (xd_data ctx + 6) 6 = Some (t_smac p)
  ∧ ld_bytes ctx (xd_data ctx + 14 + 16) 4 = Some (t_daddr p) ∧ ld_bytes ctx (xd_data ctx + 14 + 12) 4 = Some (t_saddr p).
Proof.
  tcp_lengths. split_and!.
  - eapply (ld_bytes_at ctx []); [rewrite Hb; reflexivity|cbn; lia|done].
  - eapply (ld_bytes_at ctx (t_dmac p)); [rewrite Hb; reflexivity|lia|done].
  - eapply (ld_bytes_at ctx (t_dmac p ++ t_smac p ++ be16 ETH_P_IP ++ t_b0 p :: t_h1 p ++ IPPROTO_TCP :: t_h2 p ++ t_saddr p));
      [rewrite Hb; unfold tcp_bytes; repeat (rewrite <- ?app_assoc; cbn [app]); reflexivity
      |repeat (rewrite ?length_app; cbn [length]); rewrite !be16_length; lia|done].
  - eapply (ld_bytes_at ctx (t_dmac p ++ t_smac p ++ be16 ETH_P_IP ++ t_b0 p :: t_h1 p ++ IPPROTO_TCP :: t_h2 p));
      [rewrite Hb; unfold tcp_bytes; repeat (rewrite <- ?app_assoc; cbn [app]); reflexivity
      |repeat (rewrite ?length_app; cbn [length]); rewrite !be16_length; lia|done].
Qed.
End tcp.

(** C19: the decision of a filter program on a TCP packet over IPv4: the action
    is the one for a hit exactly when a rule of a selected feature matches the
    destination or source address of the frame, of the IP header, or a port
    with the flag for TCP; otherwise it is the one for a miss. *)
Theorem filter_tcp_decision f m ctx p :
  xd_bytes ctx = tcp_bytes p → tcp_ok p →
  ∃ m', xdp_filt_action f ctx m = Some (if tcp_hit f m p then VERDICT_HIT f else VERDICT_MISS f, m').
Proof.
  intros Hb Hp. destruct (check_has m) as (Hports & Hipv4 & Heth).
  destruct (tcp_addresses ctx p Hb Hp) as (Ea & Eb & Ec & Ed). destruct (tcp_ports ctx p Hb Hp) as [Ee Ef].
  unfold xdp_filt_action. rewrite (tcp_eth ctx p Hb Hp). cbn [mbind option_bind]. unfold CHECK_RET at 1.
  rewrite (proj2 (Z.ltb_ge _ 0)) by apply bpf_htons_nonneg. cbn [mbind option_bind].
  destruct (check_step f (mode_ethernet f) (λ m, lookup_verdict_ethernet f ctx m (xd_data ctx)) m
    (λ m, if mode_ipv4 f || mode_ipv6 f || mode_tcp f || mode_udp f
          then check_network f ctx (bpf_htons ETH_P_IP) (xd_data ctx + 14) m else Some (VERDICT_MISS f, m))
    (check_ethernet m (t_dmac p) MAP_FLAG_DST) (check_ethernet m (t_smac p) MAP_FLAG_SRC)) as [m1 ->].
  { intros _. unfold lookup_verdict_ethernet. by rewrite Ea, Eb. }
  rewrite !Heth. unfold tcp_hit. change MAP_FLAG_DST with 2. change MAP_FLAG_SRC with 1.
  destruct (mode_ethernet f && _); [by eexists|]. cbn [orb].
  destruct (mode_ipv4 f || mode_ipv6 f || mode_tcp f || mode_udp f) eqn:Em.
  2: { apply orb_false_iff in Em as [Em _]. apply orb_false_iff in Em as [Em ->].
       apply orb_false_iff in Em as [-> _]. by eexists. }
  unfold check_network. rewrite Z.eqb_refl, (tcp_ip ctx p Hb Hp). cbn [mbind option_bind]. unfold CHECK_RET at 1.
  change (IPPROTO_TCP <? 0) with false. cbn [mbind option_bind].
  destruct (check_step f (mode_ipv4 f) (λ m, lookup_verdict_ipv4 f ctx m (xd_data ctx + 14)) m
    (check_transport f ctx IPPROTO_TCP (xd_data ctx + 34 + zlen (t_opts p)))
    (check_ipv4 m (t_daddr p) MAP_FLAG_DST) (check_ipv4 m (t_saddr p) MAP_FLAG_SRC)) as [m2 ->].
  { intros _. unfold lookup_verdict_ipv4. by rewrite Ec, Ed. }
  rewrite !Hipv4. change MAP_FLAG_DST with 2. change MAP_FLAG_SRC with 1.
  destruct (mode_ipv4 f && _); [by eexists|]. cbn [orb]. unfold check_transport.
  change (IPPROTO_TCP =? IPPROTO_UDP) with false. change (IPPROTO_TCP =? IPPROTO_TCP) with true. rewrite andb_false_r, andb_true_r.
  destruct (mode_tcp f); [|by eexists]. destruct (tcp_tcp ctx p Hb Hp) as (len & Hlen & ->). cbn [mbind option_bind andb].
  unfold CHECK_RET. rewrite (proj2 (Z.ltb_ge len 0)) by done. cbn [mbind option_bind].
  destruct (check_step f true (λ m, lookup_verdict_tcp f ctx m (xd_data ctx + 34 + zlen (t_opts p))) m
    (λ m, Some (VERDICT_MISS f, m)) (check_ports m (bpf_htons (t_dport p)) 6) (check_ports m (bpf_htons (t_sport p)) 5))
    as [m3 ->].
  { intros _. unfold lookup_verdict_tcp. by rewrite Ee, Ef. }
  rewrite !Hports. cbn [andb]. match goal with |- context [if ?b then Some _ else _] => destruct b end; by eexists.
Qed.

(** ** Witnesses *)

Definition empty_maps : filter_maps := mkFM (replicate (Z.to_nat 65536) 0) ∅ ∅ ∅.

Lemma empty_maps_ok : maps_ok empty_maps.
Proof.
  split; cbn [filter_ports filter_ipv4 filter_ipv6 filter_ethernet empty_maps].
  - rewrite length_replicate. lia.
  - apply Forall_replicate. lia.
  - apply map_Forall_empty.
  - apply map_Forall_empty.
  - apply map_Forall_empty.
Qed.

Lemma xdp_filt_invariant_witness :
  ∃ action m', xdp_filt xdpfilt_dny_all ipv4_md empty_maps [] =
      Some ((xdp_stats_record_action ipv4_md action []).1, m', (xdp_stats_record_action ipv4_md action []).2)
    ∧ ((action = 2 ∧ counted empty_maps m') ∨ ((action = 1 ∨ action = 0) ∧ m' = empty_maps))
    ∧ maps_ok m' ∧ flags_of m' = flags_of empty_maps.
Proof. apply (xdp_filt_invariant xdpfilt_dny_all ipv4_md empty_maps []); [apply ipv4_md_ok|apply empty_maps_ok]. Defined.

(** A packet to port 80, and a state with one rule for destination port 80. *)
Definition web_packet : tcp_packet :=
  mkTcp (replicate 6 1) (replicate 6 2) 0x45 (replicate 8 0) [0; 0] [10; 0; 0; 1] [10; 0; 0; 2] [] 40000 80
    (replicate 8 0) 0x50 (replicate 7 0).

Definition web_maps : filter_maps := mkFM (replicate (Z.to_nat 20480) 0 ++ [6]) ∅ ∅ ∅.

Lemma filter_tcp_decision_witness :
  ∃ m', xdp_filt_action xdpfilt_dny_all (mkMd 0 (tcp_bytes web_packet)) web_maps
    = Some (if tcp_hit xdpfilt_dny_all web_maps web_packet then XDP_PASS else XDP_DROP, m').
Proof.
  apply (filter_tcp_decision xdpfilt_dny_all web_maps (mkMd 0 (tcp_bytes web_packet)) web_packet); [reflexivity|].
  split; cbn; (repeat split); (lia || reflexivity).
Defined.

Lemma web_packet_hit : tcp_hit xdpfilt_dny_all web_maps web_packet = true.
Proof. vm_compute. reflexivity. Qed.
