(* ===== verification/Hashmap.v ===== *)
(** * The hash map of libbpf ([lib/libbpf/src/hashmap.c], [hashmap.h])

    A map of [long] keys to [long] values with chained buckets.  The entries
    live in a heap, a finite map from addresses to entries; 0 is the null
    pointer, and reading through a pointer that is not allocated is a fault.  A
    pointer to a pointer ([pprev]) is a [slot].  The bucket array belongs to the
    map.  [hash_fn] and [equal_fn] are the functions given to [hashmap__init];
    what [malloc] and [calloc] return is a parameter.  The blocks besides the
    entries that are freed when a map is cleared or freed are listed; the old
    array that [hashmap_grow] frees is replaced in the map. *)

From stdpp Require Import gmap.
From S2P Require Import Prelude.

Definition EEXIST : Z := 17.
Definition ENOENT : Z := 2.
Definition ENOMEM : Z := 12.

Definition HASHMAP_MIN_CAP_BITS : Z := 2.

(** [hash_bits], the 64-bit case. *)
Definition hash_bits (h bits : Z) : Z :=
  if bits =? 0 then 0 else Z.shiftr (u64 (h * 11400714819323198485)) (64 - bits).

(** [str_hash] on the bytes before the NUL; [char] is signed. *)
Definition str_hash (s : list Z) : Z :=
  foldl (λ h c, u64 (h * 31 + (if c <? 128 then c else c - 256))) 0 s.

Record hashmap_entry : Type := mkE { e_key : Z; e_value : Z; e_next : Z }.
Abbreviation heap := (gmap Z hashmap_entry).

(** [buckets] is [None] for NULL. *)
Record hashmap : Type := mkH { buckets : option (list Z); cap : Z; cap_bits : Z; sz : Z }.

Inductive hashmap_insert_strategy : Type :=
| HASHMAP_ADD
| HASHMAP_SET
| HASHMAP_UPDATE
| HASHMAP_APPEND.

(** What a [struct hashmap_entry **] points to. *)
Inductive slot : Type :=
| Bucket (i : Z)
| NextOf (p : Z).

Definition read_slot (bs : list Z) (h : heap) (s : slot) : option Z :=
  match s with Bucket i => aget bs i | NextOf p => e ← h !! p; Some (e_next e) end.

Definition set_next (h : heap) (p v : Z) : option heap :=
  e ← h !! p; Some (<[p := mkE (e_key e) (e_value e) v]> h).

Definition write_slot (bs : list Z) (h : heap) (s : slot) (v : Z) : option (list Z * heap) :=
  match s with
  | Bucket i => bs ← aset bs i v; Some (bs, h)
  | NextOf p => h ← set_next h p v; Some (bs, h)
  end.

Definition hashmap_add_entry (bs : list Z) (h : heap) (pprev : slot) (entry : Z) : option (list Z * heap) :=
  first ← read_slot bs h pprev;
  h ← set_next h entry first;
  write_slot bs h pprev entry.

Definition hashmap_del_entry (bs : list Z) (h : heap) (pprev : slot) (entry : Z) : option (list Z * heap) :=
  e ← h !! entry;
  '(bs, h) ← write_slot bs h pprev (e_next e);
  h ← set_next h entry 0;
  Some (bs, h).

Definition hashmap__init : hashmap := mkH None 0 0 0.

Definition hashmap__size (m : hashmap) : Z := sz m.
Definition hashmap__capacity (m : hashmap) : Z := cap m.

Definition hashmap_needs_to_grow (m : hashmap) : bool :=
  (cap m =? 0) || (cap m <? u64 (u64 (sz m + 1) * 4) / 3).

(** The loops follow chains of distinct entries: the number of entries of the
    heap bounds them. *)
Definition chain_fuel (h : heap) : nat := S (size h).

(** [hashmap__for_each_entry_safe]: the successor is read before the body. *)
Definition each_body {T} (get_heap : T → heap) (body : Z → T → option T) (s : Z * T) : option (ctl (Z * T)) :=
  let '(cur, t) := s in
  if cur =? 0 then Some (Break s) else
  e ← get_heap t !! cur;
  let tmp := e_next e in
  t ← body cur t;
  Some (Next (tmp, t)).

Definition each_bucket {T} (bs : list Z) (fuel : nat) (get_heap : T → heap) (body : Z → T → option T) (bkt : Z) (t : T)
    : option (ctl T) :=
  cur ← aget bs bkt;
  s ← while_loop fuel (each_body get_heap body) (cur, t);
  Some (Next s.2).

Definition for_each_entry_safe {T} (m : hashmap) (fuel : nat) (get_heap : T → heap) (body : Z → T → option T) (t : T)
    : option T :=
  for_loop 0 (cap m) (each_bucket (default [] (buckets m)) fuel get_heap body) t.

Definition free (h : heap) (p : Z) : heap := delete p h.

(** The pointers other than to entries that are given to [free]: the array of
    buckets and the map itself. *)
Inductive map_block : Type :=
| Buckets
| MapStruct.

(** The map, the heap and what was freed besides the entries. *)
Definition hashmap__clear (m : hashmap) (h : heap) : option (hashmap * heap * list map_block) :=
  h ← for_each_entry_safe m (chain_fuel h) id (λ cur h, Some (free h cur)) h;
  Some (mkH None 0 0 0, h, [Buckets]).

(** The map structure itself is not in the heap of entries: [allocated] says
    whether [malloc] gave it; the result is the map or an error. *)
Definition hashmap__new (allocated : bool) : Z + hashmap :=
  if negb allocated then inl (- ENOMEM) else inr hashmap__init.

(** [map] is NULL, an error or a map; a map is given back to the allocator. *)
Definition hashmap__free (map : option (Z + hashmap)) (h : heap) : option (heap * list map_block) :=
  match map with
  | Some (inr m) => '(_, h, freed) ← hashmap__clear m h; Some (h, freed ++ [MapStruct])
  | _ => Some (h, [])
  end.

Section hashmap.
Variable hash_fn : Z → Z.
Variable equal_fn : Z → Z → bool.
Variable malloc : heap → option Z.
Variable calloc : Z → bool.

(** The body of the loop of [hashmap_grow]. *)
Definition grow_body (new_cap_bits : Z) (cur : Z) (t : list Z * heap) : option (list Z * heap) :=
  let '(new_buckets, h) := t in
  e ← h !! cur;
  let i := hash_bits (hash_fn (e_key e)) new_cap_bits in
  hashmap_add_entry new_buckets h (Bucket i) cur.

Definition hashmap_grow (m : hashmap) (h : heap) : option (Z * hashmap * heap) :=
  let new_cap_bits := cap_bits m + 1 in
  let new_cap_bits := if new_cap_bits <? HASHMAP_MIN_CAP_BITS then HASHMAP_MIN_CAP_BITS else new_cap_bits in
  let new_cap := Z.shiftl 1 new_cap_bits in
  if negb (calloc new_cap) then Some (- ENOMEM, m, h) else
  '(new_buckets, h) ← for_each_entry_safe m (chain_fuel h) snd (grow_body new_cap_bits)
                        (replicate (Z.to_nat new_cap) 0, h);
  Some (0, mkH (Some new_buckets) new_cap new_cap_bits (sz m), h).

(** The loop of [hashmap_find_entry] on [(prev_ptr, cur)]. *)
Definition find_body (h : heap) (key : Z) (s : slot * Z) : option (ctl (slot * Z)) :=
  let '(prev_ptr, cur) := s in
  if cur =? 0 then Some (Break s) else
  e ← h !! cur;
  if equal_fn (e_key e) key then Some (Break s) else Some (Next (NextOf cur, e_next e)).

(** The result is [None] inside for [false], else [*pprev] and [*entry]. *)
Definition hashmap_find_entry (m : hashmap) (h : heap) (key hash : Z) : option (option (slot * Z)) :=
  match buckets m with
  | None => Some None
  | Some bs =>
      cur ← aget bs hash;
      '(prev_ptr, cur) ← while_loop (chain_fuel h) (find_body h key) (Bucket hash, cur);
      Some (if cur =? 0 then None else Some (prev_ptr, cur))
  end.

(** [*old_key] and [*old_value], which are written in every case. *)
Record insert_result : Type := mkI {
  i_ret : Z; i_old_key : Z; i_old_value : Z; i_map : hashmap; i_heap : heap;
}.

(** From [if (hashmap_needs_to_grow(map))] on. *)
Definition insert_new (m : hashmap) (h : heap) (key value : Z) : option insert_result :=
  '(err, m, h) ← (if hashmap_needs_to_grow m then hashmap_grow m h else Some (0, m, h));
  if negb (err =? 0) then Some (mkI err 0 0 m h) else
  let i := hash_bits (hash_fn key) (cap_bits m) in
  match malloc h with
  | None => Some (mkI (- ENOMEM) 0 0 m h)
  | Some entry =>
      let h := <[entry := mkE key value 0]> h in
      bs ← buckets m;
      '(bs, h) ← hashmap_add_entry bs h (Bucket i) entry;
      Some (mkI 0 0 0 (mkH (Some bs) (cap m) (cap_bits m) (u64 (sz m + 1))) h)
  end.

Definition hashmap_insert (m : hashmap) (h : heap) (key value : Z) (strategy : hashmap_insert_strategy)
    : option insert_result :=
  let i := hash_bits (hash_fn key) (cap_bits m) in
  found ← (match strategy with HASHMAP_APPEND => Some None | _ => hashmap_find_entry m h key i end);
  match found with
  | Some (_, entry) =>
      e ← h !! entry;
      match strategy with
      | HASHMAP_ADD => Some (mkI (- EEXIST) (e_key e) (e_value e) m h)
      | _ => Some (mkI 0 (e_key e) (e_value e) m (<[entry := mkE key value (e_next e)]> h))
      end
  | None =>
      match strategy with
      | HASHMAP_UPDATE => Some (mkI (- ENOENT) 0 0 m h)
      | _ => insert_new m h key value
      end
  end.

(** [None] inside for [false], else [*value]. *)
Definition hashmap_find (m : hashmap) (h : heap) (key : Z) : option (option Z) :=
  let i := hash_bits (hash_fn key) (cap_bits m) in
  found ← hashmap_find_entry m h key i;
  match found with
  | None => Some None
  | Some (_, entry) => e ← h !! entry; Some (Some (e_value e))
  end.

(** [None] inside for [false], else [*old_key] and [*old_value]. *)
Definition hashmap_delete (m : hashmap) (h : heap) (key : Z) : option (option (Z * Z) * hashmap * heap) :=
  let i := hash_bits (hash_fn key) (cap_bits m) in
  found ← hashmap_find_entry m h key i;
  match found with
  | None => Some (None, m, h)
  | Some (pprev, entry) =>
      e ← h !! entry;
      bs ← buckets m;
      '(bs, h) ← hashmap_del_entry bs h pprev entry;
      Some (Some (e_key e, e_value e), mkH (Some bs) (cap m) (cap_bits m) (u64 (sz m - 1)), free h entry)
  end.
End hashmap.
