(* ===== verification/HashmapCorrect.v ===== *)
(** * Correctness of the hash map

    [rep] relates a map and its heap to the chains of entries it holds.  Every
    operation keeps it, and acts on the entries of a key as on a list: that is
    the specification of a multimap, of which a map without equal keys is the
    special case.  An insertion fails only when a request it makes is refused. *)

From stdpp Require Import gmap.
From S2P Require Import Prelude Hashmap.

(** ** Chains *)

(** An entry of a chain: its address, key and value. *)
Abbreviation centry := (Z * Z * Z)%type.
Abbreviation addr e := (e.1.1).
Abbreviation ekey e := (e.1.2).
Abbreviation evalue e := (e.2).

Fixpoint chain (h : heap) (p : Z) (es : list centry) : Prop :=
  match es with
  | [] => p = 0
  | (a, k, v) :: es' => p = a ∧ a ≠ 0 ∧ ∃ next, h !! a = Some (mkE k v next) ∧ chain h next es'
  end.

Definition addrs (es : list centry) : list Z := map (λ e, addr e) es.

Lemma chain_frame h h' p es :
  chain h p es → (∀ a, In a (addrs es) → h' !! a = h !! a) → chain h' p es.
Proof.
  revert p. induction es as [|[[a k] v] es IH]; intros p Hc Hf; [done|]. cbn in *.
  destruct Hc as (-> & Ha & next & Hl & Hc). split_and!; [done|done|]. exists next.
  rewrite Hf by auto. split; [done|]. apply IH; auto.
Qed.

Lemma chain_insert_ne h p es a e : chain h p es → ¬ In a (addrs es) → chain (<[a := e]> h) p es.
Proof. intros Hc Ha. apply (chain_frame h); [done|]. intros b Hb. apply lookup_insert_ne. congruence. Qed.

Lemma chain_delete_ne h p es a : chain h p es → ¬ In a (addrs es) → chain (delete a h) p es.
Proof. intros Hc Ha. apply (chain_frame h); [done|]. intros b Hb. apply lookup_delete_ne. congruence. Qed.

Lemma chain_lookup h p es e : chain h p es → In e es → ∃ next, h !! addr e = Some (mkE (ekey e) (evalue e) next) ∧ addr e ≠ 0.
Proof.
  revert p. induction es as [|[[a k] v] es IH]; intros p Hc He; [done|]. cbn in Hc.
  destruct Hc as (-> & Ha & next & Hl & Hc). destruct He as [<-|He]; [by exists next|by eapply IH].
Qed.

(** Entries without repetition fit in the heap. *)
Lemma chain_fuel_ok (h : heap) es :
  NoDup (addrs es) → (∀ e, In e es → is_Some (h !! addr e)) → (length es < chain_fuel h)%nat.
Proof.
  intros Hn Hin. unfold chain_fuel. rewrite <- (length_map (λ e : centry, addr e)). fold (addrs es).
  rewrite <- (size_list_to_set (C := gset Z)) by done.
  rewrite <- (size_dom (D := gset Z) h). apply Nat.lt_succ_r, subseteq_size.
  intros a Ha. apply elem_of_list_to_set, list_elem_of_In, in_map_iff in Ha as (e & <- & He).
  apply elem_of_dom. by apply Hin.
Qed.

(** ** Walking a chain *)

(** The slot that points to the entry behind [es] in bucket [i]. *)
Definition slot_after (s : slot) (es : list centry) : slot :=
  match list.last es with None => s | Some e => NextOf (addr e) end.

Section find.
Variable equal_fn : Z → Z → bool.

Lemma find_body_at h key s a k v next :
  a ≠ 0 → h !! a = Some (mkE k v next) →
  find_body equal_fn h key (s, a) = Some (if equal_fn k key then Break (s, a) else Next (NextOf a, next)).
Proof. intros Ha Hl. unfold find_body. rewrite (proj2 (Z.eqb_neq a 0) Ha), Hl. cbn. by destruct (equal_fn k key). Qed.

Lemma find_loop h key es : ∀ s p fuel,
  chain h p es → (length es < fuel)%nat →
  ∃ s' cur, while_loop fuel (find_body equal_fn h key) (s, p) = Some (s', cur)
    ∧ ((cur = 0 ∧ Forall (λ e, equal_fn (ekey e) key = false) es)
       ∨ ∃ es1 k v es2, es = es1 ++ (cur, k, v) :: es2 ∧ equal_fn k key = true ∧ cur ≠ 0
           ∧ Forall (λ e, equal_fn (ekey e) key = false) es1 ∧ s' = slot_after s es1).
Proof.
  induction es as [|[[a k] v] es IH]; intros s p fuel Hc Hf; destruct fuel as [|fuel]; [cbn in Hf; lia..| |cbn in Hf; lia|];
    cbn [while_loop].
  - cbn in Hc. subst p. eexists _, _. split; [done|]. left. split; [done|constructor].
  - cbn in Hc. destruct Hc as (-> & Ha & next & Hl & Hc). rewrite (find_body_at h key s a k v next Ha Hl).
    destruct (equal_fn k key) eqn:He; cbn [mbind option_bind].
    + eexists _, _. split; [done|]. right. exists [], k, v, es. done.
    + destruct (IH (NextOf a) next fuel Hc) as (s' & cur & -> & H); [cbn in Hf; lia|].
      eexists _, _. split; [done|]. destruct H as [[-> H]|(es1 & k' & v' & es2 & -> & Hk & Hcur & H & ->)].
      * left. split; [done|]. by constructor.
      * right. exists ((a, k, v) :: es1), k', v', es2. split_and!; try done; [by constructor|].
        unfold slot_after. destruct es1 as [|e1 es1]; [done|]. rewrite last_cons_cons.
        destruct (list.last (e1 :: es1)) eqn:El; [done|]. by apply last_None in El.
Qed.
End find.

(** ** Updating a chain *)

Lemma addrs_app es1 es2 : addrs (es1 ++ es2) = addrs es1 ++ addrs es2.
Proof. apply map_app. Qed.

Lemma NoDup_addrs_middle es1 (e : centry) es2 :
  NoDup (addrs (es1 ++ e :: es2)) → ¬ In (addr e) (addrs es1) ∧ ¬ In (addr e) (addrs es2).
Proof.
  rewrite addrs_app. cbn. intros (_ & H1 & H2)%list.NoDup_app. rewrite list.NoDup_cons in H2. destruct H2 as [H2 _].
  split; [|by rewrite <- list_elem_of_In]. intros Hin. apply (H1 (addr e)); [by apply list_elem_of_In|].
  apply list_elem_of_In. by left.
Qed.

(** The entry in the middle gets another key and value. *)
Lemma chain_update h p es1 a k v es2 k' v' next :
  chain h p (es1 ++ (a, k, v) :: es2) → NoDup (addrs (es1 ++ (a, k, v) :: es2)) → h !! a = Some (mkE k v next) →
  chain (<[a := mkE k' v' next]> h) p (es1 ++ (a, k', v') :: es2).
Proof.
  revert p. induction es1 as [|[[b kb] vb] es1 IH]; intros p Hc Hn Hl.
  - cbn in *. destruct Hc as (-> & Ha & next' & Hl' & Hc). rewrite Hl in Hl'. injection Hl' as <-.
    split_and!; [done|done|]. exists next. rewrite lookup_insert_eq. split; [done|].
    apply chain_insert_ne; [done|]. by apply (NoDup_addrs_middle [] (a, k, v)).
  - cbn in *. destruct Hc as (-> & Hb & nextb & Hlb & Hc). apply list.NoDup_cons in Hn as [Hnb Hn].
    split_and!; [done|done|]. exists nextb. rewrite lookup_insert_ne.
    + split; [done|]. by apply IH.
    + intros ->. apply Hnb. rewrite addrs_app. apply elem_of_app. right. by left.
Qed.

(** The entry in the middle is unlinked: its predecessor gets its successor.
    The slot is a bucket when it is the first entry. *)
Lemma chain_unlink h p es1 a k v es2 next b kb vb nextb :
  chain h p (es1 ++ (b, kb, vb) :: (a, k, v) :: es2) →
  NoDup (addrs (es1 ++ (b, kb, vb) :: (a, k, v) :: es2)) →
  h !! b = Some (mkE kb vb nextb) → h !! a = Some (mkE k v next) →
  chain (<[b := mkE kb vb next]> h) p (es1 ++ (b, kb, vb) :: es2).
Proof.
  revert p. induction es1 as [|[[c kc] vc] es1 IH]; intros p Hc Hn Hb Ha.
  - cbn in *. destruct Hc as (-> & Hb0 & nb & Hlb & -> & Ha0 & na & Hla & Hc).
    rewrite Ha in Hla. injection Hla as <-. split_and!; [done|done|]. exists next. rewrite lookup_insert_eq. split; [done|].
    apply chain_insert_ne; [done|]. destruct (NoDup_addrs_middle [] (b, kb, vb) ((a, k, v) :: es2) Hn) as [_ H].
    intros Hin. apply H. by right.
  - cbn in *. destruct Hc as (-> & Hc0 & nc & Hlc & Hc). apply list.NoDup_cons in Hn as [Hnc Hn].
    split_and!; [done|done|]. exists nc. rewrite lookup_insert_ne.
    + split; [done|]. by apply IH.
    + intros ->. apply Hnc. rewrite addrs_app. apply elem_of_app. right. by left.
Qed.

Lemma chains_frame h h' bs chs :
  Forall2 (chain h) bs chs → (∀ a, In a (addrs (concat chs)) → h' !! a = h !! a) → Forall2 (chain h') bs chs.
Proof.
  induction 1 as [|p es bs chs Hc _ IH]; intros Hf; constructor.
  - apply (chain_frame h); [done|]. intros a Ha. apply Hf. cbn. rewrite addrs_app. apply in_or_app. by left.
  - apply IH. intros a Ha. apply Hf. cbn. rewrite addrs_app. apply in_or_app. by right.
Qed.

(** ** The loop over all entries *)

Section each.
Context {T : Type}.
Variable get_heap : T → heap.
Variable body : Z → T → option T.
Variable h : heap.
Variable chs : list (list centry).
Variable I : list centry → T → Prop.
Variable fuel : nat.

(** The entries that were not visited are as they were, and the body handles
    the next one. *)
Hypothesis I_rest : ∀ visited rest t, concat chs = visited ++ rest → I visited t →
  ∀ a, In a (addrs rest) → get_heap t !! a = h !! a.
Hypothesis I_step : ∀ visited e rest t, concat chs = visited ++ e :: rest → I visited t →
  ∃ t', body (addr e) t = Some t' ∧ I (visited ++ [e]) t'.

Lemma each_chain_ok es : ∀ visited rest p t n,
  concat chs = visited ++ es ++ rest → chain h p es → I visited t → (length es < n)%nat →
  ∃ s, while_loop n (each_body get_heap body) (p, t) = Some s ∧ I (visited ++ es) s.2.
Proof.
  induction es as [|[[a k] v] es IH]; intros visited rest p t n Hcat Hc Ht Hn; destruct n as [|n];
    [cbn in Hn; lia..| |cbn in Hn; lia|]; cbn [while_loop].
  - cbn in Hc. subst p. eexists. split; [done|]. by rewrite app_nil_r.
  - cbn in Hc. destruct Hc as (-> & Ha & next & Hl & Hc).
    destruct (I_step visited (a, k, v) (es ++ rest) t Hcat Ht) as (t' & Eb & Ht'). cbn in Eb.
    assert (each_body get_heap body (a, t) = Some (Next (next, t'))) as ->.
    { unfold each_body. rewrite (proj2 (Z.eqb_neq a 0) Ha).
      rewrite (I_rest visited ((a, k, v) :: es ++ rest) t Hcat Ht a (or_introl eq_refl)), Hl. cbn. by rewrite Eb. }
    cbn [mbind option_bind].
    destruct (IH (visited ++ [(a, k, v)]) rest next t' n) as (s & E & H); [by rewrite <- app_assoc|done|done|cbn in Hn; lia|].
    exists s. split; [done|]. by rewrite <- app_assoc in H.
Qed.

Lemma for_each_ok m bs t :
  buckets m = Some bs → Forall2 (chain h) bs chs → zlen chs = cap m →
  Forall (λ es : list centry, (length es < fuel)%nat) chs → I [] t →
  ∃ t', for_each_entry_safe m fuel get_heap body t = Some t' ∧ I (concat chs) t'.
Proof.
  intros Hbs Hc Hcap Hfuel Ht. unfold for_each_entry_safe. rewrite Hbs. cbn [default from_option id].
  destruct (for_loop_inv (λ i t, I (concat (take (Z.to_nat i) chs)) t) (each_bucket bs fuel get_heap body) 0 (cap m) t)
    as (t' & E & H); [lia| |done|].
  - intros i t1 Hi Ht1. unfold each_bucket.
    destruct (lookup_lt_is_Some_2 chs (Z.to_nat i)) as [es Hes]; [lia|].
    destruct (Forall2_lookup_r _ _ _ _ _ Hc Hes) as (p & Hp & Hch). rewrite aget_to_nat, Hp by lia. cbn [mbind option_bind].
    destruct (each_chain_ok es (concat (take (Z.to_nat i) chs)) (concat (drop (S (Z.to_nat i)) chs)) p t1 fuel)
      as (s & -> & Hs); [|done|done|by eapply (Forall_lookup_1 _ _ _ _ Hfuel)|].
    + rewrite <- (take_drop_middle chs (Z.to_nat i) es Hes) at 1. by rewrite concat_app.
    + cbn [mbind option_bind]. eexists. split; [done|]. replace (Z.to_nat (i + 1)) with (S (Z.to_nat i)) by lia.
      rewrite (take_S_r _ _ es) by done. rewrite concat_app. cbn. by rewrite app_nil_r.
  - exists t'. split; [done|]. by rewrite take_ge in H by lia.
Qed.
End each.

(** ** The representation *)

Lemma hash_bits_range x bits : 0 <= bits <= 64 → 0 <= hash_bits x bits < 2 ^ bits.
Proof.
  intros Hb. unfold hash_bits. destruct (Z.eqb_spec bits 0) as [->|]; [lia|].
  pose proof (u64_range (x * 11400714819323198485)) as Hu. rewrite Z.shiftr_div_pow2 by lia.
  pose proof (Z.pow_pos_nonneg 2 (64 - bits) ltac:(lia) ltac:(lia)) as Hp. split; [apply Z.div_pos; lia|].
  apply Z.div_lt_upper_bound; [lia|]. rewrite <- Z.pow_add_r by lia. replace (64 - bits + bits) with 64 by lia. lia.
Qed.

(** What the functions given to a map and the allocator have to satisfy. *)
Class HashKey (hash_fn : Z → Z) (equal_fn : Z → Z → bool) : Prop := {
  equal_refl : ∀ k, equal_fn k k = true;
  equal_cong : ∀ k1 k2, equal_fn k1 k2 = true → ∀ k, equal_fn k1 k = equal_fn k2 k ∧ equal_fn k k1 = equal_fn k k2;
  hash_cong : ∀ k1 k2, equal_fn k1 k2 = true → hash_fn k1 = hash_fn k2;
}.

Class Allocator (malloc : heap → option Z) (calloc : Z → bool) : Prop := {
  malloc_fresh : ∀ h p, malloc h = Some p → h !! p = None ∧ p ≠ 0;
  calloc_bound : ∀ n, calloc n = true → n <= 2 ^ 60;
}.

Section map.
Context (hash_fn : Z → Z) (equal_fn : Z → Z → bool) `{!HashKey hash_fn equal_fn}.
Context (malloc : heap → option Z) (calloc : Z → bool) `{!Allocator malloc calloc}.

Definition index (bits k : Z) : nat := Z.to_nat (hash_bits (hash_fn k) bits).

Definition in_bucket (bits : Z) (i : nat) (es : list centry) : Prop := Forall (λ e, index bits (ekey e) = i) es.

(** The chains of a map with buckets. *)
Record rep_buckets (m : hashmap) (h : heap) (bs : list Z) (chs : list (list centry)) : Prop := {
  rb_chains : Forall2 (chain h) bs chs;
  rb_nodup : NoDup (addrs (concat chs));
  rb_cap : zlen chs = cap m ∧ cap m = 2 ^ cap_bits m;
  rb_bits : 2 <= cap_bits m <= 60;
  rb_sz : sz m = u64 (zlen (concat chs));
  rb_index : ∀ i es, chs !! i = Some es → in_bucket (cap_bits m) i es;
}.

Definition rep (m : hashmap) (h : heap) (chs : list (list centry)) : Prop :=
  match buckets m with
  | None => chs = [] ∧ m = hashmap__init
  | Some bs => rep_buckets m h bs chs
  end.

(** The entries of a key: what the map is about. *)
Definition entries_of (key : Z) (es : list centry) : list (Z * Z) :=
  omap (λ e, if equal_fn (ekey e) key then Some (ekey e, evalue e) else None) es.

Lemma entries_of_app key es1 es2 : entries_of key (es1 ++ es2) = entries_of key es1 ++ entries_of key es2.
Proof. apply omap_app. Qed.

Lemma entries_of_none key es : Forall (λ e, equal_fn (ekey e) key = false) es → entries_of key es = [].
Proof. unfold entries_of. induction 1 as [|e es He _ IH]; [done|]. cbn. by rewrite He. Qed.

Lemma entries_of_cons key a k v es :
  entries_of key ((a, k, v) :: es) = (if equal_fn k key then [(k, v)] else []) ++ entries_of key es.
Proof. unfold entries_of. cbn. by destruct (equal_fn k key). Qed.

(** All entries of a key are in its bucket. *)
Lemma bucket_entries bits (chs : list (list centry)) key :
  (∀ i es, chs !! i = Some es → in_bucket bits i es) → (index bits key < length chs)%nat →
  ∃ es, chs !! index bits key = Some es
    ∧ entries_of key (concat chs) = entries_of key es
    ∧ ∀ es', entries_of key (concat (<[index bits key := es']> chs)) = entries_of key es'.
Proof.
  intros H Hi. set (i := index bits key) in *. destruct (lookup_lt_is_Some_2 chs i Hi) as [es Hes]. exists es.
  assert (∀ l : list (list centry), (∀ j es, l !! j = Some es → ∃ j', j' ≠ i ∧ chs !! j' = Some es) → entries_of key (concat l) = []) as Hother.
  { intros l Hsub. apply entries_of_none, List.Forall_concat, List.Forall_forall. intros es' Hin.
    apply list_elem_of_In, list_elem_of_lookup in Hin as [j Hj]. destruct (Hsub j es' Hj) as (j' & Hne & Hj').
    refine (List.Forall_impl _ _ (H j' es' Hj')). intros e He. cbv beta in He.
    destruct (equal_fn (ekey e) key) eqn:E; [|done]. exfalso. apply Hne. subst j'. unfold i, index.
    by rewrite (hash_cong _ _ E). }
  assert (entries_of key (concat (take i chs)) = []) as H1.
  { apply Hother. intros j es' Hj. pose proof (lookup_lt_Some _ _ _ Hj) as Hlt. rewrite length_take in Hlt.
    rewrite lookup_take_lt in Hj by lia. exists j. split; [lia|done]. }
  assert (entries_of key (concat (drop (S i) chs)) = []) as H2.
  { apply Hother. intros j es' Hj. rewrite lookup_drop in Hj. exists (S i + j)%nat. split; [lia|done]. }
  split_and!; [done| |].
  - rewrite <- (take_drop_middle chs i es Hes) at 1. rewrite concat_app. cbn. by rewrite !entries_of_app, H1, H2, app_nil_r.
  - intros es'. rewrite (insert_take_drop chs i es') by done. rewrite concat_app. cbn.
    by rewrite !entries_of_app, H1, H2, app_nil_r.
Qed.

(** A change of one bucket that keeps the entries of a key. *)
Lemma entries_change (chs : list (list centry)) i es es' key :
  chs !! i = Some es → entries_of key es' = entries_of key es →
  entries_of key (concat (<[i := es']> chs)) = entries_of key (concat chs).
Proof.
  intros Hi He. rewrite insert_take_drop by (by eapply lookup_lt_Some).
  rewrite <- (take_drop_middle chs i es Hi) at 3. rewrite !concat_app. cbn. by rewrite !entries_of_app, He.
Qed.

Lemma rep_index_lt m h bs chs key : rep_buckets m h bs chs → (index (cap_bits m) key < length chs)%nat.
Proof.
  intros H. destruct (rb_bits _ _ _ _ H) as [Hb1 Hb2]. destruct (rb_cap _ _ _ _ H) as [Hl Hc].
  pose proof (hash_bits_range (hash_fn key) (cap_bits m) ltac:(lia)) as Hr. unfold index. lia.
Qed.

Lemma entries_in_bucket m h bs chs key :
  rep_buckets m h bs chs → ∃ es, chs !! index (cap_bits m) key = Some es
    ∧ entries_of key (concat chs) = entries_of key es
    ∧ ∀ es', entries_of key (concat (<[index (cap_bits m) key := es']> chs)) = entries_of key es'.
Proof. intros H. apply bucket_entries; [apply H|by eapply rep_index_lt]. Qed.

Lemma rep_entry m h bs chs e :
  rep_buckets m h bs chs → In e (concat chs) → ∃ next, h !! addr e = Some (mkE (ekey e) (evalue e) next) ∧ addr e ≠ 0.
Proof.
  intros H He. apply in_concat in He as (es & Hes & He).
  apply list_elem_of_In, list_elem_of_lookup in Hes as [i Hi].
  destruct (Forall2_lookup_r _ _ _ _ _ (rb_chains _ _ _ _ H) Hi) as (p & _ & Hc). by eapply chain_lookup.
Qed.

Lemma NoDup_sublist_concat (chs : list (list centry)) i es :
  NoDup (addrs (concat chs)) → chs !! i = Some es → NoDup (addrs es).
Proof.
  intros Hn Hi. rewrite <- (take_drop_middle chs i es Hi), concat_app in Hn. cbn in Hn. rewrite !addrs_app in Hn.
  apply list.NoDup_app in Hn as (_ & _ & Hn). by apply list.NoDup_app in Hn as (Hn & _).
Qed.

Lemma rep_fuel m h bs chs : rep_buckets m h bs chs → Forall (λ es : list centry, (length es < chain_fuel h)%nat) chs.
Proof.
  intros H. apply List.Forall_forall. intros es Hes. apply list_elem_of_In, list_elem_of_lookup in Hes as [i Hi].
  apply chain_fuel_ok; [by eapply NoDup_sublist_concat, Hi; apply H|].
  intros e He. destruct (rep_entry m h bs chs e H) as (next & -> & _); [|by eexists].
  apply in_concat. exists es. split; [|done]. by eapply list_elem_of_In, list_elem_of_lookup_2.
Qed.

Lemma find_entry_ok m h chs key :
  rep m h chs →
  ∃ r, hashmap_find_entry equal_fn m h key (hash_bits (hash_fn key) (cap_bits m)) = Some r
    ∧ match r with
      | None => entries_of key (concat chs) = []
      | Some (s, a) => ∃ bs es1 k v es2,
          buckets m = Some bs ∧ chs !! index (cap_bits m) key = Some (es1 ++ (a, k, v) :: es2)
          ∧ s = slot_after (Bucket (hash_bits (hash_fn key) (cap_bits m))) es1
          ∧ equal_fn k key = true ∧ Forall (λ e, equal_fn (ekey e) key = false) es1
          ∧ entries_of key (concat chs) = (k, v) :: entries_of key es2
      end.
Proof.
  unfold rep, hashmap_find_entry. destruct (buckets m) as [bs|] eqn:Ebs; [|intros [-> _]; by eexists].
  intros H. destruct (entries_in_bucket m h bs chs key H) as (es & Hes & Hent & _).
  pose proof (hash_bits_range (hash_fn key) (cap_bits m) ltac:(destruct (rb_bits _ _ _ _ H); lia)) as Hr.
  destruct (Forall2_lookup_r _ _ _ _ _ (rb_chains _ _ _ _ H) Hes) as (p & Hp & Hc).
  rewrite aget_to_nat by lia. fold (index (cap_bits m) key). rewrite Hp. cbn [mbind option_bind].
  pose proof (Forall_lookup_1 _ _ _ _ (rep_fuel m h bs chs H) Hes) as Hf. cbv beta in Hf.
  destruct (find_loop equal_fn h key es (Bucket (hash_bits (hash_fn key) (cap_bits m))) p (chain_fuel h) Hc Hf)
    as (s & cur & -> & [[-> Hn]|(es1 & k & v & es2 & -> & Hk & Hcur & Hn & ->)]); cbn [mbind option_bind].
  - eexists. split; [done|]. cbn. rewrite Hent. by apply entries_of_none.
  - rewrite (proj2 (Z.eqb_neq cur 0) Hcur). eexists. split; [done|]. cbn.
    exists bs, es1, k, v, es2. split_and!; try done.
    rewrite Hent, entries_of_app, (entries_of_none key es1) by done. by rewrite entries_of_cons, Hk.
Qed.

(** ** Changing one bucket *)

Lemma addrs_split (chs : list (list centry)) i es :
  NoDup (addrs (concat chs)) → chs !! i = Some es →
  ∀ a, In a (addrs (concat (take i chs))) ∨ In a (addrs (concat (drop (S i) chs))) →
  In a (addrs (concat chs)) ∧ ¬ In a (addrs es).
Proof.
  intros Hn Hi a Ha. rewrite <- (take_drop_middle chs i es Hi), concat_app in Hn |- *.
  cbn in Hn |- *. rewrite !addrs_app in Hn |- *. rewrite !in_app_iff. split; [tauto|].
  apply list.NoDup_app in Hn as (_ & H1 & Hn). apply list.NoDup_app in Hn as (_ & H2 & _).
  setoid_rewrite list_elem_of_In in H1. setoid_rewrite list_elem_of_In in H2. setoid_rewrite in_app_iff in H1.
  intros Hin. destruct Ha as [Ha|Ha]; [apply (H1 a Ha); auto|by apply (H2 a Hin)].
Qed.

Lemma chains_change h h' bs chs i es p' es' :
  Forall2 (chain h) bs chs → chs !! i = Some es → NoDup (addrs (concat chs)) →
  (∀ a, In a (addrs (concat chs)) → ¬ In a (addrs es) → h' !! a = h !! a) → chain h' p' es' →
  Forall2 (chain h') (<[i := p']> bs) (<[i := es']> chs).
Proof.
  intros Hc Hi Hn Hf Hc'. assert (length bs = length chs) as Hl by (eapply Forall2_length; exact Hc). pose proof (lookup_lt_Some _ _ _ Hi).
  rewrite !insert_take_drop by lia. apply Forall2_app; [|constructor; [done|]].
  - apply (chains_frame h); [by apply Forall2_take|]. intros a Ha.
    destruct (addrs_split chs i es Hn Hi a (or_introl Ha)). auto.
  - apply (chains_frame h); [by apply Forall2_drop|]. intros a Ha.
    destruct (addrs_split chs i es Hn Hi a (or_intror Ha)). auto.
Qed.

Lemma NoDup_change (chs : list (list centry)) i es es' :
  NoDup (addrs (concat chs)) → chs !! i = Some es → NoDup (addrs es') →
  (∀ a, In a (addrs es') → In a (addrs es) ∨ ¬ In a (addrs (concat chs))) →
  NoDup (addrs (concat (<[i := es']> chs))).
Proof.
  intros Hn Hi Hn' Hsub. pose proof (addrs_split chs i es Hn Hi) as Hs.
  rewrite insert_take_drop by (by eapply lookup_lt_Some).
  rewrite <- (take_drop_middle chs i es Hi), concat_app in Hn. rewrite concat_app. cbn in Hn |- *.
  rewrite !addrs_app in Hn |- *. apply list.NoDup_app in Hn as (H1 & H12 & Hn). apply list.NoDup_app in Hn as (_ & _ & H3).
  apply list.NoDup_app. split_and!; [done| |apply list.NoDup_app; split_and!; [done| |done]].
  - intros a Ha. specialize (H12 a Ha). rewrite elem_of_app in H12 |- *. rewrite !list_elem_of_In in *.
    destruct (Hs a (or_introl Ha)) as [Hs1 Hs2]. intros [Hin|Hin]; [|by auto].
    by destruct (Hsub a Hin).
  - intros a Ha Hin. rewrite list_elem_of_In in Ha, Hin. destruct (Hs a (or_intror Hin)) as [Hs1 Hs2].
    by destruct (Hsub a Ha).
Qed.

Lemma length_change (chs : list (list centry)) i es es' :
  chs !! i = Some es → zlen (concat (<[i := es']> chs)) = zlen (concat chs) - zlen es + zlen es'.
Proof.
  intros Hi. rewrite insert_take_drop by (by eapply lookup_lt_Some).
  rewrite <- (take_drop_middle chs i es Hi) at 3. rewrite !concat_app. cbn. rewrite !length_app. lia.
Qed.

(** A new chain in one bucket: the map it gives. *)
Lemma rep_change m h bs chs i es h' p' es' sz' :
  rep_buckets m h bs chs → chs !! i = Some es → chain h' p' es' → NoDup (addrs es') →
  (∀ a, In a (addrs (concat chs)) → ¬ In a (addrs es) → h' !! a = h !! a) →
  (∀ a, In a (addrs es') → In a (addrs es) ∨ ¬ In a (addrs (concat chs))) →
  in_bucket (cap_bits m) i es' → sz' = u64 (zlen (concat chs) - zlen es + zlen es') →
  rep_buckets (mkH (Some (<[i := p']> bs)) (cap m) (cap_bits m) sz') h' (<[i := p']> bs) (<[i := es']> chs).
Proof.
  intros [H1 H2 H3 H4 H5 H6] Hi Hc Hn Hf Hs Hb Hsz. split; cbn [buckets cap cap_bits sz].
  - by eapply chains_change.
  - by eapply NoDup_change.
  - by rewrite length_insert.
  - done.
  - by rewrite (length_change chs i es).
  - intros j es2 Hj. destruct (decide (j = i)) as [->|Hne].
    + rewrite list_lookup_insert_eq in Hj by (by eapply lookup_lt_Some). by injection Hj as <-.
    + rewrite list_lookup_insert_ne in Hj by done. by apply H6.
Qed.

(** ** The heap outside the map *)

Definition outside (h : heap) (chs : list (list centry)) (a : Z) : option hashmap_entry :=
  if decide (a ∈ addrs (concat chs)) then None else h !! a.

(** The heap without the entries of the map is the same. *)
Definition frame (h : heap) (chs : list (list centry)) (h' : heap) (chs' : list (list centry)) : Prop :=
  ∀ a, outside h' chs' a = outside h chs a.

Lemma frame_intro h chs h' chs' :
  (∀ a, In a (addrs (concat chs')) → ¬ In a (addrs (concat chs)) → h !! a = None) →
  (∀ a, In a (addrs (concat chs)) → ¬ In a (addrs (concat chs')) → h' !! a = None) →
  (∀ a, ¬ In a (addrs (concat chs)) → ¬ In a (addrs (concat chs')) → h' !! a = h !! a) →
  frame h chs h' chs'.
Proof.
  intros H1 H2 H3 a. unfold outside.
  destruct (decide (a ∈ addrs (concat chs'))) as [Hi|Hi], (decide (a ∈ addrs (concat chs))) as [Hj|Hj];
    rewrite list_elem_of_In in Hi, Hj; auto. by rewrite H1.
Qed.

Lemma frame_refl h chs : frame h chs h chs.
Proof. done. Qed.

Lemma frame_trans h1 chs1 h2 chs2 h3 chs3 : frame h1 chs1 h2 chs2 → frame h2 chs2 h3 chs3 → frame h1 chs1 h3 chs3.
Proof. intros H12 H23 a. by rewrite H23, H12. Qed.

(** The addresses before and after the change of one bucket. *)
Lemma addrs_change (chs : list (list centry)) i es es' :
  chs !! i = Some es → ∃ R, (∀ a, In a (addrs (concat chs)) ↔ In a (addrs es) ∨ In a R)
    ∧ (∀ a, In a (addrs (concat (<[i := es']> chs))) ↔ In a (addrs es') ∨ In a R)
    ∧ (NoDup (addrs (concat chs)) → ∀ a, In a R → ¬ In a (addrs es)).
Proof.
  intros Hi. exists (addrs (concat (take i chs)) ++ addrs (concat (drop (S i) chs))). split_and!.
  - intros a. rewrite <- (take_drop_middle chs i es Hi) at 1. rewrite concat_app. cbn.
    rewrite !addrs_app, !in_app_iff. tauto.
  - intros a. rewrite insert_take_drop by (by eapply lookup_lt_Some). rewrite concat_app. cbn.
    rewrite !addrs_app, !in_app_iff. tauto.
  - intros Hn a Ha. apply in_app_iff in Ha. by eapply addrs_split.
Qed.

(** ** The operations *)

(** What the operations use of a bucket found. *)
Lemma bucket_facts m h bs chs i es :
  rep_buckets m h bs chs → chs !! i = Some es →
  ∃ p, bs !! i = Some p ∧ chain h p es ∧ NoDup (addrs es) ∧ in_bucket (cap_bits m) i es
    ∧ <[i := p]> bs = bs.
Proof.
  intros H Hi. destruct (Forall2_lookup_r _ _ _ _ _ (rb_chains _ _ _ _ H) Hi) as (p & Hp & Hc).
  exists p. split_and!; [done|done|by eapply NoDup_sublist_concat, Hi; apply H|by eapply rb_index|by apply list_insert_id].
Qed.

Lemma index_of_equal bits k key : equal_fn k key = true → index bits k = index bits key.
Proof. intros H. unfold index. by rewrite (hash_cong _ _ H). Qed.

(** The value of a found entry is overwritten. *)
Lemma update_ok m h bs chs i es1 a k v es2 key value next :
  rep_buckets m h bs chs → chs !! i = Some (es1 ++ (a, k, v) :: es2) → i = index (cap_bits m) key →
  h !! a = Some (mkE k v next) →
  rep_buckets m (<[a := mkE key value next]> h) bs (<[i := es1 ++ (a, key, value) :: es2]> chs).
Proof.
  intros H Hi Hidx Hl. destruct (bucket_facts m h bs chs i _ H Hi) as (p & Hp & Hc & Hn & Hb & Hid).
  assert (addrs (es1 ++ (a, key, value) :: es2) = addrs (es1 ++ (a, k, v) :: es2)) as Ha by (by rewrite !addrs_app).
  destruct (rep_change m h bs chs i _ (<[a := mkE key value next]> h) p (es1 ++ (a, key, value) :: es2) (sz m) H Hi)
    as [H1 H2 H3 H4 H5 H6].
  - by eapply chain_update.
  - by rewrite Ha.
  - intros b _ Hb'. apply lookup_insert_ne. intros ->. apply Hb'. rewrite addrs_app. apply in_or_app. right. by left.
  - intros b Hb'. rewrite Ha in Hb'. by left.
  - unfold in_bucket in *. rewrite Forall_app, Forall_cons_iff in Hb |- *. cbn. intuition.
  - rewrite (rb_sz _ _ _ _ H), !length_app. cbn [length]. f_equal. lia.
  - rewrite Hid in *. destruct m as [bk c cb s]. cbn [buckets cap cap_bits sz] in *. by split.
Qed.

Lemma unlink_frame h h' chs i es1 a k v es2 :
  NoDup (addrs (concat chs)) → chs !! i = Some (es1 ++ (a, k, v) :: es2) →
  (∀ b, ¬ In b (addrs (es1 ++ (a, k, v) :: es2)) → h' !! b = h !! b) →
  frame h chs (free h' a) (<[i := es1 ++ es2]> chs).
Proof.
  intros Hn Hi Hf. destruct (addrs_change chs i _ (es1 ++ es2) Hi) as (R & H1 & H2 & _).
  assert (∀ b, In b (addrs (es1 ++ (a, k, v) :: es2)) ↔ b = a ∨ In b (addrs (es1 ++ es2))) as H3.
  { intros b. rewrite !addrs_app, !in_app_iff. cbn. intuition congruence. }
  unfold free. apply frame_intro; intros b Hb Hb'; rewrite H1, H2, !H3 in *; [tauto| |].
  - assert (b = a) as -> by tauto. apply lookup_delete_eq.
  - rewrite lookup_delete_ne by (intros ->; tauto). apply Hf. rewrite H3. tauto.
Qed.

(** A found entry is unlinked and freed. *)
Lemma unlink_ok m h bs chs i key es1 a k v es2 :
  rep_buckets m h bs chs → buckets m = Some bs → chs !! i = Some (es1 ++ (a, k, v) :: es2) →
  i = index (cap_bits m) key →
  ∃ bs' h', hashmap_del_entry bs h (slot_after (Bucket (hash_bits (hash_fn key) (cap_bits m))) es1) a = Some (bs', h')
    ∧ rep_buckets (mkH (Some bs') (cap m) (cap_bits m) (u64 (sz m - 1))) (free h' a) bs' (<[i := es1 ++ es2]> chs)
    ∧ frame h chs (free h' a) (<[i := es1 ++ es2]> chs).
Proof.
  intros H Hm Hi Hidx. destruct (bucket_facts m h bs chs i _ H Hi) as (p & Hp & Hc & Hn & Hb & Hid).
  destruct (chain_lookup h p _ (a, k, v) Hc) as (next & Ha & Ha0); [apply in_or_app; right; by left|]. cbn in Ha.
  destruct (NoDup_addrs_middle es1 (a, k, v) es2 Hn) as [Hn1 Hn2]. cbn in Hn1, Hn2.
  pose proof (hash_bits_range (hash_fn key) (cap_bits m) ltac:(destruct (rb_bits _ _ _ _ H); lia)) as Hr.
  assert (NoDup (addrs (es1 ++ es2))) as Hn'.
  { rewrite addrs_app in Hn |- *. cbn in Hn. apply list.NoDup_app in Hn as (G1 & G2 & G3).
    apply list.NoDup_cons in G3 as [_ G3]. apply list.NoDup_app. split_and!; [done| |done].
    intros b Hb1 Hb2. apply (G2 b Hb1). by right. }
  assert (∀ b, In b (addrs (es1 ++ es2)) → In b (addrs (es1 ++ (a, k, v) :: es2))) as Hsub.
  { intros b. rewrite !addrs_app, !in_app_iff. cbn. tauto. }
  assert (in_bucket (cap_bits m) i (es1 ++ es2)) as Hb'.
  { unfold in_bucket in *. rewrite Forall_app, Forall_cons_iff in Hb. apply Forall_app. tauto. }
  assert (∀ p' h', chain (free h' a) p' (es1 ++ es2) →
    (∀ b, ¬ In b (addrs (es1 ++ (a, k, v) :: es2)) → h' !! b = h !! b) →
    rep_buckets (mkH (Some (<[i := p']> bs)) (cap m) (cap_bits m) (u64 (sz m - 1))) (free h' a) (<[i := p']> bs)
      (<[i := es1 ++ es2]> chs) ∧ frame h chs (free h' a) (<[i := es1 ++ es2]> chs)) as Hrep.
  { intros p' h' Hc' Hf. split; [eapply rep_change; try done|eapply (unlink_frame h h'); [apply H|exact Hi|exact Hf]].
    - intros b _ Hb2. unfold free. rewrite lookup_delete_ne; [by apply Hf|]. intros ->. apply Hb2.
      rewrite addrs_app. apply in_or_app. right. by left.
    - intros b Hb2. left. by apply Hsub.
    - rewrite (rb_sz _ _ _ _ H), !length_app. cbn [length]. unfold u64. rewrite Zminus_mod_idemp_l. f_equal. lia. }
  destruct es1 as [|[[b kb] vb] es1 _] using rev_ind.
  - cbn [app] in *. unfold slot_after. cbn [list.last]. cbn in Hc. destruct Hc as (-> & _ & nx & Ha' & Hc).
    rewrite Ha in Ha'. injection Ha' as <-. unfold hashmap_del_entry, write_slot, set_next. rewrite Ha. cbn [mbind option_bind e_next].
    rewrite aset_eq by (pose proof (lookup_lt_Some _ _ _ Hp); unfold index in Hidx; lia). cbn [mbind option_bind]. rewrite Ha.
    cbn [mbind option_bind e_key e_value]. eexists _, _. split; [done|]. fold (index (cap_bits m) key). rewrite <- Hidx.
    apply Hrep.
    + unfold free. rewrite delete_insert_eq. by apply chain_delete_ne.
    + intros c Hc2. apply lookup_insert_ne. intros ->. apply Hc2. by left.
  - rewrite <- app_assoc in *. cbn [app] in *.
    unfold slot_after. rewrite last_snoc.
    destruct (chain_lookup h p _ (b, kb, vb) Hc) as (nb & Hlb & Hb0); [apply in_or_app; right; by left|]. cbn in Hlb.
    assert (a ≠ b) as Hab by (intros ->; apply Hn1; rewrite addrs_app; apply in_or_app; right; by left).
    unfold hashmap_del_entry, write_slot, set_next. rewrite Ha. cbn [mbind option_bind e_next fst snd]. rewrite Hlb. cbn [mbind option_bind e_key e_value].
    rewrite lookup_insert_ne by done. rewrite Ha. cbn [mbind option_bind e_key e_value]. eexists _, _. split; [done|].
    rewrite <- Hid at 1 2. apply Hrep.
    + unfold free. rewrite delete_insert_eq. apply chain_delete_ne; [by eapply chain_unlink|].
      rewrite addrs_app in Hn1 |- *. cbn in Hn1 |- *. rewrite in_app_iff in Hn1 |- *. cbn in *. tauto.
    + intros c Hc2. rewrite !lookup_insert_ne; [done|intros ->..]; apply Hc2; rewrite !addrs_app, !in_app_iff; cbn; auto.
Qed.

(** ** Adding an entry *)

Lemma add_entry_ok nb h nchs i l a k v next :
  Forall2 (chain h) nb nchs → nchs !! i = Some l → NoDup (addrs (concat nchs)) → ¬ In a (addrs (concat nchs)) →
  h !! a = Some (mkE k v next) → a ≠ 0 →
  ∃ h', hashmap_add_entry nb h (Bucket (Z.of_nat i)) a = Some (<[i := a]> nb, h')
    ∧ Forall2 (chain h') (<[i := a]> nb) (<[i := (a, k, v) :: l]> nchs)
    ∧ (∀ b, b ≠ a → h' !! b = h !! b) ∧ chain h' a ((a, k, v) :: l).
Proof.
  intros Hc Hi Hn Ha Hl Ha0. destruct (Forall2_lookup_r _ _ _ _ _ Hc Hi) as (first & Hf & Hcl).
  unfold hashmap_add_entry, read_slot, set_next, write_slot. rewrite aget_nat, Hf. cbn [mbind option_bind]. rewrite Hl.
  cbn [mbind option_bind e_key e_value]. pose proof (lookup_lt_Some _ _ _ Hf). rewrite aset_eq, Nat2Z.id by lia. cbn [mbind option_bind].
  assert (chain (<[a := mkE k v first]> h) a ((a, k, v) :: l)) as Hnew.
  { cbn. split_and!; [done|done|]. exists first. rewrite lookup_insert_eq. split; [done|].
    apply chain_insert_ne; [done|]. intros Hin. apply Ha. rewrite <- (take_drop_middle nchs i l Hi), concat_app. cbn.
    rewrite !addrs_app, !in_app_iff. auto. }
  eexists. split_and!; [done| | |done].
  - eapply (chains_change h); try done. intros b Hb _. apply lookup_insert_ne. intros ->. by apply Ha.
  - intros b Hb. by apply lookup_insert_ne.
Qed.

Lemma in_bucket_index bits i e es :
  0 <= bits <= 64 → index bits (ekey e) = i → in_bucket bits i es → in_bucket bits i (e :: es)
  ∧ hash_bits (hash_fn (ekey e)) bits = Z.of_nat i.
Proof.
  intros Hb He Hes. split; [by constructor|]. pose proof (hash_bits_range (hash_fn (ekey e)) bits Hb).
  unfold index in He. lia.
Qed.

(** ** Growing *)

Definition push (bits : Z) (nchs : list (list centry)) (e : centry) : list (list centry) :=
  let i := index bits (ekey e) in <[i := e :: (nchs !!! i)]> nchs.

(** The new chains while the loop runs. *)
Definition pushed (bits : Z) (es : list centry) : list (list centry) :=
  foldl (push bits) (replicate (Z.to_nat (2 ^ bits)) []) es.

Lemma index_lt bits k : 0 <= bits <= 64 → (index bits k < Z.to_nat (2 ^ bits))%nat.
Proof. intros H. pose proof (hash_bits_range (hash_fn k) bits H). unfold index. lia. Qed.

Lemma pushed_length bits es : length (pushed bits es) = Z.to_nat (2 ^ bits).
Proof.
  unfold pushed. induction es as [|e es IH] using rev_ind; [apply length_replicate|].
  rewrite foldl_app. cbn. unfold push. by rewrite length_insert.
Qed.

Lemma pushed_snoc bits es e : pushed bits (es ++ [e]) = push bits (pushed bits es) e.
Proof. unfold pushed. by rewrite foldl_app. Qed.

Lemma pushed_lookup bits es k :
  0 <= bits <= 64 → pushed bits es !! index bits k = Some (pushed bits es !!! index bits k).
Proof. intros H. apply list_lookup_lookup_total_lt. rewrite pushed_length. by apply index_lt. Qed.

Lemma pushed_perm bits es : 0 <= bits <= 64 → concat (pushed bits es) ≡ₚ es.
Proof.
  intros H. induction es as [|e es IH] using rev_ind.
  - unfold pushed. cbn. induction (Z.to_nat (2 ^ bits)); [done|by cbn].
  - rewrite pushed_snoc. unfold push. set (i := index bits (ekey e)).
    pose proof (pushed_lookup bits es (ekey e) H) as Hi. fold i in Hi.
    rewrite insert_take_drop by (by eapply lookup_lt_Some). rewrite concat_app. cbn.
    rewrite <- (take_drop_middle _ i _ Hi), concat_app in IH. cbn in IH.
    etransitivity; [symmetry; apply Permutation_middle|]. rewrite (Permutation_app_comm es [e]). cbn. by constructor.
Qed.

Lemma pushed_index bits es : 0 <= bits <= 64 → ∀ i l, pushed bits es !! i = Some l → in_bucket bits i l.
Proof.
  intros H. induction es as [|e es IH] using rev_ind; intros i l Hi.
  - unfold pushed in Hi. cbn in Hi. apply lookup_replicate in Hi as [-> _]. constructor.
  - rewrite pushed_snoc in Hi. unfold push in Hi. destruct (decide (i = index bits (ekey e))) as [->|Hne].
    + rewrite list_lookup_insert_eq in Hi; [|rewrite pushed_length; by apply index_lt]. injection Hi as <-.
      constructor; [done|]. apply IH. by apply pushed_lookup.
    + rewrite list_lookup_insert_ne in Hi by done. by apply IH.
Qed.

Lemma pushed_entries bits es key : 0 <= bits <= 64 → entries_of key (concat (pushed bits es)) = rev (entries_of key es).
Proof.
  intros H. induction es as [|[[a k] v] es IH] using rev_ind.
  - unfold pushed. cbn. induction (Z.to_nat (2 ^ bits)); [done|by cbn].
  - rewrite pushed_snoc, entries_of_app, rev_app_distr, entries_of_cons. unfold push. cbn [fst snd]. cbv zeta.
    destruct (equal_fn k key) eqn:E.
    + cbn [app rev]. rewrite (index_of_equal bits k key E).
      destruct (bucket_entries bits (pushed bits es) key (pushed_index bits es H)) as (l & Hl & He & ->);
        [rewrite pushed_length; by apply index_lt|]. rewrite entries_of_cons, E. cbn [app].
      by rewrite (list_lookup_total_correct _ _ _ Hl), <- He, IH.
    + cbn [app rev]. rewrite <- IH. eapply entries_change; [by apply pushed_lookup|]. by rewrite entries_of_cons, E.
Qed.

(** The loop of [hashmap_grow] after the entries [visited]. *)
Definition growing (bits : Z) (h : heap) (visited : list centry) (t : list Z * heap) : Prop :=
  Forall2 (chain t.2) t.1 (pushed bits visited) ∧ ∀ a, ¬ In a (addrs visited) → t.2 !! a = h !! a.

Lemma pushed_addrs bits es : 0 <= bits <= 64 → addrs (concat (pushed bits es)) ≡ₚ addrs es.
Proof. intros H. by apply Permutation_map, pushed_perm. Qed.

Lemma grow_step bits m h bs chs visited e rest t :
  0 <= bits <= 64 → rep_buckets m h bs chs → concat chs = visited ++ e :: rest → growing bits h visited t →
  ∃ t', grow_body hash_fn bits (addr e) t = Some t' ∧ growing bits h (visited ++ [e]) t'.
Proof.
  intros Hbits Hrep Hcat [Hc Hf]. destruct t as [nb h1], e as [[a k] v]. cbn [fst snd] in *.
  pose proof (rb_nodup _ _ _ _ Hrep) as Hn. rewrite Hcat in Hn.
  destruct (NoDup_addrs_middle visited (a, k, v) rest Hn) as [Hav _]. cbn in Hav.
  destruct (rep_entry m h bs chs (a, k, v) Hrep) as (next & Hl & Ha0); [rewrite Hcat; apply in_or_app; right; by left|].
  cbn in Hl, Ha0. rewrite <- Hf in Hl by done.
  pose proof (pushed_lookup bits visited k Hbits) as Hi.
  destruct (add_entry_ok nb h1 (pushed bits visited) (index bits k) _ a k v next Hc Hi) as (h' & E & Hc' & Hf' & _); [| |done..|].
  - rewrite pushed_addrs by done. rewrite addrs_app in Hn. by apply list.NoDup_app in Hn as (Hn & _).
  - rewrite <- list_elem_of_In, pushed_addrs, list_elem_of_In by done. done.
  - pose proof (hash_bits_range (hash_fn k) bits Hbits). unfold index in E. rewrite Z2Nat.id in E by lia.
    fold (index bits k) in E. unfold grow_body. rewrite Hl. cbn [mbind option_bind e_key]. rewrite E. eexists. split; [done|].
    split; cbn [fst snd]; [by rewrite pushed_snoc|]. intros b Hb. rewrite addrs_app, in_app_iff in Hb. cbn in Hb.
    rewrite Hf', Hf by (intuition congruence). done.
Qed.

Definition grown_bits (m : hashmap) : Z := Z.max HASHMAP_MIN_CAP_BITS (cap_bits m + 1).

Lemma grow_loop m h chs bits :
  rep m h chs → 0 <= bits <= 64 →
  ∃ t, for_each_entry_safe m (chain_fuel h) snd (grow_body hash_fn bits) (replicate (Z.to_nat (2 ^ bits)) 0, h) = Some t
    ∧ growing bits h (concat chs) t.
Proof.
  intros Hrep Hbits. assert (growing bits h [] (replicate (Z.to_nat (2 ^ bits)) 0, h)) as H0.
  { split; [|done]. unfold pushed. cbn. by apply Forall2_replicate. }
  unfold rep in Hrep. destruct (buckets m) as [bs|] eqn:Eb; [|destruct Hrep as [-> ->]; by eexists].
  apply (for_each_ok snd (grow_body hash_fn bits) h chs (growing bits h) (chain_fuel h)) with (bs := bs); try done.
  - intros visited rest t Hcat [_ Hf] a Ha. apply Hf. pose proof (rb_nodup _ _ _ _ Hrep) as Hn.
    rewrite Hcat, addrs_app in Hn. apply list.NoDup_app in Hn as (_ & Hn & _). setoid_rewrite list_elem_of_In in Hn.
    intros Hin. by apply (Hn a Hin).
  - intros visited e rest t Hcat Ht. by eapply grow_step.
  - apply Hrep.
  - apply Hrep.
  - by eapply rep_fuel.
Qed.

(** Growing rebuilds the chains: the entries of a key come out reversed. *)
Lemma grow_ok m h chs :
  rep m h chs →
  if calloc (2 ^ grown_bits m) then
    ∃ m' h' chs', hashmap_grow hash_fn calloc m h = Some (0, m', h') ∧ rep m' h' chs' ∧ sz m' = sz m
      ∧ cap_bits m' = grown_bits m ∧ is_Some (buckets m') ∧ concat chs' ≡ₚ concat chs
      ∧ (∀ key, entries_of key (concat chs') = rev (entries_of key (concat chs)))
      ∧ (∀ a, ¬ In a (addrs (concat chs)) → h' !! a = h !! a)
  else hashmap_grow hash_fn calloc m h = Some (- ENOMEM, m, h).
Proof.
  intros Hrep. assert (0 <= cap_bits m <= 60) as Hb.
  { unfold rep in Hrep. destruct (buckets m); [destruct (rb_bits _ _ _ _ Hrep); lia|destruct Hrep as [_ ->]; cbn; lia]. }
  assert ((if cap_bits m + 1 <? HASHMAP_MIN_CAP_BITS then HASHMAP_MIN_CAP_BITS else cap_bits m + 1) = grown_bits m) as Eb.
  { unfold grown_bits. destruct (Z.ltb_spec (cap_bits m + 1) HASHMAP_MIN_CAP_BITS); lia. }
  unfold hashmap_grow. rewrite Eb, Z.shiftl_1_l. destruct (calloc (2 ^ grown_bits m)) eqn:Ec; cbn [negb]; [|done].
  assert (2 <= grown_bits m <= 60) as Hg.
  { pose proof (calloc_bound _ Ec) as Hle. apply Z.pow_le_mono_r_iff in Hle; unfold grown_bits, HASHMAP_MIN_CAP_BITS in *; lia. }
  destruct (grow_loop m h chs (grown_bits m) Hrep ltac:(lia)) as ([nb h'] & -> & Hc & Hf). cbn [mbind option_bind fst snd] in *.
  exists (mkH (Some nb) (2 ^ grown_bits m) (grown_bits m) (sz m)), h', (pushed (grown_bits m) (concat chs)).
  split_and!; try done; [|apply pushed_perm; lia|intros key; apply pushed_entries; lia].
  split; cbn [cap cap_bits sz]; try done.
  - rewrite pushed_addrs by lia. unfold rep in Hrep. destruct (buckets m); [apply Hrep|]. destruct Hrep as [-> _]. constructor.
  - rewrite pushed_length. split; [lia|done].
  - rewrite pushed_perm by lia. unfold rep in Hrep. destruct (buckets m); [apply Hrep|]. by destruct Hrep as [-> ->].
  - intros i es Hi. eapply pushed_index, Hi. lia.
Qed.

(** ** The specification: a multimap *)

(** The entries of each key, the first of the chain first. *)
Definition multimap : Type := Z → list (Z * Z).

Definition mm_of (chs : list (list centry)) : multimap := λ key, entries_of key (concat chs).
Definition mm_set (M : multimap) (key : Z) (l : list (Z * Z)) : multimap := λ k, if equal_fn key k then l else M k.
Definition mm_rehash (grown : bool) (M : multimap) : multimap := λ k, if grown then rev (M k) else M k.

(** The strategies that create an entry, by the entries the key has. *)
Definition creates (strategy : hashmap_insert_strategy) (l : list (Z * Z)) : Prop :=
  match strategy with HASHMAP_ADD | HASHMAP_SET => l = [] | HASHMAP_UPDATE => False | HASHMAP_APPEND => True end.

(** What a client sees of a map: the entries of each key, their number and the
    number of buckets. *)
Record mstate : Type := mkMs { ms_map : multimap; ms_size : Z; ms_cap : Z }.

Definition same_state (S S' : mstate) : Prop := (∀ k, ms_map S k = ms_map S' k) ∧ ms_size S = ms_size S' ∧ ms_cap S = ms_cap S'.

(** One more entry would fill the buckets to more than three quarters; then the
    map gets twice as many, or the first four, if the memory is given, and the
    entries of each key are reversed. *)
Definition full (S : mstate) : bool := (ms_cap S =? 0) || (ms_cap S <? u64 (u64 (ms_size S + 1) * 4) / 3).
Definition next_cap (S : mstate) : Z := if ms_cap S =? 0 then 4 else 2 * ms_cap S.
Definition grown (S : mstate) : bool := full S && calloc (next_cap S).
Definition growth_fails (S : mstate) : Prop := full S = true ∧ calloc (next_cap S) = false.

Definition rehashed (S : mstate) : mstate := mkMs (mm_rehash (grown S) (ms_map S)) (ms_size S) (if grown S then next_cap S else ms_cap S).

Definition with_entries (S : mstate) (key : Z) (l : list (Z * Z)) (size : Z) : mstate := mkMs (mm_set (ms_map S) key l) size (ms_cap S).

(** The result, the old key and value and the state after an insertion, which
    left the heap [h]: it fails only when the buckets cannot be had, or no
    entry. *)
Inductive insert_spec (S : mstate) (key value : Z) (h : heap) : hashmap_insert_strategy → Z → Z * Z → mstate → Prop :=
| ins_exists k v tl : ms_map S key = (k, v) :: tl → insert_spec S key value h HASHMAP_ADD (- EEXIST) (k, v) S
| ins_overwrite strategy k v tl :
    strategy = HASHMAP_SET ∨ strategy = HASHMAP_UPDATE → ms_map S key = (k, v) :: tl →
    insert_spec S key value h strategy 0 (k, v) (with_entries S key ((key, value) :: tl) (ms_size S))
| ins_noent : ms_map S key = [] → insert_spec S key value h HASHMAP_UPDATE (- ENOENT) (0, 0) S
| ins_no_buckets strategy :
    creates strategy (ms_map S key) → growth_fails S → insert_spec S key value h strategy (- ENOMEM) (0, 0) S
| ins_no_entry strategy :
    creates strategy (ms_map S key) → ¬ growth_fails S → malloc h = None → insert_spec S key value h strategy (- ENOMEM) (0, 0) (rehashed S)
| ins_new strategy :
    creates strategy (ms_map S key) → ¬ growth_fails S →
    insert_spec S key value h strategy 0 (0, 0)
      (with_entries (rehashed S) key ((key, value) :: ms_map (rehashed S) key) (u64 (ms_size S + 1))).

(** The state of a map with these chains. *)
Definition state_of (m : hashmap) (chs : list (list centry)) : mstate := mkMs (mm_of chs) (sz m) (cap m).

Lemma entries_of_equal k1 k2 es : equal_fn k1 k2 = true → entries_of k1 es = entries_of k2 es.
Proof.
  intros He. induction es as [|[[a k] v] es IH]; [done|]. rewrite !entries_of_cons, IH.
  by rewrite (proj2 (equal_cong _ _ He k)).
Qed.

Lemma equal_sym k1 k2 : equal_fn k1 k2 = equal_fn k2 k1.
Proof.
  assert (∀ a b, equal_fn a b = true → equal_fn b a = true) as H.
  { intros a b Hab. rewrite <- (proj1 (equal_cong _ _ Hab a)). apply equal_refl. }
  destruct (equal_fn k1 k2) eqn:E1, (equal_fn k2 k1) eqn:E2; auto; [rewrite (H _ _ E1) in E2|rewrite (H _ _ E2) in E1]; done.
Qed.

(** A bucket is replaced: the multimap at every key. *)
Lemma mm_change m h bs chs key es' l :
  rep_buckets m h bs chs →
  (∀ es, chs !! index (cap_bits m) key = Some es →
     entries_of key es' = l ∧ ∀ k, equal_fn key k = false → entries_of k es' = entries_of k es) →
  ∀ k, mm_of (<[index (cap_bits m) key := es']> chs) k = mm_set (mm_of chs) key l k.
Proof.
  intros H Hes k. destruct (entries_in_bucket m h bs chs key H) as (es & Hi & _ & Hset).
  destruct (Hes es Hi) as [Hl Hk]. unfold mm_set, mm_of. destruct (equal_fn key k) eqn:E.
  - rewrite <- (entries_of_equal key k) by done. by rewrite Hset.
  - eapply entries_change; [done|]. by apply Hk.
Qed.

(** An entry of the key in the middle of a chain is skipped by other keys. *)
Lemma entries_middle k0 key es1 a k v es2 :
  equal_fn k key = true → equal_fn key k0 = false →
  entries_of k0 (es1 ++ (a, k, v) :: es2) = entries_of k0 (es1 ++ es2).
Proof.
  intros Hk H0. rewrite !entries_of_app, entries_of_cons.
  by rewrite (proj1 (equal_cong _ _ Hk k0)), H0.
Qed.

(** ** Insertion *)

Lemma rep_allocated m h bs chs a : rep_buckets m h bs chs → h !! a = None → ¬ In a (addrs (concat chs)).
Proof.
  intros H Ha Hin. apply in_map_iff in Hin as (e & <- & He).
  destruct (rep_entry m h bs chs e H He) as (next & Hl & _). congruence.
Qed.

Lemma insert_into m h bs chs key value p :
  rep_buckets m h bs chs → h !! p = None → p ≠ 0 →
  ∃ es bs' h', chs !! index (cap_bits m) key = Some es
    ∧ hashmap_add_entry bs (<[p := mkE key value 0]> h) (Bucket (hash_bits (hash_fn key) (cap_bits m))) p = Some (bs', h')
    ∧ rep_buckets (mkH (Some bs') (cap m) (cap_bits m) (u64 (sz m + 1))) h' bs'
        (<[index (cap_bits m) key := (p, key, value) :: es]> chs)
    ∧ frame h chs h' (<[index (cap_bits m) key := (p, key, value) :: es]> chs).
Proof.
  intros H Hp Hp0. destruct (entries_in_bucket m h bs chs key H) as (es & Hi & _ & _).
  pose proof (rep_allocated m h bs chs p H Hp) as Hfresh.
  pose proof (hash_bits_range (hash_fn key) (cap_bits m) ltac:(destruct (rb_bits _ _ _ _ H); lia)) as Hr.
  destruct (add_entry_ok bs (<[p := mkE key value 0]> h) chs (index (cap_bits m) key) es p key value 0)
    as (h' & E & _ & Hf & Hnew); try done.
  - apply (chains_frame h); [apply H|]. intros a Ha. apply lookup_insert_ne. congruence.
  - apply H.
  - by rewrite lookup_insert_eq.
  - unfold index in E at 1. rewrite Z2Nat.id in E by lia. eexists es, _, h'. split_and!; [done|exact E| |].
    + destruct (bucket_facts m h bs chs _ _ H Hi) as (q & _ & _ & Hn & Hb & _).
      assert (¬ In p (addrs es)) as Hpes.
      { intros Hin. apply Hfresh. rewrite <- (take_drop_middle chs _ es Hi), concat_app. cbn.
        rewrite !addrs_app, !in_app_iff. auto. }
      eapply rep_change; try done.
      * cbn. apply list.NoDup_cons. split; [by rewrite list_elem_of_In|done].
      * intros a Ha _. rewrite Hf, lookup_insert_ne by congruence. done.
      * intros a [<-|Ha]; [by right|by left].
      * by constructor.
      * rewrite (rb_sz _ _ _ _ H). cbn [length]. unfold u64. rewrite Zplus_mod_idemp_l. f_equal. lia.
    + destruct (addrs_change chs _ es ((p, key, value) :: es) Hi) as (R & H1 & H2 & _).
      apply frame_intro; intros a Ha Ha'; rewrite H1, H2 in *; cbn in *; [|tauto|].
      * destruct Ha as [[<-|Ha]|Ha]; [done|tauto..].
      * rewrite Hf, lookup_insert_ne by (intros ->; tauto). done.
Qed.

Definition grows (m : hashmap) : bool := hashmap_needs_to_grow m && calloc (2 ^ grown_bits m).

Lemma next_cap_eq m h chs : rep m h chs → 2 ^ grown_bits m = next_cap (state_of m chs).
Proof.
  unfold rep, next_cap, grown_bits, state_of, HASHMAP_MIN_CAP_BITS. cbn [ms_cap]. destruct (buckets m); [|by intros [_ ->]].
  intros [_ _ [_ ->] Hb _ _]. rewrite (proj2 (Z.eqb_neq _ _)) by (apply Z.pow_nonzero; lia). rewrite Z.max_r by lia. rewrite Z.pow_add_r by lia. lia.
Qed.

Lemma grows_eq m h chs : rep m h chs → grows m = grown (state_of m chs).
Proof. intros H. unfold grows, grown. by rewrite (next_cap_eq m h chs H). Qed.

Lemma growth_fails_eq m h chs : rep m h chs → growth_fails (state_of m chs) ↔ hashmap_needs_to_grow m = true ∧ calloc (2 ^ grown_bits m) = false.
Proof. intros H. by rewrite (next_cap_eq m h chs H). Qed.

Lemma grow_if_needed m h chs :
  rep m h chs → ∃ err m1 h1 chs1,
    (if hashmap_needs_to_grow m then hashmap_grow hash_fn calloc m h else Some (0, m, h)) = Some (err, m1, h1)
    ∧ rep m1 h1 chs1 ∧ same_state (state_of m1 chs1) (rehashed (state_of m chs)) ∧ frame h chs h1 chs1
    ∧ (err = 0 ∧ ¬ growth_fails (state_of m chs) ∧ is_Some (buckets m1) ∨ err = - ENOMEM ∧ growth_fails (state_of m chs)).
Proof.
  intros Hrep. pose proof (grow_ok m h chs Hrep) as Hg. pose proof (growth_fails_eq m h chs Hrep) as HG. unfold rehashed. rewrite <- (grows_eq m h chs Hrep).
  unfold grows. destruct (hashmap_needs_to_grow m) eqn:En; cbn [andb].
  - destruct (calloc (2 ^ grown_bits m)).
    + destruct Hg as (m1 & h1 & chs1 & -> & Hr & Hs & Hcb & Hb & Hp & He & Hf). exists 0, m1, h1, chs1.
      split_and!; [done|done| | |left; split; [done|]; split; [by intros [_ ?]%HG|done]].
      * split; [done|]. split; [done|]. cbn [ms_cap state_of]. rewrite <- (next_cap_eq m h chs Hrep), <- Hcb.
        unfold rep in Hr. destruct Hb as [bs Hb]. rewrite Hb in Hr. by destruct (rb_cap _ _ _ _ Hr).
      * assert (∀ a, In a (addrs (concat chs1)) ↔ In a (addrs (concat chs))) as Hin.
        { intros a. rewrite <- !list_elem_of_In. by rewrite (Permutation_map _ Hp : addrs _ ≡ₚ addrs _). }
        apply frame_intro; intros a Ha Ha'; rewrite Hin in *; [done..|]. by apply Hf.
    + rewrite Hg. exists (- ENOMEM), m, h, chs. split_and!; auto using frame_refl; [by split_and!|]. right. split; [done|by apply HG].
  - exists 0, m, h, chs. split_and!; auto using frame_refl; [by split_and!|]. left. split; [done|]. split; [by intros [? _]%HG|].
    unfold rep in Hrep. destruct (buckets m); [by eexists|]. by destruct Hrep as [_ ->].
Qed.

Lemma same_rehashed S : growth_fails S → same_state (rehashed S) S.
Proof. intros [Hf Hc]. unfold rehashed, grown. rewrite Hf, Hc. by split_and!. Qed.

Lemma same_trans S1 S2 S3 : same_state S1 S2 → same_state S2 S3 → same_state S1 S3.
Proof. intros (A1 & A2 & A3) (B1 & B2 & B3). split; [intros k; by rewrite A1|]. split; congruence. Qed.

Lemma same_refl S : same_state S S.
Proof. by split_and!. Qed.

Lemma insert_new_ok m h chs key value :
  rep m h chs → let S := state_of m chs in
  ∃ r chs', insert_new hash_fn malloc calloc m h key value = Some r ∧ rep (i_map r) (i_heap r) chs'
    ∧ i_old_key r = 0 ∧ i_old_value r = 0 ∧ frame h chs (i_heap r) chs'
    ∧ let S' := state_of (i_map r) chs' in
      (i_ret r = - ENOMEM ∧ growth_fails S ∧ same_state S' S
       ∨ i_ret r = - ENOMEM ∧ ¬ growth_fails S ∧ malloc (i_heap r) = None ∧ same_state S' (rehashed S)
       ∨ i_ret r = 0 ∧ ¬ growth_fails S
         ∧ same_state S' (with_entries (rehashed S) key ((key, value) :: ms_map (rehashed S) key) (u64 (ms_size S + 1)))).
Proof.
  intros Hrep. destruct (grow_if_needed m h chs Hrep) as (err & m1 & h1 & chs1 & E & Hrep1 & Hmm & Hf & Herr).
  cbv zeta. unfold insert_new. rewrite E. cbn [mbind option_bind]. destruct Herr as [(-> & Hng & [bs Hbs])|[-> Hc]].
  2: { cbn. eexists _, chs1. split; [done|]. cbn. do 4 (split; [done|]). left. split; [done|]. split; [done|].
       by eapply same_trans, same_rehashed. }
  cbn [Z.eqb negb]. destruct (malloc h1) as [p|] eqn:Em.
  2: { eexists _, chs1. split; [done|]. cbn. do 4 (split; [done|]). right. left. by split_and!. }
  destruct (malloc_fresh _ _ Em) as [Hp Hp0]. rewrite Hbs. cbn [mbind option_bind].
  unfold rep in Hrep1. rewrite Hbs in Hrep1. destruct Hmm as (Hmm & Hsz & Hcap). cbn [state_of ms_map ms_size ms_cap] in Hmm, Hsz, Hcap.
  destruct (insert_into m1 h1 bs chs1 key value p Hrep1 Hp Hp0) as (es & bs' & h2 & Hi & -> & Hrep2 & Hf2).
  cbn [mbind option_bind]. eexists _, _. split; [done|]. cbn [i_ret i_old_key i_old_value i_map i_heap].
  split_and!; [exact Hrep2|done|done|by eapply frame_trans|]. right. right. split; [done|]. split; [done|].
  split; [intros k|split; [cbn [ms_size state_of with_entries sz]; by rewrite Hsz|exact Hcap]]. cbn [ms_map state_of with_entries].
  rewrite (mm_change m1 h1 bs chs1 key _ ((key, value) :: mm_of chs1 key) Hrep1).
  - unfold mm_set. destruct (equal_fn key k); [by rewrite Hmm|apply Hmm].
  - intros es0 Hes0. rewrite Hi in Hes0. injection Hes0 as <-.
    destruct (entries_in_bucket m1 h1 bs chs1 key Hrep1) as (es1 & Hi1 & Hent & _). rewrite Hi in Hi1. injection Hi1 as <-.
    split; [rewrite entries_of_cons, equal_refl; cbn; unfold mm_of; by rewrite Hent|].
    intros x Hx. by rewrite entries_of_cons, Hx.
Qed.

Lemma insert_overwrite m h bs chs key value a es1 k v es2 next :
  rep_buckets m h bs chs → chs !! index (cap_bits m) key = Some (es1 ++ (a, k, v) :: es2) →
  equal_fn k key = true → Forall (λ e, equal_fn (ekey e) key = false) es1 → h !! a = Some (mkE k v next) →
  ∃ chs', rep_buckets m (<[a := mkE key value next]> h) bs chs'
    ∧ (∀ x, mm_of chs' x = mm_set (mm_of chs) key ((key, value) :: entries_of key es2) x)
    ∧ frame h chs (<[a := mkE key value next]> h) chs'.
Proof.
  intros H Hi Hk Hn Hl. exists (<[index (cap_bits m) key := es1 ++ (a, key, value) :: es2]> chs). split_and!.
  - by eapply update_ok.
  - eapply mm_change; [done|]. intros es Hes. rewrite Hi in Hes. injection Hes as <-. split.
    + rewrite entries_of_app, (entries_of_none key es1), entries_of_cons, equal_refl by done. done.
    + intros x Hx. rewrite (entries_middle x key es1 a k v es2) by done.
      by rewrite (entries_middle x key es1 a key value es2) by (done || apply equal_refl).
  - destruct (addrs_change chs _ _ (es1 ++ (a, key, value) :: es2) Hi) as (R & H1 & H2 & _).
    assert (addrs (es1 ++ (a, key, value) :: es2) = addrs (es1 ++ (a, k, v) :: es2)) as Ha by (by rewrite !addrs_app).
    rewrite Ha in H2. apply frame_intro; intros b Hb Hb'; rewrite H1, H2 in *; [tauto..|].
    apply lookup_insert_ne. intros ->. apply Hb. left. rewrite addrs_app, in_app_iff. right. by left.
Qed.

(** ** Every operation against the specification *)

Lemma find_cases m h chs key :
  rep m h chs →
  ∃ r, hashmap_find_entry equal_fn m h key (hash_bits (hash_fn key) (cap_bits m)) = Some r
    ∧ match r with
      | None => mm_of chs key = []
      | Some (s, a) => ∃ bs es1 k v es2 next,
          buckets m = Some bs ∧ rep_buckets m h bs chs ∧ chs !! index (cap_bits m) key = Some (es1 ++ (a, k, v) :: es2)
          ∧ s = slot_after (Bucket (hash_bits (hash_fn key) (cap_bits m))) es1
          ∧ equal_fn k key = true ∧ Forall (λ e, equal_fn (ekey e) key = false) es1
          ∧ mm_of chs key = (k, v) :: entries_of key es2 ∧ h !! a = Some (mkE k v next)
      end.
Proof.
  intros Hrep. destruct (find_entry_ok m h chs key Hrep) as (r & E & Hr). exists r. split; [done|].
  destruct r as [[s a]|]; [|done]. destruct Hr as (bs & es1 & k & v & es2 & Hbs & Hi & Hs & Hk & Hn & He).
  unfold rep in Hrep. rewrite Hbs in Hrep.
  destruct (rep_entry m h bs chs (a, k, v) Hrep) as (next & Hl & _).
  { apply in_concat. eexists. split; [by eapply list_elem_of_In, list_elem_of_lookup_2|]. apply in_or_app. right. by left. }
  by exists bs, es1, k, v, es2, next.
Qed.

Lemma find_ok m h chs key :
  rep m h chs → hashmap_find hash_fn equal_fn m h key = Some (snd <$> head (mm_of chs key)).
Proof.
  intros Hrep. unfold hashmap_find. destruct (find_cases m h chs key Hrep) as ([[s a]|] & -> & H); cbn [mbind option_bind].
  - destruct H as (bs & es1 & k & v & es2 & next & _ & _ & _ & _ & _ & _ & -> & ->). done.
  - by rewrite H.
Qed.

Lemma insert_ok m h chs key value strategy :
  rep m h chs → ∃ r chs' S, hashmap_insert hash_fn equal_fn malloc calloc m h key value strategy = Some r
    ∧ rep (i_map r) (i_heap r) chs' ∧ frame h chs (i_heap r) chs'
    ∧ insert_spec (state_of m chs) key value (i_heap r) strategy (i_ret r) (i_old_key r, i_old_value r) S ∧ same_state (state_of (i_map r) chs') S.
Proof.
  intros Hrep. assert (creates strategy (mm_of chs key) →
    ∃ r chs' S, insert_new hash_fn malloc calloc m h key value = Some r ∧ rep (i_map r) (i_heap r) chs'
      ∧ frame h chs (i_heap r) chs'
      ∧ insert_spec (state_of m chs) key value (i_heap r) strategy (i_ret r) (i_old_key r, i_old_value r) S ∧ same_state (state_of (i_map r) chs') S) as Hnew.
  { intros Hc. destruct (insert_new_ok m h chs key value Hrep) as (r & chs' & E & Hr & Hk & Hv & Hf & [(Ht & Hg & Hm)|[(Ht & Hg & Ha & Hm)|(Ht & Hg & Hm)]]);
      eexists r, chs', _; rewrite Hk, Hv, Ht; (split_and!; [done..| |exact Hm]); [by apply ins_no_buckets|by apply ins_no_entry|by apply ins_new]. }
  unfold hashmap_insert. destruct strategy; [| | |by apply Hnew].
  all: destruct (find_cases m h chs key Hrep) as ([[s a]|] & -> & H); cbn [mbind option_bind].
  all: try (by apply Hnew).
  all: try destruct H as (bs & es1 & k & v & es2 & next & Hbs & Hb & Hi & _ & Hk & Hn & Hm & Hl); try rewrite Hl;
    cbn [mbind option_bind e_key e_value e_next].
  - eexists _, chs, _. split; [done|]. cbn. split_and!; [done|apply frame_refl|by apply (ins_exists _ _ _ _ k v (entries_of key es2))|apply same_refl].
  - destruct (insert_overwrite m h bs chs key value a es1 k v es2 next Hb Hi Hk Hn Hl) as (chs' & Hr & Hm' & Hf).
    eexists _, chs', _. split; [done|]. cbn. split_and!; [|done|apply ins_overwrite; [by left|exact Hm]|by split_and!].
    unfold rep. by rewrite Hbs.
  - destruct (insert_overwrite m h bs chs key value a es1 k v es2 next Hb Hi Hk Hn Hl) as (chs' & Hr & Hm' & Hf).
    eexists _, chs', _. split; [done|]. cbn. split_and!; [|done|apply ins_overwrite; [by right|exact Hm]|by split_and!].
    unfold rep. by rewrite Hbs.
  - eexists _, chs, _. split; [done|]. cbn. split_and!; [done|apply frame_refl|by apply ins_noent|apply same_refl].
Qed.

(** When an insertion fails for want of memory, an allocation failed. *)
Lemma insert_nomem m h chs key value h' strategy old S :
  rep m h chs → insert_spec (state_of m chs) key value h' strategy (- ENOMEM) old S →
  hashmap_needs_to_grow m = true ∧ calloc (2 ^ grown_bits m) = false ∨ malloc h' = None.
Proof. intros Hrep H. inversion H; subst; [left; by apply (growth_fails_eq m h chs Hrep)|by right]. Qed.

(** The first entry of the key is taken away. *)
Definition deleted (S : mstate) (key : Z) : mstate :=
  with_entries S key (tail (ms_map S key)) (match ms_map S key with [] => ms_size S | _ :: _ => u64 (ms_size S - 1) end).

Lemma delete_ok m h chs key :
  rep m h chs → ∃ m' h' chs', hashmap_delete hash_fn equal_fn m h key = Some (head (mm_of chs key), m', h')
    ∧ rep m' h' chs' ∧ frame h chs h' chs' ∧ same_state (state_of m' chs') (deleted (state_of m chs) key).
Proof.
  intros Hrep. unfold hashmap_delete. destruct (find_cases m h chs key Hrep) as ([[s a]|] & -> & H); cbn [mbind option_bind].
  - destruct H as (bs & es1 & k & v & es2 & next & Hbs & Hb & Hi & -> & Hk & Hn & Hm & Hl). rewrite Hl, Hbs. cbn [mbind option_bind].
    destruct (unlink_ok m h bs chs _ key es1 a k v es2 Hb Hbs Hi eq_refl) as (bs' & h' & -> & Hr & Hf).
    cbn [mbind option_bind e_key e_value]. rewrite Hm. cbn [head tail]. eexists _, _, _.
    split_and!; [done|exact Hr|exact Hf|]. unfold deleted. cbn [ms_map state_of]. rewrite Hm. split; [|by split].
    eapply mm_change; [done|]. intros es Hes. rewrite Hi in Hes. injection Hes as <-.
    split; [by rewrite entries_of_app, (entries_of_none key es1)|]. intros x Hx. symmetry. by eapply entries_middle.
  - rewrite H. exists m, h, chs. split_and!; [done|done|apply frame_refl|]. unfold deleted. cbn [ms_map state_of]. rewrite H.
    split; [|by split]. intros k. cbn [ms_map with_entries state_of]. unfold mm_set.
    destruct (equal_fn key k) eqn:E; [|done]. unfold mm_of in *. by rewrite <- (entries_of_equal key k).
Qed.

Lemma clear_ok m h chs :
  rep m h chs → ∃ h', hashmap__clear m h = Some (hashmap__init, h', [Buckets]) ∧ frame h chs h' [].
Proof.
  intros Hrep. unfold hashmap__clear. set (body := λ cur (h : heap), Some (free h cur)).
  set (I := λ (visited : list centry) (h1 : heap), (∀ a, In a (addrs visited) → h1 !! a = None)
    ∧ ∀ a, ¬ In a (addrs visited) → h1 !! a = h !! a).
  assert (∃ h', for_each_entry_safe m (chain_fuel h) id body h = Some h' ∧ I (concat chs) h') as (h' & -> & H1 & H2).
  { unfold rep in Hrep. destruct (buckets m) as [bs|] eqn:Eb; [|destruct Hrep as [-> ->]; by eexists].
    apply (for_each_ok id body h chs I (chain_fuel h)) with (bs := bs); try done;
      [| |apply Hrep|apply Hrep|by eapply rep_fuel].
    - intros visited rest t Hcat [_ Hf] a Ha. apply Hf. pose proof (rb_nodup _ _ _ _ Hrep) as Hn.
      rewrite Hcat, addrs_app in Hn. apply list.NoDup_app in Hn as (_ & Hn & _). setoid_rewrite list_elem_of_In in Hn.
      intros Hin. by apply (Hn a Hin).
    - intros visited e rest t Hcat [G1 G2]. eexists. split; [done|]. unfold free.
      split; intros a Ha; rewrite addrs_app, in_app_iff in Ha; cbn in Ha.
      + destruct (decide (a = addr e)) as [->|]; [apply lookup_delete_eq|]. rewrite lookup_delete_ne by done. apply G1.
        destruct Ha as [Ha|[Ha|[]]]; [done|by subst].
      + rewrite lookup_delete_ne by (intros <-; tauto). apply G2. tauto. }
  cbn [mbind option_bind]. exists h'. split; [done|]. apply frame_intro; cbn; [done|auto|auto].
Qed.

(** ** Sequences of operations *)

Inductive op : Type :=
| OpInsert (strategy : hashmap_insert_strategy) (key value : Z)
| OpFind (key : Z)
| OpDelete (key : Z)
| OpSize
| OpCapacity
| OpClear.

Inductive result : Type :=
| ResInsert (ret : Z) (old : Z * Z)
| ResFind (value : option Z)
| ResDelete (old : option (Z * Z))
| ResNumber (n : Z)
| ResClear.

Definition step (s : hashmap * heap) (o : op) : option (result * (hashmap * heap)) :=
  let '(m, h) := s in
  match o with
  | OpInsert strategy key value =>
      r ← hashmap_insert hash_fn equal_fn malloc calloc m h key value strategy;
      Some (ResInsert (i_ret r) (i_old_key r, i_old_value r), (i_map r, i_heap r))
  | OpFind key => v ← hashmap_find hash_fn equal_fn m h key; Some (ResFind v, s)
  | OpDelete key => '(old, m, h) ← hashmap_delete hash_fn equal_fn m h key; Some (ResDelete old, (m, h))
  | OpSize => Some (ResNumber (hashmap__size m), s)
  | OpCapacity => Some (ResNumber (hashmap__capacity m), s)
  | OpClear => '(m, h, _) ← hashmap__clear m h; Some (ResClear, (m, h))
  end.

(** Each result with the heap that the operation left. *)
Fixpoint run (ops : list op) (s : hashmap * heap) : option (list (result * heap) * (hashmap * heap)) :=
  match ops with
  | [] => Some ([], s)
  | o :: ops => '(r, s) ← step s o; '(rs, s') ← run ops s; Some ((r, s.2) :: rs, s')
  end.

(** The same operations on the multimap. *)
Inductive mm_step (S : mstate) : op → result → heap → mstate → Prop :=
| mm_insert strategy key value ret old h S1 S2 :
    insert_spec S key value h strategy ret old S1 → same_state S2 S1 →
    mm_step S (OpInsert strategy key value) (ResInsert ret old) h S2
| mm_find key h : mm_step S (OpFind key) (ResFind (snd <$> head (ms_map S key))) h S
| mm_delete key h S2 : same_state S2 (deleted S key) → mm_step S (OpDelete key) (ResDelete (head (ms_map S key))) h S2
| mm_size h : mm_step S OpSize (ResNumber (ms_size S)) h S
| mm_capacity h : mm_step S OpCapacity (ResNumber (ms_cap S)) h S
| mm_clear h S2 : same_state S2 (mkMs (λ _, []) 0 0) → mm_step S OpClear ResClear h S2.

Inductive mm_run : mstate → list op → list (result * heap) → mstate → Prop :=
| mm_run_nil S : mm_run S [] [] S
| mm_run_cons S1 S2 S3 o ops r h rs : mm_step S1 o r h S2 → mm_run S2 ops rs S3 → mm_run S1 (o :: ops) ((r, h) :: rs) S3.

Lemma step_ok m h chs o :
  rep m h chs → ∃ r m' h' chs', step (m, h) o = Some (r, (m', h')) ∧ rep m' h' chs' ∧ frame h chs h' chs'
    ∧ mm_step (state_of m chs) o r h' (state_of m' chs').
Proof.
  intros Hrep. destruct o as [strategy key value|key|key| | |]; cbn [step].
  - destruct (insert_ok m h chs key value strategy Hrep) as (r & chs' & S & -> & Hr & Hf & Hs & HM). cbn.
    eexists _, _, _, chs'. split_and!; [done|done|done|by eapply mm_insert].
  - rewrite (find_ok m h chs key Hrep). cbn. eexists _, _, _, chs. split_and!; [done|done|apply frame_refl|apply (mm_find (state_of m chs))].
  - destruct (delete_ok m h chs key Hrep) as (m' & h' & chs' & -> & Hr & Hf & HM). cbn.
    eexists _, _, _, chs'. split_and!; [done|done|done|by apply (mm_delete (state_of m chs))].
  - eexists _, _, _, chs. split_and!; [done|done|apply frame_refl|apply (mm_size (state_of m chs))].
  - eexists _, _, _, chs. split_and!; [done|done|apply frame_refl|apply (mm_capacity (state_of m chs))].
  - destruct (clear_ok m h chs Hrep) as (h' & -> & Hf). cbn.
    eexists _, _, _, []. split_and!; [done|done|done|by apply mm_clear].
Qed.

Lemma run_ok ops : ∀ m h chs, rep m h chs →
  ∃ rs m' h' chs', run ops (m, h) = Some (rs, (m', h')) ∧ rep m' h' chs' ∧ frame h chs h' chs'
    ∧ mm_run (state_of m chs) ops rs (state_of m' chs').
Proof.
  induction ops as [|o ops IH]; intros m h chs Hrep; cbn [run].
  - eexists _, _, _, chs. split_and!; [done|done|apply frame_refl|constructor].
  - destruct (step_ok m h chs o Hrep) as (r & m1 & h1 & chs1 & -> & Hr1 & Hf1 & Hs). cbn [mbind option_bind snd].
    destruct (IH m1 h1 chs1 Hr1) as (rs & m2 & h2 & chs2 & -> & Hr2 & Hf2 & Hrun). cbn [mbind option_bind].
    eexists _, _, _, chs2. split_and!; [done|done|by eapply frame_trans|by econstructor].
Qed.

Lemma free_map_ok m h0 h chs : rep m h chs → frame h0 [] h chs → hashmap__free (Some (inr m)) h = Some (h0, [Buckets; MapStruct]).
Proof.
  intros Hr Hf. destruct (clear_ok m h chs Hr) as (h2 & Hc & Hf2). cbn [hashmap__free]. rewrite Hc. cbn [mbind option_bind app].
  do 2 f_equal. apply map_eq. intros a. exact (frame_trans _ _ _ _ _ _ Hf Hf2 a).
Qed.

(** ** The theorems *)

(** C20: on any sequence of operations, the hash map never follows a pointer
    that is not allocated nor leaves its bucket array, and gives the results of
    its specification, a multimap with its size and the number of its buckets:
    an insertion that has to create an entry does so, and returns -ENOMEM only
    when it has to grow and the new buckets cannot be had, or when [malloc]
    gives no entry; the entries of a key are reversed exactly when the map
    grows. Freeing it gives back every entry once, its buckets and itself, and
    no other memory was written. *)
Theorem hashmap_refines_multimap ops h :
  ∃ rs m' h' chs, run ops (hashmap__init, h) = Some (rs, (m', h')) ∧ rep m' h' chs
    ∧ mm_run (mkMs (λ _, []) 0 0) ops rs (state_of m' chs)
    ∧ hashmap__free (Some (inr m')) h' = Some (h, [Buckets; MapStruct]).
Proof.
  destruct (run_ok ops hashmap__init h []) as (rs & m' & h' & chs & E & Hr & Hf & Hm); [done|]. exists rs, m', h', chs.
  split_and!; [done|done|exact Hm|]. by eapply free_map_ok.
Qed.

(** [hashmap.h] says that [hashmap__find] on a map filled with
    HASHMAP_APPEND returns the last entry inserted for the key.  An insertion
    of any other key that makes the map grow reverses the entries of the key:
    from then on the first one inserted is returned. *)
Theorem growth_reverses_entries m h chs key value k :
  rep m h chs → hashmap_needs_to_grow m = true → calloc (2 ^ grown_bits m) = true → (∀ h, is_Some (malloc h)) →
  mm_of chs key = [] → equal_fn key k = false →
  ∃ r chs', hashmap_insert hash_fn equal_fn malloc calloc m h key value HASHMAP_ADD = Some r ∧ i_ret r = 0
    ∧ rep (i_map r) (i_heap r) chs' ∧ mm_of chs' k = rev (mm_of chs k)
    ∧ hashmap_find hash_fn equal_fn m h k = Some (snd <$> head (mm_of chs k))
    ∧ hashmap_find hash_fn equal_fn (i_map r) (i_heap r) k = Some (snd <$> list.last (mm_of chs k)).
Proof.
  intros Hrep Hg Hc Hm Hnone Hk. destruct (insert_new_ok m h chs key value Hrep) as (r & chs' & E & Hr & _ & _ & _ & H).
  assert (hashmap_insert hash_fn equal_fn malloc calloc m h key value HASHMAP_ADD = Some r) as Ei.
  { unfold hashmap_insert. destruct (find_cases m h chs key Hrep) as ([[s a]|] & -> & Hf); [|done].
    destruct Hf as (bs & es1 & k' & v & es2 & next & _ & _ & _ & _ & _ & _ & Hf & _). by rewrite Hnone in Hf. }
  destruct H as [(_ & Hcf & _)|[(_ & _ & Hmf & _)|(Ht & _ & Hmm & _)]].
  { apply (growth_fails_eq m h chs Hrep) in Hcf as [_ Hcf]. congruence. }
  { destruct (Hm (i_heap r)). congruence. }
  assert (mm_of chs' k = rev (mm_of chs k)) as Hrev.
  { specialize (Hmm k). cbn [ms_map state_of with_entries] in Hmm. rewrite Hmm. unfold mm_set. rewrite Hk. cbn [ms_map rehashed].
    rewrite <- (grows_eq m h chs Hrep). unfold mm_rehash, grows. by rewrite Hg, Hc. }
  exists r, chs'. split_and!; [done..|by apply find_ok|]. rewrite (find_ok _ _ chs') by done. rewrite Hrev.
  rewrite rev_alt. by rewrite <- head_reverse.
Qed.
End map.

(** ** A concrete map *)

Definition fresh_address (h : heap) : option Z := Some (1 + map_fold (λ a _ m, Z.max a m) 0 h).

Instance fresh_allocator : Allocator fresh_address (λ n, n <=? 2 ^ 60).
Proof.
  assert (∀ h : heap, (∀ a e, h !! a = Some e → a <= map_fold (λ a _ m, Z.max a m) 0 h)
    ∧ 0 <= map_fold (λ a _ m, Z.max a m) 0 h) as Hmax.
  { intros h. apply (map_fold_weak_ind (λ m (h : heap), (∀ a e, h !! a = Some e → a <= m) ∧ 0 <= m)).
    - split; [|lia]. intros a e Ha. by rewrite lookup_empty in Ha.
    - intros a e h' m Hh' [IH H0]. split; [|lia]. intros b e' Hb. destruct (decide (b = a)) as [->|Hne]; [lia|].
      rewrite lookup_insert_ne in Hb by done. specialize (IH b e' Hb). lia. }
  split.
  - intros h p [= <-]. destruct (Hmax h) as [H1 H0]. split; [|lia].
    destruct (h !! (1 + map_fold (λ a _ m, Z.max a m) 0 h)) eqn:E; [|done]. specialize (H1 _ _ E). lia.
  - intros n Hn. by apply Z.leb_le.
Qed.

(** Keys compared as numbers; all of them hash to 0 or 1. *)
Instance parity_key : HashKey (λ k, k mod 2) Z.eqb.
Proof.
  split.
  - apply Z.eqb_refl.
  - intros k1 k2 ->%Z.eqb_eq k. done.
  - intros k1 k2 ->%Z.eqb_eq. done.
Qed.

Abbreviation parity_run := (run (λ k, k mod 2) Z.eqb fresh_address (λ n, n <=? 2 ^ 60)).

(** Two values of key 7, and two other keys: the next insertion grows. *)
Definition four_entries : list op :=
  [OpInsert HASHMAP_APPEND 7 1; OpInsert HASHMAP_APPEND 7 2; OpInsert HASHMAP_ADD 8 5].

Definition ten_ops : list op :=
  four_entries ++ [OpFind 7; OpInsert HASHMAP_ADD 7 9; OpCapacity; OpInsert HASHMAP_ADD 9 6; OpFind 7; OpCapacity; OpDelete 8; OpFind 8; OpSize].

Lemma hashmap_refines_multimap_witness :
  ∃ rs m' h' chs, parity_run ten_ops (hashmap__init, ∅) = Some (rs, (m', h')) ∧ rep (λ k, k mod 2) m' h' chs
    ∧ mm_run Z.eqb fresh_address (λ n, n <=? 2 ^ 60) (mkMs (λ _, []) 0 0) ten_ops rs (state_of Z.eqb m' chs)
    ∧ hashmap__free (Some (inr m')) h' = Some (∅, [Buckets; MapStruct])
    ∧ map fst rs = [ResInsert 0 (0, 0); ResInsert 0 (0, 0); ResInsert 0 (0, 0); ResFind (Some 2); ResInsert (- EEXIST) (7, 2); ResNumber 4;
                    ResInsert 0 (0, 0); ResFind (Some 1); ResNumber 8; ResDelete (Some (8, 5)); ResFind None; ResNumber 3].
Proof.
  destruct (hashmap_refines_multimap (λ k, k mod 2) Z.eqb fresh_address (λ n, n <=? 2 ^ 60) ten_ops ∅) as (rs & m' & h' & chs & E & H1 & H2 & H3).
  exists rs, m', h', chs. do 4 (split; [done|]). vm_compute in E. injection E as <- _ _. vm_compute. reflexivity.
Defined.

(** The state after [four_entries]. *)
Definition four_map : hashmap := mkH (Some [3; 0; 2; 0]) 4 2 3.
Definition four_heap : heap := {[1 := mkE 7 1 0; 2 := mkE 7 2 1; 3 := mkE 8 5 0]}.
Definition four_chains : list (list centry) := [[(3, 8, 5)]; []; [(2, 7, 2); (1, 7, 1)]; []].

Lemma four_rep : rep (λ k, k mod 2) four_map four_heap four_chains.
Proof.
  split; try done.
  - repeat first [constructor|split|eexists|done].
  - cbn. repeat constructor; rewrite list_elem_of_In; cbn; lia.
  - intros i es Hi. do 4 (destruct i as [|i]; [injection Hi as <-; repeat constructor|]). done.
Qed.

Lemma growth_reverses_entries_witness :
  ∃ r chs', hashmap_insert (λ k, k mod 2) Z.eqb fresh_address (λ n, n <=? 2 ^ 60) four_map four_heap 9 6 HASHMAP_ADD = Some r
    ∧ i_ret r = 0 ∧ rep (λ k, k mod 2) (i_map r) (i_heap r) chs' ∧ mm_of Z.eqb chs' 7 = [(7, 1); (7, 2)]
    ∧ hashmap_find (λ k, k mod 2) Z.eqb four_map four_heap 7 = Some (Some 2)
    ∧ hashmap_find (λ k, k mod 2) Z.eqb (i_map r) (i_heap r) 7 = Some (Some 1).
Proof.
  apply (growth_reverses_entries (λ k, k mod 2) Z.eqb fresh_address (λ n, n <=? 2 ^ 60) four_map four_heap four_chains 9 6 7);
    [exact four_rep|reflexivity|reflexivity|intros h; eexists; reflexivity|reflexivity|reflexivity].
Defined.
