(* ===== verification/Strset.v ===== *)
(** * Sets of strings ([lib/libbpf/src/strset.c])

    The strings are stored one after the other in one region of memory, each
    with its NUL, and the keys of a hash map are their offsets; a string is
    looked up by appending it behind the strings first.  The region is a list
    of as many bytes as were allocated.  What [malloc], [calloc] and [realloc]
    return is a parameter; what is freed with a set is listed. *)

From stdpp Require Import gmap.
From S2P Require Import Prelude Hashmap.

(** ** Growing memory ([btf.c]) *)

(** Whether the memory is given; the product must not overflow. *)
Definition libbpf_reallocarray (realloc : Z → bool) (nmemb size : Z) : bool :=
  if 2 ^ 64 <=? nmemb * size then false else realloc (nmemb * size).

(** The region is the list of its elements, of [elem_sz] bytes each.  The result
    is the new region and capacity and the index of the first unused element, or
    [None] for NULL. *)
Definition libbpf_add_mem (realloc : Z → bool) (data : list Z) (cap_cnt elem_sz cur_cnt max_cnt add_cnt : Z)
    : option (list Z * Z * Z) :=
  if u64 (cur_cnt + add_cnt) <=? cap_cnt then Some (data, cap_cnt, cur_cnt) else
  if max_cnt <? u64 (cur_cnt + add_cnt) then None else
  let new_cnt := cap_cnt in
  let new_cnt := u64 (new_cnt + new_cnt / 4) in
  let new_cnt := if new_cnt <? 16 then 16 else new_cnt in
  let new_cnt := if max_cnt <? new_cnt then max_cnt else new_cnt in
  let new_cnt := if new_cnt <? u64 (cur_cnt + add_cnt) then u64 (cur_cnt + add_cnt) else new_cnt in
  if negb (libbpf_reallocarray realloc new_cnt elem_sz) then None else
  Some (data ++ replicate (Z.to_nat (new_cnt - cap_cnt)) 0, new_cnt, cur_cnt).

(** The capacity of a region that is made to hold [need_cnt] elements, or the
    error. *)
Definition libbpf_ensure_mem (realloc : Z → bool) (data : list Z) (cap_cnt elem_sz need_cnt : Z) : Z * list Z * Z :=
  if need_cnt <=? cap_cnt then (0, data, cap_cnt) else
  match libbpf_add_mem realloc data cap_cnt elem_sz cap_cnt (2 ^ 64 - 1) (u64 (need_cnt - cap_cnt)) with
  | None => (- ENOMEM, data, cap_cnt)
  | Some (data, cap_cnt, _) => (0, data, cap_cnt)
  end.

(** ** The set *)

Record strset : Type := mkSet {
  strs_data : list Z; strs_data_len : Z; strs_data_cap : Z; strs_data_max_len : Z; strs_hash : hashmap;
}.

(** The bytes up to the NUL, or to the end of the region. *)
Fixpoint until_nul (l : list Z) : list Z :=
  match l with [] => [] | b :: l' => if b =? 0 then [] else b :: until_nul l' end.

Definition cstr_at (data : list Z) (off : Z) : list Z := until_nul (drop (Z.to_nat off) data).

(** [strlen]; without a NUL it reads outside of the region. *)
Definition strlen_at (data : list Z) (off : Z) : option Z :=
  let n := zlen (cstr_at data off) in
  _ ← aget data (off + n); Some n.

Definition strset_hash_fn (data : list Z) (key : Z) : Z := str_hash (cstr_at data key).
Definition strset_equal_fn (data : list Z) (key1 key2 : Z) : bool := bool_decide (cstr_at data key1 = cstr_at data key2).

(** The pointers of a set that are given to [free], which does nothing for
    NULL. *)
Inductive set_block : Type :=
| OfMap (b : map_block)
| StrsData
| SetStruct.

(** Freeing a set, of which [hash] may not be there yet. *)
Definition free_set (hash : option (Z + hashmap)) (h : heap) : option (heap * list set_block) :=
  '(h, freed) ← hashmap__free hash h;
  Some (h, map OfMap freed ++ [StrsData; SetStruct]).

Section strset.
Variable malloc : heap → option Z.
Variable calloc : Z → bool.
Variable realloc : Z → bool.

(** The loop of [strset__new] on the offset, the map, the heap and [err]; an
    error other than [-EEXIST] leaves it. *)
Definition new_body (data : list Z) (len : Z) (s : Z * hashmap * heap * Z) : option (ctl (Z * hashmap * heap * Z)) :=
  let '(off, hash, h, err) := s in
  if len <=? off then Some (Break (off, hash, h, 0)) else
  r ← hashmap_insert (strset_hash_fn data) (strset_equal_fn data) malloc calloc hash h off off HASHMAP_ADD;
  if negb (i_ret r =? - EEXIST) && negb (i_ret r =? 0) then Some (Break (off, i_map r, i_heap r, i_ret r)) else
  n ← strlen_at data off;
  Some (Next (off + (n + 1), i_map r, i_heap r, i_ret r)).

(** [init_data] is NULL or [init_data_sz] bytes; [set_ok], [hash_ok] and
    [data_ok] say whether the three allocations succeed.  The result is an
    error, with what was freed on its way, or the set. *)
Definition strset__new (set_ok hash_ok data_ok : bool) (max_data_sz : Z) (init_data : option (list Z)) (h : heap)
    : option ((Z * list set_block + strset) * heap) :=
  if negb set_ok then Some (inl (- ENOMEM, []), h) else
  let err_out err hash h := '(h, freed) ← free_set hash h; Some (inl (err, freed), h) in
  match hashmap__new hash_ok with
  | inl _ => err_out (- ENOMEM) None h
  | inr hash =>
      match init_data with
      | None => Some (inr (mkSet [] 0 0 max_data_sz hash), h)
      | Some init =>
          if negb data_ok then err_out (- ENOMEM) (Some (inr hash)) h else
          '(_, hash, h, err) ← while_loop (S (length init)) (new_body init (zlen init)) (0, hash, h, 0);
          if negb (err =? 0) then err_out err (Some (inr hash)) h
          else Some (inr (mkSet init (zlen init) (zlen init) max_data_sz hash), h)
      end
  end.

Definition strset__free (set : option strset) (h : heap) : option (heap * list set_block) :=
  match set with
  | None => Some (h, [])
  | Some set => free_set (Some (inr (strs_hash set))) h
  end.

Definition strset__data_size (set : strset) : Z := strs_data_len set.
Definition strset__data (set : strset) : list Z := strs_data set.

Definition strset_add_str_mem (set : strset) (add_sz : Z) : option (strset * Z) :=
  match libbpf_add_mem realloc (strs_data set) (strs_data_cap set) 1 (strs_data_len set) (strs_data_max_len set) add_sz with
  | None => None
  | Some (data, cap, p) => Some (mkSet data (strs_data_len set) cap (strs_data_max_len set) (strs_hash set), p)
  end.

(** [memcpy(p, s, len)] with the NUL. *)
Definition copy_str (set : strset) (p : Z) (s : list Z) : option strset :=
  data ← aset_list (strs_data set) p (s ++ [0]);
  Some (mkSet data (strs_data_len set) (strs_data_cap set) (strs_data_max_len set) (strs_hash set)).

(** [s] is the string without its NUL. *)
Definition strset__find_str (set : strset) (h : heap) (s : list Z) : option (Z * strset) :=
  let len := zlen s + 1 in
  match strset_add_str_mem set len with
  | None => Some (- ENOMEM, set)
  | Some (set, p) =>
      let new_off := strs_data_len set in
      set ← copy_str set p s;
      found ← hashmap_find (strset_hash_fn (strs_data set)) (strset_equal_fn (strs_data set)) (strs_hash set) h new_off;
      match found with
      | Some old_off => Some (s32 old_off, set)
      | None => Some (- ENOENT, set)
      end
  end.

Definition strset__add_str (set : strset) (h : heap) (s : list Z) : option (Z * strset * heap) :=
  let len := zlen s + 1 in
  match strset_add_str_mem set len with
  | None => Some (- ENOMEM, set, h)
  | Some (set, p) =>
      let new_off := strs_data_len set in
      set ← copy_str set p s;
      r ← hashmap_insert (strset_hash_fn (strs_data set)) (strset_equal_fn (strs_data set)) malloc calloc
            (strs_hash set) h new_off new_off HASHMAP_ADD;
      let set := mkSet (strs_data set) (strs_data_len set) (strs_data_cap set) (strs_data_max_len set) (i_map r) in
      if i_ret r =? - EEXIST then Some (s32 (i_old_key r), set, i_heap r) else
      if negb (i_ret r =? 0) then Some (i_ret r, set, i_heap r) else
      Some (s32 new_off,
            mkSet (strs_data set) (strs_data_len set + len) (strs_data_cap set) (strs_data_max_len set) (i_map r), i_heap r)
  end.
End strset.
