(* ===== verification/StrsetCorrect.v ===== *)
(** * Correctness of the sets of strings

    A set holds the strings that were added, each once, and the offset that is
    returned for a string is the same for ever.  The hash map is used through
    its specification as a multimap, for the equality of the strings at two
    offsets. *)

From stdpp Require Import gmap.
From S2P Require Import Prelude Hashmap HashmapCorrect Strset.

(** ** Growing memory *)

(** What [libbpf_add_mem] returns: the region extended by zeros, with room for
    the new elements; it fails for want of memory or at the maximum. *)
Lemma libbpf_add_mem_spec (realloc : Z → bool) data cap sz cur max add :
  zlen data = cap → 0 <= cur <= cap → cap <= max → 0 < sz ∧ max * sz < 2 ^ 63 → 0 <= add < 2 ^ 63 - max →
  match libbpf_add_mem realloc data cap sz cur max add with
  | None => max < cur + add ∨ ∃ n, n <= max * sz ∧ realloc n = false
  | Some (data', cap', p) =>
      p = cur ∧ ∃ k, data' = data ++ replicate k 0 ∧ zlen data' = cap' ∧ cur + add <= cap' ∧ cap <= cap' <= max
  end.
Proof.
  intros Hl Hcur Hmax [Hsz Hms] Hadd. pose proof (Z.mul_le_mono_nonneg_l 1 sz max ltac:(lia) ltac:(lia)) as Hm63. unfold libbpf_add_mem.
  rewrite (u64_small (cur + add)) by lia.
  case Z.leb_spec; intros Hfit; [split; [done|]; exists O; rewrite app_nil_r; split_and!; [done|lia..]|].
  case Z.ltb_spec; intros Hm; [by left|]. cbv zeta.
  assert (0 <= cap / 4 <= cap) as Hq by (split; [apply Z.div_pos; lia|apply Z.div_le_upper_bound; lia]).
  rewrite (u64_small (cap + cap / 4)) by lia.
  set (n1 := if cap + cap / 4 <? 16 then 16 else cap + cap / 4).
  set (n2 := if max <? n1 then max else n1).
  set (n3 := if n2 <? cur + add then cur + add else n2).
  assert (cur + add <= n3 <= max) as [Hlo Hhi] by (unfold n3, n2; repeat case Z.ltb_spec; lia).
  unfold libbpf_reallocarray. pose proof (Z.mul_le_mono_nonneg_r n3 max sz ltac:(lia) ltac:(lia)) as Hn3.
  destruct (Z.leb_spec (2 ^ 64) (n3 * sz)); [lia|].
  destruct (realloc (n3 * sz)) eqn:Er; cbn [negb]; [|right; exists (n3 * sz); split; [lia|done]].
  split; [done|]. eexists. split; [done|]. rewrite length_app, length_replicate. lia.
Qed.

(** ** Strings in a region *)

Definition nul_free (s : list Z) : Prop := ¬ In 0 s.

Definition pack (all : list (list Z)) : list Z := concat (map (λ s, s ++ [0]) all).

Lemma until_nul_app s l : nul_free s → until_nul (s ++ 0 :: l) = s.
Proof.
  intros H. induction s as [|b s IH]; [done|]. cbn. destruct (Z.eqb_spec b 0) as [->|]; [by destruct H; left|].
  f_equal. apply IH. intros Hin. apply H. by right.
Qed.

Lemma until_nul_free l : nul_free (until_nul l).
Proof.
  unfold nul_free. induction l as [|b l IH]; [auto|]. cbn. destruct (Z.eqb_spec b 0); [auto|]. intros [?|?]; [done|auto].
Qed.

(** The offset of the first occurrence of a string. *)
Fixpoint offset_of (o : Z) (all : list (list Z)) (s : list Z) : option Z :=
  match all with
  | [] => None
  | x :: all' => if bool_decide (x = s) then Some o else offset_of (o + zlen x + 1) all' s
  end.

Lemma pack_app a b : pack (a ++ b) = pack a ++ pack b.
Proof. unfold pack. by rewrite map_app, concat_app. Qed.

Lemma pack_cons s all : pack (s :: all) = s ++ 0 :: pack all.
Proof. unfold pack. cbn. by rewrite <- app_assoc. Qed.

Lemma offset_of_split all s : ∀ o r, offset_of o all s = Some r →
  ∃ l1 l2, all = l1 ++ s :: l2 ∧ r = o + zlen (pack l1).
Proof.
  induction all as [|x all IH]; intros o r; cbn; [done|]. case_bool_decide as E.
  - intros [= <-]. exists [], all. subst. split; [done|]. cbn. lia.
  - intros H. destruct (IH _ _ H) as (l1 & l2 & -> & ->). exists (x :: l1), l2. split; [done|].
    rewrite pack_cons, length_app. cbn [length]. lia.
Qed.

Lemma offset_of_None all s : ∀ o, offset_of o all s = None ↔ ¬ In s all.
Proof.
  induction all as [|x all IH]; intros o; cbn; [tauto|]. case_bool_decide as E.
  - split; [done|]. intros H. destruct H. by left.
  - rewrite IH. tauto.
Qed.

Lemma offset_of_app all1 all2 s : ∀ o,
  offset_of o (all1 ++ all2) s
  = match offset_of o all1 s with Some r => Some r | None => offset_of (o + zlen (pack all1)) all2 s end.
Proof.
  induction all1 as [|x all1 IH]; intros o; cbn [app offset_of]; [by rewrite Z.add_0_r|].
  case_bool_decide; [done|]. rewrite IH. destruct (offset_of _ all1 s); [done|]. f_equal.
  rewrite pack_cons, length_app. cbn [length]. lia.
Qed.

(** A region whose first bytes are the strings. *)
Definition holds (data : list Z) (all : list (list Z)) : Prop := Forall nul_free all ∧ ∃ rest, data = pack all ++ rest.

Lemma cstr_at_split data l1 s l2 : holds data (l1 ++ s :: l2) → cstr_at data (zlen (pack l1)) = s.
Proof.
  intros [Hf (rest & ->)]. unfold cstr_at. rewrite pack_app, pack_cons, <- !app_assoc, Nat2Z.id, drop_app_length. cbn [app].
  rewrite until_nul_app; [done|]. apply Forall_app in Hf as [_ Hf]. by inversion Hf.
Qed.

Lemma cstr_at_offset data all s r : holds data all → offset_of 0 all s = Some r →
  cstr_at data r = s ∧ 0 <= r ∧ r + zlen s + 1 <= zlen (pack all).
Proof.
  intros H Ho. destruct (offset_of_split all s 0 r Ho) as (l1 & l2 & -> & ->). rewrite Z.add_0_l.
  split; [by eapply cstr_at_split|]. rewrite pack_app, pack_cons, !length_app. cbn [length]. lia.
Qed.

(** Two offsets of first occurrences are equal only for equal strings. *)
Lemma offset_of_inj all data s1 s2 r : holds data all → offset_of 0 all s1 = Some r → offset_of 0 all s2 = Some r → s1 = s2.
Proof. intros H H1 H2. destruct (cstr_at_offset _ _ _ _ H H1) as [<- _]. by destruct (cstr_at_offset _ _ _ _ H H2) as [<- _]. Qed.

(** ** The hash map of a set *)

#[export] Instance strset_key data : HashKey (strset_hash_fn data) (strset_equal_fn data).
Proof.
  unfold strset_hash_fn, strset_equal_fn. split.
  - intros k. by apply bool_decide_eq_true.
  - intros k1 k2 H%bool_decide_eq_true k. by rewrite H.
  - intros k1 k2 H%bool_decide_eq_true. by rewrite H.
Qed.

(** The map has for a key the first offset of the string at the key. *)
Definition indexes (data : list Z) (all : list (list Z)) (M : multimap) : Prop :=
  ∀ k, M k = match offset_of 0 all (cstr_at data k) with Some o => [(o, o)] | None => [] end.

Lemma entries_of_in {equal_fn} key es k v : (k, v) ∈ entries_of equal_fn key es → ∃ a, In (a, k, v) es ∧ equal_fn k key = true.
Proof.
  unfold entries_of. intros ([[a k'] v'] & Hin & He)%list_elem_of_omap. cbn in He.
  destruct (equal_fn k' key) eqn:E; [|done]. injection He as <- <-. exists a. by rewrite <- list_elem_of_In.
Qed.

Lemma in_entries_of {equal_fn} key es a k v : In (a, k, v) es → equal_fn k key = true → (k, v) ∈ entries_of equal_fn key es.
Proof.
  intros Hin He. apply list_elem_of_omap. exists (a, k, v). split; [by apply list_elem_of_In|]. cbn. by rewrite He.
Qed.

(** The keys in the chains are first offsets. *)
Lemma indexes_keys data all chs e :
  indexes data all (mm_of (strset_equal_fn data) chs) → In e (concat chs) →
  offset_of 0 all (cstr_at data (e.1.2)) = Some (e.1.2) ∧ e.2 = e.1.2.
Proof.
  intros H He. destruct e as [[a k] v]. cbn. specialize (H k). unfold mm_of in H.
  assert ((k, v) ∈ entries_of (strset_equal_fn data) k (concat chs)) as Hin
    by (eapply in_entries_of; [done|by apply bool_decide_eq_true]).
  rewrite H in Hin. destruct (offset_of 0 all (cstr_at data k)); [|by inversion Hin].
  apply list_elem_of_singleton in Hin. by injection Hin as -> ->.
Qed.

(** There are no more entries than bytes of strings. *)
Lemma entries_distinct {equal_fn} es :
  (∀ k, equal_fn k k = true) → (∀ k, (length (entries_of equal_fn k es) <= 1)%nat) → NoDup (map (λ e : centry, e.1.2) es).
Proof.
  intros Hrefl. induction es as [|[[a k] v] es IH]; intros H; [constructor|]. cbn. constructor.
  - intros ([[a' k'] v'] & -> & Hin)%list_elem_of_fmap. cbn [fst snd] in *. specialize (H k'). rewrite (entries_of_cons equal_fn) in H.
    rewrite Hrefl in H. apply list_elem_of_In in Hin.
    pose proof (in_entries_of (equal_fn := equal_fn) k' es a' k' v' Hin (Hrefl k')) as Hel.
    destruct (entries_of equal_fn k' es); [by inversion Hel|]. cbn in H. lia.
  - apply IH. intros k'. specialize (H k'). rewrite (entries_of_cons equal_fn) in H. destruct (equal_fn k k'); [|done]. cbn in H. lia.
Qed.

Lemma indexes_count data all chs :
  holds data all → indexes data all (mm_of (strset_equal_fn data) chs) → zlen (concat chs) <= zlen (pack all).
Proof.
  intros H Hi. assert (NoDup (map (λ e : centry, e.1.2) (concat chs))) as Hn.
  { apply (entries_distinct (equal_fn := strset_equal_fn data)); [intros k; by apply bool_decide_eq_true|].
    intros k. specialize (Hi k). unfold mm_of in Hi. rewrite Hi. destruct (offset_of 0 all (cstr_at data k)); cbn; lia. }
  assert (map (λ e : centry, e.1.2) (concat chs) ⊆ seqZ 0 (zlen (pack all))) as Hsub.
  { intros k (e & -> & He)%list_elem_of_fmap. apply elem_of_seqZ. apply list_elem_of_In in He.
    destruct (indexes_keys _ _ _ _ Hi He) as [Ho _]. destruct (cstr_at_offset _ _ _ _ H Ho). lia. }
  apply (NoDup_submseteq _ _ Hn), submseteq_length in Hsub. rewrite length_seqZ, length_map in Hsub. lia.
Qed.

(** ** Changing the bytes behind the strings *)

Lemma rep_ext hash1 hash2 m h chs :
  (∀ e, In e (concat chs) → hash1 (e.1.2) = hash2 (e.1.2)) → rep hash1 m h chs → rep hash2 m h chs.
Proof.
  intros Hh. unfold rep. destruct (buckets m) as [bs|]; [|done]. intros [H1 H2 H3 H4 H5 H6]. split; try done.
  intros i es Hi. specialize (H6 i es Hi). unfold in_bucket, index in *. rewrite Forall_forall in H6 |- *.
  intros e He. specialize (H6 e He). cbv beta in H6 |- *. rewrite <- Hh; [done|].
  apply in_concat. exists es. split; [by eapply list_elem_of_In, list_elem_of_lookup_2|done].
Qed.

Lemma entries_ext f1 f2 k1 k2 es :
  (∀ e, In e es → f1 (ekey e) k1 = f2 (ekey e) k2) → entries_of f1 k1 es = entries_of f2 k2 es.
Proof.
  intros H. induction es as [|[[a k] v] es IH]; [done|]. unfold entries_of in *. cbn.
  pose proof (H (a, k, v) (or_introl eq_refl)) as E. cbn in E. rewrite E. rewrite IH by (intros e He; apply H; by right). done.
Qed.

(** The strings stay, the bytes behind them are others. *)
Lemma cstr_at_stays data data' all s o :
  holds data all → holds data' all → offset_of 0 all s = Some o → cstr_at data' o = cstr_at data o.
Proof.
  intros H H' Ho. destruct (cstr_at_offset _ _ _ _ H Ho) as [-> _]. by destruct (cstr_at_offset _ _ _ _ H' Ho) as [-> _].
Qed.

Lemma keys_stay data data' all chs e :
  holds data all → holds data' all → indexes data all (mm_of (strset_equal_fn data) chs) → In e (concat chs) →
  cstr_at data' (e.1.2) = cstr_at data (e.1.2).
Proof. intros H H' Hi He. destruct (indexes_keys _ _ _ _ Hi He) as [Ho _]. by eapply cstr_at_stays. Qed.

Lemma indexes_stay data data' all chs :
  holds data all → holds data' all → indexes data all (mm_of (strset_equal_fn data) chs) →
  indexes data' all (mm_of (strset_equal_fn data') chs).
Proof.
  intros H H' Hi k. set (s := cstr_at data' k).
  assert (∀ e, In e (concat chs) → strset_equal_fn data' (e.1.2) k = bool_decide (cstr_at data (e.1.2) = s)) as Heq.
  { intros e He. unfold strset_equal_fn. by rewrite (keys_stay data data' all chs e). }
  destruct (offset_of 0 all s) as [o|] eqn:Eo.
  - destruct (cstr_at_offset _ _ _ _ H Eo) as [Hs _]. specialize (Hi o). rewrite Hs, Eo in Hi. rewrite <- Hi.
    apply entries_ext. intros e He. rewrite Heq by done. unfold strset_equal_fn. by rewrite Hs.
  - apply entries_of_none. apply List.Forall_forall. intros e He. cbv beta. rewrite Heq by done.
    apply bool_decide_eq_false. intros E. destruct (indexes_keys _ _ _ _ Hi He) as [Ho _]. congruence.
Qed.

(** ** The invariant *)

Section strset.
Context (malloc : heap → option Z) (calloc : Z → bool) `{!Allocator malloc calloc}.
Variable realloc : Z → bool.

(** The set holds the strings [all], and its entries are those of the heap. *)
Record set_holds (set : strset) (h : heap) (all : list (list Z)) (chs : list (list centry)) : Prop := {
  sh_rep : rep (strset_hash_fn (strs_data set)) (strs_hash set) h chs;
  sh_index : indexes (strs_data set) all (mm_of (strset_equal_fn (strs_data set)) chs);
  sh_data : holds (strs_data set) all;
  sh_len : strs_data_len set = zlen (pack all);
  sh_cap : zlen (strs_data set) = strs_data_cap set;
  sh_max : strs_data_cap set <= strs_data_max_len set < 2 ^ 31;
}.

(** Room for [n] more bytes. *)
Lemma add_mem_ok set h all chs n :
  set_holds set h all chs → 0 <= n < 2 ^ 32 →
  match strset_add_str_mem realloc set n with
  | None => strs_data_max_len set < zlen (pack all) + n ∨ ∃ n, n < 2 ^ 31 ∧ realloc n = false
  | Some (set1, p) => p = zlen (pack all) ∧ set_holds set1 h all chs
      ∧ strs_data_max_len set1 = strs_data_max_len set ∧ zlen (pack all) + n <= zlen (strs_data set1)
  end.
Proof.
  intros [Hrep Hidx Hd Hl Hc Hm] Hn. unfold strset_add_str_mem. rewrite Hl.
  assert (zlen (pack all) <= strs_data_cap set) as Hle.
  { destruct Hd as [_ (rest & E)]. rewrite <- Hc, E, length_app. lia. }
  pose proof (libbpf_add_mem_spec realloc (strs_data set) (strs_data_cap set) 1 (zlen (pack all)) (strs_data_max_len set) n
    Hc ltac:(lia) ltac:(lia) ltac:(lia) ltac:(lia)) as H.
  destruct (libbpf_add_mem _ _ _ _ _ _ _) as [[[data cap] p]|].
  - destruct H as (-> & k & -> & Hcap & Hlo & Hhi). split_and!; [done| |done|cbn; lia].
    assert (holds (strs_data set ++ replicate k 0) all) as Hd'.
    { destruct Hd as [Hf (rest & ->)]. split; [done|]. eexists. by rewrite <- app_assoc. }
    split; cbn [strs_data strs_hash strs_data_len strs_data_cap strs_data_max_len]; [| |done|done|done|lia].
    + eapply rep_ext; [|exact Hrep]. intros e He. unfold strset_hash_fn. f_equal. symmetry. by eapply keys_stay.
    + by apply (indexes_stay (strs_data set)).
  - destruct H as [H|(m & Hm' & Hr)]; [by left|right]. exists m. split; [lia|done].
Qed.

(** A string behind the strings of a region. *)
Lemma copy_str_ok set h all chs s :
  set_holds set h all chs → nul_free s → zlen (pack all) + (zlen s + 1) <= zlen (strs_data set) →
  ∃ set', copy_str set (zlen (pack all)) s = Some set' ∧ set_holds set' h all chs ∧ holds (strs_data set') (all ++ [s])
    ∧ strs_data_max_len set' = strs_data_max_len set.
Proof.
  intros [Hrep Hidx Hd Hl Hc Hm] Hs Hlen. unfold copy_str.
  rewrite aset_list_eq by (rewrite ?length_app; cbn [length]; lia). cbn [mbind option_bind]. eexists. split; [done|].
  destruct Hd as [Hf (rest & Ed)]. set (data' := take _ _ ++ _ ++ _).
  assert (data' = pack all ++ (s ++ [0]) ++ drop (length (s ++ [0])) rest) as E.
  { unfold data'. rewrite Ed, Nat2Z.id, take_app_length, <- drop_drop, drop_app_length. done. }
  assert (holds data' all) as Ha by (split; [done|by eexists]).
  split_and!; [| |done].
  - split; cbn [strs_data strs_hash strs_data_len strs_data_cap strs_data_max_len]; [| |done|done| |done].
    + eapply rep_ext; [|exact Hrep]. intros e He. unfold strset_hash_fn. f_equal. symmetry. eapply keys_stay; try done.
      split; [done|by eexists].
    + apply (indexes_stay (strs_data set)); [|done|done]. split; [done|by eexists].
    + rewrite <- Hc, E, Ed in *. rewrite !length_app, length_drop in *. cbn in *. lia.
  - cbn. split; [apply Forall_app; auto|]. eexists. rewrite E, pack_app, pack_cons, <- !app_assoc. done.
Qed.

(** An allocation of less than 2^34 bytes that fails. *)
Definition memory_short : Prop :=
  (∃ n, n < 2 ^ 34 ∧ realloc n = false) ∨ (∃ n, n < 2 ^ 34 ∧ calloc n = false) ∨ ∃ h, malloc h = None.

Lemma grown_small hash m h chs :
  rep hash m h chs → zlen (concat chs) < 2 ^ 31 → hashmap_needs_to_grow m = true → 2 ^ grown_bits m < 2 ^ 34.
Proof.
  unfold rep, grown_bits, hashmap_needs_to_grow. destruct (buckets m) as [bs|]; [|by intros [_ ->]].
  intros [_ _ [_ Hcap] Hbits Hsz _] Hn Hg. rewrite Hsz, (u64_small (zlen _)), (u64_small (zlen _ + 1)), u64_small in Hg by lia. rewrite Hcap in Hg.
  apply Z.pow_lt_mono_r; [lia..|]. assert (cap_bits m < 32); [|unfold HASHMAP_MIN_CAP_BITS; lia].
  apply orb_true_iff in Hg as [Hg%Z.eqb_eq|Hg%Z.ltb_lt]; [pose proof (Z.pow_pos_nonneg 2 (cap_bits m)); lia|].
  apply (Z.pow_lt_mono_r_iff 2); [lia..|]. eapply Z.lt_le_trans; [exact Hg|]. apply Z.div_le_upper_bound; lia.
Qed.

(** The insertion of the offset of the string that follows [all]. *)
Lemma index_ok data m h chs all s :
  rep (strset_hash_fn data) m h chs → indexes data all (mm_of (strset_equal_fn data) chs) →
  holds data all → zlen (pack all) < 2 ^ 31 → cstr_at data (zlen (pack all)) = s →
  ∃ r chs', hashmap_insert (strset_hash_fn data) (strset_equal_fn data) malloc calloc m h (zlen (pack all)) (zlen (pack all))
              HASHMAP_ADD = Some r
    ∧ rep (strset_hash_fn data) (i_map r) (i_heap r) chs' ∧ frame h chs (i_heap r) chs'
    ∧ match offset_of 0 all s with
      | Some o => i_ret r = - EEXIST ∧ i_old_key r = o ∧ indexes data all (mm_of (strset_equal_fn data) chs')
      | None => i_ret r = - ENOMEM ∧ memory_short ∧ indexes data all (mm_of (strset_equal_fn data) chs')
                ∨ i_ret r = 0 ∧ indexes data (all ++ [s]) (mm_of (strset_equal_fn data) chs')
      end.
Proof.
  intros Hrep Hi Hd Hlen Hs. pose proof (indexes_count _ _ _ Hd Hi) as Hcount.
  pose proof (grown_small _ _ _ _ Hrep ltac:(lia)) as Hsmall. set (off := zlen (pack all)) in *.
  destruct (insert_ok (strset_hash_fn data) (strset_equal_fn data) malloc calloc m h chs off off HASHMAP_ADD Hrep)
    as (r & chs' & M & E & Hr & Hf & Hspec & HM & _).
  assert (i_ret r = - ENOMEM → memory_short) as Hshort.
  { intros Ht. rewrite Ht in Hspec. eapply insert_nomem in Hspec as [[Hg Hc]|Hm]; [| |exact Hrep]; right; [left|right]; by eauto. }
  exists r, chs'. split_and!; [done..|]. pose proof (Hi off) as Hoff. rewrite Hs in Hoff.
  assert (∀ g k, mm_rehash g (mm_of (strset_equal_fn data) chs) k = mm_of (strset_equal_fn data) chs k) as Hg.
  { intros g k. unfold mm_rehash. destruct g; [|done]. rewrite (Hi k). by destruct (offset_of 0 all (cstr_at data k)). }
  set (ret := i_ret r) in *. set (old := (i_old_key r, i_old_value r)) in *.
  assert (i_old_key r = old.1) as -> by done. clearbody ret old.
  inversion Hspec as [k v tl HMk|? ? ? ? [?|?]|?|? Hc|? Hc|? Hc]; subst; try discriminate; cbn [ms_map state_of with_entries rehashed] in *.
  - rewrite HMk in Hoff. destruct (offset_of 0 all (cstr_at data off)) as [o|]; [|done]. injection Hoff as -> -> ->.
    split_and!; [done..|]. intros k. by rewrite HM.
  - cbn in Hc. rewrite Hc in Hoff. destruct (offset_of 0 all (cstr_at data off)); [done|]. left. split_and!; [done|by apply Hshort|]. intros k. by rewrite HM.
  - cbn in Hc. rewrite Hc in Hoff. destruct (offset_of 0 all (cstr_at data off)); [done|]. left. split_and!; [done|by apply Hshort|]. intros k. by rewrite HM, Hg.
  - cbn in Hc. rewrite Hg, Hc in HM. rewrite Hc in Hoff. destruct (offset_of 0 all (cstr_at data off)) eqn:Eo; [done|].
    right. split; [done|]. intros k. rewrite HM, offset_of_app. unfold mm_set, strset_equal_fn at 1. cbn [offset_of].
    case_bool_decide as Ek.
    + by rewrite <- Ek, Eo, Z.add_0_l.
    + rewrite Hg, (Hi k). by destruct (offset_of 0 all (cstr_at data k)).
Qed.

(** A string that is there already does not change the first offsets. *)
Lemma indexes_again data all s o M : offset_of 0 all s = Some o → indexes data all M → indexes data (all ++ [s]) M.
Proof.
  intros Ho Hi k. rewrite Hi, offset_of_app. destruct (offset_of 0 all (cstr_at data k)) eqn:E; [done|]. cbn.
  case_bool_decide as Ek; [congruence|done].
Qed.

(** ** The operations *)

Lemma offset_small set h all chs s o : set_holds set h all chs → offset_of 0 all s = Some o → s32 o = o.
Proof.
  intros [_ _ Hd _ Hc Hm] Ho. destruct (cstr_at_offset _ _ _ _ Hd Ho) as (_ & H0 & H1).
  destruct Hd as [_ (rest & E)]. rewrite E, length_app in Hc. unfold s32. rewrite Z.mod_small; lia.
Qed.

(** A string does not fit in [max] bytes, or there is no memory for it. *)
Definition no_room (max : Z) (all : list (list Z)) (s : list Z) : Prop := max < zlen (pack all) + zlen s + 1 ∨ memory_short.

Lemma add_str_ok set h all chs s :
  set_holds set h all chs → nul_free s → zlen s + 1 < 2 ^ 32 →
  ∃ ret set' h' all' chs', strset__add_str malloc calloc realloc set h s = Some (ret, set', h')
    ∧ set_holds set' h' all' chs' ∧ frame h chs h' chs' ∧ strs_data_max_len set' = strs_data_max_len set
    ∧ ((ret = - ENOMEM ∧ all' = all ∧ no_room (strs_data_max_len set) all s)
       ∨ match offset_of 0 all s with
         | Some o => ret = o ∧ all' = all
         | None => ret = zlen (pack all) ∧ all' = all ++ [s] ∧ zlen (pack all') <= strs_data_max_len set
         end).
Proof.
  intros H Hs Hlen. unfold strset__add_str.
  pose proof (add_mem_ok set h all chs (zlen s + 1) H ltac:(lia)) as Hmem.
  destruct (strset_add_str_mem realloc set (zlen s + 1)) as [[set1 p]|].
  2: { eexists _, _, _, _, chs. split_and!; [done|done|apply frame_refl|done|left; split_and!; [done..|]].
    destruct Hmem as [?|(n & ? & ?)]; [left; lia|right; left; exists n; split; [lia|done]]. }
  destruct Hmem as (-> & H1 & Hmax & Hroom).
  destruct (copy_str_ok set1 h all chs s H1 Hs Hroom) as (set2 & Ec & H2 & Hnew & Hmax2).
  rewrite (sh_len _ _ _ _ H1), Ec. cbn [mbind option_bind].
  assert (cstr_at (strs_data set2) (zlen (pack all)) = s) as Hat by (by apply (cstr_at_split _ all s [])).
  assert (zlen (pack all) < 2 ^ 31) as Hp by (pose proof (sh_max _ _ _ _ H1); pose proof (sh_cap _ _ _ _ H1); lia).
  destruct (index_ok (strs_data set2) (strs_hash set2) h chs all s (sh_rep _ _ _ _ H2) (sh_index _ _ _ _ H2)
              (sh_data _ _ _ _ H2) Hp Hat)
    as (r & chs' & -> & Hrep & Hf & Hres).
  cbn [mbind option_bind]. destruct H2 as [_ _ Hd2 Hl2 Hc2 Hm2].
  assert (strs_data_max_len set2 = strs_data_max_len set) as Hmm by congruence.
  assert (∀ all', indexes (strs_data set2) all' (mm_of (strset_equal_fn (strs_data set2)) chs') →
    holds (strs_data set2) all' → set_holds (mkSet (strs_data set2) (zlen (pack all')) (strs_data_cap set2)
      (strs_data_max_len set2) (i_map r)) (i_heap r) all' chs') as Hset by (intros; by split).
  destruct (offset_of 0 all s) as [o|] eqn:Eo; [destruct Hres as (Ht & Hk & Hi)|destruct Hres as [(Ht & Hno & Hi)|[Ht Hi]]]; rewrite Ht.
  - rewrite Z.eqb_refl, Hk, (offset_small _ _ _ _ _ _ H Eo), Hl2.
    eexists _, _, _, all, chs'. split_and!; [done|by apply Hset|done|done|by right].
  - cbn. rewrite Hl2. eexists _, _, _, all, chs'. split_and!; [done|by apply Hset|done|done|left; split_and!; [done..|by right]].
  - cbn. rewrite Hl2. eexists _, _, _, (all ++ [s]), chs'.
    assert (zlen (pack all) + (zlen s + 1) = zlen (pack (all ++ [s]))) as ->.
    { rewrite pack_app, pack_cons, !length_app. cbn. lia. }
    assert (zlen (pack (all ++ [s])) <= strs_data_cap set2) as Hfit.
    { destruct Hnew as [_ (rest & E)]. rewrite E, length_app in Hc2. lia. }
    split_and!; [done|by apply Hset|done|done|]. right. rewrite pack_app, length_app in Hfit |- *.
    split_and!; [|done|lia]. unfold s32. rewrite Z.mod_small; lia.
Qed.

Lemma find_str_ok set h all chs s :
  set_holds set h all chs → nul_free s → zlen s + 1 < 2 ^ 32 →
  ∃ ret set', strset__find_str realloc set h s = Some (ret, set')
    ∧ set_holds set' h all chs ∧ strs_data_max_len set' = strs_data_max_len set
    ∧ (ret = - ENOMEM ∧ no_room (strs_data_max_len set) all s ∨ ret = default (- ENOENT) (offset_of 0 all s)).
Proof.
  intros H Hs Hlen. unfold strset__find_str.
  pose proof (add_mem_ok set h all chs (zlen s + 1) H ltac:(lia)) as Hmem.
  destruct (strset_add_str_mem realloc set (zlen s + 1)) as [[set1 p]|].
  2: { eexists _, _. split_and!; [done|done|done|left; split; [done|]].
    destruct Hmem as [?|(n & ? & ?)]; [left; lia|right; left; exists n; split; [lia|done]]. }
  destruct Hmem as (-> & H1 & Hmax & Hroom).
  destruct (copy_str_ok set1 h all chs s H1 Hs Hroom) as (set2 & Ec & H2 & Hnew & Hmax2).
  rewrite (sh_len _ _ _ _ H1), Ec. cbn [mbind option_bind].
  rewrite (find_ok _ _ _ _ chs) by apply H2. cbn [mbind option_bind]. rewrite (sh_index _ _ _ _ H2).
  rewrite (cstr_at_split _ all s []) by done. destruct (offset_of 0 all s) as [o|] eqn:Eo; cbn.
  - rewrite (offset_small _ _ _ _ _ _ H Eo). eexists _, _. split_and!; [done|done|congruence|by right].
  - eexists _, _. split_and!; [done|done|congruence|by right].
Qed.

(** ** Making and freeing a set *)

Lemma new_loop_ok init post : ∀ pre m h chs err fuel,
  init = pack (pre ++ post) → Forall nul_free (pre ++ post) → zlen init < 2 ^ 31 →
  rep (strset_hash_fn init) m h chs → indexes init pre (mm_of (strset_equal_fn init) chs) → (length post < fuel)%nat →
  ∃ off m' h' err' chs', while_loop fuel (new_body malloc calloc init (zlen init)) (zlen (pack pre), m, h, err)
      = Some (off, m', h', err')
    ∧ rep (strset_hash_fn init) m' h' chs' ∧ frame h chs h' chs'
    ∧ (err' = 0 ∧ indexes init (pre ++ post) (mm_of (strset_equal_fn init) chs') ∨ err' = - ENOMEM ∧ memory_short).
Proof.
  induction post as [|s post IH]; intros pre m h chs err fuel Hinit Hf Hlen Hrep Hi Hfuel;
    (destruct fuel as [|fuel]; [lia|]); cbn [while_loop].
  - rewrite app_nil_r in *. assert ((zlen init <=? zlen (pack pre)) = true) as E by (rewrite Hinit; lia).
    assert (new_body malloc calloc init (zlen init) (zlen (pack pre), m, h, err) = Some (Break (zlen (pack pre), m, h, 0)))
      as -> by (unfold new_body; by rewrite E).
    cbn [mbind option_bind]. exists (zlen (pack pre)), m, h, 0, chs. split_and!; [done|done|apply frame_refl|by left].
  - assert (holds init (pre ++ s :: post)) as Hd by (split; [done|exists []; by rewrite app_nil_r]).
    assert (zlen init = zlen (pack pre) + zlen s + 1 + zlen (pack post)) as Hsz
      by (rewrite Hinit, pack_app, pack_cons, !length_app; cbn; lia).
    assert (cstr_at init (zlen (pack pre)) = s) as Hat by (by eapply cstr_at_split).
    assert (holds init pre) as Hpre.
    { split; [by apply Forall_app in Hf as [? _]|]. exists (pack (s :: post)). by rewrite <- pack_app. }
    assert ((zlen init <=? zlen (pack pre)) = false) as El by lia.
    destruct (index_ok init m h chs pre s Hrep Hi Hpre ltac:(lia) Hat) as (r & chs' & E & Hr & Hfr & Hres).
    assert ((i_ret r = - ENOMEM ∧ memory_short)
      ∨ (i_ret r = - EEXIST ∨ i_ret r = 0) ∧ indexes init (pre ++ [s]) (mm_of (strset_equal_fn init) chs')) as [[Ht Hm]|[Ht Hi']].
    { destruct (offset_of 0 pre s) eqn:Eo; [destruct Hres as (? & _ & ?)|destruct Hres as [(? & ? & _)|[? ?]]]; [|by left|]; right.
      - split; [by left|]. by eapply indexes_again.
      - split; [by right|done]. }
    + assert (new_body malloc calloc init (zlen init) (zlen (pack pre), m, h, err)
        = Some (Break (zlen (pack pre), i_map r, i_heap r, - ENOMEM))) as -> by (unfold new_body; by rewrite El, E; cbn; rewrite Ht).
      cbn [mbind option_bind]. exists (zlen (pack pre)), (i_map r), (i_heap r), (- ENOMEM), chs'.
      split_and!; [done|done|done|by right].
    + assert (new_body malloc calloc init (zlen init) (zlen (pack pre), m, h, err)
        = Some (Next (zlen (pack pre) + (zlen s + 1), i_map r, i_heap r, i_ret r))) as ->.
      { unfold new_body. rewrite El, E. cbn [mbind option_bind].
        assert (negb (i_ret r =? - EEXIST) && negb (i_ret r =? 0) = false) as -> by (by destruct Ht as [-> | ->]).
        unfold strlen_at. rewrite Hat. by destruct (aget_is_Some init (zlen (pack pre) + zlen s) ltac:(lia)) as [b ->]. }
      cbn [mbind option_bind]. replace (pre ++ s :: post) with ((pre ++ [s]) ++ post) in * by (by rewrite <- app_assoc).
      replace (zlen (pack pre) + (zlen s + 1)) with (zlen (pack (pre ++ [s])))
        by (rewrite pack_app, pack_cons, !length_app; cbn; lia).
      destruct (IH (pre ++ [s]) (i_map r) (i_heap r) chs' (i_ret r) fuel Hinit Hf Hlen Hr Hi' ltac:(cbn in Hfuel; lia))
        as (off & m' & h' & err' & chs2 & -> & Hr2 & Hf2 & Hend).
      exists off, m', h', err', chs2. split_and!; [done|done|by eapply frame_trans|done].
Qed.

Lemma pack_length all : (length all <= length (pack all))%nat.
Proof. induction all as [|s all IH]; [done|]. rewrite pack_cons, length_app. cbn. lia. Qed.

(** All that a set owns besides the entries: its map with the buckets, the region
    of the strings and itself. *)
Definition set_blocks : list set_block := [OfMap Buckets; OfMap MapStruct; StrsData; SetStruct].

Lemma free_set_ok m hash h0 h chs : rep hash m h chs → frame h0 [] h chs → free_set (Some (inr m)) h = Some (h0, set_blocks).
Proof. intros Hr Hf. unfold free_set. by rewrite (free_map_ok _ _ _ _ _ Hr Hf). Qed.

(** A set made from a string section, or from nothing. *)
Lemma new_ok max init h :
  Forall nul_free (default [] init) → zlen (pack (default [] init)) <= max < 2 ^ 31 →
  ∃ r, strset__new malloc calloc true true true max (pack <$> init) h = Some r
    ∧ match r with
      | (inl (err, freed), h') => err = - ENOMEM ∧ memory_short ∧ h' = h ∧ freed = set_blocks
      | (inr set, h') => strs_data_max_len set = max ∧ ∃ chs, set_holds set h' (default [] init) chs ∧ frame h [] h' chs
      end.
Proof.
  intros Hf Hlen. unfold strset__new. cbn [negb hashmap__new]. destruct init as [all|]; cbn [from_option id fmap option_fmap option_map] in *.
  2: { eexists. split; [done|]. cbn. split; [done|]. exists []. split; [|done].
       split; try done. split; [done|by exists []]. }
  destruct (new_loop_ok (pack all) all [] hashmap__init h [] 0 (S (length (pack all))) eq_refl Hf ltac:(lia)) as
    (off & m & h' & err & chs & E & Hr & Hfr & Herr); [done|done|pose proof (pack_length all); lia|].
  change (zlen (pack [])) with 0 in E. rewrite E. cbn [mbind option_bind].
  destruct Herr as [[-> Hi]|[-> Hm]].
  - cbn [Z.eqb negb]. eexists. split; [done|]. cbn. split; [done|]. exists chs. split; [|done].
    split; try done. split; [done|exists []; by rewrite app_nil_r].
  - change (negb (- ENOMEM =? 0)) with true. cbn iota. rewrite (free_set_ok _ _ _ _ _ Hr Hfr). cbn [mbind option_bind]. by eexists.
Qed.

Lemma free_ok set h all chs h0 :
  set_holds set h all chs → frame h0 [] h chs → strset__free (Some set) h = Some (h0, set_blocks).
Proof. intros H. exact (free_set_ok _ _ _ _ _ (sh_rep _ _ _ _ H)). Qed.

(** ** Sequences of operations *)

Inductive set_op : Type :=
| AddStr (s : list Z)
| FindStr (s : list Z).

Definition op_str (o : set_op) : list Z := match o with AddStr s | FindStr s => s end.

Definition set_step (st : strset * heap) (o : set_op) : option (Z * (strset * heap)) :=
  let '(set, h) := st in
  match o with
  | AddStr s => '(ret, set, h) ← strset__add_str malloc calloc realloc set h s; Some (ret, (set, h))
  | FindStr s => '(ret, set) ← strset__find_str realloc set h s; Some (ret, (set, h))
  end.

Fixpoint set_run (ops : list set_op) (st : strset * heap) : option (list Z * (strset * heap)) :=
  match ops with
  | [] => Some ([], st)
  | o :: ops => '(r, st) ← set_step st o; '(rs, st) ← set_run ops st; Some (r :: rs, st)
  end.

(** What the operations do to the list of the strings, in at most [max]
    bytes. *)
Inductive intern (max : Z) (all : list (list Z)) : set_op → Z → list (list Z) → Prop :=
| is_known o r : offset_of 0 all (op_str o) = Some r → intern max all o r all
| is_new s : offset_of 0 all s = None → zlen (pack (all ++ [s])) <= max → intern max all (AddStr s) (zlen (pack all)) (all ++ [s])
| is_noent s : offset_of 0 all s = None → intern max all (FindStr s) (- ENOENT) all
| is_nomem o : no_room max all (op_str o) → intern max all o (- ENOMEM) all.

Inductive intern_run (max : Z) : list (list Z) → list set_op → list Z → list (list Z) → Prop :=
| intern_nil all : intern_run max all [] [] all
| intern_cons all1 all2 all3 o ops r rs :
    intern max all1 o r all2 → intern_run max all2 ops rs all3 → intern_run max all1 (o :: ops) (r :: rs) all3.

Definition op_ok (o : set_op) : Prop := nul_free (op_str o) ∧ zlen (op_str o) + 1 < 2 ^ 32.

Lemma set_step_ok set h all chs o :
  set_holds set h all chs → op_ok o →
  ∃ r set' h' all' chs', set_step (set, h) o = Some (r, (set', h')) ∧ set_holds set' h' all' chs' ∧ frame h chs h' chs'
    ∧ strs_data_max_len set' = strs_data_max_len set ∧ intern (strs_data_max_len set) all o r all'.
Proof.
  intros H [Hs Hl]. destruct o as [s|s]; cbn [set_step op_str] in *.
  - destruct (add_str_ok set h all chs s H Hs Hl) as (r & set' & h' & all' & chs' & -> & H' & Hf & Hm & Hr).
    eexists _, _, _, all', chs'. split_and!; [done|done|done|done|].
    destruct Hr as [(-> & -> & Hn)|Hr]; [by apply is_nomem|].
    destruct (offset_of 0 all s) eqn:Eo; [destruct Hr as [-> ->]; by apply is_known|].
    destruct Hr as (-> & -> & ?). by apply is_new.
  - destruct (find_str_ok set h all chs s H Hs Hl) as (r & set' & -> & H' & Hm & Hr).
    eexists _, _, _, all, chs. split_and!; [done|done|apply frame_refl|done|].
    destruct Hr as [[-> Hn]| ->]; [by apply is_nomem|].
    destruct (offset_of 0 all s) eqn:Eo; [by apply is_known|by apply is_noent].
Qed.

Lemma set_run_ok ops : ∀ set h all chs,
  set_holds set h all chs → Forall op_ok ops →
  ∃ rs set' h' all' chs', set_run ops (set, h) = Some (rs, (set', h')) ∧ set_holds set' h' all' chs' ∧ frame h chs h' chs'
    ∧ intern_run (strs_data_max_len set) all ops rs all'.
Proof.
  induction ops as [|o ops IH]; intros set h all chs H Hops; cbn [set_run].
  - eexists _, _, _, all, chs. split_and!; [done|done|apply frame_refl|constructor].
  - inversion Hops as [|? ? Ho Hops']; subst.
    destruct (set_step_ok set h all chs o H Ho) as (r & set1 & h1 & all1 & chs1 & -> & H1 & Hf1 & Hm1 & Hi).
    cbn [mbind option_bind].
    destruct (IH set1 h1 all1 chs1 H1 Hops') as (rs & set2 & h2 & all2 & chs2 & -> & H2 & Hf2 & Hr). rewrite Hm1 in Hr.
    cbn [mbind option_bind]. eexists _, _, _, all2, chs2.
    split_and!; [done|done|by eapply frame_trans|by econstructor].
Qed.

(** Strings are only added behind the others, so that offsets stay valid. *)
Lemma offset_stays all more s r : offset_of 0 all s = Some r → offset_of 0 (all ++ more) s = Some r.
Proof. intros H. by rewrite offset_of_app, H. Qed.

Lemma intern_extends max all o r all' : intern max all o r all' → ∃ more, all' = all ++ more.
Proof. intros [ | | | ]; try (exists []; by rewrite app_nil_r). by eexists. Qed.

Lemma intern_offset max all o r all' : intern max all o r all' → 0 <= r → offset_of 0 all' (op_str o) = Some r.
Proof.
  intros [o' r' Ho|s Hs _|s Hs|o' Hn] Hr; [done| |by vm_compute in Hr|by vm_compute in Hr].
  cbn. rewrite offset_of_app, Hs. cbn. rewrite bool_decide_true by done. done.
Qed.

Lemma intern_run_offsets max all ops rs all' :
  intern_run max all ops rs all' →
  (∃ more, all' = all ++ more) ∧ Forall2 (λ o r, 0 <= r → offset_of 0 all' (op_str o) = Some r) ops rs.
Proof.
  induction 1 as [|all1 all2 all3 o ops r rs Hi _ [[more ->] IH]]; [split; [exists []; by rewrite app_nil_r|constructor]|].
  split.
  - destruct (intern_extends _ _ _ _ _ Hi) as [more' ->]. eexists. by rewrite <- app_assoc.
  - constructor; [|done]. intros Hr. apply offset_stays. by eapply intern_offset.
Qed.

(** ** The theorems *)

(** C24: a set of strings made from a string section (or from nothing) runs any
    sequence of [strset__add_str] and [strset__find_str] without leaving its
    memory, and the results are those of the list of the strings: the offset of
    the string's first occurrence, the end for one that is added, [-ENOENT] for
    one that is not found, and [-ENOMEM] only when the string does not fit
    under the limit. Freeing the set gives back all entries of its map, their
    buckets, the map, the region of the strings and the set itself, each once,
    and leaves the heap of the beginning. *)
Theorem strset_refines_interning max init ops h :
  Forall nul_free (default [] init) → zlen (pack (default [] init)) <= max < 2 ^ 31 → Forall op_ok ops → ¬ memory_short →
  ∃ set h1 rs set' h' all chs, strset__new malloc calloc true true true max (pack <$> init) h = Some (inr set, h1)
    ∧ set_run ops (set, h1) = Some (rs, (set', h')) ∧ intern_run max (default [] init) ops rs all
    ∧ set_holds set' h' all chs ∧ strset__free (Some set') h' = Some (h, set_blocks).
Proof.
  intros Hf Hm Hops Hmem. destruct (new_ok max init h Hf Hm) as ([[[err freed]|set] h1] & E & Hnew); [by destruct Hnew as (_ & ? & _)|].
  destruct Hnew as (<- & chs & H & Hfr).
  destruct (set_run_ok ops set h1 _ chs H Hops) as (rs & set' & h' & all & chs' & Er & H' & Hf' & Hi).
  exists set, h1, rs, set', h', all, chs'. split_and!; [done..|].
  apply (free_ok _ _ _ _ _ H'). by eapply frame_trans.
Qed.

(** C25: the offsets a set of strings has given out stay valid whatever is added
    later: at the end each one still names the string it was returned for, and
    two operations got the same offset exactly when their strings are equal. *)
Theorem strset_interns set h all chs ops rs set' h' i j oi oj ri rj :
  set_holds set h all chs → Forall op_ok ops → set_run ops (set, h) = Some (rs, (set', h')) →
  ops !! i = Some oi → rs !! i = Some ri → 0 <= ri → ops !! j = Some oj → rs !! j = Some rj → 0 <= rj →
  cstr_at (strset__data set') ri = op_str oi ∧ ri < strset__data_size set' ∧ (ri = rj ↔ op_str oi = op_str oj).
Proof.
  intros H Hops Er Hoi Hri Hi Hoj Hrj Hj.
  destruct (set_run_ok ops set h all chs H Hops) as (rs' & set2 & h2 & all' & chs' & Er' & [_ _ Hd Hl _ _] & _ & Hrun).
  rewrite Er in Er'. injection Er' as <- <- <-. destruct (intern_run_offsets _ _ _ _ _ Hrun) as [_ Hoff].
  pose proof (Forall2_lookup_lr _ _ _ _ _ _ Hoff Hoi Hri Hi) as Ho1.
  pose proof (Forall2_lookup_lr _ _ _ _ _ _ Hoff Hoj Hrj Hj) as Ho2.
  destruct (cstr_at_offset _ _ _ _ Hd Ho1) as (E1 & _ & Hb). destruct (cstr_at_offset _ _ _ _ Hd Ho2) as (E2 & _).
  unfold strset__data, strset__data_size. rewrite Hl. split_and!; [done|lia|]. split; [congruence|]. intros E. rewrite E in Ho1. congruence.
Qed.
End strset.

(** ** A concrete set *)

(** The section of the strings "", "ab" and "c", then "ab", "d" and "". *)
Definition a_section : list (list Z) := [[]; [97; 98]; [99]].
Definition some_ops : list set_op := [FindStr [100]; AddStr [97; 98]; AddStr [100]; FindStr [100]; AddStr []].

Abbreviation give_less_than bound := (λ n, n <? bound).

Lemma some_ops_ok : Forall op_ok some_ops.
Proof. unfold some_ops. repeat constructor; cbn; unfold nul_free; cbn; intuition lia. Qed.

Instance less_allocator : Allocator fresh_address (give_less_than (2 ^ 40)).
Proof. split; [apply malloc_fresh|]. intros n Hn%Z.ltb_lt. lia. Qed.

Lemma memory_enough : ¬ memory_short fresh_address (give_less_than (2 ^ 40)) (give_less_than (2 ^ 40)).
Proof. intros [(n & Hn & E%Z.ltb_ge)|[(n & Hn & E%Z.ltb_ge)|[h Hh]]]; [lia|lia|done]. Qed.

Lemma strset_refines_interning_witness :
  ∃ set h1 rs set' h' all chs,
    strset__new fresh_address (give_less_than (2 ^ 40)) true true true 100 (pack <$> Some a_section) ∅ = Some (inr set, h1)
    ∧ set_run fresh_address (give_less_than (2 ^ 40)) (give_less_than (2 ^ 40)) some_ops (set, h1) = Some (rs, (set', h'))
    ∧ intern_run fresh_address (give_less_than (2 ^ 40)) (give_less_than (2 ^ 40)) 100 a_section some_ops rs all
    ∧ set_holds set' h' all chs ∧ strset__free (Some set') h' = Some (∅, set_blocks) ∧ rs = [- ENOENT; 1; 6; 6; 0].
Proof.
  destruct (strset_refines_interning fresh_address (give_less_than (2 ^ 40)) (give_less_than (2 ^ 40)) 100 (Some a_section) some_ops ∅)
    as (set & h1 & rs & set' & h' & all & chs & E1 & E2 & H1 & H2 & H3).
  - unfold a_section. repeat constructor; cbn; unfold nul_free; cbn; intuition lia.
  - vm_compute. split; congruence.
  - exact some_ops_ok.
  - exact memory_enough.
  - exists set, h1, rs, set', h', all, chs. do 5 (split; [done|]). vm_compute in E1. injection E1 as <- <-. vm_compute in E2. by injection E2 as <- _ _.
Defined.

(** An empty set, to which the same string is added twice; the first one gets
    the offset 0. *)
Definition empty_set : strset := mkSet [] 0 0 100 hashmap__init.
Definition four_ops : list set_op := [AddStr [97; 98]; AddStr [100]; FindStr [99]; AddStr [97; 98]].

Lemma empty_set_holds h : set_holds empty_set h [] [].
Proof. split; try done. split; [done|by exists []]. Qed.

Lemma strset_interns_witness :
  ∃ set' h', set_run fresh_address (give_less_than (2 ^ 40)) (give_less_than (2 ^ 40)) four_ops (empty_set, ∅)
               = Some ([0; 3; - ENOENT; 0], (set', h'))
    ∧ cstr_at (strset__data set') 0 = [97; 98] ∧ 0 < strset__data_size set' ∧ (0 = 3 ↔ [97; 98] = [100] :> list Z).
Proof.
  destruct (set_run fresh_address (give_less_than (2 ^ 40)) (give_less_than (2 ^ 40)) four_ops (empty_set, ∅))
    as [[rs [set' h']]|] eqn:E; [|vm_compute in E; discriminate E].
  assert (rs = [0; 3; - ENOENT; 0]) as -> by (vm_compute in E; by injection E as <- _ _).
  exists set', h'. split; [reflexivity|].
  apply (strset_interns fresh_address (give_less_than (2 ^ 40)) (give_less_than (2 ^ 40)) empty_set ∅ [] [] four_ops
           [0; 3; - ENOENT; 0] set' h' 0 1 (AddStr [97; 98]) (AddStr [100]));
    [apply empty_set_holds| |exact E|reflexivity|reflexivity|lia|reflexivity|reflexivity|lia].
  unfold four_ops. repeat constructor; cbn; unfold nul_free; cbn; intuition lia.
Defined.
