(* ===== verification/Ringbuf.v ===== *)
(** * The ring buffers of libbpf ([lib/libbpf/src/ringbuf.c])

    A ring buffer holds records of a header of 8 bytes and a sample.  The
    producer reserves a record, fills it and submits or discards it; the
    consumer gives the samples that were submitted to a callback.  One of the
    two ends is the kernel.  The memory is shared: [env] is a list of turns of
    the other end, and one of them is taken before every access the functions
    make to a position or a header.  The data pages are mapped twice, the
    second copy behind the first; an offset is relative to the first.  The
    positions are free-running; [sample_cb] is a parameter. *)

From stdpp Require Import gmap.
From S2P Require Import Prelude Hashmap.

Definition BPF_RINGBUF_BUSY_BIT : Z := 2 ^ 31.
Definition BPF_RINGBUF_DISCARD_BIT : Z := 2 ^ 30.
Definition BPF_RINGBUF_HDR_SZ : Z := 8.

Definition EINVAL : Z := 22.
Definition E2BIG : Z := 7.
Definition ENOSPC : Z := 28.

(** ** The shared memory *)

Record ring_mem : Type := mkMem { data : list Z; consumer_pos : Z; producer_pos : Z }.

Definition set_data (m : ring_mem) (d : list Z) : ring_mem := mkMem d (consumer_pos m) (producer_pos m).
Definition set_consumer (m : ring_mem) (p : Z) : ring_mem := mkMem (data m) p (producer_pos m).
Definition set_producer (m : ring_mem) (p : Z) : ring_mem := mkMem (data m) (consumer_pos m) p.

(** The byte of the data pages behind an offset of the mapping. *)
Definition page_index (d : list Z) (off : Z) : option Z :=
  if (0 <=? off) && (off <? 2 * zlen d) then Some (off mod zlen d) else None.

Definition rd8 (d : list Z) (off : Z) : option Z := i ← page_index d off; aget d i.
Definition wr8 (d : list Z) (off v : Z) : option (list Z) := i ← page_index d off; aset d i v.

Fixpoint rd_bytes (d : list Z) (off : Z) (n : nat) : option (list Z) :=
  match n with O => Some [] | S n' => b ← rd8 d off; bs ← rd_bytes d (off + 1) n'; Some (b :: bs) end.

Fixpoint wr_bytes (d : list Z) (off : Z) (bs : list Z) : option (list Z) :=
  match bs with [] => Some d | b :: bs' => d ← wr8 d off b; wr_bytes d (off + 1) bs' end.

Definition le32_bytes (x : Z) : list Z := [u8 x; u8 (Z.shiftr x 8); u8 (Z.shiftr x 16); u8 (Z.shiftr x 24)].

Definition rd32 (d : list Z) (off : Z) : option Z := bs ← rd_bytes d off 4; ld_le32 bs 0.
Definition wr32 (d : list Z) (off v : Z) : option (list Z) := wr_bytes d off (le32_bytes v).

(** The memory and the turns of the other end that are to come. *)
Abbreviation world := (ring_mem * list (ring_mem → ring_mem))%type.

Definition turn (w : world) : world :=
  match w with (m, f :: env) => (f m, env) | (m, []) => (m, []) end.

(** [smp_store_release(r->consumer_pos, p)]. *)
Definition store_consumer (w : world) (p : Z) : world := let '(m, env) := turn w in (set_consumer m p, env).

(** ** The consumer *)

Definition roundup_len (len : Z) : Z :=
  let len := u32 (Z.shiftl len 2) in
  let len := Z.shiftr len 2 in
  let len := u32 (len + BPF_RINGBUF_HDR_SZ) in
  u32 (len + 7) / 8 * 8.

(** How the loops are left: by their condition, by [goto done] or by a return. *)
Inductive leave : Type :=
| Falls
| GotoDone
| Return (err : Z).

Section consumer.
Context {T : Type}.
(** The state of the program, the sample, and the result. *)
Variable sample_cb : T → list Z → T * Z.

(** The locals of [ringbuf_process_ring] that change, and the state. *)
Record locals : Type := mkL { cons_pos : Z; got_new_data : bool; cnt : Z; l_world : world; l_state : T; l_leave : leave }.

(** [while (cons_pos < prod_pos)].  [len] is the header read as unsigned; it is
    given to the callback only when its two top bits are clear. *)
Definition sample_body (mask prod_pos : Z) (l : locals) : option (ctl locals) :=
  let 'mkL cons_pos got cnt w t _ := l in
  if negb (cons_pos <? prod_pos) then Some (Break (mkL cons_pos got cnt w t Falls)) else
  let len_ptr := Z.land cons_pos mask in
  let w := turn w in
  len ← rd32 (data w.1) len_ptr;
  if negb (Z.land len BPF_RINGBUF_BUSY_BIT =? 0) then Some (Break (mkL cons_pos got cnt w t GotoDone)) else
  let cons_pos := u64 (cons_pos + roundup_len len) in
  if Z.land len BPF_RINGBUF_DISCARD_BIT =? 0 then
    sample ← rd_bytes (data w.1) (len_ptr + BPF_RINGBUF_HDR_SZ) (Z.to_nat len);
    let '(t, err) := sample_cb t sample in
    if err <? 0 then Some (Break (mkL cons_pos true cnt (store_consumer w cons_pos) t (Return err)))
    else Some (Next (mkL cons_pos true (cnt + 1) (store_consumer w cons_pos) t Falls))
  else Some (Next (mkL cons_pos true cnt (store_consumer w cons_pos) t Falls)).

(** [do ... while (got_new_data)]. *)
Definition round_body (mask : Z) (l : locals) : option (ctl locals) :=
  let 'mkL cons_pos _ cnt w t _ := l in
  let w := turn w in
  let prod_pos := producer_pos w.1 in
  l ← while_loop (S (Z.to_nat (prod_pos - cons_pos))) (sample_body mask prod_pos) (mkL cons_pos false cnt w t Falls);
  match l_leave l with
  | Falls => Some (if got_new_data l then Next l else Break l)
  | _ => Some (Break l)
  end.

(** The other end has finitely many turns; without it the second round finds
    no data. *)
Definition ringbuf_process_ring (mask : Z) (w : world) (t : T) : option (Z * world * T) :=
  let w := turn w in
  l ← while_loop (S (S (S (length w.2)))) (round_body mask) (mkL (consumer_pos w.1) false 0 w t Falls);
  match l_leave l with
  | Return err => Some (err, l_world l, l_state l)
  | _ => Some (cnt l, l_world l, l_state l)
  end.
End consumer.
Arguments locals : clear implicits.

(** ** The producer in user space *)

(** [errno] or the offset of the sample. *)
Definition user_ring_buffer__reserve (mask : Z) (m : ring_mem) (size : Z) : option ((Z + Z) * ring_mem) :=
  if negb (Z.land size (Z.lor BPF_RINGBUF_BUSY_BIT BPF_RINGBUF_DISCARD_BIT) =? 0) then Some (inl E2BIG, m) else
  let cons_pos := consumer_pos m in
  let prod_pos := producer_pos m in
  let max_size := u32 (mask + 1) in
  let avail_size := u32 (max_size - u64 (prod_pos - cons_pos)) in
  let total_size := u32 (u32 (size + BPF_RINGBUF_HDR_SZ) + 7) / 8 * 8 in
  if max_size <? total_size then Some (inl E2BIG, m) else
  if avail_size <? total_size then Some (inl ENOSPC, m) else
  let hdr := Z.land prod_pos mask in
  d ← wr32 (data m) hdr (Z.lor size BPF_RINGBUF_BUSY_BIT);
  d ← wr32 d (hdr + 4) 0;
  Some (inr (Z.land (u64 (prod_pos + BPF_RINGBUF_HDR_SZ)) mask), mkMem d cons_pos (u64 (prod_pos + total_size))).

Definition user_ringbuf_commit (mask : Z) (m : ring_mem) (sample : Z) (discard : bool) : option ring_mem :=
  let hdr_offset := u64 (mask + 1 + sample - BPF_RINGBUF_HDR_SZ) in
  let hdr := Z.land hdr_offset mask in
  len ← rd32 (data m) hdr;
  let new_len := Z.land len (u32 (Z.lnot BPF_RINGBUF_BUSY_BIT)) in
  let new_len := if discard then Z.lor new_len BPF_RINGBUF_DISCARD_BIT else new_len in
  d ← wr32 (data m) hdr new_len;
  Some (set_data m d).

Definition user_ring_buffer__discard (mask : Z) (m : ring_mem) (sample : Z) : option ring_mem :=
  user_ringbuf_commit mask m sample true.
Definition user_ring_buffer__submit (mask : Z) (m : ring_mem) (sample : Z) : option ring_mem :=
  user_ringbuf_commit mask m sample false.

(** ** Waiting for room *)

(** Seconds and nanoseconds. *)
Definition ns_elapsed_timespec (start stop : Z * Z) : Z :=
  let ns_per_s := 1000000000 in
  let start_ns := u64 (u64 (u64 start.1 * ns_per_s) + start.2) in
  let end_ns := u64 (u64 (u64 stop.1 * ns_per_s) + stop.2) in
  u64 (end_ns - start_ns).

(** What one iteration gets from the system: the turn of the kernel before
    [user_ring_buffer__reserve], and the results of [epoll_wait] and
    [clock_gettime] or their [errno]. *)
Record wait_event : Type := mkW { w_turn : ring_mem → ring_mem; w_epoll : Z + Z; w_clock : Z + (Z * Z) }.

(** The loop on [ms_remaining], the memory and the events that come.  The
    result is what is returned ([None] when the last try is still to be made),
    the timeouts [epoll_wait] was called with, and the memory. *)
Fixpoint wait_loop (mask size timeout_ms : Z) (start : Z * Z) (ms_remaining : Z) (evs : list wait_event) (m : ring_mem)
    : option (option (Z + Z) * list Z * ring_mem) :=
  match evs with
  | [] => None
  | ev :: evs =>
      '(sample, m) ← user_ring_buffer__reserve mask (w_turn ev m) size;
      match sample with
      | inr p => Some (Some (inr p), [], m)
      | inl errno =>
          if negb (errno =? ENOSPC) then Some (Some (inl errno), [], m) else
          match w_epoll ev with
          | inl errno => Some (Some (inl errno), [ms_remaining], m)
          | inr _ =>
              if timeout_ms =? - 1 then
                '(r, waits, m) ← wait_loop mask size timeout_ms start ms_remaining evs m; Some (r, ms_remaining :: waits, m)
              else
              match w_clock ev with
              | inl errno => Some (Some (inl errno), [ms_remaining], m)
              | inr curr =>
                  let ms_elapsed := s32 (ns_elapsed_timespec start curr / 1000000) in
                  let remaining := s32 (timeout_ms - ms_elapsed) in
                  if 0 <? remaining then
                    '(r, waits, m) ← wait_loop mask size timeout_ms start remaining evs m; Some (r, ms_remaining :: waits, m)
                  else Some (None, [ms_remaining], m)
              end
          end
      end
  end.

(** [start] is the result of the first [clock_gettime], [last] the turn of the
    kernel before the last try. *)
Definition user_ring_buffer__reserve_blocking (mask size timeout_ms : Z) (start : Z + (Z * Z)) (evs : list wait_event)
    (last : ring_mem → ring_mem) (m : ring_mem) : option ((Z + Z) * list Z * ring_mem) :=
  if (timeout_ms <? 0) && negb (timeout_ms =? - 1) then Some (inl EINVAL, [], m) else
  match (if timeout_ms =? - 1 then inr (0, 0) else start) with
  | inl errno => Some (inl errno, [], m)
  | inr start =>
      '(r, waits, m) ← wait_loop mask size timeout_ms start timeout_ms evs m;
      match r with
      | Some r => Some (r, waits, m)
      | None => '(r, m) ← user_ring_buffer__reserve mask (last m) size; Some (r, waits, m)
      end
  end.

(** ** Rings and managers *)

(** The pointers are addresses, 0 for NULL; [r_cb] stands for the callback
    and its context. *)
Record ring : Type := mkR { r_cb : Z * Z; r_data : Z; r_consumer_pos : Z; r_producer_pos : Z; r_mask : Z; r_map_fd : Z }.

(** [events] and [rings] are [None] for NULL; an event is its [data.fd]. *)
Record ring_buffer : Type := mkRB { events : option (list Z); rings : option (list ring); page_size : Z; epoll_fd : Z; ring_cnt : Z }.

Record user_ring_buffer : Type := mkURB {
  u_consumer_pos : Z; u_producer_pos : Z; u_data : Z; u_mask : Z; u_page_size : Z; u_map_fd : Z; u_epoll_fd : Z;
}.

(** What a process has acquired: mappings with their sizes, descriptors, and
    the number of blocks of the allocator. *)
Record os : Type := mkOS { mapped : gmap Z Z; fds : gset Z; blocks : Z }.

Definition do_mmap (o : os) (a n : Z) : os := mkOS (<[a := n]> (mapped o)) (fds o) (blocks o).
Definition do_munmap (o : os) (a n : Z) : option os :=
  size ← mapped o !! a;
  if size =? n then Some (mkOS (delete a (mapped o)) (fds o) (blocks o)) else None.
Definition do_open (o : os) (fd : Z) : os := mkOS (mapped o) ({[fd]} ∪ fds o) (blocks o).
Definition do_close (o : os) (fd : Z) : os := mkOS (mapped o) (fds o ∖ {[fd]}) (blocks o).
Definition do_alloc (o : os) (n : Z) : os := mkOS (mapped o) (fds o) (blocks o + n).

(** [munmap] of a size other than the mapping's is a fault of the model. *)
Definition ringbuf_unmap_ring (page_size : Z) (r : ring) (o : os) : option (ring * os) :=
  '(r, o) ← (if r_consumer_pos r =? 0 then Some (r, o) else
             o ← do_munmap o (r_consumer_pos r) page_size;
             Some (mkR (r_cb r) (r_data r) 0 (r_producer_pos r) (r_mask r) (r_map_fd r), o));
  if r_producer_pos r =? 0 then Some (r, o) else
  o ← do_munmap o (r_producer_pos r) (u64 (page_size + 2 * (r_mask r + 1)));
  Some (mkR (r_cb r) (r_data r) (r_consumer_pos r) 0 (r_mask r) (r_map_fd r), o).

(** What [ring_buffer__add] gets from the system, each the result or [errno]:
    type and [max_entries] of the map, the two allocations, the two addresses
    and [epoll_ctl]. *)
Record add_env : Type := mkA {
  a_info : Z + (Z * Z); a_rings : bool; a_events : bool; a_consumer : Z + Z; a_producer : Z + Z; a_epoll : Z + unit;
}.

Definition BPF_MAP_TYPE_RINGBUF : Z := 27.
Definition BPF_MAP_TYPE_USER_RINGBUF : Z := 31.

(** [reallocarray] of an array: one block more if it was NULL. *)
Definition regrow {A} (o : os) (l : option (list A)) : option (list A) * os :=
  match l with None => (Some [], do_alloc o 1) | Some l => (Some l, o) end.

(** Entry [i] of the array and the ones before it. *)
Definition put {A} (l : list A) (i : Z) (x : A) : list A := take (Z.to_nat i) l ++ [x].

Definition ring_buffer__add (rb : ring_buffer) (map_fd : Z) (cb : Z * Z) (e : add_env) (o : os)
    : option (Z * ring_buffer * os) :=
  match a_info e with
  | inl errno => Some (- errno, rb, o)
  | inr (type, max_entries) =>
      if negb (type =? BPF_MAP_TYPE_RINGBUF) then Some (- EINVAL, rb, o) else
      if negb (a_rings e) then Some (- ENOMEM, rb, o) else
      let '(rs, o) := regrow o (rings rb) in
      let rb := mkRB (events rb) rs (page_size rb) (epoll_fd rb) (ring_cnt rb) in
      if negb (a_events e) then Some (- ENOMEM, rb, o) else
      let '(es, o) := regrow o (events rb) in
      let set_ring r := mkRB es (Some (put (default [] rs) (ring_cnt rb) r)) (page_size rb) (epoll_fd rb) (ring_cnt rb) in
      let r := mkR cb 0 0 0 (u32 (max_entries - 1)) map_fd in
      match a_consumer e with
      | inl errno => Some (- errno, set_ring r, o)
      | inr tmp =>
          let o := do_mmap o tmp (page_size rb) in
          let r := mkR cb 0 tmp 0 (r_mask r) map_fd in
          let mmap_sz := u64 (page_size rb + 2 * max_entries) in
          if negb (mmap_sz =? u64 mmap_sz) then Some (- E2BIG, set_ring r, o) else
          match a_producer e with
          | inl errno => '(r, o) ← ringbuf_unmap_ring (page_size rb) r o; Some (- errno, set_ring r, o)
          | inr tmp =>
              let o := do_mmap o tmp mmap_sz in
              let r := mkR cb (tmp + page_size rb) (r_consumer_pos r) tmp (r_mask r) map_fd in
              let es := put (default [] es) (ring_cnt rb) (ring_cnt rb) in
              match a_epoll e with
              | inl errno =>
                  '(r, o) ← ringbuf_unmap_ring (page_size rb) r o;
                  Some (- errno, mkRB (Some es) (rings (set_ring r)) (page_size rb) (epoll_fd rb) (ring_cnt rb), o)
              | inr _ => Some (0, mkRB (Some es) (rings (set_ring r)) (page_size rb) (epoll_fd rb) (ring_cnt rb + 1), o)
              end
          end
      end
  end.

Definition free_body (page_size : Z) (i : Z) (s : list ring * os) : option (ctl (list ring * os)) :=
  let '(rs, o) := s in
  r ← aget rs i;
  '(r, o) ← ringbuf_unmap_ring page_size r o;
  rs ← aset rs i r;
  Some (Next (rs, o)).

Definition free_block {A} (o : os) (l : option A) : os := match l with None => o | Some _ => do_alloc o (- 1) end.

Definition ring_buffer__free (rb : option ring_buffer) (o : os) : option os :=
  match rb with
  | None => Some o
  | Some rb =>
      '(_, o) ← for_loop 0 (ring_cnt rb) (free_body (page_size rb)) (default [] (rings rb), o);
      let o := if 0 <=? epoll_fd rb then do_close o (epoll_fd rb) else o in
      Some (do_alloc (free_block (free_block o (events rb)) (rings rb)) (- 1))
  end.

(** [opts_valid] is [OPTS_VALID], [calloc] whether the manager is allocated,
    [epoll] the result of [epoll_create1].  The result is [errno] or the
    manager. *)
Definition ring_buffer__new (opts_valid calloc : bool) (page_size : Z) (epoll : Z + Z) (map_fd : Z) (cb : Z * Z) (e : add_env) (o : os)
    : option ((Z + ring_buffer) * os) :=
  if negb opts_valid then Some (inl EINVAL, o) else
  if negb calloc then Some (inl ENOMEM, o) else
  let o := do_alloc o 1 in
  match epoll with
  | inl errno => o ← ring_buffer__free (Some (mkRB None None page_size (- 1) 0)) o; Some (inl errno, o)
  | inr fd =>
      '(err, rb, o) ← ring_buffer__add (mkRB None None page_size fd 0) map_fd cb e (do_open o fd);
      if negb (err =? 0) then o ← ring_buffer__free (Some rb) o; Some (inl (- err), o)
      else Some (inr rb, o)
  end.

(** ** Consuming *)

Definition INT_MAX : Z := 2 ^ 31 - 1.

Section manager.
Context {T : Type}.
Variable sample_cb : Z * Z → T → list Z → T * Z.

(** The memory behind the pointers of a ring is that of its map. *)
Abbreviation worlds := (gmap Z world).

(** The loops stop with the error in [Return]. *)
Definition process (r : ring) (s : Z * worlds * T * leave) : option (ctl (Z * worlds * T * leave)) :=
  let '(res, ws, t, _) := s in
  w ← ws !! r_map_fd r;
  '(err, w, t) ← ringbuf_process_ring (sample_cb (r_cb r)) (r_mask r) w t;
  let ws := <[r_map_fd r := w]> ws in
  if err <? 0 then Some (Break (res, ws, t, Return err)) else Some (Next (res + err, ws, t, Falls)).

Definition total (s : Z * worlds * T * leave) : Z * worlds * T :=
  let '(res, ws, t, l) := s in
  match l with Return err => (err, ws, t) | _ => (if INT_MAX <? res then INT_MAX else res, ws, t) end.

Definition ring_buffer__consume (rb : ring_buffer) (ws : worlds) (t : T) : option (Z * worlds * T) :=
  s ← for_loop 0 (ring_cnt rb) (λ i s, r ← aget (default [] (rings rb)) i; process r s) (0, ws, t, Falls);
  Some (total s).

(** [waited] is the error of [epoll_wait] or the events that it wrote. *)
Definition ring_buffer__poll (rb : ring_buffer) (waited : Z + list Z) (ws : worlds) (t : T) : option (Z * worlds * T) :=
  match waited with
  | inl errno => Some (- errno, ws, t)
  | inr evs =>
      s ← for_loop 0 (zlen evs)
            (λ i s, r ← (ring_id ← aget evs i; aget (default [] (rings rb)) ring_id); process r s) (0, ws, t, Falls);
      Some (total s)
  end.

Definition ring_buffer__epoll_fd (rb : ring_buffer) : Z := epoll_fd rb.
End manager.

(** ** The manager of the producer *)

Definition user_ringbuf_unmap_ring (rb : user_ring_buffer) (o : os) : option (user_ring_buffer * os) :=
  '(rb, o) ← (if u_consumer_pos rb =? 0 then Some (rb, o) else
              o ← do_munmap o (u_consumer_pos rb) (u_page_size rb);
              Some (mkURB 0 (u_producer_pos rb) (u_data rb) (u_mask rb) (u_page_size rb) (u_map_fd rb) (u_epoll_fd rb), o));
  if u_producer_pos rb =? 0 then Some (rb, o) else
  o ← do_munmap o (u_producer_pos rb) (u64 (u_page_size rb + 2 * (u_mask rb + 1)));
  Some (mkURB (u_consumer_pos rb) 0 (u_data rb) (u_mask rb) (u_page_size rb) (u_map_fd rb) (u_epoll_fd rb), o).

Definition user_ring_buffer__free (rb : option user_ring_buffer) (o : os) : option os :=
  match rb with
  | None => Some o
  | Some rb =>
      '(rb, o) ← user_ringbuf_unmap_ring rb o;
      let o := if 0 <=? u_epoll_fd rb then do_close o (u_epoll_fd rb) else o in
      Some (do_alloc o (- 1))
  end.

(** [a_rings] and [a_events] are not used. *)
Definition user_ringbuf_map (rb : user_ring_buffer) (map_fd : Z) (e : add_env) (o : os) : Z * user_ring_buffer * os :=
  match a_info e with
  | inl errno => (- errno, rb, o)
  | inr (type, max_entries) =>
      if negb (type =? BPF_MAP_TYPE_USER_RINGBUF) then (- EINVAL, rb, o) else
      let rb := mkURB (u_consumer_pos rb) (u_producer_pos rb) (u_data rb) (u32 (max_entries - 1)) (u_page_size rb) map_fd (u_epoll_fd rb) in
      match a_consumer e with
      | inl errno => (- errno, rb, o)
      | inr tmp =>
          let o := do_mmap o tmp (u_page_size rb) in
          let rb := mkURB tmp (u_producer_pos rb) (u_data rb) (u_mask rb) (u_page_size rb) map_fd (u_epoll_fd rb) in
          let mmap_sz := u64 (u_page_size rb + 2 * max_entries) in
          if negb (mmap_sz =? u64 mmap_sz) then (- E2BIG, rb, o) else
          match a_producer e with
          | inl errno => (- errno, rb, o)
          | inr tmp =>
              let o := do_mmap o tmp mmap_sz in
              let rb := mkURB (u_consumer_pos rb) tmp (tmp + u_page_size rb) (u_mask rb) (u_page_size rb) map_fd (u_epoll_fd rb) in
              match a_epoll e with inl errno => (- errno, rb, o) | inr _ => (0, rb, o) end
          end
      end
  end.

Definition user_ring_buffer__new (opts_valid calloc : bool) (page_size : Z) (epoll : Z + Z) (map_fd : Z) (e : add_env) (o : os)
    : option ((Z + user_ring_buffer) * os) :=
  if negb opts_valid then Some (inl EINVAL, o) else
  if negb calloc then Some (inl ENOMEM, o) else
  let o := do_alloc o 1 in
  match epoll with
  | inl errno => o ← user_ring_buffer__free (Some (mkURB 0 0 0 0 page_size 0 (- 1))) o; Some (inl errno, o)
  | inr fd =>
      let '(err, rb, o) := user_ringbuf_map (mkURB 0 0 0 0 page_size 0 fd) map_fd e (do_open o fd) in
      if negb (err =? 0) then o ← user_ring_buffer__free (Some rb) o; Some (inl (- err), o)
      else Some (inr rb, o)
  end.
