(* ===== verification/RingbufCorrect.v ===== *)
(** * Correctness of the ring buffers

    The data pages seen as a window of bytes at absolute positions; the records
    in the window; what the producer may do to them ([prod_step]), which the
    functions of user space implement; and that the consumer, interleaved with
    any producer that keeps to it, delivers the submitted samples in order. *)

From stdpp Require Import gmap relations.
From S2P Require Import Prelude Hashmap Ringbuf.

(** ** The data pages at absolute positions *)

Definition byte (d : list Z) (a : Z) : option Z := d !! Z.to_nat (a mod zlen d).

Definition bytes_at (d : list Z) (p : Z) (bs : list Z) : Prop :=
  ∀ i b, bs !! i = Some b → byte d (p + Z.of_nat i) = Some b.

Lemma byte_mod d a b : a mod zlen d = b mod zlen d → byte d a = byte d b.
Proof. unfold byte. by intros ->. Qed.

Lemma rd8_byte d x : 0 <= x < 2 * zlen d → rd8 d x = byte d x.
Proof.
  intros H. unfold rd8, page_index. zcase; [|lia..]. cbn [mbind option_bind].
  apply aget_to_nat. apply Z.mod_pos_bound. lia.
Qed.

Lemma bytes_at_cons d p b bs : bytes_at d p (b :: bs) ↔ byte d p = Some b ∧ bytes_at d (p + 1) bs.
Proof.
  split.
  - intros H. split; [rewrite <- (Z.add_0_r p); by apply (H 0%nat)|]. intros i x Hi. rewrite <- (H (S i) x Hi). f_equal. lia.
  - intros [H1 H2] [|i] x Hi; [cbn in Hi; injection Hi as <-; by rewrite Z.add_0_r|].
    rewrite <- (H2 i x Hi). f_equal. lia.
Qed.

Lemma bytes_at_app d p bs1 bs2 : bytes_at d p (bs1 ++ bs2) ↔ bytes_at d p bs1 ∧ bytes_at d (p + zlen bs1) bs2.
Proof.
  revert p. induction bs1 as [|b bs1 IH]; intros p; cbn [app].
  - rewrite Z.add_0_r. split; [|tauto]. split; [by intros ? ? ?|done].
  - rewrite !bytes_at_cons, IH. cbn [length]. replace (p + 1 + zlen bs1) with (p + Z.of_nat (S (length bs1))) by lia. tauto.
Qed.

Lemma bytes_at_ext d d' p bs : (∀ a, p <= a < p + zlen bs → byte d' a = byte d a) → bytes_at d p bs → bytes_at d' p bs.
Proof. intros H Hb i b Hi. rewrite H; [by apply Hb|]. apply lookup_lt_Some in Hi. lia. Qed.

Lemma bytes_at_mod d p q bs : p mod zlen d = q mod zlen d → bytes_at d p bs → bytes_at d q bs.
Proof.
  intros H Hb i b Hi. rewrite <- (Hb i b Hi). apply byte_mod.
  by rewrite <- (Zplus_mod_idemp_l p), H, Zplus_mod_idemp_l.
Qed.

Lemma rd_bytes_at d x bs : bytes_at d x bs → 0 <= x → x + zlen bs <= 2 * zlen d → rd_bytes d x (length bs) = Some bs.
Proof.
  revert x. induction bs as [|b bs IH]; intros x H H0 Hl; [done|]. apply bytes_at_cons in H as [Hb H]. cbn [length rd_bytes] in *.
  rewrite rd8_byte, Hb by lia. cbn [mbind option_bind]. by rewrite IH by (done || lia).
Qed.

(** Two positions of a window are different bytes. *)
Lemma window_mod n a b : 0 < n → a mod n = b mod n → a < b + n → b < a + n → a = b.
Proof.
  intros Hn E H1 H2. pose proof (Z.div_mod a n). pose proof (Z.div_mod b n).
  assert (a / n = b / n) by nia. nia.
Qed.

Lemma wr8_ok d x v : 0 <= x < 2 * zlen d →
  ∃ d', wr8 d x v = Some d' ∧ length d' = length d ∧ byte d' x = Some v
    ∧ ∀ a, a mod zlen d ≠ x mod zlen d → byte d' a = byte d a.
Proof.
  intros H. unfold wr8, page_index. zcase; [|lia..]. cbn [mbind option_bind].
  pose proof (Z.mod_pos_bound x (zlen d) ltac:(lia)) as Hx. rewrite aset_eq by lia. eexists. split; [done|].
  unfold byte. rewrite length_insert. split_and!; [done|apply list_lookup_insert_eq; lia|].
  intros a Ha. pose proof (Z.mod_pos_bound a (zlen d) ltac:(lia)). apply list_lookup_insert_ne. lia.
Qed.

Lemma wr_bytes_ok bs : ∀ d x, 0 <= x → x + zlen bs <= 2 * zlen d → zlen bs <= zlen d →
  ∃ d', wr_bytes d x bs = Some d' ∧ length d' = length d ∧ bytes_at d' x bs
    ∧ ∀ a, x + zlen bs <= a < x + zlen d → byte d' a = byte d a.
Proof.
  induction bs as [|b bs IH]; intros d x H0 H2 Hl; [by exists d|]. cbn [wr_bytes length] in *.
  destruct (wr8_ok d x b ltac:(lia)) as (d1 & -> & Hl1 & Hb & Hf). cbn [mbind option_bind].
  destruct (IH d1 (x + 1) ltac:(lia) ltac:(lia) ltac:(lia)) as (d' & -> & Hl' & Hb' & Hf'). exists d'.
  split_and!; [done|lia| |].
  - apply bytes_at_cons. split; [|done]. rewrite (byte_mod d' x (x + zlen d)).
    + rewrite Hf' by lia. rewrite <- Hb. apply byte_mod. rewrite Hl1. by rewrite <- Zplus_mod_idemp_r, Z_mod_same_full, Z.add_0_r.
    + rewrite Hl', Hl1. by rewrite <- Zplus_mod_idemp_r, Z_mod_same_full, Z.add_0_r.
  - intros a Ha. rewrite Hf' by lia. apply Hf. intros E. assert (a = x); [|lia].
    apply (window_mod (zlen d)); [lia|done|lia|lia].
Qed.

(** A write at a position of the window [c .. c + zlen d). *)
Lemma wr_window d x p c bs :
  0 <= x → x mod zlen d = p mod zlen d → x + zlen bs <= 2 * zlen d → c <= p → p + zlen bs <= c + zlen d →
  ∃ d', wr_bytes d x bs = Some d' ∧ length d' = length d ∧ bytes_at d' p bs
    ∧ ∀ a, c <= a < c + zlen d → ¬ p <= a < p + zlen bs → byte d' a = byte d a.
Proof.
  intros H0 Hm H2 Hc Hp. destruct (wr_bytes_ok bs d x H0 H2 ltac:(lia)) as (d' & -> & Hl & Hb & Hf).
  exists d'. assert (∀ a, byte d' a = byte d' (a + (x - p)) ∧ byte d a = byte d (a + (x - p))) as Hs.
  { intros a. assert (a mod zlen d = (a + (x - p)) mod zlen d) as E.
    { rewrite <- Zplus_mod_idemp_r, <- (Zminus_mod_idemp_l x), Hm, Zminus_mod_idemp_l, Z.sub_diag, Zplus_mod_idemp_r. by rewrite Z.add_0_r. }
    split; apply byte_mod; by rewrite ?Hl. }
  split_and!; [done|done| |].
  - intros i b Hi. destruct (Hs (p + Z.of_nat i)) as [-> _]. replace (p + Z.of_nat i + (x - p)) with (x + Z.of_nat i) by lia. by apply Hb.
  - intros a Ha Hn. assert (∀ z, byte d' a = byte d' (a + z * zlen d) ∧ byte d a = byte d (a + z * zlen d)) as Hz.
    { intros z. split; apply byte_mod; rewrite ?Hl; by rewrite Z_mod_plus_full. }
    destruct (Z.lt_ge_cases a p).
    + destruct (Hz 1) as [-> ->]. destruct (Hs (a + 1 * zlen d)) as [-> ->]. apply Hf. lia.
    + destruct (Hs a) as [-> ->]. apply Hf. lia.
Qed.

(** ** Headers *)

Lemma land_pow2_zero x k : 0 <= k → (Z.land x (2 ^ k) =? 0) = negb (Z.testbit x k).
Proof.
  intros Hk. destruct (Z.testbit x k) eqn:E; cbn [negb].
  - apply Z.eqb_neq. intros H. assert (Z.testbit (Z.land x (2 ^ k)) k = true) as Hb
      by (rewrite Z.land_spec, E, Z.pow2_bits_true by done; done). by rewrite H, Z.bits_0 in Hb.
  - apply Z.eqb_eq. apply Z.bits_inj'. intros i Hi. rewrite Z.land_spec, Z.bits_0.
    destruct (decide (i = k)) as [->|]; [by rewrite E|]. rewrite Z.pow2_bits_false by done. apply andb_false_r.
Qed.

Lemma testbit_high x f k : 0 <= k → 0 <= x < 2 ^ k → 0 <= f → Z.testbit (x + f * 2 ^ k) k = Z.odd f.
Proof.
  intros Hk Hx Hf. pose proof (Z.pow_pos_nonneg 2 k). rewrite Z.testbit_odd, Z.shiftr_div_pow2 by done. rewrite Z.div_add, (Z.div_small x) by lia. done.
Qed.

Lemma lor_pow2 x k : 0 <= k → 0 <= x < 2 ^ k → Z.lor x (2 ^ k) = x + 2 ^ k.
Proof.
  intros Hk Hx. assert (Z.land x (2 ^ k) = 0) as H0.
  { apply Z.eqb_eq. rewrite land_pow2_zero by done.
    replace x with (x + 0 * 2 ^ k) by lia. by rewrite testbit_high by lia. }
  rewrite <- Z.lxor_lor by done. symmetry. by apply Z.add_nocarry_lxor.
Qed.

Inductive status : Type := Busy | Submitted | Discarded.

#[export] Instance status_eq_dec : EqDecision status.
Proof. solve_decision. Defined.

(** A record: its sample and its status. *)
Record rec : Type := mkRec { payload : list Z; status_of : status }.

Definition flags (s : status) : Z := match s with Busy => 2 | Submitted => 0 | Discarded => 1 end.
Definition hdr_word (r : rec) : Z := zlen (payload r) + flags (status_of r) * 2 ^ 30.
Definition total_len (n : Z) : Z := (n + 15) / 8 * 8.
Definition rec_len (r : rec) : Z := total_len (zlen (payload r)).
Definition rec_ok (r : rec) : Prop := zlen (payload r) < 2 ^ 30.

Lemma total_len_bounds n : 0 <= n → n + 8 <= total_len n < n + 16 ∧ total_len n mod 8 = 0.
Proof. intros H. unfold total_len. split; [|apply Z_mod_mult]. pose proof (Z.div_mod (n + 15) 8). pose proof (Z.mod_pos_bound (n + 15) 8). lia. Qed.

Lemma roundup_hdr r : rec_ok r → roundup_len (hdr_word r) = rec_len r.
Proof.
  intros H. unfold rec_ok in H. unfold roundup_len, rec_len, total_len, hdr_word, BPF_RINGBUF_HDR_SZ, u32. set (n := zlen _) in *.
  assert (0 <= n) by lia. rewrite Z.shiftl_mul_pow2, Z.shiftr_div_pow2 by lia.
  assert (((n + flags (status_of r) * 2 ^ 30) * 2 ^ 2) mod 2 ^ 32 = n * 2 ^ 2) as ->.
  { replace ((n + flags (status_of r) * 2 ^ 30) * 2 ^ 2) with (n * 2 ^ 2 + flags (status_of r) * 2 ^ 32) by lia.
    rewrite Z_mod_plus_full. apply Z.mod_small. lia. }
  rewrite Z.div_mul by lia. rewrite !(Z.mod_small (n + 8)), Z.mod_small by lia. do 2 f_equal. lia.
Qed.

Lemma hdr_busy r : rec_ok r → (Z.land (hdr_word r) BPF_RINGBUF_BUSY_BIT =? 0) = negb (bool_decide (status_of r = Busy)).
Proof.
  intros H. unfold rec_ok in H. unfold BPF_RINGBUF_BUSY_BIT. rewrite land_pow2_zero by lia. f_equal. unfold hdr_word.
  destruct (status_of r); cbn [flags].
  - replace (_ + _) with (zlen (payload r) + 1 * 2 ^ 31) by lia. by rewrite testbit_high by lia.
  - replace (_ + _) with (zlen (payload r) + 0 * 2 ^ 31) by lia. by rewrite testbit_high by lia.
  - replace (_ + _) with ((zlen (payload r) + 1 * 2 ^ 30) + 0 * 2 ^ 31) by lia. by rewrite testbit_high by lia.
Qed.

Lemma hdr_discard r : rec_ok r → status_of r ≠ Busy →
  (Z.land (hdr_word r) BPF_RINGBUF_DISCARD_BIT =? 0) = bool_decide (status_of r = Submitted).
Proof.
  intros H Hb. unfold rec_ok in H. unfold BPF_RINGBUF_DISCARD_BIT. rewrite land_pow2_zero by lia. unfold hdr_word.
  destruct (status_of r); [done| |]; cbn [flags]; by rewrite testbit_high by lia.
Qed.

Lemma hdr_range r : rec_ok r → 0 <= hdr_word r < 2 ^ 32.
Proof. unfold rec_ok, hdr_word. destruct (status_of r); cbn [flags]; lia. Qed.

Lemma rd32_at d x w : bytes_at d x (le32_bytes w) → 0 <= x → x + 4 <= 2 * zlen d → rd32 d x = Some (u32 w).
Proof.
  intros H H0 H2. unfold rd32. change 4%nat with (length (le32_bytes w)).
  rewrite rd_bytes_at by (done || cbn; lia). cbn [mbind option_bind].
  rewrite <- u32_le_bytes. done.
Qed.

(** ** Records in the window *)

Fixpoint recs_at (d : list Z) (p : Z) (rs : list rec) : Prop :=
  match rs with
  | [] => True
  | r :: rs => rec_ok r ∧ bytes_at d p (le32_bytes (hdr_word r)) ∧ bytes_at d (p + 8) (payload r) ∧ recs_at d (p + rec_len r) rs
  end.

Fixpoint span (rs : list rec) : Z := match rs with [] => 0 | r :: rs => rec_len r + span rs end.

Lemma rec_len_bounds r : zlen (payload r) + 8 <= rec_len r < zlen (payload r) + 16 ∧ rec_len r mod 8 = 0.
Proof. apply total_len_bounds. lia. Qed.

Lemma span_nonneg rs : 0 <= span rs ∧ span rs mod 8 = 0.
Proof.
  induction rs as [|r rs [IH1 IH2]]; cbn [span]; [done|]. destruct (rec_len_bounds r) as [? H]. split; [lia|].
  by rewrite Z.add_mod, H, IH2 by lia.
Qed.

Lemma span_app rs1 rs2 : span (rs1 ++ rs2) = span rs1 + span rs2.
Proof. induction rs1 as [|r rs1 IH]; [done|]. cbn [app span]. lia. Qed.

Lemma recs_at_app d p rs1 rs2 : recs_at d p (rs1 ++ rs2) ↔ recs_at d p rs1 ∧ recs_at d (p + span rs1) rs2.
Proof.
  revert p. induction rs1 as [|r rs1 IH]; intros p; cbn [app recs_at span]; [rewrite Z.add_0_r; tauto|].
  rewrite IH, Z.add_assoc. tauto.
Qed.

Lemma recs_at_ext d d' rs : ∀ p, (∀ a, p <= a < p + span rs → byte d' a = byte d a) → recs_at d p rs → recs_at d' p rs.
Proof.
  induction rs as [|r rs IH]; intros p Hd H; cbn [recs_at span] in *; [done|]. destruct H as (Hok & Hh & Hp & H).
  destruct (rec_len_bounds r) as [Hl _]. destruct (span_nonneg rs) as [Hs _].
  split_and!; [done|eapply bytes_at_ext; [|done]|eapply bytes_at_ext; [|done]|eapply IH; [|done]]; intros a Ha; apply Hd;
    cbn [length le32_bytes] in *; lia.
Qed.

(** The memory of a ring of [2 ^ k] bytes holds the records that were not
    consumed. *)
Record ring_holds (mask : Z) (m : ring_mem) (rs : list rec) : Prop := {
  rh_cap : ∃ k, 3 <= k <= 31 ∧ zlen (data m) = 2 ^ k ∧ mask = 2 ^ k - 1;
  rh_cons : 0 <= consumer_pos m ∧ consumer_pos m mod 8 = 0;
  rh_prod : producer_pos m = consumer_pos m + span rs;
  rh_room : span rs <= mask + 1;
  rh_recs : recs_at (data m) (consumer_pos m) rs;
}.

(** The offset of a position. *)
Lemma land_mask m mask rs p : ring_holds mask m rs → Z.land p mask = p mod zlen (data m) ∧ 0 < zlen (data m) ∧ zlen (data m) mod 8 = 0
  ∧ mask + 1 = zlen (data m) ∧ zlen (data m) <= 2 ^ 31.
Proof.
  intros [(k & Hk & Hl & Hm) _ _ _ _]. rewrite Hl, Hm. pose proof (Z.pow_pos_nonneg 2 k ltac:(lia) ltac:(lia)).
  pose proof (Z.pow_le_mono_r 2 k 31 ltac:(lia) ltac:(lia)).
  split_and!; [|done| |lia|done].
  - rewrite <- Z.land_ones by lia. f_equal. rewrite Z.ones_equiv. lia.
  - replace k with ((k - 3) + 3) by lia. rewrite Z.pow_add_r by lia. apply Z_mod_mult.
Qed.

(** A header does not cross the end of the pages. *)
Lemma aligned_mod p n : 0 < n → n mod 8 = 0 → p mod 8 = 0 → (p mod n) mod 8 = 0 ∧ p mod n + 8 <= n.
Proof.
  intros Hn H8 Hp. assert ((p mod n) mod 8 = 0) as E.
  { rewrite (Z.mod_eq p n) by lia. apply Z.mod_divide in H8 as [c ->]; [|done]. apply Z.mod_divide in Hp as [e ->]; [|done].
    replace (e * 8 - c * 8 * (e * 8 / (c * 8))) with ((e - c * (e * 8 / (c * 8))) * 8) by lia. apply Z_mod_mult. }
  split; [done|]. pose proof (Z.mod_pos_bound p n Hn). apply Z.mod_divide in H8 as [c ->]; [|done].
  apply Z.mod_divide in E as [e E]; [|done]. rewrite E in *. lia.
Qed.

(** The oldest record. *)
Lemma head_reads mask m r rs : ring_holds mask m (r :: rs) →
  rec_ok r ∧ rd32 (data m) (Z.land (consumer_pos m) mask) = Some (hdr_word r)
  ∧ rd_bytes (data m) (Z.land (consumer_pos m) mask + 8) (length (payload r)) = Some (payload r).
Proof.
  intros H. destruct (land_mask m mask _ (consumer_pos m) H) as (-> & Hn & H8 & Hm & _).
  destruct H as [_ [Hc0 Hc8] _ Hroom (Hok & Hh & Hp & _)]. cbn [span] in Hroom.
  destruct (rec_len_bounds r) as [Hl _]. destruct (span_nonneg rs) as [Hs _].
  destruct (aligned_mod _ _ Hn H8 Hc8) as [_ Hfit]. pose proof (Z.mod_pos_bound (consumer_pos m) _ Hn).
  split_and!; [done| |].
  - rewrite (rd32_at _ _ (hdr_word r)); [|by apply (bytes_at_mod _ (consumer_pos m)); [rewrite Zmod_mod|]|lia|lia].
    f_equal. unfold u32. apply Z.mod_small. by apply hdr_range.
  - apply rd_bytes_at; [|lia|lia]. apply (bytes_at_mod _ (consumer_pos m + 8)); [by rewrite Zplus_mod_idemp_l|done].
Qed.

Lemma consume_head mask m r rs : ring_holds mask m (r :: rs) →
  ring_holds mask (set_consumer m (consumer_pos m + rec_len r)) rs.
Proof.
  intros [Hcap [Hc0 Hc8] Hp Hroom (_ & _ & _ & H)]. cbn [span] in *. destruct (rec_len_bounds r) as [Hl H8].
  split; cbn; [done| |lia|lia|done]. split; [lia|]. by rewrite Z.add_mod, Hc8, H8 by lia.
Qed.

(** ** What a producer may do *)

Inductive prod_step (cap : Z) : list rec → list rec → Prop :=
| ps_reserve rs bs : zlen bs < 2 ^ 30 → span rs + total_len (zlen bs) <= cap → prod_step cap rs (rs ++ [mkRec bs Busy])
| ps_fill rs1 bs bs' rs2 : length bs' = length bs → prod_step cap (rs1 ++ mkRec bs Busy :: rs2) (rs1 ++ mkRec bs' Busy :: rs2)
| ps_commit rs1 bs s rs2 : s ≠ Busy → prod_step cap (rs1 ++ mkRec bs Busy :: rs2) (rs1 ++ mkRec bs s :: rs2).

(** A record that is not busy stays first. *)
Lemma prod_step_first cap r rs rs' :
  prod_step cap (r :: rs) rs' → status_of r ≠ Busy → ∃ rs1, rs' = r :: rs1 ∧ prod_step cap rs rs1.
Proof.
  intros H Hr. inversion H as [? bs Hb Hroom|l1 bs bs' l2 Hl E|l1 bs s l2 Hs E]; subst.
  - eexists. split; [done|]. apply ps_reserve; [done|]. cbn [span] in Hroom. destruct (rec_len_bounds r). lia.
  - destruct l1 as [|r' l1]; simplify_list_eq; try done. eexists. split; [done|]. by apply ps_fill.
  - destruct l1 as [|r' l1]; simplify_list_eq; try done. eexists. split; [done|]. by apply ps_commit.
Qed.

Lemma prod_steps_first cap rs rs' : rtc (prod_step cap) rs rs' → ∀ r tl, rs = r :: tl → status_of r ≠ Busy →
  ∃ tl', rs' = r :: tl' ∧ rtc (prod_step cap) tl tl'.
Proof.
  induction 1 as [rs|rs rs1 rs' H _ IH]; intros r tl -> Hr; [by exists tl|].
  destruct (prod_step_first _ _ _ _ H Hr) as (tl1 & -> & H1). destruct (IH r tl1 eq_refl Hr) as (tl' & -> & H2).
  exists tl'. split; [done|]. by eapply rtc_l.
Qed.

(** The same behind records that were consumed, without a bound. *)
Definition evolves : list rec → list rec → Prop := rtc (λ rs rs', ∃ cap, prod_step cap rs rs').

Lemma evolves_behind cap pre rs rs' : rtc (prod_step cap) rs rs' → evolves (pre ++ rs) (pre ++ rs').
Proof.
  intros H. eapply (rtc_congruence (λ rs, pre ++ rs)); [|exact H]. intros x y Hxy. exists (cap + span pre).
  destruct Hxy as [l bs Hb Hr|l1 bs bs' l2 Hl|l1 bs s l2 Hs].
  - rewrite app_assoc. apply ps_reserve; [done|]. rewrite span_app. lia.
  - rewrite !app_assoc. by apply ps_fill.
  - rewrite !app_assoc. by apply ps_commit.
Qed.

(** A turn of a producer, far from the end of the 64-bit positions. *)
Definition producer (mask : Z) (f : ring_mem → ring_mem) : Prop :=
  ∀ m rs, ring_holds mask m rs → producer_pos m + 2 ^ 31 < 2 ^ 63 →
  ∃ rs', rtc (prod_step (mask + 1)) rs rs' ∧ ring_holds mask (f m) rs' ∧ consumer_pos (f m) = consumer_pos m.

(** The ring, with producers to come. *)
Record live (mask : Z) (w : world) (rs : list rec) : Prop := {
  lv_ring : ring_holds mask w.1 rs;
  lv_env : Forall (producer mask) w.2;
  lv_pos : producer_pos w.1 + zlen w.2 * 2 ^ 31 < 2 ^ 63;
}.

Lemma prod_steps_span cap rs rs' : rtc (prod_step cap) rs rs' → span rs <= span rs'.
Proof.
  induction 1 as [|rs rs1 rs' H _ IH]; [lia|]. etrans; [|exact IH]. destruct H as [l bs Hb Hr|l1 bs bs' l2 Hl|l1 bs s l2 Hs];
    rewrite !span_app; cbn [span]; unfold rec_len; cbn [payload]; try (rewrite Hl; lia); [|lia].
  destruct (total_len_bounds (zlen bs)); lia.
Qed.

Lemma turn_live mask w rs : live mask w rs →
  ∃ rs', rtc (prod_step (mask + 1)) rs rs' ∧ live mask (turn w) rs' ∧ consumer_pos (turn w).1 = consumer_pos w.1
    ∧ producer_pos w.1 <= producer_pos (turn w).1 ∧ length (turn w).2 = Nat.pred (length w.2) ∧ (w.2 = [] → turn w = w)
    ∧ (w.2 = [] → rs' = rs ∧ (turn w).2 = []).
Proof.
  destruct w as [m [|f env]]; intros [H1 H2 H3]; cbn [turn fst snd] in *.
  - exists rs. split_and!; [done|by split|done|lia|done|done|done].
  - inversion H2 as [|? ? Hf Henv]; subst. cbn [length] in H3. destruct (Hf m rs H1 ltac:(lia)) as (rs' & Hs & Hr & Hc).
    exists rs'. pose proof (prod_steps_span _ _ _ Hs). destruct (land_mask _ _ _ 0 H1) as (_ & _ & _ & Hm & Hmax).
    pose proof (rh_prod _ _ _ H1). pose proof (rh_prod _ _ _ Hr). pose proof (rh_room _ _ _ Hr).
    destruct (span_nonneg rs) as [Hn _].
    split_and!; [done| |done|lia|done|done|done]. split; cbn [fst snd]; [done|done|lia].
Qed.

(** ** The consumer *)

Section consumer.
Context {T : Type}.
Variable sample_cb : T → list Z → T * Z.
Variable mask : Z.

(** The turns the other end had in the beginning: with none, the records are
    the same at the end. *)
Variable env0 : list (ring_mem → ring_mem).
(** The position of the consumer in the beginning. *)
Variable start0 : Z.

Definition history (rs0 rs : list rec) (w : world) : Prop := evolves rs0 rs ∧ (env0 = [] → rs = rs0 ∧ w.2 = []).

(** The samples that are given to the callback. *)
Definition samples (rs : list rec) : list (list Z) :=
  omap (λ r, if decide (status_of r = Submitted) then Some (payload r) else None) rs.

Lemma samples_snoc rs r : samples (rs ++ [r]) = samples rs ++ (if decide (status_of r = Submitted) then [payload r] else []).
Proof. unfold samples. rewrite omap_app. cbn. by destruct (decide _). Qed.

(** Calls of the callback none of which fails. *)
Inductive calls : T → list (list Z) → T → Prop :=
| calls_nil t : calls t [] t
| calls_snoc t ss t1 s t2 err : calls t ss t1 → sample_cb t1 s = (t2, err) → 0 <= err → calls t (ss ++ [s]) t2.

(** From [rs0] and [t0] on, the records [taken] were consumed, [rest] were not. *)
Record progress (rs0 : list rec) (t0 : T) (l : locals T) (taken rest : list rec) : Prop := {
  pg_hist : history rs0 (taken ++ rest) (l_world l);
  pg_done : Forall (λ r, status_of r ≠ Busy) taken;
  pg_live : live mask (l_world l) rest;
  pg_pos : cons_pos l = consumer_pos (l_world l).1 ∧ cons_pos l = start0 + span taken;
  pg_calls : calls t0 (samples taken) (l_state l);
  pg_cnt : cnt l = zlen (samples taken);
}.

(** How the loops end early: at a record that is busy, or because the callback
    failed on the last record that was consumed. *)
Definition stopped (rs0 : list rec) (t0 : T) (l : locals T) : Prop :=
  match l_leave l with
  | Falls => False
  | GotoDone => ∃ taken r rest, progress rs0 t0 l taken (r :: rest) ∧ status_of r = Busy
  | Return err => err < 0 ∧ ∃ taken r rest t1, history rs0 (taken ++ r :: rest) (l_world l) ∧ live mask (l_world l) rest
      ∧ Forall (λ r, status_of r ≠ Busy) taken ∧ status_of r = Submitted ∧ calls t0 (samples taken) t1
      ∧ sample_cb t1 (payload r) = (l_state l, err) ∧ consumer_pos (l_world l).1 = start0 + span (taken ++ [r])
  end.

(** The end of an iteration: the store of the position past the first record. *)
Lemma store_live w r rs : live mask w (r :: rs) → status_of r ≠ Busy →
  ∃ rs', rtc (prod_step (mask + 1)) rs rs' ∧ live mask (store_consumer w (consumer_pos w.1 + rec_len r)) rs'
    ∧ consumer_pos (store_consumer w (consumer_pos w.1 + rec_len r)).1 = consumer_pos w.1 + rec_len r
    ∧ producer_pos w.1 <= producer_pos (store_consumer w (consumer_pos w.1 + rec_len r)).1
    ∧ length (store_consumer w (consumer_pos w.1 + rec_len r)).2 = Nat.pred (length w.2)
    ∧ (w.2 = [] → producer_pos (store_consumer w (consumer_pos w.1 + rec_len r)).1 = producer_pos w.1)
    ∧ (w.2 = [] → rs' = rs ∧ (store_consumer w (consumer_pos w.1 + rec_len r)).2 = []).
Proof.
  intros H Hr. destruct (turn_live mask w _ H) as (rs1 & Hs & H1 & Hc & Hp & Hl & He & Hq).
  destruct (prod_steps_first _ _ _ Hs r rs eq_refl Hr) as (rs' & -> & Hs'). exists rs'.
  unfold store_consumer. destruct (turn w) as [m env]. cbn [fst snd] in *. rewrite <- Hc.
  split_and!; [done| |done|done|done| |]; [|intros E; specialize (He E); by subst w|intros E; destruct (Hq E) as [[= ->] ->]; done].
  destruct H1 as [Hring Henv Hpos]. split; [by apply consume_head|done|done].
Qed.

Lemma history_trans taken rs rs' rs0 w w' :
  history rs0 (taken ++ rs) w → rtc (prod_step (mask + 1)) rs rs' → (w.2 = [] → rs' = rs ∧ w'.2 = []) → history rs0 (taken ++ rs') w'.
Proof.
  intros [H Hq] Hs Hq'. split; [etrans; [exact H|]; by eapply evolves_behind|]. intros E. destruct (Hq E) as [<- Hw].
  by destruct (Hq' Hw) as [-> ?].
Qed.

Lemma sample_body_ok rs0 t0 prod_pos l taken rest :
  progress rs0 t0 l taken rest → prod_pos <= producer_pos (l_world l).1 → cons_pos l < prod_pos →
  ∃ c, sample_body sample_cb mask prod_pos l = Some c ∧ match c with
    | Next l' => ∃ taken' rest', progress rs0 t0 l' taken' rest' ∧ got_new_data l' = true
        ∧ producer_pos (l_world l).1 <= producer_pos (l_world l').1 ∧ cons_pos l < cons_pos l'
        ∧ (length (l_world l').2 <= length (l_world l).2)%nat
        ∧ ((l_world l).2 = [] → producer_pos (l_world l').1 = producer_pos (l_world l).1)
    | Break l' => stopped rs0 t0 l' ∧ (length (l_world l').2 <= length (l_world l).2)%nat
    end.
Proof.
  destruct l as [cons got n w t lv]. intros [Hhist Hdone Hlive [Hpos Hstart] Hcalls Hcnt] Hprod Hlt.
  cbn [cons_pos got_new_data cnt l_world l_state l_leave] in *.
  destruct (turn_live mask w rest Hlive) as (rest1 & Hs & Hlive1 & Hc1 & Hp1 & Hl1 & He1 & Hq1).
  unfold sample_body. rewrite (proj2 (Z.ltb_lt _ _) Hlt). cbn [negb]. set (w1 := turn w) in *.
  rewrite Hpos in Hstart. rewrite Hpos, <- Hc1. rewrite <- Hc1 in Hstart. pose proof (history_trans _ _ _ _ _ _ Hhist Hs Hq1) as Hhist1.
  assert (∃ r rest2, rest1 = r :: rest2) as (r & rest2 & ->).
  { destruct rest1 as [|r rest2]; [|by exists r, rest2]. pose proof (rh_prod _ _ _ (lv_ring _ _ _ Hlive1)) as E. cbn in E. lia. }
  destruct (head_reads _ _ _ _ (lv_ring _ _ _ Hlive1)) as (Hok & Hhdr & Hpay). rewrite Hhdr. cbn [mbind option_bind].
  rewrite hdr_busy by done. rewrite negb_involutive. case_bool_decide as Hb.
  { eexists. split; [done|]. unfold stopped. cbn [l_leave l_world]. split; [|lia].
    exists taken, r, rest2. split; [|done]. by split. }
  rewrite roundup_hdr by done. rewrite hdr_discard by done.
  assert (u64 (consumer_pos w1.1 + rec_len r) = consumer_pos w1.1 + rec_len r) as ->.
  { pose proof (lv_pos _ _ _ Hlive1). pose proof (rh_prod _ _ _ (lv_ring _ _ _ Hlive1)) as E. cbn [span] in E.
    pose proof (rh_cons _ _ _ (lv_ring _ _ _ Hlive1)). destruct (rec_len_bounds r), (span_nonneg rest2).
    apply u64_small. lia. }
  destruct (store_live w1 r rest2 Hlive1 Hb) as (rest3 & Hs3 & Hlive3 & Hc3 & Hp3 & Hl3 & He3 & Hq3).
  destruct (rec_len_bounds r) as [Hlen _].
  assert (history rs0 ((taken ++ [r]) ++ rest3) (store_consumer w1 (consumer_pos w1.1 + rec_len r))) as Hhist3
    by (eapply history_trans; [rewrite <- app_assoc; exact Hhist1|exact Hs3|exact Hq3]).
  assert (consumer_pos w1.1 + rec_len r = start0 + span (taken ++ [r])) as Hstart3 by (rewrite span_app; cbn [span]; lia).
  assert (Forall (λ r, status_of r ≠ Busy) (taken ++ [r])) as Hdone3 by (apply Forall_app; auto).
  assert (w.2 = [] → producer_pos (store_consumer w1 (consumer_pos w1.1 + rec_len r)).1 = producer_pos w.1) as He.
  { intros E. specialize (He1 E). rewrite He3; by rewrite He1. }
  case_bool_decide as Hsub.
  - assert (Z.to_nat (hdr_word r) = length (payload r)) as -> by (unfold hdr_word; rewrite Hsub; cbn; lia).
    unfold BPF_RINGBUF_HDR_SZ. rewrite Hpay. cbn [mbind option_bind]. destruct (sample_cb t (payload r)) as [t' err] eqn:Ecb.
    destruct (Z.ltb_spec err 0) as [Herr|Herr].
    + eexists. split; [done|]. unfold stopped. cbn [l_leave l_world l_state]. split; [|lia]. split; [done|].
      exists taken, r, rest3, t. rewrite <- app_assoc in Hhist3. split_and!; try done. by rewrite Hc3.
    + eexists. split; [done|]. exists (taken ++ [r]), rest3. cbn [cons_pos got_new_data cnt l_world l_state l_leave].
      split_and!; [|done|lia|lia|lia|done].
      split; cbn [cons_pos got_new_data cnt l_world l_state l_leave]; rewrite ?samples_snoc; try rewrite decide_True by done;
        [done|done|done|by rewrite Hc3, <- Hstart3|by eapply calls_snoc|rewrite length_app; cbn; lia].
  - eexists. split; [done|]. exists (taken ++ [r]), rest3. cbn [cons_pos got_new_data cnt l_world l_state l_leave].
    split_and!; [|done|lia|lia|lia|done].
    split; cbn [cons_pos got_new_data cnt l_world l_state l_leave]; rewrite ?samples_snoc; try rewrite decide_False by done;
      rewrite ?app_nil_r; [done|done|done|by rewrite Hc3, <- Hstart3|done|done].
Qed.

(** The end of the inner loop: it was left early, or the position read before
    it was reached. *)
Lemma sample_loop_ok rs0 t0 prod_pos l taken rest :
  progress rs0 t0 l taken rest → prod_pos = producer_pos (l_world l).1 → got_new_data l = false →
  ∃ l', while_loop (S (Z.to_nat (prod_pos - cons_pos l))) (sample_body sample_cb mask prod_pos) l = Some l'
    ∧ (length (l_world l').2 <= length (l_world l).2)%nat
    ∧ (stopped rs0 t0 l' ∨ ∃ taken' rest', progress rs0 t0 l' taken' rest' ∧ l_leave l' = Falls
        ∧ (got_new_data l' = false → rest' = [])
        ∧ ((l_world l).2 = [] → cons_pos l' = producer_pos (l_world l').1)
        ∧ (got_new_data l' = true → cons_pos l < prod_pos)).
Proof.
  intros Hpr Hprod Hgot.
  set (I := λ l' : locals T, ∃ taken' rest', progress rs0 t0 l' taken' rest' ∧ prod_pos <= producer_pos (l_world l').1
    ∧ (length (l_world l').2 <= length (l_world l).2)%nat ∧ (got_new_data l' = false → prod_pos = producer_pos (l_world l').1)
    ∧ ((l_world l).2 = [] → prod_pos = producer_pos (l_world l').1)
    ∧ cons_pos l <= cons_pos l' ∧ (got_new_data l' = true → cons_pos l < prod_pos)).
  apply (while_loop_inv I _ (λ l', Z.to_nat (prod_pos - cons_pos l'))); [|exists taken, rest; split_and!; auto; (lia || congruence)|lia].
  intros l1 (taken1 & rest1 & Hpr1 & Hle & Hlen & Hg1 & He1 & Hcl & Hgl). destruct (Z.lt_ge_cases (cons_pos l1) prod_pos) as [Hlt|Hge].
  - destruct (sample_body_ok rs0 t0 prod_pos l1 taken1 rest1 Hpr1 Hle Hlt) as ([l2|l2] & -> & H); eexists; (split; [done|]); cbv beta iota.
    + destruct H as (taken2 & rest2 & Hpr2 & Hg2 & Hp2 & Hc2 & Hl2 & He2). split; [|lia]. exists taken2, rest2.
      split_and!; [done|lia|lia|by rewrite Hg2| |lia|lia]. intros E. rewrite He2; [by apply He1|]. rewrite E in Hlen.
      destruct ((l_world l1).2); [done|cbn in Hlen; lia].
    + destruct H as [H Hl2]. split; [lia|by left].
  - unfold sample_body. destruct l1 as [c1 g1 n1 w1 t1 v1]. cbn [cons_pos got_new_data l_world l_leave] in *.
    rewrite (proj2 (Z.ltb_ge _ _) Hge). cbn [negb]. eexists. split; [done|]. cbn [got_new_data l_world l_leave]. split; [done|]. right. exists taken1, rest1.
    destruct Hpr1 as [? ? Hlive [Hpos ?] ? ?]. cbn [cons_pos got_new_data cnt l_world l_state l_leave] in *.
    pose proof (rh_prod _ _ _ (lv_ring _ _ _ Hlive)) as Hsp. destruct (span_nonneg rest1) as [Hn _].
    split_and!; [by split|done| | |done].
    + intros E. specialize (Hg1 E). destruct rest1 as [|r rest1]; [done|]. cbn [span] in Hsp.
      destruct (rec_len_bounds r), (span_nonneg rest1). lia.
    + intros E. specialize (He1 E). lia.
Qed.

(** What the function has done when it returns. *)
Inductive processed (rs0 : list rec) (t0 : T) : Z → world → T → Prop :=
| pr_drained taken rest w t :
    history rs0 (taken ++ rest) w → live mask w rest → Forall (λ r, status_of r ≠ Busy) taken →
    (rest = [] ∨ ∃ r tl, rest = r :: tl ∧ status_of r = Busy) →
    calls t0 (samples taken) t → consumer_pos w.1 = start0 + span taken → processed rs0 t0 (zlen (samples taken)) w t
| pr_failed taken r rest w t1 t err :
    history rs0 (taken ++ r :: rest) w → live mask w rest → Forall (λ r, status_of r ≠ Busy) taken →
    status_of r = Submitted → calls t0 (samples taken) t1 → sample_cb t1 (payload r) = (t, err) → err < 0 →
    consumer_pos w.1 = start0 + span (taken ++ [r]) → processed rs0 t0 err w t.

Definition result (l : locals T) : Z := match l_leave l with Return err => err | _ => cnt l end.

Lemma stopped_processed rs0 t0 l : stopped rs0 t0 l → processed rs0 t0 (result l) (l_world l) (l_state l).
Proof.
  unfold stopped, result. destruct (l_leave l) as [| |err]; [done| |].
  - intros (taken & r & rest & [Hh Hd Hl [Hp1 Hp2] Hc ->] & Hb). eapply pr_drained; try done; [right; by eexists _, _|congruence].
  - intros (He & taken & r & rest & t1 & Hh & Hl & Hd & Hs & Hc & Hcb & Hp). by eapply pr_failed.
Qed.

(** The rounds that are still possible. *)
Definition rounds (l : locals T) : nat :=
  length (l_world l).2 + (if bool_decide ((l_world l).2 = [] ∧ cons_pos l = producer_pos (l_world l).1) then 0 else 1).

Lemma ring_round_ok rs0 t0 l taken rest :
  progress rs0 t0 l taken rest →
  ∃ c, round_body sample_cb mask l = Some c ∧ match c with
    | Next l' => (∃ taken' rest', progress rs0 t0 l' taken' rest') ∧ (rounds l' < rounds l)%nat
    | Break l' => processed rs0 t0 (result l') (l_world l') (l_state l')
    end.
Proof.
  destruct l as [cons got n w t lv]. intros [Hhist Hdone Hlive [Hpos Hstart] Hcalls Hcnt].
  cbn [cons_pos got_new_data cnt l_world l_state l_leave] in *. unfold round_body.
  destruct (turn_live mask w rest Hlive) as (rest1 & Hs & Hlive1 & Hc1 & Hp1 & Hl1 & He1 & Hq1).
  destruct (sample_loop_ok rs0 t0 (producer_pos (turn w).1) (mkL cons false n (turn w) t Falls) taken rest1)
    as (l' & Hw & Hlen & Hend); [|done|done|].
  { split; cbn [cons_pos got_new_data cnt l_world l_state l_leave]; [by eapply history_trans|done|done|split; [congruence|done]|done|done]. }
  cbn [cons_pos l_world] in Hw, Hlen, Hend. rewrite Hw. cbn [mbind option_bind]. destruct Hend as [Hst|(taken' & rest' & Hpr & Hlv & Hg & He & Hgl)].
  - assert (l_leave l' ≠ Falls) as Hne by (intros E; unfold stopped in Hst; by rewrite E in Hst).
    exists (Break l'). split; [destruct (l_leave l'); done|]. by apply stopped_processed.
  - rewrite Hlv. eexists. split; [done|]. destruct (got_new_data l') eqn:Eg.
    + split; [by exists taken', rest'|]. unfold rounds. cbn [l_world cons_pos].
      destruct (decide (w.2 = [])) as [E|E].
      * rewrite (He1 E) in *. specialize (He E). rewrite E in *. destruct ((l_world l').2) eqn:E2; [|cbn in Hlen; lia].
        rewrite (bool_decide_eq_true_2 (_ ∧ cons_pos l' = _)) by done. case_bool_decide as Hb; [|cbn; lia].
        destruct Hb as [_ Hb]. specialize (Hgl eq_refl). cbn [cons_pos] in Hgl. lia.
      * destruct (w.2) eqn:Ew; [done|]. cbn in *. repeat case_bool_decide; lia.
    + specialize (Hg eq_refl). subst rest'. destruct Hpr as [? ? ? [? ?] ? Hn]. unfold result. rewrite Hlv, Hn.
      eapply pr_drained; [done..|by left|done|congruence].
Qed.

End consumer.

Lemma process_ring_ok {T} (sample_cb : T → list Z → T * Z) mask w rs t :
  live mask w rs → ∃ ret w' t', ringbuf_process_ring sample_cb mask w t = Some (ret, w', t')
    ∧ processed sample_cb mask w.2 (consumer_pos w.1) rs t ret w' t'.
Proof.
  intros H. destruct (turn_live mask w rs H) as (rs1 & Hs & H1 & Hc & _ & _ & _ & Hq). unfold ringbuf_process_ring.
  destruct (while_loop_inv (λ l, ∃ taken rest, progress sample_cb mask w.2 (consumer_pos w.1) rs t l taken rest)
    (λ l, processed sample_cb mask w.2 (consumer_pos w.1) rs t (result l) (l_world l) (l_state l)) rounds (round_body sample_cb mask)
    (S (S (S (length (turn w).2)))) (mkL (consumer_pos (turn w).1) false 0 (turn w) t Falls)) as (l & -> & Hl).
  - intros l (taken & rest & Hp). destruct (ring_round_ok sample_cb mask w.2 (consumer_pos w.1) rs t l taken rest Hp) as ([l'|l'] & -> & Hl); by eexists.
  - exists [], rs1. split; cbn [cons_pos got_new_data cnt l_world l_state l_leave app]; [|done|done| |constructor|done]; [|split; [done|rewrite Hc; cbn; lia]].
    split; [apply (evolves_behind (mask + 1) [] rs rs1 Hs)|]. intros E. by apply Hq.
  - unfold rounds. cbn [l_world]. case_bool_decide; lia.
  - cbn [mbind option_bind]. exists (result l), (l_world l), (l_state l). split; [|done]. unfold result. by destruct (l_leave l).
Qed.

(** ** The producer of user space *)

Lemma bytes_somewhere d p n : 0 < zlen d → ∃ bs, length bs = n ∧ bytes_at d p bs.
Proof.
  intros Hd. revert p. induction n as [|n IH]; intros p; [by exists []|].
  destruct (IH (p + 1)) as (bs & <- & Hb). unfold byte.
  destruct (lookup_lt_is_Some_2 d (Z.to_nat (p mod zlen d))) as [b Hbyte].
  { pose proof (Z.mod_pos_bound p (zlen d) Hd). lia. }
  exists (b :: bs). split; [done|]. by apply bytes_at_cons.
Qed.

(** A record is replaced by one of the same length. *)
Lemma change_rec mask m d' rs1 r r' rs2 :
  ring_holds mask m (rs1 ++ r :: rs2) → length d' = length (data m) → length (payload r') = length (payload r) →
  (∀ a, consumer_pos m <= a < consumer_pos m + zlen (data m) →
    ¬ consumer_pos m + span rs1 <= a < consumer_pos m + span rs1 + rec_len r → byte d' a = byte (data m) a) →
  bytes_at d' (consumer_pos m + span rs1) (le32_bytes (hdr_word r')) →
  bytes_at d' (consumer_pos m + span rs1 + 8) (payload r') →
  ring_holds mask (set_data m d') (rs1 ++ r' :: rs2).
Proof.
  intros H Hl Hlen Hd Hh Hp. destruct (land_mask _ _ _ 0 H) as (_ & _ & _ & Hm & _).
  assert (rec_len r' = rec_len r) as Er by (unfold rec_len; by rewrite Hlen).
  destruct H as [Hcap Hc Hpr Hroom Hr]. rewrite span_app in *. cbn [span] in *.
  destruct (span_nonneg rs1) as [Hs1 _], (span_nonneg rs2) as [Hs2 _], (rec_len_bounds r) as [Hrl _].
  apply recs_at_app in Hr as [Hr1 (Hok & _ & _ & Hr2)].
  split; cbn [set_data data consumer_pos producer_pos]; rewrite ?span_app; cbn [span]; rewrite ?Er; [by rewrite Hl|done|done|done|].
  apply recs_at_app. split; [eapply recs_at_ext; [|done]; intros a Ha; apply Hd; lia|]. cbn [recs_at].
  split_and!; [unfold rec_ok in *; lia|done|done|]. rewrite Er. eapply recs_at_ext; [|done]. intros a Ha. apply Hd; lia.
Qed.

Lemma size_flags size : 0 <= size < 2 ^ 32 →
  (Z.land size (Z.lor BPF_RINGBUF_BUSY_BIT BPF_RINGBUF_DISCARD_BIT) =? 0) = (size <? 2 ^ 30).
Proof.
  intros H. unfold BPF_RINGBUF_BUSY_BIT, BPF_RINGBUF_DISCARD_BIT. rewrite Z.land_lor_distr_r.
  assert (∀ a b, (Z.lor a b =? 0) = (a =? 0) && (b =? 0)) as ->.
  { intros a b. destruct (Z.eqb_spec (Z.lor a b) 0) as [E|E].
    - apply Z.lor_eq_0_iff in E as [-> ->]. done.
    - destruct (Z.eqb_spec a 0) as [->|]; [|done]. destruct (Z.eqb_spec b 0) as [->|]; [|done]. by destruct E. }
  rewrite !land_pow2_zero by lia. set (q := size / 2 ^ 30). pose proof (Z.div_mod size (2 ^ 30) ltac:(lia)) as E.
  pose proof (Z.mod_pos_bound size (2 ^ 30) ltac:(lia)). fold q in E.
  assert (q = 0 ∨ q = 1 ∨ q = 2 ∨ q = 3) as Hq by lia.
  set (s := size mod 2 ^ 30) in *. destruct (Z.ltb_spec size (2 ^ 30)) as [Hlt|Hge].
  - assert (q = 0) as E0 by lia. replace size with (size + 0 * 2 ^ 31) at 1 by lia. rewrite testbit_high by lia.
    replace size with (size + 0 * 2 ^ 30) by lia. by rewrite testbit_high by lia.
  - destruct Hq as [Hq|[Hq|[Hq|Hq]]]; [lia| | |].
    + replace size with (s + 1 * 2 ^ 30) by lia. rewrite (testbit_high s 1 30) by lia. apply andb_false_r.
    + replace size with (s + 1 * 2 ^ 31) by lia. by rewrite (testbit_high s 1 31) by lia.
    + replace size with (s + 3 * 2 ^ 30) by lia. rewrite (testbit_high s 3 30) by lia. apply andb_false_r.
Qed.

Lemma wr32_ok d x p c w :
  0 <= x → x mod zlen d = p mod zlen d → x + 4 <= 2 * zlen d → c <= p → p + 4 <= c + zlen d →
  ∃ d', wr32 d x w = Some d' ∧ length d' = length d ∧ bytes_at d' p (le32_bytes w)
    ∧ ∀ a, c <= a < c + zlen d → ¬ p <= a < p + 4 → byte d' a = byte d a.
Proof. intros. by apply (wr_window d x p c (le32_bytes w)). Qed.

(** Every outcome of a reservation. *)
Lemma reserve_record mask m rs size :
  ring_holds mask m rs → producer_pos m + 2 ^ 31 < 2 ^ 63 → 0 <= size < 2 ^ 32 →
  if (2 ^ 30 <=? size) || (mask + 1 <? total_len size) then user_ring_buffer__reserve mask m size = Some (inl E2BIG, m)
  else if mask + 1 <? span rs + total_len size then user_ring_buffer__reserve mask m size = Some (inl ENOSPC, m)
  else ∃ m' bs, user_ring_buffer__reserve mask m size = Some (inr ((producer_pos m + 8) mod (mask + 1)), m')
    ∧ ring_holds mask m' (rs ++ [mkRec bs Busy]) ∧ zlen bs = size ∧ consumer_pos m' = consumer_pos m.
Proof.
  intros H Hpos Hsize. unfold user_ring_buffer__reserve. rewrite size_flags by done.
  destruct (Z.ltb_spec size (2 ^ 30)) as [Hs|Hs]; cbn [negb].
  2: { by rewrite (proj2 (Z.leb_le _ _) Hs). }
  rewrite (proj2 (Z.leb_gt _ _) Hs). cbn [orb]. destruct (land_mask m mask rs (producer_pos m) H) as (Hland & Hn & H8 & Hm & Hmax).
  destruct (land_mask m mask rs (producer_pos m + 8) H) as (Hland8 & _).
  pose proof H as [Hcap [Hc0 Hc8] Hp Hroom Hrecs]. destruct (span_nonneg rs) as [Hsp Hsp8].
  destruct (total_len_bounds size ltac:(lia)) as [Htl _].
  unfold BPF_RINGBUF_HDR_SZ. rewrite (u32_small (size + 8)), (u32_small (size + 8 + 7)), (u32_small (mask + 1)) by (unfold word_ok; lia).
  rewrite (u64_small (producer_pos m - consumer_pos m)), u32_small by (unfold word_ok; lia).
  rewrite (u64_small (producer_pos m + 8)) by lia.
  replace ((size + 8 + 7) / 8 * 8) with (total_len size) by (unfold total_len; do 2 f_equal; lia).
  case Z.ltb_spec; intros Hbig; [done|]. replace (producer_pos m - consumer_pos m) with (span rs) by lia.
  replace (mask + 1 - span rs <? total_len size) with (mask + 1 <? span rs + total_len size) by lia.
  case Z.ltb_spec; intros Hfit; [done|].
  assert (producer_pos m mod 8 = 0) as Hp8 by (rewrite Hp, Z.add_mod, Hc8, Hsp8 by lia; done).
  destruct (aligned_mod _ _ Hn H8 Hp8) as [_ Hin]. pose proof (Z.mod_pos_bound (producer_pos m) _ Hn).
  rewrite Hland, Hland8.
  destruct (wr32_ok (data m) (producer_pos m mod zlen (data m)) (producer_pos m) (consumer_pos m) (Z.lor size BPF_RINGBUF_BUSY_BIT))
    as (d1 & -> & Hl1 & Hb1 & Hf1); [lia|by rewrite Zmod_mod|lia|lia|lia|]. cbn [mbind option_bind].
  destruct (wr32_ok d1 (producer_pos m mod zlen (data m) + 4) (producer_pos m + 4) (consumer_pos m) 0)
    as (d2 & -> & Hl2 & _ & Hf2); rewrite ?Hl1 in *; [lia|by rewrite Zplus_mod_idemp_l|lia|lia|lia|]. cbn [mbind option_bind].
  destruct (bytes_somewhere d2 (producer_pos m + 8) (Z.to_nat size)) as (bs & Hlb & Hbs); [lia|].
  rewrite u64_small by lia. eexists _, bs. split; [by rewrite Hm|]. split; [|split; [lia|done]].
  split; cbn [data consumer_pos producer_pos]; rewrite ?span_app; cbn [span]; unfold rec_len; cbn [payload];
    replace (zlen bs) with size by lia; rewrite ?Z.add_0_r; [by rewrite Hl2|done|lia|lia|].
  apply recs_at_app. split.
  - eapply recs_at_ext; [|exact Hrecs]. intros a Ha. rewrite Hf2, Hf1 by lia. done.
  - cbn [recs_at]. rewrite <- Hp. split_and!; [unfold rec_ok; cbn; lia| |done|done].
    eapply bytes_at_ext; [|]; [|]. 2: { unfold hdr_word. cbn [payload status_of flags]. replace (zlen bs) with size by lia.
      replace (size + 2 * 2 ^ 30) with (Z.lor size BPF_RINGBUF_BUSY_BIT); [exact Hb1|]. unfold BPF_RINGBUF_BUSY_BIT. rewrite lor_pow2; lia. }
    intros a Ha. cbn [length le32_bytes] in Ha. apply Hf2; lia.
Qed.

(** The offset of the sample of the record behind [rs1]. *)
Definition sample_offset (mask : Z) (m : ring_mem) (rs1 : list rec) : Z := (consumer_pos m + span rs1 + 8) mod (mask + 1).

(** Where a record is in the window. *)
Lemma record_place mask m rs1 r rs2 : ring_holds mask m (rs1 ++ r :: rs2) →
  let p := consumer_pos m + span rs1 in
  p mod zlen (data m) + 8 <= zlen (data m) ∧ 0 <= p mod zlen (data m) ∧ consumer_pos m <= p
  ∧ p + rec_len r <= consumer_pos m + zlen (data m) ∧ zlen (payload r) + 8 <= rec_len r.
Proof.
  intros H p. destruct (land_mask m mask _ p H) as (_ & Hn & H8 & Hm & _). destruct H as [_ [Hc0 Hc8] _ Hroom _].
  rewrite span_app in Hroom. cbn [span] in Hroom.
  destruct (span_nonneg rs1) as [Hs Hs8], (span_nonneg rs2) as [Hs2 _], (rec_len_bounds r) as [Hr _].
  assert (p mod 8 = 0) as Hp8 by (unfold p; rewrite Z.add_mod, Hc8, Hs8 by lia; done).
  destruct (aligned_mod _ _ Hn H8 Hp8) as [_ Hin]. pose proof (Z.mod_pos_bound p _ Hn). unfold p in *. split_and!; lia.
Qed.

(** Filling the sample of a reserved record. *)
Lemma fill_record mask m rs1 bs bs' rs2 :
  ring_holds mask m (rs1 ++ mkRec bs Busy :: rs2) → length bs' = length bs →
  ∃ d', wr_bytes (data m) (sample_offset mask m rs1) bs' = Some d' ∧ ring_holds mask (set_data m d') (rs1 ++ mkRec bs' Busy :: rs2).
Proof.
  intros H Hl. destruct (record_place _ _ _ _ _ H) as (_ & _ & Hc & Hp & Hlen). cbn [payload] in *.
  destruct (land_mask m mask _ 0 H) as (_ & Hn & _ & Hm & _). unfold sample_offset. rewrite Hm.
  set (p := consumer_pos m + span rs1) in *. pose proof (Z.mod_pos_bound (p + 8) _ Hn).
  destruct (wr_window (data m) ((p + 8) mod zlen (data m)) (p + 8) (consumer_pos m) bs') as (d' & -> & Hl' & Hb & Hf);
    [lia|by rewrite Zmod_mod|lia|lia|lia|].
  exists d'. split; [done|]. pose proof (rh_recs _ _ _ H) as Hr. apply recs_at_app in Hr as [_ (_ & Hh & _)].
  eapply (change_rec mask m d' rs1 (mkRec bs Busy)); cbn [payload]; [done|done|done| | |done].
  - intros a Ha Hn'. apply Hf; [done|]. fold p in Hn'. lia.
  - eapply bytes_at_ext; [|unfold hdr_word in *; cbn [payload status_of] in *; rewrite Hl; exact Hh].
    intros a Ha. cbn [length le32_bytes] in Ha. fold p in Ha. apply Hf; lia.
Qed.

Lemma commit_record mask m rs1 bs rs2 discard :
  ring_holds mask m (rs1 ++ mkRec bs Busy :: rs2) →
  ∃ d', user_ringbuf_commit mask m (sample_offset mask m rs1) discard = Some (set_data m d')
    ∧ ring_holds mask (set_data m d') (rs1 ++ mkRec bs (if discard then Discarded else Submitted) :: rs2).
Proof.
  intros H. destruct (record_place _ _ _ _ _ H) as (Hin & Hpos & Hc & Hp & Hlen). cbn [payload] in *.
  pose proof (rh_recs _ _ _ H) as Hr. apply recs_at_app in Hr as [_ (Hok & Hh & Hpay & _)].
  unfold user_ringbuf_commit, sample_offset, BPF_RINGBUF_HDR_SZ.
  destruct (land_mask m mask _ (u64 (mask + 1 + (consumer_pos m + span rs1 + 8) mod (mask + 1) - 8)) H) as (-> & Hn & _ & -> & Hmax).
  set (p := consumer_pos m + span rs1) in *. set (n := zlen (data m)) in *.
  pose proof (Z.mod_pos_bound (p + 8) n Hn). rewrite u64_small by lia.
  assert ((n + (p + 8) mod n - 8) mod n = p mod n) as ->.
  { replace (n + (p + 8) mod n - 8) with ((p + 8) mod n + (n - 8)) by lia. rewrite Zplus_mod_idemp_l.
    replace (p + 8 + (n - 8)) with (p + 1 * n) by lia. apply Z_mod_plus_full. }
  set (r := mkRec bs Busy) in *.
  rewrite (rd32_at _ _ (hdr_word r)); [|apply (bytes_at_mod _ p); [by rewrite Zmod_mod|done]|lia|fold n; lia].
  cbn [mbind option_bind]. cbv zeta. rewrite (u32_small (hdr_word r)) by (by apply hdr_range).
  assert (zlen bs < 2 ^ 30) as Hsmall by exact Hok.
  assert (Z.land (hdr_word r) (u32 (Z.lnot BPF_RINGBUF_BUSY_BIT)) = zlen bs) as ->.
  { change (u32 (Z.lnot BPF_RINGBUF_BUSY_BIT)) with (Z.ones 31). rewrite Z.land_ones by lia. unfold hdr_word, r. cbn [payload status_of flags].
    replace (zlen bs + 2 * 2 ^ 30) with (zlen bs + 1 * 2 ^ 31) by lia. rewrite Z_mod_plus_full. apply Z.mod_small. lia. }
  set (r' := mkRec bs (if discard then Discarded else Submitted)).
  assert ((if discard then Z.lor (zlen bs) BPF_RINGBUF_DISCARD_BIT else zlen bs) = hdr_word r') as ->.
  { unfold hdr_word, r', BPF_RINGBUF_DISCARD_BIT. cbn [payload status_of]. destruct discard; cbn [flags]; [rewrite lor_pow2 by lia|]; lia. }
  destruct (wr32_ok (data m) (p mod n) p (consumer_pos m) (hdr_word r')) as (d' & -> & Hl' & Hb & Hf);
    [lia|by rewrite Zmod_mod|fold n; lia|lia|fold n; lia|].
  cbn [mbind option_bind]. exists d'. split; [done|]. apply (change_rec mask m d' rs1 r r' rs2); [done|done|done| |done|].
  - intros a Ha Hn'. apply Hf; [done|]. fold p in Hn'. lia.
  - eapply bytes_at_ext; [|exact Hpay]. intros a Ha. cbn [payload r'] in Ha. fold p in Ha. apply Hf; fold n; lia.
Qed.

(** ** Producers made of these functions *)

(** Reserves a record only. *)
Definition reserve_only (mask size : Z) (m : ring_mem) : ring_mem :=
  match user_ring_buffer__reserve mask m size with Some (_, m') => m' | None => m end.

(** Reserves a record, fills it and submits or discards it. *)
Definition produce (mask : Z) (bs : list Z) (discard : bool) (m : ring_mem) : ring_mem :=
  match user_ring_buffer__reserve mask m (zlen bs) with
  | Some (inr p, m1) =>
      default m (d ← wr_bytes (data m1) p bs;
                 if discard then user_ring_buffer__discard mask (set_data m1 d) p
                 else user_ring_buffer__submit mask (set_data m1 d) p)
  | _ => m
  end.

Lemma reserve_step mask m rs size :
  ring_holds mask m rs → producer_pos m + 2 ^ 31 < 2 ^ 63 → 0 <= size < 2 ^ 32 →
  (∃ e, user_ring_buffer__reserve mask m size = Some (inl e, m))
  ∨ ∃ m' bs, user_ring_buffer__reserve mask m size = Some (inr (sample_offset mask m rs), m')
      ∧ ring_holds mask m' (rs ++ [mkRec bs Busy]) ∧ zlen bs = size ∧ consumer_pos m' = consumer_pos m
      ∧ prod_step (mask + 1) rs (rs ++ [mkRec bs Busy]).
Proof.
  intros H Hpos Hsize. pose proof (reserve_record mask m rs size H Hpos Hsize) as Hr.
  destruct (Z.leb_spec (2 ^ 30) size); cbn [orb] in Hr; [left; by eexists|].
  destruct (Z.ltb_spec (mask + 1) (total_len size)); [left; by eexists|].
  destruct (Z.ltb_spec (mask + 1) (span rs + total_len size)); [left; by eexists|].
  right. destruct Hr as (m' & bs & E & H' & Hl & Hc). exists m', bs. unfold sample_offset. rewrite <- (rh_prod _ _ _ H).
  split_and!; [done..|]. apply ps_reserve; rewrite Hl; lia.
Qed.

Lemma reserve_producer mask size : 0 <= size < 2 ^ 32 → producer mask (reserve_only mask size).
Proof.
  intros Hs m rs H Hpos. unfold reserve_only.
  destruct (reserve_step mask m rs size H Hpos Hs) as [[e ->]|(m' & bs & -> & H' & _ & Hc & Hst)]; [by exists rs|].
  eexists. split; [by apply rtc_once|done].
Qed.

Lemma produce_producer mask bs discard : zlen bs < 2 ^ 32 → producer mask (produce mask bs discard).
Proof.
  intros Hs m rs H Hpos. unfold produce.
  destruct (reserve_step mask m rs (zlen bs) H Hpos ltac:(lia)) as [[e ->]|(m' & bs0 & -> & H' & Hl & Hc & Hst)]; [by exists rs|].
  assert (sample_offset mask m rs = sample_offset mask m' rs) as -> by (unfold sample_offset; by rewrite Hc).
  destruct (fill_record mask m' rs bs0 bs [] H' ltac:(lia)) as (d1 & -> & H1). cbn [mbind option_bind].
  destruct (commit_record mask (set_data m' d1) rs bs [] discard H1) as (d2 & E & H2).
  change (sample_offset mask (set_data m' d1) rs) with (sample_offset mask m' rs) in E.
  exists (rs ++ [mkRec bs (if discard then Discarded else Submitted)]).
  destruct discard; unfold user_ring_buffer__discard, user_ring_buffer__submit; rewrite E; cbn [default from_option id];
    (split_and!; [|exact H2|exact Hc]); (eapply rtc_l; [exact Hst|]);
    (eapply rtc_l; [by apply (ps_fill _ rs bs0 bs []); lia|]); apply rtc_once; by apply ps_commit.
Qed.

(** ** Waiting for room *)

(** A turn of the kernel that consumes. *)
Definition consumer_turn (mask : Z) (f : ring_mem → ring_mem) : Prop :=
  ∀ m rs, ring_holds mask m rs → ∃ rs', ring_holds mask (f m) rs' ∧ producer_pos (f m) = producer_pos m.

(** The time is over. *)
Definition expired (timeout_ms : Z) (start : Z * Z) (ev : wait_event) : Prop :=
  match w_clock ev with inl _ => True | inr curr => s32 (timeout_ms - s32 (ns_elapsed_timespec start curr / 1000000)) <= 0 end.

(** What the caller of a reservation gets. *)
Definition reserved (mask size : Z) (r : Z + Z) (m : ring_mem) : Prop :=
  match r with
  | inr p => ∃ rs bs, ring_holds mask m (rs ++ [mkRec bs Busy]) ∧ zlen bs = size ∧ p = sample_offset mask m rs
  | inl _ => ∃ rs, ring_holds mask m rs
  end.

Lemma reserve_result mask m rs size :
  ring_holds mask m rs → producer_pos m + 2 ^ 31 < 2 ^ 63 → 0 <= size < 2 ^ 32 →
  ∃ r m', user_ring_buffer__reserve mask m size = Some (r, m') ∧ reserved mask size r m'
    ∧ (∀ e, r = inl e → m' = m).
Proof.
  intros H Hp Hs. destruct (reserve_step mask m rs size H Hp Hs) as [[e E]|(m' & bs & E & H' & Hl & Hc & _)].
  - exists (inl e), m. split_and!; [done|by exists rs|done].
  - exists (inr (sample_offset mask m rs)), m'. split_and!; [done| |done]. exists rs, bs. split_and!; [done|done|].
    unfold sample_offset. by rewrite Hc.
Qed.

Lemma wait_loop_ok mask size timeout_ms start evs : ∀ remaining m rs,
  ring_holds mask m rs → producer_pos m + 2 ^ 31 < 2 ^ 63 → 0 <= size < 2 ^ 32 → timeout_ms ≠ - 1 →
  Forall (λ ev, consumer_turn mask (w_turn ev)) evs → Exists (expired timeout_ms start) evs →
  remaining = timeout_ms ∨ 0 < remaining →
  ∃ r waits m', wait_loop mask size timeout_ms start remaining evs m = Some (r, waits, m')
    ∧ Forall (λ w, w = timeout_ms ∨ 0 < w) waits ∧ match r with
      | Some r => reserved mask size r m'
      | None => ∃ rs', ring_holds mask m' rs' ∧ producer_pos m' = producer_pos m
      end.
Proof.
  induction evs as [|ev evs IH]; intros remaining m rs H Hpos Hs Ht Hev Hex Hrem; [by inversion Hex|]. cbn [wait_loop].
  inversion Hev as [|? ? Hturn Hev']; subst. destruct (Hturn m rs H) as (rs1 & H1 & Hp1).
  destruct (reserve_result mask (w_turn ev m) rs1 size H1 ltac:(lia) Hs) as (r & m1 & -> & Hres & Hsame). cbn [mbind option_bind].
  destruct r as [e|p]; [|by eexists _, _, _]. rewrite (Hsame e eq_refl) in *.
  destruct (negb (e =? ENOSPC)); [by eexists _, _, _|].
  destruct (w_epoll ev); [eexists _, _, _; split_and!; [done|by constructor|by exists rs1]|].
  rewrite (proj2 (Z.eqb_neq _ _) Ht). destruct (w_clock ev) as [|curr] eqn:Ec;
    [eexists _, _, _; split_and!; [done|by constructor|by exists rs1]|]. cbv zeta.
  case Z.ltb_spec; intros Hr; [|eexists _, _, _; split_and!; [done|by constructor|by exists rs1]].
  assert (Exists (expired timeout_ms start) evs) as Hex'.
  { apply Exists_cons in Hex as [Hex|Hex]; [|done]. unfold expired in Hex. rewrite Ec in Hex. lia. }
  destruct (IH _ (w_turn ev m) rs1 H1 ltac:(lia) Hs Ht Hev' Hex' (or_intror Hr)) as (r & waits & m' & -> & Hw & Hr').
  cbn [mbind option_bind]. eexists _, _, _. split_and!; [done|by constructor|]. destruct r; [done|].
  destruct Hr' as (rs' & ? & ?). exists rs'. split; [done|lia].
Qed.

(** With a timeout, the function returns once the time is over: with a record,
    or without one and the ring unharmed; it never waits for a time that is
    negative. *)
Lemma reserve_blocking_ok mask size timeout_ms start evs last m rs :
  ring_holds mask m rs → producer_pos m + 2 ^ 31 < 2 ^ 63 → 0 <= size < 2 ^ 32 → 0 <= timeout_ms →
  Forall (λ ev, consumer_turn mask (w_turn ev)) evs → consumer_turn mask last →
  match start with inl _ => True | inr start => Exists (expired timeout_ms start) evs end →
  ∃ r waits m', user_ring_buffer__reserve_blocking mask size timeout_ms start evs last m = Some (r, waits, m')
    ∧ reserved mask size r m' ∧ Forall (λ w, 0 <= w) waits.
Proof.
  intros H Hpos Hs Ht Hev Hlast Hex. unfold user_ring_buffer__reserve_blocking.
  rewrite (proj2 (Z.ltb_ge _ _) Ht). rewrite (proj2 (Z.eqb_neq timeout_ms (- 1))) by lia. cbn [andb].
  destruct start as [errno|start]; [eexists _, _, _; split_and!; [done|by exists rs|constructor]|].
  destruct (wait_loop_ok mask size timeout_ms start evs timeout_ms m rs H Hpos Hs ltac:(lia) Hev Hex (or_introl eq_refl))
    as (r & waits & m' & -> & Hw & Hr). cbn [mbind option_bind].
  assert (Forall (λ w, 0 <= w) waits) as Hw' by (eapply Forall_impl; [|exact Hw]; cbv beta; lia).
  destruct r as [r|]; [by eexists _, _, _|]. destruct Hr as (rs' & H' & Hp').
  destruct (Hlast m' rs' H') as (rs2 & H2 & Hp2).
  destruct (reserve_result mask (last m') rs2 size H2 ltac:(lia) Hs) as (r & m2 & -> & Hres & _). cbn [mbind option_bind].
  by eexists _, _, _.
Qed.

(** ** The theorem of the consumer *)

(** C21: [ringbuf_process_ring], with any turns of the producer before each of
    its accesses, returns and stays in the mapped pages; it gives the callback
    exactly the samples of the submitted records, in order and complete, skips
    the discarded ones, and stops only at a record that is still busy, when the
    ring is empty, or after the record whose callback failed; the position it
    stores is past the records it consumed and no other. *)
Theorem process_ring_delivers {T} (sample_cb : T → list Z → T * Z) mask m env rs t :
  ring_holds mask m rs → Forall (producer mask) env → producer_pos m + zlen env * 2 ^ 31 < 2 ^ 63 →
  ∃ ret w' t', ringbuf_process_ring sample_cb mask (m, env) t = Some (ret, w', t')
    ∧ processed sample_cb mask env (consumer_pos m) rs t ret w' t'.
Proof. intros H Henv Hpos. apply (process_ring_ok sample_cb mask (m, env)). by split. Qed.

(** A callback that keeps the samples. *)
Definition keep (t : list (list Z)) (s : list Z) : list (list Z) * Z := (t ++ [s], 0).

(** An empty ring of 64 bytes close to the end of its pages. *)
Definition ring64 : ring_mem := mkMem (replicate 64 0) 48 48.

Lemma ring64_holds : ring_holds 63 ring64 [].
Proof. split; [exists 6; vm_compute; split_and!; congruence|vm_compute; split; congruence|done|done|done]. Qed.

Definition env64 : list (ring_mem → ring_mem) :=
  [produce 63 [1; 2; 3; 4; 5; 6; 7; 8; 9; 10] false; produce 63 [9] true; id; produce 63 [11; 12] false; reserve_only 63 4].

Lemma env64_ok : Forall (producer 63) env64.
Proof.
  unfold env64. repeat (apply Forall_cons_2; [(apply produce_producer; cbn; lia) || by apply reserve_producer || (intros m rs H _; by exists rs)|]).
  constructor.
Qed.

Lemma process_ring_delivers_witness :
  ∃ w', ringbuf_process_ring keep 63 (ring64, env64) [] = Some (2, w', [[1; 2; 3; 4; 5; 6; 7; 8; 9; 10]; [11; 12]])
    ∧ processed keep 63 env64 48 [] [] 2 w' [[1; 2; 3; 4; 5; 6; 7; 8; 9; 10]; [11; 12]].
Proof.
  destruct (process_ring_delivers keep 63 ring64 env64 [] [] ring64_holds env64_ok ltac:(vm_compute; reflexivity))
    as (ret & w' & t' & E & H).
  assert (ret = 2 ∧ t' = [[1; 2; 3; 4; 5; 6; 7; 8; 9; 10]; [11; 12]]) as [-> ->]
    by (vm_compute in E; injection E as <- _ <-; split; reflexivity).
  exists w'. split; assumption.
Defined.

(** ** The two ends together *)

(** The pointers that were returned, in the order of the reservations. *)
Record sys : Type := mkS { s_mem : ring_mem; s_samples : list Z }.

Inductive ring_op : Type :=
| Reserve (size : Z)
| Fill (h : nat) (bs : list Z)
| Commit (h : nat) (discard : bool)
| Consume.

Inductive ring_res : Type :=
| Refused (errno : Z)
| Done
| Consumed (n : Z) (samples : list (list Z)).

Definition ring_step (mask : Z) (s : sys) (o : ring_op) : option (ring_res * sys) :=
  let 'mkS m ps := s in
  match o with
  | Reserve size =>
      '(r, m) ← user_ring_buffer__reserve mask m size;
      Some (match r with inl e => (Refused e, mkS m ps) | inr p => (Done, mkS m (ps ++ [p])) end)
  | Fill h bs => p ← ps !! h; d ← wr_bytes (data m) p bs; Some (Done, mkS (set_data m d) ps)
  | Commit h discard =>
      p ← ps !! h;
      m ← (if discard then user_ring_buffer__discard mask m p else user_ring_buffer__submit mask m p);
      Some (Done, mkS m ps)
  | Consume =>
      '(n, w, t) ← ringbuf_process_ring keep mask (m, []) [];
      Some (Consumed n t, mkS w.1 ps)
  end.

(** All records that were ever reserved, and how many were consumed. *)
Abbreviation log := (list rec * nat)%type.

Definition busy_at (q : log) (h : nat) (n : nat) : Prop := ∃ bs, q.1 !! h = Some (mkRec bs Busy) ∧ length bs = n.

Definition permitted (s : sys) (q : log) (o : ring_op) : Prop :=
  match o with
  | Reserve size => 0 <= size < 2 ^ 32 ∧ producer_pos (s_mem s) + 2 ^ 31 < 2 ^ 63
  | Fill h bs => busy_at q h (length bs)
  | Commit h _ => ∃ n, busy_at q h n
  | Consume => producer_pos (s_mem s) < 2 ^ 63
  end.

Inductive log_step (cap : Z) : log → ring_op → ring_res → log → Prop :=
| ls_too_big hist c size : 2 ^ 30 <= size ∨ cap < total_len size → log_step cap (hist, c) (Reserve size) (Refused E2BIG) (hist, c)
| ls_no_room hist c size :
    total_len size <= cap → cap < span (drop c hist) + total_len size →
    log_step cap (hist, c) (Reserve size) (Refused ENOSPC) (hist, c)
| ls_reserve hist c size bs :
    size < 2 ^ 30 → span (drop c hist) + total_len size <= cap → zlen bs = size →
    log_step cap (hist, c) (Reserve size) Done (hist ++ [mkRec bs Busy], c)
| ls_fill hist c h bs0 bs :
    hist !! h = Some (mkRec bs0 Busy) → log_step cap (hist, c) (Fill h bs) Done (<[h := mkRec bs Busy]> hist, c)
| ls_commit hist c h bs discard :
    hist !! h = Some (mkRec bs Busy) →
    log_step cap (hist, c) (Commit h discard) Done (<[h := mkRec bs (if discard then Discarded else Submitted)]> hist, c)
| ls_consume hist c taken rest :
    drop c hist = taken ++ rest → Forall (λ r, status_of r ≠ Busy) taken →
    rest = [] ∨ (∃ r tl, rest = r :: tl ∧ status_of r = Busy) →
    log_step cap (hist, c) Consume (Consumed (zlen (samples taken)) (samples taken)) (hist, (c + length taken)%nat).

(** The memory holds what was not consumed; record [h] is at its position from
    the beginning on. *)
Record sim (mask start : Z) (s : sys) (q : log) : Prop := {
  sm_ring : ring_holds mask (s_mem s) (drop q.2 q.1);
  sm_le : (q.2 <= length q.1)%nat;
  sm_done : Forall (λ r, status_of r ≠ Busy) (take q.2 q.1);
  sm_pos : consumer_pos (s_mem s) = start + span (take q.2 q.1);
  sm_samples : length (s_samples s) = length q.1;
  sm_at : ∀ h p, s_samples s !! h = Some p → p = (start + span (take h q.1) + 8) mod (mask + 1);
}.

Lemma span_insert rs (h : nat) r r' : rs !! h = Some r → length (payload r') = length (payload r) → ∀ n, span (take n (<[h := r']> rs)) = span (take n rs).
Proof.
  revert h. induction rs as [|x rs IH]; intros [|h] H Hl [|n]; try done; cbn in *.
  - injection H as ->. unfold rec_len. by rewrite Hl.
  - by rewrite (IH h).
Qed.

(** A busy record has not been consumed: it is in the memory, at the pointer. *)
Lemma busy_place mask start s q h bs :
  sim mask start s q → q.1 !! h = Some (mkRec bs Busy) →
  ∃ rs1 rs2, drop q.2 q.1 = rs1 ++ mkRec bs Busy :: rs2 ∧ (∀ r, drop q.2 (<[h := r]> q.1) = rs1 ++ r :: rs2 ∧ take q.2 (<[h := r]> q.1) = take q.2 q.1)
    ∧ s_samples s !! h = Some (sample_offset mask (s_mem s) rs1).
Proof.
  intros [Hr Hle Hd Hp Hlen Hat] Hh. destruct q as [hist c]. cbn [fst snd] in *.
  assert (c <= h)%nat as Hch.
  { destruct (decide (c <= h)%nat); [done|]. rewrite Forall_forall in Hd. exfalso. eapply (Hd (mkRec bs Busy)); [|done].
    apply list_elem_of_In, list_elem_of_lookup. exists h. rewrite lookup_take_lt by lia. done. }
  exists (drop c (take h hist)), (drop (S h) hist). pose proof (lookup_lt_Some _ _ _ Hh) as Hlt.
  assert (∀ l : list rec, length l = length hist → take h l = take h hist → drop (S h) l = drop (S h) hist → ∀ r, l !! h = Some r →
    drop c l = drop c (take h hist) ++ r :: drop (S h) hist) as Hsplit.
  { intros l Hl Ht Hdr r Hlr. rewrite <- (take_drop_middle l h r Hlr), Ht, Hdr. apply drop_app_le. rewrite length_take. lia. }
  split_and!; [by apply Hsplit| |].
  - intros r. split; [|apply take_insert_ge; lia]. apply Hsplit; [apply length_insert|by apply take_insert_ge|apply drop_insert_lt; lia|].
    by apply list_lookup_insert_eq.
  - destruct (lookup_lt_is_Some_2 (s_samples s) h) as [p Hsp]; [lia|]. rewrite Hsp. f_equal. rewrite (Hat h p Hsp).
    unfold sample_offset. do 2 f_equal. rewrite Hp.
    rewrite <- (take_drop c (take h hist)) at 1. rewrite span_app, take_take, Nat.min_l by lia. lia.
Qed.

Lemma calls_keep t ss t' : calls keep t ss t' → t' = t ++ ss.
Proof.
  induction 1 as [|t ss t1 s t2 err _ -> H Herr]; [by rewrite app_nil_r|]. unfold keep in H. injection H as <- <-. by rewrite <- app_assoc.
Qed.

Lemma drop_snoc {A} (l : list A) (n : nat) x : (n <= length l)%nat → drop n (l ++ [x]) = drop n l ++ [x] ∧ take n (l ++ [x]) = take n l.
Proof. intros H. split; [by apply drop_app_le|by apply take_app_le]. Qed.

(** Another status or sample of a record that is busy. *)
Lemma sim_change mask start m ps hist c h bs r m' :
  sim mask start (mkS m ps) (hist, c) → hist !! h = Some (mkRec bs Busy) → length (payload r) = length bs →
  ring_holds mask m' (drop c (<[h := r]> hist)) → consumer_pos m' = consumer_pos m →
  take c (<[h := r]> hist) = take c hist → sim mask start (mkS m' ps) (<[h := r]> hist, c).
Proof.
  intros [Hr Hle Hd Hp Hlen Hat] Hh Hl Hr' Hc Ht. cbn [fst snd s_mem s_samples] in *.
  split; cbn [fst snd s_mem s_samples]; rewrite ?length_insert, ?Ht; try done; [congruence|].
  intros i p Hi. rewrite (span_insert hist h (mkRec bs Busy)) by done. by apply Hat.
Qed.

Lemma ring_step_reserve mask start m ps hist c size :
  sim mask start (mkS m ps) (hist, c) → permitted (mkS m ps) (hist, c) (Reserve size) →
  ∃ r s' q', ring_step mask (mkS m ps) (Reserve size) = Some (r, s') ∧ log_step (mask + 1) (hist, c) (Reserve size) r q' ∧ sim mask start s' q'.
Proof.
  intros H [Hsize Hpos]. pose proof H as [Hr Hle Hd Hp Hlen Hat]. cbn [fst snd s_mem s_samples] in *.
  pose proof (reserve_record mask m (drop c hist) size Hr Hpos Hsize) as Hres. unfold ring_step.
  destruct ((2 ^ 30 <=? size) || (mask + 1 <? total_len size)) eqn:E1.
  { rewrite Hres. eexists _, _, _. split; [done|]. split; [|exact H]. apply ls_too_big. lia. }
  destruct (mask + 1 <? span (drop c hist) + total_len size) eqn:E2.
  { rewrite Hres. eexists _, _, _. split; [done|]. split; [|exact H]. apply ls_no_room; lia. }
  destruct Hres as (m' & bs & -> & Hr' & Hl & Hc). eexists _, _, _. split; [done|]. split; [apply (ls_reserve _ _ _ _ bs); lia|].
  destruct (drop_snoc hist c (mkRec bs Busy) Hle) as [E3 E4].
  split; cbn [fst snd s_mem s_samples]; rewrite ?E3, ?E4, ?length_app; cbn [length]; [done|lia|done|congruence|lia|].
  intros i p Hi. apply lookup_app_Some in Hi as [Hi|[Hge Hi]].
  - pose proof (lookup_lt_Some _ _ _ Hi). rewrite take_app_le by lia. by apply Hat.
  - destruct (i - length ps)%nat eqn:Ei; [|done]. cbn in Hi. injection Hi as <-.
    rewrite take_app_le, take_ge by lia. do 2 f_equal. rewrite (rh_prod _ _ _ Hr), Hp, <- Z.add_assoc, <- span_app. by rewrite take_drop.
Qed.

Lemma ring_step_consume mask start m ps hist c :
  sim mask start (mkS m ps) (hist, c) → permitted (mkS m ps) (hist, c) Consume →
  ∃ r s' q', ring_step mask (mkS m ps) Consume = Some (r, s') ∧ log_step (mask + 1) (hist, c) Consume r q' ∧ sim mask start s' q'.
Proof.
  intros [Hr Hle Hd Hp Hlen Hat] Hpos. cbn [fst snd s_mem s_samples permitted] in *.
  destruct (process_ring_ok keep mask (m, []) (drop c hist) []) as (ret & w' & t' & E & H);
    [split; cbn [fst snd length]; [done|constructor|lia]|].
  unfold ring_step. rewrite E. cbn [mbind option_bind]. inversion H as [taken rest w t Hhist Hlive Htaken Hend Hcalls Hsum|]; subst.
  2: { match goal with Hcb : keep _ _ = _ |- _ => unfold keep in Hcb; injection Hcb as _ <- end. lia. }
  destruct Hhist as [_ Hq]. destruct (Hq eq_refl) as [Etr Hw]. rewrite (calls_keep _ _ _ Hcalls). cbn [app].
  eexists _, _, _. split; [done|]. split; [by eapply ls_consume|].
  assert (length taken + c <= length hist)%nat as Hlt.
  { assert (length (drop c hist) = length taken + length rest)%nat as El by (by rewrite <- Etr, length_app). rewrite length_drop in El. lia. }
  assert (drop (c + length taken) hist = rest ∧ take (c + length taken) hist = take c hist ++ taken) as [Er Et].
  { rewrite <- (drop_drop hist), <- Etr, drop_app_length. split; [done|].
    rewrite <- (take_drop c hist) at 1. rewrite <- Etr, take_app, length_take, Nat.min_l by lia.
    replace (c + length taken - c)%nat with (length taken) by lia. rewrite take_app_length.
    rewrite (take_ge (take c hist)) by (rewrite length_take; lia). done. }
  pose proof (lv_ring _ _ _ Hlive) as Hring. split; cbn [fst snd s_mem s_samples]; rewrite ?Er, ?Et; [done|lia| | |done|done].
  - by apply Forall_app.
  - rewrite Hsum. cbn [fst]. rewrite Hp, span_app. lia.
Qed.

(** C22: what a producer writes into a ring buffer with
    [user_ring_buffer__reserve], [submit] and [discard] is what
    [ringbuf_process_ring] reads.  An empty ring of a power of two of bytes, at
    any position of its pages, starts in relation to an empty log; each
    operation the program may make stays in the pages, gives the result of the
    log, and keeps the relation: a reservation is refused exactly when the record
    is too big or there is no room, a record keeps its place until it is
    consumed, and the consumer takes the records up to the first busy one. *)
Theorem user_ring_hands_over k mask :
  3 <= k <= 31 → mask = 2 ^ k - 1 →
  (∀ d start, zlen d = 2 ^ k → 0 <= start → start mod 8 = 0 → sim mask start (mkS (mkMem d start start) []) ([], 0%nat))
  ∧ ∀ start s q o, sim mask start s q → permitted s q o →
      ∃ r s' q', ring_step mask s o = Some (r, s') ∧ log_step (mask + 1) q o r q' ∧ sim mask start s' q'.
Proof.
  intros Hk Hm. split.
  - intros d start Hd H0 H8. split; cbn; try done; try lia. split; cbn; try done; try lia. by exists k.
  - intros start [m ps] [hist c] o H Hp. destruct o as [size|h bs'|h discard|].
    + by apply ring_step_reserve.
    + destruct Hp as (bs & Hh & Hl). destruct (busy_place _ _ _ _ _ _ H Hh) as (rs1 & rs2 & Ed & Ei & Hps).
      cbn [fst snd s_mem s_samples] in *. destruct (Ei (mkRec bs' Busy)) as [Ed' Et']. pose proof (sm_ring _ _ _ _ H) as Hr. cbn [fst snd s_mem] in Hr. rewrite Ed in Hr.
      destruct (fill_record mask m rs1 bs bs' rs2 Hr (eq_sym Hl)) as (d' & E & Hr'). cbn [ring_step].
      rewrite Hps. cbn [mbind option_bind]. rewrite E. cbn [mbind option_bind]. eexists _, _, _. split; [done|]. split; [by eapply ls_fill|].
      eapply sim_change; [exact H|exact Hh|done|by rewrite Ed'|done|done].
    + destruct Hp as (n & bs & Hh & Hl). destruct (busy_place _ _ _ _ _ _ H Hh) as (rs1 & rs2 & Ed & Ei & Hps).
      cbn [fst snd s_mem s_samples] in *. destruct (Ei (mkRec bs (if discard then Discarded else Submitted))) as [Ed' Et'].
      pose proof (sm_ring _ _ _ _ H) as Hr. cbn [fst snd s_mem] in Hr. rewrite Ed in Hr.
      destruct (commit_record mask m rs1 bs rs2 discard Hr) as (d' & E & Hr'). cbn [ring_step].
      rewrite Hps. cbn [mbind option_bind]. unfold user_ring_buffer__discard, user_ring_buffer__submit.
      assert ((if discard then user_ringbuf_commit mask m (sample_offset mask m rs1) true
               else user_ringbuf_commit mask m (sample_offset mask m rs1) false) = Some (set_data m d')) as -> by (by destruct discard).
      cbn [mbind option_bind]. eexists _, _, _. split; [done|]. split; [by eapply ls_commit|].
      eapply sim_change; [exact H|exact Hh|done|by rewrite Ed'|done|done].
    + by apply ring_step_consume.
Qed.

(** A ring of 64 bytes: two records, the second one across the end of the
    pages; they are committed in the other order. *)
Lemma user_ring_hands_over_witness :
  ∃ r s' q', ring_step 63 (mkS ring64 []) (Reserve 10) = Some (r, s') ∧ log_step 64 ([], 0%nat) (Reserve 10) r q' ∧ sim 63 48 s' q'.
Proof.
  destruct (user_ring_hands_over 6 63 ltac:(lia) eq_refl) as [H1 H2].
  apply (H2 48); [|split; [lia|reflexivity]]. apply (H1 (replicate 64 0)); [reflexivity|lia|reflexivity].
Defined.

Fixpoint ring_run (mask : Z) (ops : list ring_op) (s : sys) : option (list ring_res) :=
  match ops with [] => Some [] | o :: ops => '(r, s) ← ring_step mask s o; rs ← ring_run mask ops s; Some (r :: rs) end.

Example out_of_order_run :
  ring_run 63 [Reserve 10; Reserve 12; Fill 1 [1; 2; 3; 4; 5; 6; 7; 8; 9; 10; 11; 12]; Commit 1 false; Consume; Reserve 17;
               Fill 0 [10; 9; 8; 7; 6; 5; 4; 3; 2; 1]; Commit 0 false; Consume; Reserve 17; Commit 2 true; Consume] (mkS ring64 [])
  = Some [Done; Done; Done; Done; Consumed 0 []; Refused ENOSPC; Done; Done;
          Consumed 2 [[10; 9; 8; 7; 6; 5; 4; 3; 2; 1]; [1; 2; 3; 4; 5; 6; 7; 8; 9; 10; 11; 12]]; Done; Done; Consumed 0 []].
Proof. vm_compute. reflexivity. Qed.

(** ** All the rings of a manager *)

Section manager.
Context {T : Type}.
Variable sample_cb : Z * Z → T → list Z → T * Z.
Variable rs : list ring.

(** Every ring of the manager is a ring; two rings may be of the same map. *)
Definition all_live (ws : gmap Z world) : Prop :=
  ∀ r, r ∈ rs → ∃ w recs, ws !! r_map_fd r = Some w ∧ live (r_mask r) w recs.
Definition one_mask : Prop := ∀ r r', r ∈ rs → r' ∈ rs → r_map_fd r = r_map_fd r' → r_mask r = r_mask r'.

Lemma process_ok r res ws t l : one_mask → r ∈ rs → all_live ws →
  ∃ c, process sample_cb r (res, ws, t, l) = Some c ∧ match c with
    | Next (res', ws', _, _) => all_live ws' ∧ res <= res'
    | Break (_, ws', _, l') => all_live ws' ∧ ∃ err, l' = Return err ∧ err < 0
    end.
Proof.
  intros Hmask Hr Hws. destruct (Hws r Hr) as (w & recs & Hw & Hlive). unfold process. rewrite Hw. cbn [mbind option_bind].
  destruct (process_ring_ok (sample_cb (r_cb r)) (r_mask r) w recs t Hlive) as (ret & w' & t' & -> & Hp). cbn [mbind option_bind].
  assert (∃ recs', live (r_mask r) w' recs') as [recs' Hlive'] by (inversion Hp; subst; by eexists).
  assert (all_live (<[r_map_fd r := w']> ws)) as Hws'.
  { intros r' Hr'. destruct (decide (r_map_fd r' = r_map_fd r)) as [E|Hne].
    - rewrite E, lookup_insert_eq. exists w', recs'. split; [done|]. by rewrite (Hmask r' r).
    - rewrite lookup_insert_ne by done. by apply Hws. }
  destruct (Z.ltb_spec ret 0); (eexists; split; [done|]); (split; [done|]); [by eexists|lia].
Qed.

(** [ring_buffer__consume] and [ring_buffer__poll] stay in the rings and leave
    them as rings; the result is an error of a callback or a number that is not
    negative. *)
Lemma loop_ok n (pick : Z → option ring) ws t :
  one_mask → all_live ws → (∀ i, 0 <= i < n → ∃ r, pick i = Some r ∧ r ∈ rs) → 0 <= n →
  ∃ s, for_loop 0 n (λ i s, r ← pick i; process sample_cb r s) (0, ws, t, Falls) = Some s
    ∧ all_live (total s).1.2 ∧ (total s).1.1 <= INT_MAX
    ∧ ((total s).1.1 < 0 → ∃ res ws' t', s = (res, ws', t', Return (total s).1.1)).
Proof.
  intros Hmask Hws Hpick Hn.
  destruct (for_loop_inv_break (λ _ (s : Z * gmap Z world * T * leave), let '(res, ws, _, l) := s in all_live ws ∧ 0 <= res ∧ l = Falls)
    (λ s, let '(_, ws, _, l) := s in all_live ws ∧ ∃ err, l = Return err ∧ err < 0)
    (λ i s, r ← pick i; process sample_cb r s) 0 n (0, ws, t, Falls)) as ([[[res ws'] t'] l] & -> & H).
  - done.
  - intros i [[[res ws1] t1] l1] Hi (H1 & H2 & ->). destruct (Hpick i Hi) as (r & -> & Hr). cbn [mbind option_bind].
    unfold process at 1. destruct (process_ok r res ws1 t1 Falls Hmask Hr H1) as (c & E & Hc). unfold process in E. rewrite E.
    exists c. split; [done|]. destruct c as [[[[res' ws2] t2] l2]|[[[res' ws2] t2] l2]]; [|done].
    destruct Hc as [Hc Hle]. split; [done|]. split; [lia|].
    revert E. destruct (ws1 !! r_map_fd r); [|done]. cbn [mbind option_bind]. destruct (ringbuf_process_ring _ _ _ _) as [[[ret w2] t3]|]; [|done].
    cbn [mbind option_bind]. destruct (ret <? 0); [done|]. by intros [= _ _ _ <-].
  - done.
  - eexists. split; [done|]. destruct H as [(H1 & H2 & ->)|(H1 & err & -> & Herr)]; cbn [total fst snd].
    + split; [done|]. destruct (Z.ltb_spec INT_MAX res); unfold INT_MAX in *; split; lia.
    + split; [done|]. split; [unfold INT_MAX; lia|]. intros _. by eexists _, _, _.
Qed.
End manager.

Lemma consume_ok {T} (sample_cb : Z * Z → T → list Z → T * Z) rb ws t :
  0 <= ring_cnt rb <= zlen (default [] (rings rb)) → one_mask (default [] (rings rb)) → all_live (default [] (rings rb)) ws →
  ∃ res ws' t', ring_buffer__consume sample_cb rb ws t = Some (res, ws', t') ∧ all_live (default [] (rings rb)) ws' ∧ res <= INT_MAX.
Proof.
  intros Hn Hm Hws. unfold ring_buffer__consume.
  destruct (loop_ok sample_cb _ (ring_cnt rb) (aget (default [] (rings rb))) ws t Hm Hws) as (s & -> & H1 & H2 & _); [|lia|].
  - intros i Hi. destruct (aget_is_Some (default [] (rings rb)) i ltac:(lia)) as [r E]. exists r. split; [done|].
    rewrite aget_to_nat in E by lia. by eapply list_elem_of_lookup_2.
  - cbn [mbind option_bind]. destruct (total s) as [[res ws'] t']. by eexists _, _, _.
Qed.

(** The events name rings of the manager. *)
Lemma poll_ok {T} (sample_cb : Z * Z → T → list Z → T * Z) rb evs ws t :
  Forall (λ i, 0 <= i < zlen (default [] (rings rb))) evs → one_mask (default [] (rings rb)) → all_live (default [] (rings rb)) ws →
  ∃ res ws' t', ring_buffer__poll sample_cb rb (inr evs) ws t = Some (res, ws', t') ∧ all_live (default [] (rings rb)) ws' ∧ res <= INT_MAX.
Proof.
  intros Hn Hm Hws. unfold ring_buffer__poll.
  destruct (loop_ok sample_cb _ (zlen evs) (λ i, j ← aget evs i; aget (default [] (rings rb)) j) ws t Hm Hws)
    as (s & E & H1 & H2 & _); [|lia|].
  - intros i Hi. destruct (aget_is_Some evs i ltac:(lia)) as [j Ej]. rewrite Ej. cbn [mbind option_bind].
    rewrite aget_to_nat in Ej by lia. rewrite List.Forall_forall in Hn. pose proof (Hn j (proj1 (list_elem_of_In _ _) (list_elem_of_lookup_2 _ _ _ Ej))) as Hj.
    destruct (aget_is_Some (default [] (rings rb)) j ltac:(lia)) as [r Er]. exists r. split; [done|].
    rewrite aget_to_nat in Er by lia. by eapply list_elem_of_lookup_2.
  - rewrite E. cbn [mbind option_bind]. destruct (total s) as [[res ws'] t']. by eexists _, _, _.
Qed.
