(* ===== verification/RingbufManager.v ===== *)
(** * The managers of ring buffers give back what they acquire

    [ring_buffer__new], [ring_buffer__add], [ring_buffer__free] and their
    counterparts for the producer: on every error path, and after any sequence
    of additions, exactly what the process had before is left. *)

From stdpp Require Import gmap.
From S2P Require Import Prelude Hashmap Ringbuf.

(** ** Mappings *)

(** The mappings of a ring: its page of the consumer, and the rest. *)
Definition ring_maps (page : Z) (r : ring) : list (Z * Z) :=
  [(r_consumer_pos r, page); (r_producer_pos r, u64 (page + 2 * (r_mask r + 1)))].

Definition all_maps (page : Z) (rs : list ring) : list (Z * Z) := concat (map (ring_maps page) rs).

(** The process has [base] and the mappings [l] besides. *)
Record maps_hold (l : list (Z * Z)) (base m : gmap Z Z) : Prop := {
  mh_nodup : NoDup l.*1;
  mh_fresh : ∀ a, a ∈ l.*1 → base !! a = None ∧ a ≠ 0;
  mh_eq : m = list_to_map l ∪ base;
}.

Lemma maps_nil m base : maps_hold [] base m → m = base.
Proof. intros [_ _ ->]. by rewrite left_id_L by apply _. Qed.

Lemma maps_none base : maps_hold [] base base.
Proof. split; [constructor|by intros a ?%elem_of_nil|by rewrite left_id_L by apply _]. Qed.

Lemma maps_unmap a n l base o : maps_hold ((a, n) :: l) base (mapped o) →
  ∃ o', do_munmap o a n = Some o' ∧ maps_hold l base (mapped o') ∧ fds o' = fds o ∧ blocks o' = blocks o.
Proof.
  intros [Hn Hf He]. cbn in Hn, He. apply list.NoDup_cons in Hn as [Ha Hn].
  assert (mapped o = <[a := n]> (list_to_map l ∪ base)) as E by (rewrite He; by rewrite insert_union_l).
  unfold do_munmap. rewrite E, lookup_insert_eq. cbn [mbind option_bind]. rewrite Z.eqb_refl. eexists. split; [done|].
  split_and!; [|done|done]. cbn. split; [done| |].
  - intros b Hb. apply Hf. cbn. by apply list_elem_of_further.
  - rewrite delete_insert_id; [done|]. apply lookup_union_None. split; [|apply Hf; cbn; apply list_elem_of_here].
    by apply not_elem_of_list_to_map_1.
Qed.

Lemma maps_perm l l' base m : l ≡ₚ l' → maps_hold l base m → maps_hold l' base m.
Proof.
  intros Hp [Hn Hf ->]. split; [by rewrite <- Hp|intros a; rewrite <- Hp; apply Hf|].
  f_equal. by apply list_to_map_proper.
Qed.

Lemma maps_mmap a n l base o :
  maps_hold l base (mapped o) → mapped o !! a = None → a ≠ 0 → maps_hold ((a, n) :: l) base (mapped (do_mmap o a n)).
Proof.
  intros [Hn Hf He] Ha H0. rewrite He, lookup_union_None in Ha. destruct Ha as [Ha Hb].
  split; cbn.
  - apply list.NoDup_cons. split; [|done]. by apply not_elem_of_list_to_map_2.
  - intros b [->|Hin]%elem_of_cons; [done|by apply Hf].
  - by rewrite He, insert_union_l.
Qed.

(** Unmapping a ring with both its mappings, or with the first one only. *)
Lemma unmap_ring_ok page r l base o :
  maps_hold (ring_maps page r ++ l) base (mapped o) →
  ∃ r' o', ringbuf_unmap_ring page r o = Some (r', o') ∧ maps_hold l base (mapped o') ∧ fds o' = fds o ∧ blocks o' = blocks o.
Proof.
  intros H. cbn [ring_maps app] in H. destruct (mh_fresh _ _ _ H (r_consumer_pos r) ltac:(cbn; set_solver)) as [_ Hc].
  destruct (mh_fresh _ _ _ H (r_producer_pos r) ltac:(cbn; set_solver)) as [_ Hp].
  destruct (maps_unmap _ _ _ _ _ H) as (o1 & E1 & H1 & Hf1 & Hb1). destruct (maps_unmap _ _ _ _ _ H1) as (o2 & E2 & H2 & Hf2 & Hb2).
  unfold ringbuf_unmap_ring. rewrite (proj2 (Z.eqb_neq _ _) Hc), E1. cbn [mbind option_bind r_producer_pos r_mask].
  rewrite (proj2 (Z.eqb_neq _ _) Hp), E2. cbn [mbind option_bind]. eexists _, o2. split_and!; [done|done|congruence|congruence].
Qed.

Lemma unmap_half_ok page r l base o :
  maps_hold ((r_consumer_pos r, page) :: l) base (mapped o) → r_producer_pos r = 0 →
  ∃ r' o', ringbuf_unmap_ring page r o = Some (r', o') ∧ maps_hold l base (mapped o') ∧ fds o' = fds o ∧ blocks o' = blocks o.
Proof.
  intros H Hp. destruct (mh_fresh _ _ _ H (r_consumer_pos r) ltac:(cbn; set_solver)) as [_ Hc].
  destruct (maps_unmap _ _ _ _ _ H) as (o1 & E1 & H1 & Hf1 & Hb1).
  unfold ringbuf_unmap_ring. rewrite (proj2 (Z.eqb_neq _ _) Hc), E1. cbn [mbind option_bind r_producer_pos].
  rewrite (proj2 (Z.eqb_eq _ _) Hp). by eexists _, o1.
Qed.

(** ** The invariant of a manager *)

(** The rings that count. *)
Definition kept (rb : ring_buffer) : list ring := take (Z.to_nat (ring_cnt rb)) (default [] (rings rb)).

Definition block_of {A} (l : option A) : Z := match l with None => 0 | Some _ => 1 end.

(** What the process had before is [o0]. *)
Record rb_holds (o0 o : os) (rb : ring_buffer) : Prop := {
  rb_page : 0 < page_size rb < 2 ^ 31;
  rb_cnt : 0 <= ring_cnt rb <= zlen (default [] (rings rb));
  rb_maps : maps_hold (all_maps (page_size rb) (kept rb)) (mapped o0) (mapped o);
  rb_fds : (epoll_fd rb = - 1 ∧ fds o = fds o0) ∨ (0 <= epoll_fd rb ∧ (epoll_fd rb ∉ fds o0) ∧ fds o = {[epoll_fd rb]} ∪ fds o0);
  rb_blocks : blocks o = blocks o0 + 1 + block_of (rings rb) + block_of (events rb);
}.

Lemma free_loop_ok o0 o rb : rb_holds o0 o rb →
  ∃ rs o', for_loop 0 (ring_cnt rb) (free_body (page_size rb)) (default [] (rings rb), o) = Some (rs, o')
    ∧ mapped o' = mapped o0 ∧ fds o' = fds o ∧ blocks o' = blocks o.
Proof.
  intros [_ Hcnt Hm _ _]. set (arr := default [] (rings rb)) in *. set (n := Z.to_nat (ring_cnt rb)) in *.
  destruct (for_loop_inv (λ i (s : list ring * os), length s.1 = length arr ∧ (∀ j, (Z.to_nat i <= j)%nat → s.1 !! j = arr !! j)
      ∧ maps_hold (all_maps (page_size rb) (drop (Z.to_nat i) (kept rb))) (mapped o0) (mapped s.2) ∧ fds s.2 = fds o ∧ blocks s.2 = blocks o)
    (free_body (page_size rb)) 0 (ring_cnt rb) (arr, o)) as ([rs o'] & -> & _ & _ & Hm' & Hf & Hb).
  - lia.
  - intros i [rs o1] Hi (Hl & Ha & Hm1 & Hf1 & Hb1). cbn [fst snd] in *. set (k := Z.to_nat i) in *.
    destruct (lookup_lt_is_Some_2 arr k) as [r Hr]; [lia|].
    assert (kept rb !! k = Some r) as Hk by (unfold kept; fold n arr; rewrite lookup_take_lt by lia; done).
    rewrite (drop_S _ _ _ Hk) in Hm1. unfold all_maps in Hm1. cbn [map concat] in Hm1.
    destruct (unmap_ring_ok _ _ _ _ _ Hm1) as (r' & o2 & E & Hm2 & Hf2 & Hb2). unfold free_body.
    rewrite aget_to_nat by lia. fold k. rewrite Ha, Hr by lia. cbn [mbind option_bind]. rewrite E. cbn [mbind option_bind].
    rewrite aset_eq by lia. fold k. cbn [mbind option_bind]. eexists. split; [done|]. cbn [fst snd]. rewrite length_insert.
    replace (Z.to_nat (i + 1)) with (S k) by lia. split_and!; [done| |done|congruence|congruence].
    intros j Hj. rewrite list_lookup_insert_ne by lia. apply Ha. lia.
  - cbn [fst snd]. by split_and!.
  - cbn [fst snd] in *. eexists rs, o'. split_and!; [done| |done|done]. apply maps_nil.
    rewrite drop_ge in Hm'; [done|]. unfold kept. rewrite length_take. lia.
Qed.

Lemma fd_closed (fd : Z) (X : gset Z) : (fd ∉ X) → ({[fd]} ∪ X) ∖ {[fd]} = X.
Proof.
  intros H. apply set_eq. intros x. rewrite elem_of_difference, elem_of_union, elem_of_singleton.
  destruct (decide (x = fd)) as [->|]; tauto.
Qed.

Lemma rb_free_ok o0 o rb : rb_holds o0 o rb → ring_buffer__free (Some rb) o = Some o0.
Proof.
  intros H. destruct (free_loop_ok o0 o rb H) as (rs & o' & E & Hm & Hf & Hb). unfold ring_buffer__free. rewrite E. cbn [mbind option_bind].
  destruct H as [_ _ _ Hfd Hbl]. f_equal.
  set (o2 := if 0 <=? epoll_fd rb then _ else _).
  assert (mapped o2 = mapped o0 ∧ fds o2 = fds o0 ∧ blocks o2 = blocks o) as (Hm2 & Hf2 & Hb2).
  { unfold o2. destruct Hfd as [[-> Hfd]|(H0 & Hn & Hfd)].
    - change (0 <=? - 1) with false. split_and!; [done|congruence|done].
    - rewrite (proj2 (Z.leb_le _ _) H0). unfold do_close. cbn [mapped fds blocks]. rewrite Hf, Hfd, fd_closed by done. done. }
  clearbody o2. destruct o0 as [m0 f0 b0], o2 as [m2 f2 b2]. cbn [mapped fds blocks] in *. subst.
  destruct (events rb), (rings rb); unfold free_block, do_alloc; cbn [mapped fds blocks block_of] in *; f_equal; lia.
Qed.

(** ** What the system may answer *)

Record env_ok (o : os) (e : add_env) : Prop := {
  eo_info : match a_info e with inl errno => 0 < errno | inr (_, n) => 1 <= n < 2 ^ 32 end;
  eo_consumer : match a_consumer e with inl errno => 0 < errno | inr a => mapped o !! a = None ∧ a ≠ 0 end;
  eo_producer : match a_producer e with
                | inl errno => 0 < errno
                | inr a => mapped o !! a = None ∧ a ≠ 0 ∧ a_consumer e ≠ inr a
                end;
  eo_epoll : match a_epoll e with inl errno => 0 < errno | inr _ => True end;
}.

Lemma put_take {A} (l : list A) n x : 0 <= n <= zlen l → take (Z.to_nat n) (put l n x) = take (Z.to_nat n) l
  ∧ take (Z.to_nat (n + 1)) (put l n x) = take (Z.to_nat n) l ++ [x] ∧ zlen (put l n x) = n + 1.
Proof.
  intros H. unfold put. assert (length (take (Z.to_nat n) l) = Z.to_nat n) as Hl by (rewrite length_take; lia).
  split_and!; [|apply take_ge; rewrite length_app, Hl; cbn; lia|rewrite length_app, Hl; cbn; lia].
  by rewrite <- Hl at 1; rewrite take_app_length.
Qed.

Lemma regrow_ok {A} o (l : option (list A)) :
  ∃ l', regrow o l = (Some l', do_alloc o (1 - block_of l)) ∧ l' = default [] l.
Proof. destruct l; cbn; [|by eexists]. eexists. split; [|done]. destruct o. cbn. unfold do_alloc. cbn. by rewrite Z.add_0_r. Qed.

Lemma all_maps_snoc page rs r : all_maps page (rs ++ [r]) ≡ₚ ring_maps page r ++ all_maps page rs.
Proof. unfold all_maps. rewrite map_app, concat_app. cbn [map concat]. rewrite app_nil_r. apply Permutation_app_comm. Qed.

(** Both mappings of a ring of [n] bytes. *)
Lemma maps_both page n ca pa l base o :
  maps_hold l base (mapped o) → mapped o !! ca = None → ca ≠ 0 → mapped o !! pa = None → pa ≠ 0 → ca ≠ pa → 1 <= n < 2 ^ 32 →
  maps_hold ((ca, page) :: (pa, u64 (page + 2 * (u32 (n - 1) + 1))) :: l) base
    (mapped (do_mmap (do_mmap o ca page) pa (u64 (page + 2 * n)))).
Proof.
  intros H Hc Hc0 Hp Hp0 Hne Hn. rewrite (u32_small (n - 1)) by (unfold word_ok; lia). replace (n - 1 + 1) with n by lia.
  eapply maps_perm; [apply perm_swap|]. apply maps_mmap; [by apply maps_mmap| |done]. cbn. by rewrite lookup_insert_ne.
Qed.

(** The size of a mapping is never too big for 64 bits. *)
Lemma size_fits x : negb (u64 x =? u64 (u64 x)) = false.
Proof. unfold u64. by rewrite Zmod_mod, Z.eqb_refl. Qed.

(** ** Adding a ring *)

(** The arrays after the two allocations, with an entry behind the rings. *)
Lemma holds_grown o0 o rb rs es r :
  rb_holds o0 o rb → take (Z.to_nat (ring_cnt rb)) rs = kept rb → ring_cnt rb <= zlen rs →
  ∀ o', mapped o' = mapped o → fds o' = fds o → blocks o' = blocks o0 + 3 →
  rb_holds o0 o' (mkRB (Some es) (Some (put rs (ring_cnt rb) r)) (page_size rb) (epoll_fd rb) (ring_cnt rb)).
Proof.
  intros [Hpg Hc Hm Hf Hb] Hk Hl o' Em Ef Eb. destruct (put_take rs (ring_cnt rb) r ltac:(lia)) as (Et & _ & Hz).
  split; unfold kept; cbn [page_size ring_cnt rings events epoll_fd from_option id block_of]; rewrite ?Et, ?Em, ?Ef, ?Eb; [done|lia| |done|lia].
  rewrite Hk. done.
Qed.

Lemma add_ok o0 o rb map_fd cb e :
  rb_holds o0 o rb → env_ok o e →
  ∃ ret rb' o', ring_buffer__add rb map_fd cb e o = Some (ret, rb', o') ∧ rb_holds o0 o' rb' ∧ page_size rb' = page_size rb
    ∧ (ret = 0 ∧ ring_cnt rb' = ring_cnt rb + 1 ∨ ret < 0 ∧ ring_cnt rb' = ring_cnt rb ∧ mapped o' = mapped o).
Proof.
  intros H [Hi Hc Hp He]. unfold ring_buffer__add.
  destruct (a_info e) as [errno|[type n]]; [eexists _, _, _; split_and!; [done|done|done|right; by split_and!; [lia|..]]|].
  destruct (negb (type =? BPF_MAP_TYPE_RINGBUF)); [eexists _, _, _; split_and!; [done|done|done|by right]|].
  destruct (negb (a_rings e)); [eexists _, _, _; split_and!; [done|done|done|by right]|].
  destruct (regrow_ok o (rings rb)) as (rs & -> & Ers).
  destruct (negb (a_events e)).
  { eexists _, _, _. split_and!; [done| |done|by right]. destruct H as [Hpg Hcnt Hm Hf Hb].
    split; unfold kept in *; cbn [page_size ring_cnt rings events epoll_fd from_option id block_of] in *; rewrite ?Ers; [done|done|done|done|cbn; lia]. }
  destruct (regrow_ok (do_alloc o (1 - block_of (rings rb))) (events rb)) as (es & E & Ees). cbn [rings events page_size epoll_fd ring_cnt]. rewrite E. clear E.
  set (o1 := do_alloc (do_alloc o (1 - block_of (rings rb))) (1 - block_of (events rb))).
  assert (blocks o1 = blocks o0 + 3) as Hb1 by (destruct H as [_ _ _ _ Hb]; unfold o1; cbn; lia).
  assert (mapped o1 = mapped o ∧ fds o1 = fds o) as [Hm1 Hf1] by done. clearbody o1.
  assert (take (Z.to_nat (ring_cnt rb)) rs = kept rb) as Hk by (by rewrite Ers).
  assert (0 <= ring_cnt rb <= zlen rs) as Hlen by (rewrite Ers; apply H).
  cbn [from_option id].
  destruct (a_consumer e) as [errno|ca].
  { eexists _, _, _. split_and!; [done| |done|right; cbn; by split_and!; [lia|..]]. eapply holds_grown; try done. lia. }
  cbn [r_mask r_consumer_pos]. set (page := page_size rb) in *. destruct Hc as [Hc Hc0].
  rewrite size_fits.
  pose proof (rb_maps _ _ _ H) as Hmaps. fold page in Hmaps. rewrite <- Hm1 in Hmaps, Hc.
  pose proof (maps_mmap ca page _ _ o1 Hmaps Hc Hc0) as Hmaps1.
  destruct (a_producer e) as [errno|pa].
  { destruct (unmap_half_ok page (mkR cb 0 ca 0 (u32 (n - 1)) map_fd) _ _ _ Hmaps1 eq_refl) as (r' & o2 & -> & Hm2 & Hf2 & Hb2).
    cbn [mbind option_bind]. assert (mapped o2 = mapped o) as Em.
    { destruct Hm2 as [_ _ ->]. rewrite <- Hm1. symmetry. apply Hmaps. }
    eexists _, _, _. split_and!; [done| |done|right; cbn; by split_and!; [lia|..]]. eapply holds_grown; try done; [lia|by rewrite Hf2|by rewrite Hb2]. }
  destruct Hp as (Hp & Hp0 & Hpc). set (r := mkR cb (pa + page) ca pa (u32 (n - 1)) map_fd). rewrite <- Hm1 in Hp.
  assert (maps_hold (ring_maps page r ++ all_maps page (kept rb)) (mapped o0)
    (mapped (do_mmap (do_mmap o1 ca page) pa (u64 (page + 2 * n))))) as Hmaps3 by (apply maps_both; congruence).
  destruct (a_epoll e) as [errno|[]].
  - destruct (unmap_ring_ok _ _ _ _ _ Hmaps3) as (r' & o3 & -> & Hm3 & Hf3 & Hb3). cbn [mbind option_bind].
    assert (mapped o3 = mapped o) as Em.
    { destruct Hm3 as [_ _ ->]. rewrite <- Hm1. symmetry. apply Hmaps. }
    eexists _, _, _. split_and!; [done| |done|right; cbn; by split_and!; [lia|..]].
    eapply holds_grown; try done; [lia|by rewrite Hf3|by rewrite Hb3].
  - eexists _, _, _. split_and!; [done| |done|by left]. destruct (put_take rs (ring_cnt rb) r Hlen) as (_ & Et & Hz).
    destruct H as [Hpg _ _ Hf _].
    split; unfold kept; cbn [page_size ring_cnt rings events epoll_fd from_option id block_of]; rewrite ?Et; [done|lia| |by cbn; rewrite Hf1|cbn; lia].
    rewrite Hk. eapply maps_perm; [symmetry; apply all_maps_snoc|done].
Qed.

(** Additions to a manager, whatever they return. *)
Inductive added : ring_buffer → os → ring_buffer → os → Prop :=
| added_none rb o : added rb o rb o
| added_one rb o map_fd cb e ret rb1 o1 rb2 o2 :
    env_ok o e → ring_buffer__add rb map_fd cb e o = Some (ret, rb1, o1) → added rb1 o1 rb2 o2 → added rb o rb2 o2.

Lemma added_holds o0 rb o rb' o' : added rb o rb' o' → rb_holds o0 o rb → rb_holds o0 o' rb'.
Proof.
  induction 1 as [|rb o map_fd cb e ret rb1 o1 rb2 o2 He E _ IH]; intros H; [done|]. apply IH.
  destruct (add_ok o0 o rb map_fd cb e H He) as (ret' & rb' & o' & E' & H' & _). rewrite E in E'. by injection E' as <- <- <-.
Qed.

(** ** The producer's manager *)

Definition user_maps (rb : user_ring_buffer) : list (Z * Z) :=
  (if u_consumer_pos rb =? 0 then [] else [(u_consumer_pos rb, u_page_size rb)])
  ++ (if u_producer_pos rb =? 0 then [] else [(u_producer_pos rb, u64 (u_page_size rb + 2 * (u_mask rb + 1)))]).

Record urb_holds (o0 o : os) (rb : user_ring_buffer) : Prop := {
  ub_maps : maps_hold (user_maps rb) (mapped o0) (mapped o);
  ub_fds : (u_epoll_fd rb = - 1 ∧ fds o = fds o0) ∨ (0 <= u_epoll_fd rb ∧ (u_epoll_fd rb ∉ fds o0) ∧ fds o = {[u_epoll_fd rb]} ∪ fds o0);
  ub_blocks : blocks o = blocks o0 + 1;
}.

Lemma urb_free_ok o0 o rb : urb_holds o0 o rb → user_ring_buffer__free (Some rb) o = Some o0.
Proof.
  intros [Hm Hfd Hb]. unfold user_ring_buffer__free, user_ringbuf_unmap_ring. unfold user_maps in Hm.
  assert (∃ rb' o', (if u_consumer_pos rb =? 0 then Some (rb, o) else
              o ← do_munmap o (u_consumer_pos rb) (u_page_size rb);
              Some (mkURB 0 (u_producer_pos rb) (u_data rb) (u_mask rb) (u_page_size rb) (u_map_fd rb) (u_epoll_fd rb), o)) = Some (rb', o')
    ∧ maps_hold (if u_producer_pos rb =? 0 then [] else [(u_producer_pos rb, u64 (u_page_size rb + 2 * (u_mask rb + 1)))]) (mapped o0) (mapped o')
    ∧ fds o' = fds o ∧ blocks o' = blocks o ∧ u_producer_pos rb' = u_producer_pos rb ∧ u_page_size rb' = u_page_size rb
    ∧ u_mask rb' = u_mask rb ∧ u_epoll_fd rb' = u_epoll_fd rb) as (rb' & o' & -> & Hm' & Hf' & Hb' & Ep & Eg & Ek & Ee).
  { destruct (u_consumer_pos rb =? 0); [by exists rb, o|]. destruct (maps_unmap _ _ _ _ _ Hm) as (o1 & -> & ? & ? & ?). by eexists _, o1. }
  cbn [mbind option_bind]. rewrite Ep, Eg, Ek, Ee.
  assert (∃ rb2 o2, (if u_producer_pos rb =? 0 then Some (rb', o') else
      o2 ← do_munmap o' (u_producer_pos rb) (u64 (u_page_size rb + 2 * (u_mask rb + 1)));
      Some (mkURB (u_consumer_pos rb') 0 (u_data rb') (u_mask rb) (u_page_size rb) (u_map_fd rb') (u_epoll_fd rb), o2)) = Some (rb2, o2)
    ∧ maps_hold [] (mapped o0) (mapped o2) ∧ fds o2 = fds o ∧ blocks o2 = blocks o ∧ u_epoll_fd rb2 = u_epoll_fd rb) as (rb2 & o2 & -> & Hm2 & Hf2 & Hb2 & Ee2).
  { destruct (u_producer_pos rb =? 0); [by exists rb', o'|]. destruct (maps_unmap _ _ _ _ _ Hm') as (o1 & -> & ? & ? & ?).
    eexists _, o1. split_and!; [done|done|congruence|congruence|done]. }
  cbn [mbind option_bind]. rewrite Ee2. f_equal. apply maps_nil in Hm2. destruct o0 as [m0 f0 b0], o2 as [m2 f2 b2]. cbn [mapped fds blocks] in *.
  destruct Hfd as [[-> Hfd]|(H0 & Hn & Hfd)].
  - change (0 <=? - 1) with false. unfold do_alloc. cbn [mapped fds blocks]. f_equal; [done|congruence|lia].
  - rewrite (proj2 (Z.leb_le _ _) H0). unfold do_alloc, do_close. cbn [mapped fds blocks].
    f_equal; [done|rewrite Hf2, Hfd; by apply fd_closed|lia].
Qed.

Lemma user_map_ok o0 o rb map_fd e :
  urb_holds o0 o rb → u_consumer_pos rb = 0 → u_producer_pos rb = 0 → env_ok o e →
  ∃ ret rb' o', user_ringbuf_map rb map_fd e o = (ret, rb', o') ∧ urb_holds o0 o' rb' ∧ ret <= 0.
Proof.
  intros H Ec Ep [Hi Hc Hp He]. unfold user_ringbuf_map.
  destruct (a_info e) as [errno|[type n]]; [eexists _, _, _; split_and!; [done|done|lia]|].
  destruct (negb (type =? BPF_MAP_TYPE_USER_RINGBUF)); [eexists _, _, _; split_and!; [done|done|done]|].
  destruct H as [Hm Hf Hb]. unfold user_maps in Hm. rewrite Ec, Ep in Hm. cbn [Z.eqb app] in Hm.
  cbn [u_consumer_pos u_producer_pos u_data u_mask u_page_size u_map_fd u_epoll_fd].
  destruct (a_consumer e) as [errno|ca].
  { eexists _, _, _. split_and!; [done| |lia]. split; [unfold user_maps; cbn; by rewrite Ec, Ep|done|done]. }
  destruct Hc as [Hc Hc0]. set (page := u_page_size rb) in *.
  rewrite size_fits.
  pose proof (maps_mmap ca page _ _ o Hm Hc Hc0) as Hm1.
  destruct (a_producer e) as [errno|pa].
  { eexists _, _, _. split_and!; [done| |lia]. split; [|done|done]. unfold user_maps. cbn. rewrite Ep, (proj2 (Z.eqb_neq _ _) Hc0). done. }
  destruct Hp as (Hp & Hp0 & Hpc).
  assert (urb_holds o0 (do_mmap (do_mmap o ca page) pa (u64 (page + 2 * n)))
    (mkURB ca pa (pa + page) (u32 (n - 1)) page map_fd (u_epoll_fd rb))) as Hall.
  { split; [|done|done]. unfold user_maps. cbn [u_consumer_pos u_producer_pos u_page_size u_mask].
    rewrite (proj2 (Z.eqb_neq _ _) Hc0), (proj2 (Z.eqb_neq _ _) Hp0). apply maps_both; congruence. }
  destruct (a_epoll e) as [errno|[]]; (eexists _, _, _; split_and!; [done|exact Hall|lia]).
Qed.

(** ** The theorem *)

Definition epoll_ok (o : os) (epoll : Z + Z) : Prop :=
  match epoll with inl errno => 0 < errno | inr fd => 0 <= fd ∧ fd ∉ fds o end.

(** C23: the managers of ring buffers leak nothing.  If [ring_buffer__new] fails,
    in any of its ways, the process has the mappings, descriptors and memory it
    had before; if it succeeds, after any additions to the manager, failed ones
    among them, [ring_buffer__free] unmaps every mapping with the size it was
    made with and leaves the process as it was before
    [ring_buffer__new].  The same holds for the manager of a producer. *)
Theorem ring_buffers_release opts_valid calloc page epoll map_fd cb e o :
  0 < page < 2 ^ 31 → epoll_ok o epoll → env_ok o e →
  (∃ r o1, ring_buffer__new opts_valid calloc page epoll map_fd cb e o = Some (r, o1) ∧ match r with
     | inl errno => 0 < errno ∧ o1 = o
     | inr rb => ring_cnt rb = 1 ∧ ∀ rb2 o2, added rb o1 rb2 o2 → ring_buffer__free (Some rb2) o2 = Some o
     end)
  ∧ ∃ r o1, user_ring_buffer__new opts_valid calloc page epoll map_fd e o = Some (r, o1) ∧ match r with
     | inl errno => 0 < errno ∧ o1 = o
     | inr rb => user_ring_buffer__free (Some rb) o1 = Some o
     end.
Proof.
  intros Hpage Hep He. unfold ring_buffer__new, user_ring_buffer__new. destruct opts_valid; [|by split; eexists _, _].
  destruct calloc; [|by split; eexists _, _]. cbn [negb]. destruct epoll as [errno|fd]; cbn in Hep.
  { split.
    - rewrite (rb_free_ok o); [by eexists _, _|]. split; cbn; [done|lia|apply maps_none|by left|lia].
    - rewrite (urb_free_ok o); [by eexists _, _|]. split; cbn; [apply maps_none|by left|lia]. }
  assert (env_ok (do_open (do_alloc o 1) fd) e) as He1 by (by destruct He).
  split.
  - destruct (add_ok o (do_open (do_alloc o 1) fd) (mkRB None None page fd 0) map_fd cb e) as (ret & rb & o1 & -> & H & _ & Hret);
      [split; cbn; [done|lia|apply maps_none|right; by destruct Hep|lia]|done|].
    cbn [mbind option_bind]. destruct Hret as [[-> Hc]|(Hr & _)].
    + cbn [Z.eqb negb]. eexists _, _. split; [done|]. split; [done|]. intros rb2 o2 Ha. apply rb_free_ok. by eapply added_holds.
    + rewrite (proj2 (Z.eqb_neq _ _)) by lia. cbn [negb]. rewrite (rb_free_ok o) by done. cbn [mbind option_bind].
      eexists _, _. split; [done|]. split; [lia|done].
  - destruct (user_map_ok o (do_open (do_alloc o 1) fd) (mkURB 0 0 0 0 page 0 fd) map_fd e) as (ret & rb & o1 & -> & H & Hret);
      [split; cbn; [apply maps_none|right; by destruct Hep|lia]|done|done|done|].
    destruct (Z.eqb_spec ret 0); cbn [negb]; rewrite ?(urb_free_ok o) by done; cbn [mbind option_bind]; eexists _, _;
      (split; [done|]); [by apply urb_free_ok|split; [lia|done]].
Qed.

(** A process with a mapping and a descriptor of its own; the second mapping
    succeeds and [epoll_ctl] fails. *)
Definition some_os : os := mkOS {[4096 := 4096]} {[0]} 5.
Definition some_env : add_env := mkA (inr (27, 8192)) true true (inr 8192) (inr 16384) (inl 12).

Lemma ring_buffers_release_witness :
  (∃ r o1, ring_buffer__new true true 4096 (inr 3) 7 (1, 0) some_env some_os = Some (r, o1) ∧ match r with
     | inl errno => 0 < errno ∧ o1 = some_os
     | inr rb => ring_cnt rb = 1 ∧ ∀ rb2 o2, added rb o1 rb2 o2 → ring_buffer__free (Some rb2) o2 = Some some_os
     end)
  ∧ ∃ r o1, user_ring_buffer__new true true 4096 (inr 3) 7 some_env some_os = Some (r, o1) ∧ match r with
     | inl errno => 0 < errno ∧ o1 = some_os
     | inr rb => user_ring_buffer__free (Some rb) o1 = Some some_os
     end.
Proof.
  apply (ring_buffers_release true true 4096 (inr 3) 7 (1, 0) some_env some_os).
  - lia.
  - split; [lia|]. cbn. set_solver.
  - split; cbn; [lia|split; [reflexivity|lia]|split_and!; [reflexivity|lia|congruence]|lia].
Defined.
