(* ===== verification/XskRing.v ===== *)
(** * The rings of AF_XDP sockets ([lib/xdp-tools/headers/xdp/xsk.h])

    A ring is shared by a producer and a consumer, one of which is the kernel.
    Each end has its own structure with cached copies of the two free-running
    32-bit counters; the shared memory has the counters and the array.  A
    function makes at most one access to a counter that the other end writes,
    so its steps interleave as a whole.  The other end is taken to follow the
    same protocol: it is modelled by the functions for that end. *)

From stdpp Require Import list.
From S2P Require Import Prelude.

(** [DEFINE_XSK_RING], without the pointers into the shared memory. *)
Record xsk_ring_prod : Type := mkP { p_cached_prod : Z; p_cached_cons : Z; p_mask : Z; p_size : Z }.
Record xsk_ring_cons : Type := mkC { c_cached_prod : Z; c_cached_cons : Z; c_mask : Z; c_size : Z }.

(** What the pointers [producer], [consumer] and [ring] lead to. *)
Record shared (T : Type) : Type := mkSh { producer : Z; consumer : Z; ring : list T }.
Arguments mkSh {T}. Arguments producer {T}. Arguments consumer {T}. Arguments ring {T}.

(** ** Entries *)

(** The functions return an address in the array: its index. *)
Definition xsk_ring_prod__fill_addr (fill : xsk_ring_prod) (idx : Z) : Z := Z.land idx (p_mask fill).
Definition xsk_ring_cons__comp_addr (comp : xsk_ring_cons) (idx : Z) : Z := Z.land idx (c_mask comp).
Definition xsk_ring_prod__tx_desc (tx : xsk_ring_prod) (idx : Z) : Z := Z.land idx (p_mask tx).
Definition xsk_ring_cons__rx_desc (rx : xsk_ring_cons) (idx : Z) : Z := Z.land idx (c_mask rx).

Definition XDP_RING_NEED_WAKEUP : Z := 1.
Definition xsk_ring_prod__needs_wakeup (flags : Z) : Z := Z.land flags XDP_RING_NEED_WAKEUP.

(** ** Counters *)

Section counters.
Context {T : Type}.

Definition xsk_prod_nb_free (r : xsk_ring_prod) (sh : shared T) (nb : Z) : Z * xsk_ring_prod :=
  let free_entries := u32 (p_cached_cons r - p_cached_prod r) in
  if nb <=? free_entries then (free_entries, r) else
  let r := mkP (p_cached_prod r) (consumer sh) (p_mask r) (p_size r) in
  let r := mkP (p_cached_prod r) (u32 (p_cached_cons r + p_size r)) (p_mask r) (p_size r) in
  (u32 (p_cached_cons r - p_cached_prod r), r).

Definition xsk_cons_nb_avail (r : xsk_ring_cons) (sh : shared T) (nb : Z) : Z * xsk_ring_cons :=
  let entries := u32 (c_cached_prod r - c_cached_cons r) in
  let '(entries, r) :=
    if entries =? 0 then
      let r := mkC (producer sh) (c_cached_cons r) (c_mask r) (c_size r) in
      (u32 (c_cached_prod r - c_cached_cons r), r)
    else (entries, r) in
  (if nb <? entries then nb else entries, r).

(** The result is the returned number and [*idx], if written. *)
Definition xsk_ring_prod__reserve (prod : xsk_ring_prod) (sh : shared T) (nb : Z) : Z * option Z * xsk_ring_prod :=
  let '(free, prod) := xsk_prod_nb_free prod sh nb in
  if free <? nb then (0, None, prod) else
  let idx := p_cached_prod prod in
  (nb, Some idx, mkP (u32 (p_cached_prod prod + nb)) (p_cached_cons prod) (p_mask prod) (p_size prod)).

Definition xsk_ring_prod__submit (sh : shared T) (nb : Z) : shared T :=
  mkSh (u32 (producer sh + nb)) (consumer sh) (ring sh).

Definition xsk_ring_cons__peek (r : xsk_ring_cons) (sh : shared T) (nb : Z) : Z * option Z * xsk_ring_cons :=
  let '(entries, r) := xsk_cons_nb_avail r sh nb in
  if 0 <? entries then
    let idx := c_cached_cons r in
    (entries, Some idx, mkC (c_cached_prod r) (u32 (c_cached_cons r + entries)) (c_mask r) (c_size r))
  else (entries, None, r).

Definition xsk_ring_cons__cancel (r : xsk_ring_cons) (nb : Z) : xsk_ring_cons :=
  mkC (c_cached_prod r) (u32 (c_cached_cons r - nb)) (c_mask r) (c_size r).

Definition xsk_ring_cons__release (sh : shared T) (nb : Z) : shared T :=
  mkSh (producer sh) (u32 (consumer sh + nb)) (ring sh).

(** The set-up in [xsk_socket__create_shared] ([lib/libxdp/xsk.c]). *)
Definition tx_setup (tx_size : Z) (sh : shared T) : xsk_ring_prod :=
  mkP (producer sh) (u32 (consumer sh + tx_size)) (u32 (tx_size - 1)) tx_size.
Definition rx_setup (rx_size : Z) (sh : shared T) : xsk_ring_cons :=
  mkC (producer sh) (consumer sh) (u32 (rx_size - 1)) rx_size.
End counters.

(** ** Addresses in the user memory *)

Definition XSK_UNALIGNED_BUF_OFFSET_SHIFT : Z := 48.
Definition XSK_UNALIGNED_BUF_ADDR_MASK : Z := Z.shiftl 1 XSK_UNALIGNED_BUF_OFFSET_SHIFT - 1.

Definition xsk_umem__get_data (umem_area addr : Z) : Z := umem_area + addr.
Definition xsk_umem__extract_addr (addr : Z) : Z := Z.land addr XSK_UNALIGNED_BUF_ADDR_MASK.
Definition xsk_umem__extract_offset (addr : Z) : Z := Z.shiftr addr XSK_UNALIGNED_BUF_OFFSET_SHIFT.
Definition xsk_umem__add_offset_to_addr (addr : Z) : Z :=
  u64 (xsk_umem__extract_addr addr + xsk_umem__extract_offset addr).

(** ** The system of two ends *)

Record sys (T : Type) : Type := mkS { s_prod : xsk_ring_prod; s_cons : xsk_ring_cons; s_sh : shared T }.
Arguments mkS {T}. Arguments s_prod {T}. Arguments s_cons {T}. Arguments s_sh {T}.

(** The steps of the two ends; [Write] and [Read] go through [tx_desc] and
    [rx_desc] with an index derived from the one that was returned. *)
Inductive op (T : Type) : Type :=
| Reserve (nb : Z)
| Write (idx : Z) (v : T)
| Submit (nb : Z)
| Peek (nb : Z)
| Read (idx : Z)
| Cancel (nb : Z)
| Release (nb : Z).
Arguments Reserve {T}. Arguments Write {T}. Arguments Submit {T}. Arguments Peek {T}.
Arguments Read {T}. Arguments Cancel {T}. Arguments Release {T}.

Inductive result (T : Type) : Type :=
| RUnit
| RRange (n : Z) (idx : option Z)
| RValue (v : T).
Arguments RUnit {T}. Arguments RRange {T}. Arguments RValue {T}.

Definition step {T} (s : sys T) (o : op T) : option (result T * sys T) :=
  let 'mkS p c sh := s in
  match o with
  | Reserve nb => let '(n, idx, p) := xsk_ring_prod__reserve p sh nb in Some (RRange n idx, mkS p c sh)
  | Write idx v =>
      r ← aset (ring sh) (xsk_ring_prod__tx_desc p idx) v;
      Some (RUnit, mkS p c (mkSh (producer sh) (consumer sh) r))
  | Submit nb => Some (RUnit, mkS p c (xsk_ring_prod__submit sh nb))
  | Peek nb => let '(n, idx, c) := xsk_ring_cons__peek c sh nb in Some (RRange n idx, mkS p c sh)
  | Read idx => v ← aget (ring sh) (xsk_ring_cons__rx_desc c idx); Some (RValue v, s)
  | Cancel nb => Some (RUnit, mkS p (xsk_ring_cons__cancel c nb) sh)
  | Release nb => Some (RUnit, mkS p c (xsk_ring_cons__release sh nb))
  end.

(** ** The specification: a bounded queue *)

(** [base] is the index of the head of [queue]; the entries behind the queue
    are reserved by the producer and not yet submitted; the first [peeked]
    entries of the queue were handed to the consumer. *)
Record fifo (T : Type) : Type := mkQ { base : Z; queue : list T; reserved : list T; peeked : Z }.
Arguments mkQ {T}. Arguments base {T}. Arguments queue {T}. Arguments reserved {T}. Arguments peeked {T}.

Section spec.
Context {T : Type}.
Variable size : Z.

(** What the comments of the header ask of the two ends. *)
Definition permitted (q : fifo T) (o : op T) : Prop :=
  match o with
  | Reserve nb | Peek nb => word_ok nb
  | Write idx _ => ∃ j, 0 <= j < zlen (reserved q) ∧ idx = u32 (base q + zlen (queue q) + j)
  | Submit nb => 0 <= nb <= zlen (reserved q)
  | Read idx => ∃ j, 0 <= j < peeked q ∧ idx = u32 (base q + j)
  | Cancel nb | Release nb => 0 <= nb <= peeked q
  end.

Inductive fifo_step (q : fifo T) : op T → result T → fifo T → Prop :=
| fs_reserve nb new :
    zlen new = nb → zlen (queue q) + zlen (reserved q) + nb <= size →
    fifo_step q (Reserve nb) (RRange nb (Some (u32 (base q + zlen (queue q) + zlen (reserved q)))))
      (mkQ (base q) (queue q) (reserved q ++ new) (peeked q))
| fs_full nb :
    size < zlen (queue q) + zlen (reserved q) + nb → fifo_step q (Reserve nb) (RRange 0 None) q
| fs_write j v :
    0 <= j < zlen (reserved q) →
    fifo_step q (Write (u32 (base q + zlen (queue q) + j)) v) RUnit
      (mkQ (base q) (queue q) (<[Z.to_nat j := v]> (reserved q)) (peeked q))
| fs_submit nb :
    fifo_step q (Submit nb) RUnit
      (mkQ (base q) (queue q ++ take (Z.to_nat nb) (reserved q)) (drop (Z.to_nat nb) (reserved q)) (peeked q))
| fs_peek nb n :
    0 < n <= nb → peeked q + n <= zlen (queue q) →
    fifo_step q (Peek nb) (RRange n (Some (u32 (base q + peeked q)))) (mkQ (base q) (queue q) (reserved q) (peeked q + n))
| fs_empty nb :
    nb = 0 ∨ peeked q = zlen (queue q) → fifo_step q (Peek nb) (RRange 0 None) q
| fs_read j v :
    0 <= j < peeked q → queue q !! Z.to_nat j = Some v → fifo_step q (Read (u32 (base q + j))) (RValue v) q
| fs_cancel nb : fifo_step q (Cancel nb) RUnit (mkQ (base q) (queue q) (reserved q) (peeked q - nb))
| fs_release nb :
    fifo_step q (Release nb) RUnit
      (mkQ (u32 (base q + nb)) (drop (Z.to_nat nb) (queue q)) (reserved q) (peeked q - nb)).

(** ** The simulation *)

(** The counters without wrap-around: [P] entries were submitted; [K] and [Q]
    are the counters of the other end when they were last read. *)
Record sim (s : sys T) (q : fifo T) (P K Q : Z) : Prop := {
  sim_base : base q = u32 (P - zlen (queue q));
  sim_prod : producer (s_sh s) = u32 P;
  sim_cons : consumer (s_sh s) = base q;
  sim_cprod : p_cached_prod (s_prod s) = u32 (P + zlen (reserved q));
  sim_ccons : p_cached_cons (s_prod s) = u32 (K + size);
  sim_psize : p_size (s_prod s) = size ∧ p_mask (s_prod s) = size - 1 ∧ c_mask (s_cons s) = size - 1;
  sim_peek : c_cached_cons (s_cons s) = u32 (P - zlen (queue q) + peeked q);
  sim_seen : c_cached_prod (s_cons s) = u32 Q;
  sim_order : 0 <= peeked q ∧ P - zlen (queue q) + peeked q <= Q <= P
              ∧ K <= P - zlen (queue q) ∧ P + zlen (reserved q) <= K + size;
  sim_ring : zlen (ring (s_sh s)) = size;
  sim_content : ∀ j, 0 <= j < zlen (queue q ++ reserved q) →
    aget (ring (s_sh s)) ((P - zlen (queue q) + j) mod size) = aget (queue q ++ reserved q) j;
}.
End spec.
