(* ===== verification/XskRingCorrect.v ===== *)
(** * Correctness of the AF_XDP rings

    The two ends of a ring, whose steps interleave in any order, implement a
    bounded first-in first-out queue; the free-running 32-bit counters may wrap
    at any time. *)

From stdpp Require Import list.
From S2P Require Import Prelude XskRing.

(** ** Counters *)

Lemma u32_add_l a b : u32 (u32 a + b) = u32 (a + b).
Proof. unfold u32. by rewrite Zplus_mod_idemp_l. Qed.

Lemma u32_sub_l a b : u32 (u32 a - b) = u32 (a - b).
Proof. unfold u32. by rewrite Zminus_mod_idemp_l. Qed.

(** The difference of two counters that are close enough. *)
Lemma u32_diff a b : 0 <= a - b < 2 ^ 32 → u32 (u32 a - u32 b) = a - b.
Proof. intros H. unfold u32. rewrite <- Zminus_mod. by apply Z.mod_small. Qed.

Lemma mod_window size a i j :
  0 <= i < size → 0 <= j < size → (a + i) mod size = (a + j) mod size → i = j.
Proof.
  intros Hi Hj H. pose proof (Z.div_mod (a + i) size ltac:(lia)) as H1. pose proof (Z.div_mod (a + j) size ltac:(lia)) as H2.
  assert ((a + i) / size = (a + j) / size) by nia. nia.
Qed.

Section ring.
Context {T : Type}.
Variables size k : Z.
Hypothesis size_pow : size = 2 ^ k.
Hypothesis k_range : 0 <= k <= 31.

Lemma size_range : 1 <= size <= 2 ^ 31.
Proof.
  rewrite size_pow. split; [pose proof (Z.pow_pos_nonneg 2 k); lia|apply Z.pow_le_mono_r; lia].
Qed.

(** The slot of an index. *)
Lemma slot_mod i : Z.land (u32 i) (size - 1) = i mod size.
Proof.
  rewrite size_pow. replace (2 ^ k - 1) with (Z.ones k) by (rewrite Z.ones_equiv; lia). rewrite Z.land_ones by lia. unfold u32.
  replace (2 ^ 32) with (2 ^ k * 2 ^ (32 - k)) by (rewrite <- Z.pow_add_r by lia; f_equal; lia).
  rewrite Z.rem_mul_r by (try (apply Z.pow_nonzero; lia); apply Z.pow_pos_nonneg; lia).
  rewrite Z.mul_comm, Z_mod_plus_full, Z.mod_mod by (apply Z.pow_nonzero; lia). done.
Qed.

Lemma slot_range i : 0 <= i mod size < size.
Proof. apply Z.mod_pos_bound. pose proof size_range. lia. Qed.

(** ** The steps *)

Lemma sim_window s (q : fifo T) P K Q : sim size s q P K Q → zlen (queue q) + zlen (reserved q) <= size.
Proof. intros H. pose proof (sim_order _ _ _ _ _ _ H). lia. Qed.

Lemma free_exact s (q : fifo T) P K Q nb :
  sim size s q P K Q → word_ok nb →
  ∃ free p' K', xsk_prod_nb_free (s_prod s) (s_sh s) nb = (free, p')
    ∧ sim size (mkS p' (s_cons s) (s_sh s)) q P K' Q
    ∧ free = K' + size - P - zlen (reserved q) ∧ (free < nb → K' = P - zlen (queue q)).
Proof.
  intros H Hnb. pose proof size_range. unfold word_ok in Hnb. destruct s as [p c sh], p as [pp pc pm ps]. destruct H as [Hbase Hprod Hcons Hcprod Hccons Hsizes Hpeek Hseen Horder Hring Hcont]. cbn in *.
  unfold xsk_prod_nb_free. cbn [p_cached_cons p_cached_prod p_size p_mask].
  rewrite Hcprod, Hccons. rewrite u32_diff by lia.
  destruct (Z.leb_spec nb (K + size - (P + zlen (reserved q)))).
  - eexists _, _, K. split_and!; [done| |lia|lia]. by constructor.
  - destruct Hsizes as (-> & ? & ?). rewrite Hcons, Hbase, u32_add_l, u32_diff by lia.
    eexists _, _, (P - zlen (queue q)). split_and!; [done| |lia|done].
    constructor; cbn; try done; lia.
Qed.

(** What the array holds from some index on. *)
Lemma window (l : list T) a n :
  zlen l = size → ∃ new, length new = n ∧ ∀ j, 0 <= j < Z.of_nat n → aget l ((a + j) mod size) = aget new j.
Proof.
  intros Hl. induction n as [|n (new & Hn & H)]; [by exists []; split; [done|intros j ?; lia]|].
  destruct (aget_is_Some l ((a + Z.of_nat n) mod size)) as [x Hx]; [rewrite Hl; apply slot_range|].
  exists (new ++ [x]). rewrite length_app. cbn. split; [lia|]. intros j Hj. destruct (Z.ltb_spec j (Z.of_nat n)).
  - rewrite aget_app_l by lia. apply H. lia.
  - replace j with (Z.of_nat n) by lia. rewrite Hx, aget_app_r by lia. by replace (_ - _) with 0 by lia.
Qed.

Lemma reserve_ok s (q : fifo T) P K Q nb :
  sim size s q P K Q → word_ok nb →
  ∃ r s' q' K', step s (Reserve nb) = Some (r, s') ∧ fifo_step size q (Reserve nb) r q' ∧ sim size s' q' P K' Q.
Proof.
  intros H Hnb. destruct (free_exact s q P K Q nb H Hnb) as (free & p' & K' & E & H' & Hfree & HK).
  pose proof (sim_window _ _ _ _ _ H') as Hw. pose proof size_range. unfold word_ok in Hnb.
  destruct s as [p c sh]. cbn [s_prod s_cons s_sh] in *. unfold step, xsk_ring_prod__reserve. rewrite E.
  destruct (Z.ltb_spec free nb) as [Hlt|Hge].
  - eexists _, _, q, K'. split_and!; [done| |done]. constructor. specialize (HK Hlt). lia.
  - destruct H' as [Hbase Hprod Hcons Hcprod Hccons Hsizes Hpeek Hseen Horder Hring Hcont]. cbn in *.
    destruct (window (ring sh) (P + zlen (reserved q)) (Z.to_nat nb) Hring) as (new & Hlen & Hnew).
    eexists _, _, (mkQ _ _ (reserved q ++ new) _), K'. split_and!; [done| |].
    + rewrite Hcprod. replace (P + zlen (reserved q)) with (P - zlen (queue q) + zlen (queue q) + zlen (reserved q)) by lia.
      rewrite <- !(u32_add_l (_ + _)), <- (u32_add_l (P - zlen (queue q))), <- Hbase, !u32_add_l.
      apply fs_reserve; lia.
    + constructor; cbn; try done; rewrite ?Hcprod, ?u32_add_l; try (rewrite length_app; f_equal; lia); try (rewrite ?length_app; lia).
      intros j Hj. rewrite app_assoc in Hj |- *. destruct (Z.ltb_spec j (zlen (queue q ++ reserved q))).
      * rewrite (aget_app_l _ new) by done. apply Hcont. lia.
      * rewrite (aget_app_r _ new) by done. rewrite <- Hnew.
        -- f_equal. f_equal. rewrite length_app. lia.
        -- rewrite !length_app in *. lia.
Qed.

Lemma write_ok s (q : fifo T) P K Q j v :
  sim size s q P K Q → 0 <= j < zlen (reserved q) →
  ∃ r s' q', step s (Write (u32 (base q + zlen (queue q) + j)) v) = Some (r, s')
    ∧ fifo_step size q (Write (u32 (base q + zlen (queue q) + j)) v) r q' ∧ sim size s' q' P K Q.
Proof.
  intros H Hj. pose proof (sim_window _ _ _ _ _ H) as Hw. destruct s as [p c sh].
  destruct H as [Hbase Hprod Hcons Hcprod Hccons Hsizes Hpeek Hseen Horder Hring Hcont]. cbn in *.
  assert (u32 (base q + zlen (queue q) + j) = u32 (P + j)) as Ei.
  { rewrite Hbase, <- Z.add_assoc, u32_add_l. f_equal. lia. }
  unfold xsk_ring_prod__tx_desc. destruct Hsizes as (? & Hm & ?). rewrite Hm, Ei, slot_mod, aset_eq by (rewrite Hring; apply slot_range).
  eexists _, _, _. split_and!; [done|rewrite <- Ei; by apply fs_write|].
  constructor; cbn; rewrite ?length_insert; try done.
  intros i Hi. rewrite length_app, length_insert in Hi.
  rewrite (aget_aset _ ((P + j) mod size) v) by (apply aset_eq; rewrite Hring; apply slot_range).
  destruct (Z.eqb_spec ((P - zlen (queue q) + i) mod size) ((P + j) mod size)) as [E|Hne].
  - replace (P + j) with (P - zlen (queue q) + (zlen (queue q) + j)) in E by lia.
    apply mod_window in E; [subst i|lia..]. rewrite aget_app_r by lia. replace (_ - _) with j by lia.
    rewrite aget_to_nat by lia. symmetry. apply list_lookup_insert_eq. lia.
  - rewrite Hcont by (rewrite length_app; lia). destruct (Z.ltb_spec i (zlen (queue q))); [by rewrite !aget_app_l|].
    rewrite !aget_app_r by lia. rewrite !aget_to_nat by lia. rewrite list_lookup_insert_ne; [done|].
    intros Heq. apply Hne. f_equal. lia.
Qed.

Lemma submit_ok s (q : fifo T) P K Q nb :
  sim size s q P K Q → 0 <= nb <= zlen (reserved q) →
  ∃ r s' q' P', step s (Submit nb) = Some (r, s') ∧ fifo_step size q (Submit nb) r q' ∧ sim size s' q' P' K Q.
Proof.
  intros H Hnb. destruct s as [p c sh]. destruct H as [Hbase Hprod Hcons Hcprod Hccons Hsizes Hpeek Hseen Horder Hring Hcont]. cbn in *.
  eexists _, _, _, (P + nb). split_and!; [done|apply fs_submit|].
  constructor; cbn; rewrite ?length_app, ?length_take, ?length_drop; try done; try lia.
  - rewrite Hbase. f_equal. lia.
  - rewrite Hprod, u32_add_l. done.
  - rewrite Hcprod. f_equal. lia.
  - rewrite Hpeek. f_equal. lia.
  - intros j Hj. rewrite <- app_assoc, take_drop. rewrite <- Hcont by (rewrite length_app; lia).
    f_equal. f_equal. lia.
Qed.

Lemma peek_ok s (q : fifo T) P K Q nb :
  sim size s q P K Q → word_ok nb →
  ∃ r s' q' Q', step s (Peek nb) = Some (r, s') ∧ fifo_step size q (Peek nb) r q' ∧ sim size s' q' P K Q'.
Proof.
  intros H Hnb. pose proof (sim_window _ _ _ _ _ H) as Hw. pose proof size_range as Hs. unfold word_ok in Hnb.
  destruct s as [p [cp cc cm cs] sh]. destruct H as [Hbase Hprod Hcons Hcprod Hccons Hsizes Hpeek Hseen Horder Hring Hcont]. cbn in *.
  assert (∃ n Q', Q <= Q' <= P ∧ xsk_cons_nb_avail (mkC cp cc cm cs) sh nb = (n, mkC (u32 Q') cc cm cs)
    ∧ n = Z.min nb (Q' - (P - zlen (queue q) + peeked q)) ∧ (Q' = Q ∧ Q - (P - zlen (queue q) + peeked q) ≠ 0 ∨ Q' = P)) as (n & Q' & HQ & E & Hn & Hz).
  { unfold xsk_cons_nb_avail. cbn [c_cached_prod c_cached_cons c_mask c_size]. rewrite Hseen, Hpeek, u32_diff by lia.
    destruct (Z.eqb_spec (Q - (P - zlen (queue q) + peeked q)) 0).
    - exists (Z.min nb (P - (P - zlen (queue q) + peeked q))), P. rewrite Hprod, u32_diff by lia.
      split_and!; try lia; auto. f_equal. destruct (Z.ltb_spec nb (P - (P - zlen (queue q) + peeked q))); lia.
    - exists (Z.min nb (Q - (P - zlen (queue q) + peeked q))), Q. split_and!; try lia; auto. f_equal.
      destruct (Z.ltb_spec nb (Q - (P - zlen (queue q) + peeked q))); lia. }
  unfold xsk_ring_cons__peek. rewrite E. destruct (Z.ltb_spec 0 n).
  - cbn [c_cached_cons c_cached_prod c_mask c_size]. assert (cc = u32 (base q + peeked q)) as Ecc by (rewrite Hpeek, Hbase, u32_add_l; f_equal; lia).
    eexists _, _, (mkQ _ _ _ _), Q'. split_and!; [done|rewrite Ecc; apply fs_peek; lia|].
    constructor; cbn; try done; try lia. rewrite Hpeek, u32_add_l. f_equal. lia.
  - eexists _, _, q, Q'. split_and!; [done|replace n with 0 by lia; apply fs_empty; lia|].
    constructor; cbn; try done; lia.
Qed.

Lemma read_ok s (q : fifo T) P K Q j :
  sim size s q P K Q → 0 <= j < peeked q →
  ∃ r, step s (Read (u32 (base q + j))) = Some (r, s) ∧ fifo_step size q (Read (u32 (base q + j))) r q.
Proof.
  intros H Hj. destruct s as [p c sh]. destruct H as [Hbase Hprod Hcons Hcprod Hccons Hsizes Hpeek Hseen Horder Hring Hcont]. cbn in *.
  unfold xsk_ring_cons__rx_desc. destruct Hsizes as (? & ? & Hm). rewrite Hm, Hbase, u32_add_l, slot_mod.
  rewrite Hcont by (rewrite length_app; lia). rewrite aget_app_l by lia.
  destruct (aget_is_Some (queue q) j) as [v Hv]; [lia|]. rewrite Hv. eexists. split; [done|].
  rewrite <- u32_add_l, <- Hbase. apply fs_read; [done|]. by rewrite <- aget_to_nat by lia.
Qed.

Lemma cancel_ok s (q : fifo T) P K Q nb :
  sim size s q P K Q → 0 <= nb <= peeked q →
  ∃ r s' q', step s (Cancel nb) = Some (r, s') ∧ fifo_step size q (Cancel nb) r q' ∧ sim size s' q' P K Q.
Proof.
  intros H Hnb. destruct s as [p c sh]. destruct H as [Hbase Hprod Hcons Hcprod Hccons Hsizes Hpeek Hseen Horder Hring Hcont]. cbn in *.
  eexists _, _, _. split_and!; [done|apply fs_cancel|]. constructor; cbn; try done; try lia.
  rewrite Hpeek, u32_sub_l. f_equal. lia.
Qed.

Lemma release_ok s (q : fifo T) P K Q nb :
  sim size s q P K Q → 0 <= nb <= peeked q →
  ∃ r s' q', step s (Release nb) = Some (r, s') ∧ fifo_step size q (Release nb) r q' ∧ sim size s' q' P K Q.
Proof.
  intros H Hnb. destruct s as [p c sh]. destruct H as [Hbase Hprod Hcons Hcprod Hccons Hsizes Hpeek Hseen Horder Hring Hcont]. cbn in *.
  eexists _, _, _. split_and!; [done|apply fs_release|].
  constructor; cbn; rewrite ?length_drop; try done; try lia.
  - rewrite Hbase, u32_add_l. f_equal. lia.
  - by rewrite Hcons.
  - rewrite Hpeek. f_equal. lia.
  - intros j Hj. rewrite length_app, length_drop in Hj.
    replace (P - _ + j) with (P - zlen (queue q) + (nb + j)) by lia. rewrite Hcont by (rewrite length_app; lia).
    rewrite !aget_to_nat by lia. rewrite <- drop_app_le by lia. rewrite lookup_drop. f_equal. lia.
Qed.

Lemma ring_step_ok s (q : fifo T) P K Q o :
  sim size s q P K Q → permitted q o →
  ∃ r s' q' P' K' Q', step s o = Some (r, s') ∧ fifo_step size q o r q' ∧ sim size s' q' P' K' Q'.
Proof.
  intros H Hp. destruct o as [nb|idx v|nb|nb|idx|nb|nb]; cbn [permitted] in Hp.
  - destruct (reserve_ok s q P K Q nb H Hp) as (r & s' & q' & K' & ?). by exists r, s', q', P, K', Q.
  - destruct Hp as (j & Hj & ->). destruct (write_ok s q P K Q j v H Hj) as (r & s' & q' & ?). by exists r, s', q', P, K, Q.
  - destruct (submit_ok s q P K Q nb H Hp) as (r & s' & q' & P' & ?). by exists r, s', q', P', K, Q.
  - destruct (peek_ok s q P K Q nb H Hp) as (r & s' & q' & Q' & ?). by exists r, s', q', P, K, Q'.
  - destruct Hp as (j & Hj & ->). destruct (read_ok s q P K Q j H Hj) as (r & E & Hf). by exists r, s, q, P, K, Q.
  - destruct (cancel_ok s q P K Q nb H Hp) as (r & s' & q' & ?). by exists r, s', q', P, K, Q.
  - destruct (release_ok s q P K Q nb H Hp) as (r & s' & q' & ?). by exists r, s', q', P, K, Q.
Qed.

(** ** Executions *)

(** The set-up on an empty ring, with any value in the counters. *)
Definition start (b : Z) (r : list T) : sys T :=
  let sh := mkSh b b r in mkS (tx_setup size sh) (rx_setup size sh) sh.

Lemma start_ok b r : word_ok b → zlen r = size → sim size (start b r) (mkQ b [] [] 0) b b b.
Proof.
  intros Hb Hr. pose proof size_range. unfold word_ok in Hb.
  constructor; cbn; rewrite ?Z.add_0_r, ?Z.sub_0_r, ?(u32_small b) by done; try done; try lia.
  rewrite u32_small by (unfold word_ok; lia). done.
Qed.
End ring.

Definition simulated {T} (size : Z) (s : sys T) (q : fifo T) : Prop := ∃ P K Q, sim size s q P K Q.

(** C26: A ring of a power of two of entries, with its counters anywhere in
    their range, starts as an empty queue; every step that the protocol permits
    to one of the ends stays inside the array, gives a result of the queue, and
    leads to a related state.  So whatever the interleaving and wherever the
    counters wrap, entries are handed over in order, none lost and none twice,
    no entry is overwritten before it is released, and a reservation fails only
    when the ring really has too few free entries. *)
Theorem xsk_ring_refines_fifo {T} (size k : Z) :
  size = 2 ^ k → 0 <= k <= 31 →
  (∀ b (r : list T), word_ok b → zlen r = size → simulated size (start size b r) (mkQ b [] [] 0))
  ∧ ∀ (s : sys T) q o, simulated size s q → permitted q o →
      ∃ r s' q', step s o = Some (r, s') ∧ fifo_step size q o r q' ∧ simulated size s' q'.
Proof.
  intros Hs Hk. split.
  - intros b r Hb Hr. exists b, b, b. by eapply start_ok.
  - intros s q o (P & K & Q & H) Hp. destruct (ring_step_ok size k Hs Hk s q P K Q o H Hp) as (r & s' & q' & P' & K' & Q' & E & Hf & H').
    exists r, s', q'. split_and!; [done..|by exists P', K', Q'].
Qed.

Lemma xsk_ring_refines_fifo_witness :
  ∃ r s' q', step (start 4 (2 ^ 32 - 2) [0; 0; 0; 0]) (Reserve 3) = Some (r, s')
    ∧ fifo_step 4 (mkQ (2 ^ 32 - 2) [] [] 0) (Reserve 3) r q' ∧ simulated 4 s' q'.
Proof.
  destruct (xsk_ring_refines_fifo (T := Z) 4 2 eq_refl ltac:(lia)) as [Hstart Hstep].
  apply Hstep; [apply Hstart; [unfold word_ok; lia|reflexivity]|cbn; unfold word_ok; lia].
Defined.

(** Three entries through a ring of four whose counters wrap on the way. *)
Fixpoint steps {T} (s : sys T) (ops : list (op T)) : option (list (result T) * sys T) :=
  match ops with
  | [] => Some ([], s)
  | o :: ops => '(r, s) ← step s o; '(rs, s) ← steps s ops; Some (r :: rs, s)
  end.

Example wrapping_run :
  fst <$> steps (start 4 (2 ^ 32 - 2) [0; 0; 0; 0])
    [Reserve 3; Write (2 ^ 32 - 2) 11; Write (2 ^ 32 - 1) 22; Write 0 33; Submit 2; Peek 4; Reserve 2; Submit 1;
     Read (2 ^ 32 - 2); Read (2 ^ 32 - 1); Release 2; Peek 4; Read 0; Reserve 3]
  = Some [RRange 3 (Some (2 ^ 32 - 2)); RUnit; RUnit; RUnit; RUnit; RRange 2 (Some (2 ^ 32 - 2)); RRange 0 None; RUnit;
          RValue 11; RValue 22; RUnit; RRange 1 (Some 0); RValue 33; RRange 3 (Some 1)].
Proof. vm_compute. reflexivity. Qed.

(** Unaligned mode: the two parts of an address come apart again. *)
Lemma umem_parts base offset :
  0 <= base < 2 ^ 48 → 0 <= offset < 2 ^ 16 →
  xsk_umem__extract_addr (Z.shiftl offset 48 + base) = base
  ∧ xsk_umem__extract_offset (Z.shiftl offset 48 + base) = offset
  ∧ xsk_umem__add_offset_to_addr (Z.shiftl offset 48 + base) = base + offset.
Proof.
  intros Hb Ho. assert (xsk_umem__extract_addr (Z.shiftl offset 48 + base) = base) as E1.
  { unfold xsk_umem__extract_addr. change XSK_UNALIGNED_BUF_ADDR_MASK with (Z.ones 48).
    rewrite Z.land_ones, Z.shiftl_mul_pow2, Z.add_comm, Z_mod_plus_full by lia. by apply Z.mod_small. }
  assert (xsk_umem__extract_offset (Z.shiftl offset 48 + base) = offset) as E2.
  { unfold xsk_umem__extract_offset, XSK_UNALIGNED_BUF_OFFSET_SHIFT.
    rewrite Z.shiftr_div_pow2, Z.shiftl_mul_pow2, Z.add_comm, Z.div_add by lia. by rewrite Z.div_small. }
  split_and!; [done..|]. unfold xsk_umem__add_offset_to_addr. rewrite E1, E2. apply u64_small. lia.
Qed.
