(* ===== verification/Bytes.v ===== *)
(** * Pieces of a string of bytes

    What the two components that read and write little-endian structures in a
    buffer share: reads inside of a string succeed; the bytes of a number; and
    [located], a piece at an offset of a string. *)

From S2P Require Import Prelude.

(** ** Reads *)

Lemma ld_le16_total l o : bytes_ok l → 0 <= o → o + 2 <= zlen l → ∃ x, ld_le16 l o = Some x ∧ 0 <= x < 2 ^ 16.
Proof.
  intros Hl H0 H2. unfold ld_le16. destruct (aget_is_Some l o) as [a Ha]; [lia|].
  destruct (aget_is_Some l (o + 1)) as [b Hb]; [lia|]. rewrite Ha, Hb. eexists. split; [done|].
  apply aget_byte in Ha, Hb; try done. unfold byte_ok in *. lia.
Qed.

Lemma ld_le32_total l o : bytes_ok l → 0 <= o → o + 4 <= zlen l → ∃ x, ld_le32 l o = Some x ∧ 0 <= x < 2 ^ 32.
Proof.
  intros Hl H0 H2. unfold ld_le32. destruct (aget_is_Some l o) as [a Ha]; [lia|].
  destruct (aget_is_Some l (o + 1)) as [b Hb]; [lia|]. destruct (aget_is_Some l (o + 2)) as [c Hc]; [lia|].
  destruct (aget_is_Some l (o + 3)) as [d Hd]; [lia|]. rewrite Ha, Hb, Hc, Hd. eexists. split; [done|].
  apply aget_byte in Ha, Hb, Hc, Hd; try done. unfold byte_ok in *. lia.
Qed.

(** ** Numbers *)

Definition le16 (x : Z) : list Z := [u8 x; u8 (Z.shiftr x 8)].
Definition le32 (x : Z) : list Z := [u8 x; u8 (Z.shiftr x 8); u8 (Z.shiftr x 16); u8 (Z.shiftr x 24)].

Lemma bytes_ok_le16 x : bytes_ok (le16 x).
Proof. repeat constructor; apply u8_range. Qed.

Lemma bytes_ok_le32 x : bytes_ok (le32 x).
Proof. repeat constructor; apply u8_range. Qed.

(** ** Located pieces *)

Definition located (data : list Z) (o : Z) (bs : list Z) : Prop :=
  ∃ pre post, data = pre ++ bs ++ post ∧ o = zlen pre.

Lemma located_app data o bs1 bs2 : located data o (bs1 ++ bs2) → located data o bs1 ∧ located data (o + zlen bs1) bs2.
Proof.
  intros (pre & post & -> & ->). split; [exists pre, (bs2 ++ post)|exists (pre ++ bs1), post].
  - by rewrite <- app_assoc.
  - rewrite <- !app_assoc, length_app. split; [done|lia].
Qed.

Lemma located_range data o bs : located data o bs → 0 <= o ∧ o + zlen bs <= zlen data.
Proof. intros (pre & post & -> & ->). rewrite !length_app. lia. Qed.

Lemma located_list data o bs : located data o bs → aget_list data o (length bs) = Some bs.
Proof.
  intros H. pose proof (located_range _ _ _ H). rewrite aget_list_eq by lia.
  destruct H as (pre & post & -> & ->). rewrite Nat2Z.id, drop_app_length, take_app_length. done.
Qed.

Lemma aget_located data o bs c : located data o bs → 0 <= c < zlen bs → aget data (o + c) = aget bs c.
Proof.
  intros (pre & post & -> & ->) Hc. rewrite aget_app_r, aget_app_l by lia. f_equal. lia.
Qed.

Lemma le16_value x : u8 x + u8 (Z.shiftr x 8) * 2 ^ 8 = u16 x.
Proof.
  unfold u8, u16. rewrite Z.shiftr_div_pow2 by lia. change (2 ^ 16) with (2 ^ 8 * 2 ^ 8).
  rewrite Z.rem_mul_r by lia. lia.
Qed.

(** A number in a located structure. *)
Lemma ld_le16_located data o bs c v :
  located data o bs → 0 <= c → c + 2 <= zlen bs → ld_le16 bs c = Some (u8 v + u8 (Z.shiftr v 8) * 2 ^ 8) →
  ld_le16 data (o + c) = Some (u16 v).
Proof.
  intros H Hc H2 Hv. rewrite <- le16_value, <- Hv. unfold ld_le16. rewrite <- !Z.add_assoc.
  by rewrite (aget_located data o bs c), (aget_located data o bs (c + 1)) by (done || lia).
Qed.

Lemma ld_le32_located data o bs c v :
  located data o bs → 0 <= c → c + 4 <= zlen bs →
  ld_le32 bs c = Some (u8 v + u8 (Z.shiftr v 8) * 2 ^ 8 + u8 (Z.shiftr v 16) * 2 ^ 16 + u8 (Z.shiftr v 24) * 2 ^ 24) →
  ld_le32 data (o + c) = Some (u32 v).
Proof.
  intros H Hc H2 Hv. rewrite <- u32_le_bytes, <- Hv. unfold ld_le32. rewrite <- !Z.add_assoc.
  by rewrite (aget_located data o bs c), (aget_located data o bs (c + 1)), (aget_located data o bs (c + 2)),
    (aget_located data o bs (c + 3)) by (done || lia).
Qed.
