(* ===== verification/Zip.v ===== *)
(** * Reading zip archives ([lib/libbpf/src/zip.c])

    The mapped file is a list of bytes; a pointer into it is an offset, and a
    read outside the file is a fault.  The packed structures are records with a
    function that reads them; the code reads some of their fields, always after
    an access check for the whole structure.  [open], [lseek], [mmap] and
    [malloc] are parameters of [zip_archive_open]; what it acquires and gives back
    is recorded in a trace, in the order of the calls. *)

From S2P Require Import Prelude.

Definition EINVAL : Z := 22.
Definition ENOMEM : Z := 12.
Definition ENOENT : Z := 2.
Definition ENOTSUP : Z := 95.

(** ** The structures of the format *)

Definition END_OF_CD_RECORD_MAGIC : Z := 0x06054b50.

Record end_of_cd_record : Type := mkEocd {
  ecd_magic : Z; this_disk : Z; cd_disk : Z; ecd_records : Z; cd_records_total : Z;
  ecd_size : Z; ecd_offset : Z; comment_length : Z;
}.
Definition sizeof_end_of_cd_record : Z := 22.

Definition read_end_of_cd_record (data : list Z) (o : Z) : option end_of_cd_record :=
  magic ← ld_le32 data o; this_disk ← ld_le16 data (o + 4); cd_disk ← ld_le16 data (o + 6);
  records ← ld_le16 data (o + 8); total ← ld_le16 data (o + 10);
  size ← ld_le32 data (o + 12); offset ← ld_le32 data (o + 16); comment_length ← ld_le16 data (o + 20);
  Some (mkEocd magic this_disk cd_disk records total size offset comment_length).

Definition CD_FILE_HEADER_MAGIC : Z := 0x02014b50.
Definition FLAG_ENCRYPTED : Z := Z.shiftl 1 0.
Definition FLAG_HAS_DATA_DESCRIPTOR : Z := Z.shiftl 1 3.

Record cd_file_header : Type := mkCdfh {
  cf_magic : Z; cf_version : Z; cf_min_version : Z; cf_flags : Z; cf_compression : Z;
  cf_last_modified_time : Z; cf_last_modified_date : Z; cf_crc : Z; cf_compressed_size : Z; cf_uncompressed_size : Z;
  cf_file_name_length : Z; cf_extra_field_length : Z; cf_file_comment_length : Z; cf_disk : Z;
  cf_internal_attributes : Z; cf_external_attributes : Z; cf_offset : Z;
}.
Definition sizeof_cd_file_header : Z := 46.

Definition read_cd_file_header (data : list Z) (o : Z) : option cd_file_header :=
  magic ← ld_le32 data o; version ← ld_le16 data (o + 4); min_version ← ld_le16 data (o + 6);
  flags ← ld_le16 data (o + 8); compression ← ld_le16 data (o + 10); time ← ld_le16 data (o + 12);
  date ← ld_le16 data (o + 14); crc ← ld_le32 data (o + 16); compressed ← ld_le32 data (o + 20);
  uncompressed ← ld_le32 data (o + 24); name ← ld_le16 data (o + 28); extra ← ld_le16 data (o + 30);
  comment ← ld_le16 data (o + 32); disk ← ld_le16 data (o + 34); internal ← ld_le16 data (o + 36);
  external ← ld_le32 data (o + 38); offset ← ld_le32 data (o + 42);
  Some (mkCdfh magic version min_version flags compression time date crc compressed uncompressed name extra comment
          disk internal external offset).

Definition LOCAL_FILE_HEADER_MAGIC : Z := 0x04034b50.

Record local_file_header : Type := mkLfh {
  lf_magic : Z; lf_min_version : Z; lf_flags : Z; lf_compression : Z; lf_last_modified_time : Z;
  lf_last_modified_date : Z; lf_crc : Z; lf_compressed_size : Z; lf_uncompressed_size : Z;
  lf_file_name_length : Z; lf_extra_field_length : Z;
}.
Definition sizeof_local_file_header : Z := 30.

Definition read_local_file_header (data : list Z) (o : Z) : option local_file_header :=
  magic ← ld_le32 data o; min_version ← ld_le16 data (o + 4); flags ← ld_le16 data (o + 6);
  compression ← ld_le16 data (o + 8); time ← ld_le16 data (o + 10); date ← ld_le16 data (o + 12);
  crc ← ld_le32 data (o + 14); compressed ← ld_le32 data (o + 18); uncompressed ← ld_le32 data (o + 22);
  name ← ld_le16 data (o + 26); extra ← ld_le16 data (o + 28);
  Some (mkLfh magic min_version flags compression time date crc compressed uncompressed name extra).

(** ** The archive *)

Record zip_archive : Type := mkZip { za_data : list Z; za_size : Z; za_cd_offset : Z; za_cd_records : Z }.

(** The pointers [name] and [data] are offsets. *)
Record zip_entry : Type := mkEntry {
  ze_compression : Z; ze_name : Z; ze_name_length : Z; ze_data : Z; ze_data_length : Z; ze_data_offset : Z;
}.

Definition check_access (archive : zip_archive) (offset size : Z) : option Z :=
  if (za_size archive <? u32 (offset + size)) || (u32 (offset + size) <? offset) then None else Some offset.

Definition try_parse_end_of_cd (archive : zip_archive) (offset : Z) : option (Z * zip_archive) :=
  match check_access archive offset sizeof_end_of_cd_record with
  | None => Some (- EINVAL, archive)
  | Some p =>
      eocd ← read_end_of_cd_record (za_data archive) p;
      if negb (ecd_magic eocd =? END_OF_CD_RECORD_MAGIC) then Some (- EINVAL, archive) else
      if negb (u64 (offset + sizeof_end_of_cd_record + comment_length eocd) =? za_size archive)
      then Some (- EINVAL, archive) else
      let cd_records := ecd_records eocd in
      if negb (this_disk eocd =? 0) || negb (cd_disk eocd =? 0) || negb (cd_records_total eocd =? cd_records)
      then Some (- ENOTSUP, archive) else
      let cd_offset := ecd_offset eocd in
      match check_access archive cd_offset (ecd_size eocd) with
      | None => Some (- EINVAL, archive)
      | Some _ => Some (0, mkZip (za_data archive) (za_size archive) cd_offset cd_records)
      end
  end.

(** The loop on [(offset, rc, archive)]; 65536 offsets are tried at most. *)
Definition find_cd_body (limit : Z) (s : Z * Z * zip_archive) : option (ctl (Z * Z * zip_archive)) :=
  let '(offset, rc, archive) := s in
  if (0 <=? offset) && (limit <? offset) && negb (rc =? 0) then
    '(rc, archive) ← try_parse_end_of_cd archive (u32 offset);
    if rc =? - ENOTSUP then Some (Break (offset, rc, archive)) else Some (Next (offset - 1, rc, archive))
  else Some (Break s).

Definition find_cd (archive : zip_archive) : option (Z * zip_archive) :=
  if za_size archive <=? sizeof_end_of_cd_record then Some (- EINVAL, archive) else
  let offset := za_size archive - sizeof_end_of_cd_record in
  let limit := offset - Z.shiftl 1 16 in
  '(_, rc, archive) ← while_loop (Z.to_nat (2 ^ 16 + 1)) (find_cd_body limit) (offset, - EINVAL, archive);
  Some (rc, archive).

(** What [zip_archive_open] holds on the way, and the calls that get it ([open],
    [mmap], [malloc]) and give it back ([close], [munmap], [free]). *)
Inductive resource : Type :=
| Fd
| Mapping
| Archive.

Inductive event : Type :=
| Acquire (r : resource)
| Release (r : resource).

(** The error is [inl]; [lseek_size] is [None] for a failed [lseek], and [map]
    is the mapped file or [errno]. *)
Definition zip_archive_open (fd_errno : option Z) (lseek_size : option Z) (map : Z + list Z) (malloc : bool)
    : option ((Z + zip_archive) * list event) :=
  match fd_errno with
  | Some e => Some (inl (- e), [])
  | None =>
      match lseek_size with
      | None => Some (inl (- EINVAL), [Acquire Fd; Release Fd])
      | Some size =>
          if 2 ^ 32 - 1 <? size then Some (inl (- EINVAL), [Acquire Fd; Release Fd]) else
          match map with
          | inl e => Some (inl (- e), [Acquire Fd; Release Fd])
          | inr data =>
              let mapped := [Acquire Fd; Acquire Mapping; Release Fd] in
              if negb malloc then Some (inl (- ENOMEM), mapped ++ [Release Mapping]) else
              '(err, archive) ← find_cd (mkZip data size 0 0);
              if negb (err =? 0) then Some (inl err, mapped ++ [Acquire Archive; Release Mapping; Release Archive])
              else Some (inr archive, mapped ++ [Acquire Archive])
          end
      end
  end.

Definition zip_archive_close : list event := [Release Mapping; Release Archive].

Definition local_file_header_at_offset (archive : zip_archive) (offset : Z) : option (option local_file_header) :=
  match check_access archive offset sizeof_local_file_header with
  | None => Some None
  | Some p =>
      lfh ← read_local_file_header (za_data archive) p;
      if negb (lf_magic lfh =? LOCAL_FILE_HEADER_MAGIC) then Some None else Some (Some lfh)
  end.

(** The result and [*out], if written. *)
Definition get_entry_at_offset (archive : zip_archive) (offset : Z) : option (Z * option zip_entry) :=
  found ← local_file_header_at_offset archive offset;
  match found with
  | None => Some (- EINVAL, None)
  | Some lfh =>
      let offset := u32 (offset + sizeof_local_file_header) in
      if negb (Z.land (lf_flags lfh) FLAG_ENCRYPTED =? 0) || negb (Z.land (lf_flags lfh) FLAG_HAS_DATA_DESCRIPTOR =? 0)
      then Some (- EINVAL, None) else
      match check_access archive offset (lf_file_name_length lfh) with
      | None => Some (- EINVAL, None)
      | Some name =>
          let offset := u32 (offset + lf_file_name_length lfh) in
          match check_access archive offset (lf_extra_field_length lfh) with
          | None => Some (- EINVAL, None)
          | Some _ =>
              let offset := u32 (offset + lf_extra_field_length lfh) in
              let compressed_size := lf_compressed_size lfh in
              match check_access archive offset compressed_size with
              | None => Some (- EINVAL, None)
              | Some data =>
                  Some (0, Some (mkEntry (lf_compression lfh) name (lf_file_name_length lfh) data compressed_size offset))
              end
          end
      end
  end.

(** The loop on the offset and the value returned inside it. *)
Definition find_entry_body (archive : zip_archive) (file_name : list Z) (i : Z)
    (s : Z * option (Z * option zip_entry)) : option (ctl (Z * option (Z * option zip_entry))) :=
  let '(offset, _) := s in
  match check_access archive offset sizeof_cd_file_header with
  | None => Some (Break (offset, Some (- EINVAL, None)))
  | Some p =>
      cdfh ← read_cd_file_header (za_data archive) p;
      if negb (cf_magic cdfh =? CD_FILE_HEADER_MAGIC) then Some (Break (offset, Some (- EINVAL, None))) else
      let offset := u32 (offset + sizeof_cd_file_header) in
      let cdfh_name_length := cf_file_name_length cdfh in
      match check_access archive offset cdfh_name_length with
      | None => Some (Break (offset, Some (- EINVAL, None)))
      | Some _ =>
          let cdfh_flags := cf_flags cdfh in
          same ← (if (Z.land cdfh_flags FLAG_ENCRYPTED =? 0) && (Z.land cdfh_flags FLAG_HAS_DATA_DESCRIPTOR =? 0)
                     && (zlen file_name =? cdfh_name_length)
                  then name ← aget_list (za_data archive) offset (length file_name);
                       Some (bool_decide (name = file_name))
                  else Some false);
          if same : bool then
            r ← get_entry_at_offset archive (cf_offset cdfh); Some (Break (offset, Some r))
          else
            let offset := u32 (offset + cdfh_name_length) in
            let offset := u32 (offset + cf_extra_field_length cdfh) in
            let offset := u32 (offset + cf_file_comment_length cdfh) in
            Some (Next (offset, None))
      end
  end.

(** [file_name] is the name without its terminator. *)
Definition zip_archive_find_entry (archive : zip_archive) (file_name : list Z) : option (Z * option zip_entry) :=
  '(_, r) ← for_loop 0 (za_cd_records archive) (find_entry_body archive file_name) (za_cd_offset archive, None);
  Some (default (- ENOENT, None) r).
