(* ===== verification/ZipCorrect.v ===== *)
(** * Correctness of the zip reader

    Any file can be opened and searched without a read outside of it and
    without losing what was acquired, and in a well-formed archive the search
    finds the file of a name. *)

From S2P Require Import Prelude Bytes Zip.

(** ** Reads *)

Ltac read_fields :=
  repeat match goal with
  | |- context [ld_le16 ?l ?o] => destruct (ld_le16_total l o) as (? & -> & ?); [done|lia|lia|]
  | |- context [ld_le32 ?l ?o] => destruct (ld_le32_total l o) as (? & -> & ?); [done|lia|lia|]
  end; cbn [mbind option_bind].

Lemma read_eocd_total data o :
  bytes_ok data → 0 <= o → o + sizeof_end_of_cd_record <= zlen data →
  ∃ r, read_end_of_cd_record data o = Some r ∧ 0 <= comment_length r < 2 ^ 16 ∧ 0 <= ecd_records r < 2 ^ 16
    ∧ 0 <= ecd_offset r < 2 ^ 32 ∧ 0 <= ecd_size r < 2 ^ 32.
Proof.
  intros Hd H0 H. unfold sizeof_end_of_cd_record in H. unfold read_end_of_cd_record. read_fields.
  eexists. split; [done|]. cbn. auto.
Qed.

Lemma read_cdfh_total data o :
  bytes_ok data → 0 <= o → o + sizeof_cd_file_header <= zlen data →
  ∃ r, read_cd_file_header data o = Some r ∧ 0 <= cf_file_name_length r < 2 ^ 16 ∧ 0 <= cf_offset r < 2 ^ 32.
Proof.
  intros Hd H0 H. unfold sizeof_cd_file_header in H. unfold read_cd_file_header. read_fields.
  eexists. split; [done|]. cbn. auto.
Qed.

Lemma read_lfh_total data o :
  bytes_ok data → 0 <= o → o + sizeof_local_file_header <= zlen data →
  ∃ r, read_local_file_header data o = Some r ∧ 0 <= lf_file_name_length r < 2 ^ 16
    ∧ 0 <= lf_extra_field_length r < 2 ^ 16 ∧ 0 <= lf_compressed_size r < 2 ^ 32.
Proof.
  intros Hd H0 H. unfold sizeof_local_file_header in H. unfold read_local_file_header. read_fields.
  eexists. split; [done|]. cbn. auto.
Qed.

(** ** Safety *)

Record zip_ok (a : zip_archive) : Prop := {
  zo_bytes : bytes_ok (za_data a);
  zo_size : zlen (za_data a) = za_size a ∧ za_size a < 2 ^ 32;
  zo_cd : word_ok (za_cd_offset a);
  zo_records : 0 <= za_cd_records a < 2 ^ 16;
}.

(** Case analysis on the outcome of a check. *)
Ltac access :=
  match goal with |- context [if ?x <=? ?y then Some _ else None] => destruct (Z.leb_spec x y) end.

(** The two comparisons of [check_access] leave no room for a wrap-around. *)
Lemma check_access_spec a offset size :
  zip_ok a → word_ok offset → word_ok size →
  check_access a offset size = if offset + size <=? za_size a then Some offset else None.
Proof.
  intros [_ [Hl Hs] _ _] Ho Hz. unfold word_ok, check_access, u32 in *.
  destruct (Z.ltb_spec (offset + size) (2 ^ 32)).
  - rewrite Z.mod_small by lia. zcase; (done || lia).
  - replace ((offset + size) mod 2 ^ 32) with (offset + size - 2 ^ 32); [zcase; (done || lia)|].
    apply Z.mod_unique with 1; lia.
Qed.

(** What looking for the directory returns. *)
Definition cd_result (rc : Z) : Prop := rc = 0 ∨ rc = - EINVAL ∨ rc = - ENOTSUP.

Lemma try_parse_ok a offset :
  zip_ok a → word_ok offset →
  ∃ rc a', try_parse_end_of_cd a offset = Some (rc, a') ∧ zip_ok a' ∧ za_data a' = za_data a ∧ cd_result rc.
Proof.
  intros Ha Ho. unfold try_parse_end_of_cd, cd_result.
  rewrite check_access_spec by (done || (unfold word_ok, sizeof_end_of_cd_record; lia)).
  zcase; [|by eexists _, a; split_and!; auto]. destruct Ha as [Hb [Hl Hs] Hc Hr] eqn:E. clear E.
  destruct (read_eocd_total (za_data a) offset Hb) as (r & -> & Hcl & Hrec & Hoff & Hsz); [unfold word_ok in Ho; lia|lia|].
  cbn [mbind option_bind]. repeat (case_match; try by eexists _, a; split_and!; auto). eexists _, _. split; [done|]. split; [|by split; [|left]].
  constructor; cbn; done.
Qed.

Lemma find_cd_ok a : zip_ok a → ∃ rc a', find_cd a = Some (rc, a') ∧ zip_ok a' ∧ za_data a' = za_data a ∧ cd_result rc.
Proof.
  intros Ha. unfold find_cd. zcase; [by eexists _, a; unfold cd_result; split_and!; auto|]. unfold sizeof_end_of_cd_record in *.
  change (Z.shiftl 1 16) with (2 ^ 16). pose proof (zo_size _ Ha) as Hsz.
  set (limit := za_size a - 22 - 2 ^ 16).
  set (I (s : Z * Z * zip_archive) := zip_ok s.2 ∧ za_data s.2 = za_data a ∧ cd_result s.1.2 ∧ s.1.1 <= za_size a - 22 ∧ -1 <= s.1.1 ∧ limit <= s.1.1).
  destruct (while_loop_inv I (λ s, zip_ok s.2 ∧ za_data s.2 = za_data a ∧ cd_result s.1.2) (λ s, Z.to_nat (s.1.1 - limit))
              (find_cd_body limit) (Z.to_nat (2 ^ 16 + 1)) (za_size a - 22, - EINVAL, a)) as ([[o rc] a'] & -> & Hw).
  - intros [[offset rc] b] (Hb & Hd & Hrc & Hu & Hl & Hlim). cbn in Hb, Hd, Hrc, Hu, Hl, Hlim. unfold find_cd_body.
    destruct (Z.leb_spec 0 offset); [|by eexists]. destruct (Z.ltb_spec limit offset); [|by eexists].
    cbn [andb]. destruct (negb _); [|by eexists].
    destruct (try_parse_ok b (u32 offset) Hb) as (rc' & b' & -> & Hb' & Hd' & Hrc'); [apply u32_ok|].
    cbn [mbind option_bind]. destruct (rc' =? - ENOTSUP); [eexists; split; [done|]; cbn; split_and!; [done|congruence|done]|].
    eexists. split; [done|]. unfold I. cbn. split_and!; (done || lia || congruence).
  - unfold I. cbn. split_and!; (done || lia || (unfold cd_result; auto)).
  - cbn. lia.
  - eexists _, _. split; [done|]. done.
Qed.

Definition entry_in (a : zip_archive) (e : zip_entry) : Prop :=
  0 <= ze_name e ∧ ze_name e + ze_name_length e <= za_size a
  ∧ ze_data e = ze_data_offset e ∧ 0 <= ze_data e ∧ 0 <= ze_data_length e ∧ ze_data e + ze_data_length e <= za_size a.

Lemma get_entry_ok a offset :
  zip_ok a → word_ok offset →
  ∃ rc out, get_entry_at_offset a offset = Some (rc, out)
    ∧ match out with Some e => rc = 0 ∧ entry_in a e | None => rc = - EINVAL end.
Proof.
  intros Ha Ho. unfold get_entry_at_offset, local_file_header_at_offset.
  rewrite check_access_spec by (done || (unfold word_ok, sizeof_local_file_header; lia)).
  zcase; [|by eexists _, _].
  destruct (read_lfh_total (za_data a) offset) as (r & -> & Hn & He & Hc);
    [apply Ha|unfold word_ok in Ho; lia|pose proof (zo_size _ Ha); lia|].
  cbn [mbind option_bind]. destruct (negb _); [by eexists _, _|]. cbn [mbind option_bind].
  destruct (_ || _); [by eexists _, _|].
  rewrite check_access_spec by (done || apply u32_ok || (unfold word_ok; lia)). zcase; [|by eexists _, _].
  rewrite check_access_spec by (done || apply u32_ok || (unfold word_ok; lia)). zcase; [|by eexists _, _].
  rewrite check_access_spec by (done || apply u32_ok || (unfold word_ok; lia)). zcase; [|by eexists _, _].
  eexists _, _. split; [done|]. split; [done|].
  pose proof (u32_range (offset + sizeof_local_file_header)).
  pose proof (u32_range (u32 (u32 (offset + sizeof_local_file_header) + lf_file_name_length r) + lf_extra_field_length r)).
  unfold entry_in. cbn. lia.
Qed.

Lemma zip_find_ok a name :
  zip_ok a →
  ∃ rc out, zip_archive_find_entry a name = Some (rc, out)
    ∧ match out with Some e => rc = 0 ∧ entry_in a e | None => rc = - EINVAL ∨ rc = - ENOENT end.
Proof.
  intros Ha. unfold zip_archive_find_entry.
  set (J (r : Z * option zip_entry) := match r.2 with Some e => r.1 = 0 ∧ entry_in a e | None => r.1 = - EINVAL end).
  destruct (for_loop_inv_break (λ _ s, word_ok s.1 ∧ s.2 = None)
              (λ s, match s.2 with Some r => J r | None => False end)
              (find_entry_body a name) 0 (za_cd_records a) (za_cd_offset a, None)) as ([o r] & -> & H).
  - destruct (zo_records _ Ha). lia.
  - intros i [offset r] Hi [Ho _]. cbn in Ho. unfold find_entry_body.
    rewrite check_access_spec by (done || (unfold word_ok, sizeof_cd_file_header; lia)).
    access; [|by eexists].
    destruct (read_cdfh_total (za_data a) offset) as (c & -> & Hn & Hoff);
      [apply Ha|unfold word_ok in Ho; lia|pose proof (zo_size _ Ha); lia|].
    cbn [mbind option_bind]. destruct (negb _); [by eexists|].
    rewrite check_access_spec by (done || apply u32_ok || (unfold word_ok; lia)). access; [|by eexists].
    destruct ((_ && _) && _) eqn:Em.
    + apply andb_true_iff in Em as [_ Em]. apply Z.eqb_eq in Em.
      pose proof (u32_range (offset + sizeof_cd_file_header)). destruct (zo_size _ Ha).
      rewrite aget_list_eq by lia. cbn [mbind option_bind]. case_bool_decide.
      * destruct (get_entry_ok a (cf_offset c) Ha Hoff) as (rc & out & -> & Hr). cbn [mbind option_bind].
        eexists. split; [done|]. cbn. unfold J. by destruct out.
      * eexists. split; [done|]. cbn. split; [apply u32_ok|done].
    + cbn [mbind option_bind]. eexists. split; [done|]. cbn. split; [apply u32_ok|done].
  - split; [apply Ha|done].
  - cbn [mbind option_bind]. destruct H as [[_ H]|H]; cbn in H.
    { subst r. cbn. eexists _, _. split; [done|]. by right. }
    destruct r as [[rc out]|]; [|done]. cbn. eexists _, _. split; [done|]. unfold J in H. cbn in H.
    destruct out; [done|by left].
Qed.

(** ** Well-formed archives *)

(** A file: the extra fields of its two headers may differ. *)
Record zfile : Type := mkZf {
  zf_name : list Z; zf_data : list Z; zf_compression : Z; zf_local_extra : list Z; zf_extra : list Z; zf_comment : list Z;
  zf_time : Z; zf_date : Z; zf_crc : Z; zf_uncompressed : Z;
}.

(** Section 4.3.7 of the specification of the format. *)
Definition local_bytes (f : zfile) : list Z :=
  le32 LOCAL_FILE_HEADER_MAGIC ++ le16 20 ++ le16 0 ++ le16 (zf_compression f) ++ le16 (zf_time f) ++ le16 (zf_date f)
  ++ le32 (zf_crc f) ++ le32 (zlen (zf_data f)) ++ le32 (zf_uncompressed f) ++ le16 (zlen (zf_name f))
  ++ le16 (zlen (zf_local_extra f)) ++ zf_name f ++ zf_local_extra f ++ zf_data f.

(** Section 4.3.12; [offset] is that of the local header. *)
Definition cd_bytes (offset : Z) (f : zfile) : list Z :=
  le32 CD_FILE_HEADER_MAGIC ++ le16 20 ++ le16 20 ++ le16 0 ++ le16 (zf_compression f) ++ le16 (zf_time f)
  ++ le16 (zf_date f) ++ le32 (zf_crc f) ++ le32 (zlen (zf_data f)) ++ le32 (zf_uncompressed f)
  ++ le16 (zlen (zf_name f)) ++ le16 (zlen (zf_extra f)) ++ le16 (zlen (zf_comment f)) ++ le16 0 ++ le16 0 ++ le32 0
  ++ le32 offset ++ zf_name f ++ zf_extra f ++ zf_comment f.

(** Section 4.3.16. *)
Definition eocd_bytes (records cd_size cd_offset : Z) (comment : list Z) : list Z :=
  le32 END_OF_CD_RECORD_MAGIC ++ le16 0 ++ le16 0 ++ le16 records ++ le16 records ++ le32 cd_size ++ le32 cd_offset
  ++ le16 (zlen comment) ++ comment.

Definition locals (fs : list zfile) : list Z := concat (map local_bytes fs).

Fixpoint central (offset : Z) (fs : list zfile) : list Z :=
  match fs with
  | [] => []
  | f :: fs' => cd_bytes offset f ++ central (offset + zlen (local_bytes f)) fs'
  end.

Definition archive_bytes (fs : list zfile) (comment : list Z) : list Z :=
  locals fs ++ central 0 fs ++ eocd_bytes (zlen fs) (zlen (central 0 fs)) (zlen (locals fs)) comment.

Definition zfile_ok (f : zfile) : Prop :=
  bytes_ok (zf_name f ++ zf_data f ++ zf_local_extra f ++ zf_extra f ++ zf_comment f)
  ∧ zlen (zf_name f) < 2 ^ 16 ∧ zlen (zf_local_extra f) < 2 ^ 16 ∧ zlen (zf_extra f) < 2 ^ 16
  ∧ zlen (zf_comment f) < 2 ^ 16 ∧ 0 <= zf_compression f < 2 ^ 16.

(** The fields of a header whose bytes are located. *)
Ltac located_fields H :=
  repeat match goal with
  | |- context [ld_le32 ?data (?o + ?c)] =>
      rewrite (ld_le32_located data o _ c _ H ltac:(lia) ltac:(rewrite !length_app; cbn [length le16 le32]; lia) eq_refl)
  | |- context [ld_le16 ?data (?o + ?c)] =>
      rewrite (ld_le16_located data o _ c _ H ltac:(lia) ltac:(rewrite !length_app; cbn [length le16 le32]; lia) eq_refl)
  end; cbn [mbind option_bind].

Lemma read_lfh_located data o f :
  located data o (local_bytes f) →
  read_local_file_header data o = Some (mkLfh LOCAL_FILE_HEADER_MAGIC 20 0 (u16 (zf_compression f)) (u16 (zf_time f))
    (u16 (zf_date f)) (u32 (zf_crc f)) (u32 (zlen (zf_data f))) (u32 (zf_uncompressed f)) (u16 (zlen (zf_name f)))
    (u16 (zlen (zf_local_extra f)))).
Proof.
  intros H. unfold read_local_file_header. replace (ld_le32 data o) with (ld_le32 data (o + 0)) by (f_equal; lia).
  unfold local_bytes in H. located_fields H. done.
Qed.

Lemma read_cdfh_located data o off f :
  located data o (cd_bytes off f) →
  read_cd_file_header data o = Some (mkCdfh CD_FILE_HEADER_MAGIC 20 20 0 (u16 (zf_compression f)) (u16 (zf_time f))
    (u16 (zf_date f)) (u32 (zf_crc f)) (u32 (zlen (zf_data f))) (u32 (zf_uncompressed f)) (u16 (zlen (zf_name f)))
    (u16 (zlen (zf_extra f))) (u16 (zlen (zf_comment f))) 0 0 0 (u32 off)).
Proof.
  intros H. unfold read_cd_file_header. replace (ld_le32 data o) with (ld_le32 data (o + 0)) by (f_equal; lia).
  unfold cd_bytes in H. located_fields H. done.
Qed.

Lemma read_eocd_located data o n size off comment :
  located data o (eocd_bytes n size off comment) →
  read_end_of_cd_record data o
  = Some (mkEocd END_OF_CD_RECORD_MAGIC 0 0 (u16 n) (u16 n) (u32 size) (u32 off) (u16 (zlen comment))).
Proof.
  intros H. unfold read_end_of_cd_record. replace (ld_le32 data o) with (ld_le32 data (o + 0)) by (f_equal; lia).
  unfold eocd_bytes in H. located_fields H. done.
Qed.

Lemma length_local f : zlen (local_bytes f) = 30 + zlen (zf_name f) + zlen (zf_local_extra f) + zlen (zf_data f).
Proof. unfold local_bytes. rewrite !length_app. cbn [length le16 le32]. lia. Qed.

Lemma length_cd off f : zlen (cd_bytes off f) = 46 + zlen (zf_name f) + zlen (zf_extra f) + zlen (zf_comment f).
Proof. unfold cd_bytes. rewrite !length_app. cbn [length le16 le32]. lia. Qed.

Lemma length_eocd n size off comment : zlen (eocd_bytes n size off comment) = 22 + zlen comment.
Proof. unfold eocd_bytes. rewrite !length_app. cbn [length le16 le32]. lia. Qed.

(** The variable parts of the two headers. *)
Lemma local_parts data o f :
  located data o (local_bytes f) →
  located data (o + 30) (zf_name f) ∧ located data (o + 30 + zlen (zf_name f) + zlen (zf_local_extra f)) (zf_data f).
Proof.
  unfold local_bytes. intros H. do 11 apply located_app in H as [_ H]. apply located_app in H as [Hn H].
  apply located_app in H as [_ H]. cbn [length le16 le32] in Hn, H.
  split; [refine (eq_rect _ (λ o, located data o _) Hn _ _); lia|refine (eq_rect _ (λ o, located data o _) H _ _); lia].
Qed.

Lemma cd_name data o off f : located data o (cd_bytes off f) → located data (o + 46) (zf_name f).
Proof.
  unfold cd_bytes. intros H. do 17 apply located_app in H as [_ H]. apply located_app in H as [H _].
  cbn [length le16 le32] in H. refine (eq_rect _ (λ o, located data o _) H _ _). lia.
Qed.

(** ** The search *)

(** The entry the search returns for a file whose local header is at [o]. *)
Definition entry_of (o : Z) (f : zfile) : zip_entry :=
  let d := o + 30 + zlen (zf_name f) + zlen (zf_local_extra f) in
  mkEntry (zf_compression f) (o + 30) (zlen (zf_name f)) d (zlen (zf_data f)) d.

Lemma get_entry_located a o f :
  zip_ok a → zfile_ok f → located (za_data a) o (local_bytes f) → get_entry_at_offset a o = Some (0, Some (entry_of o f)).
Proof.
  intros Ha (_ & Hn & Hle & _ & _ & Hc) H. pose proof (located_range _ _ _ H) as Hr. rewrite length_local in Hr.
  destruct (zo_size _ Ha) as [Hl Hs]. unfold get_entry_at_offset, local_file_header_at_offset.
  rewrite check_access_spec by (done || (unfold word_ok, sizeof_local_file_header; lia)). unfold sizeof_local_file_header.
  access; [|lia]. rewrite (read_lfh_located _ o f H). cbn. rewrite !u16_small, (u32_small (zlen (zf_data f))) by (unfold word_ok; lia).
  rewrite (u32_small (o + 30)) by (unfold word_ok; lia).
  rewrite check_access_spec by (done || (unfold word_ok; lia)). access; [|lia].
  rewrite (u32_small (o + 30 + _)) by (unfold word_ok; lia).
  rewrite check_access_spec by (done || (unfold word_ok; lia)). access; [|lia].
  rewrite (u32_small (o + 30 + _ + _)) by (unfold word_ok; lia).
  rewrite check_access_spec by (done || (unfold word_ok; lia)). access; [done|lia].
Qed.

(** One record of the central directory. *)
Lemma find_entry_step a o off f name i r :
  zip_ok a → zfile_ok f → word_ok off → located (za_data a) o (cd_bytes off f) →
  located (za_data a) off (local_bytes f) →
  find_entry_body a name i (o, r)
  = Some (if bool_decide (zf_name f = name) then Break (o + 46, Some (0, Some (entry_of off f)))
          else Next (o + zlen (cd_bytes off f), None)).
Proof.
  intros Ha Hf Ho H Hloc. pose proof Hf as (_ & Hn & _ & He & Hc & _). pose proof (located_range _ _ _ H) as Hr.
  rewrite length_cd in Hr |- *. destruct (zo_size _ Ha) as [Hl Hs]. unfold find_entry_body.
  rewrite check_access_spec by (done || (unfold word_ok, sizeof_cd_file_header; lia)). unfold sizeof_cd_file_header.
  access; [|lia]. rewrite (read_cdfh_located _ o off f H). cbn [mbind option_bind cf_magic cf_file_name_length cf_flags
    cf_extra_field_length cf_file_comment_length cf_offset]. rewrite Z.eqb_refl. cbn [negb].
  rewrite !u16_small, (u32_small off), (u32_small (o + 46)) by (done || unfold word_ok; lia).
  rewrite check_access_spec by (done || (unfold word_ok; lia)). access; [|lia].
  change ((Z.land 0 FLAG_ENCRYPTED =? 0) && (Z.land 0 FLAG_HAS_DATA_DESCRIPTOR =? 0)) with true. cbn [andb].
  rewrite (u32_small (o + 46 + zlen (zf_name f))) by (unfold word_ok; lia).
  rewrite (u32_small (_ + zlen (zf_extra f))) by (unfold word_ok; lia).
  rewrite (u32_small (_ + zlen (zf_comment f))) by (unfold word_ok; lia).
  destruct (Z.eqb_spec (zlen name) (zlen (zf_name f))) as [Hlen|Hlen].
  - replace (length name) with (length (zf_name f)) by lia. rewrite (located_list _ _ _ (cd_name _ _ _ _ H)). cbn [mbind option_bind].
    case_bool_decide; [by rewrite (get_entry_located a off f Ha Hf Hloc)|]. do 3 f_equal. lia.
  - cbn [mbind option_bind]. rewrite bool_decide_false by (intros <-; done). do 3 f_equal. lia.
Qed.

Definition has_name (name : list Z) (f : zfile) : bool := bool_decide (zf_name f = name).

Lemma find_entries a name fs : ∀ o off i,
  zip_ok a → Forall zfile_ok fs → located (za_data a) o (central off fs) → located (za_data a) off (locals fs) →
  ∃ o' r, for_up (length fs) i (find_entry_body a name) (o, None) = Some (o', r)
    ∧ match List.find (has_name name) fs with
      | Some f => ∃ off', located (za_data a) off' (local_bytes f) ∧ r = Some (0, Some (entry_of off' f))
      | None => r = None
      end.
Proof.
  induction fs as [|f fs IH]; intros o off i Ha Hfs Hc Hl; [by exists o, None|].
  apply Forall_cons_1 in Hfs as [Hf Hfs]. cbn [central] in Hc. unfold locals in Hl. cbn [map concat] in Hl.
  apply located_app in Hc as [Hcf Hc]. apply located_app in Hl as [Hlf Hl].
  assert (word_ok off) as Hoff.
  { pose proof (located_range _ _ _ Hlf) as Hr. rewrite length_local in Hr. destruct (zo_size _ Ha). unfold word_ok. lia. }
  cbn [length for_up List.find]. rewrite (find_entry_step a o off f name i None Ha Hf Hoff Hcf Hlf). unfold has_name at 1.
  case_bool_decide; cbn [mbind option_bind].
  - eexists _, _. split; [done|]. by exists off.
  - eapply IH; [done|done|exact Hc|exact Hl].
Qed.

(** What an archive has to satisfy to be found: no later place of the file
    looks like the end record. *)
Definition archive_ok (fs : list zfile) (comment : list Z) : Prop :=
  Forall zfile_ok fs ∧ bytes_ok comment ∧ zlen fs < 2 ^ 16 ∧ zlen comment < 2 ^ 16
  ∧ zlen (archive_bytes fs comment) < 2 ^ 32 ∧ 22 < zlen (archive_bytes fs comment)
  ∧ ∀ o, zlen (locals fs) + zlen (central 0 fs) < o →
      ld_le32 (archive_bytes fs comment) o ≠ Some END_OF_CD_RECORD_MAGIC.

Lemma archive_bytes_ok fs comment : archive_ok fs comment → bytes_ok (archive_bytes fs comment).
Proof.
  intros (Hfs & Hc & _). unfold archive_bytes. rewrite !Forall_app. split_and!.
  - unfold locals. clear - Hfs. induction Hfs as [|f fs Hf _ IH]; cbn [map concat]; [constructor|]. apply Forall_app. split; [|done].
    destruct Hf as (Hb & _). rewrite !Forall_app in Hb. unfold local_bytes. rewrite !Forall_app.
    split_and!; (apply bytes_ok_le16 || apply bytes_ok_le32 || apply Hb).
  - clear - Hfs. generalize 0. induction Hfs as [|f fs Hf _ IH]; intros o; cbn [central]; [constructor|]. apply Forall_app. split; [|done].
    destruct Hf as (Hb & _). rewrite !Forall_app in Hb. unfold cd_bytes. rewrite !Forall_app.
    split_and!; (apply bytes_ok_le16 || apply bytes_ok_le32 || apply Hb).
  - unfold eocd_bytes. rewrite !Forall_app. split_and!; (apply bytes_ok_le16 || apply bytes_ok_le32 || done).
Qed.

(** ** The end record *)

Lemma try_parse_located fs comment :
  archive_ok fs comment → let data := archive_bytes fs comment in
  try_parse_end_of_cd (mkZip data (zlen data) 0 0) (zlen (locals fs) + zlen (central 0 fs))
  = Some (0, mkZip data (zlen data) (zlen (locals fs)) (zlen fs)).
Proof.
  intros Hok data. pose proof (archive_bytes_ok fs comment Hok) as Hbytes. destruct Hok as (_ & _ & Hn & Hc & Hs & _ & _).
  assert (zip_ok (mkZip data (zlen data) 0 0)) as Ha by (constructor; cbn; done || (unfold word_ok; lia) || lia).
  assert (located data (zlen (locals fs) + zlen (central 0 fs))
            (eocd_bytes (zlen fs) (zlen (central 0 fs)) (zlen (locals fs)) comment)) as Hloc.
  { exists (locals fs ++ central 0 fs), []. rewrite app_nil_r, length_app, <- app_assoc. split; [done|lia]. }
  pose proof (located_range _ _ _ Hloc) as Hr. rewrite length_eocd in Hr.
  assert (zlen data = zlen (locals fs) + zlen (central 0 fs) + (22 + zlen comment)) as Hlen.
  { unfold data, archive_bytes. rewrite !length_app. pose proof (length_eocd (zlen fs) (zlen (central 0 fs)) (zlen (locals fs)) comment). lia. }
  fold data in Hs. unfold try_parse_end_of_cd. unfold sizeof_end_of_cd_record.
  rewrite check_access_spec by (done || (unfold word_ok; lia)). cbn [za_size za_data]. access; [|lia].
  rewrite (read_eocd_located _ _ _ _ _ _ Hloc). cbn [mbind option_bind ecd_magic comment_length ecd_records this_disk cd_disk
    cd_records_total ecd_offset ecd_size]. rewrite Z.eqb_refl. cbn [negb].
  rewrite !u16_small, !u32_small by (unfold word_ok; lia). rewrite u64_small by lia.
  rewrite Hlen at 1. rewrite Z.add_assoc, !Z.eqb_refl. cbn [negb orb Z.eqb].
  rewrite check_access_spec by (done || (unfold word_ok; lia)). cbn [za_size]. access; [done|lia].
Qed.

(** Behind the end record nothing is accepted. *)
Lemma try_parse_elsewhere a o :
  zip_ok a → word_ok o → ld_le32 (za_data a) o ≠ Some END_OF_CD_RECORD_MAGIC →
  try_parse_end_of_cd a o = Some (- EINVAL, a).
Proof.
  intros Ha Ho Hm. unfold try_parse_end_of_cd. unfold sizeof_end_of_cd_record.
  rewrite check_access_spec by (done || (unfold word_ok; lia)). access; [|done].
  destruct (read_eocd_total (za_data a) o) as (r & E & _); [apply Ha|apply Ho|pose proof (zo_size _ Ha); unfold sizeof_end_of_cd_record; lia|].
  rewrite E. cbn [mbind option_bind]. destruct (Z.eqb_spec (ecd_magic r) END_OF_CD_RECORD_MAGIC) as [Em|]; [|done].
  exfalso. apply Hm. rewrite <- Em. unfold read_end_of_cd_record in E. opt_inv E. by subst r.
Qed.

Lemma find_cd_body_at limit offset a :
  0 <= offset → limit < offset → word_ok offset →
  find_cd_body limit (offset, - EINVAL, a)
  = '(rc, a) ← try_parse_end_of_cd a offset;
    if rc =? - ENOTSUP then Some (Break (offset, rc, a)) else Some (Next (offset - 1, rc, a)).
Proof.
  intros H0 Hl Hw. unfold find_cd_body. rewrite (proj2 (Z.leb_le _ _)), (proj2 (Z.ltb_lt _ _)), u32_small by done. done.
Qed.

Lemma find_cd_search a a' eo limit n : ∀ fuel,
  zip_ok a → 0 <= eo → limit < eo → eo + Z.of_nat n < 2 ^ 32 → (n + 1 < fuel)%nat →
  (∀ o, eo < o → ld_le32 (za_data a) o ≠ Some END_OF_CD_RECORD_MAGIC) →
  try_parse_end_of_cd a eo = Some (0, a') →
  while_loop fuel (find_cd_body limit) (eo + Z.of_nat n, - EINVAL, a) = Some (eo - 1, 0, a').
Proof.
  induction n as [|n IH]; intros fuel Ha He Hl Hn Hf Hm Hp; (destruct fuel as [|fuel]; [lia|]); cbn [while_loop];
    rewrite find_cd_body_at by (lia || (unfold word_ok; lia)).
  - rewrite Z.add_0_r, Hp. cbn [mbind option_bind]. change (0 =? - ENOTSUP) with false. cbv iota.
    destruct fuel as [|fuel]; [lia|]. cbn [while_loop mbind option_bind].
    assert (find_cd_body limit (eo - 1, 0, a') = Some (Break (eo - 1, 0, a'))) as ->; [|done].
    unfold find_cd_body. cbn [Z.eqb negb]. by rewrite andb_false_r.
  - rewrite (try_parse_elsewhere a) by (done || (unfold word_ok; lia) || (apply Hm; lia)).
    cbn [mbind option_bind]. change (- EINVAL =? - ENOTSUP) with false. cbv iota.
    replace (eo + Z.of_nat (S n) - 1) with (eo + Z.of_nat n) by lia. apply IH; (done || lia).
Qed.

(** ** The theorems *)

#[global] Instance resource_eq_dec : EqDecision resource.
Proof. solve_decision. Defined.

(** [held] without the first [r], if it is there. *)
Fixpoint give_back (r : resource) (held : list resource) : option (list resource) :=
  match held with
  | [] => None
  | x :: held => if decide (x = r) then Some held else held ← give_back r held; Some (x :: held)
  end.

(** What is held after a sequence of calls; [None] when something is given back
    that is not held. *)
Fixpoint replay (held : list resource) (es : list event) : option (list resource) :=
  match es with
  | [] => Some held
  | Acquire r :: es => replay (r :: held) es
  | Release r :: es => held ← give_back r held; replay held es
  end.

Definition acquired (es : list event) : list resource := omap (λ e, match e with Acquire r => Some r | Release _ => None end) es.

Definition too_big (lseek_size : option Z) : Prop := match lseek_size with None => True | Some size => 2 ^ 32 <= size end.

(** The causes of an error, with the error and what was acquired before. *)
Inductive open_fails (fd_errno lseek_size : option Z) (map : Z + list Z) (malloc : bool) : Z → list resource → Prop :=
| fails_open e : fd_errno = Some e → open_fails fd_errno lseek_size map malloc (- e) []
| fails_size : fd_errno = None → too_big lseek_size → open_fails fd_errno lseek_size map malloc (- EINVAL) [Fd]
| fails_mmap e : fd_errno = None → ¬ too_big lseek_size → map = inl e → open_fails fd_errno lseek_size map malloc (- e) [Fd]
| fails_malloc data : fd_errno = None → ¬ too_big lseek_size → map = inr data → malloc = false →
    open_fails fd_errno lseek_size map malloc (- ENOMEM) [Fd; Mapping]
| fails_cd data rc a : fd_errno = None → ¬ too_big lseek_size → map = inr data → malloc = true →
    find_cd (mkZip data (zlen data) 0 0) = Some (rc, a) → rc = - EINVAL ∨ rc = - ENOTSUP →
    open_fails fd_errno lseek_size map malloc rc [Fd; Mapping; Archive].

(** C27: on any bytes, of any file, opening an archive and looking up any name
    make no read outside the file; an entry that is found has its name and its
    data inside the file. An error of the open has its cause, and everything
    that was acquired before it, the descriptor, the mapping and the archive,
    has been given back, once; an archive that is returned holds the mapping and
    its block and nothing else, which closing it gives back. *)
Theorem zip_safe fd_errno lseek_size map malloc name :
  (∀ data, map = inr data → bytes_ok data ∧ lseek_size = Some (zlen data)) →
  ∃ r trace, zip_archive_open fd_errno lseek_size map malloc = Some (r, trace)
    ∧ match r with
      | inl err => open_fails fd_errno lseek_size map malloc err (acquired trace) ∧ replay [] trace = Some []
      | inr a => fd_errno = None ∧ malloc = true ∧ map = inr (za_data a) ∧ zlen (za_data a) < 2 ^ 32
          ∧ find_cd (mkZip (za_data a) (zlen (za_data a)) 0 0) = Some (0, a)
          ∧ acquired trace = [Fd; Mapping; Archive] ∧ replay [] trace = Some [Archive; Mapping] ∧ replay [] (trace ++ zip_archive_close) = Some []
          ∧ ∃ rc out, zip_archive_find_entry a name = Some (rc, out)
          ∧ match out with Some e => rc = 0 ∧ entry_in a e | None => rc = - EINVAL ∨ rc = - ENOENT end
      end.
Proof.
  intros Hmap. unfold zip_archive_open. destruct fd_errno as [e|]; [eexists _, _; split; [done|]; split; [by constructor|done]|].
  destruct lseek_size as [size|]; [|eexists _, _; split; [done|]; split; [by constructor|done]].
  destruct (Z.ltb_spec (2 ^ 32 - 1) size) as [Hs|Hs].
  { eexists _, _. split; [done|]. split; [apply fails_size; [done|cbn [too_big]; lia]|done]. }
  assert (¬ too_big (Some size)) as Hb by (cbn [too_big]; lia).
  destruct map as [e|data]; [eexists _, _; split; [done|]; split; [by apply fails_mmap|done]|].
  destruct (Hmap data eq_refl) as [Hbytes [= ->]].
  destruct malloc; cbn [negb]; [|eexists _, _; split; [done|]; split; [by eapply fails_malloc|done]].
  destruct (find_cd_ok (mkZip data (zlen data) 0 0)) as (rc & a & E & Ha & Hd & Hrc).
  { constructor; cbn; (done || (unfold word_ok; lia) || lia). }
  rewrite E. cbn [mbind option_bind]. cbn [za_data] in Hd. destruct (Z.eqb_spec rc 0) as [->|Hne]; cbn [negb].
  - eexists _, _. split; [done|]. cbn iota. rewrite Hd. split_and!; (done || lia || by apply zip_find_ok).
  - eexists _, _. split; [done|]. split; [|done]. eapply (fails_cd _ _ _ _ data rc a); try done. destruct Hrc; [done|done].
Qed.

(** C28: in an archive written as the format asks, a lookup finds the first file
    with the name: its compression method, and offsets of its name and of its
    data as they were written; a name that no file has gives [-ENOENT]. *)
Theorem zip_find_written fs comment name :
  archive_ok fs comment → let data := archive_bytes fs comment in
  ∃ a, find_cd (mkZip data (zlen data) 0 0) = Some (0, a) ∧ za_data a = data
    ∧ match List.find (has_name name) fs with
      | None => zip_archive_find_entry a name = Some (- ENOENT, None)
      | Some f => ∃ e, zip_archive_find_entry a name = Some (0, Some e)
          ∧ ze_compression e = zf_compression f ∧ ze_data_offset e = ze_data e
          ∧ aget_list data (ze_name e) (Z.to_nat (ze_name_length e)) = Some name
          ∧ aget_list data (ze_data e) (Z.to_nat (ze_data_length e)) = Some (zf_data f)
      end.
Proof.
  intros Hok data. pose proof (try_parse_located fs comment Hok) as Hp. pose proof (archive_bytes_ok fs comment Hok) as Hb.
  destruct Hok as (Hfs & _ & Hn & Hc & Hs & H22 & Hm). cbv zeta in Hp. fold data in Hp, Hb, Hs, H22, Hm.
  assert (zlen data = zlen (locals fs) + zlen (central 0 fs) + zlen comment + 22) as Hlen.
  { unfold data, archive_bytes. rewrite !length_app. pose proof (length_eocd (zlen fs) (zlen (central 0 fs)) (zlen (locals fs)) comment). lia. }
  exists (mkZip data (zlen data) (zlen (locals fs)) (zlen fs)). split_and!; [|done|].
  - unfold find_cd. cbn [za_size]. unfold sizeof_end_of_cd_record. rewrite (proj2 (Z.leb_gt _ _)) by lia.
    change (Z.shiftl 1 16) with (2 ^ 16).
    rewrite Hlen at 2. replace (_ + 22 - 22) with (zlen (locals fs) + zlen (central 0 fs) + zlen comment) by lia.
    rewrite (find_cd_search _ (mkZip data (zlen data) (zlen (locals fs)) (zlen fs))); [done|..|exact Hp].
    all: try lia. 2: by intros o Ho; apply Hm. constructor; cbn; (done || (unfold word_ok; lia) || lia).
  - unfold zip_archive_find_entry. cbn [za_cd_records za_cd_offset]. unfold for_loop. rewrite Z.sub_0_r, Nat2Z.id.
    destruct (find_entries (mkZip data (zlen data) (zlen (locals fs)) (zlen fs)) name fs (zlen (locals fs)) 0 0) as (o' & r & -> & H).
    + constructor; cbn; (done || (unfold word_ok; lia) || lia).
    + done.
    + cbn. exists (locals fs), (eocd_bytes (zlen fs) (zlen (central 0 fs)) (zlen (locals fs)) comment). done.
    + cbn. by eexists [], _.
    + cbn [mbind option_bind]. destruct (List.find (has_name name) fs) as [f|] eqn:Ef; [|by rewrite H].
      destruct H as (off & Hloc & ->). apply find_some in Ef as [_ Ef]. unfold has_name in Ef. apply bool_decide_eq_true in Ef.
      destruct (local_parts _ _ _ Hloc) as [Hln Hld]. eexists. split; [done|]. cbn. rewrite !Nat2Z.id, <- Ef.
      split_and!; [done|done|by apply located_list|by apply located_list].
Qed.

(** Two files, the second with extra fields and a comment. *)
Definition zip_files : list zfile :=
  [mkZf [97] [1; 2; 3] 0 [] [] [] 0 0 0 3; mkZf [98; 99] [80; 75; 5; 6] 8 [7] [8; 9] [33] 1 2 3 4].

Lemma zip_files_ok : archive_ok zip_files [33; 33].
Proof.
  assert (∀ o, 0 <= o → ld_le32 (archive_bytes zip_files [33; 33]) o = Some END_OF_CD_RECORD_MAGIC →
    o <= zlen (locals zip_files) + zlen (central 0 zip_files)) as Hm.
  { intros o Ho E. assert (o + 3 < zlen (archive_bytes zip_files [33; 33])) as Hr.
    { unfold ld_le32 in E. opt_inv E. apply aget_range in E3. lia. }
    assert (forallb (λ k, match ld_le32 (archive_bytes zip_files [33; 33]) (Z.of_nat k) with
                          | Some x => negb (x =? END_OF_CD_RECORD_MAGIC) || (Z.of_nat k <=? zlen (locals zip_files) + zlen (central 0 zip_files))
                          | None => true end) (seq 0 300) = true) as Hall by (vm_compute; reflexivity).
    rewrite forallb_forall in Hall. specialize (Hall (Z.to_nat o)).
    rewrite Z2Nat.id, E, Z.eqb_refl in Hall by done. cbn [negb orb] in Hall. apply Z.leb_le, Hall, in_seq.
    change (zlen (archive_bytes zip_files [33; 33])) with 193 in Hr. lia. }
  split_and!; try done.
  - repeat (apply List.Forall_cons; [split_and!; try done; by apply bytes_ok_dec|]). apply List.Forall_nil.
  - by apply bytes_ok_dec.
  - intros o Ho E. enough (o <= zlen (locals zip_files) + zlen (central 0 zip_files)) by lia. apply Hm; [|done].
    change (zlen (locals zip_files) + zlen (central 0 zip_files)) with 169 in Ho. lia.
Qed.

Lemma zip_find_written_witness :
  ∃ a, find_cd (mkZip (archive_bytes zip_files [33; 33]) (zlen (archive_bytes zip_files [33; 33])) 0 0) = Some (0, a)
    ∧ za_data a = archive_bytes zip_files [33; 33]
    ∧ ∃ e, zip_archive_find_entry a [98; 99] = Some (0, Some e) ∧ ze_compression e = 8 ∧ ze_data_offset e = ze_data e
        ∧ aget_list (archive_bytes zip_files [33; 33]) (ze_name e) (Z.to_nat (ze_name_length e)) = Some [98; 99]
        ∧ aget_list (archive_bytes zip_files [33; 33]) (ze_data e) (Z.to_nat (ze_data_length e)) = Some [80; 75; 5; 6].
Proof. exact (zip_find_written zip_files [33; 33] [98; 99] zip_files_ok). Defined.

(** The archive with the two files is opened, its second file is found, and the
    archive is closed; a file of five bytes is refused. *)
Lemma zip_safe_witness :
  (∃ a trace, zip_archive_open None (Some 193) (inr (archive_bytes zip_files [33; 33])) true = Some (inr a, trace)
    ∧ replay [] trace = Some [Archive; Mapping] ∧ replay [] (trace ++ zip_archive_close) = Some []
    ∧ ∃ e, zip_archive_find_entry a [98; 99] = Some (0, Some e) ∧ entry_in a e)
  ∧ zip_archive_open None (Some 5) (inr [80; 75; 5; 6; 0]) true
    = Some (inl (- EINVAL), [Acquire Fd; Acquire Mapping; Release Fd; Acquire Archive; Release Mapping; Release Archive]).
Proof.
  split.
  - destruct (zip_safe None (Some 193) (inr (archive_bytes zip_files [33; 33])) true [98; 99]) as (r & trace & E & H).
    { intros data [= <-]. split; [by apply archive_bytes_ok, zip_files_ok|vm_compute; reflexivity]. }
    destruct r as [err|a]; [exfalso; vm_compute in E; discriminate E|]. destruct H as (_ & _ & _ & _ & _ & _ & H1 & H2 & rc & out & E2 & H3).
    exists a, trace. do 3 (split; [done|]). vm_compute in E. injection E as <- <-. vm_compute in E2. injection E2 as <- <-.
    destruct H3 as [_ H3]. eexists. split; [vm_compute; reflexivity|exact H3].
  - destruct (zip_safe None (Some 5) (inr [80; 75; 5; 6; 0]) true [97]) as (r & trace & E & _).
    { intros data [= <-]. split; [by apply bytes_ok_dec|reflexivity]. }
    rewrite E. vm_compute in E. injection E as <- <-. reflexivity.
Defined.
