(* ===== verification/Nlattr.v ===== *)
(** * Netlink attributes ([lib/libbpf/src/nlattr.c], [nlattr.h])

    A message is a list of bytes; a pointer into it is an offset, and a read or
    write outside of it is a fault.  [struct nlattr] is a 16-bit length that
    counts its own 4 bytes, and a 16-bit type.  The request of
    [__bpf_set_link_xdp_fd_replace] ([netlink.c]) is built with the same
    functions; sending it is a parameter. *)

From S2P Require Import Prelude.

Definition EINVAL : Z := 22.
Definition EMSGSIZE : Z := 90.

(** ** Alignment ([include/uapi/linux/netlink.h]) *)

Definition NLMSG_ALIGNTO : Z := 4.
Definition NLMSG_ALIGN (len : Z) : Z := Z.land (u32 (u32 (len + NLMSG_ALIGNTO) - 1)) (not32 (NLMSG_ALIGNTO - 1)).
Definition sizeof_nlmsghdr : Z := 16.
Definition NLMSG_HDRLEN : Z := s32 (NLMSG_ALIGN sizeof_nlmsghdr).
Definition NLMSG_LENGTH (len : Z) : Z := len + NLMSG_HDRLEN.

Definition NLA_ALIGNTO : Z := 4.
Definition NLA_ALIGN (len : Z) : Z := Z.land (len + NLA_ALIGNTO - 1) (Z.lnot (NLA_ALIGNTO - 1)).
Definition sizeof_nlattr : Z := 4.
Definition NLA_HDRLEN : Z := NLA_ALIGN sizeof_nlattr.
Definition NLA_F_NESTED : Z := Z.shiftl 1 15.
Definition NLA_F_NET_BYTEORDER : Z := Z.shiftl 1 14.
Definition NLA_TYPE_MASK : Z := Z.lnot (Z.lor NLA_F_NESTED NLA_F_NET_BYTEORDER).

(** ** Attributes *)

Definition LIBBPF_NLA_UNSPEC : Z := 0.
Definition LIBBPF_NLA_U8 : Z := 1.
Definition LIBBPF_NLA_U16 : Z := 2.
Definition LIBBPF_NLA_U32 : Z := 3.
Definition LIBBPF_NLA_U64 : Z := 4.
Definition LIBBPF_NLA_STRING : Z := 5.
Definition LIBBPF_NLA_FLAG : Z := 6.
Definition LIBBPF_NLA_MSECS : Z := 7.
Definition LIBBPF_NLA_NESTED : Z := 8.
Definition LIBBPF_NLA_TYPE_MAX : Z := 8.

Record libbpf_nla_policy : Type := mkPolicy { pt_type : Z; pt_minlen : Z; pt_maxlen : Z }.

(** Indexed by the type; the entries that are not named are 0. *)
Definition nla_attr_minlen : list Z := [0; 1; 2; 4; 8; 1; 0; 0; 0].

(** [nla->nla_len] and [nla->nla_type]. *)
Definition nla_len_of (msg : list Z) (nla : Z) : option Z := ld_le16 msg nla.
Definition nla_type_of (msg : list Z) (nla : Z) : option Z := ld_le16 msg (nla + 2).

Definition libbpf_nla_data (nla : Z) : Z := nla + NLA_HDRLEN.
Definition nla_data (nla : Z) : Z := nla + NLA_HDRLEN.

Definition libbpf_nla_len (msg : list Z) (nla : Z) : option Z := l ← nla_len_of msg nla; Some (l - NLA_HDRLEN).

Definition libbpf_nla_getattr_u8 (msg : list Z) (nla : Z) : option Z := aget msg (libbpf_nla_data nla).
Definition libbpf_nla_getattr_u16 (msg : list Z) (nla : Z) : option Z := ld_le16 msg (libbpf_nla_data nla).
Definition libbpf_nla_getattr_u32 (msg : list Z) (nla : Z) : option Z := ld_le32 msg (libbpf_nla_data nla).
Definition libbpf_nla_getattr_u64 (msg : list Z) (nla : Z) : option Z :=
  lo ← ld_le32 msg (libbpf_nla_data nla); hi ← ld_le32 msg (libbpf_nla_data nla + 4); Some (lo + hi * 2 ^ 32).
(** A pointer to the characters. *)
Definition libbpf_nla_getattr_str (nla : Z) : Z := libbpf_nla_data nla.

Definition nla_next (msg : list Z) (nla remaining : Z) : option (Z * Z) :=
  l ← nla_len_of msg nla;
  let totlen := NLA_ALIGN l in
  Some (nla + totlen, remaining - totlen).

Definition nla_ok (msg : list Z) (nla remaining : Z) : option bool :=
  if remaining <? sizeof_nlattr then Some false else
  l ← nla_len_of msg nla;
  Some ((sizeof_nlattr <=? l) && (l <=? remaining)).

Definition nla_type (msg : list Z) (nla : Z) : option Z := t ← nla_type_of msg nla; Some (Z.land t NLA_TYPE_MASK).

Definition validate_nla (msg : list Z) (nla maxtype : Z) (policy : list libbpf_nla_policy) : option Z :=
  type ← nla_type msg nla;
  if (type <? 0) || (maxtype <? type) then Some 0 else
  pt ← aget policy type;
  if LIBBPF_NLA_TYPE_MAX <? pt_type pt then Some 0 else
  minlen ← (if negb (pt_minlen pt =? 0) then Some (pt_minlen pt)
            else if negb (pt_type pt =? LIBBPF_NLA_UNSPEC) then aget nla_attr_minlen (pt_type pt)
            else Some 0);
  len ← libbpf_nla_len msg nla;
  if u32 len <? minlen then Some (-1) else
  if negb (pt_maxlen pt =? 0) && (pt_maxlen pt <? len) then Some (-1) else
  if pt_type pt =? LIBBPF_NLA_STRING then
    c ← aget msg (libbpf_nla_data nla + (len - 1));
    Some (if negb (c =? 0) then -1 else 0)
  else Some 0.

(** The loop on [(nla, rem, tb)] and, when it was left by [goto], [err]. *)
Definition parse_body (msg : list Z) (maxtype : Z) (policy : option (list libbpf_nla_policy))
    (s : Z * Z * list (option Z) * option Z) : option (ctl (Z * Z * list (option Z) * option Z)) :=
  let '(nla, rem, tb, _) := s in
  ok ← nla_ok msg nla rem;
  if negb ok then Some (Break s) else
  type ← nla_type msg nla;
  next ← nla_next msg nla rem;
  if maxtype <? type then Some (Next (next, tb, None)) else
  err ← (match policy with Some policy => validate_nla msg nla maxtype policy | None => Some 0 end);
  if err <? 0 then Some (Break (nla, rem, tb, Some err)) else
  tb ← aset tb type (Some nla);
  Some (Next (next, tb, None)).

(** The result and [tb], whose entries are NULL or offsets.  Every attribute
    takes at least 4 bytes. *)
Definition libbpf_nla_parse (msg : list Z) (maxtype head len : Z) (policy : option (list libbpf_nla_policy))
    : option (Z * list (option Z)) :=
  '(_, _, tb, err) ← while_loop (Z.to_nat (Z.max 0 len / 4 + 2)) (parse_body msg maxtype policy)
                       (head, len, replicate (Z.to_nat (maxtype + 1)) None, None);
  Some (default 0 err, tb).

Definition libbpf_nla_parse_nested (msg : list Z) (maxtype nla : Z) (policy : option (list libbpf_nla_policy))
    : option (Z * list (option Z)) :=
  len ← libbpf_nla_len msg nla;
  libbpf_nla_parse msg maxtype (libbpf_nla_data nla) len policy.

(** ** Error messages *)

Definition NLM_F_CAPPED : Z := 0x100.
Definition NLM_F_ACK_TLVS : Z := 0x200.
Definition NLMSGERR_ATTR_MSG : Z := 1.
Definition NLMSGERR_ATTR_OFFS : Z := 2.
Definition NLMSGERR_ATTR_MAX : Z := 3.
Definition sizeof_nlmsgerr : Z := 20.

Definition nlmsg_len (msg : list Z) (nlh : Z) : option Z := l ← ld_le32 msg nlh; Some (s32 (u32 (l - NLMSG_HDRLEN))).

Definition extack_policy : list libbpf_nla_policy :=
  [mkPolicy 0 0 0; mkPolicy LIBBPF_NLA_STRING 0 0; mkPolicy LIBBPF_NLA_U32 0 0; mkPolicy 0 0 0].

(** What is printed: nothing, that the attributes do not parse, or a string,
    given by its offset or NULL. *)
Inductive errormsg : Type :=
| NoTlvs
| ParseFailed
| KernelError (errmsg : option Z).

Definition libbpf_nla_dump_errormsg (msg : list Z) (nlh : Z) : option errormsg :=
  flags ← ld_le16 msg (nlh + 6);
  if Z.land flags NLM_F_ACK_TLVS =? 0 then Some NoTlvs else
  let err := nlh + NLMSG_LENGTH 0 in
  hlen ← (if Z.land flags NLM_F_CAPPED =? 0
          then l ← nlmsg_len msg (err + 4); Some (sizeof_nlmsgerr + l)
          else Some sizeof_nlmsgerr);
  let attr := err + hlen in
  total ← ld_le32 msg nlh;
  let alen := nlh + total - attr in
  '(ret, tb) ← libbpf_nla_parse msg NLMSGERR_ATTR_MAX attr alen (Some extack_policy);
  if negb (ret =? 0) then Some ParseFailed else
  text ← aget tb NLMSGERR_ATTR_MSG;
  Some (KernelError (libbpf_nla_data <$> text)).

(** ** Requests *)

(** [struct libbpf_nla_req]: a header of 16 bytes, a union of at most 20, and
    the buffer.  A request is its bytes. *)
Definition sizeof_req : Z := 164.

Definition req_tail (req : list Z) : option Z := l ← ld_le32 req 0; Some (NLMSG_ALIGN l).

(** [data] is NULL or points to bytes. *)
Definition nlattr_add (req : list Z) (type : Z) (data : option (list Z)) (len : Z) : option (Z * list Z) :=
  l ← ld_le32 req 0;
  if sizeof_req <? u32 (NLMSG_ALIGN l + NLA_ALIGN (NLA_HDRLEN + len)) then Some (- EMSGSIZE, req) else
  if negb (Bool.eqb (bool_decide (data = None)) (len =? 0)) then Some (- EINVAL, req) else
  nla ← req_tail req;
  req ← st_le16 req (nla + 2) type;
  req ← st_le16 req nla (NLA_HDRLEN + len);
  req ← (match data with
         | Some data => bytes ← aget_list data 0 (Z.to_nat len); if len <? 0 then None else aset_list req (nla_data nla) bytes
         | None => Some req
         end);
  l ← ld_le32 req 0;
  nla_len ← nla_len_of req nla;
  req ← st_le32 req 0 (NLMSG_ALIGN l + NLA_ALIGN nla_len);
  Some (0, req).

(** NULL is [None] inside. *)
Definition nlattr_begin_nested (req : list Z) (type : Z) : option (option Z * list Z) :=
  tail ← req_tail req;
  '(ret, req) ← nlattr_add req (Z.lor type NLA_F_NESTED) None 0;
  Some (if negb (ret =? 0) then None else Some tail, req).

Definition nlattr_end_nested (req : list Z) (tail : Z) : option (list Z) :=
  t ← req_tail req; st_le16 req tail (t - tail).

(** ** The request that attaches a program *)

Definition NLM_F_REQUEST : Z := 1.
Definition NLM_F_ACK : Z := 4.
Definition RTM_SETLINK : Z := 19.
Definition AF_UNSPEC : Z := 0.
Definition IFLA_XDP : Z := 43.
Definition IFLA_XDP_FD : Z := 1.
Definition IFLA_XDP_FLAGS : Z := 3.
Definition IFLA_XDP_EXPECTED_FD : Z := 8.
Definition XDP_FLAGS_REPLACE : Z := 16.
Definition sizeof_ifinfomsg : Z := 16.

(** The bytes of an [int] or [__u32]. *)
Definition int_bytes (x : Z) : list Z := [u8 x; u8 (Z.shiftr x 8); u8 (Z.shiftr x 16); u8 (Z.shiftr x 24)].

(** The request before any attribute. *)
Definition xdp_request_header (ifindex : Z) : option (list Z) :=
  let req := replicate (Z.to_nat sizeof_req) 0 in
  req ← st_le32 req 0 (NLMSG_LENGTH sizeof_ifinfomsg);
  req ← st_le16 req 6 (Z.lor NLM_F_REQUEST NLM_F_ACK);
  req ← st_le16 req 4 RTM_SETLINK;
  req ← aset req 16 (u8 AF_UNSPEC);
  st_le32 req 20 (u32 ifindex).

(** [send_recv] stands for [libbpf_netlink_send_recv] on a request that
    expects no answer but the acknowledgement, [err] for the return of an error;
    they may be actions. *)
Definition __bpf_set_link_xdp_fd_replace {A} (err : Z → A) (send_recv : list Z → A) (ifindex fd old_fd flags : Z) : option A :=
  req ← xdp_request_header ifindex;
  '(nla, req) ← nlattr_begin_nested req IFLA_XDP;
  match nla with
  | None => Some (err (- EMSGSIZE))
  | Some nla =>
      '(ret, req) ← nlattr_add req IFLA_XDP_FD (Some (int_bytes fd)) 4;
      if ret <? 0 then Some (err ret) else
      '(ret, req) ← (if negb (flags =? 0) then nlattr_add req IFLA_XDP_FLAGS (Some (int_bytes flags)) 4 else Some (ret, req));
      if ret <? 0 then Some (err ret) else
      '(ret, req) ← (if negb (Z.land flags XDP_FLAGS_REPLACE =? 0)
                     then nlattr_add req IFLA_XDP_EXPECTED_FD (Some (int_bytes old_fd)) 4 else Some (ret, req));
      if ret <? 0 then Some (err ret) else
      req ← nlattr_end_nested req nla;
      Some (send_recv req)
  end.
