(* ===== verification/NlattrCorrect.v ===== *)
(** * Correctness of the netlink attributes

    The parser never reads outside of the attributes it is given and enters
    only attributes that its policy accepts; the writer stays inside the
    request; what was written is read back. *)

From stdpp Require Import list.
From S2P Require Import Prelude Bytes Nlattr.

(** ** Alignment *)

Lemma align4 x : 0 <= x → Z.land (x + 4 - 1) (Z.lnot 3) = (x + 3) / 4 * 4.
Proof.
  intros Hx. replace (x + 4 - 1) with (x + 3) by lia. change 3 with (Z.ones 2) at 2.
  rewrite <- Z.ldiff_land, Z.ldiff_ones_r by lia. rewrite Z.shiftr_div_pow2, Z.shiftl_mul_pow2 by lia. done.
Qed.

Lemma NLA_ALIGN_eq x : 0 <= x → NLA_ALIGN x = (x + 3) / 4 * 4.
Proof. apply align4. Qed.

Lemma NLA_ALIGN_bounds x : 0 <= x → x <= NLA_ALIGN x < x + 4 ∧ NLA_ALIGN x mod 4 = 0.
Proof. intros Hx. rewrite NLA_ALIGN_eq by done. split; [|by apply Z.mod_mul]. Z.to_euclidean_division_equations. lia. Qed.

Lemma NLMSG_ALIGN_eq x : 0 <= x < 2 ^ 32 - 4 → NLMSG_ALIGN x = (x + 3) / 4 * 4.
Proof.
  intros Hx. unfold NLMSG_ALIGN, NLMSG_ALIGNTO. rewrite !u32_small by (rewrite ?u32_small; unfold word_ok; lia).
  rewrite <- align4 by lia. change (not32 (4 - 1)) with (Z.land (Z.lnot 3) (Z.ones 32)).
  rewrite Z.land_assoc, Z.land_ones by lia. apply Z.mod_small.
  rewrite align4 by lia. Z.to_euclidean_division_equations. lia.
Qed.

Lemma NLMSG_ALIGN_mult x : 0 <= x < 2 ^ 32 - 4 → x mod 4 = 0 → NLMSG_ALIGN x = x.
Proof. intros Hx Hm. rewrite NLMSG_ALIGN_eq by done. Z.to_euclidean_division_equations. lia. Qed.

(** The type of an attribute, without its flags. *)
Lemma type_mask t : 0 <= t < 2 ^ 16 → Z.land t NLA_TYPE_MASK = t mod 2 ^ 14.
Proof.
  intros Ht. unfold NLA_TYPE_MASK. change (Z.lor NLA_F_NESTED NLA_F_NET_BYTEORDER) with (Z.shiftl 3 14).
  rewrite <- Z.ldiff_land, <- (Z.land_ones t 14) by lia. apply Z.bits_inj'. intros n Hn.
  rewrite Z.ldiff_spec, Z.land_spec, Z.testbit_ones_nonneg by lia.
  destruct (Z.ltb_spec n 14).
  - rewrite (Z.shiftl_spec_low) by lia. done.
  - rewrite Z.shiftl_spec by lia. destruct (Z.leb_spec 16 n).
    + rewrite (testbit_small 16 t) by lia. done.
    + assert (n = 14 ∨ n = 15) as [-> | ->] by lia; cbn; by rewrite !andb_false_r.
Qed.

Lemma type_mask_range t : 0 <= t < 2 ^ 16 → 0 <= Z.land t NLA_TYPE_MASK < 2 ^ 14.
Proof. intros Ht. rewrite type_mask by done. by apply Z.mod_pos_bound. Qed.

(** ** The parser is safe *)

Definition policy_ok (policy : list libbpf_nla_policy) : Prop :=
  Forall (λ pt, 0 <= pt_type pt ∧ 0 <= pt_minlen pt ∧ 0 <= pt_maxlen pt) policy.

(** An attribute inside of [lo, hi). *)
Definition attr_in (msg : list Z) (lo hi nla : Z) : Prop :=
  lo <= nla ∧ ∃ l, ld_le16 msg nla = Some l ∧ 4 <= l ∧ nla + l <= hi.

Lemma minlen_total ty : 0 <= ty → (LIBBPF_NLA_TYPE_MAX <? ty) = false →
  ∃ x, aget nla_attr_minlen ty = Some x ∧ (ty = LIBBPF_NLA_STRING → 1 <= x).
Proof.
  unfold LIBBPF_NLA_TYPE_MAX. intros H0 H%Z.ltb_ge. unfold nla_attr_minlen.
  assert (ty = 0 ∨ ty = 1 ∨ ty = 2 ∨ ty = 3 ∨ ty = 4 ∨ ty = 5 ∨ ty = 6 ∨ ty = 7 ∨ ty = 8) as Hty by lia.
  repeat destruct Hty as [-> | Hty]; subst; eexists; (split; [reflexivity|]); unfold LIBBPF_NLA_STRING; lia.
Qed.

Lemma validate_safe msg lo hi nla ty maxtype policy :
  bytes_ok msg → 0 <= lo → hi <= zlen msg → attr_in msg lo hi nla → nla_type msg nla = Some ty → 0 <= ty →
  policy_ok policy → maxtype < zlen policy →
  ∃ err, validate_nla msg nla maxtype policy = Some err ∧ (err = 0 ∨ err = -1).
Proof.
  intros Hb Hlo Hhi (Hnla & l & Hl & H4 & Hend) Hty Hty0 Hpol Hmax. unfold validate_nla. rewrite Hty. cbn [mbind option_bind].
  rewrite (proj2 (Z.ltb_ge ty 0)) by lia. cbn [orb]. destruct (Z.ltb_spec maxtype ty); [by eexists; split; [|left]|].
  destruct (aget_is_Some policy ty) as [pt Hpt]; [lia|]. rewrite Hpt. cbn [mbind option_bind].
  rewrite aget_to_nat in Hpt by lia. pose proof (Forall_lookup_1 _ _ _ _ Hpol Hpt) as (Ht0 & Hmin & _).
  destruct (LIBBPF_NLA_TYPE_MAX <? pt_type pt) eqn:Emax; [by eexists; split; [|left]|].
  assert (∃ minlen, (if negb (pt_minlen pt =? 0) then Some (pt_minlen pt)
            else if negb (pt_type pt =? LIBBPF_NLA_UNSPEC) then aget nla_attr_minlen (pt_type pt)
            else Some 0) = Some minlen ∧ (pt_type pt = LIBBPF_NLA_STRING → 1 <= minlen)) as (minlen & -> & Hml).
  { destruct (Z.eqb_spec (pt_minlen pt) 0); cbn [negb]; [|eexists; split; [done|intros _; lia]].
    destruct (Z.eqb_spec (pt_type pt) LIBBPF_NLA_UNSPEC) as [->|]; cbn [negb]; [by eexists|].
    by apply minlen_total. }
  cbn [mbind option_bind]. unfold libbpf_nla_len, nla_len_of. rewrite Hl. cbn [mbind option_bind].
  pose proof (ld_le16_total msg nla Hb ltac:(lia) ltac:(lia)) as (l' & Hl' & Hl16). rewrite Hl in Hl'. injection Hl' as <-.
  change NLA_HDRLEN with 4. rewrite u32_small by (unfold word_ok; lia).
  destruct (Z.ltb_spec (l - 4) minlen); [by eexists; split; [|right]|].
  destruct (_ && _); [by eexists; split; [|right]|].
  destruct (Z.eqb_spec (pt_type pt) LIBBPF_NLA_STRING) as [Es|]; [|by eexists; split; [|left]].
  specialize (Hml Es). unfold libbpf_nla_data. change NLA_HDRLEN with 4.
  destruct (aget_is_Some msg (nla + 4 + (l - 4 - 1))) as [c ->]; [lia|]. cbn [mbind option_bind].
  eexists. split; [done|]. destruct (negb _); auto.
Qed.

(** What the entries of [tb] are. *)
Definition tb_ok (msg : list Z) (lo hi : Z) (maxtype : Z) (policy : option (list libbpf_nla_policy)) (tb : list (option Z)) : Prop :=
  zlen tb = maxtype + 1
  ∧ ∀ t nla, aget tb t = Some (Some nla) →
      attr_in msg lo hi nla ∧ nla_type msg nla = Some t
      ∧ ∀ policy', policy = Some policy' → ∃ err, validate_nla msg nla maxtype policy' = Some err ∧ 0 <= err.

Lemma tb_ok_init msg lo hi maxtype policy :
  0 <= maxtype → tb_ok msg lo hi maxtype policy (replicate (Z.to_nat (maxtype + 1)) None).
Proof.
  intros Hm. split; [rewrite length_replicate; lia|]. intros t nla Ht. unfold aget in Ht.
  destruct (0 <=? t); [|done]. apply lookup_replicate in Ht as [? _]. done.
Qed.

Lemma parse_step msg lo hi maxtype policy nla rem tb :
  bytes_ok msg → 0 <= lo → hi <= zlen msg → 0 <= maxtype →
  (∀ policy', policy = Some policy' → policy_ok policy' ∧ maxtype < zlen policy') →
  lo <= nla → nla + rem <= hi → tb_ok msg lo hi maxtype policy tb →
  ∃ c, parse_body msg maxtype policy (nla, rem, tb, None) = Some c
    ∧ match c with
      | Next (nla', rem', tb', err) => err = None ∧ 4 <= rem ∧ rem' <= rem - 4 ∧ lo <= nla' ∧ nla' + rem' <= hi
                                       ∧ tb_ok msg lo hi maxtype policy tb'
      | Break (_, _, tb', err) => tb_ok msg lo hi maxtype policy tb' ∧ (err = None ∨ err = Some (-1) ∧ policy ≠ None)
      end.
Proof.
  intros Hb Hlo Hhi Hmax Hpol Hnla Hrem Htb. unfold parse_body, nla_ok, sizeof_nlattr, nla_len_of.
  destruct (Z.ltb_spec rem 4); [by eexists; split; [done|split; [|left]]|].
  destruct (ld_le16_total msg nla) as (l & El & Hl); [done|lia|lia|]. rewrite El. cbn [mbind option_bind].
  destruct (Z.leb_spec 4 l); [|by eexists; split; [done|split; [|left]]].
  destruct (Z.leb_spec l rem); [|by eexists; split; [done|split; [|left]]]. cbn [andb negb].
  destruct (ld_le16_total msg (nla + 2)) as (t & Et & Ht); [done|lia|lia|].
  assert (nla_type msg nla = Some (Z.land t NLA_TYPE_MASK)) as Ety by (unfold nla_type, nla_type_of; by rewrite Et).
  pose proof (type_mask_range t Ht) as Htm. rewrite Ety. unfold nla_next, nla_len_of. rewrite El. cbn [mbind option_bind].
  pose proof (NLA_ALIGN_bounds l ltac:(lia)) as [Ha _].
  destruct (Z.ltb_spec maxtype (Z.land t NLA_TYPE_MASK)).
  { eexists. split; [done|]. split_and!; (done || lia). }
  assert (attr_in msg lo hi nla) as Hin by (split; [done|exists l; split_and!; (done || lia)]).
  assert (∃ err, (match policy with Some policy => validate_nla msg nla maxtype policy | None => Some 0 end) = Some err
    ∧ (err = 0 ∨ err = -1 ∧ policy ≠ None)) as (err & Eerr & Herr).
  { destruct policy as [pol|]; [|by eexists; split; [|left]]. destruct (Hpol pol eq_refl) as [Hp1 Hp2].
    destruct (validate_safe msg lo hi nla _ maxtype pol Hb Hlo Hhi Hin Ety ltac:(lia) Hp1 Hp2) as (err & -> & [->| ->]);
      eexists; (split; [done|]); auto. }
  rewrite Eerr. cbn [mbind option_bind]. destruct Herr as [->|[-> Hp]].
  - cbn [Z.ltb]. destruct Htb as [Hlen Htb]. rewrite aset_eq by lia. cbn [mbind option_bind].
    eexists. split; [done|]. split_and!; try (done || lia). split; [rewrite length_insert; lia|].
    intros t' nla' Ht'. destruct (decide (t' = Z.land t NLA_TYPE_MASK)) as [->|Hne].
    + rewrite aget_to_nat, list_lookup_insert_eq in Ht' by lia. injection Ht' as <-. split_and!; [done|done|].
      intros pol ->. by exists 0.
    + assert (0 <= t') by (by apply aget_range in Ht' as [? _]).
      rewrite aget_to_nat, list_lookup_insert_ne in Ht' by lia. apply Htb. by rewrite aget_to_nat.
  - eexists. split; [done|]. split; [done|]. by right.
Qed.

Lemma parse_total msg maxtype head len policy :
  bytes_ok msg → 0 <= head → head + len <= zlen msg → 0 <= maxtype →
  (∀ policy', policy = Some policy' → policy_ok policy' ∧ maxtype < zlen policy') →
  ∃ err tb, libbpf_nla_parse msg maxtype head len policy = Some (err, tb)
    ∧ (err = 0 ∨ err = -1 ∧ policy ≠ None) ∧ tb_ok msg head (head + len) maxtype policy tb.
Proof.
  intros Hb Hh Hl Hm Hp. unfold libbpf_nla_parse.
  destruct (while_loop_inv (λ s, let '(nla, rem, tb, err) := s in err = None ∧ head <= nla ∧ nla + rem <= head + len
                                   ∧ tb_ok msg head (head + len) maxtype policy tb ∧ rem <= len)
      (λ s, tb_ok msg head (head + len) maxtype policy s.1.2 ∧ (s.2 = None ∨ s.2 = Some (-1) ∧ policy ≠ None))
      (λ s, Z.to_nat (Z.max 0 (s.1.1.2 / 4 + 1))) (parse_body msg maxtype policy) (Z.to_nat (Z.max 0 len / 4 + 2))
      (head, len, replicate (Z.to_nat (maxtype + 1)) None, None)) as ([[[n r] tb] err] & -> & Htb & Herr).
  - intros [[[nla rem] tb] err] (-> & Hn & Hr & Htb & Hrl).
    destruct (parse_step msg head (head + len) maxtype policy nla rem tb) as (c & -> & Hc); try done.
    exists c. split; [done|]. destruct c as [[[[nla' rem'] tb'] err']|[[[nla' rem'] tb'] err']]; [|done].
    destruct Hc as (-> & H4 & Hr' & Hn' & Hend & Htb'). cbn [fst snd]. split; [split_and!; (done || lia)|].
    Z.to_euclidean_division_equations. lia.
  - split_and!; try (done || lia). by apply tb_ok_init.
  - cbn [fst snd]. Z.to_euclidean_division_equations. lia.
  - cbn in Htb, Herr. eexists _, _. split; [done|]. split; [|done]. destruct Herr as [->|[-> ?]]; cbn; auto.
Qed.

(** C29: on any message, [libbpf_nla_parse] returns after at most one round for
    each 4 bytes, reads nothing outside of the message, and fails with -1 only
    because of a policy; every entry of [tb] is a whole attribute inside of the
    stream, of the type that is its index, and accepted by the policy; the same
    holds for the attributes nested in any entry. *)
Theorem libbpf_nla_parse_safe msg maxtype head len policy :
  bytes_ok msg → 0 <= head → head + len <= zlen msg → 0 <= maxtype →
  (∀ policy', policy = Some policy' → policy_ok policy' ∧ maxtype < zlen policy') →
  ∃ err tb, libbpf_nla_parse msg maxtype head len policy = Some (err, tb)
    ∧ (err = 0 ∨ err = -1 ∧ policy ≠ None) ∧ tb_ok msg head (head + len) maxtype policy tb
    ∧ ∀ t nla maxtype' policy', aget tb t = Some (Some nla) → 0 <= maxtype' →
        (∀ p, policy' = Some p → policy_ok p ∧ maxtype' < zlen p) →
        ∃ err' tb' l, ld_le16 msg nla = Some l ∧ libbpf_nla_parse_nested msg maxtype' nla policy' = Some (err', tb')
          ∧ tb_ok msg (nla + 4) (nla + l) maxtype' policy' tb'.
Proof.
  intros Hb Hh Hl Hm Hp. destruct (parse_total msg maxtype head len policy Hb Hh Hl Hm Hp) as (err & tb & E & Herr & Htb).
  exists err, tb. split_and!; [done..|]. intros t nla maxtype' policy' Ht Hm' Hp'.
  destruct (proj2 Htb t nla Ht) as ((Hlo & l & El & H4 & Hend) & _).
  destruct (parse_total msg maxtype' (nla + 4) (l - 4) policy') as (err' & tb' & E' & _ & Htb'); try (done || lia).
  exists err', tb', l. split; [done|]. unfold libbpf_nla_parse_nested, libbpf_nla_len, nla_len_of, libbpf_nla_data. rewrite El.
  cbn [mbind option_bind]. change NLA_HDRLEN with 4. split; [done|]. by replace (nla + 4 + (l - 4)) with (nla + l) in Htb' by lia.
Qed.

(** An error message of the kernel: the copy of the request that it holds is
    trusted to be as long as it says, unless it is capped. *)
Lemma dump_errormsg_safe msg total flags inner :
  bytes_ok msg → zlen msg = total → 36 <= total → ld_le32 msg 0 = Some total → ld_le16 msg 6 = Some flags →
  ld_le32 msg 20 = Some inner → 16 <= inner <= total → total < 2 ^ 31 →
  ∃ r, libbpf_nla_dump_errormsg msg 0 = Some r
    ∧ match r with KernelError (Some text) => 40 <= text ∧ text < total | _ => True end.
Proof.
  intros Hb Hlen Ht Htot Hfl Hin Hi H31. pose proof (ld_le32_total msg 20 Hb ltac:(lia) ltac:(lia)) as (x & Ex & Hx).
  rewrite Hin in Ex. injection Ex as <-. pose proof (ld_le32_total msg 0 Hb ltac:(lia) ltac:(lia)) as (y & Ey & Hy).
  rewrite Htot in Ey. injection Ey as <-.
  unfold libbpf_nla_dump_errormsg. change (0 + 6) with 6. rewrite Hfl. cbn [mbind option_bind]. destruct (Z.land flags NLM_F_ACK_TLVS =? 0); [by eexists|].
  change (NLMSG_LENGTH 0) with 16. change (0 + 16) with 16. change (16 + 4) with 20. unfold nlmsg_len. rewrite Hin, Htot.
  cbn [mbind option_bind]. change NLMSG_HDRLEN with 16. unfold sizeof_nlmsgerr.
  assert (∃ hlen, (if Z.land flags NLM_F_CAPPED =? 0 then Some (20 + s32 (u32 (inner - 16))) else Some 20) = Some hlen ∧ 20 <= hlen)
    as (hlen & -> & Hh).
  { destruct (_ =? 0); eexists; (split; [done|]); [|lia]. rewrite u32_small by (unfold word_ok; lia). unfold s32.
    rewrite Z.mod_small by lia. lia. }
  cbn [mbind option_bind]. replace (0 + total - (16 + hlen)) with (total - (16 + hlen)) by lia.
  destruct (parse_total msg NLMSGERR_ATTR_MAX (16 + hlen) (total - (16 + hlen)) (Some extack_policy)) as (err & tb & -> & Herr & Hsz & Htb);
    [done|lia|lia|done| |].
  { intros policy [= <-]. split; [|done]. unfold policy_ok, extack_policy. do 4 (apply List.Forall_cons; [zeval|]). apply List.Forall_nil. }
  cbn [mbind option_bind]. destruct (negb _); [by eexists|].
  destruct (aget_is_Some tb NLMSGERR_ATTR_MSG) as [e He]; [rewrite Hsz; unfold NLMSGERR_ATTR_MSG, NLMSGERR_ATTR_MAX; lia|].
  rewrite He. cbn [mbind option_bind]. eexists. split; [done|]. destruct e as [nla|]; [|done]. cbn [fmap option_fmap option_map].
  destruct (Htb _ _ He) as ((Hlo & l & Hl & H4 & Hend) & Hty & Hpol). unfold libbpf_nla_data. change NLA_HDRLEN with 4. split; [lia|].
  destruct (Hpol _ eq_refl) as (v & Hv & Hv0). unfold validate_nla in Hv. rewrite Hty in Hv. cbn [mbind option_bind] in Hv.
  change ((NLMSGERR_ATTR_MSG <? 0) || (NLMSGERR_ATTR_MAX <? NLMSGERR_ATTR_MSG)) with false in Hv.
  change (aget extack_policy NLMSGERR_ATTR_MSG) with (Some (mkPolicy LIBBPF_NLA_STRING 0 0)) in Hv. cbn in Hv.
  unfold libbpf_nla_len, nla_len_of in Hv. rewrite Hl in Hv. cbn in Hv. change NLA_HDRLEN with 4 in Hv.
  change (nla_attr_minlen !! Z.to_nat LIBBPF_NLA_STRING) with (Some 1) in Hv. cbn [mbind option_bind] in Hv.
  destruct (Z.ltb_spec (u32 (l - 4)) 1) as [Hshort|Hlong]; [injection Hv as <-; lia|].
  destruct (Z.eq_dec l 4) as [->|]; [by cbn in Hlong|lia].
Qed.

(** ** Streams of attributes *)

(** The padding is what the buffer held. *)
Record attr : Type := mkAttr { a_type : Z; a_data : list Z; a_pad : list Z }.

Definition attr_bytes (a : attr) : list Z := le16 (4 + zlen (a_data a)) ++ le16 (a_type a) ++ a_data a ++ a_pad a.
Definition stream (al : list attr) : list Z := concat (map attr_bytes al).

Definition attr_ok (a : attr) : Prop :=
  0 <= a_type a < 2 ^ 14 ∧ 4 + zlen (a_data a) < 2 ^ 16 ∧ 4 + zlen (a_data a) + zlen (a_pad a) = NLA_ALIGN (4 + zlen (a_data a)).

Lemma attr_bytes_length a : zlen (attr_bytes a) = 4 + zlen (a_data a) + zlen (a_pad a).
Proof. unfold attr_bytes. rewrite !length_app. cbn [length le16]. lia. Qed.

Lemma attr_located msg o a :
  attr_ok a → located msg o (attr_bytes a) →
  ld_le16 msg o = Some (4 + zlen (a_data a)) ∧ nla_type msg o = Some (a_type a)
  ∧ located msg (o + 4) (a_data a).
Proof.
  intros (Ht & Hl & _) H. unfold attr_bytes in H. split_and!.
  - replace o with (o + 0) by lia. rewrite <- (u16_small (4 + zlen (a_data a))) by lia.
    eapply ld_le16_located; [exact H|lia|rewrite !length_app; cbn [length le16]; lia|reflexivity].
  - unfold nla_type, nla_type_of. rewrite (ld_le16_located msg o _ 2 (a_type a) H);
      [|lia|rewrite !length_app; cbn [length le16]; lia|reflexivity].
    rewrite u16_small by lia. cbn. rewrite type_mask by lia. by rewrite Z.mod_small by lia.
  - do 2 apply located_app in H as [_ H]. apply located_app in H as [H _]. cbn [length le16] in H.
    refine (eq_rect _ (λ o, located msg o _) H _ _). lia.
Qed.

(** One round on a located attribute. *)
Lemma parse_attr msg maxtype o a rest tb :
  attr_ok a → located msg o (attr_bytes a) → 0 <= rest → zlen tb = maxtype + 1 → 0 <= maxtype →
  parse_body msg maxtype None (o, zlen (attr_bytes a) + rest, tb, None)
  = Some (Next (o + zlen (attr_bytes a), rest,
                if maxtype <? a_type a then tb else <[Z.to_nat (a_type a) := Some o]> tb, None)).
Proof.
  intros Ha H Hr Htb Hmax. destruct (attr_located msg o a Ha H) as (El & Et & _). destruct Ha as (Ht & Hl & Hp).
  pose proof (attr_bytes_length a) as Hlen. rewrite Hp in Hlen. pose proof (NLA_ALIGN_bounds (4 + zlen (a_data a)) ltac:(lia)) as [Ha _].
  unfold parse_body, nla_ok, sizeof_nlattr, nla_len_of. rewrite (proj2 (Z.ltb_ge _ _)) by lia. rewrite El. cbn [mbind option_bind].
  rewrite !(proj2 (Z.leb_le _ _)) by lia. cbn [andb negb]. rewrite Et. unfold nla_next, nla_len_of. rewrite El. cbn [mbind option_bind].
  rewrite <- Hlen. replace (zlen (attr_bytes a) + rest - zlen (attr_bytes a)) with rest by lia.
  destruct (Z.ltb_spec maxtype (a_type a)); [done|]. cbn [Z.ltb]. by rewrite aset_eq by lia.
Qed.

(** The table after a stream. *)
Fixpoint enter (maxtype o : Z) (al : list attr) (tb : list (option Z)) : list (option Z) :=
  match al with
  | [] => tb
  | a :: al' => enter maxtype (o + zlen (attr_bytes a)) al'
                  (if maxtype <? a_type a then tb else <[Z.to_nat (a_type a) := Some o]> tb)
  end.

Lemma parse_stream msg maxtype al : ∀ o tb fuel,
  Forall attr_ok al → located msg o (stream al) → zlen tb = maxtype + 1 → 0 <= maxtype → (length al < fuel)%nat →
  while_loop fuel (parse_body msg maxtype None) (o, zlen (stream al), tb, None)
  = Some (o + zlen (stream al), 0, enter maxtype o al tb, None).
Proof.
  induction al as [|a al IH]; intros o tb fuel Hal H Htb Hmax Hf; (destruct fuel as [|fuel]; [cbn in Hf; lia|]); cbn [while_loop].
  - cbn [stream map concat length enter]. unfold parse_body, nla_ok. cbn. by rewrite Z.add_0_r.
  - apply Forall_cons_1 in Hal as [Ha Hal]. unfold stream in H |- *. cbn [map concat] in H |- *. fold (stream al) in H |- *.
    apply located_app in H as [H1 H2]. rewrite length_app, Nat2Z.inj_add.
    rewrite parse_attr by (done || lia). cbn [mbind option_bind enter].
    rewrite IH; [f_equal; f_equal; f_equal; f_equal; lia|done|done| |done|cbn in Hf; lia].
    destruct (_ <? _); [done|]. by rewrite length_insert.
Qed.

(** The last attribute of a type. *)
Definition last_of (t : Z) (al : list attr) : option attr := list.last (filter (λ a, a_type a = t) al).

Lemma last_of_cons t a al :
  last_of t (a :: al) = match last_of t al with Some x => Some x | None => if decide (a_type a = t) then Some a else None end.
Proof.
  unfold last_of. rewrite filter_cons. destruct (decide (a_type a = t)).
  - destruct (filter (λ a, a_type a = t) al) as [|b l] eqn:E; [done|]. rewrite last_cons_cons.
    by destruct (list.last (b :: l)) eqn:El; [|apply last_None in El].
  - by destruct (list.last _).
Qed.

Lemma enter_spec msg maxtype al : ∀ o tb t,
  Forall attr_ok al → located msg o (stream al) → zlen tb = maxtype + 1 → 0 <= t <= maxtype →
  match last_of t al with
  | Some a => ∃ nla, aget (enter maxtype o al tb) t = Some (Some nla) ∧ attr_ok a ∧ located msg nla (attr_bytes a)
  | None => aget (enter maxtype o al tb) t = aget tb t
  end.
Proof.
  induction al as [|a al IH]; intros o tb t Hal H Htb Ht; [done|].
  apply Forall_cons_1 in Hal as [Ha Hal]. unfold stream in H. cbn [map concat] in H. apply located_app in H as [H1 H2].
  rewrite last_of_cons. cbn [enter]. set (tb' := if maxtype <? a_type a then tb else _).
  assert (zlen tb' = maxtype + 1) as Htb' by (unfold tb'; destruct (_ <? _); rewrite ?length_insert; done).
  specialize (IH (o + zlen (attr_bytes a)) tb' t Hal H2 Htb' Ht). destruct (last_of t al); [done|].
  rewrite IH. pose proof Ha as (Hty & _). unfold tb'. destruct (decide (a_type a = t)) as [<-|Hne].
  - exists o. rewrite (proj2 (Z.ltb_ge _ _)) by lia. rewrite aget_to_nat by lia.
    split_and!; [apply list_lookup_insert_eq; lia|done|done].
  - destruct (_ <? _); [done|]. rewrite !aget_to_nat by lia. apply list_lookup_insert_ne. lia.
Qed.

Lemma stream_fuel al : (length al < Z.to_nat (Z.max 0 (zlen (stream al)) / 4 + 2))%nat.
Proof.
  assert (4 * zlen al <= zlen (stream al)) as H.
  { unfold stream. induction al as [|a al IH]; [done|]. cbn [map concat length]. rewrite length_app.
    pose proof (attr_bytes_length a). lia. }
  Z.to_euclidean_division_equations. lia.
Qed.

(** A stream that lies in a message is parsed without an error, and the table has
    the last attribute of each type. *)
Lemma parse_located msg maxtype o al :
  located msg o (stream al) → Forall attr_ok al → 0 <= maxtype →
  ∃ tb, libbpf_nla_parse msg maxtype o (zlen (stream al)) None = Some (0, tb) ∧ ∀ t, 0 <= t <= maxtype →
    match last_of t al with
    | Some a => ∃ nla, aget tb t = Some (Some nla) ∧ attr_ok a ∧ located msg nla (attr_bytes a)
    | None => aget tb t = Some None
    end.
Proof.
  intros Hloc Hal Hmax. unfold libbpf_nla_parse. pose proof (length_replicate (Z.to_nat (maxtype + 1)) (@None Z)) as Hl0.
  rewrite (parse_stream msg maxtype al) by (done || apply stream_fuel || lia).
  cbn [mbind option_bind default from_option]. eexists. split; [done|]. intros t Ht.
  pose proof (enter_spec msg maxtype al o (replicate (Z.to_nat (maxtype + 1)) None) t Hal Hloc ltac:(lia) Ht) as Hspec.
  destruct (last_of t al) as [a|]; [done|]. rewrite Hspec. rewrite aget_to_nat by lia. apply lookup_replicate_2. lia.
Qed.

(** ** The writer *)

(** A request whose attributes start at [base]. *)
Record req_holds (req : list Z) (base : Z) (al : list attr) : Prop := {
  rh_size : zlen req = sizeof_req;
  rh_bytes : bytes_ok req;
  rh_base : 4 <= base ∧ base mod 4 = 0;
  rh_len : ld_le32 req 0 = Some (base + zlen (stream al));
  rh_attrs : Forall attr_ok al;
  rh_stream : located req base (stream al);
}.

Lemma stream_mod4 al : Forall attr_ok al → zlen (stream al) mod 4 = 0.
Proof.
  unfold stream. induction 1 as [|a al (_ & _ & Hp) _ IH]; [done|]. cbn [map concat]. rewrite length_app, Nat2Z.inj_add, attr_bytes_length, Hp.
  destruct (NLA_ALIGN_bounds (4 + zlen (a_data a)) ltac:(lia)) as [_ Hm]. by rewrite Z.add_mod, Hm, IH by lia.
Qed.

(** Bytes written over a part of a buffer. *)
Definition splice (l : list Z) (o : Z) (bs : list Z) : list Z :=
  take (Z.to_nat o) l ++ bs ++ drop (Z.to_nat o + length bs) l.

Lemma splice_length l o bs : 0 <= o → o + zlen bs <= zlen l → length (splice l o bs) = length l.
Proof. intros H0 H. unfold splice. rewrite !length_app, length_take, length_drop. lia. Qed.

Lemma splice_located l o bs : 0 <= o → o + zlen bs <= zlen l → located (splice l o bs) o bs.
Proof. intros H0 H. eexists _, _. split; [done|]. rewrite length_take. lia. Qed.

Lemma aget_splice l o bs i :
  0 <= o → o + zlen bs <= zlen l → 0 <= i → i < o ∨ o + zlen bs <= i → aget (splice l o bs) i = aget l i.
Proof.
  intros H0 H Hi Ho. unfold splice. destruct Ho as [Ho|Ho].
  - rewrite aget_app_l by (rewrite length_take; lia). apply aget_take. lia.
  - rewrite !aget_app_r by (rewrite ?length_take; lia). rewrite length_take.
    rewrite aget_drop by lia. f_equal. lia.
Qed.

Lemma located_intro l o bs :
  0 <= o → o + zlen bs <= zlen l → (∀ i, 0 <= i < zlen bs → aget l (o + i) = aget bs i) → located l o bs.
Proof.
  intros H0 H Hi. exists (take (Z.to_nat o) l), (drop (Z.to_nat o + length bs) l). rewrite length_take. split; [|lia].
  rewrite <- (take_drop (Z.to_nat o) l) at 1. f_equal. rewrite <- (take_drop (length bs) (drop (Z.to_nat o) l)) at 1.
  rewrite drop_drop. f_equal. apply list_eq. intros i. destruct (decide (i < length bs)%nat) as [Hlt|Hge].
  - rewrite lookup_take_lt, lookup_drop by done. specialize (Hi (Z.of_nat i) ltac:(lia)).
    rewrite (aget_nat bs), aget_to_nat in Hi by lia. rewrite <- Hi. f_equal. lia.
  - rewrite (lookup_ge_None_2 bs) by lia. apply lookup_ge_None_2. rewrite length_take. lia.
Qed.

Lemma located_join l o bs1 bs2 : located l o bs1 → located l (o + zlen bs1) bs2 → located l o (bs1 ++ bs2).
Proof.
  intros H1 H2. pose proof (located_range _ _ _ H1). pose proof (located_range _ _ _ H2).
  apply located_intro; [lia|rewrite length_app; lia|]. intros i Hi. rewrite length_app in Hi. destruct (Z.ltb_spec i (zlen bs1)).
  - rewrite aget_app_l by lia. apply aget_located; [done|lia].
  - rewrite aget_app_r by lia. replace (o + i) with (o + zlen bs1 + (i - zlen bs1)) by lia. apply aget_located; [done|lia].
Qed.

Lemma located_slice l o (n : nat) :
  0 <= o → o + Z.of_nat n <= zlen l → located l o (take n (drop (Z.to_nat o) l)) ∧ length (take n (drop (Z.to_nat o) l)) = n.
Proof.
  intros H0 H. assert (length (take n (drop (Z.to_nat o) l)) = n) as Hn by (rewrite length_take, length_drop; lia).
  split; [|done]. apply located_intro; [done|lia|]. intros i Hi. rewrite aget_take, aget_drop by lia. f_equal. lia.
Qed.

(** A piece that the written part does not meet. *)
Lemma located_splice l o bs o' bs' :
  located l o bs → 0 <= o' → o' + zlen bs' <= zlen l → o' + zlen bs' <= o ∨ o + zlen bs <= o' →
  located (splice l o' bs') o bs.
Proof.
  intros H H0 Hr Hd. pose proof (located_range _ _ _ H). apply located_intro; [lia|rewrite splice_length by done; lia|].
  intros i Hi. rewrite aget_splice by lia. by apply aget_located.
Qed.

Lemma bytes_ok_splice l o bs : bytes_ok l → bytes_ok bs → bytes_ok (splice l o bs).
Proof. intros Hl Hbs. unfold splice. rewrite !Forall_app. split_and!; [by apply Forall_take|done|by apply Forall_drop]. Qed.

Lemma st_le16_splice l o w : 0 <= o → o + 2 <= zlen l → st_le16 l o w = Some (splice l o (le16 w)).
Proof.
  intros H0 H. unfold splice. rewrite <- aset_list_eq by (cbn [length le16]; lia). unfold st_le16, le16. cbn [aset_list].
  destruct (aset l o (u8 w)); [|done]. cbn [mbind option_bind]. by destruct (aset _ _ _).
Qed.

Lemma st_le32_splice l o w : 0 <= o → o + 4 <= zlen l → st_le32 l o w = Some (splice l o (le32 w)).
Proof.
  intros H0 H. unfold splice. rewrite <- aset_list_eq by (cbn [length le32]; lia). unfold st_le32, le32. cbn [aset_list].
  rewrite <- !(Z.add_assoc o). cbn [Z.add Pos.add Pos.succ Pos.add_carry].
  do 3 (destruct (aset _ _ _); [|done]; cbn [mbind option_bind]). by destruct (aset _ _ _).
Qed.

(** The data pointer and length that callers pass: NULL with 0. *)
Definition data_arg (d : list Z) : option (list Z) := match d with [] => None | _ => Some d end.

Lemma copy_splice req t d :
  0 <= t → t + 4 + zlen d <= zlen req →
  (match data_arg d with
   | Some data => bytes ← aget_list data 0 (Z.to_nat (zlen d)); if zlen d <? 0 then None else aset_list req (nla_data t) bytes
   | None => Some req
   end) = Some (splice req (t + 4) d).
Proof.
  intros H0 H. destruct d as [|x d].
  - cbn. unfold splice. cbn [app length]. by rewrite Nat.add_0_r, take_drop.
  - unfold data_arg. rewrite Nat2Z.id, aget_list_eq by lia. cbn [mbind option_bind]. rewrite drop_0, take_ge by lia.
    rewrite (proj2 (Z.ltb_ge _ _)) by lia. apply aset_list_eq; unfold nla_data; change NLA_HDRLEN with 4; lia.
Qed.

Lemma data_arg_null d : bool_decide (data_arg d = None) = (zlen d =? 0).
Proof. by destruct d. Qed.

Lemma req_tail_holds req base al : req_holds req base al → base + zlen (stream al) <= sizeof_req →
  NLMSG_ALIGN (base + zlen (stream al)) = base + zlen (stream al).
Proof.
  intros [_ _ [Hb Hm] _ Ha _] Hf. unfold sizeof_req in Hf. apply NLMSG_ALIGN_mult; [lia|].
  by rewrite Z.add_mod, Hm, stream_mod4 by (done || lia).
Qed.

(** Lengths of spliced buffers. *)
Ltac lens := cbn [length le16 le32]; rewrite ?splice_length by lens; cbn [length le16 le32]; (done || lia).

(** The request after an attribute was written at [t] and the length set. *)
Definition written_attr (req : list Z) (t type : Z) (d : list Z) : list Z :=
  splice (splice (splice req (t + 2) (le16 type)) t (le16 (4 + zlen d))) (t + 4) d.
Definition written (req : list Z) (t type : Z) (d : list Z) (n : Z) : list Z :=
  splice (written_attr req t type d) 0 (le32 (t + n)).

Section written.
Variables (req : list Z) (t type : Z) (d : list Z) (n : Z).
Hypothesis t_range : 4 <= t.
Hypothesis fits : t + 4 + zlen d <= zlen req.

Lemma written_attr_length : length (written_attr req t type d) = length req.
Proof. unfold written_attr. rewrite !splice_length by lens. done. Qed.

Lemma written_length : length (written req t type d n) = length req.
Proof. unfold written. rewrite splice_length; [apply written_attr_length|lia|]. rewrite written_attr_length. cbn [length le32]. lia. Qed.

Lemma aget_written_attr i : 0 <= i → i < t ∨ t + 4 + zlen d <= i → aget (written_attr req t type d) i = aget req i.
Proof. intros H0 Hi. unfold written_attr. by rewrite !aget_splice by lens. Qed.

Lemma aget_written i : 4 <= i → i < t ∨ t + 4 + zlen d <= i → aget (written req t type d n) i = aget req i.
Proof.
  intros H0 Hi. unfold written. rewrite aget_splice; [apply aget_written_attr; lia|lia| |lia|cbn [length le32]; lia].
  rewrite written_attr_length. cbn [length le32]. lia.
Qed.

Lemma written_attr_located :
  located (written_attr req t type d) t (le16 (4 + zlen d)) ∧ located (written_attr req t type d) (t + 2) (le16 type)
  ∧ located (written_attr req t type d) (t + 4) d.
Proof.
  unfold written_attr. split_and!.
  - apply located_splice; [apply splice_located|..]; lens.
  - apply located_splice; [apply located_splice; [apply splice_located|..]|..]; lens.
  - apply splice_located; lens.
Qed.

Lemma written_located o bs : 4 <= o → located (written_attr req t type d) o bs → located (written req t type d n) o bs.
Proof.
  intros Ho H. apply located_splice; [done|lia| |cbn [length le32]; lia]. rewrite written_attr_length. cbn [length le32]. lia.
Qed.

Lemma written_keeps o bs : 4 <= o → o + zlen bs <= t → located req o bs → located (written req t type d n) o bs.
Proof.
  intros Ho Hbs H. apply written_located; [done|]. apply located_intro; [lia|rewrite written_attr_length; lia|].
  intros i Hi. rewrite aget_written_attr by lia. by apply aget_located.
Qed.

Lemma written_len : 0 <= t + n < 2 ^ 32 → ld_le32 (written req t type d n) 0 = Some (t + n).
Proof.
  intros Hr. rewrite <- (u32_small (t + n)) by (unfold word_ok; lia). replace 0 with (0 + 0) by lia.
  eapply ld_le32_located; [apply splice_located; [lia|]|lia|cbn; lia|reflexivity].
  rewrite written_attr_length. cbn [length le32]. lia.
Qed.

Lemma written_bytes : bytes_ok req → bytes_ok d → bytes_ok (written req t type d n).
Proof.
  intros Hr Hd. unfold written, written_attr. repeat apply bytes_ok_splice; auto using bytes_ok_le16, bytes_ok_le32.
Qed.

(** Behind a multiple of 4 bytes in use, [nlattr_add] is [written]. *)
Lemma nlattr_add_run :
  ld_le32 req 0 = Some t → NLMSG_ALIGN t = t → n = NLA_ALIGN (4 + zlen d) → t + n <= sizeof_req → zlen req = sizeof_req →
  nlattr_add req type (data_arg d) (zlen d) = Some (0, written req t type d n).
Proof.
  intros Hl Htail Hn Hfit Hsz. pose proof (NLA_ALIGN_bounds (4 + zlen d) ltac:(lia)) as [Hal _].
  unfold nlattr_add, req_tail. rewrite Hl. cbn [mbind option_bind]. rewrite Htail. change NLA_HDRLEN with 4.
  rewrite <- Hn. unfold sizeof_req in *. rewrite u32_small by (unfold word_ok; lia). rewrite (proj2 (Z.ltb_ge 164 (t + n))) by lia.
  rewrite data_arg_null, eqb_reflx. cbn [negb]. rewrite st_le16_splice by lia. cbn [mbind option_bind].
  rewrite st_le16_splice by lens. cbn [mbind option_bind]. rewrite copy_splice by lens. cbn [mbind option_bind].
  fold (written_attr req t type d).
  assert (ld_le32 (written_attr req t type d) 0 = Some t) as ->.
  { rewrite <- Hl. apply ld_le32_ext. intros j Hj. apply aget_written_attr; lia. }
  assert (nla_len_of (written_attr req t type d) t = Some (4 + zlen d)) as ->.
  { unfold nla_len_of. replace (ld_le16 _ t) with (ld_le16 (written_attr req t type d) (t + 0)) by (f_equal; lia).
    rewrite <- (u16_small (4 + zlen d)) by lia. eapply ld_le16_located; [apply written_attr_located|lia|cbn; lia|reflexivity]. }
  cbn [mbind option_bind]. rewrite Htail, <- Hn. rewrite st_le32_splice; [done|lia|]. rewrite written_attr_length. lia.
Qed.
End written.

Lemma nlattr_add_ok req base al type d :
  req_holds req base al → 0 <= type < 2 ^ 14 → bytes_ok d → zlen d < 2 ^ 31 →
  if base + zlen (stream al) + NLA_ALIGN (4 + zlen d) <=? sizeof_req then
    ∃ req' pad, nlattr_add req type (data_arg d) (zlen d) = Some (0, req') ∧ req_holds req' base (al ++ [mkAttr type d pad])
      ∧ zlen (attr_bytes (mkAttr type d pad)) = NLA_ALIGN (4 + zlen d)
      ∧ ∀ i, 4 <= i < base → aget req' i = aget req i
  else nlattr_add req type (data_arg d) (zlen d) = Some (- EMSGSIZE, req).
Proof.
  intros H Ht Hd Hlen. pose proof (NLA_ALIGN_bounds (4 + zlen d) ltac:(lia)) as [Hal Hm4].
  pose proof (located_range _ _ _ (rh_stream _ _ _ H)) as Hr. pose proof (rh_size _ _ _ H) as Hsz. rewrite Hsz in Hr.
  pose proof (req_tail_holds req base al H ltac:(lia)) as Htail. destruct (rh_base _ _ _ H) as [Hb4 Hbm].
  set (t := base + zlen (stream al)) in *. set (n := NLA_ALIGN (4 + zlen d)) in *.
  destruct (Z.leb_spec (t + n) sizeof_req) as [Hfit|Hno].
  - destruct (located_slice (written req t type d n) (t + 4 + zlen d) (Z.to_nat (n - 4 - zlen d))) as [Hpad Lpad];
      [lia|rewrite written_length; lia|]. set (pad := take _ _) in *.
    assert (attr_ok (mkAttr type d pad)) as Hok by (unfold sizeof_req in *; split_and!; cbn [a_type a_data a_pad]; (done || lia)).
    assert (zlen (attr_bytes (mkAttr type d pad)) = n) as Hn by (rewrite attr_bytes_length; cbn; lia).
    assert (stream (al ++ [mkAttr type d pad]) = stream al ++ attr_bytes (mkAttr type d pad)) as Hst
      by (unfold stream; rewrite map_app, concat_app; cbn [map concat]; by rewrite app_nil_r).
    exists (written req t type d n), pad. split_and!; [|constructor|done|].
    + apply nlattr_add_run; try (done || lia). apply H.
    + rewrite written_length; lia.
    + apply written_bytes; [apply H|done].
    + done.
    + rewrite Hst, length_app, Nat2Z.inj_add, Hn, Z.add_assoc. apply written_len; unfold sizeof_req in *; lia.
    + apply Forall_app. split; [apply H|]. by constructor.
    + rewrite Hst. destruct (written_attr_located req t type d) as (G1 & G2 & G3); [lia|lia|].
      apply located_join; [apply written_keeps; try lia; apply H|]. fold t. unfold attr_bytes. cbn [a_type a_data a_pad].
      apply located_join; [apply written_located; (done || lia)|]. apply located_join.
      { apply written_located; (done || lia). }
      replace (t + zlen (le16 (4 + zlen d)) + zlen (le16 type)) with (t + 4) by (cbn [length le16]; lia).
      apply located_join; [apply written_located; (done || lia)|done].
    + intros i Hi. apply aget_written; lia.
  - unfold nlattr_add. rewrite (rh_len _ _ _ H). cbn [mbind option_bind]. fold t. rewrite Htail. change NLA_HDRLEN with 4. fold n.
    unfold sizeof_req in *. rewrite u32_small by (unfold word_ok; lia). by rewrite (proj2 (Z.ltb_lt 164 (t + n))) by lia.
Qed.

(** ** Adding attributes and reading them back *)

(** Callers add one attribute after the other and stop at an error. *)
Fixpoint add_all (req : list Z) (l : list (Z * list Z)) : option (Z * list Z) :=
  match l with
  | [] => Some (0, req)
  | (type, d) :: l' =>
      '(ret, req) ← nlattr_add req type (data_arg d) (zlen d);
      if ret <? 0 then Some (ret, req) else add_all req l'
  end.

Definition total_size (l : list (Z * list Z)) : Z := sum_by (λ a, NLA_ALIGN (4 + zlen a.2)) l.

Definition arg_ok (a : Z * list Z) : Prop := 0 <= a.1 < 2 ^ 14 ∧ bytes_ok a.2 ∧ zlen a.2 < 2 ^ 31.

(** The attributes of a request, without their padding. *)
Definition args_of (al : list attr) : list (Z * list Z) := map (λ a, (a_type a, a_data a)) al.

Lemma total_size_nonneg l : 0 <= total_size l.
Proof.
  unfold total_size, sum_by. induction l as [|[ty d] l IH]; [done|]. cbn.
  pose proof (NLA_ALIGN_bounds (4 + zlen d) ltac:(lia)) as [? _]. lia.
Qed.

Lemma add_all_ok l : ∀ req base al,
  req_holds req base al → Forall arg_ok l →
  ∃ ret req' al', add_all req l = Some (ret, req') ∧ req_holds req' base al'
    ∧ (∀ i, 4 <= i < base → aget req' i = aget req i)
    ∧ (if base + zlen (stream al) + total_size l <=? sizeof_req
       then ret = 0 ∧ args_of al' = args_of al ++ l ∧ zlen (stream al') = zlen (stream al) + total_size l
       else ret = - EMSGSIZE ∧ ∃ l1 a l2, l = l1 ++ a :: l2 ∧ args_of al' = args_of al ++ l1
              ∧ sizeof_req < base + zlen (stream al') + NLA_ALIGN (4 + zlen a.2)).
Proof.
  induction l as [|[ty d] l IH]; intros req base al H Hl.
  - exists 0, req, al. pose proof (located_range _ _ _ (rh_stream _ _ _ H)). rewrite (rh_size _ _ _ H) in *.
    split_and!; [done|done|done|]. unfold total_size, sum_by. cbn [foldr]. rewrite (proj2 (Z.leb_le _ _)) by lia.
    rewrite app_nil_r. split_and!; [done|done|lia].
  - apply Forall_cons_1 in Hl as [(Ht & Hd & Hlen) Hl]. cbn [fst snd] in *. cbn [add_all].
    pose proof (nlattr_add_ok req base al ty d H Ht Hd Hlen) as Hadd. unfold total_size, sum_by. cbn [foldr snd].
    fold (sum_by (λ a : Z * list Z, NLA_ALIGN (4 + zlen a.2)) l). fold (total_size l). pose proof (total_size_nonneg l) as Hnn.
    destruct (Z.leb_spec (base + zlen (stream al) + NLA_ALIGN (4 + zlen d)) sizeof_req).
    + destruct Hadd as (req1 & pad & -> & H1 & Hn & Hk). cbn [mbind option_bind Z.ltb].
      assert (zlen (stream (al ++ [mkAttr ty d pad])) = zlen (stream al) + NLA_ALIGN (4 + zlen d)) as Hst.
      { unfold stream. rewrite map_app, concat_app, length_app. cbn [map concat]. rewrite app_nil_r. lia. }
      destruct (IH req1 base _ H1 Hl) as (ret & req' & al' & E & H' & Hk' & Hres). exists ret, req', al'.
      split_and!; [done|done|intros i Hi; by rewrite Hk', Hk|]. rewrite Hst, !Z.add_assoc in Hres. rewrite !Z.add_assoc.
      assert (args_of (al ++ [mkAttr ty d pad]) = args_of al ++ [(ty, d)]) as Hargs by (unfold args_of; by rewrite map_app).
      rewrite Hargs in Hres. destruct (_ <=? sizeof_req).
      * destruct Hres as (-> & Ha & Hs). split_and!; [done|by rewrite Ha, <- app_assoc|lia].
      * destruct Hres as (-> & l1 & a & l2 & -> & Ha & Hs). split; [done|]. exists ((ty, d) :: l1), a, l2.
        split_and!; [done|by rewrite Ha, <- app_assoc|done].
    + rewrite Hadd. cbn [mbind option_bind]. exists (- EMSGSIZE), req, al. split_and!; [done|done|done|].
      rewrite (proj2 (Z.leb_gt _ _)) by lia. split; [done|]. exists [], (ty, d), l. cbn. split_and!; [done|by rewrite app_nil_r|done].
Qed.

(** The last value that was given for a type. *)
Definition last_value (t : Z) (l : list (Z * list Z)) : option (list Z) := snd <$> list.last (filter (λ a, a.1 = t) l).

Lemma last_value_args t al : last_value t (args_of al) = a_data <$> last_of t al.
Proof.
  unfold last_value, last_of, args_of. induction al as [|a al IH] using rev_ind; [done|].
  rewrite map_app, !list.filter_app. cbn [map]. rewrite !filter_cons, !filter_nil. cbn [fst].
  destruct (decide (a_type a = t)); [by rewrite !last_snoc|by rewrite !app_nil_r].
Qed.

Definition fresh_request (req : list Z) (base : Z) : Prop :=
  zlen req = sizeof_req ∧ bytes_ok req ∧ 4 <= base <= sizeof_req ∧ base mod 4 = 0 ∧ ld_le32 req 0 = Some base.

Lemma fresh_holds req base : fresh_request req base → req_holds req base [].
Proof.
  intros (Hs & Hb & Hr & Hm & Hl). constructor; try done; [lia|by rewrite Z.add_0_r|].
  apply located_intro; [lia|cbn; lia|]. intros i Hi. cbn in Hi. lia.
Qed.

(** C30: attributes are added until the request of 164 bytes is full: exactly
    when they do not fit with their padding is [-EMSGSIZE] returned, and the
    header in front of them keeps its bytes.  Parsing the attributes of the
    request gives for each type the last value that was added. *)
Theorem nlattr_roundtrip req base l maxtype :
  fresh_request req base → Forall arg_ok l → 0 <= maxtype →
  ∃ ret req', add_all req l = Some (ret, req') ∧ (∀ i, 4 <= i < base → aget req' i = aget req i)
    ∧ if base + total_size l <=? sizeof_req
      then ret = 0 ∧ ld_le32 req' 0 = Some (base + total_size l)
           ∧ ∃ tb, libbpf_nla_parse req' maxtype base (total_size l) None = Some (0, tb)
               ∧ ∀ t, 0 <= t <= maxtype →
                   match last_value t l with
                   | Some d => ∃ nla, aget tb t = Some (Some nla) ∧ libbpf_nla_len req' nla = Some (zlen d)
                                      ∧ aget_list req' (libbpf_nla_data nla) (length d) = Some d
                   | None => aget tb t = Some None
                   end
      else ret = - EMSGSIZE.
Proof.
  intros Hreq Hl Hmax. destruct (add_all_ok l req base [] (fresh_holds _ _ Hreq) Hl) as (ret & req' & al & E & H & Hk & Hres).
  exists ret, req'. split_and!; [done|done|]. change (args_of [] ++ l) with l in Hres. change (zlen (stream [])) with 0 in Hres. rewrite Z.add_0_r in Hres.
  destruct (base + total_size l <=? sizeof_req); [|by destruct Hres]. destruct Hres as (-> & Hargs & Hst). rewrite Z.add_0_l in Hst.
  split_and!; [done|rewrite <- Hst; apply H|]. rewrite <- Hst.
  destruct (parse_located req' maxtype base al) as (tb & Ep & Htb); [apply H|apply H|done|]. exists tb. split; [done|].
  intros t Ht. rewrite <- Hargs, last_value_args. specialize (Htb t Ht). destruct (last_of t al) as [a|]; cbn [fmap option_fmap option_map]; [|done].
  destruct Htb as (nla & En & Ha & Hloc). destruct (attr_located req' nla a Ha Hloc) as (El & _ & Hd).
  exists nla. split_and!; [done| |].
  - unfold libbpf_nla_len, nla_len_of. rewrite El. cbn. f_equal. change NLA_HDRLEN with 4. lia.
  - unfold libbpf_nla_data. change NLA_HDRLEN with 4. by apply located_list.
Qed.

(** ** The request that attaches a program *)

(** The bytes of an attribute, if the table has one. *)
Definition attr_value (req : list Z) (tb : list (option Z)) (t : Z) : option (option (list Z)) :=
  e ← aget tb t;
  match e with
  | None => Some None
  | Some nla => len ← libbpf_nla_len req nla; bytes ← aget_list req (libbpf_nla_data nla) (Z.to_nat len); Some (Some bytes)
  end.

(** What the kernel finds: the interface, and the values nested in IFLA_XDP. *)
Definition read_xdp_request (req : list Z) : option (list Z * option (list Z) * option (list Z) * option (list Z)) :=
  ifindex ← aget_list req 20 4;
  len ← ld_le32 req 0;
  '(_, tb) ← libbpf_nla_parse req IFLA_XDP 32 (len - 32) None;
  e ← aget tb IFLA_XDP;
  nla ← e;
  '(_, xtb) ← libbpf_nla_parse_nested req IFLA_XDP_EXPECTED_FD nla None;
  fd ← attr_value req xtb IFLA_XDP_FD;
  flags ← attr_value req xtb IFLA_XDP_FLAGS;
  expected ← attr_value req xtb IFLA_XDP_EXPECTED_FD;
  Some (ifindex, fd, flags, expected).

Lemma xdp_header_bytes ifindex : ∃ i0 i1 i2 i3, int_bytes ifindex = [i0; i1; i2; i3]
  ∧ xdp_request_header ifindex
    = Some ([32; 0; 0; 0; 19; 0; 5; 0; 0; 0; 0; 0; 0; 0; 0; 0; 0; 0; 0; 0; i0; i1; i2; i3] ++ replicate 140 0).
Proof.
  eexists _, _, _, _. split; [reflexivity|]. unfold xdp_request_header.
  match goal with |- (req ← ?a; _) = _ => let b := eval vm_compute in a in change a with b end. cbn [mbind option_bind].
  match goal with |- (req ← ?a; _) = _ => let b := eval vm_compute in a in change a with b end. cbn [mbind option_bind].
  match goal with |- (req ← ?a; _) = _ => let b := eval vm_compute in a in change a with b end. cbn [mbind option_bind].
  match goal with |- (req ← ?a; _) = _ => let b := eval vm_compute in a in change a with b end. cbn [mbind option_bind].
  rewrite st_le32_splice by (cbn [length]; lia).
  assert (le32 (u32 ifindex) = int_bytes ifindex) as ->; [|reflexivity].
  assert (∀ k, 0 <= k <= 24 → u8 (Z.shiftr (u32 ifindex) k) = u8 (Z.shiftr ifindex k)) as H.
  { intros k Hk. unfold u8, u32. rewrite <- !(Z.land_ones _ 8), <- (Z.land_ones _ 32) by lia. apply Z.bits_inj'. intros n Hn.
    rewrite !Z.land_spec, !Z.shiftr_spec, Z.land_spec by lia. rewrite !Z.testbit_ones_nonneg by lia.
    destruct (Z.ltb_spec n 8); [|by rewrite !andb_false_r]. rewrite (proj2 (Z.ltb_lt (n + k) 32)) by lia. by rewrite !andb_true_r. }
  unfold le32, int_bytes. rewrite !H by lia. f_equal. specialize (H 0 ltac:(lia)). by rewrite !Z.shiftr_0_r in H.
Qed.

(** For any interface, descriptors and flags the request fits and is sent, and a
    reader of the request finds the interface and, nested in the attribute
    IFLA_XDP, the descriptor, the flags unless they are 0, and the expected
    descriptor exactly when the flags ask for a replacement. *)
Lemma xdp_request_reads_back {A} (err : Z → A) (send_recv : list Z → A) ifindex fd old_fd flags :
  ∃ req len, __bpf_set_link_xdp_fd_replace err send_recv ifindex fd old_fd flags = Some (send_recv req)
    ∧ zlen req = sizeof_req ∧ ld_le32 req 0 = Some len ∧ 0 <= len <= sizeof_req
    ∧ read_xdp_request req = Some (int_bytes ifindex, Some (int_bytes fd),
        if flags =? 0 then None else Some (int_bytes flags),
        if Z.land flags XDP_FLAGS_REPLACE =? 0 then None else Some (int_bytes old_fd)).
Proof.
  unfold __bpf_set_link_xdp_fd_replace. destruct (xdp_header_bytes ifindex) as (i0 & i1 & i2 & i3 & -> & ->).
  assert (∀ x, ∃ b0 b1 b2 b3, int_bytes x = [b0; b1; b2; b3]) as Hbytes by (intros x; by eexists _, _, _, _).
  destruct (Hbytes fd) as (f0 & f1 & f2 & f3 & ->). destruct (Hbytes old_fd) as (o0 & o1 & o2 & o3 & ->).
  destruct (Hbytes flags) as (g0 & g1 & g2 & g3 & ->).
  assert (flags = 0 → (Z.land flags XDP_FLAGS_REPLACE =? 0) = true) as Hz by (intros ->; reflexivity).
  destruct (Z.eqb_spec flags 0) as [E|E]; [rewrite (Hz E)|destruct (Z.land flags XDP_FLAGS_REPLACE =? 0)]; clear;
    cbn [negb];
    match goal with |- ∃ r l, ?L = Some (?s r) ∧ _ => let v := eval vm_compute in L in match v with Some (_ ?q) =>
      let l := eval vm_compute in (ld_le32 q 0) in match l with Some ?n => exists q, n end end end;
    (split; [vm_compute; reflexivity|]; split; [vm_compute; reflexivity|]; split; [vm_compute; reflexivity|]; split; [vm_compute; split; discriminate|vm_compute; reflexivity]).
Qed.

(** ** Witnesses *)

Lemma libbpf_nla_parse_safe_witness :
  ∃ err tb, libbpf_nla_parse [8; 0; 1; 0; 104; 105; 0; 9; 5; 0; 2; 0; 1; 0; 0; 0] 3 0 16 (Some extack_policy) = Some (err, tb)
    ∧ (err = 0 ∨ err = -1 ∧ Some extack_policy ≠ None)
    ∧ tb_ok [8; 0; 1; 0; 104; 105; 0; 9; 5; 0; 2; 0; 1; 0; 0; 0] 0 (0 + 16) 3 (Some extack_policy) tb
    ∧ ∀ t nla maxtype' policy', aget tb t = Some (Some nla) → 0 <= maxtype' →
        (∀ p, policy' = Some p → policy_ok p ∧ maxtype' < zlen p) →
        ∃ err' tb' l, ld_le16 [8; 0; 1; 0; 104; 105; 0; 9; 5; 0; 2; 0; 1; 0; 0; 0] nla = Some l
          ∧ libbpf_nla_parse_nested [8; 0; 1; 0; 104; 105; 0; 9; 5; 0; 2; 0; 1; 0; 0; 0] maxtype' nla policy' = Some (err', tb')
          ∧ tb_ok [8; 0; 1; 0; 104; 105; 0; 9; 5; 0; 2; 0; 1; 0; 0; 0] (nla + 4) (nla + l) maxtype' policy' tb'.
Proof.
  apply (libbpf_nla_parse_safe [8; 0; 1; 0; 104; 105; 0; 9; 5; 0; 2; 0; 1; 0; 0; 0] 3 0 16 (Some extack_policy)).
  - by apply bytes_ok_dec.
  - lia.
  - cbn. lia.
  - lia.
  - intros policy' [= <-]. split; [|reflexivity]. unfold policy_ok, extack_policy.
    do 4 (apply List.Forall_cons; [zeval|]). apply List.Forall_nil.
Defined.

Definition empty_request : list Z := [16; 0; 0; 0] ++ replicate 160 0.

Lemma nlattr_roundtrip_witness :
  ∃ ret req', add_all empty_request [(2, [98; 112; 102; 0]); (7, []); (2, [99])] = Some (ret, req')
    ∧ (∀ i, 4 <= i < 16 → aget req' i = aget empty_request i)
    ∧ (ret = 0 ∧ ld_le32 req' 0 = Some (16 + 20)
       ∧ ∃ tb, libbpf_nla_parse req' 7 16 20 None = Some (0, tb)
           ∧ ∀ t, 0 <= t <= 7 →
               match last_value t [(2, [98; 112; 102; 0]); (7, []); (2, [99])] with
               | Some d => ∃ nla, aget tb t = Some (Some nla) ∧ libbpf_nla_len req' nla = Some (zlen d)
                                  ∧ aget_list req' (libbpf_nla_data nla) (length d) = Some d
               | None => aget tb t = Some None
               end).
Proof.
  apply (nlattr_roundtrip empty_request 16 [(2, [98; 112; 102; 0]); (7, []); (2, [99])] 7).
  - split_and!; try done. by apply bytes_ok_dec.
  - do 3 (apply List.Forall_cons; [split_and!; [cbn; lia|cbn; lia|by apply bytes_ok_dec|reflexivity]|]). apply List.Forall_nil.
  - lia.
Defined.
