(* ===== verification/Netlink.v ===== *)
(** * Netlink ([lib/libbpf/src/netlink.c])

    Sockets, the exchange of a request and its answers, and the functions that
    attach and query programs of interfaces and of traffic control.

    The system is a list of exchanges, one for each socket that is opened: what
    its calls return.  A function is a computation on the state of the process
    that may wait for ever. *)

From stdpp Require Import gmap.
From S2P Require Import Prelude Bytes CString Nlattr.

(** ** The system *)

(** What one call of [recvmsg] finds. *)
Inductive recv_result : Type :=
| RecvFails (errno : Z)
| Datagram (data : list Z).

(** The results of the calls on one socket; 0 is success for those that only
    return an error.  After the last of [ex_calls] a call waits. *)
Record exchange : Type := mkExchange {
  ex_socket : Z + Z;
  ex_bind : Z;
  ex_getsockname : Z + Z * Z;
  ex_time : Z;
  ex_send : Z;
  ex_realloc : Z → bool;
  ex_calls : list recv_result;
}.

(** The number of exchanges, the requests sent, with their protocol, the open
    sockets and the number of receive buffers. *)
Record net : Type := mkNet { n_no : nat; n_sent : list (Z * list Z); n_socks : list Z; n_bufs : Z }.

(** [None] is a fault, [Some None] waits for ever. *)
Definition M (A : Type) : Type := net → option (option (A * net)).
#[export] Instance m_ret : MRet M := λ A a n, Some (Some (a, n)).
#[export] Instance m_bind : MBind M := λ A B f m n,
  match m n with
  | Some (Some (a, n)) => f a n
  | Some None => Some None
  | None => None
  end.

(** A memory access. *)
Definition lift {A} (o : option A) : M A := λ n, match o with Some a => Some (Some (a, n)) | None => None end.
Definition waits {A} : M A := λ _, Some None.
Definition modify (f : net → net) : M unit := λ n, Some (Some (tt, f n)).

Definition open_sock (sock : Z) : M unit := modify (λ n, mkNet (n_no n) (n_sent n) (sock :: n_socks n) (n_bufs n)).
Definition close (sock : Z) : M unit := modify (λ n, mkNet (n_no n) (n_sent n) (filter (λ s, s ≠ sock) (n_socks n)) (n_bufs n)).
Definition record_request (proto : Z) (req : list Z) : M unit :=
  modify (λ n, mkNet (n_no n) (n_sent n ++ [(proto, req)]) (n_socks n) (n_bufs n)).
Definition add_bufs (d : Z) : M unit := modify (λ n, mkNet (n_no n) (n_sent n) (n_socks n) (n_bufs n + d)).
Definition next_exchange : M nat := λ n, Some (Some (n_no n, mkNet (S (n_no n)) (n_sent n) (n_socks n) (n_bufs n))).

(** ** Constants *)

Definition EINTR : Z := 4.
Definition EAGAIN : Z := 11.
Definition ENOMEM : Z := 12.
Definition ENOENT : Z := 2.
Definition ENAMETOOLONG : Z := 36.
Definition EOPNOTSUPP : Z := 95.
Definition LIBBPF_ERRNO__INTERNAL : Z := 4004.
Definition LIBBPF_ERRNO__WRNGPID : Z := 4011.
Definition LIBBPF_ERRNO__INVSEQ : Z := 4012.
Definition LIBBPF_ERRNO__NLPARSE : Z := 4013.

Definition sizeof_sockaddr_nl : Z := 12.
Definition NETLINK_ROUTE : Z := 0.
Definition NETLINK_GENERIC : Z := 16.
Definition NLM_F_MULTI : Z := 2.
Definition NLM_F_ECHO : Z := 8.
Definition NLM_F_ROOT : Z := 0x100.
Definition NLM_F_MATCH : Z := 0x200.
Definition NLM_F_DUMP : Z := Z.lor NLM_F_ROOT NLM_F_MATCH.
Definition NLM_F_REPLACE : Z := 0x100.
Definition NLM_F_EXCL : Z := 0x200.
Definition NLM_F_CREATE : Z := 0x400.
Definition NLMSG_ERROR : Z := 2.
Definition NLMSG_DONE : Z := 3.

(** ** Sockets *)

Section netlink.
Variable system : nat → exchange.

(** The socket, or an error, and the identifier of its port. *)
Definition libbpf_netlink_open (x : exchange) (proto : Z) : M (Z * Z) :=
  match ex_socket x with
  | inl errno => mret (- errno, 0)
  | inr sock =>
      _ ← open_sock sock;
      let cleanup ret := _ ← close sock; mret (ret, 0) in
      if negb (ex_bind x =? 0) then cleanup (- ex_bind x) else
      match ex_getsockname x with
      | inl errno => cleanup (- errno)
      | inr (addrlen, nl_pid) =>
          if negb (addrlen =? sizeof_sockaddr_nl) then cleanup (- LIBBPF_ERRNO__INTERNAL) else mret (sock, nl_pid)
      end
  end.

Definition libbpf_netlink_close (sock : Z) : M unit := close sock.

(** ** Receiving *)

Definition NL_CONT : Z := 0.
Definition NL_NEXT : Z := 1.
Definition NL_DONE : Z := 2.

(** The datagram or error that ends the loop, with the calls that are left;
    [None] waits. *)
Fixpoint netlink_recvmsg (calls : list recv_result) : option ((Z + list Z) * list recv_result) :=
  match calls with
  | [] => None
  | RecvFails errno :: calls => if (errno =? EINTR) || (errno =? EAGAIN) then netlink_recvmsg calls else Some (inl (- errno), calls)
  | Datagram data :: calls => Some (inr data, calls)
  end.

(** Only the data that were received are memory that may be read. *)
Definition NLMSG_OK (data : list Z) (nh len : Z) : option bool :=
  if len <? sizeof_nlmsghdr then Some false else
  l ← ld_le32 data nh; Some ((sizeof_nlmsghdr <=? l) && (l <=? len)).

Definition NLMSG_DATA (nh : Z) : Z := nh + NLMSG_LENGTH 0.
Definition NLMSG_SPACE (len : Z) : Z := NLMSG_ALIGN (NLMSG_LENGTH len).
Definition NLMSG_PAYLOAD (data : list Z) (nh len : Z) : option Z := l ← ld_le32 data nh; Some (s32 (u32 (l - NLMSG_SPACE len))).

(** How the loop over the messages is left. *)
Inductive verdict : Type := Finish (ret : Z) | Restart.

Section recv.
Context {C : Type}.

(** A function of type [__dump_nlmsg_t] with its last argument, which it may
    change, and, where it takes one, its second argument. *)
Variable fn : option (list Z → Z → C → option (Z * C)).

(** The loop on the message, the length that is left, [multipart] and the
    argument of the callback. *)
Definition msg_body (data : list Z) (nl_pid seq : Z) (s : Z * Z * bool * C * option verdict)
    : option (ctl (Z * Z * bool * C * option verdict)) :=
  let '(nh, len, multipart, cookie, _) := s in
  ok ← NLMSG_OK data nh len;
  if negb ok then Some (Break (nh, len, multipart, cookie, None)) else
  pid ← ld_le32 data (nh + 12);
  if negb (pid =? nl_pid) then Some (Break (nh, len, multipart, cookie, Some (Finish (- LIBBPF_ERRNO__WRNGPID)))) else
  nlmsg_seq ← ld_le32 data (nh + 8);
  if negb (nlmsg_seq =? u32 seq) then Some (Break (nh, len, multipart, cookie, Some (Finish (- LIBBPF_ERRNO__INVSEQ)))) else
  flags ← ld_le16 data (nh + 6);
  let multipart := negb (Z.land flags NLM_F_MULTI =? 0) || multipart in
  type ← ld_le16 data (nh + 4);
  l ← ld_le32 data nh;
  let next cookie := Next (nh + NLMSG_ALIGN l, len - NLMSG_ALIGN l, multipart, cookie, None) in
  let stop v cookie := Break (nh, len, multipart, cookie, Some v) in
  if type =? NLMSG_ERROR then
    error ← ld_le32 data (NLMSG_DATA nh);
    if error =? 0 then Some (next cookie) else
    _ ← libbpf_nla_dump_errormsg data nh;
    Some (stop (Finish (s32 error)) cookie)
  else if type =? NLMSG_DONE then Some (stop (Finish 0) cookie)
  else match fn with
  | None => Some (next cookie)
  | Some fn =>
      '(ret, cookie) ← fn data nh cookie;
      Some (if ret =? NL_CONT then next cookie else if ret =? NL_NEXT then stop Restart cookie
            else if ret =? NL_DONE then stop (Finish 0) cookie else stop (Finish ret) cookie)
  end.

(** The messages of a datagram: each takes at least 16 bytes. *)
Definition recv_messages (data : list Z) (nl_pid seq : Z) (cookie : C) : option (bool * C * option verdict) :=
  '(_, _, multipart, cookie, v) ← while_loop (S (Z.to_nat (zlen data / 16))) (msg_body data nl_pid seq) (0, zlen data, false, cookie, None);
  Some (multipart, cookie, v).

(** The loop of [libbpf_netlink_recv] from [start]; each turn takes two calls. *)
Fixpoint recv_loop (fuel : nat) (x : exchange) (nl_pid seq : Z) (calls : list recv_result) (iov_len : Z) (cookie : C)
    : option (option (Z * C)) :=
  match fuel with
  | O => None
  | S fuel =>
      match netlink_recvmsg calls with
      | None => Some None
      | Some (inl err, _) => Some (Some (err, cookie))
      | Some (inr peeked, calls) =>
          let len := zlen peeked in
          if (iov_len <? len) && negb (ex_realloc x len) then Some (Some (- ENOMEM, cookie)) else
          let iov_len := Z.max iov_len len in
          match netlink_recvmsg calls with
          | None => Some None
          | Some (inl err, _) => Some (Some (err, cookie))
          | Some (inr data, calls) =>
              let data := take (Z.to_nat iov_len) data in
              if zlen data =? 0 then Some (Some (0, cookie)) else
              '(multipart, cookie, v) ← recv_messages data nl_pid seq cookie;
              match v with
              | Some (Finish ret) => Some (Some (ret, cookie))
              | Some Restart => recv_loop fuel x nl_pid seq calls iov_len cookie
              | None => if multipart : bool then recv_loop fuel x nl_pid seq calls iov_len cookie else Some (Some (0, cookie))
              end
          end
      end
  end.

Definition libbpf_netlink_recv (x : exchange) (nl_pid seq : Z) (cookie : C) : M (Z * C) :=
  if negb (ex_realloc x 4096) then mret (- ENOMEM, cookie) else
  _ ← add_bufs 1;
  r ← lift (recv_loop (S (length (ex_calls x))) x nl_pid seq (ex_calls x) 4096 cookie);
  match r with
  | None => waits
  | Some r => _ ← add_bufs (-1); mret r
  end.

Definition libbpf_netlink_send_recv (req : list Z) (proto : Z) (cookie : C) : M (Z * C) :=
  i ← next_exchange;
  let x := system i in
  '(sock, nl_pid) ← libbpf_netlink_open x proto;
  if sock <? 0 then mret (sock, cookie) else
  req ← lift (st_le32 req 12 0);
  req ← lift (st_le32 req 8 (u32 (ex_time x)));
  len ← lift (ld_le32 req 0);
  sent ← lift (aget_list req 0 (Z.to_nat len));
  _ ← record_request proto sent;
  '(ret, cookie) ← (if negb (ex_send x =? 0) then mret (- ex_send x, cookie)
                    else libbpf_netlink_recv x nl_pid (ex_time x) cookie);
  _ ← libbpf_netlink_close sock;
  mret (ret, cookie).
End recv.

(** ** Families of generic netlink *)

Definition sizeof_genlmsghdr : Z := 4.
Definition GENL_HDRLEN : Z := NLMSG_ALIGN sizeof_genlmsghdr.
Definition GENL_ID_CTRL : Z := 16.
Definition CTRL_CMD_GETFAMILY : Z := 3.
Definition CTRL_ATTR_FAMILY_ID : Z := 1.
Definition CTRL_ATTR_FAMILY_NAME : Z := 2.

(** An entry of the table of attributes. *)
Definition entry (tb : list (option Z)) (t : Z) : option (option Z) := aget tb t.

(** The identifier is unset, [None], before the first call. *)
Definition parse_genl_family_id (data : list Z) (nh : Z) (id : option Z) : option (Z * option Z) :=
  let na := NLMSG_DATA nh + GENL_HDRLEN in
  len ← NLMSG_PAYLOAD data nh sizeof_genlmsghdr;
  '(_, tb) ← libbpf_nla_parse data CTRL_ATTR_FAMILY_ID na len None;
  a ← entry tb CTRL_ATTR_FAMILY_ID;
  match a with
  | None => Some (NL_CONT, id)
  | Some a => v ← libbpf_nla_getattr_u16 data a; Some (NL_DONE, Some v)
  end.

(** A request of 164 zeroed bytes with its header. *)
Definition new_req (len type flags : Z) : option (list Z) :=
  req ← st_le32 (replicate (Z.to_nat sizeof_req) 0) 0 len;
  req ← st_le16 req 6 flags;
  st_le16 req 4 type.

Definition genl_req (type cmd version : Z) : option (list Z) :=
  req ← new_req (NLMSG_LENGTH GENL_HDRLEN) type NLM_F_REQUEST;
  req ← aset req 16 cmd;
  aset req 17 version.

Definition libbpf_netlink_resolve_genl_family_id (name : list Z) (len : Z) (id : option Z) : M (Z * option Z) :=
  req ← lift (genl_req GENL_ID_CTRL CTRL_CMD_GETFAMILY 2);
  '(err, req) ← lift (nlattr_add req CTRL_ATTR_FAMILY_NAME (Some name) len);
  if err <? 0 then mret (err, id) else
  libbpf_netlink_send_recv (Some parse_genl_family_id) req NETLINK_GENERIC id.

(** ** Options *)

(** The memory a pointer to options leads to, or NULL. *)
Definition ld_le64 (mem : list Z) (o : Z) : option Z := lo ← ld_le32 mem o; hi ← ld_le32 mem (o + 4); Some (lo + hi * 2 ^ 32).
Definition st_le64 (mem : list Z) (o v : Z) : option (list Z) := mem ← st_le32 mem o (u32 v); st_le32 mem (o + 4) (Z.shiftr v 32).

Definition libbpf_is_mem_zeroed (mem : list Z) (off len : Z) : option bool :=
  bytes ← aget_list mem off (Z.to_nat len); Some (forallb (Z.eqb 0) bytes).

Definition libbpf_validate_opts (mem : list Z) (opts_sz user_sz : Z) : option bool :=
  if user_sz <? 8 then Some false else libbpf_is_mem_zeroed mem opts_sz (user_sz - opts_sz).

Definition OPTS_VALID (opts : option (list Z)) (last : Z) : option bool :=
  match opts with
  | None => Some true
  | Some mem => sz ← ld_le64 mem 0; libbpf_validate_opts mem last sz
  end.

(** Whether the options have a field that ends at [off]. *)
Definition OPTS_HAS (opts : option (list Z)) (off : Z) : option bool :=
  match opts with
  | None => Some false
  | Some mem => sz ← ld_le64 mem 0; Some (off <=? sz)
  end.

(** The field of 4 bytes at [off], or 0. *)
Definition OPTS_GET (opts : option (list Z)) (off : Z) : option Z :=
  has ← OPTS_HAS opts (off + 4);
  match opts with
  | Some mem => if has : bool then ld_le32 mem off else Some 0
  | None => Some 0
  end.

Definition OPTS_SET (opts : option (list Z)) (off value : Z) : option (option (list Z)) :=
  has ← OPTS_HAS opts (off + 4);
  match opts with
  | Some mem => if has : bool then mem ← st_le32 mem off value; Some (Some mem) else Some opts
  | None => Some None
  end.

(** [OPTS_SET] of a byte. *)
Definition OPTS_SET_u8 (opts : option (list Z)) (off value : Z) : option (option (list Z)) :=
  has ← OPTS_HAS opts (off + 1);
  match opts with
  | Some mem => if has : bool then mem ← aset mem off value; Some (Some mem) else Some opts
  | None => Some None
  end.

(** ** Attaching XDP programs *)

(** [struct bpf_xdp_attach_opts]. *)
Definition xdp_attach_opts_old_prog_fd : Z := 8.
Definition xdp_attach_opts_size : Z := 12.

Definition bpf_xdp_attach (ifindex prog_fd flags : Z) (opts : option (list Z)) : M Z :=
  valid ← lift (OPTS_VALID opts xdp_attach_opts_size);
  if negb valid then mret (- EINVAL) else
  old ← lift (OPTS_GET opts xdp_attach_opts_old_prog_fd);
  let '(flags, old) := if negb (old =? 0) then (Z.lor flags XDP_FLAGS_REPLACE, s32 old) else (flags, -1) in
  m ← lift (__bpf_set_link_xdp_fd_replace (λ err, mret err)
             (λ req, '(ret, _) ← libbpf_netlink_send_recv None req NETLINK_ROUTE tt; mret ret) ifindex prog_fd old flags);
  m.

Definition bpf_xdp_detach (ifindex flags : Z) (opts : option (list Z)) : M Z := bpf_xdp_attach ifindex (-1) flags opts.

(** ** Querying XDP programs *)

Record xdp_link_info : Type := mkInfo { prog_id : Z; drv_prog_id : Z; hw_prog_id : Z; skb_prog_id : Z; attach_mode : Z }.
Record xdp_id_md : Type := mkIdMd { id_ifindex : Z; id_flags : Z; id_info : xdp_link_info; id_feature_flags : Z }.
Record xdp_features_md : Type := mkFeatMd { md_ifindex : Z; md_flags : Z }.

Definition IFLA_MAX : Z := 60.
Definition IFLA_XDP_ATTACHED : Z := 2.
Definition IFLA_XDP_PROG_ID : Z := 4.
Definition IFLA_XDP_DRV_PROG_ID : Z := 5.
Definition IFLA_XDP_SKB_PROG_ID : Z := 6.
Definition IFLA_XDP_HW_PROG_ID : Z := 7.
Definition IFLA_XDP_MAX : Z := 8.
Definition XDP_ATTACHED_NONE : Z := 0.
Definition XDP_ATTACHED_MULTI : Z := 4.
Definition XDP_FLAGS_SKB_MODE : Z := 2.
Definition XDP_FLAGS_DRV_MODE : Z := 4.
Definition XDP_FLAGS_HW_MODE : Z := 8.
Definition XDP_FLAGS_MODES : Z := Z.lor (Z.lor XDP_FLAGS_SKB_MODE XDP_FLAGS_DRV_MODE) XDP_FLAGS_HW_MODE.
Definition XDP_FLAGS_MASK : Z := Z.lor (Z.lor 1 XDP_FLAGS_MODES) XDP_FLAGS_REPLACE.
Definition NETDEV_A_DEV_IFINDEX : Z := 1.
Definition NETDEV_A_DEV_XDP_FEATURES : Z := 3.
Definition NETDEV_CMD_DEV_GET : Z := 1.
Definition NETDEV_CMD_MAX : Z := 4.
Definition RTM_GETLINK : Z := 18.
Definition AF_PACKET : Z := 17.

(** [dump] is given the offset of the [struct ifinfomsg] and the attributes. *)
Definition __dump_link_nlmsg {C} (dump : list Z → C → Z → list (option Z) → option (Z * C)) (data : list Z) (nlh : Z) (cookie : C)
    : option (Z * C) :=
  let ifi := NLMSG_DATA nlh in
  l ← ld_le32 data nlh;
  let len := s32 (u32 (l - NLMSG_LENGTH sizeof_ifinfomsg)) in
  let attr := ifi + NLMSG_ALIGN sizeof_ifinfomsg in
  '(ret, tb) ← libbpf_nla_parse data IFLA_MAX attr len None;
  if negb (ret =? 0) then Some (- LIBBPF_ERRNO__NLPARSE, cookie) else dump data cookie ifi tb.

(** A program identifier that is only taken when the attribute is there. *)
Definition take_id (data : list Z) (xdp_tb : list (option Z)) (t old : Z) : option Z :=
  a ← entry xdp_tb t;
  match a with Some a => libbpf_nla_getattr_u32 data a | None => Some old end.

Definition get_xdp_info (data : list Z) (x : xdp_id_md) (ifinfo : Z) (tb : list (option Z)) : option (Z * xdp_id_md) :=
  ifi_index ← (if id_ifindex x =? 0 then Some 0 else ld_le32 data (ifinfo + 4));
  if negb (id_ifindex x =? 0) && negb (id_ifindex x =? s32 ifi_index) then Some (0, x) else
  xdp ← entry tb IFLA_XDP;
  match xdp with
  | None => Some (0, x)
  | Some xdp =>
      '(ret, xdp_tb) ← libbpf_nla_parse_nested data IFLA_XDP_MAX xdp None;
      if negb (ret =? 0) then Some (ret, x) else
      attached ← entry xdp_tb IFLA_XDP_ATTACHED;
      match attached with
      | None => Some (0, x)
      | Some attached =>
          mode ← libbpf_nla_getattr_u8 data attached;
          let i := id_info x in
          let set i := mkIdMd (id_ifindex x) (id_flags x) i (id_feature_flags x) in
          if mode =? XDP_ATTACHED_NONE then Some (0, set (mkInfo (prog_id i) (drv_prog_id i) (hw_prog_id i) (skb_prog_id i) mode)) else
          prog ← take_id data xdp_tb IFLA_XDP_PROG_ID (prog_id i);
          skb ← take_id data xdp_tb IFLA_XDP_SKB_PROG_ID (skb_prog_id i);
          drv ← take_id data xdp_tb IFLA_XDP_DRV_PROG_ID (drv_prog_id i);
          hw ← take_id data xdp_tb IFLA_XDP_HW_PROG_ID (hw_prog_id i);
          Some (0, set (mkInfo prog drv hw skb mode))
      end
  end.

(** The table has [NETDEV_CMD_MAX + 1] entries, as in the code. *)
Definition parse_xdp_features (data : list Z) (nh : Z) (md : xdp_features_md) : option (Z * xdp_features_md) :=
  let na := NLMSG_DATA nh + GENL_HDRLEN in
  len ← NLMSG_PAYLOAD data nh sizeof_genlmsghdr;
  '(_, tb) ← libbpf_nla_parse data NETDEV_CMD_MAX na len None;
  i ← entry tb NETDEV_A_DEV_IFINDEX;
  f ← entry tb NETDEV_A_DEV_XDP_FEATURES;
  match i, f with
  | Some i, Some f =>
      ifindex ← libbpf_nla_getattr_u32 data i;
      if negb (ifindex =? u32 (md_ifindex md)) then Some (NL_CONT, md) else
      flags ← libbpf_nla_getattr_u64 data f;
      Some (NL_DONE, mkFeatMd (md_ifindex md) flags)
  | _, _ => Some (NL_CONT, md)
  end.

(** [struct bpf_xdp_query_opts]. *)
Definition xdp_query_opts_prog_id : Z := 8.
Definition xdp_query_opts_drv_prog_id : Z := 12.
Definition xdp_query_opts_hw_prog_id : Z := 16.
Definition xdp_query_opts_skb_prog_id : Z := 20.
Definition xdp_query_opts_attach_mode : Z := 24.
Definition xdp_query_opts_feature_flags : Z := 32.
Definition xdp_query_opts_size : Z := 40.

Definition netdev_name : list Z := Eval vm_compute in cstr "netdev" ++ [0].

(** The result and the options. *)
Definition set_info_opts (opts : option (list Z)) (i : xdp_link_info) : option (option (list Z)) :=
  opts ← OPTS_SET opts xdp_query_opts_prog_id (prog_id i);
  opts ← OPTS_SET opts xdp_query_opts_drv_prog_id (drv_prog_id i);
  opts ← OPTS_SET opts xdp_query_opts_hw_prog_id (hw_prog_id i);
  opts ← OPTS_SET opts xdp_query_opts_skb_prog_id (skb_prog_id i);
  OPTS_SET_u8 opts xdp_query_opts_attach_mode (attach_mode i).

Definition set_features (opts : option (list Z)) (flags : Z) : option (option (list Z)) :=
  mem ← opts; mem ← st_le64 mem xdp_query_opts_feature_flags flags; Some (Some mem).

Definition query_features (ifindex : Z) (opts : option (list Z)) : M (Z * option (list Z)) :=
  '(err, id) ← libbpf_netlink_resolve_genl_family_id netdev_name 7 None;
  if err <? 0 then
    if err =? - ENOENT then opts ← lift (set_features opts 0); mret (0, opts) else mret (err, opts)
  else
  id ← lift id;
  req ← lift (genl_req id NETDEV_CMD_DEV_GET 2);
  '(err, req) ← lift (nlattr_add req NETDEV_A_DEV_IFINDEX (Some (int_bytes ifindex)) 4);
  if err <? 0 then mret (err, opts) else
  '(err, md) ← libbpf_netlink_send_recv (Some parse_xdp_features) req NETLINK_GENERIC (mkFeatMd ifindex 0);
  if negb (err =? 0) then mret (err, opts) else
  opts ← lift (set_features opts (md_flags md)); mret (0, opts).

Definition link_req : option (list Z) :=
  req ← new_req (NLMSG_LENGTH sizeof_ifinfomsg) RTM_GETLINK (Z.lor NLM_F_DUMP NLM_F_REQUEST);
  aset req 16 AF_PACKET.

Definition bpf_xdp_query (ifindex xdp_flags : Z) (opts : option (list Z)) : M (Z * option (list Z)) :=
  valid ← lift (OPTS_VALID opts xdp_query_opts_size);
  if negb valid then mret (- EINVAL, opts) else
  if negb (Z.land (u32 xdp_flags) (not32 XDP_FLAGS_MASK) =? 0) then mret (- EINVAL, opts) else
  let xdp_flags := Z.land xdp_flags (Z.lor (Z.lor XDP_FLAGS_SKB_MODE XDP_FLAGS_DRV_MODE) XDP_FLAGS_HW_MODE) in
  if negb (Z.land xdp_flags (xdp_flags - 1) =? 0) then mret (- EINVAL, opts) else
  req ← lift link_req;
  '(err, x) ← libbpf_netlink_send_recv (Some (__dump_link_nlmsg get_xdp_info)) req NETLINK_ROUTE
                (mkIdMd ifindex xdp_flags (mkInfo 0 0 0 0 0) 0);
  if negb (err =? 0) then mret (err, opts) else
  opts ← lift (set_info_opts opts (id_info x));
  has ← lift (OPTS_HAS opts xdp_query_opts_size);
  if negb has then mret (0, opts) else query_features ifindex opts.

(** The options of [LIBBPF_OPTS] are zero but for their size. *)
Definition query_opts : option (list Z) := st_le64 (replicate 40 0) 0 40.

(** The result and [*prog_id] when it was set. *)
Definition bpf_xdp_query_id (ifindex flags : Z) : M (Z * option Z) :=
  mem ← lift query_opts;
  '(ret, opts) ← bpf_xdp_query ifindex flags (Some mem);
  if negb (ret =? 0) then mret (ret, None) else
  mem ← lift opts;
  let flags := Z.land flags XDP_FLAGS_MODES in
  mode ← lift (aget mem xdp_query_opts_attach_mode);
  id ← lift (if negb (mode =? XDP_ATTACHED_MULTI) && (flags =? 0) then ld_le32 mem xdp_query_opts_prog_id
             else if negb (Z.land flags XDP_FLAGS_DRV_MODE =? 0) then ld_le32 mem xdp_query_opts_drv_prog_id
             else if negb (Z.land flags XDP_FLAGS_HW_MODE =? 0) then ld_le32 mem xdp_query_opts_hw_prog_id
             else if negb (Z.land flags XDP_FLAGS_SKB_MODE =? 0) then ld_le32 mem xdp_query_opts_skb_prog_id
             else Some 0);
  mret (0, Some id).

(** ** Traffic control *)

Definition ETH_P_ALL : Z := 3.
Definition UINT16_MAX : Z := 65535.
Definition RTM_NEWQDISC : Z := 36.
Definition RTM_DELQDISC : Z := 37.
Definition RTM_NEWTFILTER : Z := 44.
Definition RTM_DELTFILTER : Z := 45.
Definition RTM_GETTFILTER : Z := 46.
Definition TCA_KIND : Z := 1.
Definition TCA_OPTIONS : Z := 2.
Definition TCA_BPF_FD : Z := 6.
Definition TCA_BPF_NAME : Z := 7.
Definition TCA_BPF_FLAGS : Z := 8.
Definition TCA_BPF_ID : Z := 11.
Definition TCA_BPF_MAX : Z := 11.
Definition TCA_BPF_FLAG_ACT_DIRECT : Z := 1.
Definition TC_H_MAJ_MASK : Z := 0xFFFF0000.
Definition TC_H_MIN_MASK : Z := 0x0000FFFF.
Definition TC_H_MAJ (h : Z) : Z := Z.land h TC_H_MAJ_MASK.
Definition TC_H_MAKE (maj min : Z) : Z := Z.lor (Z.land maj TC_H_MAJ_MASK) (Z.land min TC_H_MIN_MASK).
Definition TC_H_CLSACT : Z := 0xFFFFFFF1.
Definition TC_H_MIN_INGRESS : Z := 0xFFF2.
Definition TC_H_MIN_EGRESS : Z := 0xFFF3.
Definition BPF_TC_INGRESS : Z := 1.
Definition BPF_TC_EGRESS : Z := 2.
Definition BPF_TC_CUSTOM : Z := 4.
Definition BPF_TC_F_REPLACE : Z := 1.
Definition sizeof_tcmsg : Z := 20.

(** The offsets of [struct tcmsg] in a request. *)
Definition req_tcm_ifindex : Z := 20.
Definition req_tcm_handle : Z := 24.
Definition req_tcm_parent : Z := 28.
Definition req_tcm_info : Z := 32.

(** [struct bpf_tc_hook]. *)
Definition tc_hook_ifindex : Z := 8.
Definition tc_hook_attach_point : Z := 12.
Definition tc_hook_parent : Z := 16.
Definition tc_hook_size : Z := 20.

(** [struct bpf_tc_opts]. *)
Definition tc_opts_prog_fd : Z := 8.
Definition tc_opts_flags : Z := 12.
Definition tc_opts_prog_id : Z := 16.
Definition tc_opts_handle : Z := 20.
Definition tc_opts_priority : Z := 24.
Definition tc_opts_size : Z := 28.

Definition clsact_name : list Z := Eval vm_compute in cstr "clsact" ++ [0].
Definition bpf_name : list Z := Eval vm_compute in cstr "bpf" ++ [0].

Definition clsact_config (req : list Z) : option (Z * list Z) :=
  req ← st_le32 req req_tcm_parent TC_H_CLSACT;
  req ← st_le32 req req_tcm_handle (TC_H_MAKE TC_H_CLSACT 0);
  nlattr_add req TCA_KIND (Some clsact_name) 7.

(** The error, or 0; the configuration is always [clsact_config]. *)
Definition attach_point_to_config (hook : option (list Z)) : option Z :=
  attach_point ← OPTS_GET hook tc_hook_attach_point;
  if (attach_point =? BPF_TC_INGRESS) || (attach_point =? BPF_TC_EGRESS) || (attach_point =? Z.lor BPF_TC_INGRESS BPF_TC_EGRESS) then
    parent ← OPTS_GET hook tc_hook_parent;
    Some (if negb (parent =? 0) then - EINVAL else 0)
  else Some (if attach_point =? BPF_TC_CUSTOM then - EOPNOTSUPP else - EINVAL).

(** The error, or 0 with [*parent]. *)
Definition tc_get_tcm_parent (attach_point parent : Z) : Z * Z :=
  if (attach_point =? BPF_TC_INGRESS) || (attach_point =? BPF_TC_EGRESS) then
    if negb (parent =? 0) then (- EINVAL, parent) else
    (0, TC_H_MAKE TC_H_CLSACT (if attach_point =? BPF_TC_INGRESS then TC_H_MIN_INGRESS else TC_H_MIN_EGRESS))
  else if attach_point =? BPF_TC_CUSTOM then (if parent =? 0 then - EINVAL else 0, parent)
  else (- EINVAL, parent).

Definition tc_req (type flags ifindex : Z) : option (list Z) :=
  req ← new_req (NLMSG_LENGTH sizeof_tcmsg) type flags;
  req ← aset req 16 AF_UNSPEC;
  st_le32 req req_tcm_ifindex ifindex.

(** An exchange whose answers are not looked at. *)
Definition plain_send_recv (req : list Z) : M Z := '(ret, _) ← libbpf_netlink_send_recv None req NETLINK_ROUTE tt; mret ret.

Definition tc_qdisc_modify (hook : option (list Z)) (cmd flags : Z) : M Z :=
  ret ← lift (attach_point_to_config hook);
  if ret <? 0 then mret ret else
  ifindex ← lift (OPTS_GET hook tc_hook_ifindex);
  req ← lift (tc_req cmd (Z.lor (Z.lor NLM_F_REQUEST NLM_F_ACK) flags) ifindex);
  '(ret, req) ← lift (clsact_config req);
  if ret <? 0 then mret ret else plain_send_recv req.

Definition tc_qdisc_create_excl (hook : option (list Z)) : M Z := tc_qdisc_modify hook RTM_NEWQDISC (Z.lor NLM_F_CREATE NLM_F_EXCL).
Definition tc_qdisc_delete (hook : option (list Z)) : M Z := tc_qdisc_modify hook RTM_DELQDISC 0.

(** A hook that is there, valid, and of an interface. *)
Definition hook_ok (hook : option (list Z)) : option bool :=
  match hook with
  | None => Some false
  | Some _ =>
      valid ← OPTS_VALID hook tc_hook_size;
      if negb valid then Some false else
      ifindex ← OPTS_GET hook tc_hook_ifindex; Some (negb (s32 ifindex <=? 0))
  end.

Definition bpf_tc_hook_create (hook : option (list Z)) : M Z :=
  ok ← lift (hook_ok hook);
  if negb ok then mret (- EINVAL) else tc_qdisc_create_excl hook.

(** What the functions read from their arguments. *)
Record tc_args : Type := mkArgs {
  ta_ifindex : Z; ta_parent : Z; ta_attach_point : Z;
  ta_handle : Z; ta_priority : Z; ta_prog_fd : Z; ta_prog_id : Z; ta_flags : Z;
}.

Definition get_args (hook opts : option (list Z)) : option tc_args :=
  ifindex ← OPTS_GET hook tc_hook_ifindex;
  parent ← OPTS_GET hook tc_hook_parent;
  attach_point ← OPTS_GET hook tc_hook_attach_point;
  handle ← OPTS_GET opts tc_opts_handle;
  priority ← OPTS_GET opts tc_opts_priority;
  prog_fd ← OPTS_GET opts tc_opts_prog_fd;
  prog_id ← OPTS_GET opts tc_opts_prog_id;
  flags ← OPTS_GET opts tc_opts_flags;
  Some (mkArgs (s32 ifindex) parent attach_point handle priority (s32 prog_fd) prog_id flags).

(** The request for a filter, with its place when it is given. *)
Definition filter_req (type flags : Z) (a : tc_args) (place : bool) : option (list Z) :=
  req ← tc_req type flags (u32 (ta_ifindex a));
  if place then
    req ← st_le32 req req_tcm_handle (ta_handle a);
    st_le32 req req_tcm_info (TC_H_MAKE (u32 (Z.shiftl (ta_priority a) 16)) (bswap16 ETH_P_ALL))
  else Some req.

(** [flush] removes all filters of the place. *)
Definition __bpf_tc_detach (hook opts : option (list Z)) (flush : bool) : M Z :=
  match hook with
  | None => mret (- EINVAL)
  | Some _ =>
      valid ← lift (OPTS_VALID hook tc_hook_size);
      if negb valid then mret (- EINVAL) else
      valid ← lift (OPTS_VALID opts tc_opts_size);
      if negb valid then mret (- EINVAL) else
      a ← lift (get_args hook opts);
      if (ta_ifindex a <=? 0) || negb (ta_flags a =? 0) || negb (ta_prog_fd a =? 0) || negb (ta_prog_id a =? 0) then mret (- EINVAL) else
      if UINT16_MAX <? ta_priority a then mret (- EINVAL) else
      if (if flush then negb (ta_handle a =? 0) || negb (ta_priority a =? 0) else (ta_handle a =? 0) || (ta_priority a =? 0))
      then mret (- EINVAL) else
      req ← lift (filter_req RTM_DELTFILTER (Z.lor NLM_F_REQUEST NLM_F_ACK) a (negb flush));
      let '(ret, parent) := tc_get_tcm_parent (ta_attach_point a) (ta_parent a) in
      if ret <? 0 then mret ret else
      req ← lift (st_le32 req req_tcm_parent parent);
      '(ret, req) ← lift (if flush then Some (0, req) else nlattr_add req TCA_KIND (Some bpf_name) 4);
      if ret <? 0 then mret ret else plain_send_recv req
  end.

Definition bpf_tc_hook_destroy (hook : option (list Z)) : M Z :=
  ok ← lift (hook_ok hook);
  if negb ok then mret (- EINVAL) else
  attach_point ← lift (OPTS_GET hook tc_hook_attach_point);
  if (attach_point =? BPF_TC_INGRESS) || (attach_point =? BPF_TC_EGRESS) then __bpf_tc_detach hook None true
  else if attach_point =? Z.lor BPF_TC_INGRESS BPF_TC_EGRESS then tc_qdisc_delete hook
  else mret (if attach_point =? BPF_TC_CUSTOM then - EOPNOTSUPP else - EINVAL).

Definition bpf_tc_detach (hook opts : option (list Z)) : M Z :=
  match opts with None => mret (- EINVAL) | Some _ => __bpf_tc_detach hook opts false end.

(** ** Filters that are reported *)

(** The argument of the callback: the options and [processed]. *)
Record bpf_cb_ctx : Type := mkCtx { cb_opts : option (list Z); cb_processed : bool }.

(** The largest attribute of the traffic control messages of the system. *)
Variable TCA_MAX : Z.

Definition __get_tc_info (data : list Z) (info : bpf_cb_ctx) (tc : Z) (tb : list (option Z)) (unicast : bool) : option (Z * bpf_cb_ctx) :=
  match cb_opts info with
  | None => Some (- EINVAL, info)
  | Some _ =>
      if unicast && cb_processed info then Some (- EINVAL, info) else
      options ← entry tb TCA_OPTIONS;
      match options with
      | None => Some (NL_CONT, info)
      | Some options =>
          '(_, tbb) ← libbpf_nla_parse_nested data TCA_BPF_MAX options None;
          id ← entry tbb TCA_BPF_ID;
          match id with
          | None => Some (- EINVAL, info)
          | Some id =>
              prog_id ← libbpf_nla_getattr_u32 data id;
              opts ← OPTS_SET (cb_opts info) tc_opts_prog_id prog_id;
              handle ← ld_le32 data (tc + 8);
              opts ← OPTS_SET opts tc_opts_handle handle;
              tcm_info ← ld_le32 data (tc + 16);
              opts ← OPTS_SET opts tc_opts_priority (Z.shiftr (TC_H_MAJ tcm_info) 16);
              Some (if unicast then NL_NEXT else NL_DONE, mkCtx opts true)
          end
      end
  end.

Definition get_tc_info (data : list Z) (nh : Z) (info : bpf_cb_ctx) : option (Z * bpf_cb_ctx) :=
  let tc := NLMSG_DATA nh in
  len ← NLMSG_PAYLOAD data nh sizeof_tcmsg;
  '(_, tb) ← libbpf_nla_parse data TCA_MAX (tc + NLMSG_ALIGN sizeof_tcmsg) len None;
  kind ← entry tb TCA_KIND;
  match kind with
  | None => Some (NL_CONT, info)
  | Some _ => flags ← ld_le16 data (nh + 6); __get_tc_info data info tc tb (negb (Z.land flags NLM_F_ECHO =? 0))
  end.

(** ** Attaching filters *)

(** [bpf_prog_get_info_by_fd]: the name and the identifier of a program, or an
    error. *)
Variable prog_info : Z → Z + list Z * Z.

(** The conversions of [snprintf]. *)
Fixpoint digits (fuel : nat) (n : Z) : list Z :=
  match fuel with
  | O => []
  | S fuel => if n <? 10 then [48 + n] else digits fuel (n / 10) ++ [48 + n mod 10]
  end.

Definition filter_name (name : list Z) (id : Z) : list Z := name ++ [58; 91] ++ digits 10 id ++ [93].

Definition tc_add_fd_and_name (req : list Z) (fd : Z) : option (Z * list Z) :=
  match prog_info fd with
  | inl err => Some (err, req)
  | inr (name, id) =>
      '(ret, req) ← nlattr_add req TCA_BPF_FD (Some (int_bytes fd)) 4;
      if ret <? 0 then Some (ret, req) else
      let name := filter_name name id in
      if 256 <=? zlen name then Some (- ENAMETOOLONG, req) else
      nlattr_add req TCA_BPF_NAME (Some (name ++ [0])) (zlen name + 1)
  end.

(** The end of [bpf_tc_attach] and [bpf_tc_query]: the result and the options. *)
Definition tc_exchange (req : list Z) (opts : option (list Z)) : M (Z * option (list Z)) :=
  '(ret, info) ← libbpf_netlink_send_recv (Some get_tc_info) req NETLINK_ROUTE (mkCtx opts false);
  if ret <? 0 then mret (ret, cb_opts info) else
  if negb (cb_processed info) then mret (- ENOENT, cb_opts info) else mret (ret, cb_opts info).

(** Both pointers are there and lead to valid options. *)
Definition both_valid (hook opts : option (list Z)) : option bool :=
  match hook, opts with
  | Some _, Some _ => v ← OPTS_VALID hook tc_hook_size; if negb v then Some false else OPTS_VALID opts tc_opts_size
  | _, _ => Some false
  end.

(** The attributes of [bpf_tc_attach]: the error, or 0, and the request. *)
Definition attach_attrs (req : list Z) (prog_fd : Z) : option (Z * list Z) :=
  '(ret, req) ← nlattr_add req TCA_KIND (Some bpf_name) 4;
  if ret <? 0 then Some (ret, req) else
  '(nla, req) ← nlattr_begin_nested req TCA_OPTIONS;
  match nla with
  | None => Some (- EMSGSIZE, req)
  | Some nla =>
      '(ret, req) ← tc_add_fd_and_name req prog_fd;
      if ret <? 0 then Some (ret, req) else
      '(ret, req) ← nlattr_add req TCA_BPF_FLAGS (Some (int_bytes TCA_BPF_FLAG_ACT_DIRECT)) 4;
      if ret <? 0 then Some (ret, req) else
      req ← nlattr_end_nested req nla; Some (0, req)
  end.

Definition bpf_tc_attach (hook opts : option (list Z)) : M (Z * option (list Z)) :=
  valid ← lift (both_valid hook opts);
  if negb valid then mret (- EINVAL, opts) else
  a ← lift (get_args hook opts);
  if (ta_ifindex a <=? 0) || (ta_prog_fd a =? 0) || negb (ta_prog_id a =? 0) then mret (- EINVAL, opts) else
  if UINT16_MAX <? ta_priority a then mret (- EINVAL, opts) else
  if negb (Z.land (ta_flags a) (not32 BPF_TC_F_REPLACE) =? 0) then mret (- EINVAL, opts) else
  let flags := if negb (Z.land (ta_flags a) BPF_TC_F_REPLACE =? 0) then NLM_F_REPLACE else NLM_F_EXCL in
  req ← lift (filter_req RTM_NEWTFILTER (Z.lor (Z.lor (Z.lor (Z.lor NLM_F_REQUEST NLM_F_ACK) NLM_F_CREATE) NLM_F_ECHO) flags) a true);
  let '(ret, parent) := tc_get_tcm_parent (ta_attach_point a) (ta_parent a) in
  if ret <? 0 then mret (ret, opts) else
  req ← lift (st_le32 req req_tcm_parent parent);
  '(ret, req) ← lift (attach_attrs req (ta_prog_fd a));
  if ret <? 0 then mret (ret, opts) else tc_exchange req opts.

Definition bpf_tc_query (hook opts : option (list Z)) : M (Z * option (list Z)) :=
  valid ← lift (both_valid hook opts);
  if negb valid then mret (- EINVAL, opts) else
  a ← lift (get_args hook opts);
  if (ta_ifindex a <=? 0) || negb (ta_flags a =? 0) || negb (ta_prog_fd a =? 0) || negb (ta_prog_id a =? 0)
     || (ta_handle a =? 0) || (ta_priority a =? 0) then mret (- EINVAL, opts) else
  if UINT16_MAX <? ta_priority a then mret (- EINVAL, opts) else
  req ← lift (filter_req RTM_GETTFILTER NLM_F_REQUEST a true);
  let '(ret, parent) := tc_get_tcm_parent (ta_attach_point a) (ta_parent a) in
  if ret <? 0 then mret (ret, opts) else
  req ← lift (st_le32 req req_tcm_parent parent);
  '(ret, req) ← lift (nlattr_add req TCA_KIND (Some bpf_name) 4);
  if ret <? 0 then mret (ret, opts) else tc_exchange req opts.
End netlink.
