(* ===== verification/NetlinkCorrect.v ===== *)
(** * Correctness of the netlink functions

    An exchange over the bytes of datagrams is an exchange of messages: which of
    them are looked at, when the loop waits for more, and what it returns.  On it
    rest the functions that attach and query programs. *)

From stdpp Require Import gmap.
From S2P Require Import Prelude Bytes Nlattr NlattrCorrect Netlink.

(** ** Messages *)

Record message : Type := mkMsg { m_type : Z; m_flags : Z; m_seq : Z; m_pid : Z; m_payload : list Z; m_pad : list Z }.

Definition m_len (m : message) : Z := 16 + zlen (m_payload m).
Definition msg_hdr (m : message) : list Z := le32 (m_len m) ++ le16 (m_type m) ++ le16 (m_flags m) ++ le32 (m_seq m) ++ le32 (m_pid m).
Definition msg_bytes (m : message) : list Z := msg_hdr m ++ m_payload m ++ m_pad m.
Definition datagram (ms : list message) : list Z := concat (map msg_bytes ms).

(** The error of an error message, and the message it answers. *)
Definition error_of (m : message) : Z := s32 (default 0 (ld_le32 (m_payload m) 0)).
Definition answered_len (m : message) : option Z := ld_le32 (m_payload m) 4.

(** Messages as the kernel makes them: padded, and an error message carries the
    error and at least the header of the request. *)
Record msg_ok (m : message) : Prop := {
  mo_type : 0 <= m_type m < 2 ^ 16;
  mo_flags : 0 <= m_flags m < 2 ^ 16;
  mo_seq : word_ok (m_seq m);
  mo_pid : word_ok (m_pid m);
  mo_bytes : bytes_ok (m_payload m) ∧ bytes_ok (m_pad m);
  mo_pad : m_len m + zlen (m_pad m) = NLMSG_ALIGN (m_len m);
  mo_len : m_len m < 2 ^ 30;
  mo_error : m_type m = NLMSG_ERROR → 20 <= zlen (m_payload m) ∧ ∀ l, answered_len m = Some l → 16 <= l < 2 ^ 31;
}.

Lemma msg_bytes_length m : zlen (msg_bytes m) = m_len m + zlen (m_pad m).
Proof. unfold msg_bytes, msg_hdr, m_len. rewrite !length_app. cbn [length le32 le16]. lia. Qed.

Lemma msg_bytes_ok m : msg_ok m → bytes_ok (msg_bytes m).
Proof.
  intros [_ _ _ _ [H1 H2] _ _ _]. unfold msg_bytes, msg_hdr.
  apply Forall_app. split; [|by apply Forall_app]. repeat (apply Forall_app; split); apply bytes_ok_le32 || apply bytes_ok_le16.
Qed.

(** The fields of a message in a datagram. *)
Lemma msg_fields data nh m :
  msg_ok m → located data nh (msg_bytes m) →
  ld_le32 data nh = Some (m_len m) ∧ ld_le16 data (nh + 4) = Some (m_type m) ∧ ld_le16 data (nh + 6) = Some (m_flags m)
  ∧ ld_le32 data (nh + 8) = Some (m_seq m) ∧ ld_le32 data (nh + 12) = Some (m_pid m) ∧ located data (NLMSG_DATA nh) (m_payload m).
Proof.
  intros [Ht Hf Hs Hp _ _ Hl _] H. unfold msg_bytes in H. apply located_app in H as [Hh H]. apply located_app in H as [H _].
  assert (0 <= m_len m) as Hl0 by (unfold m_len; lia).
  split_and!; [|rewrite <- (u16_small (m_type m)) by done|rewrite <- (u16_small (m_flags m)) by done
    |rewrite <- (u32_small (m_seq m)) by done|rewrite <- (u32_small (m_pid m)) by done|exact H].
  - rewrite <- (u32_small (m_len m)) by (unfold word_ok; lia). replace nh with (nh + 0) by lia. by apply (ld_le32_located _ _ _ _ _ Hh).
  - by apply (ld_le16_located _ _ _ _ _ Hh).
  - by apply (ld_le16_located _ _ _ _ _ Hh).
  - by apply (ld_le32_located _ _ _ _ _ Hh).
  - by apply (ld_le32_located _ _ _ _ _ Hh).
Qed.

Lemma msg_align m : msg_ok m → NLMSG_ALIGN (m_len m) = zlen (msg_bytes m) ∧ 16 <= m_len m <= zlen (msg_bytes m).
Proof. intros H. rewrite msg_bytes_length, (mo_pad m H). split; [done|]. pose proof (mo_pad m H). unfold m_len in *. lia. Qed.

(** The payload of a located message, read from the datagram. *)
Lemma ld_le32_payload data o bs c x : located data o bs → 0 <= c → c + 4 <= zlen bs → ld_le32 bs c = Some x → ld_le32 data (o + c) = Some x.
Proof.
  intros H Hc H4 <-. unfold ld_le32. rewrite <- !Z.add_assoc.
  by rewrite (aget_located data o bs c), (aget_located data o bs (c + 1)), (aget_located data o bs (c + 2)), (aget_located data o bs (c + 3)) by (done || lia).
Qed.

(** Printing the text of an error message stays inside of the datagram. *)
Lemma dump_errormsg_total data nh m :
  bytes_ok data → msg_ok m → m_type m = NLMSG_ERROR → located data nh (msg_bytes m) → ∃ r, libbpf_nla_dump_errormsg data nh = Some r.
Proof.
  intros Hb Hm Ht H. destruct (msg_fields data nh m Hm H) as (El & _ & Ef & _ & _ & Hp). destruct (mo_error m Hm Ht) as [Hlen Hans].
  pose proof (located_range _ _ _ H) as Hr. pose proof (msg_align m Hm) as [_ Hal]. unfold libbpf_nla_dump_errormsg.
  rewrite Ef. cbn [mbind option_bind]. destruct (Z.land (m_flags m) NLM_F_ACK_TLVS =? 0); [by eexists|].
  destruct (ld_le32_total (m_payload m) 4) as (l & El4 & Hl); [apply Hm|lia|lia|]. specialize (Hans l El4).
  assert (∃ hlen, (if Z.land (m_flags m) NLM_F_CAPPED =? 0 then l ← nlmsg_len data (nh + NLMSG_LENGTH 0 + 4); Some (sizeof_nlmsgerr + l) else Some sizeof_nlmsgerr)
    = Some hlen ∧ 0 <= hlen) as (hlen & -> & Hh).
  { destruct (Z.land (m_flags m) NLM_F_CAPPED =? 0); [|by exists 20]. unfold nlmsg_len. change (nh + NLMSG_LENGTH 0) with (NLMSG_DATA nh).
    rewrite (ld_le32_payload _ _ _ 4 l Hp) by (done || lia). cbn [mbind option_bind]. eexists. split; [done|].
    change NLMSG_HDRLEN with 16. rewrite u32_small by (unfold word_ok; lia). unfold s32. rewrite Z.mod_small by lia. unfold sizeof_nlmsgerr. lia. }
  cbn [mbind option_bind]. rewrite El. cbn [mbind option_bind]. set (attr := nh + NLMSG_LENGTH 0 + hlen).
  destruct (parse_total data NLMSGERR_ATTR_MAX attr (nh + m_len m - attr) (Some extack_policy)) as (err & tb & -> & _ & Htb).
  - done.
  - unfold attr. change (NLMSG_LENGTH 0) with 16. lia.
  - lia.
  - done.
  - intros policy' [= <-]. split; [|done]. unfold policy_ok, extack_policy. repeat (apply Forall_cons_iff; split); [zeval..|done].
  - cbn [mbind option_bind]. destruct (negb (err =? 0)); [by eexists|]. destruct Htb as [Hlt _].
    destruct (aget_is_Some tb NLMSGERR_ATTR_MSG) as [text ->]; [rewrite Hlt; unfold NLMSGERR_ATTR_MAX, NLMSGERR_ATTR_MSG; lia|].
    cbn [mbind option_bind]. by eexists.
Qed.

(** ** What an exchange comes to

    Messages may be given by what they are about: [view] says which message a
    [T] stands for. *)

Section spec.
Context {T C : Type} (view : T → message) (handle : option (T → C → Z * C)) (nl_pid seq : Z).

(** The messages of one datagram: whether more are to come, the argument of the
    callback and how the loop was left. *)
Fixpoint run_messages (ms : list T) (multipart : bool) (c : C) : bool * C * option verdict :=
  match ms with
  | [] => (multipart, c, None)
  | t :: ms =>
      let m := view t in
      if negb (m_pid m =? nl_pid) then (multipart, c, Some (Finish (- LIBBPF_ERRNO__WRNGPID))) else
      if negb (m_seq m =? seq) then (multipart, c, Some (Finish (- LIBBPF_ERRNO__INVSEQ))) else
      let multipart := negb (Z.land (m_flags m) NLM_F_MULTI =? 0) || multipart in
      if m_type m =? NLMSG_ERROR then
        if error_of m =? 0 then run_messages ms multipart c else (multipart, c, Some (Finish (error_of m)))
      else if m_type m =? NLMSG_DONE then (multipart, c, Some (Finish 0))
      else match handle with
      | None => run_messages ms multipart c
      | Some handle =>
          let '(ret, c) := handle t c in
          if ret =? NL_CONT then run_messages ms multipart c else
          (multipart, c, Some (if ret =? NL_NEXT then Restart else if ret =? NL_DONE then Finish 0 else Finish ret))
      end
  end.

(** The datagrams one after another, into a buffer of [room] bytes that may not
    grow.  After the last one a call waits, [None], or fails. *)
Variables (realloc : Z → bool) (fin : option Z).

Fixpoint run_datagrams (dgs : list (list T)) (room : Z) (c : C) : option (Z * C) :=
  match dgs with
  | [] => match fin with None => None | Some errno => Some (- errno, c) end
  | ms :: dgs =>
      let len := zlen (datagram (map view ms)) in
      if (room <? len) && negb (realloc len) then Some (- ENOMEM, c) else
      if match ms with [] => true | _ => false end then Some (0, c) else
      let '(multipart, c, v) := run_messages ms false c in
      match v with
      | Some (Finish ret) => Some (ret, c)
      | Some Restart => run_datagrams dgs (Z.max room len) c
      | None => if multipart : bool then run_datagrams dgs (Z.max room len) c else Some (0, c)
      end
  end.
End spec.

(** The calls find each datagram twice, when its size is asked for and when it
    is taken, with interruptions in between. *)
Definition interruption (e : Z) : Prop := e = EINTR ∨ e = EAGAIN.
Definition interrupted (r : recv_result) : Prop := match r with RecvFails e => interruption e | Datagram _ => False end.

Inductive delivers {T} (view : T → message) : list recv_result → list (list T) → option Z → Prop :=
| dl_end fs : Forall interrupted fs → delivers view fs [] None
| dl_fails fs e calls : Forall interrupted fs → ¬ interruption e → delivers view (fs ++ RecvFails e :: calls) [] (Some e)
| dl_datagram fs1 fs2 ms calls dgs fin :
    Forall interrupted fs1 → Forall interrupted fs2 → delivers view calls dgs fin →
    delivers view (fs1 ++ Datagram (datagram (map view ms)) :: fs2 ++ Datagram (datagram (map view ms)) :: calls) (ms :: dgs) fin.

Lemma recvmsg_interrupted fs calls : Forall interrupted fs → netlink_recvmsg (fs ++ calls) = netlink_recvmsg calls.
Proof. induction 1 as [|[e|d] fs Hf _ IH]; [done| |done]. cbn. destruct Hf as [-> | ->]; done. Qed.

Lemma recvmsg_waits fs : Forall interrupted fs → netlink_recvmsg fs = None.
Proof. intros H. rewrite <- (app_nil_r fs). by rewrite recvmsg_interrupted. Qed.

Lemma recvmsg_fails fs e calls : Forall interrupted fs → ¬ interruption e → netlink_recvmsg (fs ++ RecvFails e :: calls) = Some (inl (- e), calls).
Proof.
  intros H He. rewrite recvmsg_interrupted by done. cbn. unfold interruption in He.
  destruct (Z.eqb_spec e EINTR), (Z.eqb_spec e EAGAIN); try done; tauto.
Qed.

Lemma recvmsg_datagram fs d calls : Forall interrupted fs → netlink_recvmsg (fs ++ Datagram d :: calls) = Some (inr d, calls).
Proof. intros H. by rewrite recvmsg_interrupted. Qed.

(** A callback on bytes that does what [handle] does on messages of a kind. *)
Definition implements {T C} (view : T → message) (fn : option (list Z → Z → C → option (Z * C))) (handle : option (T → C → Z * C))
    (P : T → Prop) (I : C → Prop) : Prop :=
  match fn, handle with
  | None, None => True
  | Some fn, Some handle =>
      ∀ data nh t c, bytes_ok data → located data nh (msg_bytes (view t)) → msg_ok (view t) → m_type (view t) ≠ NLMSG_ERROR → m_type (view t) ≠ NLMSG_DONE →
        P t → I c → fn data nh c = Some (handle t c) ∧ I (handle t c).2
  | _, _ => False
  end.

Section recv.
Context {T C : Type} (view : T → message) (fn : option (list Z → Z → C → option (Z * C))) (handle : option (T → C → Z * C)).
Context (P : T → Prop) (I : C → Prop).
Hypothesis fn_ok : implements view fn handle P I.
Variables (nl_pid seq : Z).

(** One turn of the loop over the messages. *)
Lemma msg_body_ok data nh t rest multipart c v0 :
  bytes_ok data → located data nh (msg_bytes (view t)) → msg_ok (view t) → P t → I c → 0 <= rest →
  ∃ ctl, msg_body fn data nl_pid seq (nh, zlen (msg_bytes (view t)) + rest, multipart, c, v0) = Some ctl ∧
    ∃ mp c' v, run_messages view handle nl_pid (u32 seq) [t] multipart c = (mp, c', v) ∧ I c' ∧
      match v with
      | None => ctl = Next (nh + zlen (msg_bytes (view t)), rest, mp, c', None)
      | Some v => ∃ len, ctl = Break (nh, len, mp, c', Some v)
      end.
Proof.
  intros Hb Hloc Hm HP HI Hrest. cbn [run_messages]. pose proof fn_ok as Hfn. unfold implements in Hfn. set (m := view t) in *.
  destruct (msg_fields data nh m Hm Hloc) as (El & Et & Ef & Es & Ep & Hp).
  destruct (msg_align m Hm) as [Ha Hl]. unfold msg_body, NLMSG_OK, sizeof_nlmsghdr.
  destruct (Z.ltb_spec (zlen (msg_bytes m) + rest) 16); [lia|]. rewrite El. cbn [mbind option_bind].
  destruct (Z.leb_spec 16 (m_len m)); [|lia]. destruct (Z.leb_spec (m_len m) (zlen (msg_bytes m) + rest)); [|lia]. cbn [andb negb].
  rewrite Ep. cbn [mbind option_bind]. destruct (negb (m_pid m =? nl_pid)).
  { eexists. split; [done|]. eexists _, _, _. split; [done|]. split; [done|]. by eexists. }
  rewrite Es. cbn [mbind option_bind]. destruct (negb (m_seq m =? u32 seq)).
  { eexists. split; [done|]. eexists _, _, _. split; [done|]. split; [done|]. by eexists. }
  rewrite Ef, Et. cbn [mbind option_bind]. rewrite Ha. replace (zlen (msg_bytes m) + rest - zlen (msg_bytes m)) with rest by lia.
  destruct (Z.eqb_spec (m_type m) NLMSG_ERROR) as [Ee|Ee].
  - destruct (mo_error m Hm Ee) as [Hpl _]. destruct (ld_le32_total (m_payload m) 0) as (e & E0 & He); [apply Hm|lia|lia|].
    rewrite <- (Z.add_0_r (NLMSG_DATA nh)), (ld_le32_payload _ _ _ 0 e Hp) by (done || lia). cbn [mbind option_bind].
    unfold error_of. rewrite E0. cbn [default from_option id]. assert ((s32 e =? 0) = (e =? 0)) as ->.
    { destruct (Z.eqb_spec e 0) as [->|Hne]; [done|]. apply Z.eqb_neq. unfold s32. intros Hs. apply Hne. pose proof (Z.mod_eq (e + 2 ^ 31) (2 ^ 32)). lia. }
    destruct (e =? 0); [eexists; split; [done|]; by eexists _, _, _|].
    destruct (dump_errormsg_total data nh m Hb Hm Ee Hloc) as [r ->]. cbn [mbind option_bind].
    eexists. split; [done|]. eexists _, _, _. split; [done|]. split; [done|]. by eexists.
  - destruct (Z.eqb_spec (m_type m) NLMSG_DONE) as [Ed|Ed].
    { eexists. split; [done|]. eexists _, _, _. split; [done|]. split; [done|]. by eexists. }
    destruct fn as [f|], handle as [g|]; [|done|done|eexists; split; [done|]; by eexists _, _, _].
    destruct (Hfn data nh t c Hb Hloc Hm Ee Ed HP HI) as [-> HI']. cbn [mbind option_bind]. destruct (g t c) as [ret c'].
    cbn [snd] in HI'. eexists. split; [done|]. destruct (ret =? NL_CONT); [by eexists _, _, _|].
    eexists _, _, _. split; [done|]. split; [done|]. destruct (ret =? NL_NEXT), (ret =? NL_DONE); by eexists.
Qed.

Lemma run_messages_cons t ms multipart c :
  run_messages view handle nl_pid (u32 seq) (t :: ms) multipart c =
    let '(mp, c', v) := run_messages view handle nl_pid (u32 seq) [t] multipart c in
    match v with None => run_messages view handle nl_pid (u32 seq) ms mp c' | Some v => (mp, c', Some v) end.
Proof.
  cbn [run_messages]. repeat case_match; simplify_eq; try done.
Qed.

(** The loop over the messages that lie from [nh] on. *)
Lemma msg_loop_ok data ms : ∀ fuel nh multipart c v0,
  bytes_ok data → located data nh (datagram (map view ms)) → Forall msg_ok (map view ms) → Forall P ms → I c → (length ms < fuel)%nat →
  ∃ nh' len', let '(mp, c', v) := run_messages view handle nl_pid (u32 seq) ms multipart c in
    while_loop fuel (msg_body fn data nl_pid seq) (nh, zlen (datagram (map view ms)), multipart, c, v0) = Some (nh', len', mp, c', v) ∧ I c'.
Proof.
  induction ms as [|t ms IH]; intros fuel nh multipart c v0 Hb Hloc Hms HP HI Hf.
  - destruct fuel as [|fuel]; [cbn in Hf; lia|]. by eexists nh, 0.
  - destruct fuel as [|fuel]; [cbn in Hf; lia|]. apply Forall_cons_iff in Hms as [Hm Hms]. apply Forall_cons_iff in HP as [HPm HP].
    unfold datagram in *. cbn [map concat] in *. pose proof Hloc as Hl2. apply located_app in Hl2 as [Hl1 Hl2].
    rewrite length_app, Nat2Z.inj_add. destruct (msg_body_ok data nh t (zlen (concat (map msg_bytes (map view ms)))) multipart c v0) as (ctl & Ectl & mp & c' & v & Er & HI' & Hctl); [done..|lia|].
    rewrite run_messages_cons, Er. cbn [while_loop]. rewrite Ectl. cbn [mbind option_bind]. destruct v as [v|].
    + destruct Hctl as [len ->]. by eexists nh, len.
    + rewrite Hctl. apply IH; try done. cbn in Hf. lia.
Qed.

Lemma datagram_length ms : Forall msg_ok ms → 16 * Z.of_nat (length ms) <= zlen (datagram ms).
Proof.
  induction 1 as [|m ms Hm _ IH]; [done|]. unfold datagram in *. cbn [map concat length]. rewrite length_app.
  pose proof (msg_align m Hm). lia.
Qed.

Lemma datagram_bytes_ok ms : Forall msg_ok ms → bytes_ok (datagram ms).
Proof. induction 1 as [|m ms Hm _ IH]; [constructor|]. unfold datagram. cbn [map concat]. apply Forall_app. split; [by apply msg_bytes_ok|done]. Qed.

Lemma recv_messages_ok ms c : Forall msg_ok (map view ms) → Forall P ms → I c →
  recv_messages fn (datagram (map view ms)) nl_pid seq c = Some (run_messages view handle nl_pid (u32 seq) ms false c)
  ∧ I (run_messages view handle nl_pid (u32 seq) ms false c).1.2.
Proof.
  intros Hms HP HI. pose proof (datagram_length _ Hms) as Hlen. rewrite length_map in Hlen.
  destruct (msg_loop_ok (datagram (map view ms)) ms (S (Z.to_nat (zlen (datagram (map view ms)) / 16))) 0 false c None) as (nh & len & H); try done.
  - by apply datagram_bytes_ok.
  - exists [], []. by rewrite app_nil_r.
  - pose proof (Z.div_le_lower_bound (zlen (datagram (map view ms))) 16 (Z.of_nat (length ms))). lia.
  - unfold recv_messages. destruct (run_messages view handle nl_pid (u32 seq) ms false c) as [[mp c'] v]. destruct H as [-> H]. done.
Qed.

Lemma recv_loop_ok x calls dgs fin : delivers view calls dgs fin → Forall (λ ms, Forall msg_ok (map view ms)) dgs → Forall (Forall P) dgs →
  ∀ fuel room c, I c → (length calls < fuel)%nat → 0 <= room →
  recv_loop fn fuel x nl_pid seq calls room c = Some (run_datagrams view handle nl_pid (u32 seq) (ex_realloc x) fin dgs room c).
Proof.
  induction 1 as [fs Hfs|fs e calls Hfs He|fs1 fs2 ms calls dgs fin H1 H2 _ IH]; intros Hok HP [|fuel] room c HI Hf Hr; try lia;
    cbn [recv_loop run_datagrams].
  - by rewrite recvmsg_waits.
  - by rewrite recvmsg_fails.
  - apply Forall_cons_iff in Hok as [Hms Hok]. apply Forall_cons_iff in HP as [HPms HP].
    rewrite (recvmsg_datagram fs1) by done. set (len := zlen (datagram (map view ms))). destruct ((room <? len) && negb (ex_realloc x len)); [done|].
    rewrite recvmsg_datagram by done. rewrite take_ge by (unfold len; lia).
    destruct (recv_messages_ok ms c Hms HPms HI) as [Er HI']. rewrite Er. clear Er. fold len.
    pose proof (datagram_length _ Hms) as Hlen. rewrite length_map in Hlen. destruct ms as [|t ms]; [done|].
    destruct (Z.eqb_spec len 0); [unfold len in *; cbn [length] in *; lia|]. cbn [mbind option_bind].
    destruct (run_messages view handle nl_pid (u32 seq) (t :: ms) false c) as [[mp c'] v]. cbn in HI'.
    assert (recv_loop fn fuel x nl_pid seq calls (Z.max room len) c' = Some (run_datagrams view handle nl_pid (u32 seq) (ex_realloc x) fin dgs (Z.max room len) c')) as IH'.
    { apply IH; try done; [|lia]. rewrite !length_app in Hf. cbn [length] in Hf. rewrite length_app in Hf. cbn [length] in Hf. lia. }
    destruct v as [[ret|]|]; [done|done|]. by destruct mp.
Qed.
End recv.

(** ** The exchange *)

(** A request with the port and the sequence number of its exchange. *)
Definition stamped (req : list Z) (t : Z) : list Z := splice (splice req 12 (le32 0)) 8 (le32 (u32 t)).

(** What the calls on a socket may return: errors are positive, a socket that is
    opened is none of those that are open. *)
Record exchange_ok (x : exchange) (socks : list Z) : Prop := {
  xo_socket : match ex_socket x with inl e => 0 < e | inr sock => 0 <= sock ∧ sock ∉ socks end;
  xo_bind : 0 <= ex_bind x;
  xo_name : match ex_getsockname x with inl e => 0 < e | inr _ => True end;
}.

(** The port, when a socket is opened, bound and named. *)
Definition opened (x : exchange) : Z + Z :=
  match ex_socket x with
  | inl errno => inl (- errno)
  | inr _ =>
      if negb (ex_bind x =? 0) then inl (- ex_bind x) else
      match ex_getsockname x with
      | inl errno => inl (- errno)
      | inr (addrlen, pid) => if addrlen =? sizeof_sockaddr_nl then inr pid else inl (- LIBBPF_ERRNO__INTERNAL)
      end
  end.

(** The result and the argument of the callback, [None] when the call waits. *)
Definition answer {T C} (view : T → message) (handle : option (T → C → Z * C)) (x : exchange) (dgs : list (list T)) (fin : option Z) (c : C) : option (Z * C) :=
  match opened x with
  | inl err => Some (err, c)
  | inr pid =>
      if negb (ex_send x =? 0) then Some (- ex_send x, c) else
      if negb (ex_realloc x 4096) then Some (- ENOMEM, c) else
      run_datagrams view handle pid (u32 (ex_time x)) (ex_realloc x) fin dgs 4096 c
  end.

(** Sockets and buffers are as before; a request is sent when there is a socket. *)
Definition after (n : net) (x : exchange) (proto : Z) (req : list Z) : net :=
  mkNet (S (n_no n)) (n_sent n ++ match opened x with inl _ => [] | inr _ => [(proto, req)] end) (n_socks n) (n_bufs n).

Lemma filter_fresh (sock : Z) (socks : list Z) : sock ∉ socks → filter (λ s, s ≠ sock) socks = socks.
Proof.
  induction socks as [|s socks IH]; [done|]. rewrite not_elem_of_cons. intros [Hne Hin].
  rewrite filter_cons_True by congruence. by rewrite IH.
Qed.

Lemma aget_list_take (req : list Z) (n : nat) : Z.of_nat n <= zlen req → aget_list req 0 n = Some (take n req).
Proof.
  intros H. destruct (located_slice req 0 n ltac:(lia) ltac:(lia)) as [Hl Hn]. rewrite drop_0 in *.
  rewrite <- Hn at 1. by apply located_list.
Qed.

Lemma st_le32_ld req o w len : 4 <= o → o + 4 <= zlen req → ld_le32 req 0 = Some len →
  st_le32 req o w = Some (splice req o (le32 w)) ∧ ld_le32 (splice req o (le32 w)) 0 = Some len ∧ zlen (splice req o (le32 w)) = zlen req.
Proof.
  intros H0 Hr <-. split_and!; [apply st_le32_splice; lia| |].
  - unfold ld_le32. rewrite !aget_splice by (cbn [length le32]; lia). done.
  - f_equal. apply splice_length; cbn [length le32]; lia.
Qed.

Section exchange.
Context {T C : Type} (view : T → message) (system : nat → exchange) (fn : option (list Z → Z → C → option (Z * C))) (handle : option (T → C → Z * C)).
Context (P : T → Prop) (I : C → Prop) (fn_ok : implements view fn handle P I).

Lemma netlink_open_run x proto n : exchange_ok x (n_socks n) →
  libbpf_netlink_open x proto n = Some (Some match opened x with
    | inl err => ((err, 0), n)
    | inr pid => ((default 0 (match ex_socket x with inr s => Some s | inl _ => None end), pid),
        mkNet (n_no n) (n_sent n) (match ex_socket x with inr s => s :: n_socks n | inl _ => n_socks n end) (n_bufs n))
    end) ∧ match opened x with inl err => err < 0 | inr _ => ∃ s, ex_socket x = inr s ∧ 0 <= s ∧ s ∉ n_socks n end.
Proof.
  intros [Hs Hb Hn]. unfold libbpf_netlink_open, opened. destruct (ex_socket x) as [e|s]; [split; [done|lia]|].
  assert (∀ ret : Z, ((_ ← close s; mret (ret, 0)) : M (Z * Z)) (mkNet (n_no n) (n_sent n) (s :: n_socks n) (n_bufs n)) = Some (Some ((ret, 0), n))) as Hclose.
  { intros ret. destruct n as [no sent socks bufs]. cbv [close modify mbind m_bind mret m_ret]. cbn [n_no n_sent n_socks n_bufs] in *.
    rewrite filter_cons_False by (intros Hx; by apply Hx). by rewrite filter_fresh by apply Hs. }
  cbv [open_sock modify mbind m_bind] in *. cbn beta iota.
  destruct (Z.eqb_spec (ex_bind x) 0); cbn [negb]; [|rewrite Hclose; split; [done|lia]].
  destruct (ex_getsockname x) as [en|[al pid]]; [rewrite Hclose; split; [done|lia]|].
  destruct (al =? sizeof_sockaddr_nl); cbn [negb]; [|rewrite Hclose; done]. split; [done|by exists s].
Qed.

(** C31: a request of a netlink function is answered by the messages that come
    back: whatever the datagrams are cut into and whatever interrupts the
    calls, the result and the argument of the callback are those of going
    through the messages one by one, up to the first that ends the exchange,
    with the error of the socket, of the sending or of the receiving otherwise;
    no access leaves the buffer, nothing but a datagram that does not come
    makes the call wait, the request is sent once and marked with the time, and
    the socket and the buffer are given back. *)
Theorem netlink_send_recv_spec x req proto c n len dgs fin :
  system (n_no n) = x → exchange_ok x (n_socks n) → delivers view (ex_calls x) dgs fin → Forall (λ ms, Forall msg_ok (map view ms)) dgs → Forall (Forall P) dgs → I c →
  16 <= zlen req → ld_le32 req 0 = Some len → 0 <= len <= zlen req →
  libbpf_netlink_send_recv system fn req proto c n =
    Some (r ← answer view handle x dgs fin c; Some (r, after n x proto (take (Z.to_nat len) (stamped req (ex_time x))))).
Proof.
  intros Hx Hok Hd Hms HP HI Hreq Hlen Hl. unfold libbpf_netlink_send_recv. set (n' := mkNet (S (n_no n)) (n_sent n) (n_socks n) (n_bufs n)).
  destruct (netlink_open_run x proto n') as [Ho Hopen]; [by apply Hok|]. cbv [next_exchange mbind m_bind option_bind]. cbn beta iota. fold n'.
  rewrite Hx, Ho. unfold answer, after. destruct (opened x) as [err|pid].
  { cbn beta iota. destruct (Z.ltb_spec err 0); [|lia]. cbv [mret m_ret]. cbn beta iota. rewrite app_nil_r. done. }
  destruct Hopen as (s & Es & Hs & Hfresh). rewrite Es. cbn [default from_option id] in *. cbn beta iota. destruct (Z.ltb_spec s 0); [lia|].
  destruct (st_le32_ld req 12 0 len) as (E1 & L1 & Z1); [lia..|done|]. rewrite E1.
  destruct (st_le32_ld (splice req 12 (le32 0)) 8 (u32 (ex_time x)) len) as (E2 & L2 & Z2); [lia..|done|]. cbn [lift]. rewrite E2. cbn [lift].
  rewrite L2. cbn [lift]. rewrite aget_list_take by lia. cbn [lift]. fold (stamped req (ex_time x)).
  cbv [record_request libbpf_netlink_recv libbpf_netlink_close close modify add_bufs mret m_ret mbind m_bind]. cbn beta iota. cbn [n_no n_sent n_socks n_bufs n'].
  assert (filter (λ s', s' ≠ s) (s :: n_socks n) = n_socks n) as Hf.
  { rewrite filter_cons_False by (intros Hn; by apply Hn). by rewrite filter_fresh. }
  destruct (ex_send x =? 0); cbn [negb n_no n_sent n_socks n_bufs]; [|by rewrite Hf]. destruct (ex_realloc x 4096); cbn [negb n_no n_sent n_socks n_bufs]; [|by rewrite Hf].
  rewrite (recv_loop_ok view fn handle P I fn_ok pid (ex_time x) x (ex_calls x) dgs fin Hd Hms HP _ 4096 c HI) by lia. cbn [lift].
  destruct (run_datagrams _ _ _ _ _ _ _ _ _) as [[ret c']|]; [|done]. cbn [fst snd mbind option_bind n_no n_sent n_socks n_bufs]. rewrite Hf.
  by replace (n_bufs n + 1 + -1) with (n_bufs n) by lia.
Qed.
End exchange.

(** ** Witness *)

(** A request of 16 bytes that is refused with EEXIST, after an interruption. *)
Definition ex_request : list Z := [16; 0; 0; 0; 16; 0; 5; 0; 0; 0; 0; 0; 0; 0; 0; 0].
Definition ex_refusal : message := mkMsg 2 0 5 100 ([239; 255; 255; 255] ++ ex_request) [].
Definition ex_refused : exchange :=
  mkExchange (inr 3) 0 (inr (12, 100)) 5 0 (λ _, true) [RecvFails 4; Datagram (datagram [ex_refusal]); Datagram (datagram [ex_refusal])].

Lemma ex_refusal_ok : msg_ok ex_refusal.
Proof.
  constructor; try done; [split; by apply bytes_ok_dec|]. intros _. split; [done|]. by intros l [= <-].
Qed.

Lemma netlink_send_recv_spec_witness :
  exchange_ok ex_refused [] ∧
  libbpf_netlink_send_recv (C := unit) (λ _, ex_refused) None ex_request 0 tt (mkNet 0 [] [] 0)
  = Some (Some ((-17, tt), mkNet 1 [(0, [16; 0; 0; 0; 16; 0; 5; 0; 5; 0; 0; 0; 0; 0; 0; 0])] [] 0)).
Proof.
  assert (exchange_ok ex_refused []) as Hok by (constructor; [by split; [|apply not_elem_of_nil]|done|done]).
  split; [done|]. refine (netlink_send_recv_spec (λ m, m) (λ _, ex_refused) None None (λ _, True) (λ _, True) I
    ex_refused ex_request 0 tt (mkNet 0 [] [] 0) 16 [[ex_refusal]] None eq_refl Hok _ _ _ I _ _ _).
  - apply (dl_datagram (λ m, m) [RecvFails 4] [] [ex_refusal] [] [] None); [by constructor; [left|]|done|apply dl_end; done].
  - constructor; [|done]. constructor; [exact ex_refusal_ok|done].
  - repeat constructor.
  - done.
  - done.
  - done.
Defined.
