(* ===== verification/NetlinkQuery.v ===== *)
(** * Correctness of the query for XDP programs

    A dump of the links of the system, as messages of attributes, determines
    what [bpf_xdp_query] enters into the options of its caller. *)

From stdpp Require Import gmap.
From S2P Require Import Prelude Bytes Nlattr NlattrCorrect Netlink NetlinkCorrect.

(** ** Links *)

(** What the message of a link says: [struct ifinfomsg], the attributes, and
    those nested in the last IFLA_XDP. *)
Record link : Type := mkLink { lk_head : list Z; lk_attrs : list attr; lk_xdp : list attr }.

Definition lk_index (l : link) : Z := s32 (default 0 (ld_le32 (lk_head l) 4)).
Definition val32 (t : Z) (al : list attr) : option Z := a ← last_of t al; ld_le32 (a_data a) 0.

Definition holds (t n : Z) (al : list attr) : Prop := ∀ a, last_of t al = Some a → n <= zlen (a_data a).

Record link_ok (l : link) : Prop := {
  lo_head : zlen (lk_head l) = 16;
  lo_attrs : Forall attr_ok (lk_attrs l);
  lo_nested : ∀ a, last_of IFLA_XDP (lk_attrs l) = Some a → a_data a = stream (lk_xdp l);
  lo_xdp : Forall attr_ok (lk_xdp l);
  lo_attached : holds IFLA_XDP_ATTACHED 1 (lk_xdp l);
  lo_ids : Forall (λ t, holds t 4 (lk_xdp l)) [IFLA_XDP_PROG_ID; IFLA_XDP_DRV_PROG_ID; IFLA_XDP_SKB_PROG_ID; IFLA_XDP_HW_PROG_ID];
}.

(** A message of the dump; the one that ends it has no link. *)
Definition of_link (p : message * link) : Prop := link_ok p.2 ∧ m_payload p.1 = lk_head p.2 ++ stream (lk_attrs p.2).

(** What a link reports, and the identifiers that are known after it. *)
Definition link_info (l : link) (i : xdp_link_info) : xdp_link_info :=
  match last_of IFLA_XDP (lk_attrs l), last_of IFLA_XDP_ATTACHED (lk_xdp l) with
  | Some _, Some a =>
      let mode := default 0 (aget (a_data a) 0) in
      let id t old := if mode =? XDP_ATTACHED_NONE then old else default old (val32 t (lk_xdp l)) in
      mkInfo (id IFLA_XDP_PROG_ID (prog_id i)) (id IFLA_XDP_DRV_PROG_ID (drv_prog_id i)) (id IFLA_XDP_HW_PROG_ID (hw_prog_id i))
        (id IFLA_XDP_SKB_PROG_ID (skb_prog_id i)) mode
  | _, _ => i
  end.

Definition report (p : message * link) (x : xdp_id_md) : Z * xdp_id_md :=
  (0, if negb (id_ifindex x =? 0) && negb (id_ifindex x =? lk_index p.2) then x else
      mkIdMd (id_ifindex x) (id_flags x) (link_info p.2 (id_info x)) (id_feature_flags x)).

(** An attribute of the nested table. *)
Lemma take_id_ok data tb t old al :
  match last_of t al with
  | Some a => ∃ nla, aget tb t = Some (Some nla) ∧ attr_ok a ∧ located data nla (attr_bytes a)
  | None => aget tb t = Some None
  end → bytes_ok data → holds t 4 al → take_id data tb t old = Some (default old (val32 t al)).
Proof.
  intros Htb Hb H. unfold take_id, entry, val32. specialize (H) as H4. unfold holds in H4. destruct (last_of t al) as [a|]; [|by rewrite Htb].
  specialize (H4 a eq_refl). destruct Htb as (nla & -> & Ha & Hloc). cbn [mbind option_bind]. destruct (attr_located data nla a Ha Hloc) as (_ & _ & Hd).
  unfold libbpf_nla_getattr_u32, libbpf_nla_data. change NLA_HDRLEN with 4. assert (bytes_ok (a_data a)) as Hab.
  { destruct Hd as (pre & post & -> & _). apply Forall_app in Hb as [_ Hb]. by apply Forall_app in Hb as [Hb _]. }
  destruct (ld_le32_total (a_data a) 0) as (v & Ev & _); [done|lia|lia|]. rewrite Ev. cbn [default from_option id].
  rewrite <- (Z.add_0_r (nla + 4)). by apply (ld_le32_payload _ _ _ 0 v Hd); [lia|lia|].
Qed.

(** The callback on the attributes of a located link. *)
Lemma get_xdp_info_ok data ifi l x tb :
  bytes_ok data → link_ok l → located data ifi (lk_head l) →
  match last_of IFLA_XDP (lk_attrs l) with
  | Some a => ∃ nla, aget tb IFLA_XDP = Some (Some nla) ∧ attr_ok a ∧ located data nla (attr_bytes a)
  | None => aget tb IFLA_XDP = Some None
  end → bytes_ok (lk_head l) → ∀ m, get_xdp_info data x ifi tb = Some (report (m, l) x).
Proof.
  intros Hb [Hh _ Hn Hx Hat Hids] Hloc Htb Hbh m. unfold get_xdp_info, report. cbn [snd]. unfold lk_index.
  destruct (ld_le32_total (lk_head l) 4) as (ix & Eix & _); [done|lia|lia|]. rewrite Eix. cbn [default from_option id].
  rewrite (ld_le32_payload data ifi _ 4 ix Hloc) by (done || lia).
  assert ((if id_ifindex x =? 0 then Some 0 else Some ix) = Some (if id_ifindex x =? 0 then 0 else ix)) as -> by by destruct (_ =? _).
  cbn [mbind option_bind]. destruct x as [xi xf xinfo xff]. cbn [id_ifindex id_flags id_info id_feature_flags].
  assert (negb (xi =? 0) && negb (xi =? s32 (if xi =? 0 then 0 else ix)) = negb (xi =? 0) && negb (xi =? s32 ix)) as -> by by destruct (xi =? 0).
  destruct (negb (xi =? 0) && negb (xi =? s32 ix)); [done|]. unfold link_info, entry.
  destruct (last_of IFLA_XDP (lk_attrs l)) as [a|]; [|by rewrite Htb]. specialize (Hn a eq_refl).
  destruct Htb as (nla & -> & Ha & Hal). cbn [mbind option_bind]. destruct (attr_located data nla a Ha Hal) as (El & _ & Hd).
  unfold libbpf_nla_parse_nested, libbpf_nla_len, nla_len_of. rewrite El. cbn [mbind option_bind]. change NLA_HDRLEN with 4.
  replace (4 + zlen (a_data a) - 4) with (zlen (a_data a)) by lia. rewrite Hn in Hd |- *. unfold libbpf_nla_data. change NLA_HDRLEN with 4.
  destruct (parse_located data IFLA_XDP_MAX (nla + 4) (lk_xdp l) Hd Hx ltac:(done)) as (xtb & -> & Hxtb). cbn [mbind option_bind].
  change (negb (0 =? 0)) with false. cbn iota. pose proof (Hxtb IFLA_XDP_ATTACHED ltac:(done)) as H1. unfold holds in Hat.
  destruct (last_of IFLA_XDP_ATTACHED (lk_xdp l)) as [b|]; [|by rewrite H1]. specialize (Hat b eq_refl).
  destruct H1 as (nb & -> & Hbo & Hbl). cbn [mbind option_bind]. destruct (attr_located data nb b Hbo Hbl) as (_ & _ & Hbd).
  unfold libbpf_nla_getattr_u8, libbpf_nla_data. change NLA_HDRLEN with 4. rewrite <- (Z.add_0_r (nb + 4)), (aget_located _ _ _ 0 Hbd) by lia.
  destruct (aget_is_Some (a_data b) 0) as [mode ->]; [lia|]. cbn [mbind option_bind default from_option id].
  destruct (mode =? XDP_ATTACHED_NONE); [done|]. repeat (apply Forall_cons_iff in Hids as [? Hids]).
  by do 4 (erewrite take_id_ok by (try done; by apply Hxtb); cbn [mbind option_bind]).
Qed.

(** The callback does on messages what [report] does on links. *)
Lemma dump_link_implements : implements fst (Some (__dump_link_nlmsg get_xdp_info)) (Some report) (λ p, m_type p.1 ≠ NLMSG_DONE → of_link p) (λ _, True).
Proof.
  intros data nh [m l] x Hb Hloc Hm He Hd HP _. destruct (HP Hd) as [Hl Hpay]. cbn [fst snd] in *. split; [|done].
  destruct (msg_fields data nh m Hm Hloc) as (El & _ & _ & _ & _ & Hp). pose proof (lo_head _ Hl) as Hh.
  unfold __dump_link_nlmsg. rewrite El. cbn [mbind option_bind]. pose proof (mo_len m Hm) as Hlen. pose proof (proj1 (mo_bytes m Hm)) as Hpb.
  unfold m_len in *. rewrite Hpay in *. apply located_app in Hp as [Hp1 Hp2]. rewrite Hh in Hp2. rewrite length_app, Nat2Z.inj_add, Hh in *.
  change (NLMSG_LENGTH sizeof_ifinfomsg) with 32. replace (16 + (16 + zlen (stream (lk_attrs l))) - 32) with (zlen (stream (lk_attrs l))) by lia.
  rewrite u32_small by (unfold word_ok; lia). unfold s32. rewrite Z.mod_small by lia. rewrite Z.add_simpl_r.
  change (NLMSG_ALIGN sizeof_ifinfomsg) with 16.
  destruct (parse_located data IFLA_MAX (NLMSG_DATA nh + 16) (lk_attrs l) Hp2 (lo_attrs _ Hl) ltac:(done)) as (tb & -> & Htb). cbn [mbind option_bind].
  change (negb (0 =? 0)) with false. cbn iota. apply get_xdp_info_ok; try done; [apply Htb; done|]. by apply Forall_app in Hpb as [Hpb _].
Qed.

(** ** Dumps *)

(** A message of a dump in the exchange of [pid] and [seq]. *)
Definition dumped (pid seq : Z) (p : message * link) : Prop :=
  m_pid p.1 = pid ∧ m_seq p.1 = seq ∧ Z.land (m_flags p.1) NLM_F_MULTI ≠ 0.

(** The datagrams hold the links and, after them, the end of the dump. *)
Record dump_of (pid seq : Z) (links : list link) (dgs : list (list (message * link))) : Prop := {
  du_nonempty : Forall (λ ms, ms ≠ []) dgs;
  du_messages : ∃ ms fin, concat dgs = ms ++ [fin] ∧ links = map snd ms
    ∧ Forall (dumped pid seq) (ms ++ [fin]) ∧ Forall (λ p, m_type p.1 ≠ NLMSG_ERROR ∧ m_type p.1 ≠ NLMSG_DONE) ms ∧ m_type fin.1 = NLMSG_DONE;
}.

Definition link_data (p : message * link) : Prop := m_type p.1 ≠ NLMSG_ERROR ∧ m_type p.1 ≠ NLMSG_DONE.

(** The callback goes through the links of a part of the dump. *)
Lemma run_links pid seq ms : ∀ mp x rest, Forall (dumped pid seq) ms → Forall link_data ms →
  run_messages fst (Some report) pid seq (ms ++ rest) mp x
  = run_messages fst (Some report) pid seq rest (negb (bool_decide (ms = [])) || mp) (foldl (λ x p, (report p x).2) x ms).
Proof.
  induction ms as [|p ms IH]; intros mp x rest Hd Ht; [done|]. apply Forall_cons_iff in Hd as [(Ep & Es & Ef) Hd].
  apply Forall_cons_iff in Ht as [[He Hdn] Ht]. cbn [app run_messages foldl]. rewrite Ep, Es, !Z.eqb_refl. cbn [negb].
  rewrite (proj2 (Z.eqb_neq _ _) Ef), (proj2 (Z.eqb_neq _ _) He), (proj2 (Z.eqb_neq _ _) Hdn). cbn [negb orb].
  destruct (report p x) as [r y] eqn:Er. injection Er as <- <-. cbn [snd]. change (0 =? NL_CONT) with true. cbn iota. rewrite IH by done.
  f_equal. by rewrite orb_true_r, bool_decide_eq_false_2.
Qed.

Lemma run_end pid seq p mp x : dumped pid seq p → m_type p.1 = NLMSG_DONE →
  run_messages fst (Some report) pid seq [p] mp x = (true, x, Some (Finish 0)).
Proof.
  intros (Ep & Es & Ef) Ht. cbn [run_messages]. rewrite Ep, Es, !Z.eqb_refl, Ht. cbn [negb].
  by rewrite (proj2 (Z.eqb_neq _ _) Ef).
Qed.

Lemma concat_snoc {A} (dgs : list (list A)) : Forall (λ d, d ≠ []) dgs → dgs = [] ∨ ∃ l z, concat dgs = l ++ [z].
Proof.
  intros [|d ds Hd _]; [by left|right]. cbn [concat]. destruct (exists_last (l := d ++ concat ds)) as (l & z & E); [by destruct d|].
  by exists l, z.
Qed.

(** A dump is gone through link by link, wherever its datagrams are cut. *)
Lemma run_dump pid seq realloc fin e : (∀ n, realloc n = true) → dumped pid seq e → m_type e.1 = NLMSG_DONE → ∀ dgs ms room x,
  Forall (λ d, d ≠ []) dgs → concat dgs = ms ++ [e] → Forall (dumped pid seq) ms → Forall link_data ms →
  run_datagrams fst (Some report) pid seq realloc fin dgs room x = Some (0, foldl (λ x p, (report p x).2) x ms).
Proof.
  intros Hr He Hdone dgs. induction dgs as [|d dgs IH]; intros ms room x Hne Hc Hd Ht; [by destruct ms|].
  apply Forall_cons_iff in Hne as [Hn Hne]. cbn [run_datagrams]. rewrite Hr, andb_false_r. cbn [concat] in Hc.
  assert (match d with [] => true | _ => false end = false) as -> by by destruct d.
  destruct (concat_snoc dgs Hne) as [->|(l & z & El)].
  - cbn [concat] in Hc. rewrite app_nil_r in Hc. subst d. rewrite run_links by done. by rewrite run_end.
  - rewrite El, app_assoc in Hc. apply app_inj_tail in Hc as [Hc ->]. subst ms. apply Forall_app in Hd as [Hd1 Hd2]. apply Forall_app in Ht as [Ht1 Ht2].
    rewrite <- (app_nil_r d), run_links by done. cbn [run_messages]. rewrite (bool_decide_eq_false_2 _ Hn). cbn [negb orb].
    rewrite (IH l) by done. by rewrite app_nil_r, foldl_app.
Qed.

(** ** What is entered into the options *)

(** A field that is set, or left alone when the options end before it. *)
Lemma OPTS_SET_ok mem sz o v : ld_le64 mem 0 = Some sz → sz <= zlen mem → 8 <= o →
  ∃ mem', OPTS_SET (Some mem) o v = Some (Some mem') ∧ zlen mem' = zlen mem ∧ (o + 4 <= sz → ld_le32 mem' o = Some (u32 v))
    ∧ ∀ i, 0 <= i → i < o ∨ o + 4 <= i → aget mem' i = aget mem i.
Proof.
  intros Hsz Hl Ho. unfold OPTS_SET, OPTS_HAS. rewrite Hsz. cbn [mbind option_bind]. destruct (Z.leb_spec (o + 4) sz).
  - rewrite st_le32_splice by lia. cbn [mbind option_bind]. eexists. split; [done|]. split_and!.
    + f_equal. apply splice_length; cbn [length le32]; lia.
    + intros _. rewrite <- (Z.add_0_r o). apply (ld_le32_located _ _ (le32 v) 0); [|lia|cbn; lia|done]. rewrite Z.add_0_r. apply splice_located; cbn [length le32]; lia.
    + intros i Hi Hd. apply aget_splice; cbn [length le32]; lia.
  - exists mem. split_and!; [done|done|lia|done].
Qed.

Lemma OPTS_SET_u8_ok mem sz o v : ld_le64 mem 0 = Some sz → sz <= zlen mem → 8 <= o →
  ∃ mem', OPTS_SET_u8 (Some mem) o v = Some (Some mem') ∧ zlen mem' = zlen mem ∧ (o + 1 <= sz → aget mem' o = Some v)
    ∧ ∀ i, 0 <= i → i < o ∨ o + 1 <= i → aget mem' i = aget mem i.
Proof.
  intros Hsz Hl Ho. unfold OPTS_SET_u8, OPTS_HAS. rewrite Hsz. cbn [mbind option_bind]. destruct (Z.leb_spec (o + 1) sz).
  - rewrite aset_eq by lia. cbn [mbind option_bind]. eexists. split; [done|]. split_and!.
    + by rewrite length_insert.
    + intros _. rewrite aget_to_nat by lia. apply list_lookup_insert_eq. lia.
    + intros i Hi Hd. rewrite !aget_to_nat by lia. apply list_lookup_insert_ne. lia.
  - exists mem. split_and!; [done|done|lia|done].
Qed.

(** The options with what is known of a link, in the fields they have. *)
Record entered (mem mem' : list Z) (sz : Z) (i : xdp_link_info) : Prop := {
  en_prog_id : 12 <= sz → ld_le32 mem' xdp_query_opts_prog_id = Some (u32 (prog_id i));
  en_drv : 16 <= sz → ld_le32 mem' xdp_query_opts_drv_prog_id = Some (u32 (drv_prog_id i));
  en_hw : 20 <= sz → ld_le32 mem' xdp_query_opts_hw_prog_id = Some (u32 (hw_prog_id i));
  en_skb : 24 <= sz → ld_le32 mem' xdp_query_opts_skb_prog_id = Some (u32 (skb_prog_id i));
  en_mode : 25 <= sz → aget mem' xdp_query_opts_attach_mode = Some (attach_mode i);
  en_length : zlen mem' = zlen mem;
  en_rest : ∀ o, 0 <= o < 8 ∨ 25 <= o → aget mem' o = aget mem o;
}.

Lemma ld_le64_ext mem mem' : (∀ i, 0 <= i → i < 8 → aget mem' i = aget mem i) → ld_le64 mem' 0 = ld_le64 mem 0.
Proof. intros H. unfold ld_le64. by rewrite !(ld_le32_ext mem mem') by (intros i Hi; apply H; lia). Qed.

Lemma set_info_opts_ok mem sz i : ld_le64 mem 0 = Some sz → sz <= zlen mem → ∃ mem', set_info_opts (Some mem) i = Some (Some mem') ∧ entered mem mem' sz i.
Proof.
  intros Hsz Hl. unfold set_info_opts.
  destruct (OPTS_SET_ok mem sz xdp_query_opts_prog_id (prog_id i) Hsz Hl ltac:(done)) as (m1 & -> & L1 & F1 & R1). cbn [mbind option_bind].
  assert (ld_le64 m1 0 = Some sz) as S1 by (rewrite <- Hsz; apply ld_le64_ext; intros j ??; apply R1; unfold xdp_query_opts_prog_id; lia).
  destruct (OPTS_SET_ok m1 sz xdp_query_opts_drv_prog_id (drv_prog_id i) S1 ltac:(lia) ltac:(done)) as (m2 & -> & L2 & F2 & R2). cbn [mbind option_bind].
  assert (ld_le64 m2 0 = Some sz) as S2 by (rewrite <- S1; apply ld_le64_ext; intros j ??; apply R2; unfold xdp_query_opts_drv_prog_id; lia).
  destruct (OPTS_SET_ok m2 sz xdp_query_opts_hw_prog_id (hw_prog_id i) S2 ltac:(lia) ltac:(done)) as (m3 & -> & L3 & F3 & R3). cbn [mbind option_bind].
  assert (ld_le64 m3 0 = Some sz) as S3 by (rewrite <- S2; apply ld_le64_ext; intros j ??; apply R3; unfold xdp_query_opts_hw_prog_id; lia).
  destruct (OPTS_SET_ok m3 sz xdp_query_opts_skb_prog_id (skb_prog_id i) S3 ltac:(lia) ltac:(done)) as (m4 & -> & L4 & F4 & R4). cbn [mbind option_bind].
  assert (ld_le64 m4 0 = Some sz) as S4 by (rewrite <- S3; apply ld_le64_ext; intros j ??; apply R4; unfold xdp_query_opts_skb_prog_id; lia).
  destruct (OPTS_SET_u8_ok m4 sz xdp_query_opts_attach_mode (attach_mode i) S4 ltac:(lia) ltac:(done)) as (m5 & -> & L5 & F5 & R5).
  unfold xdp_query_opts_prog_id, xdp_query_opts_drv_prog_id, xdp_query_opts_hw_prog_id, xdp_query_opts_skb_prog_id, xdp_query_opts_attach_mode in *.
  exists m5. split; [done|]. constructor; unfold xdp_query_opts_prog_id, xdp_query_opts_drv_prog_id, xdp_query_opts_hw_prog_id, xdp_query_opts_skb_prog_id, xdp_query_opts_attach_mode.
  - intros H. rewrite <- F1 by lia. apply ld_le32_ext. intros j Hj. by rewrite R5, R4, R3, R2 by lia.
  - intros H. rewrite <- F2 by lia. apply ld_le32_ext. intros j Hj. by rewrite R5, R4, R3 by lia.
  - intros H. rewrite <- F3 by lia. apply ld_le32_ext. intros j Hj. by rewrite R5, R4 by lia.
  - intros H. rewrite <- F4 by lia. apply ld_le32_ext. intros j Hj. by rewrite R5 by lia.
  - intros H. apply F5. lia.
  - lia.
  - intros o Ho. by rewrite R5, R4, R3, R2, R1 by lia.
Qed.

(** ** The query *)

(** Only flags that are known, and at most one mode. *)
Definition query_flags_ok (flags : Z) : bool :=
  let mode := Z.land flags (Z.lor (Z.lor XDP_FLAGS_SKB_MODE XDP_FLAGS_DRV_MODE) XDP_FLAGS_HW_MODE) in
  (Z.land (u32 flags) (not32 XDP_FLAGS_MASK) =? 0) && (Z.land mode (mode - 1) =? 0).

Definition no_info : xdp_link_info := mkInfo 0 0 0 0 0.
Definition link_request : list Z := Eval vm_compute in default [] link_req.

(** The one link with the index is reported, whatever surrounds it. *)
Lemma report_other ifindex ms x : id_ifindex x = ifindex → ifindex ≠ 0 → Forall (λ l, lk_index l ≠ ifindex) (map snd ms) →
  foldl (λ x p, (report p x).2) x ms = x.
Proof.
  intros Hx H0. induction ms as [|p ms IH]; [done|]. cbn [map]. intros [Hp Hms]%Forall_cons_iff. cbn [foldl].
  unfold report at 2. cbn [snd]. rewrite Hx, (proj2 (Z.eqb_neq _ _) H0), (proj2 (Z.eqb_neq ifindex (lk_index p.2))) by congruence. by apply IH.
Qed.

Lemma report_one ifindex fl ms l1 l l2 : map snd ms = l1 ++ l :: l2 → lk_index l = ifindex → ifindex ≠ 0 → Forall (λ l, lk_index l ≠ ifindex) (l1 ++ l2) →
  foldl (λ x p, (report p x).2) (mkIdMd ifindex fl no_info 0) ms = mkIdMd ifindex fl (link_info l no_info) 0.
Proof.
  intros Hm Hl H0 Ho. apply Forall_app in Ho as [H1 H2]. apply map_eq_app in Hm as (ms1 & ms2 & -> & <- & Hm2).
  destruct ms2 as [|p ms2]; [done|]. injection Hm2 as <- <-. rewrite foldl_app, (report_other ifindex ms1) by done. cbn [foldl].
  unfold report at 2. cbn [id_ifindex id_flags id_info id_feature_flags snd]. rewrite Hl, Z.eqb_refl, andb_false_r. by rewrite (report_other ifindex ms2).
Qed.

(** C32: a query for the programs of an interface: flags that are not known or
    that ask for two modes are refused and nothing is sent; otherwise a dump of
    the links is asked for and, wherever the datagrams of the answer are cut and
    whatever other links it has, the identifiers and the mode of the link with
    the index are entered into the fields the options of the caller have, all
    their other bytes being kept, and the query goes on to the features exactly
    when the options have room for them. *)
Theorem xdp_query_reports system ifindex flags mem sz n x pid dgs fin l1 l l2 :
  system (n_no n) = x → exchange_ok x (n_socks n) → opened x = inr pid → ex_send x = 0 → (∀ len, ex_realloc x len = true) →
  delivers fst (ex_calls x) dgs fin → dump_of pid (u32 (ex_time x)) (l1 ++ l :: l2) dgs →
  Forall (λ ms, Forall msg_ok (map fst ms)) dgs → Forall (Forall (λ p, m_type p.1 ≠ NLMSG_DONE → of_link p)) dgs →
  lk_index l = ifindex → ifindex ≠ 0 → Forall (λ l, lk_index l ≠ ifindex) (l1 ++ l2) →
  OPTS_VALID (Some mem) xdp_query_opts_size = Some true → ld_le64 mem 0 = Some sz → sz <= zlen mem →
  if query_flags_ok flags
  then ∃ mem', entered mem mem' sz (link_info l no_info)
         ∧ bpf_xdp_query system ifindex flags (Some mem) n
           = (if xdp_query_opts_size <=? sz then query_features system ifindex (Some mem') else mret (0, Some mem'))
               (after n x NETLINK_ROUTE (take 32 (stamped link_request (ex_time x))))
  else bpf_xdp_query system ifindex flags (Some mem) n = Some (Some ((- EINVAL, Some mem), n)).
Proof.
  intros Hx Hok Hop Hse Hre Hdl [Hne (ms & e & Hc & Hls & Hd & Hld & He)] Hms Hlk Hl H0 Ho Hv Hsz Hlen.
  unfold bpf_xdp_query. rewrite Hv. cbv [mbind m_bind mret m_ret lift]. cbn beta iota. cbn [negb]. unfold query_flags_ok.
  destruct (Z.land (u32 flags) (not32 XDP_FLAGS_MASK) =? 0); cbn [negb andb]; [|done].
  set (mode := Z.land flags _). destruct (Z.land mode (mode - 1) =? 0); cbn [negb]; [|done].
  replace link_req with (Some link_request) by (vm_compute; reflexivity). cbn beta iota.
  rewrite (netlink_send_recv_spec fst system _ _ _ _ dump_link_implements x link_request NETLINK_ROUTE _ n 32 dgs fin);
    [|done..|by vm_compute|by vm_compute|by vm_compute].
  unfold answer. rewrite Hop, Hse, Hre. cbn [negb Z.eqb]. apply Forall_app in Hd as [Hd1 Hd2]. apply Forall_cons_iff in Hd2 as [Hd2 _].
  rewrite (run_dump pid _ _ fin e Hre Hd2 He dgs ms) by done. cbn [mbind option_bind].
  change (mkInfo 0 0 0 0 0) with no_info. rewrite (report_one ifindex mode ms l1 l l2) by done. cbn [id_info Z.eqb negb].
  destruct (set_info_opts_ok mem sz (link_info l no_info) Hsz Hlen) as (mem' & -> & Hen). exists mem'. split; [done|].
  cbn beta iota. unfold OPTS_HAS. rewrite (ld_le64_ext mem mem'), Hsz by (intros i ??; apply (en_rest _ _ _ _ Hen); lia). cbn [mbind option_bind].
  by destruct (xdp_query_opts_size <=? sz).
Qed.

(** ** Witness *)

(** The links 2 and 3, the latter with the program 7 in the mode SKB. *)
Definition ex_head (i : Z) : list Z := [0; 0; 1; 0; i; 0; 0; 0; 0; 0; 0; 0; 0; 0; 0; 0].
Definition ex_other : link := mkLink (ex_head 2) [mkAttr 3 [108; 111; 0] [0]] [].
Definition ex_nested : list attr := [mkAttr 2 [2] [0; 0; 0]; mkAttr 4 [7; 0; 0; 0] []].
Definition ex_link : link := mkLink (ex_head 3) [mkAttr 3 [101; 48; 0] [0]; mkAttr 43 (stream ex_nested) []] ex_nested.
Definition ex_msg (l : link) : message * link := (mkMsg 16 2 5 100 (lk_head l ++ stream (lk_attrs l)) [], l).
Definition ex_done : message * link := (mkMsg 3 2 5 100 [0; 0; 0; 0] [], ex_other).
Definition ex_dump : list (list (message * link)) := [[ex_msg ex_other; ex_msg ex_link]; [ex_done]].
Definition ex_calls_of : list recv_result :=
  concat (map (λ ms, let d := datagram (map fst ms) in [RecvFails 4; Datagram d; Datagram d]) ex_dump).
Definition ex_query : exchange := mkExchange (inr 3) 0 (inr (12, 100)) 5 0 (λ _, true) ex_calls_of.

Lemma ex_msg_ok l : zlen (lk_head l ++ stream (lk_attrs l)) < 100 → forallb (λ b, (0 <=? b) && (b <? 256)) (lk_head l ++ stream (lk_attrs l)) = true →
  NLMSG_ALIGN (m_len (ex_msg l).1) = m_len (ex_msg l).1 → msg_ok (ex_msg l).1.
Proof.
  intros Hl Hb Ha. constructor; try done.
  - split; [by apply bytes_ok_dec|done].
  - rewrite Ha. cbn. lia.
  - unfold m_len. cbn [ex_msg fst m_payload]. lia.
Qed.

Lemma ex_links_ok : Forall (Forall (λ p, m_type p.1 ≠ NLMSG_DONE → of_link p)) ex_dump.
Proof.
  assert (∀ t d p, 0 <= t < 2 ^ 14 → 4 + zlen d < 2 ^ 16 → 4 + zlen d + zlen p = NLA_ALIGN (4 + zlen d) → attr_ok (mkAttr t d p)) as Ha by done.
  assert (Forall attr_ok ex_nested) as Hn by (do 2 (constructor; [apply Ha; by vm_compute|]); constructor).
  assert (link_ok ex_other) as H1.
  { constructor; try done; [constructor; [apply Ha; by vm_compute|constructor]|repeat constructor; intros a [=]]. }
  assert (link_ok ex_link) as H2.
  { constructor; try done.
    - do 2 (constructor; [apply Ha; by vm_compute|]); constructor.
    - by intros a [= <-].
    - by intros a [= <-].
    - constructor; [by intros a [= <-]|]. repeat constructor; intros a [=]. }
  repeat (apply Forall_cons_iff; split); done.
Qed.

Lemma xdp_query_reports_witness :
  query_flags_ok 0 = true ∧ dump_of 100 5 [ex_other; ex_link] ex_dump ∧
  ∃ mem', entered (32 :: replicate 31 0) mem' 32 (mkInfo 7 0 0 0 2)
    ∧ bpf_xdp_query (λ _, ex_query) 3 0 (Some (32 :: replicate 31 0)) (mkNet 0 [] [] 0)
      = Some (Some ((0, Some mem'), mkNet 1 [(0, take 32 (stamped link_request 5))] [] 0)).
Proof.
  assert (exchange_ok ex_query []) as Hok by (constructor; [by split; [|apply not_elem_of_nil]|done|done]).
  assert (dump_of 100 5 [ex_other; ex_link] ex_dump) as Hd.
  { constructor; [repeat (constructor; [done|]); constructor|]. exists [ex_msg ex_other; ex_msg ex_link], ex_done. split_and!; try done.
    - repeat (constructor; [done|]). constructor.
    - repeat (constructor; [done|]). constructor. }
  split; [done|]. split; [done|].
  assert (3 ≠ 0) as three_nonzero by done.
  assert (delivers fst (ex_calls ex_query) ex_dump None) as Hdl.
  { apply (dl_datagram fst [RecvFails 4] [] _ _ _ None); [by constructor; [left|]|done|].
    apply (dl_datagram fst [RecvFails 4] [] _ [] [] None); [by constructor; [left|]|done|]. by apply dl_end. }
  assert (Forall (λ ms, Forall msg_ok (map fst ms)) ex_dump) as Hms.
  { assert (msg_ok (ex_msg ex_other).1) as M1 by (by apply ex_msg_ok).
    assert (msg_ok (ex_msg ex_link).1) as M2 by (by apply ex_msg_ok).
    assert (msg_ok ex_done.1) as M3 by (constructor; try done; split; by apply bytes_ok_dec).
    repeat (apply Forall_cons_iff; split); done. }
  assert (Forall (λ l, lk_index l ≠ 3) ([ex_other] ++ [])) as Ho by (constructor; done).
  destruct (xdp_query_reports (λ _, ex_query) 3 0 (32 :: replicate 31 0) 32 (mkNet 0 [] [] 0) ex_query 100 ex_dump None [ex_other] ex_link []
    eq_refl Hok eq_refl eq_refl (λ _, eq_refl) Hdl Hd Hms ex_links_ok eq_refl three_nonzero Ho eq_refl eq_refl (Z.le_refl 32))
    as (mem' & Hen & Hq).
  exists mem'. split; [exact Hen|exact Hq].
Defined.

(** ** Attaching *)

(** What the options ask for besides the flags: the flags of the request and the
    descriptor that is expected. *)
Definition attach_args (flags old : Z) : Z * Z := if old =? 0 then (flags, -1) else (Z.lor flags XDP_FLAGS_REPLACE, s32 old).

(** C33: attaching a program: options that are not valid are refused and nothing
    is sent; otherwise one request is sent which carries the interface, the
    descriptor, the flags unless they are 0 and the expected descriptor exactly
    when a replacement is asked for, by the flags or by the options, and the
    result is the one of the exchange. *)
Theorem xdp_attach_sends system ifindex fd flags opts valid old n x dgs fin :
  OPTS_VALID opts xdp_attach_opts_size = Some valid → OPTS_GET opts xdp_attach_opts_old_prog_fd = Some old →
  system (n_no n) = x → exchange_ok x (n_socks n) → delivers id (ex_calls x) dgs fin → Forall (Forall msg_ok) dgs →
  let '(flags', expected) := attach_args flags old in
  if valid : bool
  then ∃ req len, read_xdp_request req = Some (int_bytes ifindex, Some (int_bytes fd),
           if flags' =? 0 then None else Some (int_bytes flags'),
           if Z.land flags' XDP_FLAGS_REPLACE =? 0 then None else Some (int_bytes expected))
         ∧ ld_le32 req 0 = Some len
         ∧ bpf_xdp_attach system ifindex fd flags opts n
           = Some (r ← answer id None x dgs fin tt; Some (r.1, after n x NETLINK_ROUTE (take (Z.to_nat len) (stamped req (ex_time x)))))
  else bpf_xdp_attach system ifindex fd flags opts n = Some (Some (- EINVAL, n)).
Proof.
  intros Hv Ho Hx Hok Hd Hms. unfold bpf_xdp_attach. rewrite Hv. cbv [mbind m_bind mret m_ret lift]. cbn beta iota.
  destruct valid; cbn [negb]; [|by destruct (attach_args flags old)]. rewrite Ho. cbn beta iota. unfold attach_args.
  set (args := if old =? 0 then (flags, -1) else (Z.lor flags XDP_FLAGS_REPLACE, s32 old)).
  replace (if negb (old =? 0) then (Z.lor flags XDP_FLAGS_REPLACE, s32 old) else (flags, -1)) with args by (unfold args; by destruct (old =? 0)).
  destruct args as [flags' expected].
  match goal with |- context [@__bpf_set_link_xdp_fd_replace ?A ?e ?s _ _ _ _] =>
    destruct (@xdp_request_reads_back A e s ifindex fd expected flags') as (req & len & E & Hz & Hl & Hr & Hread) end.
  exists req, len. split; [done|]. split; [done|]. rewrite E. clear E Hread. cbn beta iota.
  assert (Forall (λ ms, Forall msg_ok (map id ms)) dgs) as Hms' by (clear -Hms; induction Hms; constructor; [by rewrite map_id|done]).
  rewrite (netlink_send_recv_spec id system None None (λ _, True) (λ _, True) I x req NETLINK_ROUTE tt n len dgs fin Hx Hok Hd Hms'); unfold sizeof_req in *.
  - by destruct (answer id None x dgs fin tt) as [[r []]|].
  - clear. induction dgs as [|ms dgs IH]; constructor; [|done]. by induction ms; constructor.
  - done.
  - lia.
  - done.
  - lia.
Qed.

(** The program 9 instead of the program 5 on the interface 3; the kernel refuses
    it. *)
Definition ex_attach_opts : list Z := [12; 0; 0; 0; 0; 0; 0; 0; 5; 0; 0; 0].

Lemma xdp_attach_sends_witness :
  exchange_ok ex_refused [] ∧
  ∃ req len, read_xdp_request req = Some (int_bytes 3, Some (int_bytes 9), Some (int_bytes 18), Some (int_bytes 5))
    ∧ ld_le32 req 0 = Some len
    ∧ bpf_xdp_attach (λ _, ex_refused) 3 9 2 (Some ex_attach_opts) (mkNet 0 [] [] 0)
      = Some (Some (-17, mkNet 1 [(0, take (Z.to_nat len) (stamped req 5))] [] 0)).
Proof.
  assert (exchange_ok ex_refused []) as Hok by (constructor; [by split; [|apply not_elem_of_nil]|done|done]).
  assert (delivers id (ex_calls ex_refused) [[ex_refusal]] None) as Hd.
  { apply (dl_datagram id [RecvFails 4] [] [ex_refusal] [] [] None); [by constructor; [left|]|done|]. by apply dl_end. }
  assert (Forall (Forall msg_ok) [[ex_refusal]]) as Hms by (repeat (apply Forall_cons_iff; split); [exact ex_refusal_ok|done..]).
  split; [done|].
  destruct (xdp_attach_sends (λ _, ex_refused) 3 9 2 (Some ex_attach_opts) true 5 (mkNet 0 [] [] 0) ex_refused [[ex_refusal]] None
    eq_refl eq_refl eq_refl Hok Hd Hms) as (req & len & Hr & Hl & Hq).
  exists req, len. split; [exact Hr|]. split; [exact Hl|]. rewrite Hq. reflexivity.
Defined.
