(* ===== verification/Btf.v ===== *)
(** * BTF type information ([lib/libbpf/src/btf.c], [btf.h])

    A BTF object is a header, a section of type records and a section of
    strings.  An object that was read lies in one block of memory; before it is
    changed it is taken apart into separately allocated regions.  This file has
    the data and everything that reads: the parser, the lookups by identifier
    and by name, sizes and alignments.  A pointer is a region with an offset;
    [None] is an access outside of the region or through NULL, and NULL itself
    is [None] inside. *)

From stdpp Require Import gmap.
From S2P Require Import Prelude CString Hashmap Strset Bytes.

Definition EINVAL : Z := 22.
Definition E2BIG : Z := 7.
Definition ENOTSUP : Z := 95.
Definition INT32_MAX : Z := 2 ^ 31 - 1.
Definition UINT32_MAX : Z := 2 ^ 32 - 1.
Definition BTF_MAX_NR_TYPES : Z := 0x7fffffff.
Definition BTF_MAX_STR_OFFSET : Z := 0x7fffffff.
Definition BTF_MAGIC : Z := 0xeB9F.
Definition BTF_VERSION : Z := 1.
Definition sizeof_ptr : Z := 8.

Definition bswap32 (x : Z) : Z :=
  Z.lor (Z.lor (Z.lor (Z.shiftr (Z.land x 0xff000000) 24) (Z.shiftr (Z.land x 0xff0000) 8))
    (Z.shiftl (Z.land x 0xff00) 8)) (Z.shiftl (Z.land x 0xff) 24).

(** ** Kinds *)

Inductive kind : Type :=
| UNKN | INT | PTR | ARRAY | STRUCT | UNION | ENUM | FWD | TYPEDEF | VOLATILE | CONST | RESTRICT | FUNC | FUNC_PROTO
| VAR | DATASEC | FLOAT | DECL_TAG | TYPE_TAG | ENUM64 | OTHER (n : Z).

#[export] Instance kind_eq_dec : EqDecision kind.
Proof. solve_decision. Defined.

Definition kinds : list kind :=
  [UNKN; INT; PTR; ARRAY; STRUCT; UNION; ENUM; FWD; TYPEDEF; VOLATILE; CONST; RESTRICT; FUNC; FUNC_PROTO; VAR; DATASEC;
   FLOAT; DECL_TAG; TYPE_TAG; ENUM64].

Definition kind_of_num (n : Z) : kind := default (OTHER n) (aget kinds n).

Definition kind_num (k : kind) : Z :=
  match k with
  | UNKN => 0 | INT => 1 | PTR => 2 | ARRAY => 3 | STRUCT => 4 | UNION => 5 | ENUM => 6 | FWD => 7 | TYPEDEF => 8
  | VOLATILE => 9 | CONST => 10 | RESTRICT => 11 | FUNC => 12 | FUNC_PROTO => 13 | VAR => 14 | DATASEC => 15 | FLOAT => 16
  | DECL_TAG => 17 | TYPE_TAG => 18 | ENUM64 => 19 | OTHER n => n
  end.

Definition BTF_INFO_KIND (info : Z) : Z := Z.land (Z.shiftr info 24) 0x1f.
Definition BTF_INFO_VLEN (info : Z) : Z := Z.land info 0xffff.
Definition BTF_INFO_KFLAG (info : Z) : Z := Z.shiftr info 31.
Definition BTF_MEMBER_BITFIELD_SIZE (val : Z) : Z := Z.shiftr val 24.
Definition BTF_MEMBER_BIT_OFFSET (val : Z) : Z := Z.land val 0xffffff.

Definition btf_type_info (kind vlen kflag : Z) : Z := u32 (Z.lor (Z.lor (Z.shiftl kflag 31) (Z.shiftl kind 24)) vlen).

(** ** Type records

    A record is a sequence of 32-bit words: [name_off], [info], [size] or
    [type], and words that depend on the kind. *)

Definition btf_void : list Z := replicate 12 0.

Inductive type_ptr : Type :=
| VoidType
| TypeAt (mem : list Z) (off : Z).

Definition t_word (t : type_ptr) (i : Z) : option Z :=
  match t with
  | VoidType => ld_le32 btf_void (4 * i)
  | TypeAt mem off => ld_le32 mem (off + 4 * i)
  end.

Definition t_name_off (t : type_ptr) : option Z := t_word t 0.
Definition t_info (t : type_ptr) : option Z := t_word t 1.
Definition t_size (t : type_ptr) : option Z := t_word t 2.
Definition t_type (t : type_ptr) : option Z := t_word t 2.

Definition btf_kind (t : type_ptr) : option kind := info ← t_info t; Some (kind_of_num (BTF_INFO_KIND info)).
Definition btf_vlen (t : type_ptr) : option Z := info ← t_info t; Some (BTF_INFO_VLEN info).
Definition btf_kflag (t : type_ptr) : option bool := info ← t_info t; Some (negb (BTF_INFO_KFLAG info =? 0)).

Definition is_kind (k : kind) (t : type_ptr) : option bool := k' ← btf_kind t; Some (bool_decide (k' = k)).
Definition btf_is_int := is_kind INT.
Definition btf_is_fwd := is_kind FWD.
Definition btf_is_union := is_kind UNION.
Definition btf_is_enum := is_kind ENUM.
Definition btf_is_enum64 := is_kind ENUM64.
Definition btf_is_typedef := is_kind TYPEDEF.
Definition btf_is_func_proto := is_kind FUNC_PROTO.
Definition btf_is_var := is_kind VAR.
Definition btf_is_datasec := is_kind DATASEC.
Definition btf_is_composite (t : type_ptr) : option bool :=
  k ← btf_kind t; Some (bool_decide (k = STRUCT) || bool_decide (k = UNION)).
Definition btf_is_mod (t : type_ptr) : option bool :=
  k ← btf_kind t;
  Some (bool_decide (k = VOLATILE) || bool_decide (k = CONST) || bool_decide (k = RESTRICT) || bool_decide (k = TYPE_TAG)).

(** Word [w] of member [i] of a struct or union: name, type and offset. *)
Definition m_word (t : type_ptr) (i w : Z) : option Z := t_word t (3 + 3 * i + w).

Definition btf_member_bit_offset (t : type_ptr) (i : Z) : option Z :=
  kflag ← btf_kflag t; off ← m_word t i 2; Some (if kflag : bool then BTF_MEMBER_BIT_OFFSET off else off).
Definition btf_member_bitfield_size (t : type_ptr) (i : Z) : option Z :=
  kflag ← btf_kflag t; if kflag : bool then off ← m_word t i 2; Some (BTF_MEMBER_BITFIELD_SIZE off) else Some 0.

(** The size of a record in bytes, or an error. *)
Definition btf_type_size (t : type_ptr) : option Z :=
  let base_size := 12 in
  vlen ← btf_vlen t;
  kind ← btf_kind t;
  Some match kind with
  | FWD | CONST | VOLATILE | RESTRICT | PTR | TYPEDEF | FUNC | FLOAT | TYPE_TAG => base_size
  | INT => base_size + 4
  | ENUM => base_size + vlen * 8
  | ENUM64 => base_size + vlen * 12
  | ARRAY => base_size + 12
  | STRUCT | UNION => base_size + vlen * 12
  | FUNC_PROTO => base_size + vlen * 8
  | VAR => base_size + 4
  | DATASEC => base_size + vlen * 12
  | DECL_TAG => base_size + 4
  | UNKN | OTHER _ => - EINVAL
  end.

(** ** Byte order *)

(** [x = bswap_32(x)] for a word in memory. *)
Definition bswap_word (mem : list Z) (off : Z) : option (list Z) := w ← ld_le32 mem off; st_le32 mem off (bswap32 w).

Definition btf_bswap_type_base (mem : list Z) (t : Z) : option (list Z) :=
  mem ← bswap_word mem t; mem ← bswap_word mem (t + 4); bswap_word mem (t + 8).

(** The loops over entries of two and of three words. *)
Definition bswap_pair_body (e i : Z) (mem : list Z) : option (ctl (list Z)) :=
  mem ← bswap_word mem (e + 8 * i); mem ← bswap_word mem (e + 8 * i + 4); Some (Next mem).
Definition bswap_triple_body (e i : Z) (mem : list Z) : option (ctl (list Z)) :=
  mem ← bswap_word mem (e + 12 * i); mem ← bswap_word mem (e + 12 * i + 4); mem ← bswap_word mem (e + 12 * i + 8);
  Some (Next mem).

Definition btf_bswap_type_rest (mem : list Z) (t : Z) : option (Z * list Z) :=
  vlen ← btf_vlen (TypeAt mem t);
  kind ← btf_kind (TypeAt mem t);
  let e := t + 12 in
  match kind with
  | FWD | CONST | VOLATILE | RESTRICT | PTR | TYPEDEF | FUNC | FLOAT | TYPE_TAG => Some (0, mem)
  | INT => mem ← bswap_word mem e; Some (0, mem)
  | ENUM => mem ← for_loop 0 vlen (bswap_pair_body e) mem; Some (0, mem)
  | ENUM64 => mem ← for_loop 0 vlen (bswap_triple_body e) mem; Some (0, mem)
  | ARRAY => mem ← bswap_word mem e; mem ← bswap_word mem (e + 4); mem ← bswap_word mem (e + 8); Some (0, mem)
  | STRUCT | UNION => mem ← for_loop 0 vlen (bswap_triple_body e) mem; Some (0, mem)
  | FUNC_PROTO => mem ← for_loop 0 vlen (bswap_pair_body e) mem; Some (0, mem)
  | VAR => mem ← bswap_word mem e; Some (0, mem)
  | DATASEC => mem ← for_loop 0 vlen (bswap_triple_body e) mem; Some (0, mem)
  | DECL_TAG => mem ← bswap_word mem e; Some (0, mem)
  | UNKN | OTHER _ => Some (- EINVAL, mem)
  end.

(** ** The header *)

Record btf_header : Type := mkHdr {
  magic : Z; version : Z; flags : Z; hdr_len : Z; type_off : Z; type_len : Z; str_off : Z; str_len : Z;
}.

Definition sizeof_hdr : Z := 24.

Definition ld_hdr (raw : list Z) : option btf_header :=
  m ← ld_le16 raw 0; v ← aget raw 2; f ← aget raw 3; hl ← ld_le32 raw 4; t_o ← ld_le32 raw 8; tl ← ld_le32 raw 12;
  so ← ld_le32 raw 16; sl ← ld_le32 raw 20; Some (mkHdr m v f hl t_o tl so sl).

Definition hdr_bytes (h : btf_header) : list Z :=
  le16 (magic h) ++ [version h; flags h] ++ le32 (hdr_len h) ++ le32 (type_off h) ++ le32 (type_len h) ++ le32 (str_off h)
  ++ le32 (str_len h).

Definition st_hdr (raw : list Z) (h : btf_header) : option (list Z) := aset_list raw 0 (hdr_bytes h).

Definition btf_bswap_hdr (h : btf_header) : btf_header :=
  mkHdr (bswap16 (magic h)) (version h) (flags h) (bswap32 (hdr_len h)) (bswap32 (type_off h)) (bswap32 (type_len h))
    (bswap32 (str_off h)) (bswap32 (str_len h)).

(** ** The object *)

(** An object that was read is one block, with the offsets [types_data] and
    [strs_data] in it; one that can be changed has a region of types, a set of
    strings, and perhaps a contiguous copy made by [btf__raw_data]. *)
Inductive storage : Type :=
| Contiguous (raw : list Z) (types_data strs_data : Z)
| Separate (types : list Z) (types_data_cap : Z) (strs_set : strset) (raw_data : option (list Z)).

(** [hdr_rest] are the bytes of the header behind the fields of the structure,
    when [hdr_len] is larger. *)
Inductive btf : Type := mkBtf {
  hdr : btf_header; hdr_rest : list Z; store : storage;
  type_offs : list Z; type_offs_cap : Z; nr_types : Z;
  base_btf : option btf; start_id : Z; start_str_off : Z;
  raw_size : Z; raw_data_swapped : option (list Z); swapped_endian : bool;
  strs_deduped : bool; ptr_sz : Z;
}.

Definition with_hdr (b : btf) (h : btf_header) : btf :=
  mkBtf h (hdr_rest b) (store b) (type_offs b) (type_offs_cap b) (nr_types b) (base_btf b) (start_id b) (start_str_off b)
    (raw_size b) (raw_data_swapped b) (swapped_endian b) (strs_deduped b) (ptr_sz b).
Definition with_store (b : btf) (s : storage) : btf :=
  mkBtf (hdr b) (hdr_rest b) s (type_offs b) (type_offs_cap b) (nr_types b) (base_btf b) (start_id b) (start_str_off b)
    (raw_size b) (raw_data_swapped b) (swapped_endian b) (strs_deduped b) (ptr_sz b).
Definition with_offs (b : btf) (offs : list Z) (cap : Z) : btf :=
  mkBtf (hdr b) (hdr_rest b) (store b) offs cap (nr_types b) (base_btf b) (start_id b) (start_str_off b)
    (raw_size b) (raw_data_swapped b) (swapped_endian b) (strs_deduped b) (ptr_sz b).
Definition with_nr (b : btf) (n : Z) : btf :=
  mkBtf (hdr b) (hdr_rest b) (store b) (type_offs b) (type_offs_cap b) n (base_btf b) (start_id b) (start_str_off b)
    (raw_size b) (raw_data_swapped b) (swapped_endian b) (strs_deduped b) (ptr_sz b).
Definition with_base (b : btf) (base : option btf) : btf :=
  mkBtf (hdr b) (hdr_rest b) (store b) (type_offs b) (type_offs_cap b) (nr_types b) base (start_id b) (start_str_off b)
    (raw_size b) (raw_data_swapped b) (swapped_endian b) (strs_deduped b) (ptr_sz b).
Definition with_raw (b : btf) (size : Z) (swapped : option (list Z)) : btf :=
  mkBtf (hdr b) (hdr_rest b) (store b) (type_offs b) (type_offs_cap b) (nr_types b) (base_btf b) (start_id b) (start_str_off b)
    size swapped (swapped_endian b) (strs_deduped b) (ptr_sz b).
Definition with_endian (b : btf) (swap : bool) : btf :=
  mkBtf (hdr b) (hdr_rest b) (store b) (type_offs b) (type_offs_cap b) (nr_types b) (base_btf b) (start_id b) (start_str_off b)
    (raw_size b) (raw_data_swapped b) swap (strs_deduped b) (ptr_sz b).
Definition with_deduped (b : btf) (d : bool) : btf :=
  mkBtf (hdr b) (hdr_rest b) (store b) (type_offs b) (type_offs_cap b) (nr_types b) (base_btf b) (start_id b) (start_str_off b)
    (raw_size b) (raw_data_swapped b) (swapped_endian b) d (ptr_sz b).
Definition with_ptr_sz (b : btf) (sz : Z) : btf :=
  mkBtf (hdr b) (hdr_rest b) (store b) (type_offs b) (type_offs_cap b) (nr_types b) (base_btf b) (start_id b) (start_str_off b)
    (raw_size b) (raw_data_swapped b) (swapped_endian b) (strs_deduped b) sz.

(** The regions [types_data] and [strs_data] point into. *)
Definition types_data (b : btf) : list Z * Z :=
  match store b with Contiguous raw t _ => (raw, t) | Separate types _ _ _ => (types, 0) end.

Definition btf_strs_data (b : btf) : list Z * Z :=
  match store b with Contiguous raw _ s => (raw, s) | Separate _ _ set _ => (strset__data set, 0) end.

(** ** Lookups by identifier and by offset *)

Definition btf__type_cnt (b : btf) : Z := u32 (start_id b + nr_types b).
Definition btf__base_btf (b : btf) : option btf := base_btf b.

Fixpoint btf_type_by_id (b : btf) (type_id : Z) : option type_ptr :=
  if type_id =? 0 then Some VoidType else
  if type_id <? u32 (start_id b) then match base_btf b with Some base => btf_type_by_id base type_id | None => None end else
  o ← aget (type_offs b) (u32 (type_id - start_id b));
  let '(mem, t) := types_data b in Some (TypeAt mem (t + o)).

Definition btf__type_by_id (b : btf) (type_id : Z) : option (option type_ptr) :=
  if u32 (start_id b + nr_types b) <=? type_id then Some None else
  t ← btf_type_by_id b type_id; Some (Some t).

Fixpoint btf__str_by_offset (b : btf) (offset : Z) : option (option (list Z * Z)) :=
  if offset <? u32 (start_str_off b) then
    match base_btf b with Some base => btf__str_by_offset base offset | None => None end
  else if u32 (offset - start_str_off b) <? str_len (hdr b) then
    let '(mem, s) := btf_strs_data b in Some (Some (mem, s + u32 (offset - start_str_off b)))
  else Some None.

Definition btf__name_by_offset := btf__str_by_offset.

(** The string at a pointer; its NUL must lie in the region. *)
Definition c_str (p : list Z * Z) : option (list Z) := _ ← strlen_at (p.1) (p.2); Some (cstr_at (p.1) (p.2)).

(** ** Reading an object *)

(** Against the size [raw_size] of the block: the new block, the header and
    whether its byte order was swapped, or an error. *)
Definition btf_check_hdr (raw_size : Z) (raw : list Z) (h : btf_header) (swapped : bool) : Z + (list Z * btf_header * bool) :=
  if raw_size <? hdr_len h then inl (- EINVAL) else
  let meta_left := raw_size - hdr_len h in
  if meta_left <? str_off h + str_len h then inl (- EINVAL) else
  if str_off h <? type_off h + type_len h then inl (- EINVAL) else
  if negb (type_off h mod 4 =? 0) then inl (- EINVAL) else
  inr (raw, h, swapped).

Definition btf_parse_hdr (raw_size : Z) (raw : list Z) : option (Z + (list Z * btf_header * bool)) :=
  if raw_size <? sizeof_hdr then Some (inl (- EINVAL)) else
  h ← ld_hdr raw;
  if magic h =? bswap16 BTF_MAGIC then
    if negb (bswap32 (hdr_len h) =? sizeof_hdr) then Some (inl (- ENOTSUP)) else
    let h := btf_bswap_hdr h in
    raw ← st_hdr raw h;
    Some (btf_check_hdr raw_size raw h true)
  else if negb (magic h =? BTF_MAGIC) then Some (inl (- EINVAL))
  else Some (btf_check_hdr raw_size raw h false).

Definition has_base (b : btf) : bool := match base_btf b with Some _ => true | None => false end.

Definition btf_parse_str_sec (b : btf) : option Z :=
  let h := hdr b in
  let '(mem, start) := btf_strs_data b in
  if has_base b && (str_len h =? 0) then Some 0 else
  if (str_len h =? 0) || (BTF_MAX_STR_OFFSET <? u32 (str_len h - 1)) then Some (- EINVAL) else
  last ← aget mem (start + str_len h - 1);
  if negb (last =? 0) then Some (- EINVAL) else
  if has_base b then Some 0 else
  first ← aget mem start;
  Some (if negb (first =? 0) then - EINVAL else 0).

Section btf.
Variable realloc : Z → bool.

Definition btf_add_type_offs_mem (b : btf) (add_cnt : Z) : option (btf * Z) :=
  match libbpf_add_mem realloc (type_offs b) (type_offs_cap b) 4 (nr_types b) BTF_MAX_NR_TYPES add_cnt with
  | None => None
  | Some (offs, cap, p) => Some (with_offs b offs cap, p)
  end.

Definition btf_add_type_idx_entry (b : btf) (type_off : Z) : option (Z * btf) :=
  match btf_add_type_offs_mem b 1 with
  | None => Some (- ENOMEM, b)
  | Some (b, p) => offs ← aset (type_offs b) p type_off; Some (0, with_offs b offs (type_offs_cap b))
  end.

(** A change of the block that the types lie in. *)
Definition set_types_mem (b : btf) (mem : list Z) : btf :=
  with_store b match store b with
    | Contiguous _ t s => Contiguous mem t s
    | Separate _ cap set raw => Separate mem cap set raw
    end.

(** The loop of [btf_parse_type_sec] on the object, the offset of the next
    record and the value returned from inside. *)
Definition type_sec_body (end_type : Z) (s : btf * Z * option Z) : option (ctl (btf * Z * option Z)) :=
  let '(b, next, ret) := s in
  if end_type <? next + 12 then Some (Break (b, next, ret)) else
  let '(mem, t) := types_data b in
  mem ← (if swapped_endian b then btf_bswap_type_base mem (t + next) else Some mem);
  let b := set_types_mem b mem in
  type_size ← btf_type_size (TypeAt mem (t + next));
  if type_size <? 0 then Some (Break (b, next, Some type_size)) else
  if end_type <? next + type_size then Some (Break (b, next, Some (- EINVAL))) else
  '(err, mem) ← (if swapped_endian b then btf_bswap_type_rest mem (t + next) else Some (0, mem));
  let b := set_types_mem b mem in
  if negb (err =? 0) then Some (Break (b, next, Some (- EINVAL))) else
  '(err, b) ← btf_add_type_idx_entry b next;
  if negb (err =? 0) then Some (Break (b, next, Some err)) else
  Some (Next (with_nr b (u32 (nr_types b + 1)), next + type_size, None)).

(** A record has at least 12 bytes. *)
Definition btf_parse_type_sec (b : btf) : option (Z * btf) :=
  let end_type := type_len (hdr b) in
  '(b, next, ret) ← while_loop (S (Z.to_nat (end_type / 12))) (type_sec_body end_type) (b, 0, None);
  match ret with
  | Some err => Some (err, b)
  | None => Some (if negb (next =? end_type) then - EINVAL else 0, b)
  end.

(** [btf_ok] and [raw_ok] say whether the two allocations succeed. *)
Definition btf_new (btf_ok raw_ok : bool) (data : list Z) (size : Z) (base : option btf) : option (Z + btf) :=
  if negb btf_ok then Some (inl (- ENOMEM)) else
  let start_id := match base with Some base => s32 (btf__type_cnt base) | None => 1 end in
  let start_str_off := match base with Some base => s32 (str_len (hdr base)) | None => 0 end in
  if negb raw_ok then Some (inl (- ENOMEM)) else
  raw ← aget_list data 0 (Z.to_nat size);
  r ← btf_parse_hdr size raw;
  match r with
  | inl err => Some (inl err)
  | inr (raw, h, swapped) =>
      let rest := take (Z.to_nat (hdr_len h - sizeof_hdr)) (drop (Z.to_nat sizeof_hdr) raw) in
      let b := mkBtf h rest (Contiguous raw (hdr_len h + type_off h) (hdr_len h + str_off h)) [] 0 0 base start_id
                 start_str_off size None swapped false 0 in
      err ← btf_parse_str_sec b;
      if negb (err =? 0) then Some (inl err) else
      '(err, b) ← btf_parse_type_sec b;
      Some (if negb (err =? 0) then inl err else inr b)
  end.

Definition btf__new (btf_ok raw_ok : bool) (data : list Z) (size : Z) : option (Z + btf) :=
  btf_new btf_ok raw_ok data size None.

(** The block of an empty object is zeroed before the header is written. *)
Definition btf_new_empty (btf_ok raw_ok : bool) (base : option btf) : option (Z + btf) :=
  if negb btf_ok then Some (inl (- ENOMEM)) else
  let start_id := match base with Some base => s32 (btf__type_cnt base) | None => 1 end in
  let start_str_off := match base with Some base => s32 (str_len (hdr base)) | None => 0 end in
  let n := match base with Some _ => 0 | None => 1 end in
  let size := sizeof_hdr + n in
  if negb raw_ok then Some (inl (- ENOMEM)) else
  let h := mkHdr BTF_MAGIC BTF_VERSION 0 sizeof_hdr 0 0 0 n in
  raw ← st_hdr (replicate (Z.to_nat size) 0) h;
  Some (inr (mkBtf h [] (Contiguous raw (hdr_len h) (hdr_len h)) [] 0 0 base start_id start_str_off size None false false
               sizeof_ptr)).

Definition btf__new_empty (btf_ok raw_ok : bool) : option (Z + btf) := btf_new_empty btf_ok raw_ok None.
Definition btf__new_empty_split (btf_ok raw_ok : bool) (base_btf : btf) : option (Z + btf) := btf_new_empty btf_ok raw_ok (Some base_btf).
End btf.

(** ** The size of pointers and the byte order *)

Definition long_aliases : list (list Z) := Eval vm_compute in map cstr
  ["long"; "long int"; "int long"; "unsigned long"; "long unsigned"; "unsigned long int"; "unsigned int long";
   "long unsigned int"; "long int unsigned"; "int unsigned long"; "int long unsigned"]%string.

(** The loop over the types, with the size that is returned from inside. *)
Definition ptr_size_body (b : btf) (i : Z) (ret : option Z) : option (ctl (option Z)) :=
  t ← btf__type_by_id b (u32 i);
  t ← t;
  int ← btf_is_int t;
  if negb int then Some (Next ret) else
  size ← t_size t;
  if negb (size =? 4) && negb (size =? 8) then Some (Next ret) else
  off ← t_name_off t;
  name ← btf__name_by_offset b off;
  match name with
  | None => Some (Next ret)
  | Some p =>
      s ← c_str p;
      Some (if existsb (λ alias, bool_decide (s = alias)) long_aliases then Break (Some size) else Next ret)
  end.

Definition determine_ptr_size (b : btf) : option Z :=
  let base_sz := match base_btf b with Some base => ptr_sz base | None => 0 end in
  if 0 <? base_sz then Some base_sz else
  ret ← for_loop 1 (s32 (btf__type_cnt b)) (ptr_size_body b) None;
  Some (default (-1) ret).

(** The size is determined once and stored. *)
Definition cache_ptr_sz (b : btf) : option btf :=
  if ptr_sz b =? 0 then sz ← determine_ptr_size b; Some (with_ptr_sz b sz) else Some b.

Definition btf_ptr_sz (b : btf) : option (Z * btf) :=
  b ← cache_ptr_sz b; Some (if ptr_sz b <? 0 then sizeof_ptr else ptr_sz b, b).

Definition btf__pointer_size (b : btf) : option (Z * btf) :=
  b ← cache_ptr_sz b; Some (if ptr_sz b <? 0 then 0 else ptr_sz b, b).

Definition btf__set_pointer_size (b : btf) (sz : Z) : Z * btf :=
  if negb (sz =? 4) && negb (sz =? 8) then (- EINVAL, b) else (0, with_ptr_sz b sz).

(** [true] is big-endian; the host is little-endian. *)
Definition is_host_big_endian : bool := false.

Definition btf__endianness (b : btf) : bool :=
  if is_host_big_endian then negb (swapped_endian b) else swapped_endian b.

Definition btf__set_endianness (b : btf) (endian : Z) : Z * btf :=
  if negb (endian =? 0) && negb (endian =? 1) then (- EINVAL, b) else
  let b := with_endian b (xorb is_host_big_endian (endian =? 1)) in
  (0, if swapped_endian b then b else with_raw b (raw_size b) None).

(** ** Sizes *)

Definition MAX_RESOLVE_DEPTH : Z := 32.

Definition btf_type_is_void (t : type_ptr) : option bool :=
  match t with VoidType => Some true | TypeAt _ _ => btf_is_fwd t end.

Definition btf_type_is_void_or_null (t : option type_ptr) : option bool :=
  match t with None => Some true | Some t => btf_type_is_void t end.

(** The loop variables of [btf__resolve_size]: the type, the number of elements,
    the size, the value returned from inside, and the object. *)
Record rs_state : Type := mkRs { rs_t : option type_ptr; rs_nelems : Z; rs_size : Z; rs_ret : option Z; rs_btf : btf }.

Definition resolve_size_body (i : Z) (s : rs_state) : option (ctl rs_state) :=
  let '(mkRs t nelems size ret b) := s in
  stop ← btf_type_is_void_or_null t;
  if stop : bool then Some (Break s) else
  t ← t;
  kind ← btf_kind t;
  match kind with
  | INT | STRUCT | UNION | ENUM | ENUM64 | DATASEC | FLOAT =>
      size ← t_size t; Some (Break (mkRs (Some t) nelems size None b))
  | PTR => '(size, b) ← btf_ptr_sz b; Some (Break (mkRs (Some t) nelems size None b))
  | TYPEDEF | VOLATILE | CONST | RESTRICT | VAR | DECL_TAG | TYPE_TAG =>
      type_id ← t_type t;
      t' ← btf__type_by_id b type_id; Some (Next (mkRs t' nelems size None b))
  | ARRAY =>
      array_nelems ← t_word t 5;
      if negb (nelems =? 0) && (UINT32_MAX / nelems <? array_nelems) then Some (Break (mkRs (Some t) nelems size (Some (- E2BIG)) b)) else
      type_id ← t_word t 3;
      t' ← btf__type_by_id b type_id; Some (Next (mkRs t' (u32 (nelems * array_nelems)) size None b))
  | _ => Some (Break (mkRs (Some t) nelems size (Some (- EINVAL)) b))
  end.

Definition btf__resolve_size (b : btf) (type_id : Z) : option (Z * btf) :=
  t ← btf__type_by_id b type_id;
  s ← for_loop 0 MAX_RESOLVE_DEPTH resolve_size_body (mkRs t 1 (-1) None b);
  let nelems := rs_nelems s in
  let size := rs_size s in
  Some (match rs_ret s with
        | Some err => err
        | None =>
            if size <? 0 then - EINVAL else
            if negb (nelems =? 0) && (UINT32_MAX / nelems <? size) then - E2BIG else nelems * size
        end, rs_btf s).

(** ** Alignments *)

(** The loop over the members, with [max_align], the value returned from inside
    and the object; [align_of] is the recursive call. *)
Definition align_body (align_of : btf → Z → option (Z * btf)) (t : type_ptr) (i : Z) (s : Z * option Z * btf)
    : option (ctl (Z * option Z * btf)) :=
  let '(max_align, _, b) := s in
  m_type ← m_word t i 1;
  '(align, b) ← align_of b m_type;
  if align <=? 0 then Some (Break (max_align, Some align, b)) else
  let max_align := Z.max max_align align in
  bits ← btf_member_bitfield_size t i;
  m_offset ← m_word t i 2;
  if (bits =? 0) && negb (m_offset mod (8 * align) =? 0) then Some (Break (max_align, Some 1, b)) else
  Some (Next (max_align, None, b)).

(** [fuel] is the depth of the recursion. *)
Fixpoint btf__align_of (fuel : nat) (b : btf) (id : Z) : option (Z * btf) :=
  match fuel with
  | O => None
  | S fuel =>
      t ← btf__type_by_id b id;
      t ← t;
      kind ← btf_kind t;
      match kind with
      | INT | ENUM | ENUM64 | FLOAT => '(p, b) ← btf_ptr_sz b; size ← t_size t; Some (Z.min p size, b)
      | PTR => btf_ptr_sz b
      | TYPEDEF | VOLATILE | CONST | RESTRICT | TYPE_TAG => id ← t_type t; btf__align_of fuel b id
      | ARRAY => id ← t_word t 3; btf__align_of fuel b id
      | STRUCT | UNION =>
          vlen ← btf_vlen t;
          '(max_align, ret, b) ← for_loop 0 vlen (align_body (btf__align_of fuel) t) (1, None, b);
          match ret with
          | Some ret => Some (ret, b)
          | None => size ← t_size t; Some (if negb (size mod max_align =? 0) then 1 else max_align, b)
          end
      | _ => Some (0, b)
      end
  end.

(** ** Lookups by name *)

(** The loop of [btf__resolve_type] on the type and its identifier. *)
Definition resolve_type_body (b : btf) (i : Z) (s : option type_ptr * Z * Z) : option (ctl (option type_ptr * Z * Z)) :=
  let '(t, type_id, depth) := s in
  stop ← btf_type_is_void_or_null t;
  if stop : bool then Some (Break s) else
  t ← t;
  mod_ ← btf_is_mod t; td ← btf_is_typedef t; var ← btf_is_var t;
  if negb (mod_ || td || var) then Some (Break s) else
  type_id ← t_type t;
  t' ← btf__type_by_id b type_id;
  Some (Next (t', type_id, depth + 1)).

Definition btf__resolve_type (b : btf) (type_id : Z) : option Z :=
  t ← btf__type_by_id b type_id;
  '(t, type_id, depth) ← for_loop 0 MAX_RESOLVE_DEPTH (resolve_type_body b) (t, type_id, 0);
  if depth =? MAX_RESOLVE_DEPTH then Some (- EINVAL) else
  stop ← btf_type_is_void_or_null t;
  Some (if stop : bool then - EINVAL else s32 type_id).

Definition void_name : list Z := Eval vm_compute in cstr "void".

(** [name && !strcmp(type_name, name)]. *)
Definition name_is (b : btf) (off : Z) (type_name : list Z) : option bool :=
  name ← btf__name_by_offset b off;
  match name with None => Some false | Some p => s ← c_str p; Some (bool_decide (s = type_name)) end.

Definition find_name_body (b : btf) (type_name : list Z) (i : Z) (ret : option Z) : option (ctl (option Z)) :=
  t ← btf__type_by_id b i;
  t ← t;
  off ← t_name_off t;
  eq ← name_is b off type_name;
  Some (if eq : bool then Break (Some (s32 i)) else Next ret).

Definition btf__find_by_name (b : btf) (type_name : list Z) : option Z :=
  if bool_decide (type_name = void_name) then Some 0 else
  ret ← for_loop 1 (btf__type_cnt b) (find_name_body b type_name) None;
  Some (default (- ENOENT) ret).

Definition find_kind_body (b : btf) (type_name : list Z) (kind i : Z) (ret : option Z) : option (ctl (option Z)) :=
  t ← btf__type_by_id b i;
  t ← t;
  info ← t_info t;
  if negb (BTF_INFO_KIND info =? kind) then Some (Next ret) else
  off ← t_name_off t;
  eq ← name_is b off type_name;
  Some (if eq : bool then Break (Some (s32 i)) else Next ret).

Definition btf_find_by_name_kind (b : btf) (start_id : Z) (type_name : list Z) (kind : Z) : option Z :=
  if (kind =? 0) || bool_decide (type_name = void_name) then Some 0 else
  ret ← for_loop (u32 start_id) (btf__type_cnt b) (find_kind_body b type_name kind) None;
  Some (default (- ENOENT) ret).

Definition btf__find_by_name_kind_own (b : btf) (type_name : list Z) (kind : Z) : option Z :=
  btf_find_by_name_kind b (start_id b) type_name kind.

Definition btf__find_by_name_kind (b : btf) (type_name : list Z) (kind : Z) : option Z :=
  btf_find_by_name_kind b 1 type_name kind.
