(* ===== verification/BtfBuild.v ===== *)
(** * Building BTF ([lib/libbpf/src/btf.c])

    The functions that take an object apart, add strings and types to it, and
    write it out again.  Each [btf__add_] function returns the identifier of the
    new type or an error; [btf__free] lists what it frees. *)

From stdpp Require Import gmap.
From S2P Require Import Prelude CString Hashmap Strset Bytes Btf.

Definition btf_is_modifiable (b : btf) : bool := match store b with Contiguous _ _ _ => false | Separate _ _ _ _ => true end.

Definition with_set (b : btf) (set : strset) : btf :=
  match store b with
  | Contiguous _ _ _ => b
  | Separate types cap _ raw => with_store b (Separate types cap set raw)
  end.

Definition btf_invalidate_raw_data (b : btf) : btf :=
  with_raw match store b with
    | Contiguous _ _ _ => b
    | Separate types cap set _ => with_store b (Separate types cap set None)
    end (raw_size b) None.

(** The pointers of an object that are given to [free], which does nothing for
    NULL; without a separate memory for each section the header and the types
    lie in the raw data. *)
Inductive btf_block : Type :=
| OfSet (b : set_block)
| HdrBlock
| TypesBlock
| RawBlock
| SwappedBlock
| OffsBlock
| BtfBlock.

Section build.
Variable malloc : heap → option Z.
Variable calloc : Z → bool.
Variable realloc : Z → bool.

(** Whether a block of this many bytes is given. *)
Variable block : Z → bool.

(** ** Taking apart *)

(** After [err_out:] nothing is changed; the strings that were indexed before
    an error are freed by [strset__new] itself. *)
Definition btf_ensure_modifiable (b : btf) (h : heap) : option (Z * btf * heap) :=
  match store b with
  | Separate _ _ _ _ => Some (0, btf_invalidate_raw_data b, h)
  | Contiguous raw t s =>
      let hd := hdr b in
      if negb (block (hdr_len hd)) || negb (block (type_len hd)) then Some (- ENOMEM, b, h) else
      types ← aget_list raw t (Z.to_nat (type_len hd));
      strs ← aget_list raw s (Z.to_nat (str_len hd));
      '(set, h) ← strset__new malloc calloc (block 40) (block 56) (block (str_len hd)) BTF_MAX_STR_OFFSET (Some strs) h;
      match set with
      | inl (err, _) => Some (err, b, h)
      | inr set =>
          (* the header was copied: its fields are read from [hdr_len] bytes *)
          if hdr_len hd <? sizeof_hdr then None else
          let b := with_store b (Separate types (type_len hd) set None) in
          let b := if str_len hd =? 0 then with_deduped b true else b in
          let b := if negb (has_base b) && (str_len hd =? 1) then with_deduped b true else b in
          Some (0, btf_invalidate_raw_data b, h)
      end
  end.

(** ** Strings *)

Definition own_set (b : btf) : option strset := match store b with Contiguous _ _ _ => None | Separate _ _ set _ => Some set end.

Definition find_own_str (b : btf) (h : heap) (s : list Z) : option (Z * btf * heap) :=
  '(err, b, h) ← btf_ensure_modifiable b h;
  if negb (err =? 0) then Some (- ENOMEM, b, h) else
  set ← own_set b;
  '(off, set) ← strset__find_str realloc set h s;
  let b := with_set b set in
  if off <? 0 then Some (off, b, h) else
  Some (s32 (start_str_off b + off), b, h).

(** The base object is searched, and taken apart, first. *)
Fixpoint btf__find_str (b : btf) (h : heap) (s : list Z) : option (Z * btf * heap) :=
  match base_btf b with
  | None => find_own_str b h s
  | Some base =>
      '(off, base, h) ← btf__find_str base h s;
      let b := with_base b (Some base) in
      if negb (off =? - ENOENT) then Some (off, b, h) else find_own_str b h s
  end.

Definition add_own_str (b : btf) (h : heap) (s : list Z) : option (Z * btf * heap) :=
  '(err, b, h) ← btf_ensure_modifiable b h;
  if negb (err =? 0) then Some (- ENOMEM, b, h) else
  set ← own_set b;
  '(off, set, h) ← strset__add_str malloc calloc realloc set h s;
  let b := with_set b set in
  if off <? 0 then Some (off, b, h) else
  let hd := hdr b in
  let hd := mkHdr (magic hd) (version hd) (flags hd) (hdr_len hd) (type_off hd) (type_len hd) (str_off hd)
              (u32 (strset__data_size set)) in
  Some (s32 (start_str_off b + off), with_hdr b hd, h).

Definition btf__add_str (b : btf) (h : heap) (s : list Z) : option (Z * btf * heap) :=
  match base_btf b with
  | None => add_own_str b h s
  | Some base =>
      '(off, base, h) ← btf__find_str base h s;
      let b := with_base b (Some base) in
      if negb (off =? - ENOENT) then Some (off, b, h) else add_own_str b h s
  end.

(** ** Types *)

(** The region of the types with the offset of the new memory. *)
Definition btf_add_type_mem (b : btf) (add_sz : Z) : option (option (btf * Z)) :=
  match store b with
  | Contiguous _ _ _ => None
  | Separate types cap set raw =>
      match libbpf_add_mem realloc types cap 1 (type_len (hdr b)) UINT32_MAX add_sz with
      | None => Some None
      | Some (types, cap, p) => Some (Some (with_store b (Separate types cap set raw), p))
      end
  end.

(** [type_len] and [str_off] grow by the new data. *)
Definition grow_types (b : btf) (data_sz : Z) : btf :=
  let hd := hdr b in
  with_hdr b (mkHdr (magic hd) (version hd) (flags hd) (hdr_len hd) (type_off hd) (u32 (type_len hd + data_sz))
                (u32 (str_off hd + data_sz)) (str_len hd)).

Definition btf_commit_type (b : btf) (data_sz : Z) : option (Z * btf) :=
  '(err, b) ← btf_add_type_idx_entry realloc b (type_len (hdr b));
  if negb (err =? 0) then Some (err, b) else
  let b := with_nr (grow_types b data_sz) (u32 (nr_types b + 1)) in
  Some (s32 (start_id b + nr_types b - 1), b).

(** Assignments to successive words of the region of the types. *)
Fixpoint st_words (mem : list Z) (off : Z) (ws : list Z) : option (list Z) :=
  match ws with
  | [] => Some mem
  | w :: ws => mem ← st_le32 mem off w; st_words mem (off + 4) ws
  end.

Definition put_words (b : btf) (off : Z) (ws : list Z) : option btf :=
  match store b with
  | Contiguous _ _ _ => None
  | Separate types cap set raw => types ← st_words types off ws; Some (with_store b (Separate types cap set raw))
  end.

(** [name && name[0]]. *)
Definition nonempty (name : option (list Z)) : bool := match name with Some (_ :: _) => true | _ => false end.

(** The common part of the functions that add a type: memory for it, its name
    when [named], its words and the commit. *)
Definition add_named (b : btf) (h : heap) (sz : Z) (name : option (list Z)) (words : Z → list Z) : option (Z * btf * heap) :=
  '(err, b, h) ← btf_ensure_modifiable b h;
  if negb (err =? 0) then Some (- ENOMEM, b, h) else
  r ← btf_add_type_mem b sz;
  match r with
  | None => Some (- ENOMEM, b, h)
  | Some (b, t) =>
      '(name_off, b, h) ← (if nonempty name then btf__add_str b h (default [] name) else Some (0, b, h));
      if name_off <? 0 then Some (name_off, b, h) else
      b ← put_words b t (words name_off);
      '(id, b) ← btf_commit_type b sz;
      Some (id, b, h)
  end.

Definition validate_type_id (id : Z) : bool := (0 <=? id) && (id <=? BTF_MAX_NR_TYPES).

Definition btf__add_int (b : btf) (h : heap) (name : option (list Z)) (byte_sz encoding : Z) : option (Z * btf * heap) :=
  if negb (nonempty name) then Some (- EINVAL, b, h) else
  if (byte_sz =? 0) || negb (Z.land byte_sz (u64 (byte_sz - 1)) =? 0) || (16 <? byte_sz) then Some (- EINVAL, b, h) else
  if negb (Z.land encoding (Z.lnot 7) =? 0) then Some (- EINVAL, b, h) else
  add_named b h 16 name (λ name_off,
    [name_off; btf_type_info (kind_num INT) 0 0; byte_sz; Z.lor (Z.shiftl encoding 24) (byte_sz * 8)]).

Definition btf__add_float (b : btf) (h : heap) (name : option (list Z)) (byte_sz : Z) : option (Z * btf * heap) :=
  if negb (nonempty name) then Some (- EINVAL, b, h) else
  if negb (existsb (Z.eqb byte_sz) [2; 4; 8; 12; 16]) then Some (- EINVAL, b, h) else
  add_named b h 12 name (λ name_off, [name_off; btf_type_info (kind_num FLOAT) 0 0; byte_sz]).

Definition btf_add_ref_kind (b : btf) (h : heap) (k : kind) (name : option (list Z)) (ref_type_id : Z) : option (Z * btf * heap) :=
  if negb (validate_type_id ref_type_id) then Some (- EINVAL, b, h) else
  add_named b h 12 name (λ name_off, [name_off; btf_type_info (kind_num k) 0 0; ref_type_id]).

Definition btf__add_ptr (b : btf) (h : heap) (ref_type_id : Z) := btf_add_ref_kind b h PTR None ref_type_id.

Definition btf__add_array (b : btf) (h : heap) (index_type_id elem_type_id nr_elems : Z) : option (Z * btf * heap) :=
  if negb (validate_type_id index_type_id) || negb (validate_type_id elem_type_id) then Some (- EINVAL, b, h) else
  add_named b h 24 None (λ _, [0; btf_type_info (kind_num ARRAY) 0 0; 0; elem_type_id; index_type_id; nr_elems]).

Definition btf_add_composite (b : btf) (h : heap) (k : kind) (name : option (list Z)) (bytes_sz : Z) : option (Z * btf * heap) :=
  add_named b h 12 name (λ name_off, [name_off; btf_type_info (kind_num k) 0 0; bytes_sz]).

Definition btf__add_struct (b : btf) (h : heap) (name : option (list Z)) (byte_sz : Z) := btf_add_composite b h STRUCT name byte_sz.
Definition btf__add_union (b : btf) (h : heap) (name : option (list Z)) (byte_sz : Z) := btf_add_composite b h UNION name byte_sz.

Definition btf_add_enum_common (b : btf) (h : heap) (name : option (list Z)) (byte_sz : Z) (is_signed : bool) (k : kind)
    : option (Z * btf * heap) :=
  if (byte_sz =? 0) || negb (Z.land byte_sz (u32 (byte_sz - 1)) =? 0) || (8 <? byte_sz) then Some (- EINVAL, b, h) else
  add_named b h 12 name (λ name_off, [name_off; btf_type_info (kind_num k) 0 (Z.b2z is_signed); byte_sz]).

Definition btf__add_enum (b : btf) (h : heap) (name : option (list Z)) (byte_sz : Z) :=
  btf_add_enum_common b h name byte_sz false ENUM.
Definition btf__add_enum64 (b : btf) (h : heap) (name : option (list Z)) (byte_sz : Z) (is_signed : bool) :=
  btf_add_enum_common b h name byte_sz is_signed ENUM64.

(** [t->info = info] for a type of the object itself. *)
Definition set_info (b : btf) (t : type_ptr) (info : Z) : option btf :=
  match t with VoidType => None | TypeAt _ off => put_words b (off + 4) [info] end.

Definition BTF_FWD_STRUCT : Z := 0.
Definition BTF_FWD_UNION : Z := 1.
Definition BTF_FWD_ENUM : Z := 2.

Definition btf__add_fwd (b : btf) (h : heap) (name : option (list Z)) (fwd_kind : Z) : option (Z * btf * heap) :=
  if negb (nonempty name) then Some (- EINVAL, b, h) else
  if (fwd_kind =? BTF_FWD_STRUCT) || (fwd_kind =? BTF_FWD_UNION) then
    '(id, b, h) ← btf_add_ref_kind b h FWD name 0;
    if id <=? 0 then Some (id, b, h) else
    t ← btf_type_by_id b id;
    b ← set_info b t (btf_type_info (kind_num FWD) 0 (Z.b2z (fwd_kind =? BTF_FWD_UNION)));
    Some (id, b, h)
  else if fwd_kind =? BTF_FWD_ENUM then btf__add_enum b h name 4
  else Some (- EINVAL, b, h).

Definition btf__add_typedef (b : btf) (h : heap) (name : option (list Z)) (ref_type_id : Z) : option (Z * btf * heap) :=
  if negb (nonempty name) then Some (- EINVAL, b, h) else btf_add_ref_kind b h TYPEDEF name ref_type_id.

Definition btf__add_volatile (b : btf) (h : heap) (ref_type_id : Z) := btf_add_ref_kind b h VOLATILE None ref_type_id.
Definition btf__add_const (b : btf) (h : heap) (ref_type_id : Z) := btf_add_ref_kind b h CONST None ref_type_id.
Definition btf__add_restrict (b : btf) (h : heap) (ref_type_id : Z) := btf_add_ref_kind b h RESTRICT None ref_type_id.

Definition btf__add_type_tag (b : btf) (h : heap) (value : option (list Z)) (ref_type_id : Z) : option (Z * btf * heap) :=
  if negb (nonempty value) then Some (- EINVAL, b, h) else btf_add_ref_kind b h TYPE_TAG value ref_type_id.

(** The linkages [STATIC], [GLOBAL] and [EXTERN] are 0, 1 and 2. *)
Definition linkage_ok (linkage : Z) : bool := (linkage =? 0) || (linkage =? 1) || (linkage =? 2).

Definition btf__add_func (b : btf) (h : heap) (name : option (list Z)) (linkage proto_type_id : Z) : option (Z * btf * heap) :=
  if negb (nonempty name) then Some (- EINVAL, b, h) else
  if negb (linkage_ok linkage) then Some (- EINVAL, b, h) else
  '(id, b, h) ← btf_add_ref_kind b h FUNC name proto_type_id;
  if id <=? 0 then Some (id, b, h) else
  t ← btf_type_by_id b id;
  b ← set_info b t (btf_type_info (kind_num FUNC) linkage 0);
  Some (id, b, h).

Definition btf__add_func_proto (b : btf) (h : heap) (ret_type_id : Z) : option (Z * btf * heap) :=
  if negb (validate_type_id ret_type_id) then Some (- EINVAL, b, h) else
  add_named b h 12 None (λ _, [0; btf_type_info (kind_num FUNC_PROTO) 0 0; ret_type_id]).

Definition btf__add_var (b : btf) (h : heap) (name : option (list Z)) (linkage type_id : Z) : option (Z * btf * heap) :=
  if negb (nonempty name) then Some (- EINVAL, b, h) else
  if negb (linkage_ok linkage) then Some (- EINVAL, b, h) else
  if negb (validate_type_id type_id) then Some (- EINVAL, b, h) else
  add_named b h 16 name (λ name_off, [name_off; btf_type_info (kind_num VAR) 0 0; type_id; linkage]).

Definition btf__add_datasec (b : btf) (h : heap) (name : option (list Z)) (byte_sz : Z) : option (Z * btf * heap) :=
  if negb (nonempty name) then Some (- EINVAL, b, h) else
  add_named b h 12 name (λ name_off, [name_off; btf_type_info (kind_num DATASEC) 0 0; byte_sz]).

Definition btf__add_decl_tag (b : btf) (h : heap) (value : option (list Z)) (ref_type_id component_idx : Z)
    : option (Z * btf * heap) :=
  if negb (nonempty value) || (component_idx <? -1) then Some (- EINVAL, b, h) else
  if negb (validate_type_id ref_type_id) then Some (- EINVAL, b, h) else
  add_named b h 16 value (λ value_off, [value_off; btf_type_info (kind_num DECL_TAG) 0 0; ref_type_id; component_idx]).

(** ** Members *)

Definition btf_last_type (b : btf) : option type_ptr := btf_type_by_id b (u32 (btf__type_cnt b - 1)).

(** The new [info] of a type that gets one more member. *)
Definition btf_type_inc_vlen (info : Z) (kflag : bool) : Z :=
  btf_type_info (BTF_INFO_KIND info) (BTF_INFO_VLEN info + 1) (Z.b2z kflag).

(** The common part of the functions that add a member to the last type. *)
Definition add_member (b : btf) (h : heap) (sz : Z) (name : option (list Z)) (words : Z → list Z) (new_info : Z → Z)
    : option (Z * btf * heap) :=
  '(err, b, h) ← btf_ensure_modifiable b h;
  if negb (err =? 0) then Some (- ENOMEM, b, h) else
  r ← btf_add_type_mem b sz;
  match r with
  | None => Some (- ENOMEM, b, h)
  | Some (b, m) =>
      '(name_off, b, h) ← (if nonempty name then btf__add_str b h (default [] name) else Some (0, b, h));
      if name_off <? 0 then Some (name_off, b, h) else
      b ← put_words b m (words name_off);
      t ← btf_last_type b;
      info ← t_info t;
      b ← set_info b t (new_info info);
      Some (0, grow_types b sz, h)
  end.

(** The last type must be one of [kinds]. *)
Definition last_is (is_kind : type_ptr → option bool) (b : btf) : option bool :=
  if nr_types b =? 0 then Some false else t ← btf_last_type b; is_kind t.

Definition kflag_of (info : Z) : bool := negb (BTF_INFO_KFLAG info =? 0).

Definition btf__add_field (b : btf) (h : heap) (name : option (list Z)) (type_id bit_offset bit_size : Z)
    : option (Z * btf * heap) :=
  comp ← last_is btf_is_composite b;
  if negb comp then Some (- EINVAL, b, h) else
  if negb (validate_type_id type_id) then Some (- EINVAL, b, h) else
  let is_bitfield := negb (bit_size =? 0) || negb (bit_offset mod 8 =? 0) in
  if is_bitfield && ((bit_size =? 0) || (255 <? bit_size) || (0xffffff <? bit_offset)) then Some (- EINVAL, b, h) else
  union ← last_is btf_is_union b;
  if union && negb (bit_offset =? 0) then Some (- EINVAL, b, h) else
  add_member b h 12 name (λ name_off, [name_off; type_id; Z.lor bit_offset (Z.shiftl bit_size 24)])
    (λ info, btf_type_inc_vlen info (is_bitfield || kflag_of info)).

Definition btf__add_enum_value (b : btf) (h : heap) (name : option (list Z)) (value : Z) : option (Z * btf * heap) :=
  enum ← last_is btf_is_enum b;
  if negb enum then Some (- EINVAL, b, h) else
  if negb (nonempty name) then Some (- EINVAL, b, h) else
  if (value <? - 2 ^ 31) || (2 ^ 32 - 1 <? value) then Some (- E2BIG, b, h) else
  add_member b h 8 name (λ name_off, [name_off; value])
    (λ info, let info := btf_type_inc_vlen info (kflag_of info) in
       if value <? 0 then btf_type_info (BTF_INFO_KIND info) (BTF_INFO_VLEN info) 1 else info).

Definition btf__add_enum64_value (b : btf) (h : heap) (name : option (list Z)) (value : Z) : option (Z * btf * heap) :=
  enum ← last_is btf_is_enum64 b;
  if negb enum then Some (- EINVAL, b, h) else
  if negb (nonempty name) then Some (- EINVAL, b, h) else
  add_member b h 12 name (λ name_off, [name_off; u32 value; Z.shiftr value 32])
    (λ info, btf_type_inc_vlen info (kflag_of info)).

Definition btf__add_func_param (b : btf) (h : heap) (name : option (list Z)) (type_id : Z) : option (Z * btf * heap) :=
  if negb (validate_type_id type_id) then Some (- EINVAL, b, h) else
  proto ← last_is btf_is_func_proto b;
  if negb proto then Some (- EINVAL, b, h) else
  add_member b h 8 name (λ name_off, [name_off; type_id]) (λ info, btf_type_inc_vlen info (kflag_of info)).

Definition btf__add_datasec_var_info (b : btf) (h : heap) (var_type_id offset byte_sz : Z) : option (Z * btf * heap) :=
  sec ← last_is btf_is_datasec b;
  if negb sec then Some (- EINVAL, b, h) else
  if negb (validate_type_id var_type_id) then Some (- EINVAL, b, h) else
  add_member b h 12 None (λ _, [var_type_id; offset; byte_sz]) (λ info, btf_type_inc_vlen info (kflag_of info)).

(** ** Writing out *)

(** The bytes of the header in memory. *)
Definition hdr_mem (b : btf) : list Z := take (Z.to_nat (hdr_len (hdr b))) (hdr_bytes (hdr b) ++ hdr_rest b).

(** The loop over the types at [p]; the extra words are swapped while [info] is
    in native order. *)
Definition swap_out_body (offs : list Z) (p i : Z) (s : Z * list Z) : option (ctl (Z * list Z)) :=
  let '(_, data) := s in
  o ← aget offs i;
  '(err, data) ← btf_bswap_type_rest data (p + o);
  if negb (err =? 0) then Some (Break (err, data)) else
  data ← btf_bswap_type_base data (p + o);
  Some (Next (0, data)).

(** The data and its size, or NULL. *)
Definition btf_get_raw_data (b : btf) (swap_endian : bool) : option (option (list Z * Z)) :=
  let hd := hdr b in
  let cached := if swap_endian then raw_data_swapped b else
    match store b with Contiguous raw _ _ => Some raw | Separate _ _ _ raw => raw end in
  match cached with
  | Some data => Some (Some (data, raw_size b))
  | None =>
      let data_sz := u32 (hdr_len hd + type_len hd + str_len hd) in
      if negb (block data_sz) then Some None else
      data ← aset_list (replicate (Z.to_nat data_sz) 0) 0 (hdr_mem b);
      data ← (if swap_endian then hd' ← ld_hdr data; st_hdr data (btf_bswap_hdr hd') else Some data);
      let p := hdr_len hd in
      types ← aget_list (types_data b).1 (types_data b).2 (Z.to_nat (type_len hd));
      data ← aset_list data p types;
      '(err, data) ← (if swap_endian then for_loop 0 (nr_types b) (swap_out_body (type_offs b) p) (0, data) else Some (0, data));
      if negb (err =? 0) then Some None else
      let p := p + type_len hd in
      strs ← aget_list (btf_strs_data b).1 (btf_strs_data b).2 (Z.to_nat (str_len hd));
      data ← aset_list data p strs;
      Some (Some (data, data_sz))
  end.

Definition btf__raw_data (b : btf) : option (option (list Z) * btf) :=
  r ← btf_get_raw_data b (swapped_endian b);
  match r with
  | None => Some (None, b)
  | Some (data, data_sz) =>
      if swapped_endian b then Some (Some data, with_raw b data_sz (Some data)) else
      let b := match store b with
        | Contiguous _ t s => with_store b (Contiguous data t s)
        | Separate types cap set _ => with_store b (Separate types cap set (Some data))
        end in
      Some (Some data, with_raw b data_sz (raw_data_swapped b))
  end.

(** An object that is not loaded into the kernel has no descriptor to close.  The
    result is the heap without the entries of the string set, and the pointers
    given to [free] in their order. *)
Definition btf__free (b : btf) (h : heap) : option (heap * list btf_block) :=
  '(h, freed) ← (if btf_is_modifiable b then '(h, freed) ← strset__free (own_set b) h; Some (h, [HdrBlock; TypesBlock] ++ map OfSet freed)
                 else Some (h, []));
  Some (h, freed ++ [RawBlock; SwappedBlock; OffsBlock; BtfBlock]).
End build.
