(* ===== verification/BtfRecords.v ===== *)
(** * The records of a type section

    A type section is a sequence of records, each a sequence of 32-bit words.
    Swapping the byte order of a record, which the code does field by field,
    swaps the bytes of each word; the section determines the records. *)

From stdpp Require Import gmap.
From S2P Require Import Prelude Hashmap Strset Bytes Btf BtfBuild.

(** ** Words *)

Fixpoint swap_words (l : list Z) : list Z :=
  match l with a :: b :: c :: d :: l' => d :: c :: b :: a :: swap_words l' | _ => l end.

(** Induction over a list of [4 * n] bytes. *)
Lemma words_ind (P : list Z → Prop) :
  P [] → (∀ a b c d l, P l → P (a :: b :: c :: d :: l)) → ∀ n l, length l = (4 * n)%nat → P l.
Proof.
  intros H0 H4. induction n as [|n IH]; intros l Hl; [by destruct l|].
  destruct l as [|a [|b [|c [|d l]]]]; cbn in Hl; try lia. apply H4, IH. lia.
Qed.

Lemma swap_words_length l n : length l = (4 * n)%nat → length (swap_words l) = length l.
Proof. intros H. revert n l H. apply words_ind; [done|]. intros a b c d l IH. cbn. by rewrite IH. Qed.

Lemma swap_words_app l1 l2 n : length l1 = (4 * n)%nat → swap_words (l1 ++ l2) = swap_words l1 ++ swap_words l2.
Proof. intros H. revert n l1 H. apply words_ind; [done|]. intros a b c d l IH. cbn. by rewrite IH. Qed.

Lemma swap_words_involutive l n : length l = (4 * n)%nat → swap_words (swap_words l) = l.
Proof. intros H. revert n l H. apply words_ind; [done|]. intros a b c d l IH. cbn. by rewrite IH. Qed.

Lemma swap_words_ok l n : length l = (4 * n)%nat → bytes_ok l → bytes_ok (swap_words l).
Proof.
  intros H. revert n l H. refine (words_ind _ _ _); [done|]. intros a b c d l IH Hl. cbn. forall_inv.
  repeat (constructor; [done|]). by apply IH.
Qed.

Lemma bswap32_bytes a b c d :
  byte_ok a → byte_ok b → byte_ok c → byte_ok d →
  bswap32 (a + b * 2 ^ 8 + c * 2 ^ 16 + d * 2 ^ 24) = d + c * 2 ^ 8 + b * 2 ^ 16 + a * 2 ^ 24.
Proof.
  unfold byte_ok, bswap32. intros Ha Hb Hc Hd.
  set (x := a + b * 2 ^ 8 + c * 2 ^ 16 + d * 2 ^ 24).
  assert (∀ m n, 0 <= n → Z.land x (Z.shiftl m n) = Z.shiftl (Z.land (Z.shiftr x n) m) n) as Hs.
  { intros m n Hn. apply Z.bits_inj'. intros i Hi. rewrite Z.land_spec, !Z.shiftl_spec, Z.land_spec by lia.
    destruct (Z.ltb_spec i n).
    - rewrite (Z.testbit_neg_r m), (Z.testbit_neg_r (Z.shiftr x n)) by lia. by rewrite andb_false_r.
    - rewrite Z.shiftr_spec by lia. do 2 f_equal. lia. }
  assert (∀ n, 0 <= n → Z.land (Z.shiftr x n) 0xff = x / 2 ^ n mod 2 ^ 8) as Hm.
  { intros n Hn. rewrite Z.shiftr_div_pow2 by lia. change 0xff with (Z.ones 8). by rewrite Z.land_ones by lia. }
  change 0xff000000 with (Z.shiftl 0xff 24). change 0xff0000 with (Z.shiftl 0xff 16). change 0xff00 with (Z.shiftl 0xff 8).
  rewrite !Hs, !Hm by lia. pose proof (Hm 0 ltac:(lia)) as H0. rewrite Z.shiftr_0_r in H0. rewrite H0.
  assert (x / 2 ^ 24 mod 2 ^ 8 = d) as -> by (unfold x; nat_div).
  assert (x / 2 ^ 16 mod 2 ^ 8 = c) as -> by (unfold x; nat_div).
  assert (x / 2 ^ 8 mod 2 ^ 8 = b) as -> by (unfold x; nat_div).
  assert (x / 2 ^ 0 mod 2 ^ 8 = a) as -> by (unfold x; nat_div).
  rewrite Z.shiftr_shiftl_l, Z.shiftl_0_r, (Z.shiftr_shiftl_l c), Z.shiftl_shiftl by lia. cbn [Z.sub Z.add].
  change (16 - 8) with 8. change (8 + 8) with 16.
  rewrite (Z.lor_comm (Z.lor (Z.lor _ _) _)), (Z.lor_comm (Z.lor _ _) (Z.shiftl b 16)), (Z.lor_comm d).
  rewrite (lor_add_disjoint 8 c d) by lia.
  rewrite (lor_add_disjoint 16 b) by lia. rewrite (lor_add_disjoint 24 a) by lia. lia.
Qed.

(** [x = bswap_32(x)] for a word between two pieces of memory. *)
Lemma ld_le32_at pre a b c d post :
  ld_le32 (pre ++ [a; b; c; d] ++ post) (zlen pre) = Some (a + b * 2 ^ 8 + c * 2 ^ 16 + d * 2 ^ 24).
Proof.
  assert (∀ i, 0 <= i → aget (pre ++ [a; b; c; d] ++ post) (zlen pre + i) = aget ([a; b; c; d] ++ post) i) as H
    by (intros i Hi; rewrite aget_app_r by lia; f_equal; lia).
  unfold ld_le32. rewrite !H by lia. rewrite <- (Z.add_0_r (zlen pre)), H by lia. reflexivity.
Qed.

Lemma aset_at {A} (pre : list A) x y post : aset (pre ++ x :: post) (zlen pre) y = Some (pre ++ y :: post).
Proof.
  rewrite aset_eq by (rewrite length_app; cbn [length]; lia). by rewrite Nat2Z.id, insert_app_r_alt, Nat.sub_diag.
Qed.

Lemma st_le32_at pre w post v : length w = 4%nat → st_le32 (pre ++ w ++ post) (zlen pre) v = Some (pre ++ le32 v ++ post).
Proof.
  intros Hw. destruct w as [|a [|b [|c [|d [|]]]]]; try done. unfold st_le32. cbn [app]. rewrite aset_at.
  cbn [mbind option_bind]. change (pre ++ u8 v :: b :: c :: d :: post) with (pre ++ [u8 v] ++ b :: c :: d :: post).
  rewrite app_assoc. replace (zlen pre + 1) with (zlen (pre ++ [u8 v])) by (rewrite length_app; cbn [length]; lia).
  rewrite aset_at. cbn [mbind option_bind]. rewrite <- app_assoc. cbn [app].
  replace (zlen pre + 2) with (zlen (pre ++ [u8 v; u8 (Z.shiftr v 8)])) by (rewrite length_app; cbn [length]; lia).
  change (pre ++ u8 v :: u8 (Z.shiftr v 8) :: c :: d :: post) with (pre ++ [u8 v; u8 (Z.shiftr v 8)] ++ c :: d :: post).
  rewrite app_assoc, aset_at. cbn [mbind option_bind]. rewrite <- app_assoc. cbn [app].
  replace (zlen pre + 3) with (zlen (pre ++ [u8 v; u8 (Z.shiftr v 8); u8 (Z.shiftr v 16)])) by (rewrite length_app; cbn [length]; lia).
  change (pre ++ u8 v :: u8 (Z.shiftr v 8) :: u8 (Z.shiftr v 16) :: d :: post)
    with (pre ++ [u8 v; u8 (Z.shiftr v 8); u8 (Z.shiftr v 16)] ++ d :: post).
  by rewrite app_assoc, aset_at, <- app_assoc.
Qed.

Lemma le32_of_bytes a b c d :
  byte_ok a → byte_ok b → byte_ok c → byte_ok d → le32 (a + b * 2 ^ 8 + c * 2 ^ 16 + d * 2 ^ 24) = [a; b; c; d].
Proof.
  unfold byte_ok, le32, u8. intros. rewrite !Z.shiftr_div_pow2 by lia. repeat f_equal; nat_div.
Qed.

Lemma bswap_word_at pre w post :
  length w = 4%nat → bytes_ok w → bswap_word (pre ++ w ++ post) (zlen pre) = Some (pre ++ swap_words w ++ post).
Proof.
  intros Hw Hb. destruct w as [|a [|b [|c [|d [|]]]]]; try done. forall_inv. unfold bswap_word.
  rewrite ld_le32_at. cbn [mbind option_bind]. rewrite bswap32_bytes, (st_le32_at _ [a; b; c; d]) by done.
  by rewrite le32_of_bytes.
Qed.

(** A function that swaps the [n] words at a place of the memory. *)
Definition swaps (f : list Z → Z → option (list Z)) (n : nat) : Prop :=
  ∀ pre w post, length w = (4 * n)%nat → bytes_ok w → f (pre ++ w ++ post) (zlen pre) = Some (pre ++ swap_words w ++ post).

Lemma swaps_word : swaps bswap_word 1.
Proof. intros pre w post Hw Hb. by apply bswap_word_at. Qed.

Lemma swaps_seq f g n m :
  swaps f n → swaps g m → swaps (λ mem o, mem ← f mem o; g mem (o + 4 * Z.of_nat n)) (n + m).
Proof.
  intros Hf Hg pre w post Hw Hb. rewrite <- (take_drop (4 * n) w) in Hb |- *. apply Forall_app in Hb as [Hb1 Hb2].
  set (w1 := take (4 * n) w) in *. set (w2 := drop (4 * n) w) in *.
  assert (length w1 = (4 * n)%nat) as H1 by (unfold w1; rewrite length_take; lia).
  assert (length w2 = (4 * m)%nat) as H2 by (unfold w2; rewrite length_drop; lia).
  rewrite (swap_words_app _ _ n), <- !app_assoc, Hf by done. cbn [mbind option_bind].
  pose proof (swap_words_length _ _ H1) as Hl.
  replace (zlen pre + 4 * Z.of_nat n) with (zlen (pre ++ swap_words w1)) by (rewrite length_app; lia).
  rewrite app_assoc, Hg by done. by rewrite <- app_assoc.
Qed.

Lemma swaps_ext f g n : (∀ mem o, f mem o = g mem o) → swaps f n → swaps g n.
Proof. intros E H pre w post Hw Hb. rewrite <- E. by apply H. Qed.

Lemma swaps_two : swaps (λ mem o, mem ← bswap_word mem o; bswap_word mem (o + 4)) 2.
Proof. exact (swaps_seq _ _ 1 1 swaps_word swaps_word). Qed.

Lemma swaps_three : swaps (λ mem o, mem ← bswap_word mem o; mem ← bswap_word mem (o + 4); bswap_word mem (o + 8)) 3.
Proof.
  refine (swaps_ext _ _ _ _ (swaps_seq _ _ 1 2 swaps_word swaps_two)). intros mem o.
  destruct (bswap_word mem o) as [mem'|]; [|done]. cbn [mbind option_bind]. rewrite <- Z.add_assoc. done.
Qed.

(** The loops of [btf_bswap_type_rest]. *)
Lemma swaps_loop body (f : list Z → Z → option (list Z)) e k n :
  swaps f k → (∀ i mem, body i mem = mem ← f mem (e + 4 * Z.of_nat k * i); Some (Next mem)) →
  ∀ i pre w post, length w = (4 * (n * k))%nat → bytes_ok w → e + 4 * Z.of_nat k * i = zlen pre →
  for_up n i body (pre ++ w ++ post) = Some (pre ++ swap_words w ++ post).
Proof.
  intros Hf Hbody. induction n as [|n IH]; intros i pre w post Hw Hb Hi; [by destruct w|].
  rewrite <- (take_drop (4 * k) w) in Hb |- *. apply Forall_app in Hb as [Hb1 Hb2].
  set (w1 := take (4 * k) w) in *. set (w2 := drop (4 * k) w) in *.
  assert (length w1 = (4 * k)%nat) as H1 by (unfold w1; rewrite length_take; lia).
  cbn [for_up]. rewrite Hbody, Hi, <- !app_assoc, Hf by done. cbn [mbind option_bind].
  rewrite (swap_words_app w1 w2 k), <- app_assoc, app_assoc by done. rewrite IH; [by rewrite <- app_assoc| |done|].
  - unfold w2. rewrite length_drop. lia.
  - rewrite length_app, (swap_words_length _ _ H1). lia.
Qed.

Lemma swaps_for body f e k n pre w post :
  swaps f k → (∀ i mem, body i mem = mem ← f mem (e + 4 * Z.of_nat k * i); Some (Next mem)) →
  zlen w = 4 * Z.of_nat k * n → bytes_ok w → e = zlen pre → 0 <= n →
  for_loop 0 n body (pre ++ w ++ post) = Some (pre ++ swap_words w ++ post).
Proof.
  intros Hf Hbody Hw Hb He Hn. unfold for_loop.
  refine (swaps_loop body f e k (Z.to_nat (n - 0)) Hf Hbody 0 pre w post _ Hb _); nia.
Qed.

(** ** Reading a record *)

Definition rec_size (info : Z) : Z :=
  let vlen := BTF_INFO_VLEN info in
  match kind_of_num (BTF_INFO_KIND info) with
  | FWD | CONST | VOLATILE | RESTRICT | PTR | TYPEDEF | FUNC | FLOAT | TYPE_TAG => 12
  | INT | VAR | DECL_TAG => 16
  | ARRAY => 24
  | ENUM | FUNC_PROTO => 12 + vlen * 8
  | ENUM64 | STRUCT | UNION | DATASEC => 12 + vlen * 12
  | UNKN | OTHER _ => - EINVAL
  end.

Lemma btf_type_size_eq t : btf_type_size t = info ← t_info t; Some (rec_size info).
Proof.
  unfold btf_type_size, btf_vlen, btf_kind, rec_size. destruct (t_info t) as [info|]; [|done]. cbn [mbind option_bind].
  by destruct (kind_of_num _).
Qed.

Lemma vlen_range info : 0 <= info → 0 <= BTF_INFO_VLEN info < 2 ^ 16.
Proof. intros H. unfold BTF_INFO_VLEN. change 0xffff with (Z.ones 16). rewrite Z.land_ones by lia. by apply Z.mod_pos_bound. Qed.

Lemma rec_size_range info : 0 <= info → rec_size info = - EINVAL ∨ 12 <= rec_size info < 2 ^ 20 ∧ rec_size info mod 4 = 0.
Proof.
  intros H. pose proof (vlen_range info H). unfold rec_size. destruct (kind_of_num _); (by left) || right; split; lia || nat_div.
Qed.

(** The words of a record in the middle of the memory. *)
Lemma t_word_at pre r post i : 0 <= i → 4 * i + 4 <= zlen r → t_word (TypeAt (pre ++ r ++ post) (zlen pre)) i = t_word (TypeAt r 0) i.
Proof.
  intros Hi Hr. cbn [t_word]. rewrite Z.add_0_l. symmetry.
  assert (∀ j, 0 <= j < zlen r → aget (pre ++ r ++ post) (zlen pre + j) = aget r j) as H.
  { intros j Hj. rewrite aget_app_r by lia. replace (zlen pre + j - zlen pre) with j by lia. apply aget_app_l. lia. }
  unfold ld_le32. rewrite <- !Z.add_assoc, !H by lia. done.
Qed.

Lemma t_info_total mem o : bytes_ok mem → 0 <= o → o + 12 <= zlen mem → ∃ info, t_info (TypeAt mem o) = Some info ∧ 0 <= info < 2 ^ 32.
Proof. intros Hb H0 H1. unfold t_info. cbn [t_word]. apply ld_le32_total; [done|lia..]. Qed.

Lemma btf_bswap_type_base_at pre w post :
  length w = 12%nat → bytes_ok w → btf_bswap_type_base (pre ++ w ++ post) (zlen pre) = Some (pre ++ swap_words w ++ post).
Proof. intros Hw Hb. by apply swaps_three. Qed.

(** The words behind the first three. *)
Lemma btf_bswap_type_rest_at pre hd tl post info :
  length hd = 12%nat → bytes_ok tl → t_info (TypeAt hd 0) = Some info → 0 <= info → rec_size info = 12 + zlen tl →
  btf_bswap_type_rest (pre ++ hd ++ tl ++ post) (zlen pre) = Some (0, pre ++ hd ++ swap_words tl ++ post).
Proof.
  intros Hh Hb Hi H0 Hsz. pose proof (vlen_range info H0) as Hv. unfold btf_bswap_type_rest, btf_vlen, btf_kind.
  assert (t_info (TypeAt (pre ++ hd ++ tl ++ post) (zlen pre)) = Some info) as ->.
  { unfold t_info in *. rewrite t_word_at; [done|lia..]. }
  cbn [mbind option_bind]. unfold rec_size in Hsz.
  replace (zlen pre + 12) with (zlen (pre ++ hd)) by (rewrite length_app; lia).
  rewrite !(app_assoc pre hd). set (p := pre ++ hd) in *.
  assert (∀ n, zlen tl = 8 * n → 0 <= n → for_loop 0 n (bswap_pair_body (zlen p)) (p ++ tl ++ post) = Some (p ++ swap_words tl ++ post)) as H2.
  { intros n Hn H0n. apply (swaps_for _ _ (zlen p) 2 _ _ _ _ swaps_two); try done; try lia. intros i mem. unfold bswap_pair_body.
    change (4 * Z.of_nat 2) with 8. by destruct (bswap_word mem _). }
  assert (∀ n, zlen tl = 12 * n → 0 <= n → for_loop 0 n (bswap_triple_body (zlen p)) (p ++ tl ++ post) = Some (p ++ swap_words tl ++ post)) as H3.
  { intros n Hn H0n. apply (swaps_for _ _ (zlen p) 3 _ _ _ _ swaps_three); try done; try lia. intros i mem. unfold bswap_triple_body.
    change (4 * Z.of_nat 3) with 12. destruct (bswap_word mem _); [|done]. cbn [mbind option_bind]. by destruct (bswap_word _ _). }
  assert (zlen tl = 4 → bswap_word (p ++ tl ++ post) (zlen p) = Some (p ++ swap_words tl ++ post)) as H1.
  { intros Hl. apply bswap_word_at; [lia|done]. }
  destruct (kind_of_num (BTF_INFO_KIND info));
    try (rewrite H1 by lia; done); try (rewrite H2 by lia; done); try (rewrite H3 by lia; done);
    try (unfold EINVAL in Hsz; lia); try (assert (tl = []) as -> by (apply nil_length_inv; lia); done).
  pose proof (swaps_three p tl post ltac:(lia) Hb) as H. cbn beta in H.
  destruct (bswap_word (p ++ tl ++ post) (zlen p)) as [m1|]; [|done]. cbn [mbind option_bind] in H |- *.
  destruct (bswap_word m1 (zlen p + 4)) as [m2|]; [|done]. cbn [mbind option_bind] in H |- *. by rewrite H.
Qed.
