(* ===== verification/BtfCorrect.v ===== *)
(** * Correctness of the BTF parser

    Whatever bytes it is given, the parser accesses nothing outside of them, and
    in an object that it accepts each type identifier stands for a record that
    lies inside of the type section. *)

From stdpp Require Import gmap.
From S2P Require Import Prelude Hashmap Strset StrsetCorrect Bytes Btf BtfBuild BtfRecords.

(** ** Records and their offsets *)

Definition rec_ok (r : list Z) : Prop := bytes_ok r ∧ ∃ info, t_info (TypeAt r 0) = Some info ∧ rec_size info = zlen r.

Lemma info_range r info : bytes_ok r → t_info (TypeAt r 0) = Some info → 0 <= info < 2 ^ 32.
Proof.
  intros Hb Hi. unfold t_info in Hi. cbn [t_word] in Hi. destruct (aget r (0 + 4 * 1 + 3)) eqn:E.
  - apply aget_range in E. destruct (ld_le32_total r (0 + 4 * 1)) as (x & Hx & Hr); [done|lia..|]. by simplify_eq.
  - exfalso. unfold ld_le32 in Hi. rewrite E in Hi. repeat (destruct (aget r _); try done).
Qed.

Lemma rec_ok_length r : rec_ok r → 12 <= zlen r < 2 ^ 20 ∧ zlen r mod 4 = 0.
Proof.
  intros (Hb & info & Hi & Hs). pose proof (info_range _ _ Hb Hi) as Hr.
  destruct (rec_size_range info) as [E|[E1 E2]]; [lia|unfold EINVAL in *; lia|rewrite <- Hs; lia].
Qed.

Lemma rec_ok_words r : rec_ok r → ∃ n, length r = (4 * n)%nat.
Proof. intros [_ H]%rec_ok_length. exists (Z.to_nat (zlen r / 4)). nat_div. Qed.

(** The records at the start of two equal sections are the same. *)
Lemma rec_ok_prefix r1 r2 l1 l2 : rec_ok r1 → rec_ok r2 → r1 ++ l1 = r2 ++ l2 → r1 = r2 ∧ l1 = l2.
Proof.
  intros H1 H2 E. pose proof (rec_ok_length _ H1). pose proof (rec_ok_length _ H2).
  destruct H1 as (_ & i1 & Hi1 & Hs1), H2 as (_ & i2 & Hi2 & Hs2). apply app_inj_1; [|done].
  unfold t_info in Hi1, Hi2. rewrite <- (t_word_at [] r1 l1) in Hi1 by lia. rewrite <- (t_word_at [] r2 l2) in Hi2 by lia.
  cbn [app] in Hi1, Hi2. rewrite E in Hi1. assert (i1 = i2) as -> by (cbn in Hi1, Hi2; congruence). lia.
Qed.

Fixpoint offsets (o : Z) (recs : list (list Z)) : list Z :=
  match recs with [] => [] | r :: recs => o :: offsets (o + zlen r) recs end.

Lemma offsets_app o l1 l2 : offsets o (l1 ++ l2) = offsets o l1 ++ offsets (o + zlen (concat l1)) l2.
Proof.
  revert o. induction l1 as [|r l1 IH]; intros o; cbn; [by rewrite Z.add_0_r|]. rewrite IH, length_app. do 3 f_equal. lia.
Qed.

Lemma offsets_length o l : length (offsets o l) = length l.
Proof. revert o. induction l as [|r l IH]; intros o; [done|]. cbn. by rewrite IH. Qed.

Lemma offsets_lookup l i r o : l !! i = Some r → offsets o l !! i = Some (o + zlen (concat (take i l))).
Proof.
  revert i o. induction l as [|x l IH]; intros [|i] o H; try done; cbn in *; [f_equal; lia|].
  rewrite (IH i _ H), length_app. f_equal. lia.
Qed.

Lemma concat_app_single {A} (l : list (list A)) x : concat (l ++ [x]) = concat l ++ x.
Proof. by rewrite concat_app; cbn; rewrite app_nil_r. Qed.

(** A section of [n] bytes has at most [n / 12] records. *)
Lemma records_count recs : Forall rec_ok recs → 12 * zlen recs <= zlen (concat recs).
Proof.
  induction 1 as [|r recs Hr _ IH]; cbn; [lia|]. apply rec_ok_length in Hr. rewrite length_app. lia.
Qed.

Lemma records_ok recs : Forall rec_ok recs → bytes_ok (concat recs).
Proof. induction 1 as [|r recs [Hr _] _ IH]; cbn; [done|]. by apply Forall_app. Qed.

(** The index: the offsets of the records, in an array with spare room. *)
Record index_of (offs : list Z) (cap : Z) (recs : list (list Z)) : Prop := {
  io_cap : zlen offs = cap;
  io_offs : take (length recs) offs = offsets 0 recs;
  io_room : zlen recs <= cap <= BTF_MAX_NR_TYPES;
}.

Lemma index_lookup offs cap recs i r :
  index_of offs cap recs → recs !! i = Some r → aget offs (Z.of_nat i) = Some (zlen (concat (take i recs))).
Proof.
  intros [_ Ho _] Hr. rewrite aget_nat. pose proof (lookup_lt_Some _ _ _ Hr) as Hlt.
  rewrite <- (lookup_take_lt _ (length recs)) by done. rewrite Ho. by rewrite (offsets_lookup recs i r 0 Hr).
Qed.

(** ** The loop over the types *)

Section parse.
Variable realloc : Z → bool.

Lemma add_type_idx_ok b recs :
  index_of (type_offs b) (type_offs_cap b) recs → nr_types b = zlen recs →
  btf_add_type_idx_entry realloc b (zlen (concat recs)) = Some (- ENOMEM, b)
    ∧ (zlen recs = BTF_MAX_NR_TYPES ∨ ∃ n, n < 2 ^ 34 ∧ realloc n = false)
  ∨ ∃ offs cap, btf_add_type_idx_entry realloc b (zlen (concat recs)) = Some (0, with_offs b offs cap)
    ∧ ∀ r, index_of offs cap (recs ++ [r]).
Proof.
  intros [Hc Ho Hr] Hn. unfold btf_add_type_idx_entry, btf_add_type_offs_mem. rewrite Hn.
  pose proof (libbpf_add_mem_spec realloc (type_offs b) (type_offs_cap b) 4 (zlen recs) BTF_MAX_NR_TYPES 1 Hc) as H.
  specialize (H ltac:(lia) ltac:(lia) ltac:(unfold BTF_MAX_NR_TYPES; lia) ltac:(unfold BTF_MAX_NR_TYPES; lia)).
  destruct (libbpf_add_mem _ _ _ _ _ _ _) as [[[offs cap] p]|].
  - destruct H as (-> & k & -> & Hcap & Hlo & Hhi). right. cbn [type_offs with_offs type_offs_cap].
    rewrite aset_eq by lia. cbn [mbind option_bind]. eexists _, cap. split; [done|]. intros r.
    split; [by rewrite length_insert|..|rewrite length_app; cbn [length]; lia].
    rewrite Nat2Z.id, length_app, Nat.add_1_r. cbn [length].
    erewrite take_S_r by (apply list_lookup_insert_eq; lia). rewrite take_insert_ge by lia.
    rewrite take_app_le by lia. rewrite Ho, offsets_app. done.
  - left. split; [done|]. destruct H as [H|(n & Hn' & Hf)]; [left; lia|right; exists n; split; [unfold BTF_MAX_NR_TYPES in *; lia|done]].
Qed.

(** The object while its types are read: [b0] with other memory and index. *)
Definition progress (b0 : btf) (mem offs : list Z) (cap nr : Z) : btf := with_nr (with_offs (set_types_mem b0 mem) offs cap) nr.

Lemma progress_mem b0 mem offs cap nr mem' : set_types_mem (progress b0 mem offs cap nr) mem' = progress b0 mem' offs cap nr.
Proof. destruct b0 as [?? []]; done. Qed.

Lemma progress_data b0 mem offs cap nr : types_data (progress b0 mem offs cap nr) = (mem, (types_data b0).2).
Proof. destruct b0 as [?? []]; done. Qed.

(** The native form of words that were read. *)
Definition dec (sw : bool) (w : list Z) : list Z := if sw then swap_words w else w.

Lemma dec_length sw w n : length w = (4 * n)%nat → length (dec sw w) = length w.
Proof. destruct sw; [apply swap_words_length|done]. Qed.

Lemma dec_ok sw w n : length w = (4 * n)%nat → bytes_ok w → bytes_ok (dec sw w).
Proof. destruct sw; [apply swap_words_ok|done]. Qed.

Lemma dec_dec sw w n : length w = (4 * n)%nat → dec sw (dec sw w) = w.
Proof. destruct sw; [apply swap_words_involutive|done]. Qed.

Lemma dec_app sw w1 w2 n : length w1 = (4 * n)%nat → dec sw (w1 ++ w2) = dec sw w1 ++ dec sw w2.
Proof. destruct sw; [apply swap_words_app|done]. Qed.

(** One turn of the loop at the [12] bytes [hd]. *)
Lemma type_sec_body_eq b0 A hd rest post offs cap nr next :
  length hd = 12%nat → bytes_ok hd → bytes_ok rest → (types_data b0).2 + next = zlen A →
  ∃ info, t_info (TypeAt (dec (swapped_endian b0) hd) 0) = Some info ∧ 0 <= info
    ∧ type_sec_body realloc (next + 12 + zlen rest) (progress b0 (A ++ hd ++ rest ++ post) offs cap nr, next, None)
      = let hd' := dec (swapped_endian b0) hd in
        if rec_size info <? 0 then Some (Break (progress b0 (A ++ hd' ++ rest ++ post) offs cap nr, next, Some (rec_size info))) else
        if zlen rest <? rec_size info - 12 then Some (Break (progress b0 (A ++ hd' ++ rest ++ post) offs cap nr, next, Some (- EINVAL))) else
        let tl := take (Z.to_nat (rec_size info - 12)) rest in
        let b := progress b0 (A ++ hd' ++ dec (swapped_endian b0) tl ++ drop (Z.to_nat (rec_size info - 12)) rest ++ post) offs cap nr in
        '(err, b) ← btf_add_type_idx_entry realloc b next;
        if negb (err =? 0) then Some (Break (b, next, Some err)) else
        Some (Next (with_nr b (u32 (nr_types b + 1)), next + rec_size info, None)).
Proof.
  intros Hl Hb Hbr Hn. set (sw := swapped_endian b0). set (hd' := dec sw hd).
  assert (length hd' = 12%nat) as Hl' by (unfold hd'; by rewrite (dec_length _ _ 3)).
  assert (bytes_ok hd') as Hb' by (by apply (dec_ok _ _ 3)).
  destruct (t_info_total hd' 0 Hb' ltac:(lia) ltac:(lia)) as (info & Hi & Hr). exists info. split; [done|]. split; [lia|].
  cbv zeta. unfold type_sec_body. destruct (Z.ltb_spec (next + 12 + zlen rest) (next + 12)); [lia|].
  rewrite progress_data, Hn.
  assert ((if swapped_endian (progress b0 (A ++ hd ++ rest ++ post) offs cap nr)
           then btf_bswap_type_base (A ++ hd ++ rest ++ post) (zlen A) else Some (A ++ hd ++ rest ++ post))
          = Some (A ++ hd' ++ rest ++ post)) as ->.
  { change (swapped_endian (progress _ _ _ _ _)) with sw. unfold hd', dec. destruct sw; [by apply btf_bswap_type_base_at|done]. }
  cbn [mbind option_bind]. rewrite progress_mem, btf_type_size_eq.
  assert (t_info (TypeAt (A ++ hd' ++ rest ++ post) (zlen A)) = Some info) as Hinfo.
  { unfold t_info in *. rewrite t_word_at; [done|lia..]. }
  rewrite Hinfo. cbn [mbind option_bind]. destruct (Z.ltb_spec (rec_size info) 0); [done|].
  destruct (rec_size_range info) as [E|[Hs _]]; [lia|unfold EINVAL in E; lia|].
  destruct (Z.ltb_spec (zlen rest) (rec_size info - 12)).
  { destruct (Z.ltb_spec (next + 12 + zlen rest) (next + rec_size info)); [done|lia]. }
  destruct (Z.ltb_spec (next + 12 + zlen rest) (next + rec_size info)); [lia|].
  set (tl := take (Z.to_nat (rec_size info - 12)) rest). set (rest' := drop (Z.to_nat (rec_size info - 12)) rest).
  assert (rest = tl ++ rest') as Er by (symmetry; apply take_drop).
  assert (zlen tl = rec_size info - 12) as Hlt by (unfold tl; rewrite length_take; lia).
  assert (bytes_ok tl) as Hbt by (by apply Forall_take).
  assert ((if swapped_endian (progress b0 (A ++ hd' ++ rest ++ post) offs cap nr)
           then btf_bswap_type_rest (A ++ hd' ++ rest ++ post) (zlen A) else Some (0, A ++ hd' ++ rest ++ post))
          = Some (0, A ++ hd' ++ dec sw tl ++ rest' ++ post)) as ->.
  { change (swapped_endian (progress _ _ _ _ _)) with sw. rewrite Er, <- !(app_assoc tl). unfold dec. destruct sw; [|done].
    apply (btf_bswap_type_rest_at _ _ _ _ info); [done|done|done|lia|lia]. }
  cbn [mbind option_bind]. rewrite progress_mem. done.
Qed.

(** The object in which the records [recs] were read, before the bytes [todo]. *)
Definition reading (b0 : btf) (pre post : list Z) (recs : list (list Z)) (todo : list Z) (s : btf * Z * option Z) : Prop :=
  ∃ offs cap, s = (progress b0 (pre ++ concat recs ++ todo ++ post) offs cap (zlen recs), zlen (concat recs), None)
    ∧ index_of offs cap recs ∧ Forall rec_ok recs ∧ bytes_ok todo.

(** A turn fails, or it reads one more record. *)
Lemma type_sec_step b0 pre post recs todo s end_type :
  reading b0 pre post recs todo s → (types_data b0).2 = zlen pre → end_type = zlen (concat recs) + zlen todo → end_type < 2 ^ 32 →
  12 <= zlen todo →
  ∃ c, type_sec_body realloc end_type s = Some c
    ∧ ∃ info, t_info (TypeAt (dec (swapped_endian b0) (take 12 todo)) 0) = Some info ∧
    match c with
    | Break (_, _, Some err) =>
        err = - EINVAL ∧ (rec_size info < 0 ∨ zlen todo < rec_size info)
        ∨ err = - ENOMEM ∧ (zlen recs = BTF_MAX_NR_TYPES ∨ ∃ n, realloc n = false)
    | Break (_, _, None) => False
    | Next s' => ∃ r todo', rec_ok r ∧ todo = dec (swapped_endian b0) r ++ todo' ∧ reading b0 pre post (recs ++ [r]) todo' s'
    end.
Proof.
  intros (offs & cap & -> & Hidx & Hrecs & Hb) Ht -> He Hl.
  set (sw := swapped_endian b0). set (hd := take 12 todo). set (rest := drop 12 todo).
  assert (todo = hd ++ rest) as Et by (symmetry; apply take_drop).
  assert (length hd = 12%nat) as Hlh by (unfold hd; rewrite length_take; lia).
  assert (bytes_ok hd ∧ bytes_ok rest) as [Hbh Hbr] by (rewrite Et in Hb; by apply Forall_app in Hb).
  destruct (type_sec_body_eq b0 (pre ++ concat recs) hd rest post offs cap (zlen recs) (zlen (concat recs)) Hlh Hbh Hbr)
    as (info & Hi & H0 & E); [rewrite length_app; lia|].
  rewrite Et, <- !app_assoc in *. fold sw in E, Hi. rewrite !length_app in *.
  replace (zlen (concat recs) + Z.of_nat (length hd + length rest)) with (zlen (concat recs) + 12 + zlen rest) by lia.
  rewrite E. clear E. cbv zeta. pose proof (rec_size_range info H0) as Hsz.
  destruct (Z.ltb_spec (rec_size info) 0).
  { eexists. split; [done|]. exists info. split; [done|]. left. destruct Hsz as [Es|]; [|lia]. split; [exact Es|left; lia]. }
  destruct Hsz as [Hsz|[Hsz Hm4]]; [unfold EINVAL in Hsz; lia|].
  destruct (Z.ltb_spec (zlen rest) (rec_size info - 12)).
  { eexists. split; [done|]. exists info. split; [done|]. left. split; [done|right]. lia. }
  set (tl := take (Z.to_nat (rec_size info - 12)) rest). set (rest' := drop (Z.to_nat (rec_size info - 12)) rest).
  assert (rest = tl ++ rest') as Er by (symmetry; apply take_drop).
  set (b := progress _ _ _ _ _).
  destruct (add_type_idx_ok b recs Hidx eq_refl) as [[-> Hf]|(offs' & cap' & -> & Hidx')]; cbn [mbind option_bind].
  { eexists. split; [done|]. exists info. split; [done|]. right. split; [done|]. destruct Hf as [?|(n & _ & ?)]; [by left|right; by exists n]. }
  eexists. split; [done|]. exists info. split; [done|].
  (* the record in native order *)
  assert (zlen tl = rec_size info - 12) as Hlt by (unfold tl; rewrite length_take; lia).
  assert (∃ n, length tl = (4 * n)%nat) as [n Hn] by (exists (Z.to_nat (zlen tl / 4)); nat_div).
  exists (dec sw (hd ++ tl)), rest'. rewrite Er, (dec_app _ _ _ 3) by done.
  assert (length (dec sw hd) = 12%nat) as Hlh' by (by rewrite (dec_length _ _ 3)).
  assert (length (dec sw tl) = length tl) as Hlt' by (by rewrite (dec_length _ _ n)).
  assert (rec_ok (dec sw hd ++ dec sw tl)) as Hr.
  { split; [apply Forall_app; split; [by apply (dec_ok _ _ 3)|]|].
    { apply (dec_ok _ _ n); [done|by apply Forall_take]. }
    exists info. unfold t_info in *. pose proof (t_word_at [] (dec sw hd) (dec sw tl) 1 ltac:(lia) ltac:(lia)) as Hw. cbn [app] in Hw.
    change (zlen []) with 0 in Hw. rewrite Hw, Hi, length_app. split; [done|lia]. }
  split; [done|]. split.
  { rewrite (dec_app _ _ _ 3), (dec_dec _ _ 3), (dec_dec _ _ n) by done. by rewrite app_assoc. }
  exists offs', cap'. split_and!; [|by apply Hidx'|apply Forall_app; split; [done|by constructor]|by apply Forall_drop].
  unfold b. rewrite concat_app_single, !length_app, <- !app_assoc. cbn [length]. rewrite u32_small.
  - f_equal. f_equal; [|lia]. destruct b0 as [?? []]; unfold progress; cbn; f_equal; lia.
  - destruct (Hidx' []) as [_ _ Hroom]. rewrite length_app in Hroom. cbn [length] in Hroom.
    change (nr_types (with_offs _ _ _)) with (zlen recs). unfold word_ok, BTF_MAX_NR_TYPES in *. lia.
Qed.

(** ** The type section *)

(** The bytes of a section that holds the records. *)
Definition decodes (sw : bool) (sec : list Z) (recs : list (list Z)) : Prop := Forall rec_ok recs ∧ sec = dec sw (concat recs).

Lemma concat_words recs : Forall rec_ok recs → ∃ n, length (concat recs) = (4 * n)%nat.
Proof.
  induction 1 as [|r recs Hr _ [n IH]]; [by exists O|]. destruct (rec_ok_words r Hr) as [m Hm].
  exists (m + n)%nat. cbn. rewrite length_app. lia.
Qed.

Lemma records_prefix l1 : ∀ l2 v, Forall rec_ok l1 → Forall rec_ok l2 → concat l1 ++ v = concat l2 → ∃ l3, l2 = l1 ++ l3 ∧ v = concat l3.
Proof.
  induction l1 as [|r l1 IH]; intros l2 v H1 H2 E; [by exists l2|]. destruct l2 as [|r2 l2].
  { apply Forall_cons_iff in H1 as [Hr _]. apply rec_ok_length in Hr. apply (f_equal length) in E. cbn in E. rewrite !length_app in E. lia. }
  apply Forall_cons_iff in H1 as [Hr H1]. apply Forall_cons_iff in H2 as [Hr2 H2]. cbn in E. rewrite <- app_assoc in E.
  destruct (rec_ok_prefix _ _ _ _ Hr Hr2 E) as [-> E']. destruct (IH l2 v H1 H2 E') as (l3 & -> & ->). by exists l3.
Qed.

(** What is left of a section behind some of its records. *)
Lemma decodes_rest sw recs todo all :
  Forall rec_ok recs → decodes sw (dec sw (concat recs) ++ todo) all → ∃ l3, all = recs ++ l3 ∧ decodes sw todo l3.
Proof.
  intros Hrecs [Hall E]. destruct (concat_words recs Hrecs) as [n Hn]. destruct (concat_words all Hall) as [m Hm].
  pose proof (f_equal length E) as El. rewrite length_app, (dec_length _ _ n), (dec_length _ _ m) in El by done.
  rewrite <- (take_drop (length (concat recs)) (concat all)) in E.
  assert (length (take (length (concat recs)) (concat all)) = (4 * n)%nat) as Ht by (rewrite length_take; lia).
  rewrite (dec_app _ _ _ n Ht) in E. apply app_inj_1 in E as [E1 E2]; [|rewrite !(dec_length _ _ n); lia].
  apply (f_equal (dec sw)) in E1. rewrite !(dec_dec _ _ n) in E1 by done.
  destruct (records_prefix recs all (drop (length (concat recs)) (concat all)) Hrecs Hall) as (l3 & -> & Hv).
  { rewrite E1 at 1. apply take_drop. }
  exists l3. split; [done|]. split; [by apply Forall_app in Hall as [_ ?]|]. by rewrite E2, Hv.
Qed.

(** A section that is not empty starts with a record that fits. *)
Lemma decodes_first sw todo all info :
  decodes sw todo all → todo ≠ [] → t_info (TypeAt (dec sw (take 12 todo)) 0) = Some info → 12 <= rec_size info <= zlen todo.
Proof.
  intros [Hall E] Hne Hi. destruct all as [|r all]; [by destruct sw|]. apply Forall_cons_iff in Hall as [Hr _].
  pose proof (rec_ok_length r Hr) as Hl. destruct (rec_ok_words r Hr) as [n Hn]. destruct Hr as (Hb & info' & Hi' & Hs).
  cbn in E. rewrite (dec_app _ _ _ n Hn) in E. pose proof (dec_length sw r n Hn) as Hd.
  assert (info = info') as ->; [|rewrite Hs; rewrite E, length_app; lia].
  assert (take 12 todo = dec sw (take 12 r)) as Et.
  { rewrite E, take_app_le by lia. rewrite <- (take_drop 12 r) at 1.
    rewrite (dec_app _ _ _ 3) by (rewrite length_take; lia). rewrite take_app_length'; [done|].
    rewrite (dec_length _ _ 3); rewrite length_take; lia. }
  rewrite Et, (dec_dec _ _ 3) in Hi by (rewrite length_take; lia).
  unfold t_info in *. rewrite <- (t_word_at [] (take 12 r) (drop 12 r)) in Hi by (rewrite ?length_take; lia).
  cbn [app] in Hi. rewrite take_drop in Hi. change (Z.of_nat (length (@nil Z))) with 0 in Hi. congruence.
Qed.

(** What the parser makes of a section. *)
Lemma btf_parse_type_sec_ok b0 pre sec post :
  types_data b0 = (pre ++ sec ++ post, zlen pre) → type_offs b0 = [] → type_offs_cap b0 = 0 → nr_types b0 = 0 →
  type_len (hdr b0) = zlen sec → zlen sec < 2 ^ 32 → bytes_ok sec →
  ∃ ret b, btf_parse_type_sec realloc b0 = Some (ret, b) ∧
    (ret = 0 ∧ (∃ recs offs cap, decodes (swapped_endian b0) sec recs ∧ index_of offs cap recs
                  ∧ b = progress b0 (pre ++ concat recs ++ post) offs cap (zlen recs))
     ∨ ret = - EINVAL ∧ (∀ recs, ¬ decodes (swapped_endian b0) sec recs)
     ∨ ret = - ENOMEM ∧ ∃ n, realloc n = false).
Proof.
  intros Ht Ho Hc Hn Hl Hlen Hb. unfold btf_parse_type_sec. rewrite Hl. set (sw := swapped_endian b0).
  set (I := λ s, ∃ recs todo, sec = dec sw (concat recs) ++ todo ∧ reading b0 pre post recs todo s).
  set (Q := λ s : btf * Z * option Z, match s.2 with
    | None => ∃ recs todo, sec = dec sw (concat recs) ++ todo ∧ reading b0 pre post recs todo s ∧ zlen todo < 12
    | Some ret => ret = - EINVAL ∧ (∀ recs, ¬ decodes sw sec recs) ∨ ret = - ENOMEM ∧ ∃ n, realloc n = false end).
  destruct (while_loop_inv I Q (λ s, Z.to_nat ((zlen sec - s.1.2) / 12)) (type_sec_body realloc (zlen sec))
    (S (Z.to_nat (zlen sec / 12))) (b0, 0, None)) as (s & -> & HQ).
  - intros s (recs & todo & Es & Hs). pose proof Hs as (offs & cap & -> & Hidx & Hrecs & Hbt).
    destruct (concat_words recs Hrecs) as [n Hw].
    assert (zlen sec = zlen (concat recs) + zlen todo) as El by (rewrite Es, length_app, (dec_length _ _ n); lia).
    destruct (Z.ltb_spec (zlen todo) 12) as [Hshort|Hlong].
    { eexists. split; [unfold type_sec_body; destruct (Z.ltb_spec (zlen sec) (zlen (concat recs) + 12)); [done|lia]|].
      unfold Q. cbn [snd]. by exists recs, todo. }
    destruct (type_sec_step b0 pre post recs todo _ (zlen sec) Hs ltac:(by rewrite Ht) El Hlen Hlong) as (c & -> & info & Hi & Hc').
    exists c. split; [done|]. fold sw in Hi, Hc'. destruct c as [s'|[[b next] [err|]]]; [| |done].
    + destruct Hc' as (r & todo' & Hr & -> & Hs'). destruct (rec_ok_words r Hr) as [m Hm]. split.
      * exists (recs ++ [r]), todo'. split; [|done]. rewrite Es, concat_app_single, (dec_app _ _ _ n) by done. by rewrite app_assoc.
      * destruct Hs' as (offs' & cap' & -> & _). cbn [fst snd]. rewrite concat_app_single, length_app.
        rewrite length_app, (dec_length _ _ m) in El, Hlong by done. pose proof (rec_ok_length r Hr). nat_div.
    + unfold Q. cbn [snd]. destruct Hc' as [[-> Hbad]|[-> Hm]]; [left|right]; (split; [done|]).
      * intros all Hall. rewrite Es in Hall. destruct (decodes_rest sw recs todo all Hrecs Hall) as (l3 & -> & H3).
        pose proof (decodes_first sw todo l3 info H3 ltac:(intros ->; cbn in Hlong; lia) Hi). lia.
      * destruct Hm as [Hm|?]; [|done]. pose proof (records_count recs Hrecs). unfold BTF_MAX_NR_TYPES in Hm. lia.
  - exists [], sec. split; [by destruct sw|]. exists [], 0. split_and!; [|by split|done|done].
    cbn [concat app length]. f_equal. f_equal. destruct b0 as [? ? st]; cbn in *. subst. destruct st; cbn in Ht; by simplify_eq.
  - cbn [fst snd]. rewrite Z.sub_0_r. lia.
  - destruct s as [[b next] [ret|]]; unfold Q in HQ; cbn [snd] in HQ.
    + cbn [mbind option_bind]. exists ret, b. split; [done|]. by right.
    + destruct HQ as (recs & todo & Es & (offs & cap & [= -> ->] & Hidx & Hrecs & Hbt) & Hshort).
      destruct (concat_words recs Hrecs) as [n Hw].
      assert (zlen sec = zlen (concat recs) + zlen todo) as El by (rewrite Es, length_app, (dec_length _ _ n); lia).
      cbn [mbind option_bind]. eexists _, _. split; [done|]. destruct (Z.eqb_spec (zlen (concat recs)) (zlen sec)) as [E|E]; cbn [negb].
      * left. split; [done|]. assert (todo = []) as -> by (apply nil_length_inv; lia). rewrite app_nil_r in Es.
        exists recs, offs, cap. done.
      * right. left. split; [done|]. intros all Hall. rewrite Es in Hall.
        destruct (decodes_rest sw recs todo all Hrecs Hall) as (l3 & -> & [H3 E3]). destruct (concat_words l3 H3) as [m Hm].
        pose proof (f_equal length E3) as El3. rewrite (dec_length _ _ m) in El3 by done.
        destruct l3 as [|r l3]; [cbn in El3; lia|]. apply Forall_cons_iff in H3 as [Hr _]. apply rec_ok_length in Hr as [Hr _].
        cbn in El3. rewrite length_app in El3. lia.
Qed.
End parse.

(** ** Strings *)

(** Bytes that end with a NUL are a sequence of strings. *)
Lemma pack_split l : l = [] ∨ (∃ l', l = l' ++ [0]) → ∃ all, Forall nul_free all ∧ l = pack all.
Proof.
  induction l as [|x l IH]; intros H; [by exists []|]. destruct H as [H|[l' H]]; [done|]. destruct l' as [|x' l'].
  { cbn in H. simplify_eq. exists [[]]. split; [|done]. repeat constructor. by intros ?. }
  cbn in H. injection H as <- ->. destruct IH as (all & Hall & E); [right; by exists l'|].
  destruct all as [|s all]; [by destruct l'|]. destruct (decide (x = 0)) as [->|Hx].
  - exists ([] :: s :: all). split; [constructor; [by intros ?|done]|]. by rewrite E.
  - apply Forall_cons_iff in Hall as [Hs Hall]. exists ((x :: s) :: all). split; [|by rewrite E, !pack_cons].
    constructor; [intros [?|?]; [done|by apply Hs]|done].
Qed.

Lemma snoc_aget (l : list Z) x : l ≠ [] → aget l (zlen l - 1) = Some x → ∃ l', l = l' ++ [x].
Proof.
  intros Hl H. destruct l as [|y l' _] using rev_ind; [done|]. rewrite length_app in H. cbn [length] in H.
  rewrite aget_app_r in H by lia. replace (Z.of_nat (length l' + 1) - 1 - zlen l') with 0 in H by lia. exists l'.
  change (aget [y] 0) with (Some y) in H. by injection H as ->.
Qed.

(** ** The invariant *)

Record own_ok (b : btf) (recs : list (list Z)) (all : list (list Z)) : Prop := {
  ok_recs : Forall rec_ok recs;
  ok_types : located (types_data b).1 (types_data b).2 (concat recs);
  ok_nr : nr_types b = zlen recs;
  ok_index : index_of (type_offs b) (type_offs_cap b) recs;
  ok_type_len : type_len (hdr b) = zlen (concat recs);
  ok_type_max : zlen (concat recs) < 2 ^ 32;
  ok_free : Forall nul_free all;
  ok_strs : located (btf_strs_data b).1 (btf_strs_data b).2 (pack all);
  ok_str_len : str_len (hdr b) = zlen (pack all);
  ok_str_max : zlen (pack all) <= 2 ^ 31;
  ok_ids : 1 <= start_id b ∧ start_id b + nr_types b < 2 ^ 31;
}.

(** The first string of an object without base is empty; a split object
    continues the identifiers and the string offsets of its base. *)
Fixpoint btf_ok (b : btf) : Prop :=
  (∃ recs all, own_ok b recs all ∧ (has_base b = false → hd_error all = Some [])) ∧
  match base_btf b with
  | None => start_id b = 1 ∧ start_str_off b = 0
  | Some base => btf_ok base ∧ start_id b = s32 (btf__type_cnt base) ∧ start_str_off b = s32 (str_len (hdr base))
  end.

Lemma btf_ok_eq b :
  btf_ok b ↔ (∃ recs all, own_ok b recs all ∧ (has_base b = false → hd_error all = Some [])) ∧
    match base_btf b with
    | None => start_id b = 1 ∧ start_str_off b = 0
    | Some base => btf_ok base ∧ start_id b = s32 (btf__type_cnt base) ∧ start_str_off b = s32 (str_len (hdr base))
    end.
Proof. by destruct b. Qed.

Lemma btf_ind_base (P : btf → Prop) :
  (∀ b, match base_btf b with Some base => P base | None => True end → P b) → ∀ b, P b.
Proof. intros H. fix IH 1. intros b. apply H. destruct b as [? ? ? ? ? ? [base|]]; cbn; [apply IH|exact I]. Qed.

Lemma u32_s32 x : u32 (s32 x) = u32 x.
Proof.
  unfold u32, s32. rewrite Zminus_mod, Zmod_mod, <- Zminus_mod. f_equal. lia.
Qed.

Lemma s32_small x : - 2 ^ 31 <= x < 2 ^ 31 → s32 x = x.
Proof. intros H. unfold s32. rewrite Z.mod_small; lia. Qed.

Lemma own_cnt b recs all : own_ok b recs all → btf__type_cnt b = start_id b + zlen recs ∧ u32 (start_id b) = start_id b.
Proof.
  intros H. destruct (ok_ids _ _ _ H) as [H1 H2]. pose proof (ok_nr _ _ _ H) as Hn. unfold btf__type_cnt. rewrite Hn in *.
  rewrite !u32_small by (unfold word_ok; lia). done.
Qed.

(** A pointer to a record that lies inside of its region. *)
Definition record_at (t : type_ptr) (r : list Z) : Prop :=
  match t with VoidType => r = btf_void | TypeAt mem off => rec_ok r ∧ located mem off r end.

Lemma concat_lookup_located {A} (l : list (list A)) i x : l !! i = Some x → ∃ pre post, concat l = pre ++ x ++ post ∧ length pre = length (concat (take i l)).
Proof.
  intros H. rewrite <- (take_drop_middle l i x H). exists (concat (take i l)), (concat (drop (S i) l)).
  rewrite concat_app. cbn. split; [done|]. rewrite take_app_le, take_take by (rewrite length_take; apply lookup_lt_Some in H; lia).
  by rewrite Nat.min_id.
Qed.

Lemma type_by_id_eq b type_id :
  btf_type_by_id b type_id =
    if type_id =? 0 then Some VoidType else
    if type_id <? u32 (start_id b) then match base_btf b with Some base => btf_type_by_id base type_id | None => None end else
    o ← aget (type_offs b) (u32 (type_id - start_id b));
    let '(mem, t) := types_data b in Some (TypeAt mem (t + o)).
Proof. by destruct b. Qed.

Lemma str_by_offset_eq b offset :
  btf__str_by_offset b offset =
    if offset <? u32 (start_str_off b) then
      match base_btf b with Some base => btf__str_by_offset base offset | None => None end
    else if u32 (offset - start_str_off b) <? str_len (hdr b) then
      let '(mem, s) := btf_strs_data b in Some (Some (mem, s + u32 (offset - start_str_off b)))
    else Some None.
Proof. by destruct b. Qed.

(** The record of a type of the object itself. *)
Lemma own_type_by_id b recs all i r :
  own_ok b recs all → recs !! i = Some r →
  btf_type_by_id b (start_id b + Z.of_nat i) = Some (TypeAt (types_data b).1 ((types_data b).2 + zlen (concat (take i recs))))
  ∧ record_at (TypeAt (types_data b).1 ((types_data b).2 + zlen (concat (take i recs)))) r.
Proof.
  intros H Hi. destruct (ok_ids _ _ _ H) as [H1 H2]. pose proof (lookup_lt_Some _ _ _ Hi). rewrite (ok_nr _ _ _ H) in H2.
  destruct (own_cnt _ _ _ H) as [_ Hs]. split.
  - rewrite type_by_id_eq.
    destruct (Z.eqb_spec (start_id b + Z.of_nat i) 0); [lia|]. rewrite Hs. destruct (Z.ltb_spec (start_id b + Z.of_nat i) (start_id b)); [lia|].
    rewrite u32_small by (unfold word_ok; lia). replace (start_id b + Z.of_nat i - start_id b) with (Z.of_nat i) by lia.
    rewrite (index_lookup _ _ _ _ _ (ok_index _ _ _ H) Hi). cbn [mbind option_bind]. by destruct (types_data _).
  - split; [by eapply Forall_lookup_1; [exact (ok_recs _ _ _ H)|]|].
    destruct (ok_types _ _ _ H) as (pre & post & E & Ep). destruct (concat_lookup_located recs i r Hi) as (p1 & p2 & Ec & El).
    exists (pre ++ p1), (p2 ++ post). rewrite E, Ec, Ep, <- !app_assoc, length_app. split; [done|lia].
Qed.

(** Each identifier stands for a record. *)
Lemma s32_nonneg x y : 0 <= x < 2 ^ 32 → 0 <= y → y = s32 x → x = y.
Proof. unfold s32. nat_div. Qed.

Lemma btf_type_by_id_ok b : ∀ id, btf_ok b → 0 <= id < btf__type_cnt b → ∃ t r, btf_type_by_id b id = Some t ∧ record_at t r.
Proof.
  induction b as [b IH] using btf_ind_base. intros id Hok Hid.
  apply btf_ok_eq in Hok as [(recs & all & Hown & _) Hbase].
  destruct (own_cnt _ _ _ Hown) as [Hcnt Hs]. destruct (Z.eqb_spec id 0) as [->|Hne].
  { exists VoidType, btf_void. split; [by destruct b|done]. }
  destruct (Z.ltb_spec id (start_id b)) as [Hlt|Hge].
  - rewrite type_by_id_eq. destruct (Z.eqb_spec id 0); [done|]. rewrite Hs. destruct (Z.ltb_spec id (start_id b)); [|lia].
    destruct (base_btf b) as [base|]; [|lia]. destruct Hbase as (Hb & Es & _). apply IH; [done|]. split; [lia|].
    destruct (ok_ids _ _ _ Hown) as [H1 _]. rewrite (s32_nonneg (btf__type_cnt base) (start_id b)); [done|apply u32_range|lia|done].
  - destruct (lookup_lt_is_Some_2 recs (Z.to_nat (id - start_id b))) as [r Hr]; [lia|].
    destruct (own_type_by_id _ _ _ _ _ Hown Hr) as [E Hat]. replace (start_id b + _) with id in E by lia. by eexists _, r.
Qed.

(** ** Names *)

Lemma until_nul_length l : (length (until_nul l) <= length l)%nat.
Proof. induction l as [|b l IH]; [done|]. cbn. destruct (b =? 0); cbn; lia. Qed.

Lemma until_nul_bound x post : (length (until_nul (x ++ 0%Z :: post)) <= length x)%nat.
Proof. induction x as [|b x IH]; [done|]. cbn. destruct (b =? 0); cbn; lia. Qed.

(** A pointer into a piece that ends with a NUL. *)
Lemma c_str_in mem p bs o : located mem p (bs ++ [0]) → 0 <= o <= zlen bs → c_str (mem, p + o) = Some (until_nul (drop (Z.to_nat o) (bs ++ [0]) )).
Proof.
  intros (pre & post & -> & ->) Ho. unfold c_str. cbn [fst snd]. unfold strlen_at, cstr_at.
  assert (drop (Z.to_nat (zlen pre + o)) (pre ++ (bs ++ [0]) ++ post) = drop (Z.to_nat o) bs ++ 0 :: post) as ->.
  { rewrite drop_app_ge by lia. replace (Z.to_nat (zlen pre + o) - length pre)%nat with (Z.to_nat o) by lia.
    rewrite <- app_assoc, drop_app_le by lia. done. }
  rewrite drop_app_le by lia.
  pose proof (until_nul_bound (drop (Z.to_nat o) bs) post) as Hb. rewrite length_drop in Hb.
  destruct (aget_is_Some (pre ++ (bs ++ [0]) ++ post) (zlen pre + o + zlen (until_nul (drop (Z.to_nat o) bs ++ 0 :: post)))) as [c ->].
  { rewrite !length_app. cbn [length]. lia. }
  cbn [mbind option_bind]. f_equal. clear. induction (drop (Z.to_nat o) bs) as [|b x IH]; [done|]. cbn. destruct (b =? 0); [done|]. by rewrite IH.
Qed.

Lemma pack_snoc all : all ≠ [] → ∃ bs, pack all = bs ++ [0].
Proof.
  destruct all as [|s all _] using rev_ind; [done|]. intros _. exists (pack all ++ s). rewrite pack_app. cbn. by rewrite app_nil_r, app_assoc.
Qed.

Lemma c_str_offset mem p all s o :
  located mem p (pack all) → Forall nul_free all → offset_of 0 all s = Some o → c_str (mem, p + o) = Some s.
Proof.
  intros Hloc Hf Ho. assert (holds (pack all) all) as Hh by (split; [done|]; exists []; by rewrite app_nil_r).
  destruct (cstr_at_offset _ _ _ _ Hh Ho) as (Hs & H0 & H1). destruct (pack_snoc all) as [bs Eb]; [intros ->; done|].
  rewrite Eb in Hloc, Hs, H1. rewrite length_app in H1. cbn [length] in H1. rewrite (c_str_in mem p bs o Hloc) by lia. by f_equal.
Qed.

Lemma own_str b recs all o :
  own_ok b recs all → 0 <= o → o < str_len (hdr b) → ∃ s, c_str ((btf_strs_data b).1, (btf_strs_data b).2 + o) = Some s.
Proof.
  intros H H0 Ho. rewrite (ok_str_len _ _ _ H) in Ho. pose proof (ok_strs _ _ _ H) as Hl.
  destruct (pack_snoc all) as [bs Eb]; [intros ->; cbn in Ho; lia|]. rewrite Eb in Hl, Ho. rewrite length_app in Ho. cbn [length] in Ho.
  rewrite (c_str_in _ _ bs o Hl) by lia. by eexists.
Qed.

Lemma u32_sub_s32 a x : u32 (a - s32 x) = u32 (a - x).
Proof.
  unfold u32, s32. rewrite (Z.mod_eq (x + 2 ^ 31)) by lia. rewrite <- (Z.mod_add (a - x) ((x + 2 ^ 31) / 2 ^ 32)) by lia. f_equal. lia.
Qed.

Lemma base_str_len b : btf_ok b → 0 <= str_len (hdr b) <= 2 ^ 31.
Proof. intros [(recs & all & H & _) _]%btf_ok_eq. rewrite (ok_str_len _ _ _ H). pose proof (ok_str_max _ _ _ H). lia. Qed.

(** A name is NULL or a string inside of its section. *)
Lemma str_by_offset_ok b : ∀ o, btf_ok b → 0 <= o < 2 ^ 32 →
  ∃ r, btf__str_by_offset b o = Some r ∧ match r with None => True | Some p => ∃ s, c_str p = Some s end.
Proof.
  induction b as [b IH] using btf_ind_base. intros o Hok Ho. apply btf_ok_eq in Hok as [(recs & all & Hown & _) Hbase].
  rewrite str_by_offset_eq. destruct (base_btf b) as [base|].
  - destruct Hbase as (Hb & _ & ->). pose proof (base_str_len base Hb). rewrite u32_s32, u32_sub_s32, u32_small by (unfold word_ok; lia).
    destruct (Z.ltb_spec o (str_len (hdr base))); [by apply IH|].
    rewrite u32_small by (unfold word_ok; lia). destruct (Z.ltb_spec (o - str_len (hdr base)) (str_len (hdr b))); [|by exists None].
    pose proof (own_str b recs all (o - str_len (hdr base)) Hown ltac:(lia) ltac:(lia)) as Hs.
    destruct (btf_strs_data b) as [mem p]. by eexists.
  - destruct Hbase as [_ ->]. change (u32 0) with 0. destruct (Z.ltb_spec o 0); [lia|]. rewrite Z.sub_0_r, u32_small by (unfold word_ok; lia).
    destruct (Z.ltb_spec o (str_len (hdr b))); [|by exists None].
    pose proof (own_str b recs all o Hown ltac:(lia) ltac:(lia)) as Hs. destruct (btf_strs_data b) as [mem p]. by eexists.
Qed.

(** ** The header *)

Record hdr_ok (h : btf_header) : Prop := {
  hk_magic : 0 <= magic h < 2 ^ 16; hk_version : byte_ok (version h); hk_flags : byte_ok (flags h);
  hk_hdr_len : word_ok (hdr_len h); hk_type_off : word_ok (type_off h); hk_type_len : word_ok (type_len h);
  hk_str_off : word_ok (str_off h); hk_str_len : word_ok (str_len h);
}.

Lemma hdr_bytes_length h : length (hdr_bytes h) = 24%nat.
Proof. done. Qed.

Lemma hdr_bytes_ok h : hdr_ok h → bytes_ok (hdr_bytes h).
Proof.
  intros [_ Hv Hf]. unfold hdr_bytes. repeat (apply Forall_app; split); try apply bytes_ok_le16; try apply bytes_ok_le32. constructor; [done|by constructor].
Qed.

Lemma ld_hdr_total raw : bytes_ok raw → 24 <= zlen raw → ∃ h, ld_hdr raw = Some h ∧ hdr_ok h.
Proof.
  intros Hb Hl. unfold ld_hdr. destruct (ld_le16_total raw 0) as (m & -> & Hm); [done|lia..|].
  destruct (aget_is_Some raw 2) as [v Hv]; [lia|]. destruct (aget_is_Some raw 3) as [f Hf]; [lia|]. rewrite Hv, Hf.
  apply aget_byte in Hv, Hf; try done.
  destruct (ld_le32_total raw 4) as (a & -> & Ha); [done|lia..|]. destruct (ld_le32_total raw 8) as (b & -> & Hbb); [done|lia..|].
  destruct (ld_le32_total raw 12) as (c & -> & Hc); [done|lia..|]. destruct (ld_le32_total raw 16) as (d & -> & Hd); [done|lia..|].
  destruct (ld_le32_total raw 20) as (e & -> & He); [done|lia..|]. eexists. split; [done|]. by split.
Qed.

Lemma ld_hdr_bytes h rest : hdr_ok h → ld_hdr (hdr_bytes h ++ rest) = Some h.
Proof.
  intros [Hm Hv Hf H1 H2 H3 H4 H5]. unfold ld_hdr.
  assert (located (hdr_bytes h ++ rest) 0 (hdr_bytes h)) as Hloc by (exists [], rest; done).
  assert (∀ c v, 0 <= c → c + 4 <= 24 → word_ok v →
    ld_le32 (hdr_bytes h) c = Some (u8 v + u8 (Z.shiftr v 8) * 2 ^ 8 + u8 (Z.shiftr v 16) * 2 ^ 16 + u8 (Z.shiftr v 24) * 2 ^ 24) →
    ld_le32 (hdr_bytes h ++ rest) c = Some v) as Hld.
  { intros c v Hc0 Hc1 Hok E. rewrite <- (Z.add_0_l c). rewrite (ld_le32_located _ _ _ _ _ Hloc Hc0 Hc1 E). by rewrite u32_small. }
  rewrite <- (Z.add_0_l 0) at 1. rewrite (ld_le16_located _ _ _ 0 (magic h) Hloc) by done. rewrite u16_small by done.
  cbn [mbind option_bind]. change (aget (hdr_bytes h ++ rest) 2) with (Some (version h)).
  change (aget (hdr_bytes h ++ rest) 3) with (Some (flags h)). cbn [mbind option_bind].
  rewrite (Hld 4 (hdr_len h)), (Hld 8 (type_off h)), (Hld 12 (type_len h)), (Hld 16 (str_off h)), (Hld 20 (str_len h)) by done.
  by destruct h.
Qed.

Lemma bswap32_ok x : word_ok x → word_ok (bswap32 x).
Proof.
  intros Hx. rewrite <- (u32_small x Hx), <- u32_le_bytes.
  pose proof (u8_ok x) as H0. pose proof (u8_ok (Z.shiftr x 8)) as H1. pose proof (u8_ok (Z.shiftr x 16)) as H2. pose proof (u8_ok (Z.shiftr x 24)) as H3.
  rewrite bswap32_bytes by done. unfold byte_ok, word_ok in *. lia.
Qed.

Lemma btf_bswap_hdr_ok h : hdr_ok h → hdr_ok (btf_bswap_hdr h).
Proof. intros []. split; cbn; try done; by (apply bswap16_range || apply bswap32_ok). Qed.

Lemma st_hdr_eq raw h : 24 <= zlen raw → st_hdr raw h = Some (hdr_bytes h ++ drop 24 raw).
Proof. intros Hl. unfold st_hdr. rewrite aset_list_eq by (rewrite ?hdr_bytes_length; lia). done. Qed.

(** What an accepted header says. *)
Record layout_ok (size : Z) (raw : list Z) (h : btf_header) : Prop := {
  lk_hdr : hdr_ok h;
  lk_raw : zlen raw = size;
  lk_bytes : bytes_ok raw;
  lk_strs : hdr_len h + str_off h + str_len h <= size;
  lk_types : type_off h + type_len h <= str_off h;
}.

Lemma btf_check_hdr_ok size raw h sw :
  hdr_ok h → zlen raw = size → bytes_ok raw →
  match btf_check_hdr size raw h sw with
  | inl err => err = - EINVAL
  | inr (raw', h', sw') => raw' = raw ∧ h' = h ∧ sw' = sw ∧ layout_ok size raw h
  end.
Proof.
  intros Hh Hl Hb. unfold btf_check_hdr. case Z.ltb_spec; intros H1; [done|]. case Z.ltb_spec; intros H2; [done|].
  case Z.ltb_spec; intros H3; [done|]. destruct (type_off h mod 4 =? 0); cbn [negb]; [|done]. split_and!; try done. split; try done; lia.
Qed.

Lemma btf_parse_hdr_ok raw :
  bytes_ok raw → ∃ r, btf_parse_hdr (zlen raw) raw = Some r ∧
    match r with
    | inl err => err = - EINVAL ∨ err = - ENOTSUP
    | inr (raw', h, sw) => 24 <= zlen raw ∧ layout_ok (zlen raw) raw' h
    end.
Proof.
  intros Hb. unfold btf_parse_hdr, sizeof_hdr. case Z.ltb_spec; intros Hl; [eexists; split; [done|by left]|].
  destruct (ld_hdr_total raw Hb Hl) as (h & -> & Hh). cbn [mbind option_bind]. destruct (magic h =? bswap16 BTF_MAGIC).
  - destruct (bswap32 (hdr_len h) =? 24); cbn [negb]; [|eexists; split; [done|by right]].
    rewrite st_hdr_eq by done. cbn [mbind option_bind]. eexists. split; [done|]. pose proof (btf_bswap_hdr_ok h Hh) as Hh'.
    set (raw' := hdr_bytes _ ++ drop 24 raw).
    assert (zlen raw' = zlen raw) as Hl' by (unfold raw'; rewrite length_app, length_drop, hdr_bytes_length; lia).
    pose proof (btf_check_hdr_ok (zlen raw) raw' (btf_bswap_hdr h) true Hh' Hl'
      ltac:(apply Forall_app; split; [by apply hdr_bytes_ok|by apply Forall_drop])) as H.
    destruct (btf_check_hdr _ _ _ _) as [err|[[raw1 h1] sw1]]; [by left|]. destruct H as (-> & -> & -> & H). done.
  - destruct (magic h =? BTF_MAGIC); cbn [negb]; [|eexists; split; [done|by left]]. eexists. split; [done|].
    pose proof (btf_check_hdr_ok (zlen raw) raw h false Hh eq_refl Hb) as H.
    destruct (btf_check_hdr _ _ _ _) as [err|[[raw1 h1] sw1]]; [by left|]. destruct H as (-> & -> & -> & H). done.
Qed.

(** ** Objects *)

(** The section of [n] bytes at [o]. *)
Lemma section_split {A} (raw : list A) o n : 0 <= o → 0 <= n → o + n <= zlen raw → ∃ pre sec post, raw = pre ++ sec ++ post ∧ zlen pre = o ∧ zlen sec = n.
Proof.
  intros Ho Hn Hl. exists (take (Z.to_nat o) raw), (take (Z.to_nat n) (drop (Z.to_nat o) raw)), (drop (Z.to_nat n) (drop (Z.to_nat o) raw)).
  rewrite !take_drop, !length_take, length_drop. split; [done|lia].
Qed.

(** A region in front of which another one was rewritten. *)
Lemma located_behind pre pre' sec l : zlen pre = zlen pre' → located (pre ++ sec) (zlen pre) l → located (pre' ++ sec) (zlen pre) l.
Proof.
  intros E (a & c & Ea & El). exists pre', (drop (length l) sec). rewrite E. split; [|done]. f_equal.
  apply app_inj_1 in Ea as [-> ->]; [by rewrite drop_app_length|lia].
Qed.

Definition base_ok (base : option btf) (n : Z) : Prop :=
  match base with None => n <= 2 ^ 31 - 2 | Some base => btf_ok base ∧ btf__type_cnt base + n < 2 ^ 31 end.

(** The string section of an accepted object. *)
Lemma btf_parse_str_sec_ok b mem s sec :
  btf_strs_data b = (mem, s) → located mem s sec → str_len (hdr b) = zlen sec → zlen sec < 2 ^ 32 →
  ∃ ret, btf_parse_str_sec b = Some ret ∧ (ret = 0 ∨ ret = - EINVAL) ∧
    (ret = 0 → ∃ all, sec = pack all ∧ Forall nul_free all ∧ zlen sec <= 2 ^ 31 ∧ (has_base b = false → hd_error all = Some [])).
Proof.
  intros Hd Hloc Hlen Hmax. unfold btf_parse_str_sec. rewrite Hd, Hlen. pose proof (located_range _ _ _ Hloc) as Hr.
  destruct (has_base b && (zlen sec =? 0)) eqn:E1.
  { apply andb_true_iff in E1 as [E1 E2%Z.eqb_eq]. exists 0. split; [done|]. split; [by left|]. intros _. exists [].
    assert (sec = []) as -> by (apply nil_length_inv; lia). split_and!; [done|constructor|done|by rewrite E1]. }
  destruct (Z.eqb_spec (zlen sec) 0) as [E0|E0]; cbn [orb]; [eexists; split; [done|by split; [right|]]|].
  rewrite u32_small by (unfold word_ok; lia).
  case Z.ltb_spec; intros Hm; [eexists; split; [done|by split; [right|]]|].
  replace (s + zlen sec - 1) with (s + (zlen sec - 1)) by lia. rewrite (aget_located mem s sec) by (done || lia).
  destruct (aget_is_Some sec (zlen sec - 1)) as [last Hlast]; [lia|]. rewrite Hlast. cbn [mbind option_bind].
  destruct (Z.eqb_spec last 0) as [->|]; cbn [negb]; [|eexists; split; [done|by split; [right|]]].
  destruct (pack_split sec) as (all & Hall & Esec); [right; apply snoc_aget; [intros ->; by cbn in E0|done]|].
  destruct (has_base b).
  { exists 0. split; [done|]. split; [by left|]. intros _. exists all. split_and!; [done|done|unfold BTF_MAX_STR_OFFSET in *; lia|done]. }
  destruct (aget_is_Some sec 0) as [x Hx]; [lia|]. pose proof (aget_located mem s sec 0 Hloc ltac:(lia)) as Hf. rewrite Z.add_0_r in Hf.
  rewrite Hf, Hx. cbn [mbind option_bind]. destruct (Z.eqb_spec x 0) as [->|]; cbn [negb]; [|eexists; split; [done|by split; [right|]]].
  exists 0. split; [done|]. split; [by left|]. intros _. exists all. split_and!; [done|done|unfold BTF_MAX_STR_OFFSET in *; lia|]. intros _.
  destruct all as [|[|c s1] all]; [by subst sec|done|]. exfalso. apply Forall_cons_iff in Hall as [Hs _]. apply Hs. left.
  rewrite Esec in Hx. change (aget (pack ((c :: s1) :: all)) 0) with (Some c) in Hx. by injection Hx.
Qed.

Lemma raw_sections size raw h :
  layout_ok size raw h → ∃ pre sec mid strs tail, raw = pre ++ sec ++ mid ++ strs ++ tail
    ∧ zlen pre = hdr_len h + type_off h ∧ zlen sec = type_len h ∧ zlen (pre ++ sec ++ mid) = hdr_len h + str_off h ∧ zlen strs = str_len h.
Proof.
  intros [[_ _ _ H1 H2 H3 H4 H5] Hl Hb Hs Ht]. unfold word_ok in *.
  destruct (section_split raw (hdr_len h + type_off h) (type_len h)) as (pre & sec & post & -> & Hp & Hsec); [lia..|].
  rewrite !length_app in Hl.
  destruct (section_split post (str_off h - type_off h - type_len h) (str_len h)) as (mid & strs & tail & -> & Hm & Hst); [lia..|].
  exists pre, sec, mid, strs, tail. rewrite !length_app. split_and!; try done; lia.
Qed.

(** The parser on any bytes. *)
Lemma btf_new_ok realloc btf_ok' raw_ok data base :
  bytes_ok data → zlen data < 2 ^ 32 → base_ok base (zlen data / 12) →
  ∃ r, btf_new realloc btf_ok' raw_ok data (zlen data) base = Some r ∧
    match r with
    | inl err => err = - EINVAL ∨ err = - ENOTSUP ∨ err = - ENOMEM
    | inr b => btf_ok b ∧ base_btf b = base
    end.
Proof.
  intros Hb Hmax Hbase. unfold btf_new. destruct btf_ok'; cbn [negb]; [|eexists; split; [done|by right; right]].
  destruct raw_ok; cbn [negb]; [|eexists; split; [done|by right; right]].
  rewrite Nat2Z.id, aget_list_eq by lia. change (Z.to_nat 0) with O. rewrite drop_0, firstn_all. cbn [mbind option_bind].
  destruct (btf_parse_hdr_ok data Hb) as ([err|[[raw h] sw]] & -> & Hr); cbn [mbind option_bind]; [eexists; split; [done|tauto]|].
  destruct Hr as [_ Hlay]. destruct (raw_sections _ _ _ Hlay) as (pre & sec & mid & strs & tail & Eraw & Hpre & Hsec & Hmid & Hstrs).
  set (b0 := mkBtf h _ _ _ _ _ _ _ _ _ _ _ _ _). pose proof (lk_hdr _ _ _ Hlay) as Hh.
  pose proof (lk_bytes _ _ _ Hlay) as Hbr. rewrite Eraw in Hbr. apply Forall_app in Hbr as [_ Hbr]. apply Forall_app in Hbr as [Hbs _].
  pose proof (lk_raw _ _ _ Hlay) as Hl. rewrite Eraw, !length_app in Hl.
  destruct (btf_parse_str_sec_ok b0 raw (hdr_len h + str_off h) strs) as (ret & -> & Hret & Hstr); [done| |exact (eq_sym Hstrs)|lia|].
  { exists (pre ++ sec ++ mid), tail. by rewrite Eraw, <- !app_assoc. }
  cbn [mbind option_bind]. destruct Hret as [->| ->]; [|exists (inl (- EINVAL)); split; [done|by left]]. change (negb (0 =? 0)) with false. cbv iota.
  destruct (Hstr eq_refl) as (all & Es & Hf & Hsm & Hhd).
  destruct (btf_parse_type_sec_ok realloc b0 pre sec (mid ++ strs ++ tail)) as (ret & b & -> & Hret);
    [by rewrite Hpre, <- Eraw|done|done|done|exact (eq_sym Hsec)|lia|done|].
  cbn [mbind option_bind].
  destruct Hret as [[-> (recs & offs & cap & [Hrecs Esec] & Hidx & ->)]|[[-> _]|[-> _]]];
    [|exists (inl (- EINVAL)); split; [done|by left]|exists (inl (- ENOMEM)); split; [done|by right; right]].
  eexists. split; [done|]. split; [|done]. apply btf_ok_eq. destruct (concat_words recs Hrecs) as [n Hn].
  assert (zlen (concat recs) = zlen sec) as Hcl by (rewrite Esec, (dec_length _ _ n); lia).
  pose proof (records_count recs Hrecs) as Hcount.
  assert (12 * (zlen data / 12) <= zlen data) as Hdiv by nat_div. assert (zlen recs <= zlen data / 12) as Hr12 by nat_div.
  split.
  - exists recs, all. split; [|exact Hhd]. split; cbn; try done.
    + exists pre, (mid ++ strs ++ tail). by rewrite Hpre.
    + lia.
    + lia.
    + exists (pre ++ concat recs ++ mid), tail. rewrite <- Es. split; [by rewrite <- !app_assoc|]. rewrite !length_app in *. lia.
    + by rewrite <- Es.
    + by rewrite <- Es.
    + destruct base as [base|]; cbn in Hbase |- *; [|lia]. destruct Hbase as [Hb0 Hc].
      pose proof (u32_range (start_id base + nr_types base)). fold (btf__type_cnt base) in *.
      apply btf_ok_eq in Hb0 as [(rb & ab & Hob & _) _]. destruct (own_cnt _ _ _ Hob) as [Hcb _]. destruct (ok_ids _ _ _ Hob) as [Hi1 Hi2].
      rewrite s32_small by lia. lia.
  - destruct base as [base|]; cbn; [|done]. by destruct Hbase.
Qed.

(** C14: for any bytes, and any base object that was accepted before, the parser
    accesses nothing outside of its memory and returns an error or an object; in
    the object each type identifier below the number of types stands for a
    record that lies inside of the type section, all others give NULL, and each
    name offset gives NULL or a string that ends inside of its section. *)
Theorem btf_new_safe realloc btf_ok' raw_ok data base :
  bytes_ok data → zlen data < 2 ^ 32 → base_ok base (zlen data / 12) →
  ∃ r, btf_new realloc btf_ok' raw_ok data (zlen data) base = Some r ∧
    match r with
    | inl err => err = - EINVAL ∨ err = - ENOTSUP ∨ err = - ENOMEM
    | inr b =>
        base_btf b = base ∧ btf_ok b
        ∧ (∀ id, 0 <= id → ∃ p, btf__type_by_id b id = Some p ∧
             match p with None => btf__type_cnt b <= id | Some t => id < btf__type_cnt b ∧ ∃ r, record_at t r end)
        ∧ (∀ off, 0 <= off < 2 ^ 32 → ∃ p, btf__name_by_offset b off = Some p ∧
             match p with None => True | Some p => ∃ s, c_str p = Some s end)
    end.
Proof.
  intros Hb Hl Hbase. destruct (btf_new_ok realloc btf_ok' raw_ok data base Hb Hl Hbase) as (r & -> & Hr).
  exists r. split; [done|]. destruct r as [err|b]; [done|]. destruct Hr as [Hok Hbb]. split_and!; [done|done| |].
  - intros id Hid. unfold btf__type_by_id. fold (btf__type_cnt b). case Z.leb_spec; intros Hc; [by exists None|].
    destruct (btf_type_by_id_ok b id Hok ltac:(lia)) as (t & rec & -> & Hrec). exists (Some t). split; [done|]. split; [done|by exists rec].
  - intros off Hoff. by apply str_by_offset_ok.
Qed.

(** An integer, a structure with one member, an array of three structures and a
    typedef of the array. *)
Definition sample : list Z :=
  [159; 235; 1; 0; 24; 0; 0; 0; 0; 0; 0; 0; 76; 0; 0; 0; 76; 0; 0; 0; 11; 0; 0; 0;
   1; 0; 0; 0; 0; 0; 0; 1; 4; 0; 0; 0; 32; 0; 0; 1;
   5; 0; 0; 0; 1; 0; 0; 4; 4; 0; 0; 0; 7; 0; 0; 0; 1; 0; 0; 0; 0; 0; 0; 0;
   0; 0; 0; 0; 0; 0; 0; 3; 0; 0; 0; 0; 2; 0; 0; 0; 1; 0; 0; 0; 3; 0; 0; 0;
   9; 0; 0; 0; 0; 0; 0; 8; 3; 0; 0; 0;
   0; 105; 110; 116; 0; 115; 0; 97; 0; 116; 0].

Definition sample_btf : btf :=
  mkBtf (mkHdr 60319 1 0 24 0 76 76 11) [] (Contiguous sample 24 100) [0; 16; 40; 64; 0; 0; 0; 0; 0; 0; 0; 0; 0; 0; 0; 0] 16 4
    None 1 0 111 None false false 0.

Lemma sample_new : btf_new (λ _, true) true true sample (zlen sample) None = Some (inr sample_btf).
Proof. vm_compute. reflexivity. Qed.

Lemma sample_ok : btf_ok sample_btf.
Proof.
  destruct (btf_new_ok (λ _, true) true true sample None) as (r & E & Hr); [by apply bytes_ok_dec|done|zeval|].
  rewrite sample_new in E. injection E as <-. by destruct Hr.
Qed.

Lemma btf_new_safe_witness :
  btf_new (λ _, true) true true sample (zlen sample) None = Some (inr sample_btf) ∧ btf__type_cnt sample_btf = 5
  ∧ ∃ t, btf__type_by_id sample_btf 4 = Some (Some t) ∧ ∃ r, record_at t r.
Proof.
  destruct (btf_new_safe (λ _, true) true true sample None) as (r & E & Hr).
  - apply bytes_ok_dec. reflexivity.
  - reflexivity.
  - zeval.
  - rewrite sample_new in E. injection E as <-. destruct Hr as (_ & _ & Ht & _). split; [exact sample_new|]. split; [reflexivity|].
    destruct (Ht 4) as (p & Ep & Hp); [lia|]. destruct p as [t|]; [|exfalso; vm_compute in Hp; by apply Hp].
    exists t. split; [exact Ep|]. exact (proj2 Hp).
Defined.
