(* ===== verification/BtfTypes.v ===== *)
(** * Sizes, alignments and names of BTF types

    The functions that follow references between types, on objects that satisfy
    the invariant of the parser.  [btf__resolve_size] computes the size that a
    recursive definition over unbounded integers gives, [btf__align_of] returns
    when the references are well-founded and obeys the laws of alignments, and
    the searches return the first type of a name. *)

From stdpp Require Import gmap.
From S2P Require Import Prelude CString Hashmap Strset StrsetCorrect Bytes Btf BtfBuild BtfRecords BtfCorrect.

(** ** Reading types *)

Lemma record_bytes t r : record_at t r → bytes_ok r ∧ 12 <= zlen r.
Proof.
  destruct t as [|mem off]; cbn.
  - intros ->. split; [by apply bytes_ok_dec|done].
  - intros [Hr _]. split; [by destruct Hr|]. by apply rec_ok_length.
Qed.

(** The words of a record are read at its address. *)
Lemma record_word t r i : record_at t r → 0 <= i → 4 * i + 4 <= zlen r → ∃ w, t_word t i = Some w ∧ word_ok w ∧ t_word (TypeAt r 0) i = Some w.
Proof.
  intros Hr Hi Hl. destruct (record_bytes t r Hr) as [Hb _].
  destruct (ld_le32_total r (0 + 4 * i)) as (w & Hw & Hok); [done|lia..|]. exists w. split; [|by split].
  destruct t as [|mem off]; cbn in Hr; [by subst r|]. destruct Hr as [_ (pre & post & -> & ->)]. by rewrite t_word_at.
Qed.

Lemma record_info t r : record_at t r → ∃ info, t_info t = Some info ∧ word_ok info ∧ (t = VoidType ∨ rec_size info = zlen r).
Proof.
  intros Hr. destruct (record_bytes t r Hr) as [_ Hl].
  destruct (record_word t r 1 Hr ltac:(lia) ltac:(lia)) as (info & Hi & Hok & Hr0). exists info. split; [done|]. split; [done|].
  destruct t as [|mem off]; [by left|right]. destruct Hr as [(_ & info' & Hi' & Hs) _]. unfold t_info in Hi'. by simplify_eq.
Qed.

Lemma record_size t r : record_at t r → ∃ w, t_size t = Some w ∧ word_ok w.
Proof.
  intros Hr. destruct (record_bytes t r Hr) as [_ Hl]. destruct (record_word t r 2 Hr ltac:(lia) ltac:(lia)) as (w & Hw & Hok & _). by exists w.
Qed.

(** The words behind the first three, as many as the kind needs. *)
Lemma record_extra t r info i :
  record_at t r → t_info t = Some info → rec_size info = zlen r → 0 <= i → 4 * i + 4 <= rec_size info → ∃ w, t_word t i = Some w ∧ word_ok w.
Proof. intros Hr _ Hs Hi Hl. destruct (record_word t r i Hr Hi ltac:(lia)) as (w & Hw & Hok & _). by exists w. Qed.

(** A reference to a type of the object, or to none. *)
Definition valid (t : option type_ptr) : Prop := match t with None => True | Some t => ∃ r, record_at t r end.

Lemma type_by_id_valid b id : btf_ok b → 0 <= id → ∃ t, btf__type_by_id b id = Some t ∧ valid t ∧ (t = None ↔ btf__type_cnt b <= id).
Proof.
  intros Hok Hid. unfold btf__type_by_id. fold (btf__type_cnt b). case Z.leb_spec; intros Hc; [by exists None|].
  destruct (btf_type_by_id_ok b id Hok ltac:(lia)) as (t & r & -> & Hr). exists (Some t). split; [done|]. split; [by exists r|].
  split; [done|lia].
Qed.

(** ** The size of pointers *)

Definition ptr_ok (b : btf) : Prop := In (ptr_sz b) [-1; 0; 4; 8] ∧ match base_btf b with Some base => In (ptr_sz base) [-1; 0; 4; 8] | None => True end.

Lemma own_cnt_range b : btf_ok b → 1 <= btf__type_cnt b < 2 ^ 31.
Proof.
  intros [(recs & all & H & _) _]%btf_ok_eq. destruct (own_cnt _ _ _ H) as [E _]. pose proof (ok_ids _ _ _ H) as [H1 H2].
  pose proof (ok_nr _ _ _ H). lia.
Qed.

Lemma ptr_size_body_ok b i ret :
  btf_ok b → 1 <= i < btf__type_cnt b →
  ∃ c, ptr_size_body b i ret = Some c ∧ match c with Next ret' => ret' = ret | Break ret' => ret' = Some 4 ∨ ret' = Some 8 end.
Proof.
  intros Hok Hi. pose proof (own_cnt_range b Hok) as Hc. unfold ptr_size_body. rewrite u32_small by (unfold word_ok; lia).
  destruct (type_by_id_valid b i Hok ltac:(lia)) as (t & -> & Hv & Hn). cbn [mbind option_bind].
  destruct t as [t|]; [|exfalso; pose proof (proj1 Hn eq_refl); lia]. destruct Hv as [r Hr].
  destruct (record_info t r Hr) as (info & Hinfo & _). cbn [mbind option_bind].
  unfold btf_is_int, is_kind, btf_kind. rewrite Hinfo. cbn [mbind option_bind].
  case_bool_decide; cbn [negb]; [|by eexists]. destruct (record_size t r Hr) as (sz & -> & _). cbn [mbind option_bind].
  destruct (negb (sz =? 4) && negb (sz =? 8)) eqn:E; [by eexists|].
  destruct (record_bytes t r Hr) as [_ Hl]. destruct (record_word t r 0 Hr ltac:(lia) ltac:(lia)) as (off & Hoff & Hok' & _).
  unfold t_name_off. rewrite Hoff. cbn [mbind option_bind]. unfold btf__name_by_offset.
  destruct (str_by_offset_ok b off Hok Hok') as ([p|] & -> & Hp); cbn [mbind option_bind]; [|by eexists].
  destruct Hp as [s ->]. cbn [mbind option_bind]. destruct (existsb _ _); eexists; (split; [done|]); [|done].
  apply andb_false_iff in E as [E|E]; apply negb_false_iff, Z.eqb_eq in E; subst; auto.
Qed.

Lemma determine_ptr_size_ok b : btf_ok b → ptr_ok b → ∃ p, determine_ptr_size b = Some p ∧ In p [-1; 4; 8].
Proof.
  intros Hok [_ Hb]. unfold determine_ptr_size. set (base_sz := match base_btf b with Some _ => _ | None => _ end).
  destruct (Z.ltb_spec 0 base_sz) as [Hlt|_].
  { exists base_sz. split; [done|]. unfold base_sz in *. destruct (base_btf b) as [base|]; [|lia]. cbn in Hb |- *. lia. }
  pose proof (own_cnt_range b Hok) as Hc. rewrite s32_small by lia.
  destruct (for_loop_inv_break (λ _ ret, ret = None) (λ ret, ret = Some 4 ∨ ret = Some 8) (ptr_size_body b) 1 (btf__type_cnt b) None) as (ret & -> & Hret).
  - lia.
  - intros i s Hi ->. destruct (ptr_size_body_ok b i None Hok Hi) as (c & -> & Hc'). exists c. split; [done|]. by destruct c.
  - done.
  - cbn [mbind option_bind]. eexists. split; [done|]. destruct Hret as [->|[->| ->]]; cbn; auto.
Qed.

(** The same object, up to the stored size of pointers, with the same size. *)
Definition ptr_bytes (b : btf) : Z := match btf_ptr_sz b with Some (p, _) => p | None => 0 end.
Definition same (b b' : btf) : Prop := with_ptr_sz b 0 = with_ptr_sz b' 0 ∧ ptr_bytes b = ptr_bytes b'.

#[export] Instance same_equiv : Equivalence same.
Proof.
  split.
  - by intros b.
  - intros b b' [E1 E2]. by split.
  - intros b1 b2 b3 [E1 E2] [E3 E4]. split; congruence.
Qed.

Lemma with_ptr_type_by_id b sz id : btf__type_by_id (with_ptr_sz b sz) id = btf__type_by_id b id.
Proof. by destruct b. Qed.

Lemma same_type_by_id b b' id : same b b' → btf__type_by_id b id = btf__type_by_id b' id.
Proof. intros [E _]. rewrite <- (with_ptr_type_by_id b 0), E. apply with_ptr_type_by_id. Qed.

Lemma with_ptr_str b sz o : btf__str_by_offset (with_ptr_sz b sz) o = btf__str_by_offset b o.
Proof. by destruct b. Qed.

Lemma determine_with_ptr b sz : determine_ptr_size (with_ptr_sz b sz) = determine_ptr_size b.
Proof. by destruct b. Qed.

Lemma btf_ok_with_ptr b sz : btf_ok b → btf_ok (with_ptr_sz b sz).
Proof. intros [(recs & all & [] & Hh) Hb]%btf_ok_eq. apply btf_ok_eq. split; [exists recs, all; by split|done]. Qed.

Lemma btf_ptr_sz_ok b : btf_ok b → ptr_ok b → ∃ p b', btf_ptr_sz b = Some (p, b') ∧ (p = 4 ∨ p = 8) ∧ p = ptr_bytes b ∧ same b b' ∧ btf_ok b' ∧ ptr_ok b'.
Proof.
  intros Hok Hp. unfold same, ptr_bytes. unfold btf_ptr_sz at 1 2 3, cache_ptr_sz. destruct (Z.eqb_spec (ptr_sz b) 0) as [E|E].
  - destruct (determine_ptr_size_ok b Hok Hp) as (p & -> & Hin). cbn [mbind option_bind].
    eexists _, (with_ptr_sz b p). split; [done|].
    assert (btf_ptr_sz (with_ptr_sz b p) = Some (if p <? 0 then sizeof_ptr else p, with_ptr_sz b p)) as ->.
    { unfold btf_ptr_sz, cache_ptr_sz. cbn [with_ptr_sz ptr_sz]. destruct (Z.eqb_spec p 0) as [->|]; [cbn in Hin; lia|done]. }
    cbn [ptr_sz with_ptr_sz]. split_and!; try done; [|by apply btf_ok_with_ptr|split; [cbn in *; lia|by destruct Hp]].
    cbn in Hin. unfold sizeof_ptr. destruct (Z.ltb_spec p 0); lia.
  - cbn [mbind option_bind]. eexists _, b. split; [done|]. unfold btf_ptr_sz, cache_ptr_sz. destruct (Z.eqb_spec (ptr_sz b) 0); [done|].
    cbn [mbind option_bind]. split_and!; try done. destruct Hp as [Hin _]. cbn in Hin. unfold sizeof_ptr. destruct (Z.ltb_spec (ptr_sz b) 0); lia.
Qed.

(** ** Sizes *)

(** How the size of a type is found. *)
Inductive size_class : Type := Sized | Pointer | Reference | Array | NoSize.

Definition class_of (k : kind) : size_class :=
  match k with
  | INT | STRUCT | UNION | ENUM | ENUM64 | DATASEC | FLOAT => Sized
  | PTR => Pointer
  | TYPEDEF | VOLATILE | CONST | RESTRICT | VAR | DECL_TAG | TYPE_TAG => Reference
  | ARRAY => Array
  | UNKN | FWD | FUNC | FUNC_PROTO | OTHER _ => NoSize
  end.

(** The size of a type by recursion over at most [fuel] types, on unbounded
    integers; a type without size, or NULL, gives [None]. *)
Fixpoint size_from (fuel : nat) (b : btf) (t : option type_ptr) : option Z :=
  match fuel, t with
  | S fuel, Some (TypeAt _ _ as t) =>
      k ← btf_kind t;
      match class_of k with
      | Sized => t_size t
      | Pointer => Some (ptr_bytes b)
      | Reference => id ← t_type t; t' ← btf__type_by_id b id; size_from fuel b t'
      | Array => m ← t_word t 5; id ← t_word t 3; t' ← btf__type_by_id b id; n ← size_from fuel b t'; Some (m * n)
      | NoSize => None
      end
  | _, _ => None
  end.

Definition size_of (fuel : nat) (b : btf) (id : Z) : option Z := t ← btf__type_by_id b id; size_from fuel b t.

(** What is left of the computation in a state of the loop. *)
Definition remaining (fuel : nat) (s : rs_state) : option Z := n ← size_from fuel (rs_btf s) (rs_t s); Some (rs_nelems s * n).

(** A value that the reference definition allows. *)
Definition size_result (want : option Z) (r : Z) : Prop :=
  match want with
  | Some n => n <= UINT32_MAX ∧ r = n ∨ r = - E2BIG ∧ (UINT32_MAX < n ∨ n = 0)
  | None => r = - EINVAL ∨ r = - E2BIG
  end.

Definition finish_size (s : rs_state) : Z :=
  match rs_ret s with
  | Some err => err
  | None =>
      if rs_size s <? 0 then - EINVAL else
      if negb (rs_nelems s =? 0) && (UINT32_MAX / rs_nelems s <? rs_size s) then - E2BIG else rs_nelems s * rs_size s
  end.

Lemma mul_check n s : 0 <= n → 0 <= s → negb (n =? 0) && (UINT32_MAX / n <? s) = (UINT32_MAX <? n * s).
Proof.
  intros Hn Hs. unfold UINT32_MAX. destruct (Z.eqb_spec n 0) as [->|Hne]; cbn [negb andb]; [cbn; by case Z.ltb_spec|].
  destruct (Z.ltb_spec ((2 ^ 32 - 1) / n) s) as [H|H], (Z.ltb_spec (2 ^ 32 - 1) (n * s)) as [H'|H']; try done; exfalso.
  - assert ((2 ^ 32 - 1) < n * s); [|lia]. pose proof (Z.mul_succ_div_gt (2 ^ 32 - 1) n ltac:(lia)). nia.
  - pose proof (Z.mul_div_le (2 ^ 32 - 1) n ltac:(lia)). nia.
Qed.

Lemma finish_sized t n s b : 0 <= n <= UINT32_MAX → 0 <= s → size_result (Some (n * s)) (finish_size (mkRs t n s None b)).
Proof.
  intros Hn Hs. unfold finish_size. cbn [rs_ret rs_size rs_nelems]. destruct (Z.ltb_spec s 0); [lia|].
  rewrite mul_check by lia. unfold size_result. case Z.ltb_spec; intros H'; [right|left]; (split; [done|lia]) || (split; [lia|done]).
Qed.

Lemma size_from_nonneg fuel b : ∀ t n, btf_ok b → ptr_ok b → valid t → size_from fuel b t = Some n → 0 <= n.
Proof.
  induction fuel as [|fuel IH]; intros t n Hok Hp Hv H; [done|]. destruct t as [[|mem off]|]; [done| |done]. set (t := TypeAt mem off) in *.
  destruct Hv as [r Hr]. destruct (record_info t r Hr) as (info & Hinfo & _ & [|Hsize]); [done|].
  destruct (record_size t r Hr) as (w & Hw & Hwok). unfold rec_size in Hsize. cbn [size_from] in H. fold t in H. unfold btf_kind in H. rewrite Hinfo in H. cbn [mbind option_bind] in H.
  assert (∀ id t', btf__type_by_id b id = Some t' → 0 <= id → valid t') as Hby.
  { intros id t' Et' Hid. destruct (type_by_id_valid b id Hok Hid) as (t2 & E2 & Hv2 & _). by simplify_eq. }
  set (k := kind_of_num _) in *. destruct (class_of k) eqn:Ec.
  - rewrite Hw in H. injection H as <-. unfold word_ok in Hwok. lia.
  - destruct (btf_ptr_sz_ok b Hok Hp) as (p & b' & _ & Hp48 & Ep & _). rewrite <- Ep in H. injection H as <-. lia.
  - unfold t_size in Hw. unfold t_type in H. rewrite Hw in H. cbn [mbind option_bind] in H.
    destruct (btf__type_by_id b w) as [t'|] eqn:Et; [|done]. cbn [mbind option_bind] in H.
    apply (IH t' n Hok Hp); [|done]. apply (Hby w); [done|unfold word_ok in *; lia].
  - assert (k = ARRAY) as Ek by (destruct k; done). rewrite Ek in Hsize.
    destruct (record_word t r 5 Hr ltac:(lia) ltac:(lia)) as (m & Em & Hm & _).
    destruct (record_word t r 3 Hr ltac:(lia) ltac:(lia)) as (id & Eid & Hid & _). rewrite Em, Eid in H. cbn [mbind option_bind] in H.
    destruct (btf__type_by_id b id) as [t'|] eqn:Et; [|done]. cbn [mbind option_bind] in H.
    destruct (size_from fuel b t') as [n'|] eqn:En; [|done]. injection H as <-.
    unfold word_ok in *. apply Z.mul_nonneg_nonneg; [lia|]. apply (IH t' n' Hok Hp); [|done]. apply (Hby id); [done|lia].
  - done.
Qed.

(** The state of the loop before iteration [i]. *)
Record resolve_inv (b0 : btf) (want : option Z) (i : Z) (s : rs_state) : Prop := {
  ri_valid : valid (rs_t s);
  ri_nelems : 0 <= rs_nelems s <= UINT32_MAX;
  ri_state : rs_size s = -1 ∧ rs_ret s = None ∧ rs_btf s = b0;
  ri_want : remaining (Z.to_nat (MAX_RESOLVE_DEPTH - i)) s = want;
}.

(** One turn of the loop keeps what is wanted or ends with it. *)
Lemma resolve_size_step b0 want i s :
  btf_ok b0 → ptr_ok b0 → 0 <= i < MAX_RESOLVE_DEPTH → resolve_inv b0 want i s →
  ∃ c, resolve_size_body i s = Some c ∧
    match c with Next s' => resolve_inv b0 want (i + 1) s' | Break s' => size_result want (finish_size s') ∧ same b0 (rs_btf s') end.
Proof.
  intros Hok Hp Hi [Hv Hn (Hsz & Hret & Hb) Hw]. destruct s as [t nelems size ret b]. cbn [rs_t rs_nelems rs_size rs_ret rs_btf] in *.
  subst size ret b. unfold resolve_size_body. unfold remaining in Hw. cbn [rs_t rs_nelems rs_btf] in *.
  replace (Z.to_nat (MAX_RESOLVE_DEPTH - i)) with (S (Z.to_nat (MAX_RESOLVE_DEPTH - (i + 1)))) in * by lia.
  set (fuel := Z.to_nat (MAX_RESOLVE_DEPTH - (i + 1))) in *.
  destruct t as [[|mem off]|]; cbn [btf_type_is_void_or_null btf_type_is_void mbind option_bind];
    [eexists; split; [done|]; split; [subst want; by left|done]| |eexists; split; [done|]; split; [subst want; by left|done]].
  set (t := TypeAt mem off) in *. destruct Hv as [r Hr]. destruct (record_info t r Hr) as (info & Hinfo & Hok' & Hsize).
  destruct Hsize as [|Hsize]; [done|]. unfold btf_is_fwd, is_kind. pose proof (record_bytes t r Hr) as [_ Hlen].
  assert (btf_kind t = Some (kind_of_num (BTF_INFO_KIND info))) as Hk by (unfold btf_kind; by rewrite Hinfo).
  unfold rec_size in Hsize. set (k := kind_of_num (BTF_INFO_KIND info)) in *. cbn [size_from] in Hw. fold t in Hw. rewrite Hk in Hw |- *.
  cbn [mbind option_bind] in Hw |- *. destruct (record_size t r Hr) as (w & Hw2 & Hwok).
  assert (∀ id', 0 <= id' → ∃ t', btf__type_by_id b0 id' = Some t' ∧ valid t') as Hby.
  { intros id' Hid. destruct (type_by_id_valid b0 id' Hok Hid) as (t' & Ht' & Hv' & _). by exists t'. }
  assert (∀ n', 0 <= n' <= UINT32_MAX → 0 <= nelems * n' <= UINT32_MAX → u32 (nelems * n') = nelems * n') as Hu.
  { intros n' _ Hn'. apply u32_small. unfold word_ok, UINT32_MAX in *. lia. }
  case_bool_decide as Ef; [rewrite Ef in Hw; eexists; split; [done|]; split; [subst want; by left|done]|].
  destruct (class_of k) eqn:Ec.
  - rewrite Hw2 in Hw. cbn [mbind option_bind] in Hw.
    exists (Break (mkRs (Some t) nelems w None b0)). split; [rewrite Hw2; by destruct k|].
    split; [subst want; apply finish_sized; [done|unfold word_ok in *; lia]|done].
  - destruct (btf_ptr_sz_ok b0 Hok Hp) as (p & b' & Eb & Hp48 & Ep & Hs & _). cbn [mbind option_bind] in Hw. rewrite <- Ep in Hw.
    exists (Break (mkRs (Some t) nelems p None b')). split; [rewrite Eb; by destruct k|].
    split; [subst want; apply finish_sized; [done|lia]|done].
  - unfold t_size in Hw2. unfold t_type in Hw. rewrite Hw2 in Hw. cbn [mbind option_bind] in Hw.
    destruct (Hby w) as (t' & Et' & Hv'); [unfold word_ok in *; lia|]. rewrite Et' in Hw. cbn [mbind option_bind] in Hw.
    exists (Next (mkRs t' nelems (-1) None b0)). split.
    { unfold t_type. rewrite Hw2. cbn [mbind option_bind]. rewrite Et'. by destruct k. }
    by split.
  - assert (k = ARRAY) as Ek by (destruct k; done). rewrite Ek in Hsize |- *.
    destruct (record_word t r 5 Hr ltac:(lia) ltac:(lia)) as (m & Hm & Hmok & _).
    destruct (record_word t r 3 Hr ltac:(lia) ltac:(lia)) as (id' & Hid' & Hidok & _).
    rewrite Hm, Hid' in *. cbn [mbind option_bind] in *. destruct (Hby id') as (t' & Et' & Hv'); [unfold word_ok in *; lia|].
    rewrite Et' in *. cbn [mbind option_bind] in *. rewrite mul_check by (unfold word_ok in *; lia).
    case Z.ltb_spec; intros Hov.
    + eexists. split; [done|]. split; [|done]. unfold finish_size. cbn [rs_ret]. subst want.
      destruct (size_from fuel b0 t') as [n|] eqn:En; cbn; [right|by right]. split; [done|].
      pose proof (size_from_nonneg fuel b0 t' n Hok Hp Hv' En). destruct (decide (n = 0)) as [->|]; [right; lia|left]. nia.
    + eexists. split; [done|]. rewrite Hu by (unfold word_ok, UINT32_MAX in *; lia). split; cbn; try done; [unfold word_ok in *; lia|].
      unfold remaining. cbn. fold fuel. rewrite <- Hw. destruct (size_from fuel b0 t'); [|done]. cbn. f_equal. lia.
  - cbn [mbind option_bind] in Hw. eexists. split; [destruct k; done|]. split; [subst want; by left|done].
Qed.

(** A step of the option monad by rewriting, which does not evaluate what follows. *)
Lemma bind_Some {A B} (f : A → option B) x : (Some x ≫= f) = f x.
Proof. reflexivity. Qed.

Lemma resolve_loop b t want :
  btf_ok b → ptr_ok b → valid t → size_from (Z.to_nat MAX_RESOLVE_DEPTH) b t = want →
  ∃ s, for_loop 0 MAX_RESOLVE_DEPTH resolve_size_body (mkRs t 1 (-1) None b) = Some s ∧ size_result want (finish_size s) ∧ same b (rs_btf s).
Proof.
  intros Hok Hp Hv Hw.
  destruct (for_loop_inv_break (resolve_inv b want) (λ s, size_result want (finish_size s) ∧ same b (rs_btf s)) resolve_size_body 0
    MAX_RESOLVE_DEPTH (mkRs t 1 (-1) None b)) as (s & E & Hs).
  - done.
  - intros i s Hi Hinv. by apply resolve_size_step.
  - split; [exact Hv|done|done|]. unfold remaining. cbn [rs_t rs_nelems rs_btf]. rewrite Z.sub_0_r, Hw. clear Hw.
    destruct want as [n|]; [|reflexivity]. cbn [mbind option_bind]. by rewrite Z.mul_1_l.
  - exists s. split; [exact E|]. destruct Hs as [Hs|Hs]; [|exact Hs]. clear Hw.
    destruct Hs as [_ _ (Hsz & Hr & Hb) Hw]. rewrite Hb. split; [|reflexivity]. unfold remaining in Hw. rewrite Z.sub_diag in Hw.
    change (Z.to_nat 0) with O in Hw. cbn [size_from mbind option_bind] in Hw. rewrite <- Hw. left. unfold finish_size. by rewrite Hr, Hsz.
Qed.

#[local] Opaque for_loop size_from.

(** C15: [btf__resolve_size] returns on every object and identifier.  When the
    recursive definition gives a size within the 32 steps that are allowed, the
    result is that size if it fits in 32 bits; [- E2BIG] is returned when it does
    not fit, and perhaps for the size 0; all else is an error. *)
Theorem btf__resolve_size_spec b id :
  btf_ok b → ptr_ok b → 0 <= id →
  ∃ r b', btf__resolve_size b id = Some (r, b') ∧ same b b'
    ∧ match size_of (Z.to_nat MAX_RESOLVE_DEPTH) b id with
      | Some n => n <= UINT32_MAX ∧ r = n ∨ r = - E2BIG ∧ (UINT32_MAX < n ∨ n = 0)
      | None => r = - EINVAL ∨ r = - E2BIG
      end.
Proof.
  intros Hok Hp Hid. unfold btf__resolve_size, size_of. destruct (type_by_id_valid b id Hok Hid) as (t & -> & Hv & _). rewrite !bind_Some.
  remember (size_from (Z.to_nat MAX_RESOLVE_DEPTH) b t) as want eqn:Ew.
  destruct (resolve_loop b t want Hok Hp Hv (eq_sym Ew)) as (s & -> & Hr & Hs). rewrite bind_Some.
  exists (finish_size s), (rs_btf s). clear Ew. split; [reflexivity|]. split; [exact Hs|exact Hr].
Qed.

#[local] Transparent for_loop size_from.

Lemma sample_ptr_ok : ptr_ok sample_btf.
Proof. split; cbn; auto. Qed.

(** The typedef of an array of three structures of four bytes. *)
Lemma btf__resolve_size_spec_witness : ∃ b', btf__resolve_size sample_btf 4 = Some (12, b') ∧ same sample_btf b'.
Proof.
  destruct (btf__resolve_size_spec sample_btf 4 sample_ok sample_ptr_ok) as (r & b' & E & Hs & Hr); [lia|].
  exists b'. assert (size_of (Z.to_nat MAX_RESOLVE_DEPTH) sample_btf 4 = Some 12) as Es by (vm_compute; reflexivity).
  rewrite Es in Hr. destruct Hr as [[_ ->]|[_ [H|H]]]; [by split|vm_compute in H; discriminate H|discriminate H].
Defined.

(** ** Alignments *)

(** The types whose alignment decides the alignment of [id]. *)
Definition refs (b : btf) (id' id : Z) : Prop :=
  ∃ t k, btf__type_by_id b id = Some (Some t) ∧ btf_kind t = Some k ∧
    match k with
    | TYPEDEF | VOLATILE | CONST | RESTRICT | TYPE_TAG => t_type t = Some id'
    | ARRAY => t_word t 3 = Some id'
    | STRUCT | UNION => ∃ vlen i, btf_vlen t = Some vlen ∧ 0 <= i < vlen ∧ m_word t i 1 = Some id'
    | _ => False
    end.

Definition closed (b : btf) : Prop := ∀ id id', refs b id' id → id' < btf__type_cnt b.

(** The object while alignments are computed. *)
Definition good (b b2 : btf) : Prop := same b b2 ∧ btf_ok b2 ∧ ptr_ok b2.

(** The call [al] returns [a] for [id]; the code does so with enough stack. *)
Definition gives (b : btf) (al : btf → Z → option (Z * btf)) (id a : Z) : Prop :=
  ∀ b2, good b b2 → ∃ b3, al b2 id = Some (a, b3) ∧ good b b3.
Definition align_val (b : btf) (id a : Z) : Prop := ∃ n, ∀ fuel, (n <= fuel)%nat → gives b (btf__align_of fuel) id a.

(** A member that is no bit field lies at a multiple of its alignment. *)
Definition misaligned (t : type_ptr) (i a : Z) : bool :=
  bool_decide (btf_member_bitfield_size t i = Some 0) && negb (default 0 (m_word t i 2) mod (8 * a) =? 0).

(** What the loop over the members makes of their alignments. *)
Fixpoint scan (t : type_ptr) (i max_align : Z) (als : list Z) : Z * option Z :=
  match als with
  | [] => (max_align, None)
  | a :: als =>
      if a <=? 0 then (max_align, Some a) else
      if misaligned t i a then (Z.max max_align a, Some 1) else scan t (i + 1) (Z.max max_align a) als
  end.

Definition members_ok (b : btf) (al : btf → Z → option (Z * btf)) (t : type_ptr) (i : Z) (als : list Z) : Prop :=
  ∀ j a, als !! j = Some a → ∃ id, m_word t (i + Z.of_nat j) 1 = Some id ∧ gives b al id a
    ∧ (∃ w, m_word t (i + Z.of_nat j) 2 = Some w) ∧ ∃ bits, btf_member_bitfield_size t (i + Z.of_nat j) = Some bits.

Lemma align_loop b al t als : ∀ i m b2,
  members_ok b al t i als → good b b2 →
  ∃ b3, for_up (length als) i (align_body al t) (m, None, b2) = Some (scan t i m als, b3) ∧ good b b3.
Proof.
  induction als as [|a als IH]; intros i m b2 Hm Hg; [by exists b2|]. cbn [length for_up scan].
  destruct (Hm O a eq_refl) as (id & Hid & Hgive & [w Hw] & [bits Hbits]). change (Z.of_nat 0) with 0 in *. rewrite !Z.add_0_r in *.
  destruct (Hgive b2 Hg) as (b3 & Hal & Hg3).
  assert (align_body al t i (m, None, b2) = Some (if a <=? 0 then Break (m, Some a, b3) else
    if misaligned t i a then Break (Z.max m a, Some 1, b3) else Next (Z.max m a, None, b3))) as ->.
  { unfold align_body. rewrite Hid, bind_Some, Hal, bind_Some. destruct (a <=? 0); [done|].
    rewrite Hbits, bind_Some, Hw, bind_Some. unfold misaligned. rewrite Hw, Hbits. cbn [default].
    assert (bool_decide (Some bits = Some 0) = (bits =? 0)) as ->; [|by destruct ((bits =? 0) && _)].
    destruct (Z.eqb_spec bits 0) as [->|Hne]; [by apply bool_decide_eq_true|]. apply bool_decide_eq_false. congruence. }
  rewrite bind_Some. destruct (a <=? 0); [by exists b3|]. destruct (misaligned t i a); [by exists b3|]. apply IH; [|done].
  intros j a' Hj. destruct (Hm (S j) a' Hj) as (id' & H1 & H2 & H3 & H4). replace (i + Z.of_nat (S j)) with (i + 1 + Z.of_nat j) in * by lia.
  by exists id'.
Qed.

(** All members are aligned, and with them the size. *)
Definition natural (t : type_ptr) (size : Z) (als : list Z) : Prop :=
  (∀ i a, als !! i = Some a → misaligned t (Z.of_nat i) a = false) ∧ size mod foldr Z.max 1 als = 0.

(** The alignment of a structure, from the alignments of its members: the
    largest, or 1 when a member or the size is not aligned. *)
Definition composite_align (t : type_ptr) (size : Z) (als : list Z) (a : Z) : Prop :=
  (Forall (λ x, 0 < x) als → (natural t size als → a = foldr Z.max 1 als) ∧ (¬ natural t size als → a = 1))
  ∧ (¬ Forall (λ x, 0 < x) als → a = 0 ∨ a = 1).

Definition scan_result (size : Z) (r : Z * option Z) : Z :=
  match r.2 with Some ret => ret | None => if negb (size mod r.1 =? 0) then 1 else r.1 end.

Lemma foldr_max_pos m als : 0 < m → 0 < foldr Z.max m als.
Proof. intros Hm. induction als as [|a als IH]; cbn; lia. Qed.

Lemma foldr_max_cons m a als : foldr Z.max (Z.max m a) als = Z.max a (foldr Z.max m als).
Proof. induction als as [|x als IH]; cbn; [lia|]. rewrite IH. lia. Qed.

Lemma scan_spec t size als : ∀ i m,
  0 < m → Forall (λ x, 0 <= x) als →
  let a := scan_result size (scan t i m als) in
  (Forall (λ x, 0 < x) als →
     ((∀ j x, als !! j = Some x → misaligned t (i + Z.of_nat j) x = false) ∧ size mod foldr Z.max m als = 0 → a = foldr Z.max m als)
     ∧ (¬ ((∀ j x, als !! j = Some x → misaligned t (i + Z.of_nat j) x = false) ∧ size mod foldr Z.max m als = 0) → a = 1))
  ∧ (¬ Forall (λ x, 0 < x) als → a = 0 ∨ a = 1) ∧ 0 <= a.
Proof.
  induction als as [|x als IH]; intros i m Hm Hals; cbn [scan].
  - cbn. unfold scan_result. cbn. destruct (Z.eqb_spec (size mod m) 0); cbn [negb]; (split; [|split; [|lia]]).
    + intros _. split; [done|]. intros Hn. destruct Hn. split; [|done]. intros j y Hj. by destruct j.
    + intros Hn. destruct Hn. constructor.
    + intros _. split; [intros [_ ?]; done|done].
    + by right.
  - apply Forall_cons_iff in Hals as [Hx Hals]. destruct (Z.leb_spec x 0) as [Hx0|Hx0].
    { unfold scan_result. cbn. split_and!; [|intros _; lia|lia]. intros Hp. apply Forall_cons_iff in Hp as [? _]. lia. }
    destruct (misaligned t i x) eqn:Emis.
    { unfold scan_result. cbn [snd]. split_and!; [|by right|lia]. intros _. split; [|done]. intros [H _]. specialize (H O x eq_refl).
      change (Z.of_nat 0) with 0 in H. rewrite Z.add_0_r in H. congruence. }
    destruct (IH (i + 1) (Z.max m x) ltac:(lia) Hals) as (H1 & H2 & H3). rewrite foldr_max_cons in H1. cbn [foldr].
    assert ((∀ j y, (x :: als) !! j = Some y → misaligned t (i + Z.of_nat j) y = false) ↔ (∀ j y, als !! j = Some y → misaligned t (i + 1 + Z.of_nat j) y = false)) as Hiff.
    { split; intros H j y Hj.
      - replace (i + 1 + Z.of_nat j) with (i + Z.of_nat (S j)) by lia. by apply H.
      - destruct j as [|j]; [injection Hj as <-; change (Z.of_nat 0) with 0; by rewrite Z.add_0_r|].
        replace (i + Z.of_nat (S j)) with (i + 1 + Z.of_nat j) by lia. by apply H. }
    split_and!; [|intros Hn; apply H2; intros Hp; apply Hn; by constructor|done].
    intros Hp. apply Forall_cons_iff in Hp as [_ Hp]. rewrite Hiff. by apply H1.
Qed.

Lemma finite_choice {A} (P : nat → A → Prop) n : (∀ i, (i < n)%nat → ∃ a, P i a) → ∃ l, length l = n ∧ ∀ i a, l !! i = Some a → P i a.
Proof.
  induction n as [|n IH]; intros H; [by exists []|]. destruct IH as (l & Hl & Hp); [intros i Hi; apply H; lia|].
  destruct (H n ltac:(lia)) as [a Ha]. exists (l ++ [a]). rewrite length_app, Hl. split; [cbn; lia|].
  intros i x Hx. apply lookup_app_Some in Hx as [Hx|[Hi Hx]]; [by apply Hp|].
  destruct (i - length l)%nat eqn:E; [|done]. injection Hx as <-. by replace i with n by lia.
Qed.

Lemma finite_fuel {A} (Q : nat → nat → A → Prop) (l : list A) :
  (∀ i a, l !! i = Some a → ∃ n, ∀ fuel, (n <= fuel)%nat → Q fuel i a) →
  ∃ n, ∀ fuel i a, (n <= fuel)%nat → l !! i = Some a → Q fuel i a.
Proof.
  revert Q. induction l as [|x l IH]; intros Q H; [by exists O|].
  destruct (IH (λ fuel i a, Q fuel (S i) a)) as [n Hn]; [intros i a Hi; by apply (H (S i) a)|].
  destruct (H O x eq_refl) as [m Hm]. exists (n + m)%nat. intros fuel [|i] a Hf Hi; [injection Hi as <-; apply Hm; lia|].
  apply (Hn fuel i a); [lia|done].
Qed.

(** The rules of alignments: scalars are aligned to their size, at most to that
    of a pointer; a reference is aligned as what it refers to. *)
Definition align_law (b : btf) (t : type_ptr) (k : kind) (a : Z) : Prop :=
  match k with
  | INT | ENUM | ENUM64 | FLOAT => ∃ size, t_size t = Some size ∧ a = Z.min (ptr_bytes b) size
  | PTR => a = ptr_bytes b
  | TYPEDEF | VOLATILE | CONST | RESTRICT | TYPE_TAG => ∃ id', t_type t = Some id' ∧ align_val b id' a
  | ARRAY => ∃ id', t_word t 3 = Some id' ∧ align_val b id' a
  | STRUCT | UNION =>
      ∃ size als, t_size t = Some size ∧ btf_vlen t = Some (zlen als)
        ∧ (∀ i a, als !! i = Some a → ∃ id', m_word t (Z.of_nat i) 1 = Some id' ∧ align_val b id' a) ∧ composite_align t size als a
  | _ => a = 0
  end.

Lemma gives_S b fuel id t k a :
  btf__type_by_id b id = Some (Some t) → btf_kind t = Some k →
  (∀ b2, good b b2 → ∃ b3, match k with
     | INT | ENUM | ENUM64 | FLOAT => '(p, b) ← btf_ptr_sz b2; size ← t_size t; Some (Z.min p size, b)
     | PTR => btf_ptr_sz b2
     | TYPEDEF | VOLATILE | CONST | RESTRICT | TYPE_TAG => id ← t_type t; btf__align_of fuel b2 id
     | ARRAY => id ← t_word t 3; btf__align_of fuel b2 id
     | STRUCT | UNION =>
         vlen ← btf_vlen t;
         '(max_align, ret, b) ← for_loop 0 vlen (align_body (btf__align_of fuel) t) (1, None, b2);
         match ret with
         | Some ret => Some (ret, b)
         | None => size ← t_size t; Some (if negb (size mod max_align =? 0) then 1 else max_align, b)
         end
     | _ => Some (0, b2)
     end = Some (a, b3) ∧ good b b3) →
  gives b (btf__align_of (S fuel)) id a.
Proof.
  intros Ht Hk H b2 Hg. destruct (H b2 Hg) as (b3 & E & Hg3). exists b3. split; [|done]. rewrite <- E.
  cbn [btf__align_of]. rewrite <- (same_type_by_id b b2 id) by apply Hg. rewrite Ht, !bind_Some, Hk, bind_Some. by destruct k.
Qed.

Lemma gives_ptr b b2 : good b b2 → ∃ b3, btf_ptr_sz b2 = Some (ptr_bytes b, b3) ∧ good b b3.
Proof.
  intros (Hs & Hok & Hp). destruct (btf_ptr_sz_ok b2 Hok Hp) as (p & b3 & -> & _ & -> & Hs3 & Hok3 & Hp3). exists b3.
  pose proof Hs as [_ E]. rewrite E. split; [done|]. split; [|done]. by transitivity b2.
Qed.

(** The members of a structure. *)
Lemma members_vals b t r info :
  record_at t r → t_info t = Some info → rec_size info = 12 + BTF_INFO_VLEN info * 12 → rec_size info = zlen r →
  (∀ i id, 0 <= i < BTF_INFO_VLEN info → m_word t i 1 = Some id → 0 <= id → ∃ a, align_val b id a ∧ 0 <= a) →
  ∃ als, zlen als = BTF_INFO_VLEN info ∧ Forall (λ x, 0 <= x) als
    ∧ (∀ i a, als !! i = Some a → ∃ id', m_word t (Z.of_nat i) 1 = Some id' ∧ align_val b id' a)
    ∧ ∃ n, ∀ fuel, (n <= fuel)%nat → members_ok b (btf__align_of fuel) t 0 als.
Proof.
  intros Hr Hi Hs Hlen Hval. pose proof (vlen_range info) as Hv. destruct (record_info t r Hr) as (info' & Hi' & Hok & _). simplify_eq.
  specialize (Hv ltac:(unfold word_ok in Hok; lia)).
  assert (∀ i w, 0 <= i < BTF_INFO_VLEN info → 0 <= w < 3 → ∃ x, m_word t i w = Some x ∧ word_ok x) as Hword.
  { intros i w Hi0 Hw. destruct (record_word t r (3 + 3 * i + w) Hr ltac:(lia) ltac:(lia)) as (x & Hx & Hxok & _). by exists x. }
  destruct (finite_choice (λ i a, 0 <= a ∧ ∃ id', m_word t (Z.of_nat i) 1 = Some id' ∧ align_val b id' a) (Z.to_nat (BTF_INFO_VLEN info))) as (als & Hl & Hals).
  { intros i Hlt. destruct (Hword (Z.of_nat i) 1 ltac:(lia) ltac:(lia)) as (id & Hid & Hidok).
    destruct (Hval (Z.of_nat i) id ltac:(lia) Hid) as (a & Ha & Ha0); [unfold word_ok in *; lia|]. exists a. split; [done|]. by exists id. }
  exists als. split; [lia|]. split; [apply Forall_lookup_2; intros i a Ha; by destruct (Hals i a Ha)|].
  split; [intros i a Ha; by destruct (Hals i a Ha)|].
  destruct (finite_fuel (λ fuel i a, ∃ id', m_word t (Z.of_nat i) 1 = Some id' ∧ gives b (btf__align_of fuel) id' a) als) as [n Hn].
  { intros i a Ha. destruct (Hals i a Ha) as (_ & id' & Hid & [n Hn]). exists n. intros fuel Hf. exists id'. split; [done|by apply Hn]. }
  exists n. intros fuel Hf j a Hj. pose proof (lookup_lt_Some _ _ _ Hj). destruct (Hn fuel j a Hf Hj) as (id' & Hid & Hg). exists id'.
  rewrite Z.add_0_l. split; [done|]. split; [done|]. destruct (Hword (Z.of_nat j) 2 ltac:(lia) ltac:(lia)) as (w & Hw & _).
  split; [by exists w|]. unfold btf_member_bitfield_size, btf_kflag. rewrite Hi, !bind_Some. destruct (negb _); [|by eexists].
  rewrite Hw. by eexists.
Qed.

(** One type, when the types it refers to have their alignments. *)
Section align_type.
Context (b : btf) (id : Z) (t : type_ptr) (r : list Z) (info : Z).
Hypothesis Hbok : btf_ok b.
Hypothesis Hbp : ptr_ok b.
Hypothesis Ht : btf__type_by_id b id = Some (Some t).
Hypothesis Hr : record_at t r.
Hypothesis Hi : t_info t = Some info.
Hypothesis IH : ∀ id', refs b id' id → 0 <= id' → ∃ a, align_val b id' a ∧ 0 <= a.

Lemma kind_info k : btf_kind t = Some k → kind_of_num (BTF_INFO_KIND info) = k.
Proof. unfold btf_kind. rewrite Hi, bind_Some. by intros [= ->]. Qed.

Lemma align_val_S a : (∃ n, ∀ fuel, (n <= fuel)%nat → gives b (btf__align_of (S fuel)) id a) → align_val b id a.
Proof. intros [n Hn]. exists (S n). intros [|fuel] Hf; [lia|]. apply Hn. lia. Qed.

Lemma void_kind k : btf_kind t = Some k → t = VoidType → k = UNKN.
Proof. intros Hk ->. vm_compute in Hk. congruence. Qed.

Lemma align_none k : btf_kind t = Some k → class_of k = NoSize ∨ In k [VAR; DECL_TAG; DATASEC] → align_val b id 0 ∧ align_law b t k 0.
Proof.
  intros Hkind Hk. split; [|by destruct k; cbn in Hk; intuition congruence]. apply align_val_S. exists O. intros fuel _. apply (gives_S b fuel id t k 0 Ht Hkind).
  intros b2 Hg. exists b2. split; [|done]. destruct k; cbn in Hk; intuition congruence.
Qed.

Lemma align_scalar k : btf_kind t = Some k → In k [INT; ENUM; ENUM64; FLOAT; PTR] → ∃ a, align_val b id a ∧ 0 <= a ∧ align_law b t k a.
Proof.
  intros Hkind Hk. destruct (record_size t r Hr) as (w & Hw & Hwok). destruct (btf_ptr_sz_ok b Hbok Hbp) as (p & _ & _ & Hp & Ep & _).
  exists (if bool_decide (k = PTR) then ptr_bytes b else Z.min (ptr_bytes b) w). split_and!.
  - apply align_val_S. exists O. intros fuel _. apply (gives_S b fuel id t k _ Ht Hkind). intros b2 Hg.
    destruct (gives_ptr b b2 Hg) as (b3 & E & Hg3). exists b3. split; [|done].
    cbn in Hk. destruct Hk as [<-|[<-|[<-|[<-|[<-|[]]]]]]; rewrite E; [..|done]; rewrite bind_Some, Hw; done.
  - unfold word_ok in Hwok. case_bool_decide; lia.
  - cbn in Hk. destruct Hk as [<-|[<-|[<-|[<-|[<-|[]]]]]]; [..|done]; by exists w.
Qed.

Lemma align_ref k : btf_kind t = Some k → In k [TYPEDEF; VOLATILE; CONST; RESTRICT; TYPE_TAG; ARRAY] → t = VoidType ∨ rec_size info = zlen r → ∃ a, align_val b id a ∧ 0 <= a ∧ align_law b t k a.
Proof.
  intros Hkind Hk Hsize.
  assert (∃ id', 0 <= id' ∧ t_word t (if bool_decide (k = ARRAY) then 3 else 2) = Some id' ∧ refs b id' id) as (id' & H0 & Hid & Hrf).
  { case_bool_decide as Ek.
    - destruct Hsize as [E|Hsize]; [apply (void_kind k Hkind) in E; congruence|].
      unfold rec_size in Hsize. rewrite (kind_info k Hkind), Ek in Hsize.
      destruct (record_word t r 3 Hr ltac:(lia) ltac:(lia)) as (id' & Hid & Hok & _). exists id'. split; [unfold word_ok in *; lia|]. split; [done|].
      exists t, k. rewrite Ek. rewrite Ek in Hkind. done.
    - destruct (record_size t r Hr) as (id' & Hid & Hok). exists id'. split; [unfold word_ok in *; lia|]. split; [done|].
      exists t, k. split; [done|]. split; [done|]. cbn in Hk. destruct Hk as [<-|[<-|[<-|[<-|[<-|[Hk|[]]]]]]]; done. }
  destruct (IH id' Hrf H0) as (a & [n Hn] & Ha). exists a. split_and!; [|done|].
  - apply align_val_S. exists n. intros fuel Hf. apply (gives_S b fuel id t k a Ht Hkind). intros b2 Hg.
    destruct (Hn fuel Hf b2 Hg) as (b3 & E & Hg3). exists b3. split; [|done]. rewrite <- E.
    cbn in Hk. unfold t_type. destruct Hk as [<-|[<-|[<-|[<-|[<-|[<-|[]]]]]]];
      [rewrite bool_decide_false in Hid by done..|rewrite bool_decide_true in Hid by done]; rewrite Hid, bind_Some; reflexivity.
  - cbn in Hk. destruct Hk as [<-|[<-|[<-|[<-|[<-|[<-|[]]]]]]];
      [rewrite bool_decide_false in Hid by done..|rewrite bool_decide_true in Hid by done]; exists id'; (split; [exact Hid|by exists n]).
Qed.

Lemma align_composite k : btf_kind t = Some k → In k [STRUCT; UNION] → t = VoidType ∨ rec_size info = zlen r → ∃ a, align_val b id a ∧ 0 <= a ∧ align_law b t k a.
Proof.
  intros Hkind Hk Hsize. destruct (record_size t r Hr) as (size & Hw & Hwok).
  destruct Hsize as [E|Hsize].
  { apply (void_kind k Hkind) in E. subst k. cbn in Hk. intuition congruence. }
  assert (rec_size info = 12 + BTF_INFO_VLEN info * 12) as Hrs.
  { unfold rec_size. rewrite (kind_info k Hkind). cbn in Hk. destruct Hk as [<-|[<-|[]]]; done. }
  assert (btf_vlen t = Some (BTF_INFO_VLEN info)) as Hvl by (unfold btf_vlen; by rewrite Hi).
  destruct (members_vals b t r info Hr Hi Hrs Hsize) as (als & Hl & Hnn & Hals & n & Hn).
  { intros i id' Hlt Hid H0. apply IH; [|done]. exists t, k. split; [done|]. split; [done|].
    cbn in Hk. destruct Hk as [<-|[<-|[]]]; by exists (BTF_INFO_VLEN info), i. }
  pose proof (scan_spec t size als 0 1 ltac:(lia) Hnn) as (Hpos & Hneg & H0). set (a := scan_result size (scan t 0 1 als)) in *.
  exists a. split_and!; [|done|].
  - apply align_val_S. exists n. intros fuel Hf. apply (gives_S b fuel id t k a Ht Hkind). intros b2 Hg.
    destruct (align_loop b (btf__align_of fuel) t als 0 1 b2 (Hn fuel Hf) Hg) as (b3 & E & Hg3). exists b3. split; [|done].
    assert ((vlen ← btf_vlen t; '(max_align, ret, b) ← for_loop 0 vlen (align_body (btf__align_of fuel) t) (1, None, b2);
       match ret with Some ret => Some (ret, b)
       | None => size ← t_size t; Some (if negb (size mod max_align =? 0) then 1 else max_align, b) end) = Some (a, b3)) as Hres.
    { rewrite Hvl, bind_Some. unfold for_loop. rewrite <- Hl, Z.sub_0_r, Nat2Z.id, E, bind_Some. unfold a, scan_result.
      destruct (scan t 0 1 als) as [m [ret|]]; [done|]. by rewrite Hw. }
    cbn in Hk. destruct Hk as [<-|[<-|[]]]; exact Hres.
  - assert (∃ size als, t_size t = Some size ∧ btf_vlen t = Some (zlen als)
        ∧ (∀ i a, als !! i = Some a → ∃ id', m_word t (Z.of_nat i) 1 = Some id' ∧ align_val b id' a) ∧ composite_align t size als a) as Hlaw.
    { exists size, als. rewrite Hl. split_and!; [done|done|done|]. split; [|done]. intros Hp. exact (Hpos Hp). }
    cbn in Hk. destruct Hk as [<-|[<-|[]]]; exact Hlaw.
Qed.
End align_type.

(** C16: when the types that decide the alignment of a type refer to each other
    without a cycle and exist, [btf__align_of] returns: there is a depth of the
    stack from which on its result is the same for the object in any state of
    its pointer size.  The result obeys the rules of alignments; that of a
    structure is the largest alignment of its members when all of them and the
    size are aligned, and else 1. *)
Theorem btf__align_of_spec b id :
  btf_ok b → ptr_ok b → closed b → Acc (refs b) id → 0 <= id < btf__type_cnt b →
  ∃ a t k, align_val b id a ∧ 0 <= a ∧ btf__type_by_id b id = Some (Some t) ∧ btf_kind t = Some k ∧ align_law b t k a.
Proof.
  intros Hok Hp Hcl. induction 1 as [id _ IH]. intros Hid.
  destruct (type_by_id_valid b id Hok ltac:(lia)) as ([t|] & Ht & Hv & Hn); [|exfalso; pose proof (proj1 Hn eq_refl); lia].
  destruct Hv as [r Hr]. destruct (record_info t r Hr) as (info & Hi & Hinfo & Hsize).
  assert (∀ id', refs b id' id → 0 <= id' → ∃ a, align_val b id' a ∧ 0 <= a) as IH'.
  { intros id' Hrf H0. destruct (IH id' Hrf) as (a & _ & _ & Ha & Ha0 & _); [|by exists a]. split; [done|]. by apply (Hcl id). }
  clear IH. assert (∃ k, btf_kind t = Some k) as [k Hk] by (unfold btf_kind; rewrite Hi; by eexists).
  cut (∃ a, align_val b id a ∧ 0 <= a ∧ align_law b t k a); [intros (a & H1 & H2 & H3); by exists a, t, k|].
  pose proof (align_none b id t Ht k Hk) as Hnone. pose proof (align_scalar b id t r Hok Hp Ht Hr k Hk) as Hsc.
  pose proof (align_ref b id t r info Ht Hr Hi IH' k Hk) as Href. pose proof (align_composite b id t r info Ht Hr Hi IH' k Hk) as Hco.
  destruct k; first [by apply Hsc; cbn; tauto | apply Href; [cbn; tauto|exact Hsize] | apply Hco; [cbn; tauto|exact Hsize]
    | exists 0; split; [apply Hnone; cbn; tauto|split; [done|reflexivity]]].
Qed.

(** References that lead to smaller identifiers are well-founded. *)
Lemma refs_acc b : (∀ id id', refs b id' id → 0 <= id' < id) → ∀ id, Acc (refs b) id.
Proof. intros H id. induction id as [id IH] using (well_founded_induction (Z.lt_wf 0)). constructor. intros id' Hr. by apply IH, H. Qed.

(** A typedef of itself, which the parser accepts, has no result at any depth. *)
Lemma align_of_cycle b id t fuel : btf__type_by_id b id = Some (Some t) → btf_kind t = Some TYPEDEF → t_type t = Some id → btf__align_of fuel b id = None.
Proof. intros Ht Hk Hid. induction fuel as [|fuel IH]; [done|]. cbn [btf__align_of]. by rewrite Ht, !bind_Some, Hk, bind_Some, Hid, bind_Some. Qed.

Definition cyclic : list Z :=
  [159; 235; 1; 0; 24; 0; 0; 0; 0; 0; 0; 0; 12; 0; 0; 0; 12; 0; 0; 0; 3; 0; 0; 0; 1; 0; 0; 0; 0; 0; 0; 8; 1; 0; 0; 0; 0; 116; 0].

Lemma align_of_never_returns : ∃ b, btf_new (λ _, true) true true cyclic (zlen cyclic) None = Some (inr b) ∧ ∀ fuel, btf__align_of fuel b 1 = None.
Proof.
  eexists. split; [vm_compute; reflexivity|]. intros fuel. eapply align_of_cycle; [vm_compute; reflexivity|vm_compute; reflexivity|vm_compute; reflexivity].
Qed.

(** An identifier that does not exist is dereferenced as NULL. *)
Lemma align_of_null b id fuel : btf__type_cnt b <= id → btf__align_of fuel b id = None.
Proof.
  intros H. destruct fuel as [|fuel]; [done|]. cbn [btf__align_of]. unfold btf__type_by_id. fold (btf__type_cnt b).
  by destruct (Z.leb_spec (btf__type_cnt b) id); [|lia].
Qed.

Lemma sample_refs id id' : refs sample_btf id' id → 0 <= id' < id ∧ id < 5.
Proof.
  intros (t & k & Ht & Hk & H). assert (id = 0 ∨ id = 1 ∨ id = 2 ∨ id = 3 ∨ id = 4) as Hid.
  { unfold btf__type_by_id in Ht. change (u32 _) with 5 in Ht. destruct (Z.leb_spec 5 id); [done|]. rewrite type_by_id_eq in Ht.
    destruct (Z.eqb_spec id 0); [lia|]. change (u32 (start_id sample_btf)) with 1 in Ht. destruct (Z.ltb_spec id 1); [done|lia]. }
  destruct Hid as [->|[->|[->|[->| ->]]]]; vm_compute in Ht; injection Ht as <-; vm_compute in Hk; injection Hk as <-; try done.
  - destruct H as (v & i & Hv & Hi & Hw). vm_compute in Hv. injection Hv as <-. assert (i = 0) as -> by lia. vm_compute in Hw. injection Hw as <-. lia.
  - vm_compute in H. injection H as <-. lia.
  - vm_compute in H. injection H as <-. lia.
Qed.

(** The array of structures of one integer has the alignment 4. *)
Lemma btf__align_of_spec_witness : ∃ a, align_val sample_btf 4 a ∧ (∃ fuel b', btf__align_of fuel sample_btf 4 = Some (4, b')).
Proof.
  destruct (btf__align_of_spec sample_btf 4) as (a & t & k & Ha & _).
  - exact sample_ok.
  - exact sample_ptr_ok.
  - intros id id' H. apply sample_refs in H. change (btf__type_cnt sample_btf) with 5. lia.
  - apply refs_acc. intros id id' H. apply sample_refs in H. lia.
  - change (btf__type_cnt sample_btf) with 5. lia.
  - exists a. split; [exact Ha|]. exists 5%nat. eexists. vm_compute. reflexivity.
Defined.

(** ** Names *)

(** Type [i] has the name, and the kind when one is asked for. *)
Definition named (b : btf) (i : Z) (name : list Z) : Prop :=
  ∃ t off p, btf__type_by_id b i = Some (Some t) ∧ t_name_off t = Some off ∧ btf__name_by_offset b off = Some (Some p) ∧ c_str p = Some name.
Definition has_kind (b : btf) (i : Z) (kind : Z) : Prop :=
  ∃ t info, btf__type_by_id b i = Some (Some t) ∧ t_info t = Some info ∧ BTF_INFO_KIND info = kind.

(** The first index of a range with a property. *)
Definition first_in (P : Z → Prop) (lo hi r : Z) : Prop :=
  lo <= r < hi ∧ P r ∧ (∀ i, lo <= i < r → ¬ P i) ∨ r = - ENOENT ∧ ∀ i, lo <= i < hi → ¬ P i.

Lemma search_loop (P : Z → Prop) (body : Z → option Z → option (ctl (option Z))) lo hi :
  lo <= hi → hi < 2 ^ 31 → 0 <= lo →
  (∀ i, lo <= i < hi → ∃ found : bool, body i None = Some (if found then Break (Some (s32 i)) else Next None) ∧ (found = true ↔ P i)) →
  ∃ ret, for_loop lo hi body None = Some ret ∧ first_in P lo hi (default (- ENOENT) ret).
Proof.
  intros Hlo Hhi H0 Hbody.
  destruct (for_loop_inv_break (λ i ret, ret = None ∧ ∀ j, lo <= j < i → ¬ P j)
    (λ ret, ∃ r, ret = Some r ∧ lo <= r < hi ∧ P r ∧ ∀ j, lo <= j < r → ¬ P j) body lo hi None) as (ret & E & Hret); [done| | |].
  - intros i s Hi [-> Hno]. destruct (Hbody i Hi) as ([] & -> & Hf); eexists; (split; [done|]).
    + exists (s32 i). rewrite s32_small by lia. split_and!; try lia; try tauto; done.
    + split; [done|]. intros j Hj. destruct (decide (j = i)) as [->|]; [by rewrite <- Hf|apply Hno; lia].
  - split; [done|]. intros j Hj. lia.
  - exists ret. split; [done|]. destruct Hret as [[-> Hno]|(r & -> & Hr & HP & Hno)]; [right|left]; done.
Qed.

Lemma name_is_ok b i t off type_name :
  btf_ok b → btf__type_by_id b i = Some (Some t) → t_name_off t = Some off → word_ok off →
  ∃ eq, name_is b off type_name = Some eq ∧ (eq = true ↔ named b i type_name).
Proof.
  intros Hok Ht Hoff Hw. unfold name_is. destruct (str_by_offset_ok b off Hok Hw) as (p & Hp & Hs). unfold btf__name_by_offset. rewrite Hp, bind_Some.
  destruct p as [p|].
  - destruct Hs as [s Hs]. rewrite Hs, bind_Some. eexists. split; [done|]. rewrite bool_decide_eq_true. split.
    + intros <-. by exists t, off, p.
    + intros (t' & off' & p' & Ht' & Ho' & Hp' & Hs'). unfold btf__name_by_offset in Hp'. simplify_eq. done.
  - exists false. split; [done|]. split; [done|]. intros (t' & off' & p' & Ht' & Ho' & Hp' & Hs'). unfold btf__name_by_offset in Hp'. simplify_eq.
Qed.

(** The words of a type that exists. *)
Lemma type_words b i : btf_ok b → 0 <= i < btf__type_cnt b →
  ∃ t info off, btf__type_by_id b i = Some (Some t) ∧ t_info t = Some info ∧ t_name_off t = Some off ∧ word_ok off.
Proof.
  intros Hok Hi. destruct (type_by_id_valid b i Hok ltac:(lia)) as ([t|] & Ht & Hv & Hn); [|exfalso; pose proof (proj1 Hn eq_refl); lia].
  destruct Hv as [r Hr]. destruct (record_info t r Hr) as (info & Hinfo & _). pose proof (record_bytes t r Hr) as [_ Hl].
  destruct (record_word t r 0 Hr ltac:(lia) ltac:(lia)) as (off & Hoff & Hw & _). by exists t, info, off.
Qed.

(** The searches by name return the first identifier of the range whose
    type has the name (and the kind), and [- ENOENT] exactly when there is none;
    "void" and the kind 0 give 0. *)
Theorem btf_find_by_name_first b type_name kind start :
  btf_ok b → 1 <= start <= btf__type_cnt b →
  (type_name = void_name → btf__find_by_name b type_name = Some 0 ∧ btf_find_by_name_kind b start type_name kind = Some 0)
  ∧ (type_name ≠ void_name →
      (∃ r, btf__find_by_name b type_name = Some r ∧ first_in (λ i, named b i type_name) 1 (btf__type_cnt b) r)
      ∧ (kind ≠ 0 → ∃ r, btf_find_by_name_kind b start type_name kind = Some r
           ∧ first_in (λ i, has_kind b i kind ∧ named b i type_name) start (btf__type_cnt b) r)).
Proof.
  intros Hok Hs. pose proof (own_cnt_range b Hok) as Hc. unfold btf__find_by_name, btf_find_by_name_kind. split.
  { intros ->. rewrite bool_decide_true by done. by rewrite orb_true_r. }
  intros Hne. rewrite bool_decide_false by done. split.
  - destruct (search_loop (λ i, named b i type_name) (find_name_body b type_name) 1 (btf__type_cnt b)) as (ret & -> & Hf); [lia..| |].
    + intros i Hi. destruct (type_words b i Hok ltac:(lia)) as (t & info & off & Ht & _ & Hoff & Hw).
      destruct (name_is_ok b i t off type_name Hok Ht Hoff Hw) as (eq & He & Hiff). exists eq. split; [|done].
      unfold find_name_body. by rewrite Ht, !bind_Some, Hoff, bind_Some, He.
    + rewrite bind_Some. by eexists.
  - intros Hk. destruct (Z.eqb_spec kind 0); [done|]. cbn [orb]. rewrite u32_small by (unfold word_ok; lia).
    destruct (search_loop (λ i, has_kind b i kind ∧ named b i type_name) (find_kind_body b type_name kind) start (btf__type_cnt b)) as (ret & -> & Hf); [lia..| |].
    + intros i Hi. destruct (type_words b i Hok ltac:(lia)) as (t & info & off & Ht & Hinfo & Hoff & Hw).
      unfold find_kind_body. rewrite Ht, !bind_Some, Hinfo, bind_Some. destruct (Z.eqb_spec (BTF_INFO_KIND info) kind) as [E|E]; cbn [negb].
      * destruct (name_is_ok b i t off type_name Hok Ht Hoff Hw) as (eq & He & Hiff). exists eq. rewrite Hoff, bind_Some, He, bind_Some.
        split; [done|]. rewrite Hiff. split; [intros Hn; split; [by exists t, info|done]|by intros [_ ?]].
      * exists false. split; [done|]. split; [done|]. intros [(t' & info' & Ht' & Hi' & Hk') _]. simplify_eq.
    + rewrite bind_Some. by eexists.
Qed.

Lemma btf_find_by_name_first_witness :
  btf__find_by_name sample_btf (cstr "s") = Some 2 ∧ ∃ r, btf__find_by_name sample_btf (cstr "s") = Some r
    ∧ first_in (λ i, named sample_btf i (cstr "s")) 1 (btf__type_cnt sample_btf) r.
Proof.
  split; [vm_compute; reflexivity|]. destruct (btf_find_by_name_first sample_btf (cstr "s") 4 1) as [_ H].
  - exact sample_ok.
  - change (btf__type_cnt sample_btf) with 5. lia.
  - destruct H as [H _]; [vm_compute; discriminate|exact H].
Defined.
