(* ===== verification/BtfBuildCorrect.v ===== *)
(** * Correctness of building BTF

    The functions that add strings, types and members keep the invariant of the
    object, whatever allocation fails, and fail only for arguments that are
    rejected or for a reason listed in [no_memory]; what was built and written
    out, in either byte order, is read back by the parser. *)

From stdpp Require Import gmap.
From S2P Require Import Prelude Hashmap HashmapCorrect Strset StrsetCorrect Bytes Btf BtfBuild BtfRecords BtfCorrect BtfTypes.

Section build.
Variable ext : list Z.
Context (malloc : heap → option Z) (calloc : Z → bool) `{!Allocator malloc calloc}.
Variable realloc : Z → bool.
Variable block : Z → bool.

(** ** What an object is written out as *)

Definition image (hd : btf_header) (rest : list Z) (recs all : list (list Z)) : list Z :=
  hdr_bytes hd ++ rest ++ concat recs ++ pack all.
Definition swapped_image (hd : btf_header) (rest : list Z) (recs all : list (list Z)) : list Z :=
  hdr_bytes (btf_bswap_hdr hd) ++ rest ++ swap_words (concat recs) ++ pack all.

(** The data an object keeps in native byte order. *)
Definition raw_data (b : btf) : option (list Z) := match store b with Contiguous raw _ _ => Some raw | Separate _ _ _ raw => raw end.

Record cached (b : btf) (recs all : list (list Z)) : Prop := {
  ca_native : ∀ raw, raw_data b = Some raw → raw = image (hdr b) (hdr_rest b) recs all ∧ raw_size b = zlen raw;
  ca_swapped : ∀ raw, raw_data_swapped b = Some raw → raw = swapped_image (hdr b) (hdr_rest b) recs all ∧ raw_size b = zlen raw;
}.

(** ** The invariant of an object that is built

    [ext] is what follows the known fields of the header, [recs] are the records,
    [all] the strings, [chs] the chains of the hash map;
    [h0] is the heap without the object.  The type section follows the header
    and the strings follow the types. *)
Record built (h0 : heap) (b : btf) (h : heap) (recs all : list (list Z)) (chs : list (list centry)) : Prop := {
  bt_own : own_ok b recs all;
  bt_base : base_btf b = None;
  bt_ids : start_id b = 1 ∧ start_str_off b = 0;
  bt_hdr : hdr_ok (hdr b);
  bt_hdr_len : hdr_len (hdr b) = sizeof_hdr + zlen (hdr_rest b) ∧ bytes_ok (hdr_rest b);
  bt_tight : type_off (hdr b) = 0 ∧ str_off (hdr b) = type_len (hdr b);
  bt_bytes : Forall bytes_ok all ∧ zlen (pack all) <= BTF_MAX_STR_OFFSET;
  bt_frame : frame h0 [] h chs;
  bt_cache : cached b recs all;
  bt_first : magic (hdr b) = BTF_MAGIC ∧ hd_error all = Some [];
  bt_rest : hdr_rest b = ext;
  bt_store : match store b with
    | Contiguous _ _ _ => chs = []
    | Separate types cap set _ => set_holds set h all chs ∧ strs_data_max_len set = BTF_MAX_STR_OFFSET ∧ zlen types = cap ∧ cap <= UINT32_MAX
    end;
}.

(** An object that is taken apart and keeps no data of what it was. *)
Definition modifiable (b : btf) : Prop := raw_data_swapped b = None ∧ btf_is_modifiable b = true ∧ raw_data b = None.

Lemma modifiable_cached b recs all : modifiable b → cached b recs all.
Proof. intros (H1 & _ & H2). split; by rewrite ?H1, ?H2. Qed.

Lemma modifiable_store b : modifiable b → ∃ types cap set, store b = Separate types cap set None.
Proof.
  intros (_ & Hm & Hr). unfold btf_is_modifiable, raw_data in *. destruct (store b) as [|types cap set [raw|]]; [done..|].
  by exists types, cap, set.
Qed.

Lemma modifiable_with b types cap set hd : modifiable b → modifiable (with_hdr (with_store b (Separate types cap set None)) hd).
Proof. by intros (H & _ & _). Qed.

Lemma modifiable_with_store b types cap set : modifiable b → modifiable (with_store b (Separate types cap set None)).
Proof. by intros (H & _ & _). Qed.

(** An allocation that fails. *)
Definition refused : Prop := memory_short malloc calloc realloc ∨ ∃ n, n < 2 ^ 32 ∧ block n = false.

Lemma refused_realloc : (∃ n, n < 2 ^ 34 ∧ realloc n = false) → refused.
Proof. by left; left. Qed.

Lemma refused_block n : n < 2 ^ 32 → block n = false → refused.
Proof. right. by exists n. Qed.

(** A set from a string section, or the error when memory is short. *)
Lemma strset_new_ok ok1 ok2 ok3 all h :
  Forall nul_free all → zlen (pack all) <= BTF_MAX_STR_OFFSET →
  ∃ r, strset__new malloc calloc ok1 ok2 ok3 BTF_MAX_STR_OFFSET (Some (pack all)) h = Some r ∧
    match r with
    | (inl (err, _), h') => err = - ENOMEM ∧ h' = h ∧ (ok1 && ok2 && ok3 = true → memory_short malloc calloc realloc)
    | (inr set, h') => strs_data_max_len set = BTF_MAX_STR_OFFSET ∧ ∃ chs, set_holds set h' all chs ∧ frame h [] h' chs
    end.
Proof.
  intros Hf Hl. destruct ok1; [|by eexists]. destruct ok2; [|by eexists].
  destruct ok3; [|eexists; split; [vm_compute; reflexivity|done]].
  destruct (new_ok malloc calloc realloc BTF_MAX_STR_OFFSET (Some all) h Hf) as (r & E & Hr); [exact (conj Hl eq_refl)|].
  exists r. split; [exact E|]. destruct r as [[[err freed]|set] h']; [|done]. by destruct Hr as (-> & Hsh & -> & _).
Qed.

(** An object that another one has the same types, strings and header as. *)
Lemma own_ok_store b b' recs all :
  own_ok b recs all → hdr b' = hdr b → type_offs b' = type_offs b → type_offs_cap b' = type_offs_cap b → nr_types b' = nr_types b →
  start_id b' = start_id b → located (types_data b').1 (types_data b').2 (concat recs) →
  located (btf_strs_data b').1 (btf_strs_data b').2 (pack all) → own_ok b' recs all.
Proof. intros [] E1 E2 E3 E4 E5 H1 H2. split; rewrite ?E1, ?E2, ?E3, ?E4, ?E5; done. Qed.

Lemma set_located set h all chs : set_holds set h all chs → located (strs_data set) 0 (pack all).
Proof. intros [_ _ [_ (rest & ->)] _ _ _]. by exists [], rest. Qed.

(** The types and the array of their offsets are the same. *)
Definition keeps_types (b b' : btf) : Prop := types_data b' = types_data b ∧ type_offs b' = type_offs b ∧ type_offs_cap b' = type_offs_cap b.

(** Taking apart succeeds, or nothing is changed. *)
Lemma ensure_modifiable_ok h0 b h recs all chs :
  built h0 b h recs all chs →
  ∃ err b' h' chs', btf_ensure_modifiable malloc calloc block b h = Some (err, b', h') ∧ built h0 b' h' recs all chs'
    ∧ (err = 0 ∧ modifiable b' ∨ err = - ENOMEM ∧ refused) ∧ (modifiable b → err = 0 ∧ keeps_types b b').
Proof.
  intros [Hown Hbase Hids Hhdr Hlen Ht [Hb Hmax] Hfr Hca Hfi Hrest Hst]. unfold btf_ensure_modifiable. destruct (store b) as [raw t s|types cap set raw] eqn:Es.
  - assert (∀ err b', modifiable b → err = 0 ∧ keeps_types b b') as Hno by (intros err b' (_ & Hm' & _); unfold btf_is_modifiable in Hm'; by rewrite Es in Hm').
    subst chs. pose proof (ok_str_max _ _ _ Hown) as Hsm. pose proof (ok_type_max _ _ _ Hown) as Htm.
    destruct (negb (block (hdr_len (hdr b))) || _) eqn:Ea.
    { assert (refused) as Href.
      { pose proof (hk_hdr_len _ Hhdr) as Hw1. pose proof (hk_type_len _ Hhdr) as Hw2. unfold word_ok in Hw1, Hw2. apply orb_true_iff in Ea as [Ea|Ea]; apply negb_true_iff in Ea; (eapply refused_block; [|exact Ea]; lia). }
      exists (- ENOMEM), b, h, []. split; [done|]. split; [split; try done; by rewrite Es|]. split; [by right|apply Hno]. }
    pose proof (ok_types _ _ _ Hown) as Hlt. pose proof (ok_strs _ _ _ Hown) as Hls. unfold types_data, btf_strs_data in Hlt, Hls.
    rewrite Es in Hlt, Hls. cbn [fst snd] in Hlt, Hls.
    rewrite (ok_type_len _ _ _ Hown), (ok_str_len _ _ _ Hown), !Nat2Z.id, (located_list _ _ _ Hlt), bind_Some, (located_list _ _ _ Hls), bind_Some.
    destruct (strset_new_ok (block 40) (block 56) (block (zlen (pack all))) all h (ok_free _ _ _ Hown) Hmax) as ([[[err freed]|set] h'] & -> & Hr);
      rewrite bind_Some.
    { destruct Hr as (-> & -> & Hsh). assert (refused) as Href.
      { destruct (block 40) eqn:B1; [|by eapply refused_block; [|exact B1]]. destruct (block 56) eqn:B2; [|by eapply refused_block; [|exact B2]].
        destruct (block (zlen (pack all))) eqn:B3; [by left; apply Hsh|]. eapply refused_block; [|exact B3]. lia. }
      exists (- ENOMEM), b, h, []. split; [done|]. split; [split; try done; by rewrite Es|]. split; [by right|apply Hno]. }
    destruct Hr as (Hm & chs & Hset & Hf). destruct Hlen as [Hlen Hrb]. rewrite Hlen. destruct (Z.ltb_spec (sizeof_hdr + zlen (hdr_rest b)) sizeof_hdr); [lia|].
    set (b0 := with_store b _). set (b1 := if negb _ && _ then _ else _).
    assert (∃ d, btf_invalidate_raw_data b1 = with_raw (with_deduped b0 d) (raw_size b) None) as [d ->].
    { unfold b1. destruct (negb _ && _), (zlen (pack all) =? 0); (by exists true) || by exists (strs_deduped b). }
    eexists 0, _, h', chs. split; [reflexivity|].
    split; [|split; [by left|apply Hno]]. split; try done.
    + apply (own_ok_store b); try done; [exists [], []; by rewrite app_nil_r|]. exact (set_located _ _ _ _ Hset).
    + by apply (frame_trans _ _ h []).
    + cbn. split; [done|]. split; [done|]. split; [done|]. pose proof (ok_type_max _ _ _ Hown). unfold UINT32_MAX. lia.
  - exists 0, (btf_invalidate_raw_data b), h, chs. split; [done|]. unfold btf_invalidate_raw_data, modifiable, btf_is_modifiable. rewrite Es.
    split; [|split; [by left|intros _; unfold keeps_types, types_data; by rewrite Es]].
    split; try done. apply (own_ok_store b); try done; [pose proof (ok_types _ _ _ Hown) as H|pose proof (ok_strs _ _ _ Hown) as H];
      unfold types_data, btf_strs_data in *; rewrite Es in H; exact H.
Qed.

(** ** Strings *)

Definition name_ok (s : list Z) : Prop := nul_free s ∧ bytes_ok s ∧ zlen s + 1 < 2 ^ 32.

Lemma own_ok_all b recs all all' hd set types cap raw raw' :
  own_ok b recs all → store b = Separate types cap raw raw' → Forall nul_free all' → located (strs_data set) 0 (pack all') → zlen (pack all') <= 2 ^ 31 →
  type_len hd = type_len (hdr b) → str_len hd = zlen (pack all') → own_ok (with_hdr (with_store b (Separate types cap set raw')) hd) recs all'.
Proof.
  intros [H1 H2 H3 H4 H5 H6 H7 H8 H9 H10 H11] Es Hf Hl Hm E1 E2. unfold types_data in H2. rewrite Es in H2. split; try done. cbn. by rewrite E1.
Qed.

Lemma keeps_with b b1 types cap set set' raw : store b1 = Separate types cap set raw → keeps_types b b1 → keeps_types b (with_store b1 (Separate types cap set' raw)).
Proof. intros Es (H1 & H2 & H3). split; [|done]. unfold types_data in H1 |- *. rewrite Es in H1. exact H1. Qed.

Lemma keeps_with_hdr b b1 hd : keeps_types b b1 → keeps_types b (with_hdr b1 hd).
Proof. done. Qed.

(** There is no memory for a string, or no room. *)
Definition str_refused (all : list (list Z)) (s : list Z) : Prop := refused ∨ BTF_MAX_STR_OFFSET < zlen (pack all) + zlen s + 1.

Lemma no_room_refused all s : no_room malloc calloc realloc BTF_MAX_STR_OFFSET all s → str_refused all s.
Proof. intros [H|H]; [by right|by left; left]. Qed.

(** A string is added: its offset is that of its first occurrence. *)
Lemma add_own_str_ok h0 b h recs all chs s :
  built h0 b h recs all chs → name_ok s →
  ∃ off b' h' all' chs', add_own_str malloc calloc realloc block b h s = Some (off, b', h') ∧ built h0 b' h' recs all' chs'
    ∧ (off = - ENOMEM ∧ all' = all ∧ str_refused all s ∧ (modifiable b → modifiable b' ∧ no_room malloc calloc realloc BTF_MAX_STR_OFFSET all s) ∨ offset_of 0 all' s = Some off ∧ 0 <= off < 2 ^ 31 ∧ modifiable b' ∧ (all' = all ∨ offset_of 0 all s = None ∧ all' = all ++ [s]))
    ∧ (modifiable b → keeps_types b b').
Proof.
  intros Hb (Hnul & Hbytes & Hslen). unfold add_own_str.
  destruct (ensure_modifiable_ok _ _ _ _ _ _ Hb) as (err & b1 & h1 & chs1 & -> & Hb1 & Herr & Htd). rewrite bind_Some.
  destruct Herr as [[-> Hmod]|[-> Href]]; [change (negb (0 =? 0)) with false|eexists _, b1, h1, all, chs1; split; [done|]; split; [done|split; [left; split; [done|]; split; [done|]; split; [by left|]; by intros [? _]%Htd|by intros [? _]%Htd]]].
  cbv iota. destruct Hb1 as [Hown Hbase Hids Hhdr Hlen Ht [Hb1 Hmax] Hfr Hca Hfi Hrest Hst]. unfold own_set, with_set.
  destruct (modifiable_store _ Hmod) as (types & cap & set & Es). rewrite Es in Hst |- *. rewrite bind_Some. destruct Hst as (Hset & Hsm & Hcap & Hcm).
  destruct (add_str_ok malloc calloc realloc set h1 all chs1 s Hset Hnul Hslen) as (ret & set' & h2 & all' & chs2 & -> & Hset' & Hf & Hm' & Hret).
  rewrite bind_Some. rewrite Hsm in Hm', Hret.
  assert (Forall nul_free all' ∧ Forall bytes_ok all' ∧ zlen (pack all') <= BTF_MAX_STR_OFFSET
    ∧ (ret = - ENOMEM ∧ all' = all ∧ no_room malloc calloc realloc BTF_MAX_STR_OFFSET all s ∨ offset_of 0 all' s = Some ret ∧ 0 <= ret < 2 ^ 31 ∧ (all' = all ∨ offset_of 0 all s = None ∧ all' = all ++ [s]))) as (Hf' & Hby & Hpm & Hcase).
  { assert (∀ o, offset_of 0 all s = Some o → 0 <= o < 2 ^ 31) as Hrange.
    { intros o Ho. destruct (cstr_at_offset _ _ _ _ (sh_data _ _ _ _ Hset) Ho) as (_ & H0 & H1). unfold BTF_MAX_STR_OFFSET in *. lia. }
    pose proof (ok_free _ _ _ Hown) as Hfree. destruct Hret as [(-> & -> & Hno)|Hret]; [by split_and!; try done; left|].
    destruct (offset_of 0 all s) as [o|] eqn:Eo; [destruct Hret as [-> ->]; split_and!; try done; right; by auto|].
    destruct Hret as (-> & -> & Hfit). assert (offset_of 0 all s = None) as Hnew by done. split_and!; [by apply Forall_app; auto|by apply Forall_app; auto|done|right].
    split; [|split; [unfold BTF_MAX_STR_OFFSET in *; lia|by right]]. rewrite offset_of_app, Eo. cbn. by rewrite bool_decide_true. }
  destruct (Z.ltb_spec ret 0) as [Hneg|Hpos].
  - destruct Hcase as [(-> & -> & Hno)|(_ & ? & _)]; [|lia]. eexists _, _, h2, all, chs2. split; [done|].
    split; [|split; [left; split; [done|]; split; [done|]; split; [by apply no_room_refused|]; intros _; split; [by apply modifiable_with_store|done]|intros Hmb; apply (keeps_with _ _ _ _ _ _ _ Es), Htd, Hmb]]. split; try done.
    + apply (own_ok_store b1); try done; [pose proof (ok_types _ _ _ Hown) as H; unfold types_data in *; by rewrite Es in H|]. exact (set_located _ _ _ _ Hset').
    + by apply (frame_trans _ _ h1 chs1).
    + by apply modifiable_cached, modifiable_with_store.
  - destruct Hcase as [(-> & _)|(Ho & Hr & Hall)]; [done|]. set (hd := mkHdr _ _ _ _ _ _ _ _).
    exists ret, (with_hdr (with_store b1 (Separate types cap set' None)) hd), h2, all', chs2.
    assert (strset__data_size set' = zlen (pack all')) as Hsz by exact (sh_len _ _ _ _ Hset').
    assert (str_len hd = zlen (pack all')) as Hsl by (unfold hd; cbn [str_len]; rewrite Hsz, u32_small; [done|unfold word_ok, BTF_MAX_STR_OFFSET in *; lia]).
    split; [cbn; destruct Hids as [_ ->]; by rewrite Z.add_0_l, s32_small by lia|].
    split; [|split; [right; split; [done|split; [done|split; [by apply modifiable_with|done]]]|intros Hmb; apply (keeps_with_hdr _ (with_store b1 (Separate types cap set' None))), (keeps_with _ _ _ _ _ _ _ Es), Htd, Hmb]].
    split; try done.
    + by apply (own_ok_all b1 recs all all' hd set' types cap set None); try done; [exact (set_located _ _ _ _ Hset')|unfold BTF_MAX_STR_OFFSET in *; lia].
    + destruct Hhdr. split; try done. change (word_ok (str_len hd)). rewrite Hsl. unfold word_ok, BTF_MAX_STR_OFFSET in *. lia.
    + by apply (frame_trans _ _ h1 chs1).
    + by apply modifiable_cached, modifiable_with.
    + destruct Hfi as [Hm1 Hf1]. split; [done|]. destruct Hall as [->|[_ ->]]; [done|]. by destruct all.
Qed.

Lemma btf__add_str_ok h0 b h recs all chs s :
  built h0 b h recs all chs → name_ok s →
  ∃ off b' h' all' chs', btf__add_str malloc calloc realloc block b h s = Some (off, b', h') ∧ built h0 b' h' recs all' chs'
    ∧ (off = - ENOMEM ∧ all' = all ∧ str_refused all s ∧ (modifiable b → modifiable b' ∧ no_room malloc calloc realloc BTF_MAX_STR_OFFSET all s) ∨ offset_of 0 all' s = Some off ∧ 0 <= off < 2 ^ 31 ∧ modifiable b' ∧ (all' = all ∨ offset_of 0 all s = None ∧ all' = all ++ [s]))
    ∧ (modifiable b → keeps_types b b').
Proof. intros Hb Hs. unfold btf__add_str. rewrite (bt_base _ _ _ _ _ _ Hb). by apply (add_own_str_ok h0 b h recs all chs). Qed.

(** ** Memory for types *)

(** Room for [n] bytes behind the records. *)
Definition room (b : btf) (recs : list (list Z)) (n : Z) : Prop := zlen (concat recs) + n <= zlen (types_data b).1.

Lemma add_type_mem_ok h0 b h recs all chs sz :
  built h0 b h recs all chs → modifiable b → 0 <= sz < 2 ^ 30 →
  btf_add_type_mem realloc b sz = Some None ∧ (UINT32_MAX < zlen (concat recs) + sz ∨ ∃ n, n < 2 ^ 34 ∧ realloc n = false)
  ∨ ∃ b', btf_add_type_mem realloc b sz = Some (Some (b', zlen (concat recs))) ∧ built h0 b' h recs all chs ∧ modifiable b' ∧ room b' recs sz.
Proof.
  intros [Hown Hbase Hids Hhdr Hlen Ht Hb Hfr Hca Hfi Hrest Hst] Hmod Hsz. unfold btf_add_type_mem.
  pose proof (ok_types _ _ _ Hown) as Hl. destruct (modifiable_store _ Hmod) as (types & cap & set & Es).
  unfold types_data in Hl. rewrite Es in Hl, Hst |- *. cbn [fst snd] in Hl.
  destruct Hst as (Hset & Hsm & Hcap & Hcm). rewrite (ok_type_len _ _ _ Hown). pose proof (located_range _ _ _ Hl) as Hr.
  pose proof (libbpf_add_mem_spec realloc types cap 1 (zlen (concat recs)) UINT32_MAX sz Hcap ltac:(lia) Hcm) as H.
  specialize (H ltac:(unfold UINT32_MAX; lia) ltac:(unfold UINT32_MAX; lia)).
  destruct (libbpf_add_mem _ _ _ _ _ _ _) as [[[types' cap'] p]|].
  2: { left. split; [done|]. destruct H as [H|(n & Hn & Hf)]; [by left|right; exists n; split; [unfold UINT32_MAX in *; lia|done]]. }
  right.
  destruct H as (-> & k & -> & Hcap' & Hlo & Hhi). eexists. split; [done|].
  split; [|split; [by apply modifiable_with_store|unfold room; cbn; lia]].
  split; try done; [|by apply modifiable_cached, modifiable_with_store|cbn; split_and!; try done; lia]. apply (own_ok_store b); try done.
  - destruct Hl as (pre & post & E & Ep). cbn. exists pre, (post ++ replicate k 0). rewrite E, <- !app_assoc. done.
  - pose proof (ok_strs _ _ _ Hown) as H. unfold btf_strs_data in *. by rewrite Es in H.
Qed.

(** Words written behind the records. *)
Definition enc (ws : list Z) : list Z := concat (map le32 ws).

Lemma enc_length ws : length (enc ws) = (4 * length ws)%nat.
Proof. induction ws as [|w ws IH]; [done|]. unfold enc in *. cbn [map concat]. rewrite length_app, IH. cbn. lia. Qed.

Lemma enc_ok ws : bytes_ok (enc ws).
Proof. induction ws as [|w ws IH]; [done|]. unfold enc in *. cbn [map concat]. apply Forall_app. split; [apply bytes_ok_le32|done]. Qed.

Lemma st_words_at ws : ∀ pre mid post, length mid = (4 * length ws)%nat → st_words (pre ++ mid ++ post) (zlen pre) ws = Some (pre ++ enc ws ++ post).
Proof.
  induction ws as [|w ws IH]; intros pre mid post Hl; [by destruct mid|]. cbn [length] in Hl. cbn [st_words].
  rewrite <- (take_drop 4 mid), <- !app_assoc. rewrite st_le32_at by (rewrite length_take; lia). rewrite bind_Some.
  replace (zlen pre + 4) with (zlen (pre ++ le32 w)) by (rewrite length_app; cbn; lia). rewrite app_assoc, IH by (rewrite length_drop; lia).
  by rewrite <- !app_assoc.
Qed.

(** The word [i] of written words. *)
Lemma enc_word ws i w : ws !! i = Some w → ∀ rest, t_word (TypeAt (enc ws ++ rest) 0) (Z.of_nat i) = Some (u32 w).
Proof.
  intros Hi rest. pose proof (lookup_lt_Some _ _ _ Hi). rewrite <- (take_drop_middle ws i w Hi). unfold enc. rewrite map_app, concat_app.
  cbn [map concat]. cbn [t_word]. rewrite Z.add_0_l. fold (enc (take i ws)) (enc (drop (S i) ws)).
  replace (4 * Z.of_nat i) with (zlen (enc (take i ws))) by (rewrite enc_length, length_take; lia).
  rewrite <- !app_assoc. change (le32 w) with [u8 w; u8 (Z.shiftr w 8); u8 (Z.shiftr w 16); u8 (Z.shiftr w 24)].
  by rewrite ld_le32_at, u32_le_bytes.
Qed.

(** ** A new record *)

(** The words of a record: the second one gives their number. *)
Definition rec_words (ws : list Z) : Prop := ∃ info, ws !! 1%nat = Some info ∧ rec_size (u32 info) = 4 * zlen ws.

Lemma enc_rec_ok ws : rec_words ws → rec_ok (enc ws).
Proof.
  intros (info & Hi & Hs). split; [apply enc_ok|]. exists (u32 info). pose proof (enc_word ws 1 info Hi []) as H. rewrite app_nil_r in H.
  split; [exact H|]. rewrite enc_length. lia.
Qed.

Lemma put_words_ok h0 b h recs all chs ws :
  built h0 b h recs all chs → modifiable b → room b recs (4 * zlen ws) →
  ∃ b', put_words b (zlen (concat recs)) ws = Some b' ∧ built h0 b' h recs all chs ∧ modifiable b'
    ∧ (∃ post, types_data b' = (concat recs ++ enc ws ++ post, 0)) ∧ hdr b' = hdr b ∧ nr_types b' = nr_types b.
Proof.
  intros [Hown Hbase Hids Hhdr Hlen Ht Hb Hfr Hca Hfi Hrest Hst] Hmod Hroom. unfold put_words, room in *.
  pose proof (ok_types _ _ _ Hown) as Hl. destruct (modifiable_store _ Hmod) as (types & cap & set & Es).
  unfold types_data in Hl, Hroom. rewrite Es in Hl, Hroom, Hst |- *.
  cbn [fst snd] in Hl, Hroom. destruct Hst as (Hset & Hsm & Hcap & Hcm). destruct Hl as (pre & post & E & Ep).
  assert (pre = []) as -> by (apply nil_length_inv; lia). cbn [app] in E. rewrite E, length_app in Hroom.
  assert (types = concat recs ++ take (4 * length ws) post ++ drop (4 * length ws) post) as E2 by (by rewrite take_drop).
  rewrite E2, st_words_at by (rewrite length_take; lia). rewrite bind_Some. eexists. split; [done|].
  split; [|split; [by apply modifiable_with_store|split; [by eexists|done]]].
  split; try done; [|by apply modifiable_cached, modifiable_with_store|cbn; split_and!; try done; rewrite <- Hcap, E2, !length_app, enc_length, length_take, !length_drop; lia].
  apply (own_ok_store b); try done; [by exists [], (enc ws ++ drop (4 * length ws) post)|].
  pose proof (ok_strs _ _ _ Hown) as H. unfold btf_strs_data in *. by rewrite Es in H.
Qed.

(** The bounds on a type section that has been written. *)
Lemma own_room h0 b h recs all chs n post :
  built h0 b h recs all chs → modifiable b → types_data b = (concat recs ++ n ++ post, 0) → zlen (concat recs) + zlen n <= UINT32_MAX.
Proof.
  intros Hb Hmod Htd. pose proof (bt_store _ _ _ _ _ _ Hb) as Hst. unfold types_data in Htd.
  destruct (modifiable_store _ Hmod) as (types & cap & set & Es). rewrite Es in Hst, Htd. destruct Hst as (_ & _ & Hcap & Hcm). injection Htd as Htd. rewrite Htd, !length_app in Hcap. lia.
Qed.

Lemma grow_hdr_ok b sz : hdr_ok (hdr b) → hdr_ok (hdr (grow_types b sz)).
Proof. intros []. split; cbn; try done; apply u32_ok. Qed.

Lemma commit_type_ok h0 b h recs all chs r post :
  built h0 b h recs all chs → modifiable b → rec_ok r → types_data b = (concat recs ++ r ++ post, 0) →
  ∃ id b', btf_commit_type realloc b (zlen r) = Some (id, b') ∧ modifiable b'
    ∧ (id = - ENOMEM ∧ built h0 b' h recs all chs ∧ (zlen recs = BTF_MAX_NR_TYPES ∨ ∃ n, n < 2 ^ 34 ∧ realloc n = false)
       ∨ id = zlen recs + 1 ∧ built h0 b' h (recs ++ [r]) all chs).
Proof.
  intros Hb Hmod Hr Htd. pose proof (own_room _ _ _ _ _ _ _ _ Hb Hmod Htd) as Hroom.
  pose proof Hb as [Hown Hbase [Hid0 Hso] Hhdr Hlen [Hto Hoff] Hby Hfr Hca Hfi Hrest Hst]. unfold btf_commit_type. rewrite (ok_type_len _ _ _ Hown).
  destruct (add_type_idx_ok realloc b recs (ok_index _ _ _ Hown) (ok_nr _ _ _ Hown)) as [[-> Hlim]|(offs & cap & -> & Hidx)]; rewrite bind_Some.
  { eexists _, b. split; [done|]. split; [done|by left]. }
  change (negb (0 =? 0)) with false. cbv iota. pose proof (rec_ok_length r Hr) as Hrl.
  assert (Forall rec_ok (recs ++ [r])) as Hrecs by (apply Forall_app; split; [exact (ok_recs _ _ _ Hown)|by constructor]).
  pose proof (records_count _ Hrecs) as Hcount. rewrite concat_app_single, !length_app in Hcount. cbn [length] in Hcount.
  set (b' := with_nr _ _). unfold UINT32_MAX in *.
  assert (u32 (zlen (concat recs) + zlen r) = zlen (concat recs) + zlen r) as Hu by (apply u32_small; unfold word_ok; lia).
  assert (nr_types b' = zlen recs + 1) as Hnr.
  { unfold b'. cbn. rewrite (ok_nr _ _ _ Hown). apply u32_small. unfold word_ok. lia. }
  eexists _, b'. split; [done|]. split; [done|]. right. split.
  { change (start_id b') with (start_id b). rewrite Hnr, Hid0, s32_small; lia. }
  assert (type_len (hdr b') = zlen (concat recs) + zlen r) as Htl by (cbn; by rewrite (ok_type_len _ _ _ Hown)).
  split; try done.
  - destruct Hown as [H1 H2 H3 H4 H5 H6 H7 H8 H9 H10 H11]. split; try done.
    + change (types_data b') with (types_data b). rewrite Htd, concat_app_single. cbn [fst snd]. exists [], post. by rewrite <- app_assoc.
    + rewrite Hnr, length_app. cbn [length]. lia.
    + by rewrite Htl, concat_app_single, length_app, Nat2Z.inj_add.
    + rewrite concat_app_single, length_app. lia.
    + change (start_id b') with (start_id b). rewrite Hnr. lia.
  - by apply grow_hdr_ok.
  - split; [done|]. rewrite Htl. cbn. rewrite Hoff, (ok_type_len _ _ _ Hown). exact Hu.
  - by apply modifiable_cached.
Qed.

(** ** Adding types *)

Definition name_opt_ok (name : option (list Z)) : Prop := match name with Some s => name_ok s | None => True end.

(** What the name of a new entry does to the strings: [off] is its offset. *)
Definition name_at (all' : list (list Z)) (name : option (list Z)) (off : Z) : Prop :=
  if nonempty name then offset_of 0 all' (default [] name) = Some off else off = 0.
Definition names_grow (all all' : list (list Z)) (name : option (list Z)) : Prop :=
  all' = all ∨ offset_of 0 all (default [] name) = None ∧ all' = all ++ [default [] name].

Lemma add_name_ok h0 b h recs all chs name n :
  built h0 b h recs all chs → modifiable b → room b recs n → name_opt_ok name →
  ∃ off b' h' all' chs', (if nonempty name then btf__add_str malloc calloc realloc block b h (default [] name) else Some (0, b, h)) = Some (off, b', h')
    ∧ built h0 b' h' recs all' chs' ∧ names_grow all all' name
    ∧ (off = - ENOMEM ∧ (refused ∨ nonempty name = true ∧ BTF_MAX_STR_OFFSET < zlen (pack all) + zlen (default [] name) + 1)
       ∨ 0 <= off < 2 ^ 31 ∧ modifiable b' ∧ room b' recs n ∧ name_at all' name off).
Proof.
  intros Hb Hmod Hroom Hname. unfold name_at. destruct (nonempty name) eqn:En.
  - destruct name as [s|]; [|done]. change (default [] (Some s)) with s in *.
    destruct (btf__add_str_ok _ _ _ _ _ _ s Hb Hname) as (off & b' & h' & all' & chs' & -> & Hb' & Hres & Htd).
    exists off, b', h', all', chs'. split; [done|]. split; [done|]. split; [destruct Hres as [(_ & -> & _)|(_ & _ & _ & Hg)]; [by left|exact Hg]|].
    destruct Hres as [(-> & _ & Href & _)|(Ho & Hr & Hm & _)]; [left; split; [done|]; destruct Href; auto|right]. split_and!; try done; try lia. unfold room in *. by rewrite (proj1 (Htd Hmod)).
  - exists 0, b, h, all, chs. split; [done|]. split; [done|]. split; [by left|right]. split_and!; try done; lia.
Qed.

(** Why there is no memory for an entry of [sz] bytes with this name: an
    allocation failed, or the strings, the types or, for a new type, the
    identifiers reach their limit. *)
Inductive no_memory (recs all : list (list Z)) (name : option (list Z)) (sz : Z) (new_type : bool) : Prop :=
| nm_allocation : refused → no_memory recs all name sz new_type
| nm_strings :
    nonempty name = true → BTF_MAX_STR_OFFSET < zlen (pack all) + zlen (default [] name) + 1 → no_memory recs all name sz new_type
| nm_types : UINT32_MAX < zlen (concat recs) + sz → no_memory recs all name sz new_type
| nm_count : new_type = true → zlen recs = BTF_MAX_NR_TYPES → no_memory recs all name sz new_type.

(** The result of a function that adds a type: an error, or the next identifier
    and the new record behind the others. *)
Definition type_added (recs all : list (list Z)) (name : option (list Z)) (sz : Z) (rec : Z → list Z) (id : Z) (recs' all' : list (list Z)) : Prop :=
  names_grow all all' name ∧
  (id = - ENOMEM ∧ recs' = recs ∧ no_memory recs all name sz true ∨ id = zlen recs + 1 ∧ ∃ off, name_at all' name off ∧ 0 <= off < 2 ^ 31 ∧ recs' = recs ++ [rec off]).

Lemma add_named_ok h0 b h recs all chs sz name words :
  built h0 b h recs all chs → name_opt_ok name → (∀ off, rec_words (words off) ∧ 4 * zlen (words off) = sz) →
  ∃ id b' h' recs' all' chs', add_named malloc calloc realloc block b h sz name words = Some (id, b', h')
    ∧ built h0 b' h' recs' all' chs' ∧ (0 < id → modifiable b') ∧ type_added recs all name sz (λ off, enc (words off)) id recs' all'.
Proof.
  intros Hb Hname Hwords. unfold add_named, type_added.
  destruct (ensure_modifiable_ok _ _ _ _ _ _ Hb) as (err & b1 & h1 & chs1 & -> & Hb1 & Herr & _). rewrite bind_Some.
  destruct Herr as [[-> Hmod]|[-> Href]]; [change (negb (0 =? 0)) with false|exists (- ENOMEM), b1, h1, recs, all, chs1; split_and!; [done..|by left|left; split_and!; [done..|by constructor 1]]].
  cbv iota. destruct (Hwords 0) as [Hr0 Hsz0]. pose proof (enc_rec_ok _ Hr0) as Hrec0. apply rec_ok_length in Hrec0 as [Hrl _]. rewrite enc_length in Hrl.
  destruct (add_type_mem_ok _ _ _ _ _ _ sz Hb1 Hmod) as [[-> Hlim]|(b2 & -> & Hb2 & Hmod2 & Hroom)]; [lia| |]; rewrite bind_Some.
  { exists (- ENOMEM), b1, h1, recs, all, chs1. split_and!; [done..|by left|left; split_and!; [done..|]].
    destruct Hlim as [?|?]; [by apply nm_types|by apply nm_allocation, refused_realloc]. }
  destruct (add_name_ok _ _ _ _ _ _ name sz Hb2 Hmod2 Hroom Hname) as (off & b3 & h3 & all' & chs3 & -> & Hb3 & Hgrow & Hoff). rewrite bind_Some.
  destruct Hoff as [[-> Hlim]|(Hoff & Hmod3 & Hroom3 & Hat)].
  { exists (- ENOMEM), b3, h3, recs, all', chs3. split_and!; [done..|left; split_and!; [done..|]].
    destruct Hlim as [?|[? ?]]; [by apply nm_allocation|by apply nm_strings]. }
  destruct (Z.ltb_spec off 0); [lia|]. destruct (Hwords off) as [Hrw Hsz].
  destruct (put_words_ok _ _ _ _ _ _ (words off) Hb3 Hmod3) as (b4 & -> & Hb4 & Hmod4 & [post Htd] & _); [by rewrite Hsz|]. rewrite bind_Some.
  destruct (commit_type_ok _ _ _ _ _ _ (enc (words off)) post Hb4 Hmod4 (enc_rec_ok _ Hrw) Htd) as (id & b5 & Hc & Hmod5 & Hres).
  rewrite enc_length in Hc. replace (Z.of_nat (4 * length (words off))) with sz in Hc by lia. rewrite Hc, bind_Some.
  destruct Hres as [(-> & Hb5 & Hlim)|[-> Hb5]].
  - exists (- ENOMEM), b5, h3, recs, all', chs3. split_and!; [done..|left; split_and!; [done..|]].
    destruct Hlim as [?|?]; [by apply nm_count|by apply nm_allocation, refused_realloc].
  - exists (zlen recs + 1), b5, h3, (recs ++ [enc (words off)]), all', chs3. split_and!; try done. right. split; [done|]. by exists off.
Qed.

(** A record that starts like this has a known size. *)
Lemma kind_of_info k vlen kflag : 0 <= kind_num k < 32 → 0 <= vlen < 2 ^ 16 → 0 <= kflag <= 1 →
  let info := btf_type_info (kind_num k) vlen kflag in
  word_ok info ∧ BTF_INFO_KIND info = kind_num k ∧ BTF_INFO_VLEN info = vlen ∧ BTF_INFO_KFLAG info = kflag.
Proof.
  intros Hk Hv Hf. cbv zeta. unfold btf_type_info. set (n := kind_num k) in *.
  assert (Z.lor (Z.lor (Z.shiftl kflag 31) (Z.shiftl n 24)) vlen = kflag * 2 ^ 31 + n * 2 ^ 24 + vlen) as E.
  { assert (Z.lor (Z.shiftl kflag 31) (Z.shiftl n 24) = Z.shiftl (kflag * 2 ^ 7 + n) 24) as ->.
    { rewrite <- (lor_add_disjoint 7 kflag n) by lia. rewrite Z.shiftl_lor, Z.shiftl_shiftl by lia. done. }
    rewrite lor_add_disjoint by lia. lia. }
  rewrite E, u32_small by (unfold word_ok; lia). unfold word_ok, BTF_INFO_KIND, BTF_INFO_VLEN, BTF_INFO_KFLAG. split; [lia|].
  set (x := kflag * 2 ^ 31 + n * 2 ^ 24 + vlen).
  assert (∀ y, Z.land y 0x1f = y mod 2 ^ 5) as -> by (intros y; by rewrite <- Z.land_ones).
  assert (∀ y, Z.land y 0xffff = y mod 2 ^ 16) as -> by (intros y; by rewrite <- Z.land_ones).
  rewrite !Z.shiftr_div_pow2 by lia. unfold x. split_and!.
  - rewrite <- (Z.div_unique (kflag * 2 ^ 31 + n * 2 ^ 24 + vlen) (2 ^ 24) (n + kflag * 4 * 2 ^ 5) vlen) by lia.
    rewrite Z.mod_add by lia. apply Z.mod_small. lia.
  - replace (kflag * 2 ^ 31 + n * 2 ^ 24 + vlen) with (vlen + (kflag * 2 ^ 15 + n * 2 ^ 8) * 2 ^ 16) by lia.
    rewrite Z.mod_add by lia. apply Z.mod_small. lia.
  - symmetry. apply (Z.div_unique _ _ _ (n * 2 ^ 24 + vlen)); lia.
Qed.

(** The size of a record from its kind and its number of entries. *)
Definition kind_size (k : kind) (vlen : Z) : Z :=
  match k with
  | FWD | CONST | VOLATILE | RESTRICT | PTR | TYPEDEF | FUNC | FLOAT | TYPE_TAG => 12
  | INT | VAR | DECL_TAG => 16
  | ARRAY => 24
  | ENUM | FUNC_PROTO => 12 + vlen * 8
  | ENUM64 | STRUCT | UNION | DATASEC => 12 + vlen * 12
  | UNKN | OTHER _ => - EINVAL
  end.

Lemma rec_size_kind info : rec_size info = kind_size (kind_of_num (BTF_INFO_KIND info)) (BTF_INFO_VLEN info).
Proof. done. Qed.

Lemma rec_size_info k vlen kflag : In k kinds → 0 <= vlen < 2 ^ 16 → 0 <= kflag <= 1 →
  rec_size (u32 (btf_type_info (kind_num k) vlen kflag)) = kind_size k vlen.
Proof.
  intros Hk Hv Hf. assert (0 <= kind_num k < 32 ∧ kind_of_num (kind_num k) = k) as [Hn Hkn].
  { cbn in Hk. repeat destruct Hk as [<-|Hk]; try (by split); done. }
  destruct (kind_of_info k vlen kflag Hn Hv Hf) as (Hok & E1 & E2 & _). by rewrite u32_small, rec_size_kind, E1, E2, Hkn.
Qed.

(** ** Changing the last record *)

Lemma offsets_last o recs r r' : offsets o (recs ++ [r]) = offsets o (recs ++ [r']).
Proof. by rewrite !offsets_app. Qed.

Lemma index_last offs cap recs r r' : index_of offs cap (recs ++ [r]) → index_of offs cap (recs ++ [r']).
Proof. intros [H1 H2 H3]. rewrite length_app in H2, H3. split; [done|rewrite length_app, (offsets_last _ _ _ r); exact H2|rewrite length_app; exact H3]. Qed.

Lemma rebuilt h0 b h recs r r' all chs types types' cap set hd post :
  built h0 b h (recs ++ [r]) all chs → modifiable b → store b = Separate types cap set None →
  rec_ok r' → types' = concat (recs ++ [r']) ++ post → zlen types' = cap →
  hdr_ok hd → type_off hd = 0 → type_len hd = zlen (concat (recs ++ [r'])) → str_off hd = type_len hd → str_len hd = str_len (hdr b) →
  hdr_len hd = hdr_len (hdr b) → magic hd = magic (hdr b) →
  built h0 (with_hdr (with_store b (Separate types' cap set None)) hd) h (recs ++ [r']) all chs.
Proof.
  intros [Hown Hbase Hids Hhdr Hlen Ht Hb Hfr Hca Hfi Hrest Hst] Hmod Es Hr' Htypes Hcap' Hhd Hto Htl Hso Hsl Hhl Hmg. rewrite Es in Hst. destruct Hst as (Hset & Hsm & Hcap & Hcm).
  split; try done; [|cbn; by rewrite Hhl|by apply modifiable_cached, modifiable_with|split; [by rewrite <- (proj1 Hfi)|by destruct Hfi]].
  destruct Hown as [H1 H2 H3 H4 H5 H6 H7 H8 H9 H10 H11]. apply Forall_app in H1 as [H1 _].
  assert (zlen (concat (recs ++ [r'])) <= UINT32_MAX) as Hmax by (rewrite Htypes, length_app in Hcap'; lia).
  split; try done.
  - apply Forall_app. split; [done|by constructor].
  - cbn. rewrite Htypes. by exists [], post.
  - cbn. rewrite H3, !length_app. done.
  - by apply (index_last _ _ recs r).
  - unfold UINT32_MAX in Hmax. lia.
  - unfold btf_strs_data in *. by rewrite Es in H8.
  - cbn. by rewrite Hsl.
Qed.

(** A record with another [info]. *)
Definition with_info (r : list Z) (info : Z) : list Z := take 4 r ++ le32 info ++ drop 8 r.

Lemma with_info_length r info : 12 <= zlen r → length (with_info r info) = length r.
Proof. intros H. unfold with_info. rewrite !length_app, length_take, length_drop. change (length (le32 info)) with 4%nat. lia. Qed.

Lemma with_info_word r e info : 12 <= zlen r → t_info (TypeAt (with_info r info ++ e) 0) = Some (u32 info).
Proof.
  intros Hl. unfold t_info, with_info. cbn [t_word]. assert (zlen (take 4 r) = 4) as E4 by (rewrite length_take; lia).
  change (0 + 4 * 1) with 4. rewrite <- E4, <- !app_assoc.
  change (le32 info) with [u8 info; u8 (Z.shiftr info 8); u8 (Z.shiftr info 16); u8 (Z.shiftr info 24)]. by rewrite ld_le32_at, u32_le_bytes.
Qed.

Lemma with_info_ok r e info : rec_ok r → bytes_ok e → rec_size (u32 info) = zlen r + zlen e → rec_ok (with_info r info ++ e).
Proof.
  intros Hr He Hs. pose proof (rec_ok_length r Hr) as [Hl _]. destruct Hr as [Hb _]. split.
  - unfold with_info. repeat (apply Forall_app; split); [by apply Forall_take|apply bytes_ok_le32|by apply Forall_drop|done].
  - exists (u32 info). rewrite length_app, with_info_length by lia. split; [by apply with_info_word; lia|lia].
Qed.

(** The assignment [t->info = info] to the last type. *)
Lemma set_info_ok b types cap set raw A r post info :
  store b = Separate types cap set raw → types = A ++ r ++ post → 12 <= zlen r →
  set_info b (TypeAt types (zlen A)) info = Some (with_store b (Separate (A ++ with_info r info ++ post) cap set raw)).
Proof.
  intros Es Et Hl. cbn [set_info]. unfold put_words. rewrite Es.
  assert (types = (A ++ take 4 r) ++ take 4 (drop 4 r) ++ drop 8 r ++ post) as E.
  { rewrite Et, <- app_assoc. f_equal. rewrite <- (take_drop 4 r) at 1. rewrite <- app_assoc. f_equal.
    rewrite <- (take_drop 4 (drop 4 r)) at 1. by rewrite drop_drop, <- app_assoc. }
  replace (zlen A + 4) with (zlen (A ++ take 4 r)) by (rewrite length_app, length_take; lia).
  rewrite E, st_words_at by (rewrite length_take, length_drop; cbn [length]; lia). rewrite bind_Some. unfold with_info, enc. cbn [map concat].
  by rewrite app_nil_r, <- !app_assoc.
Qed.

(** ** Adding members *)

Lemma last_type b recs r all :
  own_ok b (recs ++ [r]) all → btf_last_type b = Some (TypeAt (types_data b).1 ((types_data b).2 + zlen (concat recs))).
Proof.
  intros H. unfold btf_last_type. destruct (own_cnt _ _ _ H) as [Hc _]. rewrite Hc, length_app. cbn [length].
  destruct (ok_ids _ _ _ H) as [H1 H2]. rewrite (ok_nr _ _ _ H), length_app in H2. cbn [length] in H2.
  rewrite u32_small by (unfold word_ok; lia). replace (start_id b + Z.of_nat (length recs + 1) - 1) with (start_id b + zlen recs) by lia.
  destruct (own_type_by_id b (recs ++ [r]) all (length recs) r H) as [-> _]; [by apply list_lookup_middle|]. by rewrite take_app_length.
Qed.

(** The last type of an object, seen as a record. *)
Lemma last_type_info b recs r all info :
  own_ok b (recs ++ [r]) all → t_info (TypeAt r 0) = Some info → ∃ t, btf_last_type b = Some t ∧ t_info t = Some info.
Proof.
  intros H Hi. rewrite (last_type _ _ _ _ H). eexists. split; [done|]. pose proof (ok_recs _ _ _ H) as Hr. apply Forall_app in Hr as [_ Hr].
  apply Forall_cons_iff in Hr as [Hr _]. apply rec_ok_length in Hr as [Hl _].
  destruct (ok_types _ _ _ H) as (pre & post & E & Ep). rewrite E, Ep, concat_app_single, <- !app_assoc.
  replace (zlen pre + zlen (concat recs)) with (zlen (pre ++ concat recs)) by (rewrite length_app; lia).
  rewrite app_assoc. unfold t_info in *. rewrite t_word_at; [done|lia..].
Qed.

Definition member_added (recs : list (list Z)) (r : list Z) (all : list (list Z)) (name : option (list Z)) (sz : Z) (words : Z → list Z)
    (info ret : Z) (r' : list Z) (all' : list (list Z)) : Prop :=
  names_grow all all' name ∧
  (ret = - ENOMEM ∧ r' = r ∧ no_memory (recs ++ [r]) all name sz false ∨ ret = 0 ∧ ∃ off, name_at all' name off ∧ 0 <= off < 2 ^ 31 ∧ r' = with_info r info ++ enc (words off)).

Lemma add_member_ok h0 b h recs r all chs sz name words new_info info :
  built h0 b h (recs ++ [r]) all chs → name_opt_ok name → t_info (TypeAt r 0) = Some info →
  (∀ off, 4 * zlen (words off) = sz) → rec_size (u32 (new_info info)) = zlen r + sz →
  ∃ ret b' h' r' all' chs', add_member malloc calloc realloc block b h sz name words new_info = Some (ret, b', h')
    ∧ built h0 b' h' (recs ++ [r']) all' chs' ∧ member_added recs r all name sz words (new_info info) ret r' all'.
Proof.
  intros Hb Hname Hi Hwords Hsize. unfold add_member, member_added.
  destruct (ensure_modifiable_ok _ _ _ _ _ _ Hb) as (err & b1 & h1 & chs1 & -> & Hb1 & Herr & _). rewrite bind_Some.
  destruct Herr as [[-> Hmod]|[-> Href]];
    [change (negb (0 =? 0)) with false|exists (- ENOMEM), b1, h1, r, all, chs1; split_and!; [done..|by left|left; split_and!; [done..|by constructor 1]]].
  cbv iota. pose proof (Hwords 0) as Hsz0. pose proof (ok_recs _ _ _ (bt_own _ _ _ _ _ _ Hb)) as Hr. apply Forall_app in Hr as [_ Hr].
  apply Forall_cons_iff in Hr as [Hr _]. pose proof (rec_ok_length _ Hr) as [Hrl _].
  destruct (rec_size_range (u32 (new_info info))) as [E|[Hrs _]]; [apply u32_range|unfold EINVAL in E; lia|].
  destruct (add_type_mem_ok _ _ _ _ _ _ sz Hb1 Hmod) as [[-> Hlim]|(b2 & -> & Hb2 & Hmod2 & Hroom)]; [lia| |]; rewrite bind_Some.
  { exists (- ENOMEM), b1, h1, r, all, chs1. split_and!; [done..|by left|left; split_and!; [done..|]].
    destruct Hlim as [?|?]; [by apply nm_types|by apply nm_allocation, refused_realloc]. }
  destruct (add_name_ok _ _ _ _ _ _ name sz Hb2 Hmod2 Hroom Hname) as (off & b3 & h3 & all' & chs3 & -> & Hb3 & Hgrow & Hoff). rewrite bind_Some.
  destruct Hoff as [[-> Hlim]|(Hoff & Hmod3 & Hroom3 & Hat)].
  { exists (- ENOMEM), b3, h3, r, all', chs3. split_and!; [done..|left; split_and!; [done..|]].
    destruct Hlim as [?|[? ?]]; [by apply nm_allocation|by apply nm_strings]. }
  destruct (Z.ltb_spec off 0); [lia|]. specialize (Hwords off).
  destruct (put_words_ok _ _ _ _ _ _ (words off) Hb3 Hmod3) as (b4 & -> & Hb4 & Hmod4 & [post Htd] & _); [by rewrite Hwords|]. rewrite bind_Some.
  pose proof (own_room _ _ _ _ _ _ _ _ Hb4 Hmod4 Htd) as Hmax. rewrite enc_length in Hmax.
  destruct (last_type_info _ _ _ _ info (bt_own _ _ _ _ _ _ Hb4) Hi) as (t & Hlast & Hti). rewrite Hlast, bind_Some, Hti, bind_Some.
  rewrite (last_type _ _ _ _ (bt_own _ _ _ _ _ _ Hb4)), Htd in Hlast. injection Hlast as <-. cbn [fst snd]. rewrite Z.add_0_l.
  destruct (modifiable_store _ Hmod4) as (types & cap & set & Es).
  assert (types = concat (recs ++ [r]) ++ enc (words off) ++ post) as Et by (unfold types_data in Htd; rewrite Es in Htd; by injection Htd).
  rewrite <- Et. rewrite (set_info_ok b4 types cap set None (concat recs) r (enc (words off) ++ post)); [|done|by rewrite Et, concat_app_single, <- app_assoc|lia].
  rewrite bind_Some. set (r' := with_info r (new_info info) ++ enc (words off)).
  assert (zlen r' = zlen r + sz) as Hl' by (unfold r'; rewrite length_app, with_info_length, enc_length by lia; lia).
  eexists 0, _, h3, r', all', chs3. split; [done|]. split; [|split; [done|right; split; [done|by exists off]]].
  pose proof Hb4 as [Hown4 _ _ Hhdr4 _ [Hto4 Hso4] _ _ _ Hfi4 Hrest4 Hst4]. rewrite Es in Hst4. destruct Hst4 as (_ & _ & Hcap4 & _).
  pose proof (ok_type_len _ _ _ Hown4) as Htl4. rewrite concat_app_single, length_app in Htl4. rewrite concat_app_single, length_app in Hmax.
  assert (u32 (type_len (hdr b4) + sz) = zlen (concat recs) + zlen r') as Hu by (rewrite Htl4, Hl', u32_small; [lia|unfold word_ok, UINT32_MAX in *; lia]).
  apply (rebuilt h0 b4 h3 recs r r' all' chs3 types _ cap set _ post Hb4 Hmod4 Es); cbn; try done.
  - apply with_info_ok; [done|apply enc_ok|rewrite enc_length; lia].
  - rewrite concat_app_single. unfold r'. by rewrite <- !app_assoc.
  - rewrite <- Hcap4, Et, concat_app_single, !length_app, with_info_length by lia. lia.
  - destruct Hhdr4. split; try done; apply u32_ok.
  - by rewrite Hu, concat_app_single, length_app, Nat2Z.inj_add.
  - by rewrite Hso4.
Qed.

(** The assignment to [info] after a type was added. *)
Lemma with_info_enc x i ws i' : with_info (enc (x :: i :: ws)) i' = enc (x :: i' :: ws).
Proof. done. Qed.

Lemma retype_ok h0 b h recs x i ws i' all chs :
  built h0 b h (recs ++ [enc (x :: i :: ws)]) all chs → modifiable b → rec_words (x :: i' :: ws) →
  ∃ t b', btf_type_by_id b (zlen recs + 1) = Some t ∧ set_info b t i' = Some b' ∧ built h0 b' h (recs ++ [enc (x :: i' :: ws)]) all chs.
Proof.
  intros Hb Hmod Hrw. pose proof Hb as [Hown Hbase [Hid _] Hhdr _ [Hto Hso] _ _ _ Hfi Hrest Hst]. set (r := enc (x :: i :: ws)) in *.
  destruct (own_type_by_id b (recs ++ [r]) all (length recs) r Hown) as [Ht _]; [by apply list_lookup_middle|].
  rewrite take_app_length, Hid, Z.add_comm in Ht. rewrite Ht. pose proof (ok_types _ _ _ Hown) as Hl.
  pose proof (enc_rec_ok _ Hrw) as Hr'. pose proof (rec_ok_length _ Hr') as [Hlen _]. rewrite enc_length in Hlen. cbn [length] in Hlen.
  destruct (modifiable_store _ Hmod) as (types & cap & set & Es). unfold types_data in *. rewrite Es in Hst, Hl |- *. cbn [fst snd] in *.
  destruct Hl as (pre & post & Et & Ep). assert (pre = []) as -> by (apply nil_length_inv; lia). cbn [app] in Et.
  assert (types = concat recs ++ r ++ post) as Et2 by (by rewrite Et, concat_app_single, <- app_assoc).
  assert (zlen r = 4 * Z.of_nat (S (S (length ws)))) as Hrl by (unfold r; rewrite enc_length; cbn [length]; lia).
  rewrite Z.add_0_l. eexists _, _. split; [done|]. split; [apply (set_info_ok b types cap set None (concat recs) r post); [done|done|lia]|].
  unfold r. rewrite with_info_enc. set (r' := enc (x :: i' :: ws)) in *. destruct Hst as (_ & _ & Hcap & _).
  assert (zlen r' = zlen r) as Hl' by (unfold r'; rewrite enc_length; cbn [length]; lia).
  replace (with_store b _) with (with_hdr (with_store b (Separate (concat recs ++ r' ++ post) cap set None)) (hdr b)) by (by destruct b).
  apply (rebuilt h0 b h recs r r' all chs types _ cap set (hdr b) post Hb Hmod Es); try done.
  - by rewrite concat_app_single, <- app_assoc.
  - rewrite <- Hcap, Et2, !length_app. lia.
  - rewrite (ok_type_len _ _ _ Hown), !concat_app_single, !length_app. lia.
Qed.
End build.

(** ** The functions, as operations *)

Inductive btf_op : Type :=
| AddInt (name : option (list Z)) (byte_sz encoding : Z)
| AddFloat (name : option (list Z)) (byte_sz : Z)
| AddPtr (ref_type_id : Z)
| AddArray (index_type_id elem_type_id nr_elems : Z)
| AddStruct (name : option (list Z)) (byte_sz : Z)
| AddUnion (name : option (list Z)) (byte_sz : Z)
| AddField (name : option (list Z)) (type_id bit_offset bit_size : Z)
| AddEnum (name : option (list Z)) (byte_sz : Z)
| AddEnumValue (name : option (list Z)) (value : Z)
| AddEnum64 (name : option (list Z)) (byte_sz : Z) (is_signed : bool)
| AddEnum64Value (name : option (list Z)) (value : Z)
| AddFwd (name : option (list Z)) (fwd_kind : Z)
| AddTypedef (name : option (list Z)) (ref_type_id : Z)
| AddVolatile (ref_type_id : Z)
| AddConst (ref_type_id : Z)
| AddRestrict (ref_type_id : Z)
| AddTypeTag (value : option (list Z)) (ref_type_id : Z)
| AddFunc (name : option (list Z)) (linkage proto_type_id : Z)
| AddFuncProto (ret_type_id : Z)
| AddFuncParam (name : option (list Z)) (type_id : Z)
| AddVar (name : option (list Z)) (linkage type_id : Z)
| AddDatasec (name : option (list Z)) (byte_sz : Z)
| AddDatasecVar (var_type_id offset byte_sz : Z)
| AddDeclTag (value : option (list Z)) (ref_type_id component_idx : Z).

Definition op_name (o : btf_op) : option (list Z) :=
  match o with
  | AddInt n _ _ | AddFloat n _ | AddStruct n _ | AddUnion n _ | AddField n _ _ _ | AddEnum n _ | AddEnumValue n _ | AddEnum64 n _ _
  | AddEnum64Value n _ | AddFwd n _ | AddTypedef n _ | AddTypeTag n _ | AddFunc n _ _ | AddFuncParam n _ | AddVar n _ _ | AddDatasec n _
  | AddDeclTag n _ _ => n
  | _ => None
  end.

(** The record of a type, from the offset of its name. *)
Definition type_words (o : btf_op) : option (Z → list Z) :=
  let rec k vlen kflag ws := Some (λ off, off :: btf_type_info (kind_num k) vlen kflag :: ws) in
  match o with
  | AddInt _ sz e => rec INT 0 0 [sz; Z.lor (Z.shiftl e 24) (sz * 8)]
  | AddFloat _ sz => rec FLOAT 0 0 [sz]
  | AddPtr id => rec PTR 0 0 [id]
  | AddArray i e n => Some (λ _, [0; btf_type_info (kind_num ARRAY) 0 0; 0; e; i; n])
  | AddStruct _ sz => rec STRUCT 0 0 [sz]
  | AddUnion _ sz => rec UNION 0 0 [sz]
  | AddEnum _ sz => rec ENUM 0 0 [sz]
  | AddEnum64 _ sz s => rec ENUM64 0 (Z.b2z s) [sz]
  | AddFwd _ k => if k =? BTF_FWD_ENUM then rec ENUM 0 0 [4] else rec FWD 0 (Z.b2z (k =? BTF_FWD_UNION)) [0]
  | AddTypedef _ id => rec TYPEDEF 0 0 [id]
  | AddVolatile id => rec VOLATILE 0 0 [id]
  | AddConst id => rec CONST 0 0 [id]
  | AddRestrict id => rec RESTRICT 0 0 [id]
  | AddTypeTag _ id => rec TYPE_TAG 0 0 [id]
  | AddFunc _ l id => rec FUNC l 0 [id]
  | AddFuncProto id => Some (λ _, [0; btf_type_info (kind_num FUNC_PROTO) 0 0; id])
  | AddVar _ l id => rec VAR 0 0 [id; l]
  | AddDatasec _ sz => rec DATASEC 0 0 [sz]
  | AddDeclTag _ id c => rec DECL_TAG 0 0 [id; c]
  | _ => None
  end.

(** The entry of a member, from the offset of its name, and the new [info] of
    the type it belongs to. *)
Definition member_words (o : btf_op) : option ((Z → list Z) * (Z → Z)) :=
  let more info := btf_type_inc_vlen info (kflag_of info) in
  match o with
  | AddField _ id off size =>
      Some (λ n, [n; id; Z.lor off (Z.shiftl size 24)],
            λ info, btf_type_inc_vlen info ((negb (size =? 0) || negb (off mod 8 =? 0)) || kflag_of info))
  | AddEnumValue _ v =>
      Some (λ n, [n; v], λ info, if v <? 0 then btf_type_info (BTF_INFO_KIND (more info)) (BTF_INFO_VLEN (more info)) 1 else more info)
  | AddEnum64Value _ v => Some (λ n, [n; u32 v; Z.shiftr v 32], more)
  | AddFuncParam _ id => Some (λ n, [n; id], more)
  | AddDatasecVar id off sz => Some (λ _, [id; off; sz], more)
  | _ => None
  end.

(** The kind of the last type. *)
Definition last_kind (recs : list (list Z)) : option kind :=
  r ← recs !! pred (length recs); info ← t_info (TypeAt r 0); Some (kind_of_num (BTF_INFO_KIND info)).
Definition last_in (recs : list (list Z)) (ks : list kind) : bool :=
  match last_kind recs with Some k => existsb (λ k', bool_decide (k = k')) ks | None => false end.

(** The arguments an operation accepts: sizes and linkages listed, a name where
    one is needed, identifiers in range, and a last type of the right kind. *)
Definition args_ok (recs : list (list Z)) (o : btf_op) : bool :=
  let sizes l sz := existsb (Z.eqb sz) l in
  let id := validate_type_id in
  match o with
  | AddInt n sz e => nonempty n && sizes [1; 2; 4; 8; 16] sz && ((0 <=? e) && (e <? 8))
  | AddFloat n sz => nonempty n && sizes [2; 4; 8; 12; 16] sz
  | AddEnum _ sz | AddEnum64 _ sz _ => sizes [1; 2; 4; 8] sz
  | AddFwd n k => nonempty n && ((0 <=? k) && (k <=? 2))
  | AddPtr i | AddVolatile i | AddConst i | AddRestrict i | AddFuncProto i => id i
  | AddArray i e _ => id i && id e
  | AddStruct _ _ | AddUnion _ _ => true
  | AddTypedef n i | AddTypeTag n i => nonempty n && id i
  | AddFunc n l i | AddVar n l i => nonempty n && ((0 <=? l) && (l <=? 2)) && id i
  | AddDatasec n _ => nonempty n
  | AddDeclTag n i c => nonempty n && (-1 <=? c) && id i
  | AddField _ i off sz =>
      last_in recs [STRUCT; UNION] && id i
      && (if (sz =? 0) && (off mod 8 =? 0) then true else (1 <=? sz) && (sz <=? 255) && (off <? 2 ^ 24))
      && (negb (last_in recs [UNION]) || (off =? 0))
  | AddEnumValue n v => last_in recs [ENUM] && nonempty n && ((- 2 ^ 31 <=? v) && (v <? 2 ^ 32))
  | AddEnum64Value n _ => last_in recs [ENUM64] && nonempty n
  | AddFuncParam _ i => last_in recs [FUNC_PROTO] && id i
  | AddDatasecVar i _ _ => last_in recs [DATASEC] && id i
  end.

(** The error of rejected arguments. *)
Definition arg_error (recs : list (list Z)) (o : btf_op) : Z :=
  match o with
  | AddEnumValue n _ => if last_in recs [ENUM] && nonempty n then - E2BIG else - EINVAL
  | _ => - EINVAL
  end.

(** Whether a type is added, and the bytes that are added. *)
Definition op_type (o : btf_op) : bool := match type_words o with Some _ => true | None => false end.
Definition op_bytes (o : btf_op) : Z :=
  match type_words o, member_words o with
  | Some words, _ | None, Some (words, _) => 4 * zlen (words 0)
  | None, None => 0
  end.

(** The ranges of the types of the arguments. *)
Definition op_range (o : btf_op) : Prop :=
  name_opt_ok (op_name o) ∧
  match o with
  | AddInt _ sz _ => 0 <= sz
  | AddEnum _ sz | AddEnum64 _ sz _ => 0 <= sz
  | AddField _ _ _ sz => 0 <= sz
  | _ => True
  end.

Section run.
Variable ext : list Z.
Context (malloc : heap → option Z) (calloc : Z → bool) `{!Allocator malloc calloc}.
Variable realloc : Z → bool.
Variable block : Z → bool.

Definition run_op (o : btf_op) (b : btf) (h : heap) : option (Z * btf * heap) :=
  match o with
  | AddInt n sz e => btf__add_int malloc calloc realloc block b h n sz e
  | AddFloat n sz => btf__add_float malloc calloc realloc block b h n sz
  | AddPtr id => btf__add_ptr malloc calloc realloc block b h id
  | AddArray i e n => btf__add_array malloc calloc realloc block b h i e n
  | AddStruct n sz => btf__add_struct malloc calloc realloc block b h n sz
  | AddUnion n sz => btf__add_union malloc calloc realloc block b h n sz
  | AddField n id off sz => btf__add_field malloc calloc realloc block b h n id off sz
  | AddEnum n sz => btf__add_enum malloc calloc realloc block b h n sz
  | AddEnumValue n v => btf__add_enum_value malloc calloc realloc block b h n v
  | AddEnum64 n sz s => btf__add_enum64 malloc calloc realloc block b h n sz s
  | AddEnum64Value n v => btf__add_enum64_value malloc calloc realloc block b h n v
  | AddFwd n k => btf__add_fwd malloc calloc realloc block b h n k
  | AddTypedef n id => btf__add_typedef malloc calloc realloc block b h n id
  | AddVolatile id => btf__add_volatile malloc calloc realloc block b h id
  | AddConst id => btf__add_const malloc calloc realloc block b h id
  | AddRestrict id => btf__add_restrict malloc calloc realloc block b h id
  | AddTypeTag v id => btf__add_type_tag malloc calloc realloc block b h v id
  | AddFunc n l id => btf__add_func malloc calloc realloc block b h n l id
  | AddFuncProto id => btf__add_func_proto malloc calloc realloc block b h id
  | AddFuncParam n id => btf__add_func_param malloc calloc realloc block b h n id
  | AddVar n l id => btf__add_var malloc calloc realloc block b h n l id
  | AddDatasec n sz => btf__add_datasec malloc calloc realloc block b h n sz
  | AddDatasecVar id off sz => btf__add_datasec_var_info malloc calloc realloc block b h id off sz
  | AddDeclTag v id c => btf__add_decl_tag malloc calloc realloc block b h v id c
  end.

(** What an operation does to the records and the strings. *)
Inductive op_effect (o : btf_op) (recs all : list (list Z)) (ret : Z) (recs' all' : list (list Z)) : Prop :=
| eff_rejected :
    args_ok recs o = false → ret = arg_error recs o → recs' = recs → all' = all → op_effect o recs all ret recs' all'
| eff_no_memory :
    args_ok recs o = true → ret = - ENOMEM → no_memory malloc calloc realloc block recs all (op_name o) (op_bytes o) (op_type o) →
    recs' = recs → names_grow all all' (op_name o) → op_effect o recs all ret recs' all'
| eff_type words off :
    args_ok recs o = true → type_words o = Some words → ret = zlen recs + 1 →
    names_grow all all' (op_name o) → name_at all' (op_name o) off → 0 <= off < 2 ^ 31 →
    recs' = recs ++ [enc (words off)] → op_effect o recs all ret recs' all'
| eff_member words new_info l r info off :
    args_ok recs o = true → member_words o = Some (words, new_info) → ret = 0 → recs = l ++ [r] → t_info (TypeAt r 0) = Some info →
    names_grow all all' (op_name o) → name_at all' (op_name o) off → 0 <= off < 2 ^ 31 →
    recs' = l ++ [with_info r (new_info info) ++ enc (words off)] → op_effect o recs all ret recs' all'.

(** An operation that returns, with the invariant and its effect. *)
Definition op_runs (h0 : heap) (recs all : list (list Z)) (o : btf_op) (run : option (Z * btf * heap)) : Prop :=
  ∃ ret b' h' recs' all' chs', run = Some (ret, b', h') ∧ built ext h0 b' h' recs' all' chs' ∧ op_effect o recs all ret recs' all'.

Lemma op_fails h0 b h recs all chs o err :
  built ext h0 b h recs all chs → args_ok recs o = false → err = arg_error recs o → op_runs h0 recs all o (Some (err, b, h)).
Proof. intros Hb Ha He. exists err, b, h, recs, all, chs. split; [done|]. split; [done|]. by apply eff_rejected. Qed.

(** The functions that add a type. *)
Lemma op_named h0 b h recs all chs o sz words :
  built ext h0 b h recs all chs → name_opt_ok (op_name o) → args_ok recs o = true → type_words o = Some words →
  (∀ off, rec_words (words off) ∧ 4 * zlen (words off) = sz) →
  op_runs h0 recs all o (add_named malloc calloc realloc block b h sz (op_name o) words).
Proof.
  intros Hb Hn Ha Hw Hr. destruct (add_named_ok ext malloc calloc realloc block _ _ _ _ _ _ sz _ words Hb Hn Hr)
    as (id & b' & h' & recs' & all' & chs' & -> & Hb' & _ & Hg & Hres).
  exists id, b', h', recs', all', chs'. split; [done|]. split; [done|]. destruct Hres as [(-> & -> & Hno)|(-> & off & Hat & Ho & ->)].
  - apply eff_no_memory; try done. unfold op_bytes, op_type. rewrite Hw. destruct (Hr 0) as [_ <-] in Hno. exact Hno.
  - by apply (eff_type o recs all _ _ _ words off).
Qed.

(** Those that change the [info] of the new type. *)
Lemma op_named_info h0 b h recs all chs o x i i' ws :
  built ext h0 b h recs all chs → name_opt_ok (op_name o) → args_ok recs o = true → type_words o = Some (λ off, x off :: i' :: ws) →
  (∀ off, rec_words (x off :: i :: ws)) → (∀ off, rec_words (x off :: i' :: ws)) →
  op_runs h0 recs all o ('(id, b, h) ← add_named malloc calloc realloc block b h (4 * zlen (0 :: i :: ws)) (op_name o) (λ off, x off :: i :: ws);
    if id <=? 0 then Some (id, b, h) else t ← btf_type_by_id b id; b ← set_info b t i'; Some (id, b, h)).
Proof.
  intros Hb Hn Ha Hw Hr Hr'.
  destruct (add_named_ok ext malloc calloc realloc block _ _ _ _ _ _ (4 * zlen (0 :: i :: ws)) (op_name o) (λ off, x off :: i :: ws) Hb Hn)
    as (id & b' & h' & recs' & all' & chs' & -> & Hb' & Hmod & Hg & Hres); [by intros off; split|].
  rewrite bind_Some. destruct Hres as [(-> & -> & Hno)|(-> & off & Hat & Ho & ->)].
  { exists (- ENOMEM), b', h', recs, all', chs'. split; [done|]. split; [done|]. apply eff_no_memory; try done.
    unfold op_bytes, op_type. by rewrite Hw. }
  destruct (Z.leb_spec (zlen recs + 1) 0); [lia|].
  destruct (retype_ok ext h0 b' h' recs (x off) i ws i' all' chs' Hb' (Hmod ltac:(lia)) (Hr' off)) as (t & b2 & -> & Hset & Hb2).
  rewrite bind_Some, Hset, bind_Some. exists (zlen recs + 1), b2, h', (recs ++ [enc (x off :: i' :: ws)]), all', chs'.
  split; [done|]. split; [done|]. by apply (eff_type o recs all _ _ _ (λ off, x off :: i' :: ws) off).
Qed.

Lemma rec_words_info k vlen kflag x ws :
  In k kinds → 0 <= vlen < 2 ^ 16 → 0 <= kflag <= 1 → kind_size k vlen = 4 * zlen (x :: 0 :: ws) →
  rec_words (x :: btf_type_info (kind_num k) vlen kflag :: ws).
Proof. intros Hk Hv Hf Hs. exists (btf_type_info (kind_num k) vlen kflag). split; [done|]. by rewrite rec_size_info. Qed.

Lemma b2z_range x : 0 <= Z.b2z x <= 1.
Proof. by destruct x. Qed.

(** The checks of a size that is a power of two. *)
Lemma int_size sz : 0 <= sz →
  ((sz =? 0) || negb (Z.land sz (u64 (sz - 1)) =? 0) || (16 <? sz)) = negb (existsb (Z.eqb sz) [1; 2; 4; 8; 16]).
Proof.
  intros H. assert (16 < sz ∨ In sz (map Z.of_nat (seq 0 17))) as [Hs|Hs].
  { destruct (Z.ltb_spec 16 sz); [by left|right; apply in_map_iff; exists (Z.to_nat sz); split; [lia|apply in_seq; lia]]. }
  - cbn. rewrite (proj2 (Z.ltb_lt 16 sz) Hs), orb_true_r. lia.
  - vm_compute in Hs. by repeat destruct Hs as [<-|Hs].
Qed.

Lemma enum_size sz : 0 <= sz →
  ((sz =? 0) || negb (Z.land sz (u32 (sz - 1)) =? 0) || (8 <? sz)) = negb (existsb (Z.eqb sz) [1; 2; 4; 8]).
Proof.
  intros H. assert (8 < sz ∨ In sz (map Z.of_nat (seq 0 9))) as [Hs|Hs].
  { destruct (Z.ltb_spec 8 sz); [by left|right; apply in_map_iff; exists (Z.to_nat sz); split; [lia|apply in_seq; lia]]. }
  - cbn. rewrite (proj2 (Z.ltb_lt 8 sz) Hs), orb_true_r. lia.
  - vm_compute in Hs. by repeat destruct Hs as [<-|Hs].
Qed.

Lemma int_encoding e : (Z.land e (Z.lnot 7) =? 0) = ((0 <=? e) && (e <? 8)).
Proof.
  rewrite <- Z.ldiff_land. change 7 with (Z.ones 3) at 1. rewrite Z.ldiff_ones_r by lia.
  rewrite Z.shiftl_mul_pow2, Z.shiftr_div_pow2 by lia. change (2 ^ 3) with 8.
  pose proof (Z.mod_pos_bound e 8). pose proof (Z.div_mod e 8). destruct (Z.leb_spec 0 e), (Z.ltb_spec e 8); cbn; lia.
Qed.

(** Guards that return an error; the words of a new record. *)
Ltac split_tests := repeat match goal with
  | H : context [nonempty ?n] |- _ => destruct (nonempty n)
  | H : context [validate_type_id ?i] |- _ => destruct (validate_type_id i)
  | H : context [existsb ?f ?l] |- _ => destruct (existsb f l)
  | H : context [last_in ?r ?l] |- _ => destruct (last_in r l)
  end; cbn [negb andb orb] in *; try done; try lia.
Ltac op_guards H := repeat match goal with
  |- op_runs _ _ _ _ (if ?c then _ else _) =>
    let E := fresh "E" in destruct c eqn:E;
      [apply H; [apply not_true_is_false; intros Hargs; cbn [args_ok] in Hargs; split_tests|cbn [arg_error]; first [reflexivity | split_tests]]|]
  end.
Ltac op_words := intros ?; split; [apply rec_words_info; [cbn; tauto|lia|first [lia|apply b2z_range]|reflexivity]|reflexivity].

(** The functions that add a type keep the invariant. *)
Section ops.
Context (h0 : heap) (b : btf) (h : heap) (recs all : list (list Z)) (chs : list (list centry)).
Hypothesis Hb : built ext h0 b h recs all chs.

Lemma op_fwd_ok name k : name_opt_ok name → op_runs h0 recs all (AddFwd name k) (run_op (AddFwd name k) b h).
Proof.
  intros Hn. pose proof (λ err, op_fails h0 b h recs all chs (AddFwd name k) err Hb) as Hfail.
  cbn [run_op]. unfold btf__add_fwd. op_guards Hfail. apply negb_false_iff in E.
  destruct ((k =? BTF_FWD_STRUCT) || (k =? BTF_FWD_UNION)) eqn:Ek.
  - assert ((k =? BTF_FWD_ENUM) = false ∧ args_ok recs (AddFwd name k) = true) as [Ek2 Ha].
    { cbn [args_ok]. rewrite E. apply orb_true_iff in Ek as [Ek|Ek]; apply Z.eqb_eq in Ek; subst k; by split. }
    unfold btf_add_ref_kind. change (negb (validate_type_id 0)) with false. cbv iota.
    apply (op_named_info h0 b h recs all chs (AddFwd name k) (λ off, off) (btf_type_info (kind_num FWD) 0 0)
      (btf_type_info (kind_num FWD) 0 (Z.b2z (k =? BTF_FWD_UNION))) [0] Hb Hn Ha).
    + cbn [type_words]. by rewrite Ek2.
    + intros off. apply rec_words_info; [cbn; tauto|lia|lia|reflexivity].
    + intros off. apply rec_words_info; [cbn; tauto|lia|apply b2z_range|reflexivity].
  - destruct (Z.eqb_spec k BTF_FWD_ENUM) as [->|Hne].
    + unfold btf__add_enum, btf_add_enum_common. change ((4 =? 0) || negb (Z.land 4 (u32 (4 - 1)) =? 0) || (8 <? 4)) with false. cbv iota.
      apply (op_named h0 b h recs all chs (AddFwd name BTF_FWD_ENUM)); [done|done|cbn [args_ok]; by rewrite E|reflexivity|op_words].
    + apply Hfail; [|done]. cbn [args_ok]. unfold BTF_FWD_STRUCT, BTF_FWD_UNION, BTF_FWD_ENUM in *. lia.
Qed.

Lemma op_func_ok name l id : name_opt_ok name → op_runs h0 recs all (AddFunc name l id) (run_op (AddFunc name l id) b h).
Proof.
  intros Hn. pose proof (λ err, op_fails h0 b h recs all chs (AddFunc name l id) err Hb) as Hfail.
  cbn [run_op]. unfold btf__add_func, btf_add_ref_kind. unfold linkage_ok. op_guards Hfail.
  destruct (validate_type_id id) eqn:Ei; cbn [negb].
  - apply (op_named_info h0 b h recs all chs (AddFunc name l id) (λ off, off) (btf_type_info (kind_num FUNC) 0 0)
      (btf_type_info (kind_num FUNC) l 0) [id] Hb Hn); [cbn [args_ok]; split_tests|done|..]; intros off; (apply rec_words_info; [cbn; tauto|lia|lia|reflexivity]).
  - rewrite bind_Some. change (- EINVAL <=? 0) with true. cbv iota. apply Hfail; [|done]. cbn [args_ok]. by rewrite Ei, andb_false_r.
Qed.

Lemma op_type_ok o : op_range o → type_words o ≠ None → op_runs h0 recs all o (run_op o b h).
Proof.
  intros [Hn Hr] Hw. pose proof (λ err, op_fails h0 b h recs all chs o err Hb) as Hfail.
  pose proof (λ sz words, op_named h0 b h recs all chs o sz words Hb Hn) as Hnamed.
  destruct o; try done; try (by apply op_fwd_ok); try (by apply op_func_ok); cbn [run_op];
    unfold btf__add_int, btf__add_float, btf__add_ptr, btf__add_array, btf__add_struct, btf__add_union, btf__add_enum, btf__add_enum64,
      btf__add_typedef, btf__add_volatile, btf__add_const, btf__add_restrict, btf__add_type_tag, btf__add_func_proto, btf__add_var,
      btf__add_datasec, btf__add_decl_tag, btf_add_ref_kind, btf_add_composite, btf_add_enum_common, linkage_ok;
    rewrite ?int_encoding, ?int_size, ?enum_size by done;
    op_guards Hfail; (apply Hnamed; [cbn [args_ok]; split_tests|reflexivity|op_words]).
Qed.

(** The last type has room for another member in its [info]. *)
Definition vlen_room (recs : list (list Z)) : Prop :=
  ∀ l r info, recs = l ++ [r] → t_info (TypeAt r 0) = Some info → BTF_INFO_VLEN info < 2 ^ 16 - 1.

Lemma kind_num_of n k : 0 <= n < 32 → kind_of_num n = k → In k kinds → n = kind_num k.
Proof.
  intros Hn <- Hk. assert (0 <= n < 20 ∨ 20 <= n < 32) as [Hs|Hs] by lia.
  - assert (In n (map Z.of_nat (seq 0 20))) as Hin by (apply in_map_iff; exists (Z.to_nat n); split; [lia|apply in_seq; lia]).
    vm_compute in Hin. by repeat destruct Hin as [<-|Hin].
  - assert (In n (map Z.of_nat (seq 20 12))) as Hin by (apply in_map_iff; exists (Z.to_nat n); split; [lia|apply in_seq; lia]).
    vm_compute in Hin. repeat destruct Hin as [<-|Hin]; try done; vm_compute in Hk; intuition congruence.
Qed.

Lemma info_kind_range info : 0 <= BTF_INFO_KIND info < 32.
Proof.
  unfold BTF_INFO_KIND. assert (∀ y, Z.land y 0x1f = y mod 2 ^ 5) as -> by (intros y; by rewrite <- Z.land_ones).
  by apply Z.mod_pos_bound.
Qed.

Lemma member_info k info kflag :
  word_ok info → kind_of_num (BTF_INFO_KIND info) = k → In k kinds → BTF_INFO_VLEN info < 2 ^ 16 - 1 →
  let info' := btf_type_inc_vlen info kflag in
  BTF_INFO_KIND info' = kind_num k ∧ BTF_INFO_VLEN info' = BTF_INFO_VLEN info + 1 ∧ rec_size (u32 info') = kind_size k (BTF_INFO_VLEN info + 1).
Proof.
  intros Hok Hk Hin Hv. pose proof (vlen_range info ltac:(unfold word_ok in Hok; lia)) as Hv0.
  pose proof (info_kind_range info) as Hn.
  pose proof (kind_num_of _ k Hn Hk Hin) as E. unfold btf_type_inc_vlen. rewrite E in Hn |- *.
  destruct (kind_of_info k (BTF_INFO_VLEN info + 1) (Z.b2z kflag)) as (_ & E1 & E2 & _); [lia|lia|apply b2z_range|].
  split; [done|]. split; [done|]. by apply rec_size_info; [|lia|apply b2z_range].
Qed.

(** The last record. *)
Lemma last_record :
  recs = [] ∨ ∃ l r t info, recs = l ++ [r] ∧ btf_last_type b = Some t ∧ t_info t = Some info ∧ t_info (TypeAt r 0) = Some info ∧ word_ok info
      ∧ rec_size info = zlen r ∧ last_kind recs = Some (kind_of_num (BTF_INFO_KIND info)).
Proof.
  pose proof (bt_own _ _ _ _ _ _ _ Hb) as Hown. destruct recs as [|r l _] eqn:E using rev_ind; [by left|]. right.
  pose proof (ok_recs _ _ _ Hown) as Hr. apply Forall_app in Hr as [_ Hr]. apply Forall_cons_iff in Hr as [(Hbr & info & Hi & Hs) _].
  destruct (last_type_info b l r all info Hown Hi) as (t & Ht & Hti). exists l, r, t, info.
  pose proof (info_range _ _ Hbr Hi). split_and!; try done. unfold last_kind. rewrite length_app, Nat.add_comm. cbn [length Nat.add pred].
  by rewrite list_lookup_middle, bind_Some, Hi.
Qed.

(** The guards of the functions that add a member. *)
Lemma last_is_kind k : last_is (is_kind k) b = Some (last_in recs [k]).
Proof.
  unfold last_is, last_in. rewrite (ok_nr _ _ _ (bt_own _ _ _ _ _ _ _ Hb)).
  destruct last_record as [->|(l & r & t & info & -> & -> & Ht & _ & _ & _ & ->)]; [done|].
  rewrite length_app. cbn [length]. destruct (Z.eqb_spec (Z.of_nat (length l + 1)) 0); [lia|].
  unfold is_kind, btf_kind. rewrite bind_Some, Ht, !bind_Some. cbn [existsb]. by rewrite orb_false_r.
Qed.

Lemma last_is_composite : last_is btf_is_composite b = Some (last_in recs [STRUCT; UNION]).
Proof.
  unfold last_is, last_in. rewrite (ok_nr _ _ _ (bt_own _ _ _ _ _ _ _ Hb)).
  destruct last_record as [->|(l & r & t & info & -> & -> & Ht & _ & _ & _ & ->)]; [done|].
  rewrite length_app. cbn [length]. destruct (Z.eqb_spec (Z.of_nat (length l + 1)) 0); [lia|].
  unfold btf_is_composite, btf_kind. rewrite bind_Some, Ht, !bind_Some. cbn [existsb]. by rewrite orb_false_r.
Qed.

Lemma last_in_info ks : last_in recs ks = true →
  ∃ l r info, recs = l ++ [r] ∧ t_info (TypeAt r 0) = Some info ∧ word_ok info ∧ rec_size info = zlen r ∧ In (kind_of_num (BTF_INFO_KIND info)) ks.
Proof.
  unfold last_in. destruct last_record as [->|(l & r & t & info & -> & _ & _ & Hi & Hok & Hs & ->)]; [done|].
  intros (k & Hin & Hk)%existsb_exists. apply bool_decide_eq_true_1 in Hk as <-. by exists l, r, info.
Qed.

Lemma op_member words new_info o sz l r info :
  name_opt_ok (op_name o) → args_ok recs o = true → member_words o = Some (words, new_info) → recs = l ++ [r] → t_info (TypeAt r 0) = Some info →
  (∀ off, 4 * zlen (words off) = sz) → rec_size (u32 (new_info info)) = zlen r + sz →
  op_runs h0 recs all o (add_member malloc calloc realloc block b h sz (op_name o) words new_info).
Proof.
  intros Hn Ha Hw Er Hi Hws Hsz. pose proof Hb as Hb'. rewrite Er in Hb'.
  destruct (add_member_ok ext malloc calloc realloc block h0 b h l r all chs sz _ words new_info info Hb' Hn Hi Hws Hsz)
    as (ret & b' & h' & r' & all' & chs' & -> & Hb2 & Hg & Hres).
  exists ret, b', h', (l ++ [r']), all', chs'. split; [done|]. split; [done|]. destruct Hres as [(-> & -> & Hno)|(-> & off & Hat & Ho & ->)].
  - apply eff_no_memory; try done. rewrite <- Er, <- (Hws 0) in Hno. unfold op_bytes, op_type. rewrite Hw.
    replace (type_words o) with (@None (Z → list Z)); [done|by destruct o].
  - by apply (eff_member o recs all 0 _ _ words new_info l r info off).
Qed.

Lemma op_inc_ok ks o sz words new_info :
  name_opt_ok (op_name o) → vlen_room recs → args_ok recs o = true → last_in recs ks = true → member_words o = Some (words, new_info) →
  (∀ off, 4 * zlen (words off) = sz) → (∀ k, In k ks → In k kinds ∧ ∀ n, kind_size k (n + 1) = kind_size k n + sz) →
  (∀ info, word_ok info → In (kind_of_num (BTF_INFO_KIND info)) ks → BTF_INFO_VLEN info < 2 ^ 16 - 1 →
     (∃ kf, new_info info = btf_type_inc_vlen info kf)
     ∨ new_info info = btf_type_info (kind_num (kind_of_num (BTF_INFO_KIND info))) (BTF_INFO_VLEN info + 1) 1) →
  op_runs h0 recs all o (add_member malloc calloc realloc block b h sz (op_name o) words new_info).
Proof.
  intros Hn Hroom Ha Hlast Hw Hws Hks Hnew. destruct (last_in_info ks Hlast) as (l & r & info & Er & Hi & Hok & Hs & Hin).
  pose proof (Hroom l r info Er Hi) as Hv. destruct (Hks _ Hin) as [Hkk Hinc].
  apply (op_member words new_info o sz l r info Hn Ha Hw Er Hi Hws). rewrite <- Hs, (rec_size_kind info), <- Hinc.
  destruct (Hnew info Hok Hin Hv) as [[kf ->] | ->]; [by apply member_info|]. apply rec_size_info; [done| |lia].
  pose proof (vlen_range info ltac:(unfold word_ok in Hok; lia)). lia.
Qed.

Ltac member_sizes := intros k Hk; cbn in Hk; repeat destruct Hk as [<-|Hk]; try done; (split; [cbn; tauto|intros n; cbn; lia]).

Lemma op_field_ok name id off sz :
  op_range (AddField name id off sz) → vlen_room recs → op_runs h0 recs all (AddField name id off sz) (run_op (AddField name id off sz) b h).
Proof.
  intros [Hn Hsz] Hroom. pose proof (λ err, op_fails h0 b h recs all chs (AddField name id off sz) err Hb) as Hfail.
  cbn [run_op]. unfold btf__add_field, btf_is_union. rewrite last_is_composite, last_is_kind, !bind_Some. op_guards Hfail.
  all: try (destruct (sz =? 0) eqn:?, (off mod 8 =? 0) eqn:?; split_tests; fail).
  - assert (args_ok recs (AddField name id off sz) = true ∧ last_in recs [STRUCT; UNION] = true) as [Ha Hl].
    { cbn [args_ok]. destruct (sz =? 0) eqn:?, (off mod 8 =? 0) eqn:?; split_tests. }
    apply (op_inc_ok [STRUCT; UNION] (AddField name id off sz) 12 _ _ Hn Hroom Ha Hl eq_refl); [done|member_sizes|].
    intros info _ _ _. left. by eexists.
Qed.

Lemma op_member_ok o : op_range o → member_words o ≠ None → vlen_room recs → op_runs h0 recs all o (run_op o b h).
Proof.
  intros [Hn Hr] Hw Hroom. pose proof (λ err, op_fails h0 b h recs all chs o err Hb) as Hfail.
  destruct o; try done; try (by apply op_field_ok); cbn [run_op];
    unfold btf__add_enum_value, btf__add_enum64_value, btf__add_func_param, btf__add_datasec_var_info;
    unfold btf_is_enum, btf_is_enum64, btf_is_func_proto, btf_is_datasec; rewrite last_is_kind, !bind_Some; op_guards Hfail.
  - apply (op_inc_ok [ENUM] (AddEnumValue name value) 8 _ _ Hn Hroom); [cbn [args_ok]|by destruct (last_in _ _)|reflexivity|done|member_sizes|]; [split_tests|].
    intros info Hok [Ek|[]] Hv. destruct (member_info ENUM info (kflag_of info) Hok (eq_sym Ek)) as (I1 & I2 & _); [cbn; tauto|done|].
    rewrite I1, I2, <- Ek. destruct (_ <? 0); [by right|left; by eexists].
  - apply (op_inc_ok [ENUM64] (AddEnum64Value name value) 12 _ _ Hn Hroom); [cbn [args_ok]|by destruct (last_in _ _)|reflexivity|done|member_sizes|]; [split_tests|].
    intros info _ _ _. left. by eexists.
  - apply (op_inc_ok [FUNC_PROTO] (AddFuncParam name type_id) 8 _ _ Hn Hroom); [cbn [args_ok]|by destruct (last_in _ _)|reflexivity|done|member_sizes|]; [split_tests|].
    intros info _ _ _. left. by eexists.
  - apply (op_inc_ok [DATASEC] (AddDatasecVar var_type_id offset byte_sz) 12 _ _ Hn Hroom); [cbn [args_ok]|by destruct (last_in _ _)|reflexivity|done|member_sizes|];
      [split_tests|]. intros info _ _ _. left. by eexists.
Qed.
End ops.
End run.
