(* ===== verification/BtfRoundtrip.v ===== *)
(** * Writing BTF out and reading it back

    What an object that is built is written out as, in either byte order, and
    that the parser reads the same types and strings from it; the steps of a
    client that builds an object, asks for its data and changes its byte order. *)

From stdpp Require Import gmap.
From S2P Require Import Prelude Hashmap HashmapCorrect Strset StrsetCorrect Bytes Btf BtfBuild BtfRecords BtfCorrect BtfTypes BtfBuildCorrect.

#[local] Opaque hdr_bytes.

(** ** The header in the other byte order *)

Lemma bswap32_involutive x : word_ok x → bswap32 (bswap32 x) = x.
Proof.
  intros Hx. rewrite <- (u32_small x Hx), <- u32_le_bytes.
  pose proof (u8_ok x) as H0. pose proof (u8_ok (Z.shiftr x 8)) as H1. pose proof (u8_ok (Z.shiftr x 16)) as H2. pose proof (u8_ok (Z.shiftr x 24)) as H3.
  by rewrite !bswap32_bytes.
Qed.

Lemma btf_bswap_hdr_involutive hd : hdr_ok hd → btf_bswap_hdr (btf_bswap_hdr hd) = hd.
Proof.
  intros []. unfold btf_bswap_hdr. cbn. rewrite bswap16_involutive, !bswap32_involutive by done. by destruct hd.
Qed.

(** ** Reading *)

(** The data of an object in native or in the other byte order. *)
Definition data_of (sw : bool) (hd : btf_header) (rest : list Z) (recs all : list (list Z)) : list Z :=
  if sw then swapped_image hd rest recs all else image hd rest recs all.

(** A header whose sections follow it without gaps; in the other byte order
    only the known fields are supported. *)
Record tight (sw : bool) (hd : btf_header) (rest : list Z) (recs all : list (list Z)) : Prop := {
  ti_hdr : hdr_ok hd;
  ti_magic : magic hd = BTF_MAGIC;
  ti_len : hdr_len hd = sizeof_hdr + zlen rest;
  ti_rest : bytes_ok rest ∧ (sw = true → rest = []);
  ti_off : type_off hd = 0 ∧ str_off hd = type_len hd;
  ti_types : type_len hd = zlen (concat recs) ∧ Forall rec_ok recs;
  ti_strs : str_len hd = zlen (pack all) ∧ Forall nul_free all ∧ Forall bytes_ok all ∧ hd_error all = Some [];
  ti_max : sizeof_hdr + zlen rest + zlen (concat recs) + zlen (pack all) < 2 ^ 32;
  ti_ids : zlen recs + 1 < 2 ^ 31;
  ti_str_max : zlen (pack all) <= 2 ^ 31;
}.

Lemma pack_ok all : Forall bytes_ok all → bytes_ok (pack all).
Proof.
  induction 1 as [|s all Hs _ IH]; [constructor|]. rewrite pack_cons. apply Forall_app. split; [done|]. by constructor.
Qed.

Lemma dec_concat_length sw recs : Forall rec_ok recs → length (dec sw (concat recs)) = length (concat recs).
Proof. intros H. destruct (concat_words recs H) as [n Hn]. by rewrite (dec_length _ _ n). Qed.

Lemma data_of_eq sw hd rest recs all :
  data_of sw hd rest recs all = hdr_bytes (if sw then btf_bswap_hdr hd else hd) ++ rest ++ dec sw (concat recs) ++ pack all.
Proof. by destruct sw. Qed.

Lemma data_of_length sw hd rest recs all :
  Forall rec_ok recs → zlen (data_of sw hd rest recs all) = sizeof_hdr + zlen rest + zlen (concat recs) + zlen (pack all).
Proof. intros H. rewrite data_of_eq, !length_app, hdr_bytes_length, dec_concat_length by done. unfold sizeof_hdr. lia. Qed.

Lemma data_of_bytes sw hd rest recs all : tight sw hd rest recs all → bytes_ok (data_of sw hd rest recs all).
Proof.
  intros [Hh _ _ [Hr _] _ [_ Ht] (_ & _ & Hb & _)]. rewrite data_of_eq. destruct (concat_words recs Ht) as [n Hn].
  apply Forall_app. split; [apply hdr_bytes_ok; destruct sw; [by apply btf_bswap_hdr_ok|done]|].
  apply Forall_app. split; [done|]. apply Forall_app. split; [by apply (dec_ok _ _ n), records_ok|by apply pack_ok].
Qed.

(** The header of the data is accepted. *)
Lemma parse_hdr_image sw hd rest recs all :
  tight sw hd rest recs all →
  btf_parse_hdr (zlen (data_of sw hd rest recs all)) (data_of sw hd rest recs all)
  = Some (inr (hdr_bytes hd ++ rest ++ dec sw (concat recs) ++ pack all, hd, sw)).
Proof.
  intros [Hh Hm Hl [Hr Hsw] [Ho Hso] [Htl Ht] (Hsl & _ & _ & _) Hmax _ _]. unfold btf_parse_hdr. rewrite data_of_length by done.
  case Z.ltb_spec; intros Hlt; [unfold sizeof_hdr in Hlt; lia|]. rewrite data_of_eq, ld_hdr_bytes by (destruct sw; [by apply btf_bswap_hdr_ok|done]).
  rewrite bind_Some.
  assert (∀ raw, btf_check_hdr (sizeof_hdr + zlen rest + zlen (concat recs) + zlen (pack all)) raw hd sw = inr (raw, hd, sw)) as Hc.
  { intros raw. unfold btf_check_hdr. rewrite Hl, Hso, Htl, Hsl, Ho.
    case Z.ltb_spec; intros H1; [lia|]. case Z.ltb_spec; intros H2; [lia|]. case Z.ltb_spec; intros H3; [lia|]. done. }
  destruct sw.
  - change (magic (btf_bswap_hdr hd)) with (bswap16 (magic hd)). rewrite Hm, Z.eqb_refl.
    change (hdr_len (btf_bswap_hdr hd)) with (bswap32 (hdr_len hd)). rewrite bswap32_involutive by by destruct Hh.
    rewrite (Hsw eq_refl) in Hl. rewrite Hl. change (negb (sizeof_hdr + zlen [] =? sizeof_hdr)) with false. cbv iota.
    rewrite btf_bswap_hdr_involutive, st_hdr_eq by (done || rewrite length_app, hdr_bytes_length; lia). rewrite bind_Some, Hc.
    by rewrite drop_app_length'.
  - rewrite Hm. change (BTF_MAGIC =? bswap16 BTF_MAGIC) with false. change (negb (BTF_MAGIC =? BTF_MAGIC)) with false. cbv iota. by rewrite Hc.
Qed.

Lemma decodes_unique sw sec recs recs' : decodes sw sec recs → decodes sw sec recs' → recs = recs'.
Proof.
  intros H1 H2. pose proof H1 as [Hr ->]. destruct (decodes_rest sw recs [] recs' Hr) as (l3 & -> & H3 & E3); [by rewrite app_nil_r|].
  apply (f_equal length) in E3. rewrite dec_concat_length in E3 by done. pose proof (records_count l3 H3).
  destruct l3; [by rewrite app_nil_r|]. cbn [length] in *. lia.
Qed.

Lemma str_sec_image b mem s all :
  btf_strs_data b = (mem, s) → located mem s (pack all) → str_len (hdr b) = zlen (pack all) → zlen (pack all) <= 2 ^ 31 →
  hd_error all = Some [] → base_btf b = None → btf_parse_str_sec b = Some 0.
Proof.
  intros Hd Hloc Hlen Hmax Hfirst Hbase. unfold btf_parse_str_sec, has_base. rewrite Hd, Hlen, Hbase. cbn [andb].
  destruct all as [|x all]; [done|]. injection Hfirst as ->. destruct (pack_snoc ([] :: all)) as [bs Eb]; [done|].
  assert (zlen (pack ([] :: all)) = 1 + zlen (pack all)) as Hl by (rewrite pack_cons; cbn [app length]; lia).
  pose proof (located_range _ _ _ Hloc) as Hr. destruct (Z.eqb_spec (zlen (pack ([] :: all))) 0); [lia|]. cbn [orb].
  rewrite u32_small by (unfold word_ok; lia). case Z.ltb_spec; intros Hm; [unfold BTF_MAX_STR_OFFSET in Hm; lia|].
  replace (s + zlen (pack ([] :: all)) - 1) with (s + zlen bs) by (rewrite Eb, length_app; cbn [length]; lia).
  rewrite (aget_located mem s (pack ([] :: all))) by (done || rewrite Eb, length_app; cbn [length]; lia).
  rewrite Eb at 1. rewrite aget_app_r by lia. rewrite Z.sub_diag. change (aget [0] 0) with (Some 0). rewrite bind_Some. cbn [Z.eqb negb].
  pose proof (aget_located mem s (pack ([] :: all)) 0 Hloc ltac:(lia)) as Hf. rewrite Z.add_0_r in Hf. by rewrite Hf.
Qed.

(** The parser reads the records and the strings back. *)
Lemma btf_new_image realloc sw hd rest recs all :
  tight sw hd rest recs all → (∀ n, realloc n = true) →
  ∃ b, btf_new realloc true true (data_of sw hd rest recs all) (zlen (data_of sw hd rest recs all)) None = Some (inr b)
    ∧ own_ok b recs all ∧ base_btf b = None ∧ (start_id b = 1 ∧ start_str_off b = 0) ∧ hdr b = hd ∧ hdr_rest b = rest
    ∧ swapped_endian b = sw ∧ raw_data b = Some (image hd rest recs all) ∧ raw_data_swapped b = None
    ∧ raw_size b = zlen (image hd rest recs all) ∧ btf_is_modifiable b = false.
Proof.
  intros Hti Hre. pose proof (data_of_length sw hd rest recs all (proj2 (ti_types _ _ _ _ _ Hti))) as Hdl.
  pose proof (parse_hdr_image _ _ _ _ _ Hti) as Hph. pose proof Hti as [Hh Hm Hl [Hr Hsw] [Ho Hso] [Htl Ht] (Hsl & Hf & Hb & Hhd) Hmax Hid Hsm].
  unfold btf_new. cbn [negb]. rewrite Nat2Z.id, aget_list_eq by lia. change (Z.to_nat 0) with O. rewrite drop_0, firstn_all, bind_Some, Hph, bind_Some.
  pose proof (dec_concat_length sw recs Ht) as Hdec. set (raw := hdr_bytes hd ++ _) in *. destruct (concat_words recs Ht) as [n Hn].
  assert (take (Z.to_nat (hdr_len hd - sizeof_hdr)) (drop (Z.to_nat sizeof_hdr) raw) = rest) as ->.
  { unfold raw. rewrite drop_app_length' by done. rewrite Hl, take_app_length'; [done|lia]. }
  set (b0 := mkBtf hd rest _ _ _ _ _ _ _ _ _ _ _ _).
  rewrite (str_sec_image b0 raw (hdr_len hd + str_off hd) all) by
    (done || (exists (hdr_bytes hd ++ rest ++ dec sw (concat recs)), []; rewrite app_nil_r, <- !app_assoc; split; [done|];
      rewrite !length_app, hdr_bytes_length, Hdec, Hl, Hso, Htl; unfold sizeof_hdr; lia)).
  rewrite bind_Some. cbn [Z.eqb negb].
  assert (zlen (hdr_bytes hd ++ rest) = hdr_len hd + type_off hd) as Hpre by (rewrite length_app, hdr_bytes_length, Hl, Ho; unfold sizeof_hdr; lia).
  destruct (btf_parse_type_sec_ok realloc b0 (hdr_bytes hd ++ rest) (dec sw (concat recs)) (pack all)) as (ret & b & -> & Hret);
    [by rewrite Hpre; unfold b0, raw; rewrite <- !app_assoc|done..|by cbn; rewrite Hdec|lia|by apply (dec_ok _ _ n), records_ok|].
  rewrite bind_Some. destruct Hret as [[-> (recs' & offs & cap & Hd & Hidx & ->)]|[[_ Hno]|[_ (k & Hk)]]];
    [|by destruct (Hno recs)|by rewrite Hre in Hk].
  apply (decodes_unique _ _ recs) in Hd as <-; [|by split].
  assert ((hdr_bytes hd ++ rest) ++ concat recs ++ pack all = image hd rest recs all) as -> by (unfold image; by rewrite <- app_assoc).
  cbn [Z.eqb negb]. eexists. split; [reflexivity|]. split; [|split_and!; try done].
  - split; cbn; try done; try lia.
    + exists (hdr_bytes hd ++ rest), (pack all). rewrite <- Hpre. unfold image. by rewrite <- app_assoc.
    + exists (hdr_bytes hd ++ rest ++ concat recs), []. rewrite app_nil_r. unfold image. rewrite <- !app_assoc. split; [done|].
      rewrite !length_app, hdr_bytes_length, Hl, Hso, Htl. unfold sizeof_hdr. lia.
  - change (zlen (data_of sw hd rest recs all) = zlen (image hd rest recs all)). rewrite Hdl. unfold image. rewrite !length_app, hdr_bytes_length. unfold sizeof_hdr. lia.
Qed.

(** ** Writing *)

Lemma aset_list_app (a rem : list Z) off bs : off = zlen a → zlen bs <= zlen rem → aset_list (a ++ rem) off bs = Some ((a ++ bs) ++ drop (length bs) rem).
Proof.
  intros -> H. rewrite aset_list_eq by (rewrite ?length_app; lia). rewrite Nat2Z.id, take_app_length, <- drop_drop, drop_app_length.
  by rewrite <- app_assoc.
Qed.

(** A turn of the loop over the types swaps one record. *)
Lemma swap_out_at offs i pre r post p :
  rec_ok r → aget offs i = Some (zlen pre - p) →
  swap_out_body offs p i (0, pre ++ r ++ post) = Some (Next (0, pre ++ swap_words r ++ post)).
Proof.
  intros Hr Ho. unfold swap_out_body. rewrite Ho, bind_Some. replace (p + (zlen pre - p)) with (zlen pre) by lia.
  pose proof (rec_ok_length r Hr) as [Hl _]. destruct Hr as (Hb & info & Hi & Hs).
  pose proof (info_range _ _ Hb Hi) as Hir. rewrite <- (take_drop 12 r) in Hi, Hb |- *.
  apply Forall_app in Hb as [Hb1 Hb2]. assert (length (take 12 r) = 12%nat) as H12 by (rewrite length_take; lia).
  assert (t_info (TypeAt (take 12 r) 0) = Some info) as Hi2.
  { rewrite <- Hi. unfold t_info. symmetry. apply (t_word_at [] (take 12 r) (drop 12 r) 1); lia. }
  rewrite <- !app_assoc. rewrite (btf_bswap_type_rest_at _ _ _ _ info); [|done|done|done|lia|rewrite length_drop; lia].
  rewrite bind_Some. cbn [Z.eqb negb]. rewrite btf_bswap_type_base_at by done. rewrite bind_Some.
  by rewrite (swap_words_app _ _ 3), <- app_assoc by done.
Qed.

Lemma swap_out_loop offs cap recs pre post :
  index_of offs cap recs → Forall rec_ok recs →
  for_loop 0 (zlen recs) (swap_out_body offs (zlen pre)) (0, pre ++ concat recs ++ post) = Some (0, pre ++ swap_words (concat recs) ++ post).
Proof.
  intros Hidx Hrecs.
  destruct (for_loop_inv (λ i s, s = (0, pre ++ swap_words (concat (take (Z.to_nat i) recs)) ++ concat (drop (Z.to_nat i) recs) ++ post))
    (swap_out_body offs (zlen pre)) 0 (zlen recs) (0, pre ++ concat recs ++ post)) as (s' & -> & ->); [lia| |done|].
  - intros i s Hi ->. destruct (lookup_lt_is_Some_2 recs (Z.to_nat i)) as [r Hr]; [lia|].
    pose proof (index_lookup _ _ _ _ _ Hidx Hr) as Ho. replace (Z.of_nat (Z.to_nat i)) with i in Ho by lia.
    pose proof (Forall_lookup_1 _ _ _ _ Hrecs Hr) as Hro. destruct (concat_words (take (Z.to_nat i) recs)) as [n Hn]; [by apply Forall_take|].
    eexists. rewrite (drop_S _ _ _ Hr). cbn [concat]. rewrite <- (app_assoc r), (app_assoc pre).
    split; [apply (swap_out_at offs i); [done|]|].
    + rewrite Ho, length_app, (swap_words_length _ n) by done. f_equal. lia.
    + replace (Z.to_nat (i + 1)) with (S (Z.to_nat i)) by lia. rewrite (take_S_r _ _ _ Hr), concat_app_single, (swap_words_app _ _ n) by done.
      by rewrite <- !app_assoc.
  - rewrite Nat2Z.id, firstn_all, drop_all. done.
Qed.

Section raw.
Variable block : Z → bool.
Variable ext : list Z.

(** The size of what an object is written out as. *)
Definition raw_len (b : btf) (recs all : list (list Z)) : Z := sizeof_hdr + zlen (hdr_rest b) + zlen (concat recs) + zlen (pack all).

Lemma get_raw_ok h0 b h recs all chs sw :
  built ext h0 b h recs all chs → raw_len b recs all < 2 ^ 32 →
  btf_get_raw_data block b sw =
    Some (if match (if sw then raw_data_swapped b else raw_data b) with Some _ => true | None => block (raw_len b recs all) end
          then Some (data_of sw (hdr b) (hdr_rest b) recs all, raw_len b recs all) else None).
Proof.
  intros [Hown Hbase Hids Hhdr [Hlen Hrb] Ht Hb Hfr [Hcn Hcs] Hfi Hrest Hst] Hmax. unfold btf_get_raw_data.
  change (match store b with Contiguous raw _ _ => Some raw | Separate _ _ _ raw => raw end) with (raw_data b).
  pose proof (ok_recs _ _ _ Hown) as Hrecs. pose proof (data_of_length sw (hdr b) (hdr_rest b) recs all Hrecs) as Hdl. fold (raw_len b recs all) in Hdl.
  destruct (if sw then raw_data_swapped b else raw_data b) as [raw|] eqn:Ec.
  { assert (raw = data_of sw (hdr b) (hdr_rest b) recs all ∧ raw_size b = zlen raw) as [-> ->] by (destruct sw; [by apply Hcs|by apply Hcn]).
    by rewrite Hdl. }
  rewrite Hlen, (ok_type_len _ _ _ Hown), (ok_str_len _ _ _ Hown). fold (raw_len b recs all).
  rewrite u32_small by (unfold word_ok, raw_len, sizeof_hdr in *; lia). destruct (block (raw_len b recs all)); cbn [negb]; [|done].
  assert (hdr_mem b = hdr_bytes (hdr b) ++ hdr_rest b) as ->.
  { unfold hdr_mem. rewrite Hlen. apply take_ge. rewrite length_app, hdr_bytes_length. unfold sizeof_hdr. lia. }
  set (rem0 := replicate _ 0). assert (zlen rem0 = raw_len b recs all) as H0 by (unfold rem0, raw_len, sizeof_hdr in *; rewrite length_replicate; lia).
  rewrite (aset_list_app [] rem0 0) by (done || rewrite ?length_app, hdr_bytes_length; unfold raw_len, sizeof_hdr in *; lia). rewrite bind_Some. cbn [app].
  set (rem1 := drop _ rem0). set (p := sizeof_hdr + zlen (hdr_rest b)).
  assert (zlen rem1 = zlen (concat recs) + zlen (pack all)) as H1.
  { unfold rem1. rewrite length_drop, length_app, hdr_bytes_length. unfold raw_len, sizeof_hdr in *. lia. }
  set (hd := hdr_bytes (if sw then btf_bswap_hdr (hdr b) else hdr b) ++ hdr_rest b).
  assert (zlen hd = p) as Hp by (unfold hd, p; rewrite length_app, hdr_bytes_length; unfold sizeof_hdr; lia).
  assert ((if sw then hd' ← ld_hdr ((hdr_bytes (hdr b) ++ hdr_rest b) ++ rem1);
      st_hdr ((hdr_bytes (hdr b) ++ hdr_rest b) ++ rem1) (btf_bswap_hdr hd') else Some ((hdr_bytes (hdr b) ++ hdr_rest b) ++ rem1)) = Some (hd ++ rem1)) as ->.
  { unfold hd. destruct sw; [|done]. rewrite <- !app_assoc, ld_hdr_bytes by done. rewrite bind_Some, st_hdr_eq.
    - by rewrite drop_app_length' by done.
    - rewrite length_app, hdr_bytes_length. lia. }
  rewrite bind_Some, !Nat2Z.id, (located_list _ _ _ (ok_types _ _ _ Hown)), bind_Some.
  rewrite (aset_list_app hd rem1 p) by (done || lia). rewrite bind_Some. set (rem2 := drop _ rem1).
  assert (zlen rem2 = zlen (pack all)) as H2 by (unfold rem2; rewrite length_drop; lia).
  assert ((if sw then for_loop 0 (nr_types b) (swap_out_body (type_offs b) p) (0, (hd ++ concat recs) ++ rem2) else Some (0, (hd ++ concat recs) ++ rem2))
    = Some (0, (hd ++ dec sw (concat recs)) ++ rem2)) as ->.
  { destruct sw; [|done]. rewrite <- !app_assoc, (ok_nr _ _ _ Hown), <- Hp. exact (swap_out_loop _ _ _ _ _ (ok_index _ _ _ Hown) Hrecs). }
  rewrite bind_Some. cbn [Z.eqb negb]. rewrite (located_list _ _ _ (ok_strs _ _ _ Hown)), bind_Some.
  rewrite aset_list_app by (rewrite ?length_app, ?dec_concat_length by done; lia). rewrite bind_Some.
  assert (drop (length (pack all)) rem2 = []) as -> by (apply nil_length_inv; rewrite length_drop; lia).
  rewrite app_nil_r, data_of_eq. unfold hd. by rewrite <- !app_assoc.
Qed.

Lemma raw_len_data b recs all sw : Forall rec_ok recs → raw_len b recs all = zlen (data_of sw (hdr b) (hdr_rest b) recs all).
Proof. intros H. by rewrite data_of_length. Qed.

(** Keeping the data does not change the object. *)
Lemma btf__raw_data_ok h0 b h recs all chs :
  built ext h0 b h recs all chs → raw_len b recs all < 2 ^ 32 →
  ∃ r b', btf__raw_data block b = Some (r, b') ∧ built ext h0 b' h recs all chs ∧ swapped_endian b' = swapped_endian b
    ∧ (hdr b' = hdr b ∧ hdr_rest b' = hdr_rest b)
    ∧ (r = None ∧ block (raw_len b recs all) = false ∨ r = Some (data_of (swapped_endian b) (hdr b) (hdr_rest b) recs all)).
Proof.
  intros Hb Hmax. unfold btf__raw_data. rewrite (get_raw_ok h0 b h recs all chs _ Hb Hmax), bind_Some.
  destruct (match (if swapped_endian b then raw_data_swapped b else raw_data b) with Some _ => true | None => block (raw_len b recs all) end) eqn:Ec.
  2: { exists None, b. split_and!; try done. left. by destruct (if swapped_endian b then raw_data_swapped b else raw_data b). }
  pose proof Hb as [Hown Hbase Hids Hhdr Hlen Ht Hby Hfr [Hcn Hcs] Hfi Hrest Hst]. pose proof (ok_recs _ _ _ Hown) as Hrecs.
  destruct (swapped_endian b) eqn:Esw.
  - eexists _, _. split; [done|]. split; [|split_and!; [done..|by right]]. split; try done; [by destruct Hown|]. split.
    + intros raw Hr. change (raw_data b = Some raw) in Hr. destruct (Hcn raw Hr) as [-> _]. split; [done|]. by rewrite (raw_len_data b recs all false).
    + intros raw Hr. injection Hr as <-. split; [done|]. by rewrite (raw_len_data b recs all true).
  - eexists _, _. split; [done|]. split; [|split_and!; [by destruct (store b)|by destruct (store b)|by destruct (store b)|by right]].
    unfold raw_data in Hcn. rewrite (raw_len_data b recs all false) by done. cbn [data_of].
    assert (∀ raw, raw_data_swapped b = Some raw → raw = swapped_image (hdr b) (hdr_rest b) recs all ∧ zlen (image (hdr b) (hdr_rest b) recs all) = zlen raw) as Hcs'.
    { intros raw Hr. destruct (Hcs raw Hr) as [-> _]. split; [done|]. change (zlen (data_of false (hdr b) (hdr_rest b) recs all) = zlen (data_of true (hdr b) (hdr_rest b) recs all)).
      by rewrite <- !raw_len_data. }
    destruct (store b) as [raw t s|types cap set raw] eqn:Es.
    + destruct (Hcn raw eq_refl) as [Er _]. split; try done.
      * apply (own_ok_store b); try done; [pose proof (ok_types _ _ _ Hown) as H|pose proof (ok_strs _ _ _ Hown) as H];
          unfold types_data, btf_strs_data in *; rewrite Es, Er in H; exact H.
      * split; [intros raw' Hr; by injection Hr as <-|exact Hcs'].
    + split; try done.
      * apply (own_ok_store b); try done; [pose proof (ok_types _ _ _ Hown) as H|pose proof (ok_strs _ _ _ Hown) as H];
          unfold types_data, btf_strs_data in *; rewrite Es in H; exact H.
      * split; [intros raw' Hr; by injection Hr as <-|exact Hcs'].
Qed.

Lemma btf__set_endianness_ok h0 b h recs all chs e :
  built ext h0 b h recs all chs → built ext h0 (btf__set_endianness b e).2 h recs all chs ∧ hdr_rest (btf__set_endianness b e).2 = hdr_rest b.
Proof.
  intros Hb. unfold btf__set_endianness. destruct (negb (e =? 0) && negb (e =? 1)); [done|]. cbn [snd].
  destruct Hb as [Hown Hbase Hids Hhdr Hlen Ht Hby Hfr [Hcn Hcs] Hfi Hrest Hst].
  set (b1 := with_endian b _). split; [|by destruct (swapped_endian b1)].
  destruct (swapped_endian b1); split; try done; try (by destruct Hown); (by split) || (split; [exact Hcn|done]).
Qed.
End raw.

(** ** New objects *)

Definition new_btf : btf := mkBtf (mkHdr BTF_MAGIC BTF_VERSION 0 sizeof_hdr 0 0 0 1) [] (Contiguous (hdr_bytes (mkHdr BTF_MAGIC BTF_VERSION 0 sizeof_hdr 0 0 0 1) ++ [0]) 24 24)
  [] 0 0 None 1 0 25 None false false sizeof_ptr.

Lemma new_empty_eq : btf__new_empty true true = Some (inr new_btf).
Proof. vm_compute. reflexivity. Qed.

Lemma new_empty_ok h : built [] h new_btf h [] [[]] [].
Proof.
  split; try done.
  - split; try done; try (by constructor).
    + by exists (hdr_bytes (hdr new_btf)), [0].
    + constructor; [by intros ?|done].
    + by exists (hdr_bytes (hdr new_btf)), [].
  - split; [repeat constructor|done].
  - split; [|done]. intros raw Hr. by injection Hr as <-.
Qed.

(** ** What an object is for its readers *)

(** The types are the records, by their identifiers; the strings are found at
    their offsets. *)
Definition reads (b : btf) (recs all : list (list Z)) : Prop :=
  btf__type_cnt b = zlen recs + 1
  ∧ (∀ i r, recs !! i = Some r → ∃ t, btf__type_by_id b (Z.of_nat i + 1) = Some (Some t) ∧ record_at t r)
  ∧ (∀ s o, offset_of 0 all s = Some o → ∃ p, btf__str_by_offset b o = Some (Some p) ∧ c_str p = Some s).

Lemma own_reads b recs all : own_ok b recs all → base_btf b = None → start_id b = 1 ∧ start_str_off b = 0 → reads b recs all.
Proof.
  intros Hown Hbase [Hid Hso]. destruct (own_cnt _ _ _ Hown) as [Hcnt _]. rewrite Hid in Hcnt. split; [lia|]. split.
  - intros i r Hr. destruct (own_type_by_id _ _ _ _ _ Hown Hr) as [E Hat]. eexists. split; [|exact Hat]. pose proof (lookup_lt_Some _ _ _ Hr).
    unfold btf__type_by_id. fold (btf__type_cnt b). rewrite Hcnt. case Z.leb_spec; intros Hle; [lia|].
    rewrite Hid, Z.add_comm in E. by rewrite E.
  - intros s o Ho. pose proof (ok_strs _ _ _ Hown) as Hs. pose proof (ok_str_max _ _ _ Hown) as Hmax.
    assert (holds (pack all) all) as Hh by (split; [exact (ok_free _ _ _ Hown)|]; exists []; by rewrite app_nil_r).
    destruct (cstr_at_offset _ _ _ _ Hh Ho) as (_ & H0 & H1).
    rewrite str_by_offset_eq, Hbase, Hso, (ok_str_len _ _ _ Hown). change (u32 0) with 0. case Z.ltb_spec; intros Hlt; [lia|].
    rewrite Z.sub_0_r, u32_small by (unfold word_ok; lia). case Z.ltb_spec; intros Hlt2; [|lia].
    destruct (btf_strs_data b) as [mem p] eqn:Ed. eexists. split; [done|]. cbn [fst snd] in Hs.
    exact (c_str_offset _ _ _ _ _ Hs (ok_free _ _ _ Hown) Ho).
Qed.

(** ** The steps of a client *)

Inductive btf_step : Type :=
| Op (o : btf_op)
| RawData
| SetEndianness (endian : Z).

(** The number of entries of the last type, as far as it is known. *)
Definition vlen_max (n : Z) (recs : list (list Z)) : Prop :=
  ∀ l r info, recs = l ++ [r] → t_info (TypeAt r 0) = Some info → BTF_INFO_VLEN info <= n.

Lemma vlen_info k v f : BTF_INFO_VLEN (u32 (btf_type_info k v f)) = v mod 2 ^ 16.
Proof.
  unfold btf_type_info. rewrite (u32_small (u32 _)) by apply u32_ok. unfold BTF_INFO_VLEN, u32.
  assert (∀ y, Z.land y 0xffff = y mod 2 ^ 16) as E by (intros y; by rewrite <- Z.land_ones).
  rewrite E, Z.mod_mod_divide by (by exists (2 ^ 16)). rewrite <- E, !Z.land_lor_distr_l.
  assert (Z.land (Z.shiftl f 31) 0xffff = 0) as ->.
  { rewrite E, Z.shiftl_mul_pow2 by lia. replace (f * 2 ^ 31) with (f * 2 ^ 15 * 2 ^ 16) by lia. apply Z.mod_mul. lia. }
  assert (Z.land (Z.shiftl k 24) 0xffff = 0) as ->; [|exact (E v)].
  rewrite E, Z.shiftl_mul_pow2 by lia. replace (k * 2 ^ 24) with (k * 2 ^ 8 * 2 ^ 16) by lia. apply Z.mod_mul. lia.
Qed.

(** What a new record and a new entry look like. *)
Lemma type_words_shape o recs words off : type_words o = Some words → args_ok recs o = true →
  (∃ x k v f ws, words off = x :: btf_type_info k v f :: ws ∧ 0 <= v <= 2) ∧ 4 * zlen (words off) <= 24.
Proof.
  intros Hw Ha. destruct o; try done; cbn [type_words] in Hw; try (destruct (fwd_kind =? BTF_FWD_ENUM)); injection Hw as <-;
    (split; [|cbn [length]; lia]); eexists _, _, _, _, _; (split; [reflexivity|]); try lia.
  cbn [args_ok] in Ha. destruct (nonempty name), (validate_type_id proto_type_id); cbn [andb] in Ha; try done; lia.
Qed.

Lemma member_words_shape o words new_info off info : member_words o = Some (words, new_info) →
  4 * zlen (words off) <= 12 ∧ ∃ k f, new_info info = btf_type_info k ((BTF_INFO_VLEN info + 1) mod 2 ^ 16) f ∨ new_info info = btf_type_info k (BTF_INFO_VLEN info + 1) f.
Proof.
  intros Hw. destruct o; try done; cbn [member_words] in Hw; injection Hw as <- <-; (split; [cbn [length]; lia|]); unfold btf_type_inc_vlen;
    try (eexists _, _; by right).
  destruct (value <? 0); [|eexists _, _; by right]. eexists _, _. left. f_equal.
  rewrite <- (u32_small (btf_type_info _ _ _)) by (unfold btf_type_info; apply u32_ok). apply vlen_info.
Qed.

(** The bytes a step may add to the types and strings. *)
Definition step_cost (s : btf_step) : Z :=
  match s with Op o => 24 + (zlen (default [] (op_name o)) + 1) | _ => 0 end.
Definition steps_cost (steps : list btf_step) : Z := foldr (λ s n, step_cost s + n) 0 steps.

Definition step_ok (s : btf_step) : Prop := match s with Op o => op_range o | _ => True end.

Lemma names_grow_cost all all' name : names_grow all all' name → zlen (pack all') <= zlen (pack all) + (zlen (default [] name) + 1).
Proof. intros [->|[_ ->]]; [lia|]. rewrite pack_app, length_app, pack_cons, length_app. change (pack []) with (@nil Z). cbn [length]. lia. Qed.

(** What one operation adds. *)
Lemma effect_bounds malloc calloc realloc block o recs all ret recs' all' n :
  op_effect malloc calloc realloc block o recs all ret recs' all' → Forall rec_ok recs → vlen_max n recs → 2 <= n →
  vlen_max (n + 1) recs' ∧ zlen (concat recs') + zlen (pack all') <= zlen (concat recs) + zlen (pack all) + step_cost (Op o).
Proof.
  intros He Hrecs Hn H2.
  assert (names_grow all all' (op_name o)) as Hg by (destruct He; subst; [by left|done..]). pose proof (names_grow_cost _ _ _ Hg) as Hc. clear Hg. cbn [step_cost].
  assert (vlen_max (n + 1) recs) as Hsame by (intros l r info E Hi; pose proof (Hn l r info E Hi); lia).
  destruct He as [_ _ -> _|_ _ _ -> _|words off Ha Hw _ _ _ _ ->|words new_info l r info off _ Hm _ -> Hi _ _ _ ->].
  - split; [done|lia].
  - split; [done|lia].
  - destruct (type_words_shape _ _ _ off Hw Ha) as [(x & k & v & f & ws & E & Hv) Hl]. split.
    + intros l r info Er Hi. apply app_inj_tail in Er as [_ <-]. unfold t_info in Hi. rewrite <- (app_nil_r (enc _)) in Hi.
      rewrite (enc_word _ 1 (btf_type_info k v f)) in Hi by (by rewrite E). injection Hi as <-. rewrite vlen_info, Z.mod_small by lia. lia.
    + rewrite concat_app_single, length_app, enc_length. lia.
  - apply Forall_app in Hrecs as [_ Hr]. apply Forall_cons_iff in Hr as [Hr _]. pose proof (rec_ok_length _ Hr) as [Hl _].
    destruct (member_words_shape _ _ _ off info Hm) as [Hw (k & f & Hnew)]. split.
    + intros l' r' info' Er Hi'. apply app_inj_tail in Er as [_ <-]. rewrite with_info_word in Hi' by lia. injection Hi' as <-.
      pose proof (Hn l r info eq_refl Hi). destruct Hr as [Hb _]. pose proof (info_range _ _ Hb Hi) as Hir. pose proof (vlen_range info ltac:(lia)).
      pose proof (Z.mod_le (BTF_INFO_VLEN info + 1) (2 ^ 16)).
      destruct Hnew as [-> | ->]; rewrite vlen_info, ?Z.mod_mod; lia.
    + rewrite !concat_app_single, !length_app, with_info_length, enc_length by lia. lia.
Qed.

(** The abstract object: its types, its strings, and what a step answers. *)
Inductive step_spec (malloc : heap → option Z) (calloc realloc block : Z → bool) : btf_step → list (list Z) * list (list Z) → Z + option (list Z) →
    list (list Z) * list (list Z) → Prop :=
| spec_op o recs all ret recs' all' :
    op_effect malloc calloc realloc block o recs all ret recs' all' →
    step_spec malloc calloc realloc block (Op o) (recs, all) (inl ret) (recs', all')
| spec_raw recs all data :
    (data = None → ∃ n, n < 2 ^ 32 ∧ block n = false) →
    (∀ d, data = Some d → (∀ n, realloc n = true) →
       ∃ b, btf_new realloc true true d (zlen d) None = Some (inr b) ∧ reads b recs all) →
    step_spec malloc calloc realloc block RawData (recs, all) (inr data) (recs, all)
| spec_endian e st : step_spec malloc calloc realloc block (SetEndianness e) st (inl (if (e =? 0) || (e =? 1) then 0 else - EINVAL)) st.

Section steps.
Context (malloc : heap → option Z) (calloc : Z → bool) `{!Allocator malloc calloc}.
Variable realloc : Z → bool.
Variable block : Z → bool.

Definition run_step (s : btf_step) (b : btf) (h : heap) : option ((Z + option (list Z)) * btf * heap) :=
  match s with
  | Op o => '(ret, b, h) ← run_op malloc calloc realloc block o b h; Some (inl ret, b, h)
  | RawData => '(data, b) ← btf__raw_data block b; Some (inr data, b, h)
  | SetEndianness e => let '(ret, b) := btf__set_endianness b e in Some (inl ret, b, h)
  end.

Lemma built_tight sw h0 b h recs all chs : built [] h0 b h recs all chs → raw_len b recs all < 2 ^ 32 → tight sw (hdr b) [] recs all.
Proof.
  intros [Hown Hbase Hids Hhdr [Hlen Hrb] Ht [Hb Hm] Hfr Hca [Hmg Hfi] Hrest Hst] Hmax. unfold raw_len in Hmax. rewrite Hrest in *.
  destruct (ok_ids _ _ _ Hown) as [_ Hi]. rewrite (ok_nr _ _ _ Hown), (proj1 Hids) in Hi.
  split; try done; [split; [exact (ok_type_len _ _ _ Hown)|exact (ok_recs _ _ _ Hown)]| |lia|exact (ok_str_max _ _ _ Hown)].
  split; [exact (ok_str_len _ _ _ Hown)|]. split; [exact (ok_free _ _ _ Hown)|done].
Qed.

Lemma run_step_ok s h0 b h recs all chs n :
  built [] h0 b h recs all chs → step_ok s → vlen_max n recs → 2 <= n < 2 ^ 16 - 1 → raw_len b recs all < 2 ^ 32 →
  ∃ ans b' h' recs' all' chs', run_step s b h = Some (ans, b', h') ∧ built [] h0 b' h' recs' all' chs'
    ∧ step_spec malloc calloc realloc block s (recs, all) ans (recs', all')
    ∧ vlen_max (n + 1) recs' ∧ raw_len b' recs' all' <= raw_len b recs all + step_cost s.
Proof.
  intros Hb Hs Hn Hn2 Hmax. pose proof (bt_rest _ _ _ _ _ _ _ Hb) as Hrest. pose proof (ok_recs _ _ _ (bt_own _ _ _ _ _ _ _ Hb)) as Hrecs.
  assert (vlen_max (n + 1) recs) as Hn1 by (intros l r info E Hi; pose proof (Hn l r info E Hi); lia).
  destruct s as [o| |e]; cbn [run_step step_ok] in *.
  - assert (op_runs [] malloc calloc realloc block h0 recs all o (run_op malloc calloc realloc block o b h)) as (ret & b' & h' & recs' & all' & chs' & -> & Hb' & He).
    { destruct (type_words o) as [words|] eqn:Ew.
      - by apply (op_type_ok [] malloc calloc realloc block h0 b h recs all chs Hb); [|rewrite Ew].
      - apply (op_member_ok [] malloc calloc realloc block h0 b h recs all chs Hb); [done|destruct o; try done; cbn in Ew; by destruct (fwd_kind =? BTF_FWD_ENUM)|].
        intros l r info E Hi. pose proof (Hn l r info E Hi). lia. }
    rewrite bind_Some. exists (inl ret), b', h', recs', all', chs'. split; [done|]. split; [done|]. split; [by constructor|].
    destruct (effect_bounds _ _ _ _ _ _ _ _ _ _ n He Hrecs Hn) as [Hv Hc]; [lia|]. split; [done|].
    unfold raw_len. rewrite Hrest, (bt_rest _ _ _ _ _ _ _ Hb'). lia.
  - destruct (btf__raw_data_ok block [] h0 b h recs all chs Hb Hmax) as (r & b' & -> & Hb' & _ & [_ Hr] & Hres). rewrite bind_Some.
    exists (inr r), b', h, recs, all, chs. split; [done|]. split; [done|]. split; [|split; [done|unfold raw_len; rewrite Hr; cbn [step_cost]; lia]].
    constructor.
    + intros ->. destruct Hres as [[_ Hf]|]; [by eexists; split; [exact Hmax|]|done].
    + intros d -> Hre. destruct Hres as [[? _]|Hd]; [done|]. injection Hd as ->. rewrite Hrest.
      destruct (btf_new_image realloc (swapped_endian b) (hdr b) [] recs all) as (b2 & E & Hown2 & Hbase2 & Hids2 & _);
        [by eapply built_tight|done|]. exists b2. split; [done|]. by apply own_reads.
  - destruct (btf__set_endianness_ok [] h0 b h recs all chs e Hb) as [Hb' Hr].
    exists (inl (if (e =? 0) || (e =? 1) then 0 else - EINVAL)), (btf__set_endianness b e).2, h, recs, all, chs.
    split; [unfold btf__set_endianness; by destruct (e =? 0), (e =? 1)|]. split; [done|]. split; [constructor|]. split; [done|].
    unfold raw_len. rewrite Hr. cbn [step_cost]. lia.
Qed.

(** Steps one after another, with their answers. *)
Fixpoint run_steps (steps : list btf_step) (b : btf) (h : heap) : option (list (Z + option (list Z)) * btf * heap) :=
  match steps with
  | [] => Some ([], b, h)
  | s :: steps => '(a, b, h) ← run_step s b h; '(answers, b, h) ← run_steps steps b h; Some (a :: answers, b, h)
  end.

Inductive steps_spec : list btf_step → list (list Z) * list (list Z) → list (Z + option (list Z)) → list (list Z) * list (list Z) → Prop :=
| specs_nil st : steps_spec [] st [] st
| specs_cons s steps st a st1 answers st2 :
    step_spec malloc calloc realloc block s st a st1 → steps_spec steps st1 answers st2 → steps_spec (s :: steps) st (a :: answers) st2.

Lemma step_cost_nonneg s : 0 <= step_cost s.
Proof. destruct s; cbn; lia. Qed.

Lemma steps_cost_nonneg steps : 0 <= steps_cost steps.
Proof. induction steps as [|s steps IH]; cbn; [done|]. fold (steps_cost steps). pose proof (step_cost_nonneg s). lia. Qed.

Lemma run_steps_ok steps : ∀ h0 b h recs all chs n,
  built [] h0 b h recs all chs → Forall step_ok steps → vlen_max n recs → 2 <= n → n + zlen steps < 2 ^ 16 →
  raw_len b recs all + steps_cost steps < 2 ^ 32 →
  ∃ answers b' h' recs' all' chs', run_steps steps b h = Some (answers, b', h') ∧ built [] h0 b' h' recs' all' chs'
    ∧ steps_spec steps (recs, all) answers (recs', all') ∧ raw_len b' recs' all' < 2 ^ 32.
Proof.
  induction steps as [|s steps IH]; intros h0 b h recs all chs n Hb Hs Hn H2 Hlen Hmax; cbn [run_steps].
  { exists [], b, h, recs, all, chs. split; [done|]. split; [done|]. split; [by constructor|]. cbn in Hmax. lia. }
  apply Forall_cons_iff in Hs as [Hs Hss]. cbn [length steps_cost foldr] in *. fold (steps_cost steps) in Hmax.
  pose proof (step_cost_nonneg s). pose proof (steps_cost_nonneg steps).
  destruct (run_step_ok s h0 b h recs all chs n Hb Hs Hn) as (a & b1 & h1 & recs1 & all1 & chs1 & -> & Hb1 & Hsp & Hn1 & Hmax1); [lia|lia|].
  rewrite bind_Some.
  destruct (IH h0 b1 h1 recs1 all1 chs1 (n + 1) Hb1 Hss Hn1) as (answers & b2 & h2 & recs2 & all2 & chs2 & -> & Hb2 & Hsp2 & Hmax2); [lia..|].
  rewrite bind_Some. exists (a :: answers), b2, h2, recs2, all2, chs2. split; [done|]. split; [done|]. split; [|done]. by econstructor.
Qed.

(** A new object after any steps. *)
Lemma client_ok steps h :
  Forall step_ok steps → zlen steps < 2 ^ 16 - 2 → 25 + steps_cost steps < 2 ^ 32 →
  ∃ answers b h' recs all chs, run_steps steps new_btf h = Some (answers, b, h') ∧ built [] h b h' recs all chs
    ∧ steps_spec steps ([], [[]]) answers (recs, all) ∧ raw_len b recs all < 2 ^ 32.
Proof.
  intros Hs Hl Hc. apply (run_steps_ok steps h new_btf h [] [[]] [] 2); [apply new_empty_ok|done| |lia|lia|exact Hc].
  intros l r info E. by destruct l.
Qed.

(** The blocks of an object: those of each section when it is taken apart. *)
Definition blocks_of (b : btf) : list btf_block :=
  (if btf_is_modifiable b then [HdrBlock; TypesBlock] ++ map OfSet set_blocks else []) ++ [RawBlock; SwappedBlock; OffsBlock; BtfBlock].

Lemma built_free h0 b h recs all chs : built [] h0 b h recs all chs → btf__free b h = Some (h0, blocks_of b).
Proof.
  intros Hb. pose proof (bt_store _ _ _ _ _ _ _ Hb) as Hst. pose proof (bt_frame _ _ _ _ _ _ _ Hb) as Hfr. unfold btf__free, blocks_of, btf_is_modifiable, own_set.
  destruct (store b) as [raw t s|types cap set raw].
  - subst chs. replace h0 with h; [done|]. apply map_eq. intros a. exact (Hfr a).
  - destruct Hst as [Hset _]. by rewrite (free_ok _ _ _ _ _ Hset Hfr).
Qed.

(** C12: a client makes an empty object and adds types and members, asks for the
    data and changes the byte order, in any order and whatever allocation fails:
    no step accesses memory outside of the object; each one refines the abstract
    object of records and strings, where an accepted type gets the next
    identifier; arguments that are rejected change nothing and give their own
    error, and accepted ones fail only with [-ENOMEM] and only when an allocation
    is refused or the strings, the types or the identifiers reach their limit; at
    the end the object reads as that abstract object, and freeing it gives back
    the heap and every block of the object. *)
Theorem btf_client_refines steps h :
  Forall step_ok steps → zlen steps < 2 ^ 16 - 2 → 25 + steps_cost steps < 2 ^ 32 →
  ∃ answers b h' recs all, btf__new_empty true true = Some (inr new_btf) ∧ run_steps steps new_btf h = Some (answers, b, h')
    ∧ steps_spec steps ([], [[]]) answers (recs, all) ∧ reads b recs all
    ∧ btf__free b h' = Some (h, blocks_of b).
Proof.
  intros Hs Hl Hc. destruct (client_ok steps h Hs Hl Hc) as (answers & b & h' & recs & all & chs & E & Hb & Hsp & _).
  exists answers, b, h', recs, all. split; [exact new_empty_eq|]. split; [done|]. split; [done|]. pose proof Hb as [Hown Hbase Hids _ _ _ _ _ _ _ _ _].
  split; [by apply own_reads|]. by apply (built_free h b h' recs all chs).
Qed.

(** C13: what a client has built is read back: written out in native or in the
    other byte order, the data are accepted by the parser, which takes the byte
    order from them; the object it makes has the same types by the same
    identifiers and the same strings at the same offsets, and so does the first
    object again when the new one is written out. *)
Theorem btf_raw_roundtrip steps h answers b h' sw :
  Forall step_ok steps → zlen steps < 2 ^ 16 - 2 → 25 + steps_cost steps < 2 ^ 32 → (∀ n, realloc n = true) → (∀ n, block n = true) →
  run_steps steps new_btf h = Some (answers, b, h') →
  ∃ data b' recs all, btf_get_raw_data block b sw = Some (Some (data, zlen data)) ∧ btf_new realloc true true data (zlen data) None = Some (inr b')
    ∧ reads b recs all ∧ reads b' recs all ∧ swapped_endian b' = sw
    ∧ btf_get_raw_data block b' sw = Some (Some (data, zlen data)).
Proof.
  intros Hs Hl Hc Hre Hbl E. destruct (client_ok steps h Hs Hl Hc) as (answers' & b1 & h1 & recs & all & chs & E1 & Hb & _ & Hmax).
  rewrite E in E1. injection E1 as <- <- <-. pose proof (built_tight sw h b h' recs all chs Hb Hmax) as Hti.
  pose proof (ok_recs _ _ _ (bt_own _ _ _ _ _ _ _ Hb)) as Hrecs. pose proof (bt_rest _ _ _ _ _ _ _ Hb) as Hrest.
  destruct (btf_new_image realloc sw (hdr b) [] recs all Hti Hre) as (b2 & E2 & Hown2 & Hbase2 & Hids2 & Hh2 & Hr2 & Hsw2 & Hraw2 & Hrs2 & Hrsz2 & Hmod2).
  set (data := data_of sw (hdr b) [] recs all) in *.
  assert (∀ b0 : btf, hdr_rest b0 = [] → raw_len b0 recs all = zlen data) as Hlen.
  { intros b0 Hr0. unfold data, raw_len. by rewrite data_of_length, Hr0. }
  assert (∀ c : option (list Z), match c with Some _ => true | None => block (zlen data) end = true) as Hc'.
  { intros [?|]; [done|apply Hbl]. }
  exists data, b2, recs, all. split_and!.
  - rewrite (get_raw_ok block [] h b h' recs all chs sw Hb Hmax), Hrest, Hlen by done. by rewrite Hc'.
  - exact E2.
  - destruct Hb as [Hown Hbase Hids _ _ _ _ _ _ _ _ _]. by apply own_reads.
  - by apply own_reads.
  - done.
  - assert (built [] h b2 h recs all []) as Hb2.
    { destruct Hb as [Hown Hbase Hids Hhdr Hlen2 Ht Hby Hfr Hca Hfi Hre2 Hst]. split; try done; try (by rewrite Hh2).
      - rewrite Hh2, Hr2. by rewrite Hrest in Hlen2.
      - split; [|by rewrite Hrs2]. intros raw Hr. rewrite Hraw2 in Hr. injection Hr as <-. by rewrite Hh2, Hr2.
      - unfold btf_is_modifiable in Hmod2. by destruct (store b2). }
    rewrite (get_raw_ok block [] h b2 h recs all [] sw Hb2) by by rewrite Hlen, <- (Hlen b). rewrite Hh2, Hr2, Hlen by done. by rewrite Hc'.
Qed.
End steps.

(** An integer, a structure with a member, its data in both byte orders, a
    prototype with a parameter and a type with a bad size. *)
Definition sample_steps : list btf_step :=
  [Op (AddInt (Some [105; 110; 116]) 4 1); Op (AddStruct (Some [115]) 8); Op (AddField (Some [97]) 1 0 0); RawData; SetEndianness 1; RawData;
   Op (AddFuncProto 1); Op (AddFuncParam (Some [97]) 2); Op (AddFloat (Some [102]) 3)].

Definition no_raw (a : Z + option (list Z)) : Z + bool := match a with inl z => inl z | inr d => inr (bool_decide (is_Some d)) end.

Definition sample_run := run_steps fresh_address (λ n, n <=? 2 ^ 60) (λ _, true) (λ _, true) sample_steps new_btf ∅.

Lemma sample_steps_ok : Forall step_ok sample_steps.
Proof.
  assert (∀ c, 0 < c < 256 → name_ok [c]) as H1.
  { intros c Hc. split; [intros [?|[]]; lia|]. split; [constructor; [unfold byte_ok; lia|constructor]|done]. }
  assert (name_ok [105; 110; 116]) as H3.
  { split; [intros H; repeat destruct H as [H|H]; done|]. split; [by apply bytes_ok_dec|done]. }
  unfold sample_steps. repeat (apply Forall_cons_iff; split); try done; unfold step_ok, op_range; (split; [|try done; lia]); try (by apply H1); done.
Qed.

Lemma sample_answers :
  (r ← sample_run; Some (map no_raw r.1.1, btf_is_modifiable r.1.2))
  = Some ([inl 1; inl 2; inl 0; inr true; inl 0; inr true; inl 3; inl 0; inl (- EINVAL)], true).
Proof. vm_compute. reflexivity. Qed.

Lemma btf_client_refines_witness :
  ∃ answers b h' recs all, sample_run = Some (answers, b, h')
    ∧ map no_raw answers = [inl 1; inl 2; inl 0; inr true; inl 0; inr true; inl 3; inl 0; inl (- EINVAL)]
    ∧ reads b recs all ∧ btf__free b h' = Some (∅, blocks_of b)
    ∧ blocks_of b = [HdrBlock; TypesBlock; OfSet (OfMap Buckets); OfSet (OfMap MapStruct); OfSet StrsData; OfSet SetStruct;
                     RawBlock; SwappedBlock; OffsBlock; BtfBlock].
Proof.
  destruct (btf_client_refines fresh_address (λ n, n <=? 2 ^ 60) (λ _, true) (λ _, true) sample_steps ∅) as (answers & b & h' & recs & all & _ & E & _ & Hr & Hf).
  - exact sample_steps_ok.
  - reflexivity.
  - reflexivity.
  - exists answers, b, h', recs, all. split; [exact E|].
    pose proof sample_answers as Ha. unfold sample_run in Ha. rewrite E in Ha. injection Ha as Ha Hm.
    split; [exact Ha|]. split; [exact Hr|]. split; [exact Hf|]. unfold blocks_of. cbn in Hm. rewrite Hm. reflexivity.
Defined.

Lemma btf_raw_roundtrip_witness :
  ∃ answers b h' data b' recs all, sample_run = Some (answers, b, h') ∧ btf_get_raw_data (λ _, true) b true = Some (Some (data, zlen data))
    ∧ btf_new (λ _, true) true true data (zlen data) None = Some (inr b') ∧ reads b recs all ∧ reads b' recs all.
Proof.
  destruct (client_ok fresh_address (λ n, n <=? 2 ^ 60) (λ _, true) (λ _, true) sample_steps ∅) as (answers & b & h' & _ & _ & _ & E & _);
    [exact sample_steps_ok|reflexivity|reflexivity|].
  destruct (btf_raw_roundtrip fresh_address (λ n, n <=? 2 ^ 60) (λ _, true) (λ _, true) sample_steps ∅ answers b h' true)
    as (data & b' & recs & all & H1 & H2 & H3 & H4 & _).
  - exact sample_steps_ok.
  - reflexivity.
  - reflexivity.
  - reflexivity.
  - reflexivity.
  - exact E.
  - exists answers, b, h', data, b', recs, all. split; [exact E|]. split; [exact H1|]. split; [exact H2|]. split; [exact H3|exact H4].
Defined.
