(* ===== verification/BtfExt.v ===== *)
(** * The section .BTF.ext ([lib/libbpf/src/btf.c], [libbpf_internal.h])

    Next to the types of an object file lies a section with what the loader
    needs of its functions, its lines and its CO-RE relocations: three regions of
    records, grouped by the sections of the file.  This file has the parser and
    the macros that go through the records. *)

From stdpp Require Import gmap.
From S2P Require Import Prelude CString Hashmap Strset Bytes Btf.

(** ** Data *)

(** [struct btf_ext_info]: the offset of the sections in the data, the size of a
    record, the length and the number of sections; all are 0 for a region that
    is not there.  [sec_idxs] belongs to the loader. *)
Record btf_ext_info : Type := mkExtInfo { ei_info : Z; ei_rec_size : Z; ei_len : Z; ei_sec_cnt : Z }.

Definition no_info : btf_ext_info := mkExtInfo 0 0 0 0.

Record btf_ext : Type := mkExt { ext_data : list Z; func_info : btf_ext_info; line_info : btf_ext_info; core_relo_info : btf_ext_info }.

Definition sizeof_info_sec : Z := 8.
Definition sizeof_func_info_min : Z := 8.
Definition sizeof_line_info_min : Z := 16.
Definition sizeof_core_relo : Z := 16.

(** Fields of the header by their offsets. *)
Definition ext_hdr_len (data : list Z) : option Z := ld_le32 data 4.
Definition end_hdr_len : Z := 8.
Definition end_line_info_len : Z := 24.
Definition end_core_relo_len : Z := 32.

(** ** The parser *)

(** One turn of the loop over the sections: the section, what is left, the number
    of sections and the error. *)
Definition sec_body (data : list Z) (record_size : Z) (s : Z * Z * Z * Z) : option (ctl (Z * Z * Z * Z)) :=
  let '(sinfo, info_left, sec_cnt, _) := s in
  let stop err := Some (Break (sinfo, info_left, sec_cnt, err)) in
  if info_left =? 0 then stop 0 else
  if info_left <? sizeof_info_sec then stop (- EINVAL) else
  num_records ← ld_le32 data (sinfo + 4);
  if num_records =? 0 then stop (- EINVAL) else
  let total_record_size := u64 (sizeof_info_sec + u64 (num_records * record_size)) in
  if info_left <? total_record_size then stop (- EINVAL) else
  Some (Next (sinfo + total_record_size, u32 (info_left - total_record_size), sec_cnt + 1, 0)).

(** Every section has at least its header of 8 bytes. *)
Definition btf_ext_setup_info (data : list Z) (off len min_rec_size : Z) : option (Z + btf_ext_info) :=
  if len =? 0 then Some (inr no_info) else
  if negb (Z.land off 3 =? 0) then Some (inl (- EINVAL)) else
  hdr_len ← ext_hdr_len data;
  let info := hdr_len + off in
  if zlen data <? info + len then Some (inl (- EINVAL)) else
  if len <? 4 then Some (inl (- EINVAL)) else
  record_size ← ld_le32 data info;
  if (record_size <? min_rec_size) || negb (Z.land record_size 3 =? 0) then Some (inl (- EINVAL)) else
  if len - 4 =? 0 then Some (inl (- EINVAL)) else
  '(_, _, sec_cnt, err) ← while_loop (S (Z.to_nat (len / 8))) (sec_body data record_size) (info + 4, len - 4, 0, 0);
  Some (if negb (err =? 0) then inl err else inr (mkExtInfo (info + 4) record_size (len - 4) sec_cnt)).

(** A region by the offset of its two fields in the header. *)
Definition setup_at (data : list Z) (field min_rec_size : Z) : option (Z + btf_ext_info) :=
  off ← ld_le32 data field; len ← ld_le32 data (field + 4); btf_ext_setup_info data off len min_rec_size.

Definition btf_ext_setup_func_info (data : list Z) : option (Z + btf_ext_info) := setup_at data 8 sizeof_func_info_min.
Definition btf_ext_setup_line_info (data : list Z) : option (Z + btf_ext_info) := setup_at data 16 sizeof_line_info_min.
Definition btf_ext_setup_core_relos (data : list Z) : option (Z + btf_ext_info) := setup_at data 24 sizeof_core_relo.

Definition btf_ext_parse_hdr (data : list Z) : option Z :=
  if zlen data <? end_hdr_len then Some (- EINVAL) else
  hdr_len ← ext_hdr_len data;
  if zlen data <? hdr_len then Some (- EINVAL) else
  magic ← ld_le16 data 0;
  if magic =? bswap16 BTF_MAGIC then Some (- ENOTSUP) else
  if negb (magic =? BTF_MAGIC) then Some (- EINVAL) else
  version ← aget data 2;
  if negb (version =? BTF_VERSION) then Some (- ENOTSUP) else
  flags ← aget data 3;
  if negb (flags =? 0) then Some (- ENOTSUP) else
  if zlen data =? hdr_len then Some (- EINVAL) else Some 0.

(** [ext_ok] and [data_ok] say whether the two blocks are allocated; the object
    has a copy of the data, and is freed with it on an error. *)
Definition btf_ext__new (ext_ok data_ok : bool) (data : list Z) : option (Z + btf_ext) :=
  if negb ext_ok then Some (inl (- ENOMEM)) else
  if negb data_ok then Some (inl (- ENOMEM)) else
  err ← btf_ext_parse_hdr data;
  if negb (err =? 0) then Some (inl err) else
  hdr_len ← ext_hdr_len data;
  if hdr_len <? end_line_info_len then Some (inl (- EINVAL)) else
  func ← btf_ext_setup_func_info data;
  match func with
  | inl err => Some (inl err)
  | inr func =>
      line ← btf_ext_setup_line_info data;
      match line with
      | inl err => Some (inl err)
      | inr line =>
          if hdr_len <? end_core_relo_len then Some (inr (mkExt data func line no_info)) else
          core ← btf_ext_setup_core_relos data;
          match core with inl err => Some (inl err) | inr core => Some (inr (mkExt data func line core)) end
      end
  end.

Definition btf_ext__get_raw_data (e : btf_ext) : list Z * Z := (ext_data e, zlen (ext_data e)).

(** ** Going through the records *)

(** [for_each_btf_ext_sec], as the sections it visits with their numbers of
    records. *)
Definition each_sec_body (data : list Z) (seg : btf_ext_info) (s : Z * list (Z * Z)) : option (ctl (Z * list (Z * Z))) :=
  let '(sec, secs) := s in
  if sec <? ei_info seg + ei_len seg then
    num_info ← ld_le32 data (sec + 4);
    Some (Next (sec + sizeof_info_sec + u32 (ei_rec_size seg * num_info), secs ++ [(sec, num_info)]))
  else Some (Break s).

Definition for_each_btf_ext_sec (data : list Z) (seg : btf_ext_info) : option (list (Z * Z)) :=
  '(_, secs) ← while_loop (S (Z.to_nat (ei_sec_cnt seg))) (each_sec_body data seg) (ei_info seg, []); Some secs.

(** [for_each_btf_ext_rec], as the records of a section. *)
Definition for_each_btf_ext_rec (seg : btf_ext_info) (sec num_info : Z) : list Z :=
  map (λ i, sec + sizeof_info_sec + Z.of_nat i * ei_rec_size seg) (seq 0 (Z.to_nat num_info)).
