(* ===== verification/BtfExtCorrect.v ===== *)
(** * Correctness of the parser of .BTF.ext

    On any bytes the parser reads nothing outside of them; it accepts exactly the
    sections whose regions are tiled by groups of records, and the macros of the
    loader then visit these groups and records, all of them inside. *)

From stdpp Require Import gmap.
From S2P Require Import Prelude CString Hashmap Strset Bytes Btf BtfExt.

(** Groups of [num] records of [rec] bytes, each behind a header of 8 bytes, from
    [p] to [e]. *)
Inductive tiles (data : list Z) (rec : Z) : Z → Z → list (Z * Z) → Prop :=
| tiles_nil p : tiles data rec p p []
| tiles_cons p e num l :
    ld_le32 data (p + 4) = Some num → 0 < num → p + 8 + num * rec <= e → tiles data rec (p + 8 + num * rec) e l →
    tiles data rec p e ((p, num) :: l).

(** A region as the header describes it, and what the object says of it. *)
Definition region_ok (data : list Z) (field min_rec : Z) (ei : btf_ext_info) : Prop :=
  ∃ off len, ld_le32 data field = Some off ∧ ld_le32 data (field + 4) = Some len ∧
    (len = 0 ∧ ei = no_info
     ∨ len ≠ 0 ∧ off mod 4 = 0 ∧ ∃ hdr_len rec secs, ext_hdr_len data = Some hdr_len ∧ hdr_len + off + len <= zlen data
         ∧ ld_le32 data (hdr_len + off) = Some rec ∧ min_rec <= rec ∧ rec mod 4 = 0 ∧ secs ≠ []
         ∧ tiles data rec (hdr_len + off + 4) (hdr_len + off + len) secs
         ∧ ei = mkExtInfo (hdr_len + off + 4) rec (len - 4) (zlen secs)).

Definition header_ok (data : list Z) : Prop :=
  ∃ hdr_len, ext_hdr_len data = Some hdr_len ∧ 24 <= hdr_len < zlen data ∧ ld_le16 data 0 = Some BTF_MAGIC ∧ aget data 2 = Some BTF_VERSION ∧ aget data 3 = Some 0.

Definition ext_wf (data : list Z) (e : btf_ext) : Prop :=
  ext_data e = data ∧ header_ok data ∧ region_ok data 8 8 (func_info e) ∧ region_ok data 16 16 (line_info e)
  ∧ ∀ hdr_len, ext_hdr_len data = Some hdr_len → if hdr_len <? 32 then core_relo_info e = no_info else region_ok data 24 16 (core_relo_info e).

Lemma land3 x : Z.land x 3 = x mod 4.
Proof. change 3 with (Z.ones 2). by rewrite Z.land_ones. Qed.

Lemma tiles_le data rec p e l : 0 <= rec → tiles data rec p e l → p + 8 * zlen l <= e.
Proof. intros Hr. induction 1 as [|p e num l _ Hn _ _ IH]; cbn [length]; nia. Qed.

Lemma tiles_start data rec p e l : tiles data rec p e l → p ≠ e → ∃ num l', ld_le32 data (p + 4) = Some num ∧ 0 < num ∧ p + 8 + num * rec <= e
  ∧ tiles data rec (p + 8 + num * rec) e l' ∧ l = (p, num) :: l'.
Proof. destruct 1 as [|p e num l H1 H2 H3 H4]; [done|]. intros _. by exists num, l. Qed.

Section data.
Variable data : list Z.
Hypothesis Hdata : bytes_ok data.
Hypothesis Hsize : zlen data < 2 ^ 32.

Lemma ld_le32_range o x : ld_le32 data o = Some x → 0 <= x < 2 ^ 32.
Proof.
  intros H. pose proof H as H'. unfold ld_le32 in H'. opt_inv H'. repeat match goal with E : aget data _ = Some _ |- _ => apply aget_range in E end.
  destruct (ld_le32_total data o Hdata ltac:(lia) ltac:(lia)) as (y & Hy & Hr). by simplify_eq.
Qed.

(** The loop over the sections of a region. *)
Lemma sec_loop rec : 0 < rec < 2 ^ 32 → ∀ fuel p left cnt, 0 <= p → 0 <= left → p + left <= zlen data → left / 8 < Z.of_nat fuel →
  ∃ p' left' cnt' err, while_loop fuel (sec_body data rec) (p, left, cnt, 0) = Some (p', left', cnt', err)
    ∧ (err = 0 ∧ (∃ l, tiles data rec p (p + left) l ∧ cnt' = cnt + zlen l) ∨ err = - EINVAL ∧ ∀ l, ¬ tiles data rec p (p + left) l).
Proof.
  intros Hrec. induction fuel as [|fuel IH]; intros p left cnt Hp Hl Hin Hf.
  { pose proof (Z.div_pos left 8 Hl ltac:(lia)). lia. }
  assert (∀ err, sec_body data rec (p, left, cnt, 0) = Some (Break (p, left, cnt, err)) →
    (err = 0 ∧ (∃ l, tiles data rec p (p + left) l ∧ cnt = cnt + zlen l) ∨ err = - EINVAL ∧ ∀ l, ¬ tiles data rec p (p + left) l) →
    ∃ p' left' cnt' err, while_loop (S fuel) (sec_body data rec) (p, left, cnt, 0) = Some (p', left', cnt', err)
      ∧ (err = 0 ∧ (∃ l, tiles data rec p (p + left) l ∧ cnt' = cnt + zlen l) ∨ err = - EINVAL ∧ ∀ l, ¬ tiles data rec p (p + left) l)) as Hstop.
  { intros err E H. exists p, left, cnt, err. split; [by apply while_loop_break|done]. }
  unfold sec_body in Hstop. destruct (Z.eqb_spec left 0) as [->|Hne].
  { apply (Hstop 0); [done|]. left. split; [done|]. exists []. rewrite Z.add_0_r. split; [constructor|cbn; lia]. }
  destruct (Z.ltb_spec left sizeof_info_sec) as [Hlt|Hge].
  { apply (Hstop (- EINVAL)); [done|]. right. split; [done|]. intros l Ht. unfold sizeof_info_sec in Hlt. apply tiles_start in Ht as (num & l' & _ & H1 & H2 & _); [nia|lia]. }
  unfold sizeof_info_sec in *. destruct (ld_le32_total data (p + 4) Hdata ltac:(lia) ltac:(lia)) as (num & Hnum & Hnr). rewrite Hnum in Hstop. cbn [mbind option_bind] in Hstop.
  destruct (Z.eqb_spec num 0) as [En|Hn0].
  { apply (Hstop (- EINVAL)); [done|]. right. split; [done|]. intros l Ht. apply tiles_start in Ht as (num' & l' & H0 & H1 & _); [|lia]. rewrite Hnum in H0. injection H0 as H0. lia. }
  cbv zeta in Hstop. assert (u64 (8 + u64 (num * rec)) = 8 + num * rec) as Hu by (assert (0 <= num * rec <= (2 ^ 32 - 1) * (2 ^ 32 - 1)) by (split; [nia|apply Z.mul_le_mono_nonneg; lia]); rewrite !u64_small; rewrite ?u64_small; lia). rewrite Hu in Hstop.
  destruct (Z.ltb_spec left (8 + num * rec)) as [Hlt|Hfit].
  { apply (Hstop (- EINVAL)); [done|]. right. split; [done|]. intros l Ht. apply tiles_start in Ht as (num' & l' & H0 & _ & H2 & _); [|lia]. rewrite Hnum in H0. injection H0 as H0. lia. }
  clear Hstop. set (total := 8 + num * rec) in *. assert (0 < num * rec) by nia.
  destruct (IH (p + total) (left - total) (cnt + 1)) as (p' & left' & cnt' & err & E & Hres); [lia|lia|lia|apply Z.div_lt_upper_bound; [lia|]; pose proof (Z.mul_succ_div_gt left 8 ltac:(lia)); lia|].
  exists p', left', cnt', err. split.
  - rewrite (while_loop_next _ _ _ (p + total, left - total, cnt + 1, 0)); [done|]. unfold sec_body.
    rewrite (proj2 (Z.eqb_neq left 0) Hne). unfold sizeof_info_sec. rewrite (proj2 (Z.ltb_ge left 8)) by lia. rewrite Hnum. cbn [mbind option_bind].
    rewrite (proj2 (Z.eqb_neq num 0) Hn0). cbv zeta. rewrite Hu. fold total. rewrite (proj2 (Z.ltb_ge left total)) by lia. by rewrite (u32_small (left - total)) by (unfold word_ok; lia).
  - replace (p + total + (left - total)) with (p + left) in Hres by lia. replace (p + total) with (p + 8 + num * rec) in Hres by (unfold total; lia).
    destruct Hres as [(-> & l & Ht & ->)|[-> Hno]].
    + left. split; [done|]. exists ((p, num) :: l). split; [constructor; [done|lia|unfold total in *; lia|done]|cbn [length]; lia].
    + right. split; [done|]. intros l Ht. apply tiles_start in Ht as (num' & l' & H0 & _ & _ & H3 & _); [|lia]. rewrite Hnum in H0. injection H0 as <-. by apply Hno in H3.
Qed.

(** A region by its two fields. *)
Lemma setup_ok hdr_len field min_rec : ext_hdr_len data = Some hdr_len → 0 <= hdr_len → 0 <= field → field + 8 <= zlen data → 0 < min_rec →
  ∃ res, setup_at data field min_rec = Some res ∧ match res with inr ei => region_ok data field min_rec ei | inl err => err = - EINVAL ∧ ∀ ei, ¬ region_ok data field min_rec ei end.
Proof.
  intros Hh Hh0 Hf Hin Hmin. unfold setup_at. destruct (ld_le32_total data field Hdata Hf ltac:(lia)) as (off & Hoff & Hor).
  destruct (ld_le32_total data (field + 4) Hdata ltac:(lia) ltac:(lia)) as (len & Hlen & Hlr). rewrite Hoff, Hlen. cbn [mbind option_bind]. unfold btf_ext_setup_info.
  destruct (Z.eqb_spec len 0) as [->|Hl0]. { eexists. split; [done|]. exists off, 0. split; [done|]. split; [done|]. by left. }
  rewrite land3, Hh. cbn [mbind option_bind]. cbv zeta.
  assert (∀ res, res = Some (inl (- EINVAL)) → (∀ ei, ¬ region_ok data field min_rec ei) →
    ∃ r : Z + btf_ext_info, res = Some r ∧ match r with inr ei => region_ok data field min_rec ei | inl err => err = - EINVAL ∧ ∀ ei, ¬ region_ok data field min_rec ei end) as Hbad.
  { intros res -> H. by eexists. }
  assert (∀ ei, region_ok data field min_rec ei → off mod 4 = 0 ∧ hdr_len + off + len <= zlen data ∧ 12 <= len ∧ ∃ rec secs, ld_le32 data (hdr_len + off) = Some rec ∧ min_rec <= rec ∧ rec mod 4 = 0
    ∧ tiles data rec (hdr_len + off + 4) (hdr_len + off + len) secs) as Hinv.
  { intros ei (o' & l' & H1 & H2 & [[-> _]|(_ & H3 & h' & rec & secs & H4 & H5 & H6 & H7 & H8 & H9 & H10 & _)]); [congruence|].
    rewrite Hoff in H1. rewrite Hlen in H2. rewrite Hh in H4. injection H1 as <-. injection H2 as <-. injection H4 as <-. split; [done|]. split; [done|].
    pose proof (tiles_le data rec _ _ secs ltac:(lia) H10) as Hle. split; [destruct secs; [done|cbn [length] in Hle; lia]|]. by exists rec, secs. }
  destruct (Z.eqb_spec (off mod 4) 0) as [Ha|Ha]; cbn [negb]; [|apply Hbad; [done|]; intros ei H; destruct (Hinv ei H); lia].
  destruct (Z.ltb_spec (zlen data) (hdr_len + off + len)) as [Hb|Hb]; [apply Hbad; [done|]; intros ei H; destruct (Hinv ei H) as (_ & ? & _); lia|].
  destruct (Z.ltb_spec len 4) as [H4|H4]; [apply Hbad; [done|]; intros ei H; destruct (Hinv ei H) as (_ & _ & ? & _); lia|].
  destruct (ld_le32_total data (hdr_len + off) Hdata ltac:(lia) ltac:(lia)) as (rec & Hrec & Hrr). rewrite Hrec. cbn [mbind option_bind]. rewrite land3.
  destruct ((rec <? min_rec) || negb (rec mod 4 =? 0)) eqn:Er.
  { apply Hbad; [done|]. intros ei H. destruct (Hinv ei H) as (_ & _ & _ & rec' & secs & K1 & K2 & K3 & _). rewrite Hrec in K1. injection K1 as <-.
    apply orb_true_iff in Er as [Er|Er]; [apply Z.ltb_lt in Er; lia|]. apply negb_true_iff, Z.eqb_neq in Er. done. }
  apply orb_false_iff in Er as [Er1 Er2]. apply Z.ltb_ge in Er1. apply negb_false_iff, Z.eqb_eq in Er2.
  destruct (Z.eqb_spec (len - 4) 0) as [H44|H44]; [apply Hbad; [done|]; intros ei H; destruct (Hinv ei H) as (_ & _ & ? & _); lia|].
  destruct (sec_loop rec ltac:(lia) (S (Z.to_nat (len / 8))) (hdr_len + off + 4) (len - 4) 0) as (p' & left' & cnt & err & E & Hres); [lia|lia|lia| |].
  { pose proof (Z.div_le_mono (len - 4) len 8 ltac:(lia) ltac:(lia)). pose proof (Z.div_pos len 8 ltac:(lia) ltac:(lia)). lia. }
  rewrite E. cbn [mbind option_bind]. replace (hdr_len + off + 4 + (len - 4)) with (hdr_len + off + len) in Hres by lia. destruct Hres as [(-> & l & Ht & ->)|[-> Hno]].
  - eexists. split; [done|]. exists off, len. split; [done|]. split; [done|]. right. split; [done|]. split; [done|]. exists hdr_len, rec, l.
    do 5 (split; [done|]). split; [|split; [done|by f_equal; lia]]. intros ->. inversion Ht. lia.
  - eexists. split; [done|]. split; [done|]. intros ei H. destruct (Hinv ei H) as (_ & _ & _ & rec' & secs & K1 & _ & _ & K4). rewrite Hrec in K1. injection K1 as <-. by apply Hno in K4.
Qed.

(** ** What the loader visits *)

(** The groups of a region, with records that are inside of it. *)
Definition visits (ei : btf_ext_info) : Prop :=
  ∃ secs, for_each_btf_ext_sec data ei = Some secs ∧ zlen secs = ei_sec_cnt ei
    ∧ ∀ sec num, (sec, num) ∈ secs → ∀ r, r ∈ for_each_btf_ext_rec ei sec num → ei_info ei <= r ∧ r + ei_rec_size ei <= ei_info ei + ei_len ei.

Lemma each_loop ei p e l : tiles data (ei_rec_size ei) p e l → e = ei_info ei + ei_len ei → 0 <= ei_rec_size ei → e - p < 2 ^ 32 → ∀ acc fuel, (length l < fuel)%nat →
  while_loop fuel (each_sec_body data ei) (p, acc) = Some (e, acc ++ l).
Proof.
  induction 1 as [p|p e num l H1 H2 H3 _ IH]; intros He Hr Hlt acc fuel Hf; (destruct fuel as [|fuel]; [cbn in Hf; lia|]).
  - rewrite app_nil_r. apply while_loop_break. unfold each_sec_body. by rewrite (proj2 (Z.ltb_ge p (ei_info ei + ei_len ei))) by lia.
  - cbn [length] in Hf. assert (0 <= num * ei_rec_size ei) by nia. rewrite (while_loop_next _ _ _ (p + 8 + num * ei_rec_size ei, acc ++ [(p, num)])).
    + rewrite IH by (done || lia). by rewrite <- app_assoc.
    + unfold each_sec_body. rewrite (proj2 (Z.ltb_lt p (ei_info ei + ei_len ei))) by lia. rewrite H1. cbn [mbind option_bind]. unfold sizeof_info_sec.
      rewrite (Z.mul_comm (ei_rec_size ei) num). by rewrite u32_small by (unfold word_ok; lia).
Qed.

Lemma tiles_records rec p e l : tiles data rec p e l → 0 <= rec → ∀ sec num, (sec, num) ∈ l → p <= sec ∧ sec + 8 + num * rec <= e.
Proof.
  induction 1 as [p|p e num l _ H2 H3 Ht IH]; intros Hr sec n Hin; [by apply elem_of_nil in Hin|]. apply elem_of_cons in Hin as [[= -> ->]|Hin]; [lia|].
  destruct (IH Hr sec n Hin). nia.
Qed.

Lemma region_visits field min_rec ei : 0 < min_rec → region_ok data field min_rec ei → visits ei.
Proof.
  intros Hmin (off & len & Hoff & H2 & [[_ ->]|(Hl0 & _ & hdr_len & rec & secs & H4 & H5 & H6 & H7 & H8 & H9 & H10 & ->)]).
  - exists []. split; [reflexivity|]. split; [done|]. intros sec num Hin. by apply elem_of_nil in Hin.
  - exists secs. cbn [ei_info ei_rec_size ei_len ei_sec_cnt].
    pose proof (tiles_le data rec _ _ secs ltac:(lia) H10) as Hle. pose proof (ld_le32_range _ _ Hoff). pose proof (ld_le32_range _ _ H4).
    split; [|split; [done|]].
    + unfold for_each_btf_ext_sec. cbn [ei_sec_cnt ei_info]. rewrite Nat2Z.id. rewrite (each_loop _ _ (hdr_len + off + len) secs); [done|done|cbn [ei_info ei_len]; lia|cbn [ei_rec_size]; lia|lia|lia].
    + intros sec num Hin r Hrin. unfold for_each_btf_ext_rec in Hrin. cbn [ei_rec_size] in Hrin. apply list_elem_of_fmap in Hrin as (i & -> & Hi). apply elem_of_seq in Hi.
      destruct (tiles_records rec _ _ _ H10 ltac:(lia) sec num Hin). unfold sizeof_info_sec. nia.
Qed.

(** ** The header *)

Lemma parse_hdr_ok : ∃ err, btf_ext_parse_hdr data = Some err ∧
  (err = 0 ∧ (∃ h, ext_hdr_len data = Some h ∧ h < zlen data ∧ 8 <= zlen data ∧ ld_le16 data 0 = Some BTF_MAGIC ∧ aget data 2 = Some BTF_VERSION ∧ aget data 3 = Some 0)
   ∨ (err = - EINVAL ∨ err = - ENOTSUP) ∧ ¬ header_ok data).
Proof.
  unfold btf_ext_parse_hdr, header_ok. destruct (Z.ltb_spec (zlen data) end_hdr_len) as [H8|H8].
  { eexists. split; [done|]. right. split; [by left|]. intros (h & _ & Hh & _). unfold end_hdr_len in H8. lia. }
  unfold end_hdr_len in H8. destruct (ld_le32_total data 4 Hdata ltac:(lia) ltac:(lia)) as (h & Hh & Hhr). unfold ext_hdr_len. rewrite Hh. cbn [mbind option_bind].
  destruct (ld_le16_total data 0 Hdata ltac:(lia) ltac:(lia)) as (mg & Hm & _). destruct (aget_is_Some data 2 ltac:(lia)) as [v Hv]. destruct (aget_is_Some data 3 ltac:(lia)) as [fl Hfl].
  rewrite Hm, Hv, Hfl. cbn [mbind option_bind].
  match goal with |- ∃ err, ?b = _ ∧ @?R err => assert (∀ e, (e = - EINVAL ∨ e = - ENOTSUP) → (h < zlen data → mg = BTF_MAGIC → v = BTF_VERSION → fl = 0 → False) →
    ∃ err, Some e = Some err ∧ R err) as Hbad end.
  { intros e He H. eexists. split; [done|]. right. split; [done|]. intros (h' & [= <-] & Hlt & [= K1] & [= K2] & [= K3]). apply H; [lia|done..]. }
  destruct (Z.ltb_spec (zlen data) h); [apply Hbad; [by left|lia]|].
  destruct (Z.eqb_spec mg (bswap16 BTF_MAGIC)) as [Esw|_]; [apply Hbad; [by right|]; intros _ -> _ _; by vm_compute in Esw|].
  destruct (Z.eqb_spec mg BTF_MAGIC) as [->|Hmg]; cbn [negb]; [|apply Hbad; [by left|done]].
  destruct (Z.eqb_spec v BTF_VERSION) as [->|Hvn]; cbn [negb]; [|apply Hbad; [by right|done]].
  destruct (Z.eqb_spec fl 0) as [->|Hfn]; cbn [negb]; [|apply Hbad; [by right|done]].
  destruct (Z.eqb_spec (zlen data) h); [apply Hbad; [by left|lia]|]. eexists. split; [done|]. left. split; [done|]. exists h. split; [done|]. split; [lia|]. by split.
Qed.
End data.

(** C39: on any bytes the parser of .BTF.ext reads nothing outside of them.  It
    fails exactly when a block cannot be allocated, the header is not one, or
    a region it names is not inside of the data and tiled by groups of records of
    a size that is allowed; otherwise the object has these regions, and going
    through them visits their groups and only records that are inside. *)
Theorem btf_ext__new_safe ext_ok data_ok data :
  bytes_ok data → zlen data < 2 ^ 32 →
  ∃ r, btf_ext__new ext_ok data_ok data = Some r ∧
    match r with
    | inr e => ext_wf data e ∧ visits data (func_info e) ∧ visits data (line_info e) ∧ visits data (core_relo_info e)
    | inl err => err = - ENOMEM ∧ ext_ok && data_ok = false ∨ (err = - EINVAL ∨ err = - ENOTSUP) ∧ ∀ e, ¬ ext_wf data e
    end.
Proof.
  intros Hd Hs. unfold btf_ext__new. destruct ext_ok; cbn [negb andb]; [|eexists; split; [done|by left]]. destruct data_ok; cbn [negb]; [|eexists; split; [done|by left]].
  destruct (parse_hdr_ok data Hd) as (err & -> & Herr). cbn [mbind option_bind].
  destruct Herr as [(-> & h & Hh & Hlt & H8 & Hm & Hv & Hf)|[Herr Hno]].
  2:{ assert (err ≠ 0) as Hne by (destruct Herr as [->| ->]; done). rewrite (proj2 (Z.eqb_neq _ _) Hne). cbn [negb]. eexists. split; [done|]. right. split; [done|].
      intros e (_ & H & _). done. }
  cbn [Z.eqb negb]. rewrite Hh. cbn [mbind option_bind]. unfold end_line_info_len, end_core_relo_len.
  match goal with |- ∃ r, _ = Some r ∧ @?R r => assert (∀ e, (∀ x, ¬ ext_wf data x) → e = - EINVAL → ∃ r : Z + btf_ext, Some (inl e) = Some r ∧ R r) as Hbad end.
  { intros e H ->. eexists. split; [done|]. right. split; [by left|done]. }
  destruct (Z.ltb_spec h 24) as [H24|H24]; [apply Hbad; [|done]; intros x (_ & (h' & K & Hr & _) & _); rewrite Hh in K; injection K as <-; lia|].
  assert (header_ok data) as Hhdr by (exists h; by repeat split).
  destruct (setup_ok data Hd Hs h 8 8 Hh) as (func & Ef & Hfunc); [lia..|]. change (btf_ext_setup_func_info data) with (setup_at data 8 8). rewrite Ef. cbn [mbind option_bind].
  destruct func as [err|func]; [destruct Hfunc as [-> Hno]; apply Hbad; [|done]; intros x (_ & _ & H & _); by apply Hno in H|].
  destruct (setup_ok data Hd Hs h 16 16 Hh) as (line & El & Hline); [lia..|]. change (btf_ext_setup_line_info data) with (setup_at data 16 16). rewrite El. cbn [mbind option_bind].
  destruct line as [err|line]; [destruct Hline as [-> Hno]; apply Hbad; [|done]; intros x (_ & _ & _ & H & _); by apply Hno in H|].
  match goal with |- ∃ r, _ = Some r ∧ @?R r => assert (∀ core, (if h <? 32 then core = no_info else region_ok data 24 16 core) → visits data core →
    ∃ r : Z + btf_ext, Some (inr (mkExt data func line core)) = Some r ∧ R r) as Hgood end.
  { intros core Hc Hvis. eexists. split; [done|]. split; [|split; [by apply (region_visits data Hd Hs 8 8)|split; [by apply (region_visits data Hd Hs 16 16)|done]]].
    split; [done|]. split; [done|]. split; [done|]. split; [done|]. intros h' K. rewrite Hh in K. injection K as <-. exact Hc. }
  destruct (Z.ltb_spec h 32) as [H32|H32].
  { apply Hgood; [done|]. exists []. split; [reflexivity|]. split; [done|]. intros sec num Hin. by apply elem_of_nil in Hin. }
  destruct (setup_ok data Hd Hs h 24 16 Hh) as (core & Ec & Hcore); [lia..|]. change (btf_ext_setup_core_relos data) with (setup_at data 24 16). rewrite Ec. cbn [mbind option_bind].
  destruct core as [err|core].
  - destruct Hcore as [-> Hno]. apply Hbad; [|done]. intros x (_ & _ & _ & _ & H). specialize (H h Hh). rewrite (proj2 (Z.ltb_ge h 32) H32) in H. by apply Hno in H.
  - apply Hgood; [done|]. by apply (region_visits data Hd Hs 24 16).
Qed.

(** A section with a header of 24 bytes, one function and no lines. *)
Definition sample_ext : list Z :=
  le16 BTF_MAGIC ++ [BTF_VERSION; 0] ++ le32 24 ++ le32 0 ++ le32 20 ++ le32 20 ++ le32 0 ++
  le32 8 ++ le32 1 ++ le32 1 ++ le32 0 ++ le32 1.

Lemma btf_ext__new_safe_witness :
  ∃ e, btf_ext__new true true sample_ext = Some (inr e) ∧ func_info e = mkExtInfo 28 8 16 1
    ∧ for_each_btf_ext_sec sample_ext (func_info e) = Some [(28, 1)] ∧ for_each_btf_ext_rec (func_info e) 28 1 = [36]
    ∧ ext_wf sample_ext e ∧ visits sample_ext (func_info e).
Proof.
  destruct (btf_ext__new_safe true true sample_ext) as (r & E & H).
  - apply (bool_decide_unpack (Forall _ _)). by vm_compute.
  - by vm_compute.
  - assert (btf_ext__new true true sample_ext = Some (inr (mkExt sample_ext (mkExtInfo 28 8 16 1) no_info no_info))) as E' by (by vm_compute).
    rewrite E' in E. injection E as <-. destruct H as (H1 & H2 & _). eexists. split; [exact E'|]. split; [done|]. split; [by vm_compute|]. split; [by vm_compute|]. by split.
Defined.
