(* ===== verification/BtfCopy.v ===== *)
(** * Copying types between objects ([lib/libbpf/src/btf.c])

    The fields of a record that hold an identifier or the offset of a string are
    visited with a callback; the functions that copy a type, or all types, into
    another object rewrite them there.  The object that is read is another one
    than the object that is written. *)

From stdpp Require Import gmap.
From S2P Require Import Prelude CString Hashmap Strset Bytes Btf BtfBuild.

(** ** Visiting fields

    A field is its offset in the memory of the types, which is part of the
    context [T] of the callback; the callback returns an error or 0. *)
Section visit.
Context {T : Type}.
Variable mem_of : T → list Z.
Variable visit : Z → T → option (Z * T).

(** One field of each of the entries of [size] bytes. *)
Definition entries_body (first size i : Z) (s : Z * T) : option (ctl (Z * T)) :=
  '(err, c) ← visit (first + size * i) s.2;
  Some (if negb (err =? 0) then Break (err, c) else Next (0, c)).

Definition btf_type_visit_type_ids (t : Z) (c : T) : option (Z * T) :=
  vlen ← btf_vlen (TypeAt (mem_of c) t);
  kind ← btf_kind (TypeAt (mem_of c) t);
  let e := t + 12 in
  match kind with
  | INT | FLOAT | ENUM | ENUM64 => Some (0, c)
  | FWD | CONST | VOLATILE | RESTRICT | PTR | TYPEDEF | FUNC | VAR | DECL_TAG | TYPE_TAG => visit (t + 8) c
  | ARRAY => '(err, c) ← visit e c; if negb (err =? 0) then Some (err, c) else visit (e + 4) c
  | STRUCT | UNION => for_loop 0 vlen (entries_body (e + 4) 12) (0, c)
  | FUNC_PROTO =>
      '(err, c) ← visit (t + 8) c;
      if negb (err =? 0) then Some (err, c) else for_loop 0 vlen (entries_body (e + 4) 8) (0, c)
  | DATASEC => for_loop 0 vlen (entries_body e 12) (0, c)
  | UNKN | OTHER _ => Some (- EINVAL, c)
  end.

Definition btf_type_visit_str_offs (t : Z) (c : T) : option (Z * T) :=
  '(err, c) ← visit t c;
  if negb (err =? 0) then Some (err, c) else
  vlen ← btf_vlen (TypeAt (mem_of c) t);
  kind ← btf_kind (TypeAt (mem_of c) t);
  let e := t + 12 in
  match kind with
  | STRUCT | UNION => for_loop 0 vlen (entries_body e 12) (0, c)
  | ENUM => for_loop 0 vlen (entries_body e 8) (0, c)
  | ENUM64 => for_loop 0 vlen (entries_body e 12) (0, c)
  | FUNC_PROTO => for_loop 0 vlen (entries_body e 8) (0, c)
  | _ => Some (0, c)
  end.
End visit.

(** ** The callbacks *)

(** Keys are numbers. *)
Definition btf_dedup_identity_hash_fn (key : Z) : Z := u64 key.
Definition btf_dedup_equal_fn (k1 k2 : Z) : bool := k1 =? k2.

(** [struct btf_pipe] but for the object that is only read, with the heap. *)
Record btf_pipe : Type := mkPipe { p_dst : btf; p_str_off_map : option hashmap; p_heap : heap }.

Definition pipe_mem (p : btf_pipe) : list Z := (types_data (p_dst p)).1.
Definition with_dst (p : btf_pipe) (b : btf) : btf_pipe := mkPipe b (p_str_off_map p) (p_heap p).

(** [memcpy] of a record or of the types into the region of the types. *)
Definition put_bytes (b : btf) (off : Z) (bs : list Z) : option btf :=
  match store b with
  | Contiguous _ _ _ => None
  | Separate types cap set raw => types ← aset_list types off bs; Some (with_store b (Separate types cap set raw))
  end.

Section copy.
Variable malloc : heap → option Z.
Variable calloc : Z → bool.
Variable realloc : Z → bool.
Variable block : Z → bool.

(** A string that is not in the source is NULL, whose length cannot be taken. *)
Definition btf_rewrite_str (src : btf) (str_off : Z) (p : btf_pipe) : option (Z * btf_pipe) :=
  let '(mkPipe b m h) := p in
  v ← ld_le32 (pipe_mem p) str_off;
  if v =? 0 then Some (0, p) else
  mapped ← match m with
           | Some m => hashmap_find btf_dedup_identity_hash_fn btf_dedup_equal_fn m h v
           | None => Some None
           end;
  match mapped with
  | Some mapped_off => b ← put_words b str_off [mapped_off]; Some (0, mkPipe b m h)
  | None =>
      s ← btf__str_by_offset src v;
      s ← s;
      s ← c_str s;
      '(off, b, h) ← btf__add_str malloc calloc realloc block b h s;
      if off <? 0 then Some (off, mkPipe b m h) else
      '(err, m, h) ← match m with
                     | Some m =>
                         r ← hashmap_insert btf_dedup_identity_hash_fn btf_dedup_equal_fn malloc calloc m h v off HASHMAP_APPEND;
                         Some (i_ret r, Some (i_map r), i_heap r)
                     | None => Some (0, None, h)
                     end;
      if negb (err =? 0) then Some (err, mkPipe b m h) else
      b ← put_words b str_off [off];
      Some (0, mkPipe b m h)
  end.

(** The object's count of types is still the old one. *)
Definition btf_rewrite_type_ids (type_id : Z) (p : btf_pipe) : option (Z * btf_pipe) :=
  v ← ld_le32 (pipe_mem p) type_id;
  if v =? 0 then Some (0, p) else
  let b := p_dst p in
  b ← put_words b type_id [u32 (v + u32 (start_id b + nr_types b - 1))];
  Some (0, with_dst p b).

(** The record of [src_type]. *)
Definition type_bytes (src_type : type_ptr) (sz : Z) : option (list Z) :=
  match src_type with
  | VoidType => aget_list btf_void 0 (Z.to_nat sz)
  | TypeAt mem off => aget_list mem off (Z.to_nat sz)
  end.

Definition btf__add_type (b : btf) (h : heap) (src : btf) (src_type : type_ptr) : option (Z * btf * heap) :=
  sz ← btf_type_size src_type;
  if sz <? 0 then Some (sz, b, h) else
  '(err, b, h) ← btf_ensure_modifiable malloc calloc block b h;
  if negb (err =? 0) then Some (- ENOMEM, b, h) else
  r ← btf_add_type_mem realloc b sz;
  match r with
  | None => Some (- ENOMEM, b, h)
  | Some (b, t) =>
      bytes ← type_bytes src_type sz;
      b ← put_bytes b t bytes;
      '(err, p) ← btf_type_visit_str_offs pipe_mem (btf_rewrite_str src) t (mkPipe b None h);
      if negb (err =? 0) then Some (err, p_dst p, p_heap p) else
      '(id, b) ← btf_commit_type realloc (p_dst p) sz;
      Some (id, b, p_heap p)
  end.

(** The loop over the types with [err], the record [t] and the pipe; [off] is the
    index of the first new offset. *)
Definition add_btf_body (src : btf) (off i : Z) (s : Z * Z * btf_pipe) : option (ctl (Z * Z * btf_pipe)) :=
  let '(_, t, p) := s in
  sz ← btf_type_size (TypeAt (pipe_mem p) t);
  if sz <? 0 then Some (Break (sz, t, p)) else
  offs ← aset (type_offs (p_dst p)) (off + i) (u32 t);
  let p := with_dst p (with_offs (p_dst p) offs (type_offs_cap (p_dst p))) in
  '(err, p) ← btf_type_visit_str_offs pipe_mem (btf_rewrite_str src) t p;
  if negb (err =? 0) then Some (Break (err, t, p)) else
  '(err, p) ← btf_type_visit_type_ids pipe_mem btf_rewrite_type_ids t p;
  if negb (err =? 0) then Some (Break (err, t, p)) else
  Some (Next (0, t + sz, p)).

(** From [err_out:] on; [strs_data] is NULL in an object that is taken apart, so
    that strings which were added are cleared through NULL. *)
Definition add_btf_undo (b : btf) (data_sz old_strs_len : Z) : option btf :=
  b ← put_bytes b (type_len (hdr b)) (replicate (Z.to_nat data_sz) 0);
  if negb (u32 (str_len (hdr b) - old_strs_len) =? 0) then None else
  let hd := hdr b in
  Some (with_hdr b (mkHdr (magic hd) (version hd) (flags hd) (hdr_len hd) (type_off hd) (type_len hd) (str_off hd) (u32 old_strs_len))).

Definition btf__add_btf (b : btf) (h : heap) (src : btf) : option (Z * btf * heap) :=
  if has_base src then Some (- ENOTSUP, b, h) else
  '(err, b, h) ← btf_ensure_modifiable malloc calloc block b h;
  if negb (err =? 0) then Some (- ENOMEM, b, h) else
  let old_strs_len := s32 (str_len (hdr b)) in
  let data_sz := s32 (type_len (hdr src)) in
  let cnt := s32 (btf__type_cnt src - 1) in
  r ← btf_add_type_mem realloc b (u64 data_sz);
  match r with
  | None => Some (- ENOMEM, b, h)
  | Some (b, t) =>
      match btf_add_type_offs_mem realloc b (u64 cnt) with
      | None => Some (- ENOMEM, b, h)
      | Some (b, off) =>
          match hashmap__new (block 56) with
          | inl _ => Some (- ENOMEM, b, h)
          | inr m =>
              data ← aget_list (types_data src).1 (types_data src).2 (Z.to_nat data_sz);
              b ← put_bytes b t data;
              '(err, _, p) ← for_loop 0 cnt (add_btf_body src off) (0, t, mkPipe b (Some m) h);
              let b := p_dst p in
              if negb (err =? 0) then
                b ← add_btf_undo b data_sz old_strs_len;
                '(h, _) ← hashmap__free (inr <$> p_str_off_map p) (p_heap p);
                Some (err, b, h)
              else
                let b := with_nr (grow_types b data_sz) (u32 (nr_types b + cnt)) in
                '(h, _) ← hashmap__free (inr <$> p_str_off_map p) (p_heap p);
                Some (s32 (start_id b + nr_types b - cnt), b, h)
          end
      end
  end.
End copy.
