(* ===== verification/BtfCopyCorrect.v ===== *)
(** * Correctness of copying types between objects

    The callbacks are applied to exactly the words of a record that hold a name
    or an identifier; a copied record has the names and the shifted references of
    its original. *)

From stdpp Require Import gmap.
From S2P Require Import Prelude Hashmap HashmapCorrect Strset StrsetCorrect Bytes Btf BtfBuild BtfRecords BtfCorrect BtfTypes BtfBuildCorrect BtfCopy.

(** ** The fields of a record *)

(** One word of each of the [vlen] entries of [step] words. *)
Definition entries (first step : nat) (vlen : Z) : list nat := map (λ i, first + step * i)%nat (seq 0 (Z.to_nat vlen)).

(** The words that hold the offset of a string. *)
Definition name_words (k : kind) (vlen : Z) : list nat :=
  0%nat :: match k with
           | STRUCT | UNION | ENUM64 => entries 3 3 vlen
           | ENUM | FUNC_PROTO => entries 3 2 vlen
           | _ => []
           end.

(** The words that hold the identifier of a type. *)
Definition ref_words (k : kind) (vlen : Z) : list nat :=
  match k with
  | FWD | CONST | VOLATILE | RESTRICT | PTR | TYPEDEF | FUNC | VAR | DECL_TAG | TYPE_TAG => [2%nat]
  | ARRAY => [3%nat; 4%nat]
  | STRUCT | UNION => entries 4 3 vlen
  | FUNC_PROTO => 2%nat :: entries 4 2 vlen
  | DATASEC => entries 3 3 vlen
  | _ => []
  end.

Abbreviation names_of info := (name_words (kind_of_num (BTF_INFO_KIND info)) (BTF_INFO_VLEN info)).
Abbreviation refs_of info := (ref_words (kind_of_num (BTF_INFO_KIND info)) (BTF_INFO_VLEN info)).

(** ** The visitors go through these words *)

Section visit.
Context {T : Type} (mem_of : T → list Z) (visit : Z → T → option (Z * T)).

Fixpoint visit_list (offs : list Z) (c : T) : option (Z * T) :=
  match offs with
  | [] => Some (0, c)
  | o :: offs => '(err, c) ← visit o c; if negb (err =? 0) then Some (err, c) else visit_list offs c
  end.

Definition words_at (t : Z) (js : list nat) : list Z := map (λ j, t + 4 * Z.of_nat j) js.

Lemma entries_loop first size n : ∀ i c,
  for_up n i (entries_body visit first size) (0, c) = visit_list (map (λ j, first + size * (i + Z.of_nat j)) (seq 0 n)) c.
Proof.
  induction n as [|n IH]; intros i c; [done|]. cbn [for_up seq map visit_list]. rewrite Z.add_0_r.
  change (entries_body visit first size i (0, c)) with ('(err, c) ← visit (first + size * i) c; Some (if negb (err =? 0) then Break (err, c) else Next (0, c))).
  destruct (visit (first + size * i) c) as [[err c']|]; [|done]. cbn [mbind option_bind]. destruct (Z.eqb_spec err 0) as [->|Hne]; cbn [negb]; [|done].
  rewrite IH, <- seq_shift, map_map. f_equal. apply map_ext. intros j. lia.
Qed.

Lemma entries_for t first step vlen c : 0 <= vlen →
  for_loop 0 vlen (entries_body visit (t + 4 * Z.of_nat first) (4 * Z.of_nat step)) (0, c) = visit_list (words_at t (entries first step vlen)) c.
Proof.
  intros Hv. unfold for_loop, words_at, entries. rewrite Z.sub_0_r, entries_loop, map_map. f_equal. apply map_ext. intros j. lia.
Qed.

Lemma visit_one o c : visit_list [o] c = visit o c.
Proof.
  cbn [visit_list]. destruct (visit o c) as [[err c']|]; [|done]. cbn [mbind option_bind]. by destruct (Z.eqb_spec err 0) as [->|].
Qed.

Lemma visit_cons o offs c : visit_list (o :: offs) c = '(err, c) ← visit o c; if negb (err =? 0) then Some (err, c) else visit_list offs c.
Proof. done. Qed.

Lemma entries_eq t first step vlen a b c : 0 <= vlen → a = t + 4 * Z.of_nat first → b = 4 * Z.of_nat step →
  for_loop 0 vlen (entries_body visit a b) (0, c) = visit_list (words_at t (entries first step vlen)) c.
Proof. intros H -> ->. by apply entries_for. Qed.

Lemma visit_then o (rest rest' : T → option (Z * T)) c : (∀ c, rest c = rest' c) →
  ('(err, c) ← visit o c; if negb (err =? 0) then Some (err, c) else rest c) = '(err, c) ← visit o c; if negb (err =? 0) then Some (err, c) else rest' c.
Proof. intros H. destruct (visit o c) as [[err c']|]; [|done]. cbn [mbind option_bind]. by rewrite H. Qed.

(** The visitors, on a record whose kind is known and is not changed by visiting
    its name. *)
Lemma visit_type_ids_list t c info :
  t_info (TypeAt (mem_of c) t) = Some info → 0 <= info → 0 <= rec_size info →
  btf_type_visit_type_ids mem_of visit t c = visit_list (words_at t (ref_words (kind_of_num (BTF_INFO_KIND info)) (BTF_INFO_VLEN info))) c.
Proof.
  intros Hi H0 Hs. unfold btf_type_visit_type_ids, btf_vlen, btf_kind. rewrite Hi. cbn [mbind option_bind].
  pose proof (vlen_range info H0) as Hv. unfold rec_size in Hs. set (vlen := BTF_INFO_VLEN info) in *.
  assert (∀ j o c', o = t + 4 * Z.of_nat j → visit o c' = visit_list (words_at t [j]) c') as H1 by (intros j o c' ->; symmetry; apply visit_one).
  destruct (kind_of_num (BTF_INFO_KIND info)); try (unfold EINVAL in Hs; lia); cbn [ref_words]; try done; try (by apply entries_eq; lia); try (by apply H1; lia).
  - unfold words_at. cbn [map]. rewrite visit_cons. replace (t + 12) with (t + 4 * Z.of_nat 3) by lia. apply visit_then. intros c'. apply H1. lia.
  - unfold words_at. cbn [map]. rewrite visit_cons. apply visit_then. intros c'. by apply entries_eq; lia.
Qed.

Lemma visit_str_offs_list t c info :
  (∀ c', visit t c = Some (0, c') → t_info (TypeAt (mem_of c') t) = Some info) → 0 <= info →
  btf_type_visit_str_offs mem_of visit t c = visit_list (words_at t (name_words (kind_of_num (BTF_INFO_KIND info)) (BTF_INFO_VLEN info))) c.
Proof.
  intros Hi H0. unfold btf_type_visit_str_offs, btf_vlen, btf_kind, name_words, words_at. cbn [map]. rewrite visit_cons, Z.add_0_r.
  destruct (visit t c) as [[err c']|]; [|done]. cbn [mbind option_bind]. destruct (Z.eqb_spec err 0) as [->|Hne]; cbn [negb]; [|done].
  rewrite (Hi c' eq_refl). cbn [mbind option_bind]. pose proof (vlen_range info H0) as Hv.
  by destruct (kind_of_num (BTF_INFO_KIND info)); try (apply entries_eq; lia).
Qed.

(** ** Visiting a list of words

    [I c ws all]: the record has the words [ws] and the strings are [all].  A step
    replaces a word as [R] says, or fails as [F] says; the strings change as [G]
    says. *)
Section rule.
Variables (G : relation (list (list Z))) (I : T → list Z → list (list Z) → Prop) (F : Z → T → list (list Z) → Prop) (Q : Z → Prop) (R : list (list Z) → Z → Z → Prop) (t : Z).
Context `{!PreOrder G}.
Hypothesis Rmono : ∀ all all' v v', G all all' → R all v v' → R all' v v'.
Hypothesis Fmono : ∀ err c all all', G all all' → F err c all' → F err c all.
Hypothesis step : ∀ j v c ws all, I c ws all → ws !! j = Some v → Q v →
  ∃ err c', visit (t + 4 * Z.of_nat j) c = Some (err, c') ∧
    (err = 0 ∧ (∃ v' all', I c' (<[j := v']> ws) all' ∧ G all all' ∧ R all' v v') ∨ err ≠ 0 ∧ F err c' all).

(** The words [js] are replaced, the others stay. *)
Definition replaced (js : list nat) (P : Z → Z → Prop) (ws ws' : list Z) : Prop :=
  length ws' = length ws ∧ ∀ j v, ws !! j = Some v → ∃ v', ws' !! j = Some v' ∧ if decide (j ∈ js) then P v v' else v' = v.

Lemma visit_list_ok js : NoDup js → ∀ c ws all, I c ws all → (∀ j, j ∈ js → ∃ v, ws !! j = Some v ∧ Q v) →
  ∃ err c', visit_list (words_at t js) c = Some (err, c') ∧
    (err = 0 ∧ (∃ ws' all', I c' ws' all' ∧ G all all' ∧ replaced js (R all') ws ws') ∨ err ≠ 0 ∧ F err c' all).
Proof.
  induction 1 as [|j js Hj Hn IH]; intros c ws all HI HQ.
  - exists 0, c. split; [done|]. left. split; [done|]. exists ws, all. split; [done|]. split; [done|]. split; [done|]. intros j v Hv. by exists v.
  - unfold words_at. cbn [map]. rewrite visit_cons. fold (words_at t js). destruct (HQ j ltac:(left)) as (v & Hv & Qv).
    destruct (step j v c ws all HI Hv Qv) as (err & c1 & -> & Hres). cbn [mbind option_bind]. destruct Hres as [(-> & v1 & all1 & HI1 & Hp1 & HR)|[Hne HF]].
    2:{ rewrite (proj2 (Z.eqb_neq err 0) Hne). cbn [negb]. exists err, c1. split; [done|]. by right. }
    cbn [Z.eqb negb]. destruct (IH c1 (<[j:=v1]> ws) all1 HI1) as (err2 & c2 & -> & Hres2).
    { intros i Hi. destruct (HQ i ltac:(by right)) as (w & Hw & Qw). exists w. split; [|done]. rewrite list_lookup_insert_ne; [done|]. by intros ->. }
    exists err2, c2. split; [done|]. destruct Hres2 as [(-> & ws2 & all2 & HI2 & Hp2 & Hl2 & HR2)|[Hne HF]].
    + left. split; [done|]. exists ws2, all2. split; [done|]. split; [by etrans|]. split; [by rewrite Hl2, length_insert|].
      intros i w Hw. destruct (decide (i = j)) as [->|Hij].
      * rewrite Hv in Hw. injection Hw as <-. destruct (HR2 j v1) as (v' & Hv' & Hc); [apply list_lookup_insert_eq; by eapply lookup_lt_Some|].
        exists v'. split; [done|]. rewrite decide_False in Hc by done. subst v'. rewrite decide_True by left. by apply (Rmono all1).
      * destruct (HR2 i w) as (v' & Hv' & Hc); [by rewrite list_lookup_insert_ne|]. exists v'. split; [done|].
        destruct (decide (i ∈ js)) as [Hin|Hin]; [rewrite decide_True by (by right); done|]. rewrite decide_False; [done|]. by intros [->|?]%elem_of_cons.
    + right. split; [done|]. by apply (Fmono _ _ all all1).
Qed.
End rule.
End visit.

(** ** The words of one record *)

Lemma elem_entries j first step vlen : j ∈ entries first step vlen ↔ ∃ i, j = (first + step * i)%nat ∧ (Z.of_nat i < vlen).
Proof.
  unfold entries. rewrite list_elem_of_fmap. setoid_rewrite elem_of_seq. split; intros (i & -> & Hi); exists i; (split; [done|lia]).
Qed.

Lemma entries_nodup first step vlen : (0 < step)%nat → NoDup (entries first step vlen).
Proof. intros H. apply NoDup_fmap_2_strong; [|apply NoDup_seq]. intros x y _ _ E. nia. Qed.

(** Membership in the lists of words as arithmetic. *)
Ltac words_inv := repeat match goal with
  | H : _ ∨ _ |- _ => destruct H
  | H : ∃ _, _ |- _ => destruct H
  | H : _ ∧ _ |- _ => destruct H
  | H : _ ∈ _ :: _ |- _ => rewrite elem_of_cons in H
  | H : _ ∈ [] |- _ => apply elem_of_nil in H
  | H : _ ∈ entries _ _ _ |- _ => rewrite elem_entries in H
  end.

Lemma word_bound k vlen n j : 0 <= vlen → kind_size k vlen = 4 * Z.of_nat n → j ∈ name_words k vlen ∨ j ∈ ref_words k vlen → (j < n)%nat.
Proof.
  intros Hv Hs Hj. unfold name_words, ref_words in Hj. destruct k; cbn [kind_size] in Hs; cbn match in Hj; try (unfold EINVAL in Hs; lia); words_inv; try done; subst; lia.
Qed.

Lemma words_apart k vlen j : j ∈ name_words k vlen → j ∈ ref_words k vlen → False.
Proof. unfold name_words, ref_words. destruct k; cbn match; intros H1 H2; words_inv; try done; subst; lia. Qed.

Lemma info_word_plain k vlen : (1%nat ∉ name_words k vlen) ∧ (1%nat ∉ ref_words k vlen).
Proof. unfold name_words, ref_words. split; intros H; destruct k; cbn match in H; words_inv; try done; lia. Qed.

Lemma words_nodup k vlen : NoDup (name_words k vlen) ∧ NoDup (ref_words k vlen).
Proof.
  unfold name_words, ref_words. split; destruct k; cbn match; repeat (apply NoDup_cons_2; [intros H; words_inv; try done; lia|]); try apply NoDup_nil_2;
    apply entries_nodup; lia.
Qed.

(** Words replaced in the middle of a list are replaced in the part they lie in. *)
Lemma replaced_local js P (A r C ws' : list Z) :
  (∀ j, j ∈ js → (j < length r)%nat) → replaced (map (Nat.add (length A)) js) P (A ++ r ++ C) ws' → ∃ r', ws' = A ++ r' ++ C ∧ replaced js P r r'.
Proof.
  intros Hlt [Hl H]. rewrite !length_app in Hl. set (r' := take (length r) (drop (length A) ws')).
  assert (length r' = length r) as Hl' by (unfold r'; rewrite length_take, length_drop; lia).
  assert (∀ j, (j < length r)%nat → ws' !! (length A + j)%nat = r' !! j) as Hr'.
  { intros j Hj. unfold r'. by rewrite lookup_take_lt, lookup_drop by done. }
  assert (∀ i v, (A ++ r ++ C) !! i = Some v → (∀ j, j ∈ js → i ≠ (length A + j)%nat) → ws' !! i = Some v) as Hout.
  { intros i v Hv Hi. destruct (H i v Hv) as (v' & -> & Hc). rewrite decide_False in Hc; [by subst v'|].
    intros (j & -> & Hj)%list_elem_of_fmap. by apply (Hi j). }
  exists r'. split; [|split; [done|]].
  - apply list_eq. intros i. destruct (decide (i < length A)%nat) as [H1|H1]; [|destruct (decide (i < length A + length r)%nat) as [H2|H2]].
    + rewrite (lookup_app_l A) by done. destruct (lookup_lt_is_Some_2 A i H1) as [v Hv]. rewrite Hv. apply Hout; [by rewrite lookup_app_l|]. intros j _. lia.
    + replace i with (length A + (i - length A))%nat by lia. rewrite Hr', lookup_app_r by lia. rewrite lookup_app_l by lia. f_equal. lia.
    + rewrite lookup_app_r, lookup_app_r by lia. rewrite Hl'. destruct (C !! (i - length A - length r)%nat) as [v|] eqn:Ev.
      * apply Hout; [by rewrite !lookup_app_r by lia|]. intros j Hj. specialize (Hlt j Hj). lia.
      * apply lookup_ge_None in Ev. apply lookup_ge_None. lia.
  - intros j v Hv. assert (j < length r)%nat as Hj by (by eapply lookup_lt_Some). destruct (H (length A + j)%nat v) as (v' & Hv' & Hc).
    { rewrite lookup_app_r by lia. rewrite lookup_app_l by lia. rewrite <- Hv. f_equal. lia. }
    exists v'. rewrite Hr' in Hv' by done. split; [done|]. destruct (decide (j ∈ js)) as [Hin|Hin].
    + rewrite decide_True in Hc; [done|]. apply list_elem_of_fmap. by exists j.
    + rewrite decide_False in Hc; [done|]. intros (j' & E & Hj')%list_elem_of_fmap. by assert (j' = j) as -> by lia.
Qed.

(** ** Words in the region of the types *)

Lemma enc_app ws1 ws2 : enc (ws1 ++ ws2) = enc ws1 ++ enc ws2.
Proof. unfold enc. by rewrite map_app, concat_app. Qed.

Lemma enc_words n l : length l = (4 * n)%nat → bytes_ok l → ∃ ws, l = enc ws ∧ Forall word_ok ws.
Proof.
  intros H. revert n l H. refine (words_ind _ _ _); [by exists []|]. intros a b c d l IH Hb. do 4 (apply Forall_cons_iff in Hb as [? Hb]).
  destruct (IH Hb) as (ws & -> & Hws). exists ((a + b * 2 ^ 8 + c * 2 ^ 16 + d * 2 ^ 24) :: ws). unfold enc. cbn [map concat].
  rewrite le32_of_bytes by done. split; [done|]. constructor; [unfold word_ok, byte_ok in *; lia|done].
Qed.

Lemma enc_ld pre ws post j v : ws !! j = Some v → word_ok v → ld_le32 (pre ++ enc ws ++ post) (zlen pre + 4 * Z.of_nat j) = Some v.
Proof.
  intros Hj Hv. pose proof (enc_word ws j v Hj post) as H. cbn [t_word] in H. rewrite Z.add_0_l, u32_small in H by done.
  assert (j < length ws)%nat by (by eapply lookup_lt_Some). pose proof (t_word_at pre (enc ws) post (Z.of_nat j) ltac:(lia)) as E.
  rewrite enc_length in E. specialize (E ltac:(lia)). cbn [t_word] in E. rewrite E, Z.add_0_l. pose proof (enc_word ws j v Hj []) as H'.
  cbn [t_word] in H'. by rewrite app_nil_r, Z.add_0_l, u32_small in H'.
Qed.

Lemma enc_split (ws : list Z) j v : ws !! j = Some v → ∃ ws1 ws2, ws = ws1 ++ v :: ws2 ∧ length ws1 = j ∧ ∀ v', <[j := v']> ws = ws1 ++ v' :: ws2.
Proof.
  intros Hj. exists (take j ws), (drop (S j) ws). pose proof (lookup_lt_Some _ _ _ Hj). split; [by rewrite take_drop_middle|].
  split; [rewrite length_take; lia|]. intros v'. by apply insert_take_drop.
Qed.

Section pipe.
Variable ext : list Z.
Context (malloc : heap → option Z) (calloc : Z → bool) `{!Allocator malloc calloc}.
Variable realloc : Z → bool.
Variable block : Z → bool.

(** An object whose region of types holds the words [ws] behind its records. *)
Definition area (b : btf) (recs : list (list Z)) (ws : list Z) : Prop := ∃ post, types_data b = (concat recs ++ enc ws ++ post, 0).

(** The spare part of the region may hold anything. *)
Lemma built_spare h0 b h recs all chs types cap set spare :
  built ext h0 b h recs all chs → modifiable b → store b = Separate types cap set None → zlen (concat recs ++ spare) = cap →
  built ext h0 (with_store b (Separate (concat recs ++ spare) cap set None)) h recs all chs.
Proof.
  intros [Hown Hbase Hids Hhdr Hlen Ht Hb Hfr Hca Hfi Hrest Hst] Hmod Es Hcap. rewrite Es in Hst. destruct Hst as (Hset & Hsm & Hcap' & Hcm).
  split; try done; [|by apply modifiable_cached, modifiable_with_store].
  apply (own_ok_store b); try done; [by exists [], spare|].
  pose proof (ok_strs _ _ _ Hown) as H. unfold btf_strs_data in *. by rewrite Es in H.
Qed.

Lemma built_region h0 b h recs all chs : built ext h0 b h recs all chs → modifiable b →
  ∃ cap set spare, store b = Separate (concat recs ++ spare) cap set None ∧ zlen (concat recs ++ spare) = cap.
Proof.
  intros Hb Hmod. pose proof (bt_store _ _ _ _ _ _ _ Hb) as Hst. pose proof (ok_types _ _ _ (bt_own _ _ _ _ _ _ _ Hb)) as Hl.
  destruct (modifiable_store _ Hmod) as (types & cap & set & Es). unfold types_data in Hl. rewrite Es in Hst, Hl. destruct Hst as (_ & _ & Hcap & _).
  destruct Hl as (pre & post & E & Ep). cbn [fst snd] in *. assert (pre = []) as -> by (apply nil_length_inv; lia). cbn [app] in E. subst types.
  by exists cap, set, post.
Qed.

(** A word of the area is written. *)
Lemma put_word_area h0 b h recs all chs ws j v v' :
  built ext h0 b h recs all chs → modifiable b → area b recs ws → ws !! j = Some v →
  ∃ b', put_words b (zlen (concat recs) + 4 * Z.of_nat j) [v'] = Some b' ∧ built ext h0 b' h recs all chs ∧ modifiable b'
    ∧ area b' recs (<[j := v']> ws) ∧ type_offs b' = type_offs b ∧ type_offs_cap b' = type_offs_cap b.
Proof.
  intros Hb Hmod [post Ha] Hj. destruct (built_region _ _ _ _ _ _ Hb Hmod) as (cap & set & spare & Es & Hcap).
  unfold types_data in Ha. rewrite Es in Ha. injection Ha as Ha. apply app_inv_head in Ha.
  destruct (enc_split ws j v Hj) as (ws1 & ws2 & E & Hl & Hins). rewrite E, enc_app in Ha. change (enc (v :: ws2)) with (le32 v ++ enc ws2) in Ha.
  unfold put_words. rewrite Es, Ha. rewrite <- !app_assoc, (app_assoc (concat recs)).
  replace (zlen (concat recs) + 4 * Z.of_nat j) with (zlen (concat recs ++ enc ws1)) by (rewrite length_app, enc_length; lia).
  rewrite st_words_at by done. cbn [mbind option_bind]. rewrite <- app_assoc. eexists. split; [done|].
  split; [apply (built_spare h0 b h recs all chs _ cap set _ Hb Hmod Es)|split; [by apply modifiable_with_store|split; [|done]]].
  - rewrite <- Hcap, Ha, !length_app, !enc_length. cbn. lia.
  - exists post. unfold types_data. cbn [store with_store]. f_equal. rewrite (Hins v'), enc_app. change (enc (v' :: ws2)) with (le32 v' ++ enc ws2).
    unfold enc at 2. cbn [map concat]. by rewrite app_nil_r, <- !app_assoc.
Qed.

(** The types of the source are copied. *)
Lemma put_bytes_area h0 b h recs all chs ws :
  built ext h0 b h recs all chs → modifiable b → room b recs (4 * zlen ws) →
  ∃ b', put_bytes b (zlen (concat recs)) (enc ws) = Some b' ∧ built ext h0 b' h recs all chs ∧ modifiable b'
    ∧ area b' recs ws ∧ type_offs b' = type_offs b ∧ type_offs_cap b' = type_offs_cap b.
Proof.
  intros Hb Hmod Hroom. destruct (built_region _ _ _ _ _ _ Hb Hmod) as (cap & set & spare & Es & Hcap).
  unfold room, types_data in Hroom. rewrite Es in Hroom. cbn [fst] in Hroom. rewrite length_app in Hroom. unfold put_bytes. rewrite Es.
  rewrite aset_list_eq by (rewrite ?length_app, ?enc_length; lia). rewrite Nat2Z.id, take_app_length, <- drop_drop, drop_app_length. cbn [mbind option_bind].
  eexists. split; [done|]. split; [apply (built_spare h0 b h recs all chs _ cap set _ Hb Hmod Es)|split; [by apply modifiable_with_store|split; [by eexists|done]]].
  rewrite <- Hcap, !length_app, length_drop, enc_length. lia.
Qed.

(** ** The map from offsets to offsets, in the same heap as the strings *)

#[local] Instance identity_key : HashKey btf_dedup_identity_hash_fn btf_dedup_equal_fn.
Proof.
  unfold btf_dedup_equal_fn. split; [intros k; apply Z.eqb_refl|intros k1 k2 ->%Z.eqb_eq k; done|intros k1 k2 ->%Z.eqb_eq; done].
Qed.

Abbreviation map_rep := (rep btf_dedup_identity_hash_fn).
Abbreviation map_mm := (mm_of btf_dedup_equal_fn).

Lemma rep_heap hash m h h' chs : rep hash m h chs → (∀ a, In a (addrs (concat chs)) → h' !! a = h !! a) → rep hash m h' chs.
Proof. unfold rep. destruct (buckets m); [|done]. intros [] Hf. split; try done. by apply (chains_frame h). Qed.

Lemma rep_in_heap hash m h chs a : rep hash m h chs → In a (addrs (concat chs)) → is_Some (h !! a).
Proof.
  unfold rep. destruct (buckets m) as [bs|]; [|by intros [-> _]]. intros Hr Ha. destruct (h !! a) eqn:E; [done|].
  by destruct (rep_allocated hash m h bs chs a Hr E).
Qed.

Lemma built_in_heap h0 b h recs all chs a : built ext h0 b h recs all chs → In a (addrs (concat chs)) → is_Some (h !! a).
Proof.
  intros Hb Ha. pose proof (bt_store _ _ _ _ _ _ _ Hb) as Hst. destruct (store b); [by subst chs|]. destruct Hst as [Hs _].
  by eapply rep_in_heap; [exact (sh_rep _ _ _ _ Hs)|].
Qed.

(** The heap without the object. *)
Lemma built_outside h1 b h recs all chs a : built ext h1 b h recs all chs → h1 !! a = outside h chs a.
Proof. intros Hb. symmetry. exact (bt_frame _ _ _ _ _ _ _ Hb a). Qed.

Lemma outside_Some h chs a e : outside h chs a = Some e → h !! a = Some e ∧ ¬ In a (addrs (concat chs)).
Proof. unfold outside. destruct (decide _) as [Hi|Hi]; [done|]. by rewrite list_elem_of_In in Hi. Qed.

Lemma outside_out h chs a : ¬ In a (addrs (concat chs)) → outside h chs a = h !! a.
Proof. intros H. unfold outside. rewrite decide_False; [done|]. by rewrite list_elem_of_In. Qed.

Lemma outside_in h chs a : In a (addrs (concat chs)) → outside h chs a = None.
Proof. intros H. unfold outside. by rewrite decide_True by by rewrite list_elem_of_In. Qed.

Lemma built_heap h1 h1' b h h' recs all chs :
  built ext h1 b h recs all chs → (∀ a, In a (addrs (concat chs)) → h' !! a = h !! a) → (∀ a, h1' !! a = outside h' chs a) →
  built ext h1' b h' recs all chs.
Proof.
  intros [Hown Hbase Hids Hhdr Hlen Ht Hb Hfr Hca Hfi Hrest Hst] Hf Ho. split; try done.
  - intros a. by rewrite <- Ho.
  - destruct (store b); [done|]. destruct Hst as (Hset & Hst). split; [|done]. destruct Hset. split; try done. by apply (rep_heap _ _ h).
Qed.

(** The map in the whole heap, and after an operation on it. *)
Lemma map_lift h1 b h recs all chs m mchs : built ext h1 b h recs all chs → map_rep m h1 mchs → map_rep m h mchs.
Proof.
  intros Hb Hr. apply (rep_heap _ _ h1); [done|]. intros a Ha. destruct (rep_in_heap _ _ _ _ _ Hr Ha) as [e He]. rewrite He.
  rewrite (built_outside _ _ _ _ _ _ _ Hb) in He. by apply outside_Some in He as [-> _].
Qed.

Lemma map_change h0 h1 b h recs all chs m mchs m' h' mchs' :
  built ext h1 b h recs all chs → map_rep m h1 mchs → frame h0 [] h1 mchs → map_rep m' h' mchs' → frame h mchs h' mchs' →
  ∃ h1', built ext h1' b h' recs all chs ∧ map_rep m' h1' mchs' ∧ frame h0 [] h1' mchs'.
Proof.
  intros Hb Hr Hf Hr' Hf'. pose proof (λ a, built_outside _ _ _ _ _ _ a Hb) as Ho.
  assert (∀ a, In a (addrs (concat chs)) → ¬ In a (addrs (concat mchs)) ∧ ¬ In a (addrs (concat mchs')) ∧ h' !! a = h !! a) as Hdis.
  { intros a Ha. assert (¬ In a (addrs (concat mchs))) as Hn.
    { intros Hi. destruct (rep_in_heap _ _ _ _ _ Hr Hi) as [e He]. by rewrite Ho, outside_in in He. }
    split; [done|]. destruct (built_in_heap _ _ _ _ _ _ _ Hb Ha) as [e He]. pose proof (Hf' a) as E. rewrite (outside_out h mchs), He in E by done.
    apply outside_Some in E as [E1 E2]. by rewrite E1, He. }
  set (h1' := filter (λ x : Z * hashmap_entry, x.1 ∉ addrs (concat chs)) h').
  assert (∀ a, h1' !! a = outside h' chs a) as Ho'.
  { intros a. unfold h1'. destruct (in_dec Z.eq_dec a (addrs (concat chs))) as [Hi|Hi].
    - rewrite outside_in by done. apply map_lookup_filter_None. right. intros e _ Hn. by apply Hn, list_elem_of_In.
    - rewrite outside_out by done. destruct (h' !! a) as [e|] eqn:E; [apply map_lookup_filter_Some; by rewrite list_elem_of_In|]. apply map_lookup_filter_None. by left. }
  exists h1'. split; [|split].
  - apply (built_heap h1 _ _ h); [done|by intros a Ha; apply Hdis|done].
  - apply (rep_heap _ _ h'); [done|]. intros a Ha. rewrite Ho', outside_out; [done|]. intros Hi. by destruct (Hdis a Hi) as (_ & Hn & _).
  - intros a. pose proof (Hf a) as E0. pose proof (Hf' a) as E1. rewrite <- E0. destruct (in_dec Z.eq_dec a (addrs (concat chs))) as [Hi|Hi].
    + destruct (Hdis a Hi) as (Hn & Hn' & _). by rewrite !outside_out, Ho, Ho', !outside_in.
    + destruct (in_dec Z.eq_dec a (addrs (concat mchs'))) as [Hm'|Hm'].
      * rewrite (outside_in h1') by done. rewrite (outside_in h') in E1 by done. destruct (in_dec Z.eq_dec a (addrs (concat mchs))) as [Hm|Hm]; [by rewrite outside_in|].
        rewrite outside_out in E1 |- * by done. by rewrite Ho, outside_out.
      * rewrite (outside_out h1'), Ho', outside_out by done. rewrite (outside_out h') in E1 by done. rewrite E1.
        destruct (in_dec Z.eq_dec a (addrs (concat mchs))) as [Hm|Hm]; [by rewrite !outside_in|]. by rewrite !outside_out, Ho, outside_out.
Qed.

Lemma distinct_bound (l : list Z) N : NoDup l → (∀ x, x ∈ l → 0 < x < N) → 0 < N → zlen l < N.
Proof.
  intros Hn Hr HN. assert (l ⊆ seqZ 1 (N - 1)) as Hs by (intros x Hx; apply elem_of_seqZ; pose proof (Hr x Hx); lia).
  apply (NoDup_submseteq _ _ Hn), submseteq_length in Hs. rewrite length_seqZ in Hs. lia.
Qed.

Lemma all_offset h1 b h recs all chs s o : built ext h1 b h recs all chs → offset_of 0 all s = Some o → 0 <= o < 2 ^ 31.
Proof.
  intros Hb Ho. assert (holds (pack all) all) as Hh by (split; [exact (ok_free _ _ _ (bt_own _ _ _ _ _ _ _ Hb))|exists []; by rewrite app_nil_r]).
  destruct (cstr_at_offset _ _ _ _ Hh Ho) as (_ & H0 & H1). pose proof (ok_str_max _ _ _ (bt_own _ _ _ _ _ _ _ Hb)). lia.
Qed.

(** ** The callbacks *)

Section rewrite.
Variables (src : btf) (h0 : heap) (recs : list (list Z)) (offs : list Z) (ocap : Z) (n : nat) (mapped : bool).

(** The string of the source at an offset. *)
Definition src_str (o : Z) (s : list Z) : Prop := ∃ p, btf__str_by_offset src o = Some (Some p) ∧ c_str p = Some s.

(** Strings of the source are added, each once. *)
Definition grows (all all' : list (list Z)) : Prop :=
  ∃ more, all' = all ++ more ∧ NoDup more ∧ Forall (λ s, (s ∉ all) ∧ ∃ v, src_str v s) more.

#[export] Instance grows_preorder : PreOrder grows.
Proof.
  split; [intros all; exists []; rewrite app_nil_r; repeat constructor|].
  intros a b c (m1 & -> & N1 & F1) (m2 & -> & N2 & F2). exists (m1 ++ m2). rewrite app_assoc. split; [done|].
  split; [apply list.NoDup_app; split; [done|]; split; [|done]; intros x H1 H2|].
  - rewrite list.Forall_forall in F2. destruct (F2 x H2) as [Hn _]. apply Hn, elem_of_app. by right.
  - apply Forall_app. split; [done|]. eapply Forall_impl; [|exact F2]. intros x [Hn Hv]. split; [|done]. intros Hx. apply Hn, elem_of_app. by left.
Qed.

Lemma grows_prefix all all' : grows all all' → all `prefix_of` all'.
Proof. intros (more & -> & _). by eexists. Qed.

(** The new offset of a string, which stays 0 for a type without a name. *)
Definition renamed (all : list (list Z)) (v v' : Z) : Prop := v = 0 ∧ v' = 0 ∨ v ≠ 0 ∧ ∃ s, src_str v s ∧ offset_of 0 all s = Some v'.

(** A word that is 0 or the offset of a string of the source. *)
Definition names (v : Z) : Prop := v ≠ 0 → 0 < v < 2 ^ 31 ∧ ∃ s, src_str v s ∧ name_ok s.

Definition map_good (all : list (list Z)) (M : multimap) : Prop := ∀ k, M k = [] ∨ ∃ v, M k = [(k, v)] ∧ 0 < k < 2 ^ 31 ∧ renamed all k v.

(** [h1] is the heap without the object, [h0] also without the map. *)
Definition map_in (h1 : heap) (m : option hashmap) (all : list (list Z)) : Prop :=
  match m with
  | None => h1 = h0
  | Some m => ∃ mchs, map_rep m h1 mchs ∧ frame h0 [] h1 mchs ∧ map_good all (map_mm mchs)
  end.

Record pipe_ok (p : btf_pipe) (ws : list Z) (all : list (list Z)) : Prop := {
  pk_built : ∃ h1 chs, built ext h1 (p_dst p) (p_heap p) recs all chs ∧ map_in h1 (p_str_off_map p) all;
  pk_mod : modifiable (p_dst p);
  pk_area : area (p_dst p) recs ws;
  pk_words : Forall word_ok ws;
  pk_len : length ws = n;
  pk_offs : type_offs (p_dst p) = offs ∧ type_offs_cap (p_dst p) = ocap;
  pk_map : match p_str_off_map p with Some _ => mapped = true | None => mapped = false end;
}.

(** Memory ran short, or a string of the source is too long for the others. *)
Definition pipe_short (err : Z) (p : btf_pipe) (all : list (list Z)) : Prop :=
  err = - ENOMEM ∧ ∃ ws' all' v s, pipe_ok p ws' all' ∧ grows all all' ∧ src_str v s ∧ no_room malloc calloc realloc BTF_MAX_STR_OFFSET all' s.

Lemma renamed_mono all all' v v' : grows all all' → renamed all v v' → renamed all' v v'.
Proof.
  intros (more & -> & _) [H|(Hv & s & Hs & Ho)]; [by left|]. right. split; [done|]. exists s. split; [done|]. by apply offset_stays.
Qed.

Lemma map_good_mono all all' M : grows all all' → map_good all M → map_good all' M.
Proof. intros Hp H k. destruct (H k) as [|(v & E & Hk & Hr)]; [by left|]. right. exists v. split; [done|]. split; [done|]. by apply (renamed_mono all). Qed.

Lemma map_in_mono all all' h1 m : grows all all' → map_in h1 m all → map_in h1 m all'.
Proof.
  intros Hp. destruct m as [m|]; [|done]. intros (mchs & H1 & H2 & H3). exists mchs. split; [done|]. split; [done|]. by apply (map_good_mono all).
Qed.

Lemma pipe_short_mono err p all all' : grows all all' → pipe_short err p all' → pipe_short err p all.
Proof. intros Hp (-> & ws & all2 & v & s & Hk & Hp2 & Hn). split; [done|]. exists ws, all2, v, s. split; [done|]. split; [by etrans|done]. Qed.

(** Fewer than [2 ^ 31] keys. *)
Lemma map_count all mchs : map_good all (map_mm mchs) → zlen (concat mchs) < 2 ^ 31.
Proof.
  intros Hg. rewrite <- (length_map (λ e : centry, e.1.2)). apply distinct_bound; [|intros k Hk|lia].
  - apply (entries_distinct (equal_fn := btf_dedup_equal_fn)); [intros k; apply Z.eqb_refl|].
    intros k. destruct (Hg k) as [E|(v & E & _)]; unfold mm_of in E; rewrite E; cbn; lia.
  - apply list_elem_of_fmap in Hk as ([[a k'] v] & -> & Hin). cbn [fst snd]. apply list_elem_of_In in Hin.
    pose proof (in_entries_of (equal_fn := btf_dedup_equal_fn) k' _ a k' v Hin (Z.eqb_refl k')) as Hel. destruct (Hg k') as [E|(v' & _ & Hr & _)]; [|done].
    unfold mm_of in E. rewrite E in Hel. by inversion Hel.
Qed.

(** Remembering a new offset. *)
Lemma map_append_ok h1 b h all chs m mchs v off :
  built ext h1 b h recs all chs → map_rep m h1 mchs → frame h0 [] h1 mchs → map_good all (map_mm mchs) →
  map_mm mchs v = [] → 0 < v < 2 ^ 31 → renamed all v off →
  ∃ r h1', hashmap_insert btf_dedup_identity_hash_fn btf_dedup_equal_fn malloc calloc m h v off HASHMAP_APPEND = Some r
    ∧ built ext h1' b (i_heap r) recs all chs ∧ map_in h1' (Some (i_map r)) all
    ∧ (i_ret r = 0 ∨ i_ret r = - ENOMEM ∧ memory_short malloc calloc realloc).
Proof.
  intros Hb Hr Hf Hg Hv Hvr Hren. pose proof (map_lift _ _ _ _ _ _ _ _ Hb Hr) as Hrh.
  destruct (insert_ok _ _ malloc calloc m h mchs v off HASHMAP_APPEND Hrh) as (r & mchs' & M & E & Hr' & Hf' & Hspec & HM & _).
  destruct (map_change _ _ _ _ _ _ _ _ _ _ _ _ Hb Hr Hf Hr' Hf') as (h1' & Hb' & Hr1 & Hf1).
  assert (∀ g k, mm_rehash g (map_mm mchs) k = map_mm mchs k) as Hrev.
  { intros [|] k; [|done]. unfold mm_rehash. destruct (Hg k) as [->|(x & -> & _)]; done. }
  exists r, h1'. split; [done|]. split; [done|].
  assert (i_ret r = - ENOMEM → memory_short malloc calloc realloc) as Hshort.
  { intros Ht. pose proof Hspec as Hsp. rewrite Ht in Hsp. eapply insert_nomem in Hsp as [[Hgr Hc]|Hm]; [| |exact Hrh]; right; [left|by right; eexists].
    eexists. split; [|exact Hc]. eapply grown_small; [exact Hrh|by eapply map_count|done]. }
  set (ret := i_ret r) in *. set (old := (i_old_key r, i_old_value r)) in *. clearbody ret old.
  inversion Hspec as [|? ? ? ? Hst|?|? Hc|? Hc|? Hc]; subst; try (by destruct Hst); cbn [ms_map state_of with_entries rehashed] in *.
  - split; [|right; split; [done|by apply Hshort]]. exists mchs'. split; [done|]. split; [done|]. intros k. rewrite HM. apply Hg.
  - split; [|right; split; [done|by apply Hshort]]. exists mchs'. split; [done|]. split; [done|]. intros k. rewrite HM, Hrev. apply Hg.
  - split; [|by left]. exists mchs'. split; [done|]. split; [done|]. intros k. rewrite HM. unfold mm_set. change (btf_dedup_equal_fn v k) with (v =? k).
    destruct (Z.eqb_spec v k) as [<-|Hne]; [|rewrite Hrev; apply Hg]. rewrite Hrev, Hv. right. by exists off.
Qed.

(** A name is rewritten. *)
Lemma write_word p ws all j v v' :
  pipe_ok p ws all → ws !! j = Some v → word_ok v' →
  ∃ b, put_words (p_dst p) (zlen (concat recs) + 4 * Z.of_nat j) [v'] = Some b ∧ pipe_ok (with_dst p b) (<[j := v']> ws) all.
Proof.
  intros [(h1 & chs & Hb & Hm) Hmod Ha Hw Hl [Ho Hc] Hmap] Hj Hv'. destruct (put_word_area _ _ _ _ _ _ _ _ _ v' Hb Hmod Ha Hj) as (b & -> & Hb' & Hmod' & Ha' & Ho' & Hc').
  exists b. split; [done|]. split; cbn [with_dst p_dst p_str_off_map p_heap]; [by exists h1, chs|done|done|by apply Forall_insert|by rewrite length_insert|by rewrite Ho', Hc'|done].
Qed.

Lemma pipe_read p ws all j v : pipe_ok p ws all → ws !! j = Some v → ld_le32 (pipe_mem p) (zlen (concat recs) + 4 * Z.of_nat j) = Some v.
Proof.
  intros [_ _ [post Ha] Hw _ _ _] Hj. unfold pipe_mem. rewrite Ha. cbn [fst]. apply enc_ld; [done|]. by eapply Forall_lookup_1.
Qed.

Lemma same_word (ws : list Z) j v : ws !! j = Some v → <[j := v]> ws = ws.
Proof. apply list_insert_id. Qed.

Lemma pipe_keep p ws all b m h h1 chs all' :
  pipe_ok p ws all → built ext h1 b h recs all' chs → modifiable b → keeps_types (p_dst p) b → map_in h1 m all' →
  match m with Some _ => mapped = true | None => mapped = false end → pipe_ok (mkPipe b m h) ws all'.
Proof.
  intros [_ _ [post Ha] Hw Hl [Ho Hc] _] Hb Hmod (K1 & K2 & K3) Hm Hmap. split; cbn [p_dst p_heap p_str_off_map]; [by exists h1, chs|done| |done|done|by rewrite K2, K3|done].
  exists post. by rewrite K1.
Qed.

(** A string that is not known yet is added and remembered. *)
Lemma add_new_ok b m h ws all v s h1 chs :
  pipe_ok (mkPipe b m h) ws all → built ext h1 b h recs all chs → map_in h1 m all → v ≠ 0 → 0 < v < 2 ^ 31 → src_str v s → name_ok s →
  match m with Some m => ∃ mchs, map_rep m h1 mchs ∧ frame h0 [] h1 mchs ∧ map_good all (map_mm mchs) ∧ map_mm mchs v = [] | None => True end →
  ∃ off b' h', btf__add_str malloc calloc realloc block b h s = Some (off, b', h') ∧
    (off = - ENOMEM ∧ pipe_short off (mkPipe b' m h') all
     ∨ 0 <= off < 2 ^ 31 ∧ ∃ all' err m' h'', (match m with
                     | Some m =>
                         r ← hashmap_insert btf_dedup_identity_hash_fn btf_dedup_equal_fn malloc calloc m h' v off HASHMAP_APPEND;
                         Some (i_ret r, Some (i_map r), i_heap r)
                     | None => Some (0, None, h')
                     end) = Some (err, m', h'') ∧ pipe_ok (mkPipe b' m' h'') ws all' ∧ grows all all' ∧ renamed all' v off
         ∧ (err = 0 ∨ err ≠ 0 ∧ pipe_short err (mkPipe b' m' h'') all)).
Proof.
  intros Hp Hb Hm Hv0 Hvr Hs Hnok Hmap. pose proof (pk_mod _ _ _ Hp) as Hmod. pose proof (pk_map _ _ _ Hp) as Hm0. cbn [p_dst p_str_off_map] in Hmod, Hm0.
  destruct (btf__add_str_ok ext malloc calloc realloc block _ _ _ _ _ _ s Hb Hnok) as (off & b' & h' & all' & chs' & -> & Hb' & Hres & Hkeep).
  specialize (Hkeep Hmod). exists off, b', h'. split; [done|]. destruct Hres as [(-> & -> & _ & Hno)|(Ho & Hr & Hmod' & Hall)].
  { left. split; [done|]. destruct (Hno Hmod) as [Hmod' Hroom]. split; [done|]. exists ws, all, v, s. split; [|by split_and!].
    by apply (pipe_keep _ _ _ _ _ _ _ _ _ Hp Hb'). }
  right. split; [done|]. assert (grows all all') as Hpre.
  { destruct Hall as [-> |[Hnew ->]]; [done|]. exists [s]. split; [done|]. split; [apply NoDup_singleton|]. constructor; [|done].
    split; [|by exists v]. rewrite list_elem_of_In. by apply offset_of_None in Hnew. }
  assert (renamed all' v off) as Hren by (right; split; [done|by exists s]). pose proof (map_in_mono _ _ _ _ Hpre Hm) as Hm'.
  destruct m as [m|]; [|exists all', 0, None, h'; split; [done|]; split; [by apply (pipe_keep _ _ _ _ _ _ _ _ _ Hp Hb')|]; split_and!; try done; by left].
  destruct Hmap as (mchs & Hmr & Hf & Hg & Hnone).
  destruct (map_append_ok _ _ _ _ _ _ _ v off Hb' Hmr Hf (map_good_mono _ _ _ Hpre Hg) Hnone Hvr Hren) as (r & h1' & -> & Hb2 & Hm2 & Hret).
  cbn [mbind option_bind]. exists all', (i_ret r), (Some (i_map r)), (i_heap r). split; [done|].
  assert (pipe_ok (mkPipe b' (Some (i_map r)) (i_heap r)) ws all') as Hp2 by (by apply (pipe_keep _ _ _ _ _ _ _ _ _ Hp Hb2)).
  split; [done|]. split; [done|]. split; [done|]. destruct Hret as [->|[-> Hshort]]; [by left|right]. split; [done|]. split; [done|].
  exists ws, all', v, s. split; [done|]. split; [done|]. split; [done|]. by right.
Qed.

Lemma rewrite_str_ok j v p ws all :
  pipe_ok p ws all → ws !! j = Some v → names v →
  ∃ err p', btf_rewrite_str malloc calloc realloc block src (zlen (concat recs) + 4 * Z.of_nat j) p = Some (err, p') ∧
    (err = 0 ∧ (∃ v' all', pipe_ok p' (<[j := v']> ws) all' ∧ grows all all' ∧ renamed all' v v') ∨ err ≠ 0 ∧ pipe_short err p' all).
Proof.
  intros Hp Hj Hname. unfold btf_rewrite_str. destruct p as [b m h]. rewrite (pipe_read _ _ _ _ _ Hp Hj). cbn [mbind option_bind].
  destruct (Z.eqb_spec v 0) as [->|Hv0].
  { exists 0, (mkPipe b m h). split; [done|]. left. split; [done|]. exists 0, all. rewrite (same_word ws j) by done. split; [done|]. split; [done|by left]. }
  destruct (Hname Hv0) as (Hvr & s & (q & Hq & Hs) & Hnok). destruct (pk_built _ _ _ Hp) as (h1 & chs & Hb & Hm). cbn [p_dst p_str_off_map p_heap] in *.
  assert (∃ found, (match m with Some m => hashmap_find btf_dedup_identity_hash_fn btf_dedup_equal_fn m h v | None => Some None end) = Some found ∧
    match found with
    | Some off => renamed all v off
    | None => match m with Some m => ∃ mchs, map_rep m h1 mchs ∧ frame h0 [] h1 mchs ∧ map_good all (map_mm mchs) ∧ map_mm mchs v = [] | None => True end
    end) as (found & -> & Hmap).
  { destruct m as [m|]; [|by eexists]. destruct Hm as (mchs & Hr & Hf & Hg). rewrite (find_ok _ _ m h mchs v (map_lift _ _ _ _ _ _ _ _ Hb Hr)).
    eexists. split; [done|]. destruct (Hg v) as [E|(off & E & _ & Hren)]; rewrite E; [by exists mchs|done]. }
  cbn [mbind option_bind]. destruct found as [off|].
  - assert (word_ok off) as Hoff. { destruct Hmap as [[? _]|(_ & s' & _ & Ho)]; [done|]. pose proof (all_offset _ _ _ _ _ _ _ _ Hb Ho). unfold word_ok. lia. }
    destruct (write_word (mkPipe b m h) ws all j v off Hp Hj Hoff) as (b' & E & Hp'). cbn [p_dst] in E. rewrite E. cbn [mbind option_bind].
    eexists 0, _. split; [done|]. left. split; [done|]. by exists off, all.
  - rewrite Hq. cbn [mbind option_bind]. rewrite Hs. cbn [mbind option_bind].
    destruct (add_new_ok b m h ws all v s h1 chs Hp Hb Hm Hv0 Hvr) as (off & b' & h' & -> & Hres); [by exists q|done|done|]. cbn [mbind option_bind].
    destruct Hres as [[-> Hsh]|(Hr & all' & err & m' & h'' & E & Hp' & Hpre & Hren & Herr)].
    { eexists _, _. split; [done|]. by right. }
    rewrite (proj2 (Z.ltb_ge off 0)) by lia. rewrite E. cbn [mbind option_bind]. destruct Herr as [->|[Hne Hsh]].
    2:{ rewrite (proj2 (Z.eqb_neq err 0) Hne). cbn [negb]. eexists _, _. split; [done|]. by right. }
    cbn [Z.eqb negb]. destruct (write_word _ ws all' j v off Hp' Hj) as (b2 & E2 & Hp2); [unfold word_ok; lia|]. cbn [p_dst] in E2. rewrite E2.
    cbn [mbind option_bind]. eexists 0, _. split; [done|]. left. split; [done|]. by exists off, all'.
Qed.

(** An identifier is shifted; that of void stays 0. *)
Definition shifted (v v' : Z) : Prop := v' = if v =? 0 then 0 else u32 (v + zlen recs).

Lemma rewrite_ids_ok j v p ws all :
  pipe_ok p ws all → ws !! j = Some v →
  ∃ v' p', btf_rewrite_type_ids (zlen (concat recs) + 4 * Z.of_nat j) p = Some (0, p') ∧ pipe_ok p' (<[j := v']> ws) all ∧ shifted v v'.
Proof.
  intros Hp Hj. unfold btf_rewrite_type_ids, shifted. rewrite (pipe_read _ _ _ _ _ Hp Hj). cbn [mbind option_bind].
  destruct (Z.eqb_spec v 0) as [->|Hv0]. { exists 0, p. rewrite (same_word ws j) by done. by split_and!. }
  destruct (pk_built _ _ _ Hp) as (h1 & chs & Hb & _). destruct (bt_ids _ _ _ _ _ _ _ Hb) as [Hid _].
  rewrite Hid, (ok_nr _ _ _ (bt_own _ _ _ _ _ _ _ Hb)). destruct (ok_ids _ _ _ (bt_own _ _ _ _ _ _ _ Hb)) as [_ Hmax].
  rewrite (ok_nr _ _ _ (bt_own _ _ _ _ _ _ _ Hb)), Hid in Hmax. rewrite (u32_small (1 + _ - 1)) by (unfold word_ok; lia).
  replace (v + (1 + zlen recs - 1)) with (v + zlen recs) by lia.
  destruct (write_word p ws all j v (u32 (v + zlen recs)) Hp Hj (u32_ok _)) as (b' & -> & Hp'). cbn [mbind option_bind]. eexists _, _. split; [done|]. by split.
Qed.

(** ** One record *)

Definition info_of (r : list Z) (info : Z) : Prop := r !! 1%nat = Some info ∧ 0 <= info ∧ rec_size info = 4 * zlen r.

Lemma words_at_shift t a js : words_at (t + 4 * Z.of_nat a) js = words_at t (map (Nat.add a) js).
Proof. unfold words_at. rewrite map_map. apply map_ext. intros j. lia. Qed.

Lemma info_of_bound r info j : info_of r info → j ∈ names_of info ∨ j ∈ refs_of info → (j < length r)%nat.
Proof.
  intros (_ & H0 & Hs) Hj. rewrite rec_size_kind in Hs. pose proof (vlen_range info H0). eapply word_bound; [|exact Hs|done]; lia.
Qed.

Lemma lookup_mid (A r C : list Z) j v : r !! j = Some v → (A ++ r ++ C) !! (length A + j)%nat = Some v.
Proof.
  intros Hj. rewrite lookup_app_r by lia. replace (length A + j - length A)%nat with j by lia. rewrite lookup_app_l; [done|]. by eapply lookup_lt_Some.
Qed.

Lemma info_read p A r C all info : pipe_ok p (A ++ r ++ C) all → r !! 1%nat = Some info →
  t_info (TypeAt (pipe_mem p) (zlen (concat recs) + 4 * zlen A)) = Some info.
Proof.
  intros Hp Hi. unfold t_info. cbn [t_word]. replace (zlen (concat recs) + 4 * zlen A + 4 * 1) with (zlen (concat recs) + 4 * Z.of_nat (length A + 1)) by lia.
  eapply pipe_read; [exact Hp|]. by apply lookup_mid.
Qed.

Lemma replaced_info js P r r' info : replaced js P r r' → 1%nat ∉ js → info_of r info → info_of r' info.
Proof.
  intros [Hl H] Hn (Hi & H0 & Hs). destruct (H _ _ Hi) as (v' & Hv' & Hc). rewrite decide_False in Hc by done. subst v'. split; [done|]. by rewrite Hl.
Qed.

Lemma shift_nodup a js : NoDup js → NoDup (map (Nat.add a) js).
Proof. intros H. apply NoDup_fmap_2_strong; [|done]. intros x y _ _ E. lia. Qed.

Lemma visit_names_ok p A r C all info :
  pipe_ok p (A ++ r ++ C) all → info_of r info → (∀ j v, j ∈ names_of info → r !! j = Some v → names v) →
  ∃ err p', btf_type_visit_str_offs pipe_mem (btf_rewrite_str malloc calloc realloc block src) (zlen (concat recs) + 4 * zlen A) p = Some (err, p') ∧
    (err = 0 ∧ (∃ r' all', pipe_ok p' (A ++ r' ++ C) all' ∧ grows all all' ∧ replaced (names_of info) (renamed all') r r') ∨ err ≠ 0 ∧ pipe_short err p' all).
Proof.
  intros Hp Hinfo Hnames. pose proof Hinfo as (Hi & H0 & Hs). set (t := zlen (concat recs)) in *.
  assert (∀ c', btf_rewrite_str malloc calloc realloc block src (t + 4 * zlen A) p = Some (0, c') → t_info (TypeAt (pipe_mem c') (t + 4 * zlen A)) = Some info) as Hkeep.
  { intros c' E. assert (r ≠ []) as Hr by (by destruct r). destruct r as [|v r0]; [done|].
    assert ((A ++ (v :: r0) ++ C) !! (length A + 0)%nat = Some v) as Hv by (by apply lookup_mid).
    assert (names v) as Hn by (apply (Hnames 0%nat); [by left|done]). rewrite Nat.add_0_r in Hv.
    destruct (rewrite_str_ok _ _ _ _ _ Hp Hv Hn) as (err & p' & E' & Hres). fold t in E'. rewrite E in E'. injection E' as <- <-.
    destruct Hres as [(_ & v' & all' & Hp' & _)|[? _]]; [|done]. apply (info_read c' A (v' :: r0) C all' info); [|done].
    rewrite <- (Nat.add_0_r (length A)), insert_app_r in Hp'. exact Hp'. }
  rewrite (visit_str_offs_list _ _ _ _ info Hkeep H0), words_at_shift. destruct (words_nodup (kind_of_num (BTF_INFO_KIND info)) (BTF_INFO_VLEN info)) as [Hnd _].
  destruct (visit_list_ok _ grows pipe_ok pipe_short names renamed t renamed_mono (λ err c all all', pipe_short_mono err c all all')
    (λ j v c ws all, rewrite_str_ok j v c ws all) (map (Nat.add (length A)) (names_of info)) (shift_nodup _ _ Hnd) p (A ++ r ++ C) all Hp) as (err & p' & E & Hres).
  { intros i (j & -> & Hj)%list_elem_of_fmap. destruct (lookup_lt_is_Some_2 r j) as [v Hv]; [by apply (info_of_bound r info); [|left]|].
    exists v. split; [by apply lookup_mid|]. by apply (Hnames j). }
  exists err, p'. split; [exact E|]. destruct Hres as [(-> & ws' & all' & Hp' & Hpre & Hrep)|Hsh]; [|by right]. left. split; [done|].
  destruct (replaced_local _ _ _ _ _ _ (λ j Hj, info_of_bound r info j Hinfo (or_introl Hj)) Hrep) as (r' & -> & Hr'). by exists r', all'.
Qed.

Lemma visit_refs_ok p A r C all info :
  pipe_ok p (A ++ r ++ C) all → info_of r info →
  ∃ p' r', btf_type_visit_type_ids pipe_mem btf_rewrite_type_ids (zlen (concat recs) + 4 * zlen A) p = Some (0, p')
    ∧ pipe_ok p' (A ++ r' ++ C) all ∧ replaced (refs_of info) shifted r r'.
Proof.
  intros Hp Hinfo. pose proof Hinfo as (Hi & H0 & Hs). set (t := zlen (concat recs)) in *.
  rewrite (visit_type_ids_list _ _ _ _ info (info_read _ _ _ _ _ _ Hp Hi) H0 ltac:(lia)), words_at_shift.
  destruct (words_nodup (kind_of_num (BTF_INFO_KIND info)) (BTF_INFO_VLEN info)) as [_ Hnd].
  destruct (visit_list_ok btf_rewrite_type_ids prefix (λ c ws a, a = all ∧ pipe_ok c ws all) (λ _ _ _, False) (λ _, True) (λ _, shifted) t (λ _ _ v v' _ H, H) (λ _ _ _ _ _ H, H))
    with (js := map (Nat.add (length A)) (refs_of info)) (c := p) (ws := A ++ r ++ C) (all := all) as (err & p' & E & Hres).
  - intros j v c ws a [-> Hc] Hj _. destruct (rewrite_ids_ok j v c ws all Hc Hj) as (v' & c' & E & Hc' & Hsh). exists 0, c'. split; [exact E|].
    left. split; [done|]. by exists v', all.
  - by apply shift_nodup.
  - done.
  - intros i (j & -> & Hj)%list_elem_of_fmap. destruct (lookup_lt_is_Some_2 r j) as [v Hv]; [by apply (info_of_bound r info); [|right]|].
    exists v. split; [by apply lookup_mid|done].
  - destruct Hres as [(-> & ws' & a & [-> Hp'] & _ & Hrep)|[_ []]].
    destruct (replaced_local _ _ _ _ _ _ (λ j Hj, info_of_bound r info j Hinfo (or_intror Hj)) Hrep) as (r' & -> & Hr').
    exists p', r'. split; [exact E|]. by split.
Qed.

(** A copied record: its names are those of the original, its identifiers are
    related by [S], and the other words are the same. *)
Definition copied_words (S : Z → Z → Prop) (all : list (list Z)) (r r' : list Z) : Prop :=
  ∃ info, info_of r info ∧ length r' = length r ∧ ∀ j v, r !! j = Some v → ∃ v', r' !! j = Some v' ∧
    if decide (j ∈ names_of info) then renamed all v v' else if decide (j ∈ refs_of info) then S v v' else v' = v.

Lemma copied_names r r' all info : info_of r info → replaced (names_of info) (renamed all) r r' → copied_words (λ v v', v' = v) all r r'.
Proof.
  intros Hi [Hl H]. exists info. split; [done|]. split; [done|]. intros j v Hv. destruct (H j v Hv) as (v' & Hv' & Hc). exists v'. split; [done|].
  destruct (decide _); [done|]. by destruct (decide _).
Qed.

Lemma copied_refs r r1 r2 all info :
  info_of r info → replaced (names_of info) (renamed all) r r1 → replaced (refs_of info) shifted r1 r2 → copied_words shifted all r r2.
Proof.
  intros Hi [Hl1 H1] [Hl2 H2]. exists info. split; [done|]. split; [by rewrite Hl2|]. intros j v Hv. destruct (H1 j v Hv) as (v1 & Hv1 & Hc1).
  destruct (H2 j v1 Hv1) as (v2 & Hv2 & Hc2). exists v2. split; [done|]. destruct (decide (j ∈ names_of info)) as [Hin|Hin].
  - rewrite decide_False in Hc2 by (intros Hr; by eapply words_apart). by subst v2.
  - subst v1. done.
Qed.

Lemma copied_mono S r r' all all' : grows all all' → copied_words S all r r' → copied_words S all' r r'.
Proof.
  intros Hp (info & Hi & Hl & H). exists info. split; [done|]. split; [done|]. intros j v Hv. destruct (H j v Hv) as (v' & Hv' & Hc). exists v'. split; [done|].
  destruct (decide _); [by apply (renamed_mono all)|done].
Qed.

Lemma copied_rec S r r' all : Forall word_ok r → copied_words S all r r' → rec_words r'.
Proof.
  intros Hw (info & (Hi & H0 & Hs) & Hl & H). destruct (H _ _ Hi) as (v' & Hv' & Hc).
  destruct (info_word_plain (kind_of_num (BTF_INFO_KIND info)) (BTF_INFO_VLEN info)) as [N1 N2]. rewrite !decide_False in Hc by done. subst v'.
  exists info. split; [done|]. rewrite u32_small by (by eapply Forall_lookup_1). by rewrite Hl.
Qed.

(** The names of a record of the source can be copied. *)
Definition names_in (r : list Z) : Prop :=
  ∀ info j v, t_info (TypeAt r 0) = Some info → j ∈ names_of info → t_word (TypeAt r 0) (Z.of_nat j) = Some v → names v.

(** A record, as its words. *)
Lemma record_words r : rec_ok r → names_in r →
  ∃ ws info, r = enc ws ∧ Forall word_ok ws ∧ info_of ws info ∧ ∀ j v, j ∈ names_of info → ws !! j = Some v → names v.
Proof.
  intros Hr Hn. destruct (rec_ok_words r Hr) as [k Hk]. pose proof Hr as [Hb (info & Hi & Hs)]. destruct (enc_words k r Hk Hb) as (ws & -> & Hw).
  assert (∀ j v, ws !! j = Some v → t_word (TypeAt (enc ws) 0) (Z.of_nat j) = Some v) as Hword.
  { intros j v Hv. pose proof (enc_word ws j v Hv []) as E. rewrite app_nil_r in E. rewrite E. by rewrite u32_small by (by eapply Forall_lookup_1). }
  pose proof (rec_ok_length _ Hr) as [Hl _]. rewrite enc_length in Hl, Hs. destruct (lookup_lt_is_Some_2 ws 1) as [w Hw1]; [lia|].
  unfold t_info in Hi. pose proof (Hword 1%nat w Hw1) as E. change (Z.of_nat 1) with 1 in E. rewrite E in Hi. injection Hi as ->.
  exists ws, info. split; [done|]. split; [done|]. split; [|intros j v Hj Hv; by apply (Hn info j v E Hj), Hword].
  split; [done|]. split; [by apply (Forall_lookup_1 _ _ _ _ Hw) in Hw1 as [? _]|lia].
Qed.
End rewrite.

Definition copied (src : btf) (S : Z → Z → Prop) (all : list (list Z)) (r r' : list Z) : Prop :=
  ∃ ws ws', r = enc ws ∧ r' = enc ws' ∧ copied_words src S all ws ws'.

Lemma pipe_unmapped src h0 recs offs cap n p ws all : pipe_ok src h0 recs offs cap n false p ws all →
  ∃ chs, built ext h0 (p_dst p) (p_heap p) recs all chs ∧ modifiable (p_dst p).
Proof.
  intros [(h1 & chs & Hb & Hm) Hmod _ _ _ _ Hmap]. destruct (p_str_off_map p); [done|]. cbn in Hm. subst h1. by exists chs.
Qed.

(** Why there is no memory for [cnt] types of [sz] bytes of the source: an
    allocation failed, the types or their number reach their limit, or a string
    of the source does not fit behind the strings. *)
Inductive copy_refused (src : btf) (recs all : list (list Z)) (cnt sz : Z) : Prop :=
| cr_allocation : refused malloc calloc realloc block → copy_refused src recs all cnt sz
| cr_types : UINT32_MAX < zlen (concat recs) + sz → copy_refused src recs all cnt sz
| cr_count : BTF_MAX_NR_TYPES < zlen recs + cnt → copy_refused src recs all cnt sz
| cr_string v s : src_str src v s → BTF_MAX_STR_OFFSET < zlen (pack all) + zlen s + 1 → copy_refused src recs all cnt sz.

Lemma cr_realloc src recs all cnt sz : (∃ n, n < 2 ^ 34 ∧ realloc n = false) → copy_refused src recs all cnt sz.
Proof. intros H. apply cr_allocation. by left; left. Qed.

Lemma cr_no_room src recs all cnt sz v s :
  src_str src v s → no_room malloc calloc realloc BTF_MAX_STR_OFFSET all s → copy_refused src recs all cnt sz.
Proof. intros Hs [H|H]; [by eapply cr_string|apply cr_allocation; by left]. Qed.

Lemma btf__add_type_ok h0 b h recs all chs src t r :
  built ext h0 b h recs all chs → record_at t r → names_in src r →
  ∃ id b' h' recs' all' chs', btf__add_type malloc calloc realloc block b h src t = Some (id, b', h') ∧ built ext h0 b' h' recs' all' chs'
    ∧ grows src all all'
    ∧ (recs' = recs ∧ (id = - EINVAL ∧ t = VoidType ∨ id = - ENOMEM ∧ copy_refused src recs all' 1 (zlen r))
       ∨ id = zlen recs + 1 ∧ ∃ r', recs' = recs ++ [r'] ∧ copied src (λ v v', v' = v) all' r r').
Proof.
  intros Hb Hat Hn. unfold btf__add_type. destruct t as [|mem off].
  { change (btf_type_size VoidType) with (Some (- EINVAL)). cbn [mbind option_bind]. exists (- EINVAL), b, h, recs, all, chs.
    split; [done|]. split; [done|]. split; [done|]. left. split; [done|]. by left. }
  destruct Hat as [Hr Hloc]. destruct (record_info (TypeAt mem off) r) as (info0 & Hi0 & _ & [?|Hs0]); [by split|done|].
  rewrite btf_type_size_eq, Hi0. cbn [mbind option_bind]. rewrite Hs0. pose proof (rec_ok_length r Hr) as [Hrl _].
  rewrite (proj2 (Z.ltb_ge (zlen r) 0)) by lia.
  destruct (ensure_modifiable_ok ext malloc calloc realloc block _ _ _ _ _ _ Hb) as (err & b1 & h1 & chs1 & -> & Hb1 & Herr & _). cbn [mbind option_bind].
  assert (∀ b2 h2 all2 chs2, built ext h0 b2 h2 recs all2 chs2 → grows src all all2 → copy_refused src recs all2 1 (zlen r) → ∃ id b' h' recs' all' chs', Some (- ENOMEM, b2, h2) = Some (id, b', h')
    ∧ built ext h0 b' h' recs' all' chs' ∧ grows src all all' ∧ (recs' = recs ∧ (id = - EINVAL ∧ TypeAt mem off = VoidType ∨ id = - ENOMEM ∧ copy_refused src recs all' 1 (zlen r))
       ∨ id = zlen recs + 1 ∧ ∃ r', recs' = recs ++ [r'] ∧ copied src (λ v v', v' = v) all' r r')) as Hfail.
  { intros b2 h2 all2 chs2 H2 Hp2 Hcr. exists (- ENOMEM), b2, h2, recs, all2, chs2. split; [done|]. split; [done|]. split; [done|]. left. split; [done|]. by right. }
  destruct Herr as [[-> Hmod]|[-> Href]]; [|by eapply Hfail, cr_allocation]. cbn [Z.eqb negb].
  destruct (add_type_mem_ok ext realloc _ _ _ _ _ _ (zlen r) Hb1 Hmod ltac:(lia)) as [[-> Hlim]|(b2 & -> & Hb2 & Hmod2 & Hroom)]; cbn [mbind option_bind].
  { eapply Hfail; [done|done|]. destruct Hlim as [?|?]; [by apply cr_types|by apply cr_realloc]. }
  unfold type_bytes. rewrite Nat2Z.id, (located_list _ _ _ Hloc). cbn [mbind option_bind].
  destruct (record_words src r Hr Hn) as (ws & info & -> & Hw & Hinfo & Hnames). rewrite enc_length in Hroom.
  destruct (put_bytes_area _ _ _ _ _ _ ws Hb2 Hmod2 ltac:(by replace (4 * zlen ws) with (Z.of_nat (4 * length ws)) by lia)) as (b3 & -> & Hb3 & Hmod3 & Ha & _). cbn [mbind option_bind].
  assert (pipe_ok src h0 recs (type_offs b3) (type_offs_cap b3) (length ws) false (mkPipe b3 None h1) ([] ++ ws ++ []) all) as Hp.
  { rewrite app_nil_r. split; cbn [p_dst p_heap p_str_off_map]; [by exists h0, chs1|done..]. }
  destruct (visit_names_ok _ _ _ _ _ _ _ _ [] ws [] all info Hp Hinfo Hnames) as (err & p' & E & Hres). cbn [length] in E. rewrite Z.mul_0_r, Z.add_0_r in E.
  rewrite E. cbn [mbind option_bind]. destruct Hres as [(-> & ws' & all' & Hp' & Hpre & Hrep)|[Hne (-> & ws' & all' & v & s & Hp' & Hpre & Hsv & Hno)]].
  2:{ cbn [Z.eqb negb]. destruct (pipe_unmapped _ _ _ _ _ _ _ _ _ Hp') as (chs' & Hb' & _). eapply Hfail; [done|done|by eapply cr_no_room]. }
  cbn [Z.eqb negb]. destruct (pipe_unmapped _ _ _ _ _ _ _ _ _ Hp') as (chs' & Hb' & Hmod'). destruct (pk_area _ _ _ _ _ _ _ _ _ _ Hp') as [post Ha'].
  pose proof (copied_names src ws ws' all' info Hinfo Hrep) as Hcop. rewrite app_nil_r in Ha'. cbn [app] in Ha'.
  destruct (commit_type_ok ext realloc _ _ _ _ _ _ (enc ws') post Hb' Hmod' (enc_rec_ok _ (copied_rec _ _ _ _ _ Hw Hcop)) Ha') as (id & b5 & Hc & _ & Hid).
  rewrite !enc_length in *. destruct Hrep as [Hl _]. rewrite Hl in Hc. rewrite Hc. cbn [mbind option_bind].
  destruct Hid as [(-> & Hb5 & Hlim)|[-> Hb5]].
  { eapply Hfail; [done|done|]. destruct Hlim as [?|?]; [apply cr_count; lia|by apply cr_realloc]. } eexists _, _, _, _, _, _. split; [done|]. split; [exact Hb5|]. split; [done|]. right. split; [done|].
  exists (enc ws'). split; [done|]. by exists ws, ws'.
Qed.
End pipe.
