(* ===== verification/BtfCopyAll.v ===== *)
(** * Correctness of appending an object to another

    [btf__add_btf] appends all types of the source: their names are found or added
    in the destination and their identifiers are shifted.  Without memory
    ([copy_refused]) nothing is changed, unless a string was added before: then
    the function writes through NULL. *)

From stdpp Require Import gmap.
From S2P Require Import Prelude Hashmap HashmapCorrect Strset StrsetCorrect Bytes Btf BtfBuild BtfRecords BtfCorrect BtfTypes BtfBuildCorrect BtfRoundtrip BtfCopy BtfCopyCorrect.

Section append.
Variable ext : list Z.
Context (malloc : heap → option Z) (calloc : Z → bool) `{!Allocator malloc calloc}.
Variable realloc : Z → bool.
Variable block : Z → bool.

(** ** The array of offsets *)

Lemma built_offs h1 b h recs all chs offs cap :
  built ext h1 b h recs all chs → take (length recs) offs = take (length recs) (type_offs b) → zlen offs = cap → zlen recs <= cap <= BTF_MAX_NR_TYPES →
  built ext h1 (with_offs b offs cap) h recs all chs.
Proof.
  intros [Hown Hbase Hids Hhdr Hlen Ht Hb Hfr Hca Hfi Hrest Hst] Hofs Hcap Hr. split; try done; [|by destruct Hca].
  destruct Hown as [H1 H2 H3 [H4 H5 H6] H7 H8 H9 H10 H11 H12 H13]. split; try done. split; [done| |done]. cbn [type_offs with_offs]. by rewrite Hofs.
Qed.

Lemma add_offs_ok h1 b h recs all chs cnt :
  built ext h1 b h recs all chs → modifiable b → 0 <= cnt < 2 ^ 32 →
  btf_add_type_offs_mem realloc b cnt = None ∧ (BTF_MAX_NR_TYPES < zlen recs + cnt ∨ ∃ n, n < 2 ^ 34 ∧ realloc n = false)
  ∨ ∃ offs cap, btf_add_type_offs_mem realloc b cnt = Some (with_offs b offs cap, zlen recs) ∧ built ext h1 (with_offs b offs cap) h recs all chs
      ∧ zlen offs = cap ∧ zlen recs + cnt <= cap.
Proof.
  intros Hb Hmod Hc. pose proof (bt_own _ _ _ _ _ _ _ Hb) as Hown. destruct (ok_index _ _ _ Hown) as [I1 I2 I3]. unfold btf_add_type_offs_mem.
  rewrite (ok_nr _ _ _ Hown).
  pose proof (libbpf_add_mem_spec realloc (type_offs b) (type_offs_cap b) 4 (zlen recs) BTF_MAX_NR_TYPES cnt I1) as H. unfold BTF_MAX_NR_TYPES in *.
  specialize (H ltac:(lia) ltac:(lia) ltac:(lia) ltac:(lia)).
  destruct (libbpf_add_mem _ _ _ _ _ _ _) as [[[offs cap] p]|].
  2: { left. split; [done|]. destruct H as [H|(n & Hn & Hf)]; [by left|right; exists n; split; [lia|done]]. }
  right. destruct H as (-> & k & -> & Hcap & Hlo & Hhi).
  eexists _, cap. split; [done|]. split; [|by split]. apply built_offs; [done|by rewrite take_app_le by lia|done|unfold BTF_MAX_NR_TYPES; lia].
Qed.

Lemma enc_concat l : zlen (concat (map enc l)) = 4 * zlen (concat l).
Proof. induction l as [|w l IH]; [done|]. cbn [map concat]. rewrite !length_app, enc_length. lia. Qed.

(** ** The loop over the types *)

Section loop.
Variables (src : btf) (h0 : heap) (recs all0 : list (list Z)) (wss : list (list Z)) (ocap : Z).

(** The records of the source, as words. *)
Definition source_ok (w : list Z) : Prop :=
  Forall word_ok w ∧ ∃ info, info_of w info ∧ ∀ j v, j ∈ names_of info → w !! j = Some v → names src v.

Hypothesis Hsrc : Forall source_ok wss.
Hypothesis Hcap : zlen recs + zlen wss <= ocap.

Abbreviation pipe := (pipe_ok ext src h0 recs).
Abbreviation T0 := (zlen (concat recs)).

Definition new_offsets : list Z := offsets T0 (map enc wss).

(** Before type [i]: [dn] are the words of the types before it. *)
Definition at_type (i : Z) (s : Z * Z * btf_pipe) : Prop :=
  ∃ (dn : list (list Z)) all offs p,
    s = (0, T0 + 4 * zlen (concat dn), p) ∧ zlen dn = i ∧ grows src all0 all
    ∧ pipe offs ocap (length (concat wss)) true p (concat dn ++ concat (drop (length dn) wss)) all
    ∧ Forall2 (copied_words src (shifted recs) all) (take (length dn) wss) dn
    ∧ zlen offs = ocap ∧ take (length recs + length dn) offs = offsets 0 recs ++ take (length dn) new_offsets.

Definition stopped (s : Z * Z * btf_pipe) : Prop :=
  ∃ offs t err p, s = (err, t, p) ∧ err ≠ 0
    ∧ pipe_short ext malloc calloc realloc src h0 recs offs ocap (length (concat wss)) true err p all0.

Lemma copied_concat S all l l' : Forall2 (copied_words src S all) l l' → length (concat l') = length (concat l).
Proof. induction 1 as [|x y l l' (info & _ & Hl & _) _ IH]; [done|]. cbn [concat]. by rewrite !length_app, Hl, IH. Qed.

Lemma pipe_offs offs offs' p ws all n :
  pipe offs ocap n true p ws all → take (length recs) offs' = take (length recs) offs → zlen offs' = ocap → zlen offs = ocap →
  pipe offs' ocap n true (with_dst p (with_offs (p_dst p) offs' (type_offs_cap (p_dst p)))) ws all.
Proof.
  intros [(h1 & chs & Hb & Hm) Hmod Ha Hw Hl [Ho Hc] Hmap] Ht Hl' Hl0. split; cbn [p_dst p_heap p_str_off_map with_dst]; try done.
  exists h1, chs. split; [|done]. destruct (ok_index _ _ _ (bt_own _ _ _ _ _ _ _ Hb)) as [_ _ Hr]. apply built_offs; [done|by rewrite Ho|by rewrite Hc|exact Hr].
Qed.

Lemma new_offset k w : wss !! k = Some w → new_offsets !! k = Some (T0 + 4 * zlen (concat (take k wss))).
Proof.
  intros Hk. unfold new_offsets. rewrite (offsets_lookup _ _ (enc w)) by (by rewrite list_lookup_fmap, Hk). by rewrite <- fmap_take, enc_concat.
Qed.

(** The offset of the next type is entered. *)
Lemma enter_offset (dn : list (list Z)) offs w :
  wss !! length dn = Some w → length (concat dn) = length (concat (take (length dn) wss)) → zlen offs = ocap →
  take (length recs + length dn) offs = offsets 0 recs ++ take (length dn) new_offsets →
  take (length recs + S (length dn)) (<[(length recs + length dn)%nat := T0 + 4 * zlen (concat dn)]> offs) = offsets 0 recs ++ take (S (length dn)) new_offsets.
Proof.
  intros Hw Hl Hoc Hofs. pose proof (lookup_lt_Some _ _ _ Hw) as Hlt. pose proof (new_offset _ _ Hw) as Hn. rewrite <- Hl in Hn.
  rewrite (take_S_r new_offsets _ _ Hn), app_assoc, <- Hofs, Nat.add_succ_r. erewrite take_S_r by (apply list_lookup_insert_eq; lia).
  by rewrite take_insert_ge by lia.
Qed.

Lemma area_bound offs n p ws all : pipe offs ocap n true p ws all → T0 + 4 * zlen ws <= UINT32_MAX.
Proof.
  intros [(h1 & chs & Hb & _) Hmod [post Ha] _ _ _ _]. pose proof (own_room _ _ _ _ _ _ _ _ _ Hb Hmod Ha) as H. rewrite enc_length in H. lia.
Qed.

Lemma add_btf_step i s : 0 <= i < zlen wss → at_type i s →
  ∃ c, add_btf_body malloc calloc realloc block src (zlen recs) i s = Some c ∧ match c with Next s' => at_type (i + 1) s' | Break s' => stopped s' end.
Proof.
  intros Hi (dn & all & offs & p & -> & <- & Hpre & Hp & Hdn & Hoc & Hofs). unfold add_btf_body.
  destruct (lookup_lt_is_Some_2 wss (length dn)) as [w Hw]; [lia|]. rewrite (drop_S _ w) in Hp by done. cbn [concat] in Hp.
  destruct (Forall_lookup_1 _ _ _ _ Hsrc Hw) as [Hww (info & Hinfo & Hnames)]. pose proof Hinfo as (Hi1 & H0 & Hs).
  rewrite btf_type_size_eq, (info_read _ _ _ _ _ _ _ _ _ _ _ _ _ _ Hp Hi1). cbn [mbind option_bind]. rewrite Hs, (proj2 (Z.ltb_ge (4 * zlen w) 0)) by lia.
  destruct (pk_offs _ _ _ _ _ _ _ _ _ _ _ Hp) as [Ho Hc]. rewrite Ho, aset_eq by lia. cbn [mbind option_bind].
  pose proof (copied_concat _ _ _ _ Hdn) as Hl. pose proof (area_bound _ _ _ _ _ Hp) as Hb. rewrite !length_app in Hb. unfold UINT32_MAX in Hb.
  rewrite u32_small by (unfold word_ok; lia). replace (Z.to_nat (zlen recs + zlen dn)) with (length recs + length dn)%nat by lia.
  pose proof (enter_offset dn offs w Hw Hl Hoc Hofs) as Hofs'. set (offs' := <[_ := _]> offs) in *.
  assert (zlen offs' = ocap) as Hoc' by (unfold offs'; by rewrite length_insert).
  apply (pipe_offs _ offs') in Hp; [|by unfold offs'; rewrite take_insert_ge by lia|done|done].
  destruct (visit_names_ok ext malloc calloc realloc block _ _ _ _ _ _ _ _ _ _ _ _ _ Hp Hinfo Hnames) as (err & p2 & -> & Hres). cbn [mbind option_bind].
  destruct Hres as [(-> & w1 & all1 & Hp2 & Hpre1 & Hrep1)|[Hne Hsh]].
  2:{ rewrite (proj2 (Z.eqb_neq err 0) Hne). cbn [negb]. eexists. split; [done|]. eexists offs', _, err, p2. split; [done|]. split; [done|].
      eapply pipe_short_mono; [exact Hpre|exact Hsh]. }
  cbn [Z.eqb negb]. destruct (info_word_plain (kind_of_num (BTF_INFO_KIND info)) (BTF_INFO_VLEN info)) as [N1 _].
  destruct (visit_refs_ok _ _ _ _ _ _ _ _ _ _ _ _ _ _ Hp2 (replaced_info _ _ _ _ _ Hrep1 N1 Hinfo)) as (p3 & w2 & -> & Hp3 & Hrep2). cbn [mbind option_bind Z.eqb negb].
  pose proof (copied_refs _ _ _ _ _ _ _ Hinfo Hrep1 Hrep2) as Hcop. pose proof Hcop as (_ & _ & Hl2 & _).
  eexists. split; [done|]. exists (dn ++ [w2]), all1, offs', p3. rewrite !concat_app_single, !length_app. cbn [length]. rewrite !Nat.add_1_r.
  split; [f_equal; f_equal; lia|]. split; [lia|]. split; [by etrans|]. split; [by rewrite <- app_assoc|]. split; [|by split].
  rewrite (take_S_r wss _ w Hw). apply Forall2_app; [|by repeat constructor]. eapply Forall2_impl; [|exact Hdn]. intros x y. by apply copied_mono.
Qed.
End loop.

(** ** Before and behind the loop *)

Lemma concat_enc wss : concat (map enc wss) = enc (concat wss).
Proof. induction wss as [|w wss IH]; [done|]. cbn [map concat]. by rewrite enc_app, IH. Qed.

Lemma source_words src srecs : Forall rec_ok srecs → Forall (names_in src) srecs → ∃ wss, srecs = map enc wss ∧ Forall (source_ok src) wss.
Proof.
  induction 1 as [|r srecs Hr _ IH]; intros Hn; [by exists []|]. apply Forall_cons_iff in Hn as [Hn Hns].
  destruct (record_words src r Hr Hn) as (w & info & -> & Hw & Hi & Hnm). destruct (IH Hns) as (wss & -> & Hs). exists (w :: wss). split; [done|].
  constructor; [|done]. split; [done|]. by exists info.
Qed.

Lemma offsets_lengths l l' o : Forall2 (λ a b : list Z, length a = length b) l l' → offsets o l = offsets o l'.
Proof. intros H. revert o. induction H as [|a b l l' E _ IH]; intros o; [done|]. cbn [offsets]. by rewrite E, IH. Qed.

Lemma enc_zeros n : enc (replicate n 0) = replicate (4 * n) 0.
Proof.
  induction n as [|n IH]; [done|]. change (replicate (S n) 0) with (0 :: replicate n 0). change (enc (0 :: replicate n 0)) with (le32 0 ++ enc (replicate n 0)).
  rewrite IH. by replace (4 * S n)%nat with (S (S (S (S (4 * n))))) by lia.
Qed.

(** The new types are counted. *)
Lemma commit_all h1 b h recs recs2 all chs post :
  built ext h1 b h recs all chs → modifiable b → Forall rec_ok recs2 → types_data b = (concat recs ++ concat recs2 ++ post, 0) →
  index_of (type_offs b) (type_offs_cap b) (recs ++ recs2) →
  built ext h1 (with_nr (grow_types b (zlen (concat recs2))) (u32 (nr_types b + zlen recs2))) h (recs ++ recs2) all chs
  ∧ zlen recs + zlen recs2 + 1 < 2 ^ 31.
Proof.
  intros Hb Hmod Hr Htd Hidx. pose proof (own_room _ _ _ _ _ _ _ _ _ Hb Hmod Htd) as Hroom.
  pose proof Hb as [Hown Hbase [Hid0 Hso] Hhdr Hlen [Hto Hoff] Hby Hfr Hca Hfi Hrest Hst].
  assert (Forall rec_ok (recs ++ recs2)) as Hrecs by (apply Forall_app; split; [exact (ok_recs _ _ _ Hown)|done]).
  pose proof (records_count _ Hrecs) as Hcount. rewrite concat_app, !length_app in Hcount. unfold UINT32_MAX in *.
  set (b' := with_nr _ _).
  assert (u32 (zlen (concat recs) + zlen (concat recs2)) = zlen (concat recs) + zlen (concat recs2)) as Hu by (apply u32_small; unfold word_ok; lia).
  assert (nr_types b' = zlen recs + zlen recs2) as Hnr.
  { unfold b'. cbn. rewrite (ok_nr _ _ _ Hown). apply u32_small. unfold word_ok. lia. }
  assert (type_len (hdr b') = zlen (concat recs) + zlen (concat recs2)) as Htl by (cbn; by rewrite (ok_type_len _ _ _ Hown)).
  split; [|lia]. split; try done.
  - destruct Hown as [H1 H2 H3 H4 H5 H6 H7 H8 H9 H10 H11]. split; try done.
    + change (types_data b') with (types_data b). rewrite Htd, concat_app. cbn [fst snd]. exists [], post. by rewrite <- app_assoc.
    + rewrite Hnr, length_app. lia.
    + by rewrite Htl, concat_app, length_app, Nat2Z.inj_add.
    + rewrite concat_app, length_app. lia.
    + change (start_id b') with (start_id b). rewrite Hnr. lia.
  - by apply grow_hdr_ok.
  - split; [done|]. rewrite Htl. cbn. rewrite Hoff, (ok_type_len _ _ _ Hown). exact Hu.
  - by apply modifiable_cached.
Qed.

(** The map is freed. *)
Lemma free_map src h0 h1 b h recs all chs m all' :
  built ext h1 b h recs all chs → map_in src h0 h1 (Some m) all' → ∃ h' freed, hashmap__free (Some (inr m)) h = Some (h', freed) ∧ built ext h0 b h' recs all chs.
Proof.
  intros Hb (mchs & Hr & Hf & _). destruct (clear_ok _ m h mchs (map_lift _ _ _ _ _ _ _ _ _ Hb Hr)) as (h' & E & Hf').
  destruct (map_change _ _ _ _ _ _ _ _ m mchs hashmap__init h' [] Hb Hr Hf) as (h1' & Hb' & _ & Hf1); [done|done|].
  cbn [hashmap__free]. rewrite E. cbn [mbind option_bind]. eexists h', _. split; [done|].
  assert (h1' = h0) as <-; [|done]. apply map_eq. intros a. exact (Hf1 a).
Qed.

(** After [err_out:] the object is as it was, when no string was added. *)
Lemma undo_ok h1 b h recs all chs n ws :
  built ext h1 b h recs all chs → modifiable b → area b recs ws → length ws = n →
  ∃ b', add_btf_undo b (4 * Z.of_nat n) (zlen (pack all)) = Some b' ∧ built ext h1 b' h recs all chs.
Proof.
  intros Hb Hmod [post Ha] Hn. pose proof (bt_own _ _ _ _ _ _ _ Hb) as Hown. unfold add_btf_undo. rewrite (ok_type_len _ _ _ Hown).
  replace (Z.to_nat (4 * Z.of_nat n)) with (4 * n)%nat by lia. rewrite <- enc_zeros.
  destruct (put_bytes_area ext _ _ _ _ _ _ (replicate n 0) Hb Hmod) as (b' & -> & Hb' & _).
  { unfold room. rewrite Ha. cbn [fst]. rewrite !length_app, length_replicate, enc_length. lia. }
  cbn [mbind option_bind]. pose proof (bt_own _ _ _ _ _ _ _ Hb') as Hown'. rewrite (ok_str_len _ _ _ Hown'), Z.sub_diag. cbn [Z.eqb negb].
  change (u32 0 =? 0) with true. cbn [negb]. eexists. split; [done|].
  destruct (bt_bytes _ _ _ _ _ _ _ Hb') as [_ Hmax]. rewrite u32_small by (unfold word_ok, BTF_MAX_STR_OFFSET in *; lia).
  replace (with_hdr b' _) with b'; [done|]. rewrite <- (ok_str_len _ _ _ Hown'). by destruct b' as [[] ? ? ? ? ? ? ? ? ? ? ? ? ?].
Qed.

Lemma undo_crash h1 b h recs all chs n ws all0 :
  built ext h1 b h recs all chs → modifiable b → area b recs ws → length ws = n → all0 `prefix_of` all → all0 ≠ all →
  add_btf_undo b (4 * Z.of_nat n) (zlen (pack all0)) = None.
Proof.
  intros Hb Hmod [post Ha] Hn [more ->] Hne. pose proof (bt_own _ _ _ _ _ _ _ Hb) as Hown. unfold add_btf_undo. rewrite (ok_type_len _ _ _ Hown).
  replace (Z.to_nat (4 * Z.of_nat n)) with (4 * n)%nat by lia. rewrite <- enc_zeros.
  destruct (put_bytes_area ext _ _ _ _ _ _ (replicate n 0) Hb Hmod) as (b' & -> & Hb' & _).
  { unfold room. rewrite Ha. cbn [fst]. rewrite !length_app, length_replicate, enc_length. lia. }
  cbn [mbind option_bind]. rewrite (ok_str_len _ _ _ (bt_own _ _ _ _ _ _ _ Hb')). destruct (bt_bytes _ _ _ _ _ _ _ Hb') as [_ Hmax].
  rewrite pack_app, length_app in *. assert (0 < zlen (pack more)). { destruct more as [|s more]; [by rewrite app_nil_r in Hne|]. rewrite pack_cons, length_app. cbn [length]. lia. }
  unfold BTF_MAX_STR_OFFSET in Hmax. rewrite u32_small by (unfold word_ok; lia). by rewrite (proj2 (Z.eqb_neq _ 0)) by lia.
Qed.

(** ** The function *)

(** What a call leaves: the types of the source behind those of the destination,
    an unchanged object when there is no memory, or a write through NULL, when
    there is no room for a string of the source and one was added already. *)
Inductive add_btf_result (h0 : heap) (recs all : list (list Z)) (src : btf) (srecs : list (list Z)) : option (Z * btf * heap) → Prop :=
| appended b h recs' all' chs :
    built ext h0 b h (recs ++ recs') all' chs → grows src all all' → Forall2 (copied src (shifted recs) all') srecs recs' →
    add_btf_result h0 recs all src srecs (Some (zlen recs + 1, b, h))
| unchanged b h chs :
    built ext h0 b h recs all chs → copy_refused malloc calloc realloc block src recs all (zlen srecs) (zlen (concat srecs)) →
    add_btf_result h0 recs all src srecs (Some (- ENOMEM, b, h))
| null_write all' v s :
    grows src all all' → all ≠ all' → src_str src v s → no_room malloc calloc realloc BTF_MAX_STR_OFFSET all' s → add_btf_result h0 recs all src srecs None.

(** Behind the loop. *)
Lemma add_btf_end h0 recs all src wss ocap s b0 h1 h chs0 :
  built ext h1 b0 h recs all chs0 → Forall (source_ok src) wss → zlen recs + zlen wss <= ocap →
  at_type src h0 recs all wss ocap (zlen wss) s ∨ stopped src h0 recs all wss ocap s →
  add_btf_result h0 recs all src (map enc wss)
    (let '(err, _, p) := s in
     let b := p_dst p in
     if negb (err =? 0) then
       b ← add_btf_undo b (4 * zlen (concat wss)) (zlen (pack all));
       '(h, _) ← hashmap__free (inr <$> p_str_off_map p) (p_heap p);
       Some (err, b, h)
     else
       let b := with_nr (grow_types b (4 * zlen (concat wss))) (u32 (nr_types b + zlen wss)) in
       '(h, _) ← hashmap__free (inr <$> p_str_off_map p) (p_heap p);
       Some (s32 (start_id b + nr_types b - zlen wss), b, h)).
Proof.
  intros _ Hsrc Hcap [(dn & all' & offs & p & -> & Hlen & Hpre & Hp & Hdn & Hoc & Hofs)|(offs & t & err & p & -> & Hne & -> & ws' & all' & v' & s' & Hp & Hpre & Hsv & Hno)].
  - cbn [Z.eqb negb]. assert (length dn = length wss) as Hl by lia. rewrite Hl, drop_all, app_nil_r in Hp. rewrite Hl, firstn_all in Hdn.
    rewrite Hl, (firstn_all2 (new_offsets recs wss)) in Hofs by (unfold new_offsets; rewrite offsets_length, length_map; done).
    pose proof Hp as [(h2 & chs & Hb & Hm) Hmod [post Ha] _ Hn [Ho Hc] Hmap]. destruct (p_str_off_map p) as [m|]; [|done].
    assert (zlen (concat (map enc dn)) = 4 * zlen (concat wss)) as Hsz by (rewrite enc_concat, (copied_concat _ _ _ _ _ Hdn); done).
    assert (Forall2 (λ a b : list Z, length a = length b) (map enc wss) (map enc dn)) as Hll.
    { apply Forall2_fmap_2. eapply Forall2_impl; [|exact Hdn]. intros x y (info & _ & E & _). rewrite !enc_length. lia. }
    destruct (commit_all _ _ _ recs (map enc dn) _ _ post Hb Hmod) as [Hb2 Hmax].
    + apply Forall_fmap, list.Forall_lookup_2. intros k w Hw. destruct (Forall2_lookup_r _ _ _ _ _ Hdn Hw) as (w0 & Hw0 & Hcop).
      apply enc_rec_ok. destruct (Forall_lookup_1 _ _ _ _ Hsrc Hw0) as [Hww _]. by eapply copied_rec.
    + by rewrite concat_enc.
    + destruct (ok_index _ _ _ (bt_own _ _ _ _ _ _ _ Hb)) as [I1 I2 I3]. rewrite Ho, Hc in *.
      split; [done| |rewrite length_app, length_map; lia]. rewrite length_app, length_map, Hl, Hofs, offsets_app, Z.add_0_l. f_equal.
      by apply offsets_lengths.
    + rewrite Hsz, length_map, Hl in Hb2. destruct (free_map _ _ _ _ _ _ _ _ _ _ Hb2 Hm) as (h' & freed & E & Hb3). cbn [fmap option_fmap option_map]. rewrite E.
      cbn [mbind option_bind].
      match goal with |- add_btf_result _ _ _ _ _ (Some (?i, _, _)) => assert (i = zlen recs + 1) as -> end.
      { destruct (bt_ids _ _ _ _ _ _ _ Hb3) as [-> _]. rewrite (ok_nr _ _ _ (bt_own _ _ _ _ _ _ _ Hb3)), length_app, length_map, s32_small; lia. }
      eapply appended; [exact Hb3|done|]. apply Forall2_fmap_2. eapply Forall2_impl; [|exact Hdn]. intros x y Hc'. by exists x, y.
  - cbn [Z.eqb negb]. pose proof Hp as [(h2 & chs & Hb & Hm) Hmod Ha _ Hn _ Hmap]. destruct (p_str_off_map p) as [m|]; [|done].
    destruct (decide (all = all')) as [<-|Hne2].
    + destruct (undo_ok _ _ _ _ _ _ _ _ Hb Hmod Ha Hn) as (b' & -> & Hb'). cbn [mbind option_bind].
      destruct (free_map _ _ _ _ _ _ _ _ _ _ Hb' Hm) as (h' & freed & E & Hb3). cbn [fmap option_fmap option_map]. rewrite E. cbn [mbind option_bind].
      eapply unchanged; [done|]. by eapply cr_no_room.
    + rewrite (undo_crash _ _ _ _ _ _ _ _ _ Hb Hmod Ha Hn (grows_prefix _ _ _ Hpre) Hne2). cbn [mbind option_bind]. by eapply null_write.
Qed.

Lemma btf__add_btf_ok h0 b h recs all chs src srecs sall :
  built ext h0 b h recs all chs → own_ok src srecs sall → base_btf src = None → start_id src = 1 →
  Forall (names_in src) srecs → zlen (concat srecs) < 2 ^ 30 →
  add_btf_result h0 recs all src srecs (btf__add_btf malloc calloc realloc block b h src).
Proof.
  intros Hb Hsrc Hsb Hsid Hnames Hsz. unfold btf__add_btf, has_base. rewrite Hsb.
  destruct (ensure_modifiable_ok ext malloc calloc realloc block _ _ _ _ _ _ Hb) as (err & b1 & h1 & chs1 & -> & Hb1 & Herr & _). cbn [mbind option_bind].
  destruct Herr as [[-> Hmod]|[-> Href]]; [|by eapply unchanged, cr_allocation]. cbn [Z.eqb negb].
  destruct (own_cnt _ _ _ Hsrc) as [Hcnt _]. destruct (ok_ids _ _ _ Hsrc) as [_ Hids]. rewrite (ok_nr _ _ _ Hsrc), Hsid in Hids. rewrite Hcnt, Hsid, (ok_type_len _ _ _ Hsrc).
  destruct (bt_bytes _ _ _ _ _ _ _ Hb1) as [_ Hmax]. unfold BTF_MAX_STR_OFFSET in Hmax. rewrite (ok_str_len _ _ _ (bt_own _ _ _ _ _ _ _ Hb1)).
  replace (1 + zlen srecs - 1) with (zlen srecs) by lia. rewrite !s32_small, !u64_small by lia.
  destruct (source_words src srecs (ok_recs _ _ _ Hsrc) Hnames) as (wss & -> & Hwss). rewrite enc_concat in Hsz |- *. rewrite length_map in Hids |- *.
  destruct (add_type_mem_ok ext realloc _ _ _ _ _ _ (4 * zlen (concat wss)) Hb1 Hmod ltac:(lia)) as [[-> Hlim]|(b2 & -> & Hb2 & Hmod2 & Hroom)]; cbn [mbind option_bind].
  { eapply unchanged; [done|]. rewrite enc_concat. destruct Hlim as [?|?]; [by apply cr_types|by apply cr_realloc]. }
  destruct (add_offs_ok _ _ _ _ _ _ (zlen wss) Hb2 Hmod2 ltac:(lia)) as [[-> Hlim]|(offs & cap & -> & Hb3 & Hoc & Hcap)].
  { eapply unchanged; [done|]. rewrite length_map. destruct Hlim as [?|?]; [by apply cr_count|by apply cr_realloc]. }
  unfold hashmap__new. destruct (block 56) eqn:E56; cbn [negb]; [|eapply unchanged; [done|]; apply cr_allocation; right; by exists 56].
  replace (Z.to_nat (4 * zlen (concat wss))) with (length (concat (map enc wss))) by (pose proof (enc_concat wss); lia).
  rewrite (located_list _ _ _ (ok_types _ _ _ Hsrc)). cbn [mbind option_bind]. rewrite concat_enc.
  destruct (put_bytes_area ext _ _ _ _ _ _ (concat wss) Hb3 Hmod2 Hroom) as (b4 & -> & Hb4 & Hmod4 & Ha4 & Ho4 & Hc4). cbn [mbind option_bind].
  cbn [with_offs type_offs type_offs_cap] in Ho4, Hc4.
  destruct (for_loop_inv_break (at_type src h0 recs all wss cap) (stopped src h0 recs all wss cap) (add_btf_body malloc calloc realloc block src (zlen recs)) 0 (zlen wss)
    (0, zlen (concat recs), mkPipe b4 (Some hashmap__init) h1)) as (s & -> & Hs); [lia| |..].
  - intros i s Hi Hs. by apply add_btf_step.
  - exists [], all, offs, (mkPipe b4 (Some hashmap__init) h1). cbn [concat length]. rewrite Z.add_0_r, Nat.add_0_r, drop_0. split; [done|]. split; [done|]. split; [done|].
    split.
    { split; cbn [p_dst p_heap p_str_off_map]; try done.
      - exists h0, chs1. split; [done|]. exists []. split; [done|]. split; [done|]. intros k. by left.
      - apply Forall_concat. eapply Forall_impl; [|exact Hwss]. intros w H. apply H. }
    split; [constructor|]. split; [done|]. destruct (ok_index _ _ _ (bt_own _ _ _ _ _ _ _ Hb4)) as [_ I2 _]. rewrite Ho4 in I2. by rewrite I2, app_nil_r.
  - cbn [mbind option_bind]. destruct s as [[err t] p]. by apply (add_btf_end h0 recs all src wss cap (err, t, p) b4 h0 h1 chs1).
Qed.
End append.

(** C40: all types of an object are appended to another one: the call returns the
    identifier of the first, and the destination then reads as its own types and
    strings followed by copies with the names of their originals and identifiers
    that are shifted behind the old types.  It returns [-ENOMEM] only when an
    allocation is refused, or the types, their number or a string of the source
    exceed their limit, and then the destination reads as before; only when a
    string of the source does not fit, or cannot be remembered, after another one
    was added does the function write through NULL. *)
Theorem btf__add_btf_appends malloc calloc realloc block h0 b h recs all chs src srecs sall :
  Allocator malloc calloc → built [] h0 b h recs all chs → own_ok src srecs sall → base_btf src = None → start_id src = 1 →
  Forall (names_in src) srecs → zlen (concat srecs) < 2 ^ 30 →
  match btf__add_btf malloc calloc realloc block b h src with
  | Some (id, b', h') => ∃ recs' all' chs', built [] h0 b' h' recs' all' chs' ∧ reads b' recs' all'
      ∧ (id = - ENOMEM ∧ recs' = recs ∧ all' = all
           ∧ copy_refused malloc calloc realloc block src recs all (zlen srecs) (zlen (concat srecs))
         ∨ id = zlen recs + 1 ∧ grows src all all' ∧ ∃ new, recs' = recs ++ new ∧ Forall2 (copied src (shifted recs) all') srecs new)
  | None => ∃ all' v s, grows src all all' ∧ all ≠ all' ∧ src_str src v s ∧ no_room malloc calloc realloc BTF_MAX_STR_OFFSET all' s
  end.
Proof.
  intros Ha Hb Hs Hbase Hid Hn Hsz.
  assert (∀ b' h' recs' all' chs', built [] h0 b' h' recs' all' chs' → reads b' recs' all') as Hreads.
  { intros b' h' recs' all' chs' H. apply own_reads; [exact (bt_own _ _ _ _ _ _ _ H)|exact (bt_base _ _ _ _ _ _ _ H)|exact (bt_ids _ _ _ _ _ _ _ H)]. }
  destruct (btf__add_btf_ok [] malloc calloc realloc block h0 b h recs all chs src srecs sall Hb Hs Hbase Hid Hn Hsz)
    as [b' h' new all' chs' Hb' Hpre Hcop|b' h' chs' Hb' Hcr|all' v s Hpre Hne Hsv Hno].
  - exists (recs ++ new), all', chs'. split; [done|]. split; [by eapply Hreads|]. right. split; [done|]. split; [done|]. by exists new.
  - exists recs, all, chs'. split; [done|]. split; [by eapply Hreads|]. by left.
  - by exists all', v, s.
Qed.

(** ** An example *)

Definition sample_recs : list (list Z) :=
  [[1; 0; 0; 0; 0; 0; 0; 1; 4; 0; 0; 0; 32; 0; 0; 1]; [5; 0; 0; 0; 1; 0; 0; 4; 4; 0; 0; 0; 7; 0; 0; 0; 1; 0; 0; 0; 0; 0; 0; 0];
   [0; 0; 0; 0; 0; 0; 0; 3; 0; 0; 0; 0; 2; 0; 0; 0; 1; 0; 0; 0; 3; 0; 0; 0]; [9; 0; 0; 0; 0; 0; 0; 8; 3; 0; 0; 0]].
Definition sample_all : list (list Z) := [[]; [105; 110; 116]; [115]; [97]; [116]].

Lemma sample_own : own_ok sample_btf sample_recs sample_all.
Proof.
  split.
  - repeat (apply List.Forall_cons; [split; [by apply bytes_ok_dec|eexists; split; vm_compute; reflexivity]|]). constructor.
  - by exists (take 24 sample), (drop 100 sample).
  - done.
  - split; [done|by vm_compute|by vm_compute].
  - done.
  - done.
  - repeat constructor; intros H; repeat destruct H as [H|H]; done.
  - by exists (take 100 sample), [].
  - done.
  - done.
  - done.
Qed.

(** The names of a record, checked one by one. *)
Definition check_names (src : btf) (r : list Z) : bool :=
  match t_info (TypeAt r 0) with
  | None => true
  | Some info => forallb (λ j, match t_word (TypeAt r 0) (Z.of_nat j) with
      | None => true
      | Some v => (v =? 0) || (0 <? v) && (v <? 2 ^ 31) && match btf__str_by_offset src v with
          | Some (Some p) => match c_str p with Some s => forallb (λ c, (0 <? c) && (c <? 256)) s && (zlen s + 1 <? 2 ^ 32) | None => false end
          | _ => false
          end
      end) (names_of info)
  end.

Lemma check_names_ok src r : check_names src r = true → names_in src r.
Proof.
  unfold check_names. intros H info j v Hi Hj Hv Hv0. rewrite Hi in H. rewrite forallb_forall in H. specialize (H j ltac:(by apply list_elem_of_In)).
  rewrite Hv in H. apply orb_true_iff in H as [H|H]; [lia|]. apply andb_true_iff in H as [Hr H]. split; [lia|].
  destruct (btf__str_by_offset src v) as [[p|]|] eqn:Ep; [|done..]. destruct (c_str p) as [s|] eqn:Es; [|done]. apply andb_true_iff in H as [Hs Hl].
  exists s. split; [by exists p|]. rewrite forallb_forall in Hs. split; [intros H0; specialize (Hs 0 H0); lia|]. split; [|lia].
  apply List.Forall_forall. intros c Hc. specialize (Hs c Hc). unfold byte_ok. lia.
Qed.

Definition sample_add : option (Z * btf * heap) :=
  btf__add_btf fresh_address (λ n, n <=? 2 ^ 60) (λ _, true) (λ _, true) new_btf ∅ sample_btf.

Lemma sample_add_id : (r ← sample_add; Some r.1.1) = Some 1.
Proof. vm_compute. reflexivity. Qed.

Lemma btf__add_btf_appends_witness :
  ∃ b h recs all, sample_add = Some (1, b, h) ∧ reads b recs all ∧ Forall2 (copied sample_btf (shifted []) all) sample_recs recs.
Proof.
  pose proof (btf__add_btf_appends fresh_address (λ n, n <=? 2 ^ 60) (λ _, true) (λ _, true) ∅ new_btf ∅ [] [[]] [] sample_btf sample_recs sample_all
    fresh_allocator (new_empty_ok ∅) sample_own eq_refl eq_refl) as H.
  assert (Forall (names_in sample_btf) sample_recs) as Hn by (repeat (apply List.Forall_cons; [apply check_names_ok; vm_compute; reflexivity|]); constructor).
  specialize (H Hn eq_refl). fold sample_add in H. pose proof sample_add_id as E. destruct sample_add as [[[id b] h]|]; [|discriminate E].
  injection E as ->. destruct H as (recs' & all' & chs' & _ & Hr & [[E _]|(_ & _ & new & -> & Hc)]); [discriminate E|]. exists b, h, new, all'. split; [reflexivity|]. by split.
Defined.

(** Memory for two entries: the first name is added, but cannot be remembered. *)
Definition two_entries (h : heap) : option Z := if Z.of_nat (size h) <? 2 then fresh_address h else None.

Lemma add_btf_null_write : btf__add_btf two_entries (λ n, n <=? 2 ^ 60) (λ _, true) (λ _, true) new_btf ∅ sample_btf = None.
Proof. vm_compute. reflexivity. Qed.
