(* ===== verification/Relo.v ===== *)
(** * CO-RE relocations ([lib/libbpf/src/relo_core.c])

    A relocation says which field, type or enumerator of a local type an
    instruction depends on; the library finds the types of the running kernel
    that may stand for the local one, follows the access in them, and computes
    what the instruction has to hold.  This file has the names, the relations
    between types and the access paths; [ReloInsn] has the values and the
    instructions.

    Sizes are computed with [btf__resolve_size], whose only effect, the cached
    size of pointers, does not change later results and is left out. *)

From stdpp Require Import gmap.
From S2P Require Import Prelude CString Hashmap Strset Bytes Btf.

Definition EUCLEAN : Z := 117.
Definition EOPNOTSUPP : Z := 95.
Definition ERANGE : Z := 34.

(** ** Kinds of relocations *)

Inductive bpf_core_relo_kind : Type :=
| FIELD_BYTE_OFFSET | FIELD_BYTE_SIZE | FIELD_EXISTS | FIELD_SIGNED | FIELD_LSHIFT_U64 | FIELD_RSHIFT_U64
| TYPE_ID_LOCAL | TYPE_ID_TARGET | TYPE_EXISTS | TYPE_SIZE | ENUMVAL_EXISTS | ENUMVAL_VALUE | TYPE_MATCHES
| OTHER_RELO (n : Z).

Record bpf_core_relo : Type := mkRelo { insn_off : Z; type_id : Z; access_str_off : Z; relo_kind : bpf_core_relo_kind }.

Definition core_relo_is_field_based (k : bpf_core_relo_kind) : bool :=
  match k with
  | FIELD_BYTE_OFFSET | FIELD_BYTE_SIZE | FIELD_EXISTS | FIELD_SIGNED | FIELD_LSHIFT_U64 | FIELD_RSHIFT_U64 => true
  | _ => false
  end.

Definition core_relo_is_type_based (k : bpf_core_relo_kind) : bool :=
  match k with TYPE_ID_LOCAL | TYPE_ID_TARGET | TYPE_EXISTS | TYPE_MATCHES | TYPE_SIZE => true | _ => false end.

Definition core_relo_is_enumval_based (k : bpf_core_relo_kind) : bool :=
  match k with ENUMVAL_EXISTS | ENUMVAL_VALUE => true | _ => false end.

(** ** Types *)

Definition btf_is_ptr := is_kind PTR.
Definition btf_is_array := is_kind ARRAY.
Definition btf_is_any_enum (t : type_ptr) : option bool := e ← btf_is_enum t; e64 ← btf_is_enum64 t; Some (e || e64).

Definition any_enum (k : kind) : bool := bool_decide (k = ENUM) || bool_decide (k = ENUM64).

Definition btf_kind_core_compat (t1 t2 : type_ptr) : option bool :=
  k1 ← btf_kind t1; k2 ← btf_kind t2; Some (bool_decide (k1 = k2) || any_enum k1 && any_enum k2).

Definition BTF_INT_SIGNED : Z := 1.
Definition BTF_INT_ENCODING (val : Z) : Z := Z.shiftr (Z.land val 0x0f000000) 24.
Definition BTF_INT_OFFSET (val : Z) : Z := Z.shiftr (Z.land val 0x00ff0000) 16.
Definition btf_int_encoding (t : type_ptr) : option Z := w ← t_word t 3; Some (BTF_INT_ENCODING w).
Definition btf_int_offset (t : type_ptr) : option Z := w ← t_word t 3; Some (BTF_INT_OFFSET w).

(** The words of an array, of enumerators and of parameters. *)
Definition array_type (t : type_ptr) : option Z := t_word t 3.
Definition array_nelems (t : type_ptr) : option Z := t_word t 5.
Definition enum_name_off (t : type_ptr) (i : Z) : option Z :=
  e ← btf_is_enum t; if e : bool then t_word t (3 + 2 * i) else t_word t (3 + 3 * i).
Definition enum_val (t : type_ptr) (i : Z) : option Z := w ← t_word t (3 + 2 * i + 1); Some (s32 w).
Definition btf_enum64_value (t : type_ptr) (i : Z) : option Z :=
  lo ← t_word t (3 + 3 * i + 1); hi ← t_word t (3 + 3 * i + 2); Some (Z.lor (Z.shiftl hi 32) lo).
Definition param_type (t : type_ptr) (i : Z) : option Z := t_word t (3 + 2 * i + 1).

(** One turn of the loop behind modifiers and typedefs; a type that does not
    exist is NULL, which the loop reads. *)
Definition skip_body (b : btf) (s : option type_ptr * Z) : option (ctl (option type_ptr * Z)) :=
  let '(t, id) := s in
  t ← t;
  is_mod ← btf_is_mod t; is_typedef ← btf_is_typedef t;
  if negb (is_mod || is_typedef) then Some (Break (Some t, id)) else
  id ← t_type t;
  t' ← btf__type_by_id b id;
  Some (Next (t', id)).

(** The type and its identifier.  A walk that visits more types than there are
    is in a cycle, where the loop does not end. *)
Definition skip_mods_and_typedefs (b : btf) (id : Z) : option (type_ptr * Z) :=
  t ← btf__type_by_id b id;
  '(t, id) ← while_loop (Z.to_nat (btf__type_cnt b)) (skip_body b) (t, id);
  t ← t; Some (t, id).

Definition resolve_size (b : btf) (id : Z) : option Z := '(sz, _) ← btf__resolve_size b id; Some sz.

(** ** Names *)

(** A name that is NULL or a string. *)
Definition name_at (b : btf) (off : Z) : option (option (list Z)) :=
  p ← btf__name_by_offset b off;
  match p with None => Some None | Some p => s ← c_str p; Some (Some s) end.

Definition str_is_empty (s : option (list Z)) : bool := match s with None | Some [] => true | _ => false end.

Definition underscore : Z := 95.

Definition bpf_core_is_flavor_sep (s : list Z) (i : Z) : option bool :=
  c0 ← aget s i; c1 ← aget s (i + 1); c2 ← aget s (i + 2); c3 ← aget s (i + 3); c4 ← aget s (i + 4);
  Some (negb (c0 =? underscore) && (c1 =? underscore) && (c2 =? underscore) && (c3 =? underscore) && negb (c4 =? underscore)).

(** The loop from the position below [n] downwards. *)
Fixpoint flavor_loop (s : list Z) (n : nat) : option (option Z) :=
  match n with
  | O => Some None
  | S i => sep ← bpf_core_is_flavor_sep s (Z.of_nat i); if sep : bool then Some (Some (Z.of_nat i + 1)) else flavor_loop s i
  end.

Definition bpf_core_essential_name_len (s : list Z) : option Z :=
  r ← flavor_loop s (length s - 4); Some (default (zlen s) r).

(** [strncmp(a, b, n) == 0]. *)
Definition strn_eq (a b : list Z) (n : Z) : bool := bool_decide (take (Z.to_nat n) a = take (Z.to_nat n) b).

(** The same up to the flavor; both names are read. *)
Definition essential_eq (a b : list Z) : option bool :=
  la ← bpf_core_essential_name_len a; lb ← bpf_core_essential_name_len b; Some ((la =? lb) && strn_eq a b la).

(** ** Types that are compatible *)

Section two.
Variables local_btf targ_btf : btf.

(** The loop over the parameters of two prototypes. *)
Definition params_body (rec : Z → Z → option Z) (level : nat) (local_t targ_t : type_ptr) (i : Z) (ret : option Z) : option (ctl (option Z)) :=
  match level with
  | O => Some (Break (Some (- EINVAL)))
  | S _ =>
      lp ← param_type local_t i; tp ← param_type targ_t i;
      '(_, local_id) ← skip_mods_and_typedefs local_btf lp;
      '(_, targ_id) ← skip_mods_and_typedefs targ_btf tp;
      err ← rec local_id targ_id;
      Some (if err <=? 0 then Break (Some err) else Next ret)
  end.

(** From [recur] on, with [depth] turns left; [rec] checks parameters. *)
Fixpoint compat_loop (rec : Z → Z → option Z) (level depth : nat) (local_id targ_id : Z) : option Z :=
  match depth with
  | O => Some (- EINVAL)
  | S depth =>
      '(local_t, local_id) ← skip_mods_and_typedefs local_btf local_id;
      '(targ_t, targ_id) ← skip_mods_and_typedefs targ_btf targ_id;
      compat ← btf_kind_core_compat local_t targ_t;
      if negb compat then Some 0 else
      kind ← btf_kind local_t;
      match kind with
      | UNKN | STRUCT | UNION | ENUM | FWD | ENUM64 => Some 1
      | INT =>
          lo ← btf_int_offset local_t; to ← btf_int_offset targ_t;
          Some (if (lo =? 0) && (to =? 0) then 1 else 0)
      | PTR => lid ← t_type local_t; tid ← t_type targ_t; compat_loop rec level depth lid tid
      | ARRAY => lid ← array_type local_t; tid ← array_type targ_t; compat_loop rec level depth lid tid
      | FUNC_PROTO =>
          local_vlen ← btf_vlen local_t; targ_vlen ← btf_vlen targ_t;
          if negb (local_vlen =? targ_vlen) then Some 0 else
          ret ← for_loop 0 local_vlen (params_body rec level local_t targ_t) None;
          match ret with
          | Some err => Some err
          | None =>
              lid ← t_type local_t; tid ← t_type targ_t;
              '(_, lid) ← skip_mods_and_typedefs local_btf lid;
              '(_, tid) ← skip_mods_and_typedefs targ_btf tid;
              compat_loop rec level depth lid tid
          end
      | _ => Some 0
      end
  end.

Fixpoint __bpf_core_types_are_compat (level : nat) (local_id targ_id : Z) : option Z :=
  local_t ← btf_type_by_id local_btf local_id;
  targ_t ← btf_type_by_id targ_btf targ_id;
  compat ← btf_kind_core_compat local_t targ_t;
  if negb compat then Some 0 else
  let rec := match level with O => λ _ _, None | S level => __bpf_core_types_are_compat level end in
  compat_loop rec level 32 local_id targ_id.

Definition bpf_core_types_are_compat (local_id targ_id : Z) : option Z := __bpf_core_types_are_compat 32 local_id targ_id.

(** ** Fields that are compatible *)

Definition enum_names_compat (local_t targ_t : type_ptr) : option Z :=
  lo ← t_name_off local_t; to ← t_name_off targ_t;
  local_name ← name_at local_btf lo; targ_name ← name_at targ_btf to;
  local_name ← local_name; targ_name ← targ_name;
  local_len ← bpf_core_essential_name_len local_name; targ_len ← bpf_core_essential_name_len targ_name;
  Some (if (local_len =? 0) || (targ_len =? 0) || (local_len =? targ_len) && strn_eq local_name targ_name local_len then 1 else 0).

Definition fields_body (s : Z * Z * option Z) : option (ctl (Z * Z * option Z)) :=
  let '(local_id, targ_id, _) := s in
  '(local_t, local_id) ← skip_mods_and_typedefs local_btf local_id;
  '(targ_t, targ_id) ← skip_mods_and_typedefs targ_btf targ_id;
  let ret r := Some (Break (local_id, targ_id, Some r)) in
  lc ← btf_is_composite local_t; tc ← btf_is_composite targ_t;
  if lc && tc then ret 1 else
  compat ← btf_kind_core_compat local_t targ_t;
  if negb compat then ret 0 else
  kind ← btf_kind local_t;
  match kind with
  | PTR | FLOAT => ret 1
  | FWD | ENUM64 | ENUM => r ← enum_names_compat local_t targ_t; ret r
  | INT => lo ← btf_int_offset local_t; to ← btf_int_offset targ_t; ret (if (lo =? 0) && (to =? 0) then 1 else 0)
  | ARRAY => lid ← array_type local_t; tid ← array_type targ_t; Some (Next (lid, tid, None))
  | _ => ret 0
  end.

(** A walk through more arrays than there are types is in a cycle. *)
Definition bpf_core_fields_are_compat (local_id targ_id : Z) : option Z :=
  '(_, _, ret) ← while_loop (Z.to_nat (btf__type_cnt local_btf)) fields_body (local_id, targ_id, None);
  ret.

(** ** Types that match *)

Definition bpf_core_names_match (local_name_off targ_name_off : Z) : option bool :=
  local_n ← name_at local_btf local_name_off; targ_n ← name_at targ_btf targ_name_off;
  if str_is_empty targ_n then Some (str_is_empty local_n) else
  local_n ← local_n; targ_n ← targ_n; essential_eq local_n targ_n.

(** The inner loop over the enumerators of the target. *)
Definition enums_inner (targ_t : type_ptr) (local_n_off j : Z) (matched : bool) : option (ctl bool) :=
  targ_n_off ← enum_name_off targ_t j;
  eq ← bpf_core_names_match local_n_off targ_n_off;
  Some (if eq : bool then Break true else Next matched).

Definition enums_outer (local_t targ_t : type_ptr) (targ_vlen i : Z) (ret : option Z) : option (ctl (option Z)) :=
  local_n_off ← enum_name_off local_t i;
  matched ← for_loop 0 targ_vlen (enums_inner targ_t local_n_off) false;
  Some (if matched : bool then Next ret else Break (Some 0)).

Definition bpf_core_enums_match (local_t targ_t : type_ptr) : option Z :=
  local_vlen ← btf_vlen local_t; targ_vlen ← btf_vlen targ_t;
  local_size ← t_size local_t; targ_size ← t_size targ_t;
  if negb (local_size =? targ_size) then Some 0 else
  if targ_vlen <? local_vlen then Some 0 else
  ret ← for_loop 0 local_vlen (enums_outer local_t targ_t targ_vlen) None;
  Some (default 1 ret).

(** The inner loop over the members of the target: whether one matched, and the
    error that is returned from inside. *)
Definition composites_inner (rec : Z → Z → option Z) (targ_t : type_ptr) (local_name local_type j : Z) (s : bool * option Z)
    : option (ctl (bool * option Z)) :=
  targ_name ← m_word targ_t j 0;
  eq ← bpf_core_names_match local_name targ_name;
  if negb eq then Some (Next s) else
  targ_type ← m_word targ_t j 1;
  err ← rec local_type targ_type;
  Some (if err <? 0 then Break (false, Some err) else if 0 <? err then Break (true, None) else Next s).

Definition composites_outer (rec : Z → Z → option Z) (local_t targ_t : type_ptr) (targ_vlen i : Z) (ret : option Z) : option (ctl (option Z)) :=
  local_name ← m_word local_t i 0; local_type ← m_word local_t i 1;
  '(matched, err) ← for_loop 0 targ_vlen (composites_inner rec targ_t local_name local_type) (false, None);
  Some match err with
  | Some err => Break (Some err)
  | None => if matched : bool then Next ret else Break (Some 0)
  end.

Definition bpf_core_composites_match (rec : Z → Z → option Z) (local_t targ_t : type_ptr) : option Z :=
  local_vlen ← btf_vlen local_t; targ_vlen ← btf_vlen targ_t;
  if targ_vlen <? local_vlen then Some 0 else
  ret ← for_loop 0 local_vlen (composites_outer rec local_t targ_t targ_vlen) None;
  Some (default 1 ret).

Definition match_params_body (rec : Z → Z → option Z) (local_t targ_t : type_ptr) (i : Z) (ret : option Z) : option (ctl (option Z)) :=
  lp ← param_type local_t i; tp ← param_type targ_t i;
  err ← rec lp tp;
  Some (if err <=? 0 then Break (Some err) else Next ret).

Definition b2z (b : bool) : Z := if b then 1 else 0.

(** From [recur] on, with [depth] turns left; [rec] checks members and
    parameters, given whether they are behind a pointer. *)
Fixpoint match_loop (rec : bool → Z → Z → option Z) (depth : nat) (behind_ptr : bool) (local_id targ_id : Z) : option Z :=
  match depth with
  | O => Some (- EINVAL)
  | S depth =>
      '(local_t, local_id) ← skip_mods_and_typedefs local_btf local_id;
      '(targ_t, targ_id) ← skip_mods_and_typedefs targ_btf targ_id;
      ln ← t_name_off local_t; tn ← t_name_off targ_t;
      eq ← bpf_core_names_match ln tn;
      if negb eq then Some 0 else
      local_k ← btf_kind local_t; targ_k ← btf_kind targ_t;
      local_f ← btf_kflag local_t; targ_f ← btf_kflag targ_t;
      let same_k := bool_decide (local_k = targ_k) in
      match local_k with
      | UNKN => Some (b2z same_k)
      | FWD =>
          Some (b2z (if same_k then Bool.eqb local_f targ_f else
                     behind_ptr && (bool_decide (targ_k = STRUCT) && negb local_f || bool_decide (targ_k = UNION) && local_f)))
      | ENUM | ENUM64 => if any_enum targ_k then bpf_core_enums_match local_t targ_t else Some 0
      | STRUCT | UNION =>
          if behind_ptr then
            Some (b2z (same_k || bool_decide (targ_k = FWD) && Bool.eqb (bool_decide (local_k = UNION)) targ_f))
          else if negb same_k then Some 0 else bpf_core_composites_match (rec behind_ptr) local_t targ_t
      | INT =>
          if negb same_k then Some 0 else
          le ← btf_int_encoding local_t; te ← btf_int_encoding targ_t;
          ls ← t_size local_t; ts ← t_size targ_t;
          Some (b2z ((ls =? ts) && (Z.land le BTF_INT_SIGNED =? Z.land te BTF_INT_SIGNED)))
      | PTR =>
          if negb same_k then Some 0 else
          lid ← t_type local_t; tid ← t_type targ_t; match_loop rec depth true lid tid
      | ARRAY =>
          if negb same_k then Some 0 else
          ln ← array_nelems local_t; tn ← array_nelems targ_t;
          if negb (ln =? tn) then Some 0 else
          lid ← array_type local_t; tid ← array_type targ_t; match_loop rec depth behind_ptr lid tid
      | FUNC_PROTO =>
          if negb same_k then Some 0 else
          local_vlen ← btf_vlen local_t; targ_vlen ← btf_vlen targ_t;
          if negb (local_vlen =? targ_vlen) then Some 0 else
          ret ← for_loop 0 local_vlen (match_params_body (rec behind_ptr) local_t targ_t) None;
          match ret with
          | Some err => Some err
          | None => lid ← t_type local_t; tid ← t_type targ_t; match_loop rec depth behind_ptr lid tid
          end
      | _ => Some 0
      end
  end.

Fixpoint __bpf_core_types_match (level : nat) (behind_ptr : bool) (local_id targ_id : Z) : option Z :=
  match level with
  | O => Some (- EINVAL)
  | S level => match_loop (λ behind_ptr, __bpf_core_types_match level behind_ptr) 32 behind_ptr local_id targ_id
  end.

Definition bpf_core_types_match (local_id targ_id : Z) : option Z := __bpf_core_types_match 32 false local_id targ_id.
End two.

(** ** Access paths *)

Definition BPF_CORE_SPEC_MAX_LEN : Z := 64.

Record bpf_core_accessor : Type := mkAcc { acc_type_id : Z; acc_idx : Z; acc_name : option (list Z) }.

(** The arrays [spec] and [raw_spec] as the lists of the entries that are used. *)
Record bpf_core_spec : Type := mkSpec {
  sp_btf : btf; spec : list bpf_core_accessor; root_type_id : Z; sp_kind : bpf_core_relo_kind; raw_spec : list Z; bit_offset : Z;
}.

Definition empty_spec (b : btf) (root : Z) (k : bpf_core_relo_kind) : bpf_core_spec := mkSpec b [] root k [] 0.

(** Entries written behind the last one; the arrays end after 64. *)
Definition push_acc (s : bpf_core_spec) (a : bpf_core_accessor) : option bpf_core_spec :=
  if zlen (spec s) <? BPF_CORE_SPEC_MAX_LEN
  then Some (mkSpec (sp_btf s) (spec s ++ [a]) (root_type_id s) (sp_kind s) (raw_spec s) (bit_offset s)) else None.
Definition push_raw (s : bpf_core_spec) (i : Z) : option bpf_core_spec :=
  if zlen (raw_spec s) <? BPF_CORE_SPEC_MAX_LEN
  then Some (mkSpec (sp_btf s) (spec s) (root_type_id s) (sp_kind s) (raw_spec s ++ [i]) (bit_offset s)) else None.
Definition add_offset (s : bpf_core_spec) (d : Z) : bpf_core_spec :=
  mkSpec (sp_btf s) (spec s) (root_type_id s) (sp_kind s) (raw_spec s) (u32 (bit_offset s + d)).
Definition pop_acc (s : bpf_core_spec) : bpf_core_spec :=
  mkSpec (sp_btf s) (removelast (spec s)) (root_type_id s) (sp_kind s) (raw_spec s) (bit_offset s).
Definition pop_raw (s : bpf_core_spec) : bpf_core_spec :=
  mkSpec (sp_btf s) (spec s) (root_type_id s) (sp_kind s) (removelast (raw_spec s)) (bit_offset s).

(** Against the accessor before; [nelems] is that of the array. *)
Definition is_flex_arr (b : btf) (acc : bpf_core_accessor) (nelems : Z) : option bool :=
  match acc_name acc with
  | None => Some false
  | Some _ =>
      if 0 <? nelems then Some false else
      t ← btf_type_by_id b (acc_type_id acc);
      vlen ← btf_vlen t; Some (acc_idx acc =? u32 (vlen - 1))
  end.

(** *** Parsing an access string *)

(** [sscanf(s, "%d%n")]: the number and what is left, or nothing when there is
    no number.  The digits are converted by [strtol]. *)
Definition clamp64 (v : Z) : Z := Z.max (- 2 ^ 63) (Z.min (2 ^ 63 - 1) v).

Fixpoint skip_spaces (s : list Z) : list Z :=
  match s with c :: s' => if is_space c then skip_spaces s' else s | [] => [] end.

Fixpoint take_digits (s : list Z) : list Z * list Z :=
  match s with
  | c :: s' => if is_digit c then let '(d, r) := take_digits s' in (c :: d, r) else ([], s)
  | [] => ([], [])
  end.

Definition scan_int (s : list Z) : option (Z * list Z) :=
  let s := skip_spaces s in
  let '(neg, s) := match s with c :: s' => if c =? 45 then (true, s') else if c =? 43 then (false, s') else (false, s) | [] => (false, []) end in
  let '(d, rest) := take_digits s in
  if bool_decide (d = []) then None else
  let v := digits 0 d in Some (s32 (clamp64 (if neg then - v else v)), rest).

(** The loop on the string and the numbers before, with the error. *)
Definition parse_body (s : list Z * list Z * Z) : option (ctl (list Z * list Z * Z)) :=
  let '(str, raw, _) := s in
  if bool_decide (str = []) then Some (Break (str, raw, 0)) else
  let str' := match str with c :: rest => if c =? 58 then rest else str | [] => [] end in
  match scan_int str' with
  | None => Some (Break (str, raw, - EINVAL))
  | Some (v, rest) => if zlen raw =? BPF_CORE_SPEC_MAX_LEN then Some (Break (str, raw, - E2BIG)) else Some (Next (rest, raw ++ [v], 0))
  end.

Definition parse_numbers (str : list Z) : option (Z + list Z) :=
  '(_, raw, err) ← while_loop (S (length str)) parse_body (str, [], 0);
  Some (if negb (err =? 0) then inl err else if bool_decide (raw = []) then inl (- EINVAL) else inr raw).

(** One turn of the loop over the numbers behind the first, on the path, the
    type reached and the error. *)
Definition walk_body (b : btf) (raw : list Z) (i : Z) (s : bpf_core_spec * Z * option Z) : option (ctl (bpf_core_spec * Z * option Z)) :=
  let '(sp, id, _) := s in
  '(t, id) ← skip_mods_and_typedefs b id;
  access_idx ← aget raw i;
  let fail err := Some (Break (sp, id, Some err)) in
  composite ← btf_is_composite t;
  if composite : bool then
    vlen ← btf_vlen t;
    if vlen <=? access_idx then fail (- EINVAL) else
    off ← btf_member_bit_offset t (u32 access_idx);
    let sp := add_offset sp off in
    name_off ← m_word t access_idx 0;
    m_type ← m_word t access_idx 1;
    if name_off =? 0 then Some (Next (sp, m_type, None)) else
    name ← name_at b name_off;
    if str_is_empty name then Some (Break (sp, id, Some (- EINVAL))) else
    sp ← push_acc sp (mkAcc id (u32 access_idx) name);
    Some (Next (sp, m_type, None))
  else
    array ← btf_is_array t;
    if negb array then fail (- EINVAL) else
    elem ← array_type t; nelems ← array_nelems t;
    '(_, id) ← skip_mods_and_typedefs b elem;
    last ← list.last (spec sp);
    flex ← is_flex_arr b last nelems;
    if negb flex && (nelems <=? u32 access_idx) then Some (Break (sp, id, Some (- EINVAL))) else
    sp ← push_acc sp (mkAcc id (u32 access_idx) None);
    sz ← resolve_size b id;
    if sz <? 0 then Some (Break (sp, id, Some sz)) else
    Some (Next (add_offset sp (access_idx * sz * 8), id, None)).

Definition with_raw_spec (s : bpf_core_spec) (raw : list Z) : bpf_core_spec :=
  mkSpec (sp_btf s) (spec s) (root_type_id s) (sp_kind s) raw (bit_offset s).

(** The path, or the error. *)
Definition bpf_core_parse_spec (b : btf) (relo : bpf_core_relo) : option (Z + bpf_core_spec) :=
  str ← name_at b (access_str_off relo);
  match str with
  | None | Some [] => Some (inl (- EINVAL))
  | Some str =>
      if bool_decide (head str = Some 58) then Some (inl (- EINVAL)) else
      let sp := empty_spec b (type_id relo) (relo_kind relo) in
      if core_relo_is_type_based (relo_kind relo) then Some (if bool_decide (str = [48]) then inr sp else inl (- EINVAL)) else
      r ← parse_numbers str;
      match r with
      | inl err => Some (inl err)
      | inr raw =>
          let sp := with_raw_spec sp raw in
          '(t, id) ← skip_mods_and_typedefs b (type_id relo);
          access_idx ← aget raw 0;
          if core_relo_is_enumval_based (relo_kind relo) then
            is_enum ← btf_is_any_enum t; vlen ← btf_vlen t;
            if negb is_enum || (1 <? zlen raw) || (vlen <=? access_idx) then Some (inl (- EINVAL)) else
            name_off ← enum_name_off t access_idx;
            name ← name_at b name_off;
            sp ← push_acc sp (mkAcc id (u32 access_idx) name);
            Some (inr sp)
          else
          sp ← push_acc sp (mkAcc id (u32 access_idx) None);
          if negb (core_relo_is_field_based (relo_kind relo)) then Some (inl (- EINVAL)) else
          sz ← resolve_size b id;
          if sz <? 0 then Some (inl sz) else
          let sp := add_offset sp (access_idx * sz * 8) in
          '(sp, _, err) ← for_loop 1 (zlen raw) (walk_body b raw) (sp, id, None);
          Some match err with Some err => inl err | None => inr sp end
      end
  end.

(** *** Following a path in a target *)

(** The loop over the members of the target, on the path, the type of the member
    that was found and the value returned from inside; [rec] searches the type
    of a member without a name. *)
Definition member_body (local_btf targ_btf : btf) (local_name : option (list Z)) (local_mtype : Z) (targ_t : type_ptr) (targ_id : Z)
    (rec : Z → bpf_core_spec → Z → option (Z * bpf_core_spec * Z))
    (i : Z) (s : bpf_core_spec * Z * option Z) : option (ctl (bpf_core_spec * Z * option Z)) :=
  let '(sp, next, _) := s in
  off ← btf_member_bit_offset targ_t i;
  if zlen (raw_spec sp) =? BPF_CORE_SPEC_MAX_LEN then Some (Break (sp, next, Some (- E2BIG))) else
  sp ← push_raw (add_offset sp off) i;
  let undo sp := pop_raw (add_offset sp (- off)) in
  name_off ← m_word targ_t i 0;
  m_type ← m_word targ_t i 1;
  targ_name ← name_at targ_btf name_off;
  if str_is_empty targ_name then
    '(found, sp, next) ← rec m_type sp next;
    if negb (found =? 0) then Some (Break (sp, next, Some found)) else Some (Next (undo sp, next, None))
  else
    local_n ← local_name;
    if bool_decide (Some local_n = targ_name) then
      sp ← push_acc sp (mkAcc targ_id i targ_name);
      found ← bpf_core_fields_are_compat local_btf targ_btf local_mtype m_type;
      Some (Break (if found =? 0 then pop_acc sp else sp, m_type, Some found))
    else Some (Next (undo sp, next, None)).

(** [fuel] is the depth of members without names; the path has at most 64
    entries, so that 65 is enough. *)
Fixpoint bpf_core_match_member (fuel : nat) (local_btf : btf) (local_acc : bpf_core_accessor) (targ_btf : btf) (targ_id : Z)
    (sp : bpf_core_spec) (next : Z) : option (Z * bpf_core_spec * Z) :=
  match fuel with
  | O => None
  | S fuel =>
      '(targ_t, targ_id) ← skip_mods_and_typedefs targ_btf targ_id;
      composite ← btf_is_composite targ_t;
      if negb composite then Some (0, sp, next) else
      local_t ← btf_type_by_id local_btf (acc_type_id local_acc);
      local_name_off ← m_word local_t (acc_idx local_acc) 0;
      local_mtype ← m_word local_t (acc_idx local_acc) 1;
      local_name ← name_at local_btf local_name_off;
      vlen ← btf_vlen targ_t;
      '(sp, next, ret) ← for_loop 0 vlen
        (member_body local_btf targ_btf local_name local_mtype targ_t targ_id (bpf_core_match_member fuel local_btf local_acc targ_btf))
        (sp, next, None);
      Some (default 0 ret, sp, next)
  end.

(** The search for an enumerator, on the path and whether it was found. *)
Definition enumval_body (local_name : list Z) (targ_btf : btf) (targ_t : type_ptr) (targ_id : Z) (i : Z) (s : bpf_core_spec * Z)
    : option (ctl (bpf_core_spec * Z)) :=
  let '(sp, _) := s in
  name_off ← enum_name_off targ_t i;
  targ_name ← name_at targ_btf name_off;
  name ← targ_name;
  eq ← essential_eq local_name name;
  if negb eq then Some (Next s) else
  sp ← push_acc sp (mkAcc targ_id i targ_name);
  sp ← push_raw sp i;
  Some (Break (sp, 1)).

(** One turn of the loop over the accessors of the local path. *)
Definition spec_body (local_btf targ_btf : btf) (local : list bpf_core_accessor) (i : Z) (s : bpf_core_spec * Z * option Z)
    : option (ctl (bpf_core_spec * Z * option Z)) :=
  let '(sp, targ_id, _) := s in
  local_acc ← aget local i;
  '(targ_t, targ_id) ← skip_mods_and_typedefs targ_btf targ_id;
  match acc_name local_acc with
  | Some _ =>
      '(matched, sp, targ_id) ← bpf_core_match_member 65 local_btf local_acc targ_btf targ_id sp targ_id;
      if matched <=? 0 then Some (Break (sp, targ_id, Some matched)) else Some (Next (sp, targ_id, None))
  | None =>
      r ← (if i =? 0 then Some (inr targ_id) else
           array ← btf_is_array targ_t;
           if negb array then Some (inl 0) else
           elem ← array_type targ_t; nelems ← array_nelems targ_t;
           last ← aget (spec sp) (i - 1);
           flex ← is_flex_arr targ_btf last nelems;
           if negb flex && (nelems <=? acc_idx local_acc) then Some (inl 0) else
           '(_, id) ← skip_mods_and_typedefs targ_btf elem; Some (inr id));
      match r with
      | inl ret => Some (Break (sp, targ_id, Some ret))
      | inr targ_id =>
          if zlen (raw_spec sp) =? BPF_CORE_SPEC_MAX_LEN then Some (Break (sp, targ_id, Some (- E2BIG))) else
          sp ← push_acc sp (mkAcc targ_id (acc_idx local_acc) None);
          sp ← push_raw sp (s32 (acc_idx local_acc));
          sz ← resolve_size targ_btf targ_id;
          let sz := s32 sz in
          if sz <? 0 then Some (Break (sp, targ_id, Some sz)) else
          Some (Next (add_offset sp (acc_idx local_acc * sz * 8), targ_id, None))
      end
  end.

Definition bpf_core_spec_match (local : bpf_core_spec) (targ_btf : btf) (targ_id : Z) : option (Z * bpf_core_spec) :=
  let sp := empty_spec targ_btf targ_id (sp_kind local) in
  if core_relo_is_type_based (sp_kind local) then
    r ← match sp_kind local with
        | TYPE_MATCHES => bpf_core_types_match (sp_btf local) targ_btf (root_type_id local) targ_id
        | _ => bpf_core_types_are_compat (sp_btf local) targ_btf (root_type_id local) targ_id
        end;
    Some (r, sp)
  else if core_relo_is_enumval_based (sp_kind local) then
    '(targ_t, targ_id) ← skip_mods_and_typedefs targ_btf targ_id;
    is_enum ← btf_is_any_enum targ_t;
    if negb is_enum then Some (0, sp) else
    local_acc ← aget (spec local) 0;
    local_name ← acc_name local_acc;
    vlen ← btf_vlen targ_t;
    '(sp, found) ← for_loop 0 vlen (enumval_body local_name targ_btf targ_t targ_id) (sp, 0);
    Some (found, sp)
  else if negb (core_relo_is_field_based (sp_kind local)) then Some (- EINVAL, sp) else
  '(sp, _, ret) ← for_loop 0 (zlen (spec local)) (spec_body (sp_btf local) targ_btf (spec local)) (sp, targ_id, None);
  Some (default 1 ret, sp).

(** ** Candidates ([lib/libbpf/src/libbpf.c]) *)

(** A type of some object. *)
Definition bpf_core_cand : Type := btf * Z.

Section cands.
Variable realloc : Z → bool.

(** The loop over the types of an object, on the candidates and the error;
    [realloc n] is whether there is room for [n] of them. *)
Definition cands_body (local_t : type_ptr) (local_name : option (list Z)) (local_essent_len : Z) (targ_btf : btf)
    (i : Z) (s : list bpf_core_cand * Z) : option (ctl (list bpf_core_cand * Z)) :=
  let '(cands, _) := s in
  t ← btf__type_by_id targ_btf i;
  t ← t;
  compat ← btf_kind_core_compat t local_t;
  if negb compat then Some (Next s) else
  name_off ← t_name_off t;
  targ_name ← name_at targ_btf name_off;
  if str_is_empty targ_name then Some (Next s) else
  targ_n ← targ_name;
  targ_essent_len ← bpf_core_essential_name_len targ_n;
  if negb (targ_essent_len =? local_essent_len) then Some (Next s) else
  local_n ← local_name;
  if negb (strn_eq local_n targ_n local_essent_len) then Some (Next s) else
  if negb (realloc (zlen cands + 1)) then Some (Break (cands, - ENOMEM)) else
  Some (Next (cands ++ [(targ_btf, i)], 0)).

Definition bpf_core_add_cands (local_cand : bpf_core_cand) (local_essent_len : Z) (targ_btf : btf) (targ_start_id : Z)
    (cands : list bpf_core_cand) : option (list bpf_core_cand * Z) :=
  local_t ← btf__type_by_id local_cand.1 local_cand.2;
  local_t ← local_t;
  name_off ← t_name_off local_t;
  local_name ← name_at local_cand.1 name_off;
  for_loop targ_start_id (btf__type_cnt targ_btf) (cands_body local_t local_name local_essent_len targ_btf) (cands, 0).

(** The objects of the kernel: of its image, perhaps overridden, and, when they
    can be loaded, of its modules. *)
Record kernel_btfs : Type := mkKernel { btf_vmlinux : btf; btf_vmlinux_override : option btf; load_module_btfs : Z; btf_modules : list btf }.

Definition modules_body (local_cand : bpf_core_cand) (len : Z) (k : kernel_btfs) (i : Z) (s : list bpf_core_cand * Z)
    : option (ctl (list bpf_core_cand * Z)) :=
  m ← aget (btf_modules k) i;
  '(cands, err) ← bpf_core_add_cands local_cand len m (btf__type_cnt (btf_vmlinux k)) s.1;
  Some (if negb (err =? 0) then Break (cands, err) else Next (cands, 0)).

(** [list_ok] says whether the list is allocated; the candidates, or an error. *)
Definition bpf_core_find_cands (list_ok : bool) (k : kernel_btfs) (local_btf : btf) (local_type_id : Z) : option (Z + list bpf_core_cand) :=
  local_t ← btf__type_by_id local_btf local_type_id;
  match local_t with
  | None => Some (inl (- EINVAL))
  | Some local_t =>
      name_off ← t_name_off local_t;
      local_name ← name_at local_btf name_off;
      if str_is_empty local_name then Some (inl (- EINVAL)) else
      name ← local_name;
      len ← bpf_core_essential_name_len name;
      if negb list_ok then Some (inl (- ENOMEM)) else
      let main_btf := default (btf_vmlinux k) (btf_vmlinux_override k) in
      '(cands, err) ← bpf_core_add_cands (local_btf, local_type_id) len main_btf 1 [];
      if negb (err =? 0) then Some (inl err) else
      if negb (zlen cands =? 0) then Some (inr cands) else
      match btf_vmlinux_override k with
      | Some _ => Some (inr cands)
      | None =>
          if negb (load_module_btfs k =? 0) then Some (inl (load_module_btfs k)) else
          '(cands, err) ← for_loop 0 (zlen (btf_modules k)) (modules_body (local_btf, local_type_id) len k) (cands, 0);
          Some (if negb (err =? 0) then inl err else inr cands)
      end
  end.
End cands.
