(* ===== verification/ReloTypes.v ===== *)
(** * Types as relocations read them

    Walks behind modifiers end when modifiers do not form a cycle, and then
    every name and every member of a well-formed object is there: what the
    theorems on relocations need of [BtfCorrect]. *)

From Stdlib Require Import Relations Wellfounded.
From stdpp Require Import gmap.
From S2P Require Import Prelude CString Hashmap Strset StrsetCorrect Bytes Btf BtfBuild BtfRecords BtfCorrect BtfTypes Relo.

(** ** Runs of a step relation over a list *)

Section runs.
Context {A S : Type} (step : A → S → S → Prop) (s0 : S).

Inductive runs : list A → S → Prop :=
| runs_nil : runs [] s0
| runs_snoc l a s s' : runs l s → step a s s' → runs (l ++ [a]) s'.

Lemma runs_last l a s' : runs (l ++ [a]) s' → ∃ s, runs l s ∧ step a s s'.
Proof.
  intros H. inversion H as [E|l' a' s s'' H1 H2 E]; [by destruct l|]. apply app_inj_tail in E as [-> ->]. by exists s.
Qed.

Lemma runs_nil_inv s : runs [] s → s = s0.
Proof. intros H. inversion H as [|l a s1 s2 _ _ E]; [done|by destruct l]. Qed.

Lemma runs_prefix l1 l2 s : runs (l1 ++ l2) s → ∃ s1, runs l1 s1.
Proof.
  revert s. induction l2 as [|x l2 IH] using rev_ind; intros s H; [rewrite app_nil_r in H; by exists s|].
  rewrite app_assoc in H. apply runs_last in H as (s1 & H1 & _). by eapply IH.
Qed.

(** With an invariant under which steps are deterministic. *)
Context (P : S → Prop).
Hypothesis HP0 : P s0.
Hypothesis HP : ∀ a s s', P s → step a s s' → P s'.
Hypothesis Hfun : ∀ a s s1 s2, P s → step a s s1 → step a s s2 → s1 = s2.

Lemma runs_inv l s : runs l s → P s.
Proof. induction 1 as [|l a s s' _ IH H]; [done|]. by eapply HP. Qed.

Lemma runs_fun l s1 s2 : runs l s1 → runs l s2 → s1 = s2.
Proof.
  intros H1. revert s2. induction H1 as [|l a s s' H1 IH Hstep]; intros s2 H2.
  - inversion H2 as [|l a s s' _ _ E]; [done|by destruct l].
  - apply runs_last in H2 as (s3 & H3 & Hstep'). rewrite <- (IH _ H3) in Hstep'. apply (Hfun a s); [by eapply runs_inv|done|done].
Qed.

(** A run that cannot go on. *)
Lemma runs_stuck l1 a l2 s : runs l1 s → (∀ s', ¬ step a s s') → ∀ s', ¬ runs (l1 ++ a :: l2) s'.
Proof.
  intros H1 Hno s' H. change (a :: l2) with ([a] ++ l2) in H. rewrite app_assoc in H. apply runs_prefix in H as [s2 H2].
  apply runs_last in H2 as (s3 & H3 & Hstep). rewrite <- (runs_fun _ _ _ H1 H3) in Hstep. by apply Hno in Hstep.
Qed.
End runs.

Lemma list_last_aget {A} (l : list A) : 0 < zlen l → ∃ x, aget l (zlen l - 1) = Some x ∧ list.last l = Some x.
Proof.
  intros Hl. destruct (aget_is_Some l (zlen l - 1) ltac:(lia)) as [x Hx]. exists x. split; [done|]. rewrite last_lookup. rewrite aget_to_nat in Hx by lia.
  by replace (pred (length l)) with (Z.to_nat (zlen l - 1)) by lia.
Qed.

(** ** Modifiers and typedefs *)

(** [id] is a modifier or typedef of [id']. *)
Definition modifies (b : btf) (id id' : Z) : Prop :=
  ∃ t, btf__type_by_id b id = Some (Some t) ∧ (btf_is_mod t = Some true ∨ btf_is_typedef t = Some true) ∧ t_type t = Some id'.

(** Modifiers refer to types that exist and end somewhere. *)
Definition mods_ok (b : btf) : Prop :=
  ∀ id, 0 <= id < btf__type_cnt b → Acc (λ x y, modifies b y x) id ∧ ∀ id', modifies b id id' → id' < btf__type_cnt b.

Definition plain (t : type_ptr) : Prop := btf_is_mod t = Some false ∧ btf_is_typedef t = Some false.

(** From [id] over the modifiers [l] to [t]. *)
Inductive chain (b : btf) : Z → list Z → type_ptr → Z → Prop :=
| chain_end id t : btf__type_by_id b id = Some (Some t) → plain t → chain b id [id] t id
| chain_mod id id' l t end_id : modifies b id id' → chain b id' l t end_id → chain b id (id :: l) t end_id.

Lemma kind_total t r : record_at t r → ∃ k, btf_kind t = Some k.
Proof. intros Hr. destruct (record_info t r Hr) as (info & Hi & _). unfold btf_kind. rewrite Hi. by eexists. Qed.

Lemma mod_dec t r : record_at t r → ∃ m td, btf_is_mod t = Some m ∧ btf_is_typedef t = Some td.
Proof. intros Hr. destruct (kind_total t r Hr) as [k Hk]. unfold btf_is_mod, btf_is_typedef, is_kind. rewrite Hk. by eexists _, _. Qed.

Lemma type_total b id : btf_ok b → 0 <= id < btf__type_cnt b → ∃ t r, btf__type_by_id b id = Some (Some t) ∧ record_at t r.
Proof.
  intros Hok Hid. destruct (type_by_id_valid b id Hok ltac:(lia)) as ([t|] & Ht & Hv & Hn).
  - destruct Hv as [r Hr]. by exists t, r.
  - pose proof (proj1 Hn eq_refl). lia.
Qed.

Lemma chain_total b id : btf_ok b → mods_ok b → 0 <= id < btf__type_cnt b → ∃ l t end_id, chain b id l t end_id.
Proof.
  intros Hok Hm Hid. destruct (Hm id Hid) as [Ha _]. revert Hid. induction Ha as [id _ IH]. intros Hid.
  destruct (type_total b id Hok Hid) as (t & r & Ht & Hr). destruct (mod_dec t r Hr) as (m & td & Em & Etd).
  destruct (decide (m = true ∨ td = true)) as [Hmod|Hmod].
  - destruct (record_size t r Hr) as (id' & Hid' & Hw).
    assert (modifies b id id') as Hmid by (exists t; split; [done|]; split; [|done]; destruct Hmod as [->| ->]; auto).
    pose proof (proj2 (Hm id Hid) id' Hmid). destruct (IH id' Hmid) as (l & t' & e & Hc); [unfold word_ok in Hw; lia|].
    exists (id :: l), t', e. by apply (chain_mod _ _ id').
  - exists [id], t, id. apply chain_end; [done|]. destruct m, td; try solve [exfalso; apply Hmod; auto]. by split.
Qed.

Lemma chain_in_range b id l t e : btf_ok b → mods_ok b → 0 <= id < btf__type_cnt b → chain b id l t e → Forall (λ x, 0 <= x < btf__type_cnt b) l.
Proof.
  intros Hok Hm Hid Hc. induction Hc as [|id id' l t e Hmid Hc IH]; [by constructor|]. constructor; [done|]. apply IH.
  pose proof (proj2 (Hm id Hid) id' Hmid). destruct (type_total b id Hok Hid) as (t0 & r & Ht & Hr). destruct Hmid as (t1 & Ht1 & _ & Hw1).
  rewrite Ht in Ht1. injection Ht1 as <-. destruct (record_size t0 r Hr) as (w & Hw & Hwok). unfold t_size, t_type in *. rewrite Hw in Hw1. injection Hw1 as ->.
  unfold word_ok in Hwok. lia.
Qed.

Lemma acc_irrefl {A} (R : A → A → Prop) x : Acc R x → ¬ clos_trans A R x x.
Proof. intros H. apply Acc_clos_trans in H. induction H as [x _ IH]. intros Hx. exact (IH x Hx Hx). Qed.

Lemma chain_behind b id l t e x : chain b id l t e → x ∈ l → x = id ∨ clos_trans Z (λ x y, modifies b y x) x id.
Proof.
  intros Hc. induction Hc as [|id id' l t e Hmid Hc IH]; intros Hx.
  - left. by apply list_elem_of_singleton in Hx.
  - apply elem_of_cons in Hx as [->|Hx]; [by left|]. right. destruct (IH Hx) as [->|Ht]; [by apply t_step|]. eapply t_trans; [exact Ht|by apply t_step].
Qed.

Lemma chain_nodup b id l t e : btf_ok b → mods_ok b → 0 <= id < btf__type_cnt b → chain b id l t e → NoDup l.
Proof.
  intros Hok Hm Hid Hc. pose proof (chain_in_range b id l t e Hok Hm Hid Hc) as Hr. induction Hc as [|id id' l t e Hmid Hc IH]; [apply NoDup_singleton|].
  inversion Hr as [|? ? _ Hr']; subst. constructor.
  - intros Hin. destruct (chain_behind _ _ _ _ _ _ Hc Hin) as [->|Ht].
    + apply (acc_irrefl (λ x y, modifies b y x) id' (proj1 (Hm id' Hid))). by apply t_step.
    + apply (acc_irrefl (λ x y, modifies b y x) id (proj1 (Hm id Hid))). eapply t_trans; [exact Ht|by apply t_step].
  - apply IH; [|done]. inversion Hc; subst; by inversion Hr'.
Qed.

Lemma chain_walk b id l t e : chain b id l t e → ∀ fuel, (length l <= fuel)%nat →
  ∃ t0, btf__type_by_id b id = Some t0 ∧ while_loop fuel (skip_body b) (t0, id) = Some (Some t, e).
Proof.
  intros Hc. induction Hc as [id t Ht [Hm Htd]|id id' l t e (t1 & Ht1 & Hmod & Hw) Hc IH]; intros fuel Hf; (destruct fuel as [|fuel]; [cbn in Hf; lia|]).
  - exists (Some t). split; [done|]. apply while_loop_break. unfold skip_body. cbn [mbind option_bind]. by rewrite Hm, Htd.
  - cbn in Hf. destruct (IH fuel ltac:(lia)) as (t2 & Ht2 & Hl). exists (Some t1). split; [done|]. rewrite (while_loop_next _ _ _ (t2, id')); [done|].
    unfold skip_body. cbn [mbind option_bind].
    assert (∃ k, btf_kind t1 = Some k) as [k Hk] by (destruct Hmod as [H|H]; [unfold btf_is_mod in H|unfold btf_is_typedef, is_kind in H]; destruct (btf_kind t1) as [k|]; try done; by exists k).
    assert (∃ m td, btf_is_mod t1 = Some m ∧ btf_is_typedef t1 = Some td ∧ m || td = true) as (m & td & -> & -> & Hor).
    { unfold btf_is_mod, btf_is_typedef, is_kind in *. rewrite Hk in *. eexists _, _. split; [done|]. split; [done|]. cbn in Hmod.
      apply orb_true_iff. destruct Hmod as [[= H]|[= H]]; [by left|by right]. }
    cbn [mbind option_bind]. rewrite Hor. cbn [negb]. rewrite Hw. cbn [mbind option_bind]. rewrite Ht2. done.
Qed.

Lemma chain_end_type b id l t e : chain b id l t e → btf__type_by_id b e = Some (Some t) ∧ plain t ∧ e ∈ l.
Proof.
  induction 1 as [id t Ht Hp|id id' l t e Hmid Hc IH]; [split; [done|]; split; [done|]; by apply list_elem_of_singleton|].
  destruct IH as (H1 & H2 & H3). split; [done|]. split; [done|]. by apply elem_of_cons; right.
Qed.

(** The walk visits every type at most once, so that as many steps as there are
    types are enough. *)
Lemma skip_total b id : btf_ok b → mods_ok b → 0 <= id < btf__type_cnt b → ∃ t e r,
  skip_mods_and_typedefs b id = Some (t, e) ∧ btf__type_by_id b e = Some (Some t) ∧ plain t ∧ 0 <= e < btf__type_cnt b ∧ record_at t r.
Proof.
  intros Hok Hm Hid. destruct (chain_total b id Hok Hm Hid) as (l & t & e & Hc). pose proof (chain_in_range _ _ _ _ _ Hok Hm Hid Hc) as Hr.
  pose proof (chain_nodup _ _ _ _ _ Hok Hm Hid Hc) as Hnd. destruct (chain_end_type _ _ _ _ _ Hc) as (He & Hp & Hin).
  assert (length l <= Z.to_nat (btf__type_cnt b))%nat as Hlen.
  { rewrite <- (length_seqZ 0 (btf__type_cnt b)). apply submseteq_length, NoDup_submseteq; [done|]. intros x Hx. apply elem_of_seqZ.
    rewrite list.Forall_forall in Hr. specialize (Hr x Hx). lia. }
  destruct (chain_walk b id l t e Hc _ Hlen) as (t0 & Ht0 & Hw). rewrite list.Forall_forall in Hr. specialize (Hr e Hin).
  destruct (type_total b e Hok Hr) as (t' & r & Ht' & Hrec). rewrite He in Ht'. injection Ht' as <-.
  exists t, e, r. split; [|done]. unfold skip_mods_and_typedefs. rewrite Ht0. cbn [mbind option_bind]. by rewrite Hw.
Qed.

(** ** Well-formed types *)

(** References exist, and modifiers do not form a cycle. *)
Record types_ok (b : btf) : Prop := {
  to_btf : btf_ok b;
  to_closed : closed b;
  to_mods : ∀ id, 0 <= id < btf__type_cnt b → Acc (λ x y, modifies b y x) id;
}.

Lemma modifies_refs b id id' : modifies b id id' → refs b id' id.
Proof.
  intros (t & Ht & Hm & Hw). unfold btf_is_mod, btf_is_typedef, is_kind in Hm. destruct (btf_kind t) as [k|] eqn:Hk; [|by destruct Hm]. exists t, k.
  split; [done|]. split; [done|]. cbn [mbind option_bind] in Hm. destruct Hm as [[= H]|[= H]].
  - repeat (apply orb_true_iff in H as [H|H]); apply bool_decide_eq_true in H as ->; exact Hw.
  - apply bool_decide_eq_true in H as ->. exact Hw.
Qed.

Lemma types_mods b : types_ok b → mods_ok b.
Proof. intros [Hb Hc Hm] id Hid. split; [by apply Hm|]. intros id' H. apply (Hc id). by apply modifies_refs. Qed.

Lemma skip_ok b id : types_ok b → 0 <= id < btf__type_cnt b → ∃ t e r,
  skip_mods_and_typedefs b id = Some (t, e) ∧ btf__type_by_id b e = Some (Some t) ∧ plain t ∧ 0 <= e < btf__type_cnt b ∧ record_at t r.
Proof. intros Hok. apply skip_total; [by apply to_btf|by apply types_mods]. Qed.

Lemma name_total b off : btf_ok b → word_ok off → ∃ n, name_at b off = Some n.
Proof.
  intros Hok Ho. unfold name_at, btf__name_by_offset. destruct (str_by_offset_ok b off Hok Ho) as (p & -> & Hs). cbn [mbind option_bind].
  destruct p as [p|]; [|by eexists]. destruct Hs as [s ->]. by eexists.
Qed.

Lemma composite_total t r : record_at t r → ∃ c, btf_is_composite t = Some c.
Proof. intros Hr. destruct (kind_total t r Hr) as [k Hk]. unfold btf_is_composite. rewrite Hk. by eexists. Qed.

Lemma vlen_total t r : record_at t r → ∃ v, btf_vlen t = Some v ∧ 0 <= v < 2 ^ 16.
Proof.
  intros Hr. destruct (record_info t r Hr) as (info & Hi & Hok & _). unfold btf_vlen. rewrite Hi. eexists. split; [done|]. apply vlen_range. unfold word_ok in Hok. lia.
Qed.

(** The words of a member. *)
Lemma member_total t r i v : record_at t r → btf_is_composite t = Some true → btf_vlen t = Some v → 0 <= i < v →
  ∃ n ty o, m_word t i 0 = Some n ∧ word_ok n ∧ m_word t i 1 = Some ty ∧ word_ok ty ∧ btf_member_bit_offset t i = Some o ∧ word_ok o.
Proof.
  intros Hr Hc Hv Hi. destruct (record_info t r Hr) as (info & Hinfo & Hok & Hsz). unfold btf_is_composite, btf_kind in Hc. unfold btf_vlen in Hv.
  rewrite Hinfo in Hc, Hv. rewrite bind_Some in Hv. rewrite !bind_Some in Hc. apply (inj Some) in Hv as <-. apply (inj Some) in Hc.
  assert (kind_of_num (BTF_INFO_KIND info) = STRUCT ∨ kind_of_num (BTF_INFO_KIND info) = UNION) as Hk
    by (apply orb_true_iff in Hc as [H|H]; apply bool_decide_eq_true in H; auto).
  assert (rec_size info = 12 + BTF_INFO_VLEN info * 12) as Hrs by (unfold rec_size; by destruct Hk as [-> | ->]).
  assert (zlen r = 12 + BTF_INFO_VLEN info * 12) as Hl.
  { destruct Hsz as [->|Hsz]; [|lia]. exfalso. assert (t_info VoidType = Some 0) as E0 by (vm_compute; reflexivity).
    rewrite E0 in Hinfo. injection Hinfo as <-. destruct Hk as [H|H]; vm_compute in H; discriminate H. }
  assert (∀ w, 0 <= w < 3 → ∃ x, m_word t i w = Some x ∧ word_ok x) as Hword.
  { intros w Hw. destruct (record_word t r (3 + 3 * i + w) Hr ltac:(lia) ltac:(lia)) as (x & Hx & Hxok & _). by exists x. }
  destruct (Hword 0 ltac:(lia)) as (n & Hn & Hn'), (Hword 1 ltac:(lia)) as (ty & Hty & Hty'), (Hword 2 ltac:(lia)) as (o & Ho & Ho').
  unfold btf_member_bit_offset, btf_kflag. rewrite Hinfo, Ho. cbn [mbind option_bind]. eexists n, ty, _. do 5 (split; [done|]). destruct (negb _); [|done].
  unfold BTF_MEMBER_BIT_OFFSET, word_ok in *. apply land_ok; lia.
Qed.

(** The type of a member exists. *)
Lemma member_closed b id t i v ty : types_ok b → btf__type_by_id b id = Some (Some t) → btf_is_composite t = Some true → btf_vlen t = Some v → 0 <= i < v →
  m_word t i 1 = Some ty → ty < btf__type_cnt b.
Proof.
  intros Hok Ht Hc Hv Hi Hty. apply (to_closed b Hok id). unfold btf_is_composite in Hc. destruct (btf_kind t) as [k|] eqn:Hk; [|done].
  exists t, k. split; [done|]. split; [done|]. cbn [mbind option_bind] in Hc. injection Hc as Hc.
  apply orb_true_iff in Hc as [H|H]; apply bool_decide_eq_true in H as ->; by exists v, i.
Qed.

(** ** A sample

    An integer, [struct S { int f; }], and
    [struct S___v2 { int h; struct { int g; int f; }; }], in which the member is
    at another place. *)
Definition relo_raw : list Z :=
  [159; 235; 1; 0; 24; 0; 0; 0; 0; 0; 0; 0; 112; 0; 0; 0; 112; 0; 0; 0; 24; 0; 0; 0; 1; 0; 0; 0; 0; 0; 0; 1; 4; 0; 0; 0; 32; 0; 0; 0;
   3; 0; 0; 0; 1; 0; 0; 4; 4; 0; 0; 0; 5; 0; 0; 0; 1; 0; 0; 0; 0; 0; 0; 0; 0; 0; 0; 0; 2; 0; 0; 4; 8; 0; 0; 0; 7; 0; 0; 0; 1; 0; 0;
   0; 0; 0; 0; 0; 5; 0; 0; 0; 1; 0; 0; 0; 32; 0; 0; 0; 11; 0; 0; 0; 2; 0; 0; 4; 12; 0; 0; 0; 9; 0; 0; 0; 1; 0; 0; 0; 0; 0; 0; 0; 0;
   0; 0; 0; 3; 0; 0; 0; 32; 0; 0; 0; 0; 105; 0; 83; 0; 102; 0; 103; 0; 104; 0; 83; 95; 95; 95; 118; 50; 0; 48; 58; 49; 58; 49; 0].

Definition relo_btf : btf :=
  mkBtf (mkHdr 60319 1 0 24 0 112 112 24) [] (Contiguous relo_raw 24 136) [0; 16; 40; 76; 0; 0; 0; 0; 0; 0; 0; 0; 0; 0; 0; 0] 16 4
    None 1 0 160 None false false 0.

Lemma relo_btf_new : btf_new (λ _, true) true true relo_raw (zlen relo_raw) None = Some (inr relo_btf).
Proof. vm_compute. reflexivity. Qed.

Lemma relo_btf_ok : btf_ok relo_btf.
Proof.
  destruct (btf_new_ok (λ _, true) true true relo_raw None) as (r & E & Hr); [by apply bytes_ok_dec|done|zeval|].
  rewrite relo_btf_new in E. injection E as <-. by destruct Hr.
Qed.

Lemma relo_ids id : 0 <= id < btf__type_cnt relo_btf → id = 0 ∨ id = 1 ∨ id = 2 ∨ id = 3 ∨ id = 4.
Proof. change (btf__type_cnt relo_btf) with 5. lia. Qed.

Lemma relo_type_id id t : btf__type_by_id relo_btf id = Some (Some t) → 0 <= id < btf__type_cnt relo_btf.
Proof.
  intros Ht. change (btf__type_cnt relo_btf) with 5. unfold btf__type_by_id in Ht. change (u32 _) with 5 in Ht. destruct (Z.leb_spec 5 id); [done|]. rewrite type_by_id_eq in Ht.
  destruct (Z.eqb_spec id 0); [lia|]. change (u32 (start_id relo_btf)) with 1 in Ht. destruct (Z.ltb_spec id 1); [done|lia].
Qed.

Lemma relo_refs id id' : refs relo_btf id' id → 0 <= id' < id ∧ id < 5.
Proof.
  intros (t & k & Ht & Hk & H).
  destruct (relo_ids id (relo_type_id id t Ht)) as [->|[->|[->|[->| ->]]]]; vm_compute in Ht; injection Ht as <-; vm_compute in Hk; injection Hk as <-; try done;
    destruct H as (v & i & Hv & Hi & Hw); vm_compute in Hv; injection Hv as <-; (assert (i = 0 ∨ i = 1) as [->| ->] by lia; [|try lia]); vm_compute in Hw; injection Hw as <-; lia.
Qed.

Lemma relo_types_ok : types_ok relo_btf.
Proof.
  split; [exact relo_btf_ok|intros id id' H; apply relo_refs in H; change (btf__type_cnt relo_btf) with 5; lia|].
  intros id _. induction id as [id IH] using (well_founded_induction (Z.lt_wf 0)). constructor. intros id' H. apply IH. apply modifies_refs, relo_refs in H. lia.
Qed.

Lemma relo_ptr_ok : ptr_ok relo_btf.
Proof. split; cbn; auto. Qed.
