(* ===== verification/ReloMatch.v ===== *)
(** * Following a path in a target ([bpf_core_match_member], [bpf_core_spec_match])

    A member of the local type is searched by name in the target, behind members
    without names; an access path of a target that matches has the names of the
    local one, and its offset is the sum of the offsets on the way. *)

From stdpp Require Import gmap.
From S2P Require Import Prelude CString Hashmap Strset StrsetCorrect Bytes Btf BtfBuild BtfRecords BtfCorrect BtfTypes Relo ReloTypes.

(** ** Fields are compatible or not *)

Lemma while_loop_partial {T} (Q : T → Prop) body fuel : (∀ s s', body s = Some (Break s') → Q s') →
  ∀ s s', while_loop fuel body s = Some s' → Q s'.
Proof.
  intros Hb. induction fuel as [|fuel IH]; intros s s' H; [done|]. cbn [while_loop] in H. destruct (body s) as [[s1|s1]|] eqn:E; [|by injection H as <-; eapply Hb|done].
  by eapply IH.
Qed.

Lemma fields_body_answer lb tb s s' : fields_body lb tb s = Some (Break s') → s'.2 = Some 0 ∨ s'.2 = Some 1.
Proof.
  destruct s as [[lid tid] ret]. unfold fields_body.
  destruct (skip_mods_and_typedefs lb lid) as [[lt lid']|]; [|done]. destruct (skip_mods_and_typedefs tb tid) as [[tt tid']|]; [|done]. cbn [mbind option_bind].
  destruct (btf_is_composite lt) as [lc|]; [|done]. destruct (btf_is_composite tt) as [tc|]; [|done]. cbn [mbind option_bind].
  destruct (lc && tc); [intros [= <-]; by right|]. destruct (btf_kind_core_compat lt tt) as [c|]; [|done]. cbn [mbind option_bind].
  destruct (negb c); [intros [= <-]; by left|]. destruct (btf_kind lt) as [k|]; [|done]. cbn [mbind option_bind].
  assert (∀ r, enum_names_compat lb tb lt tt = Some r → r = 0 ∨ r = 1) as He.
  { intros r. unfold enum_names_compat. repeat match goal with |- context [?o ≫= _] => destruct o; [cbn [mbind option_bind]|done] end. destruct (_ || _ || _); intros [= <-]; auto. }
  assert (∀ o : option Z, (∀ r, o = Some r → r = 0 ∨ r = 1) → (r ← o; Some (Break (lid', tid', Some r))) = Some (Break s') → s'.2 = Some 0 ∨ s'.2 = Some 1) as Ho.
  { intros [r|] Hr; [|done]. cbn [mbind option_bind]. intros [= <-]. destruct (Hr r eq_refl) as [->| ->]; auto. }
  destruct k; try (intros [= <-]; by auto); try (by apply Ho).
  - destruct (btf_int_offset lt) as [o1|]; [|done]. destruct (btf_int_offset tt) as [o2|]; [|done]. cbn [mbind option_bind]. destruct (_ && _); intros [= <-]; auto.
  - destruct (array_type lt); [|done]. by destruct (array_type tt).
Qed.

Lemma fields_compat_answer lb tb lid tid r : bpf_core_fields_are_compat lb tb lid tid = Some r → r = 0 ∨ r = 1.
Proof.
  unfold bpf_core_fields_are_compat. destruct (while_loop _ _ _) as [[[a c] ret]|] eqn:E; [|done]. cbn [mbind option_bind]. intros ->.
  apply (while_loop_partial (λ s, s.2 = Some 0 ∨ s.2 = Some 1)) in E; [|by intros s s'; apply fields_body_answer]. cbn [snd] in E. destruct E as [[= ->]|[= ->]]; auto.
Qed.

Lemma Z2Nat_nonpos x : x <= 0 → Z.to_nat x = 0%nat.
Proof. lia. Qed.

(** ** Members by name *)

Section member.
Variables (local_btf targ_btf : btf) (acc : bpf_core_accessor) (lt : type_ptr) (lno lmt : Z) (lname : list Z).
Hypothesis Htarg : types_ok targ_btf.
Hypothesis Hlt : btf_type_by_id local_btf (acc_type_id acc) = Some lt.
Hypothesis Hlno : m_word lt (acc_idx acc) 0 = Some lno.
Hypothesis Hlmt : m_word lt (acc_idx acc) 1 = Some lmt.
Hypothesis Hlname : name_at local_btf lno = Some (Some lname).
Hypothesis Hcompat : ∀ id, 0 <= id < btf__type_cnt targ_btf → is_Some (bpf_core_fields_are_compat local_btf targ_btf lmt id).

(** Member [i] of [id], behind modifiers: its offset and its type. *)
Definition member (id : Z) (i tid off mt : Z) (name : option (list Z)) : Prop :=
  ∃ t vlen no, skip_mods_and_typedefs targ_btf id = Some (t, tid) ∧ btf_is_composite t = Some true ∧ btf_vlen t = Some vlen ∧ 0 <= i < vlen
    ∧ btf_member_bit_offset t i = Some off ∧ m_word t i 0 = Some no ∧ name_at targ_btf no = Some name ∧ m_word t i 1 = Some mt.

(** The members with the name of the local one, behind members without names:
    the indices on the way, the type that has it, its offset and its type. *)
Inductive member_named : Z → list Z → Z → Z → Z → Prop :=
| named_here id i tid off mt : member id i tid off mt (Some lname) → lname ≠ [] → member_named id [i] tid off mt
| named_inside id i tid off mt name raws tid' off' mt' :
    member id i tid off mt name → str_is_empty name = true → member_named mt raws tid' off' mt' → member_named id (i :: raws) tid' (off + off') mt'.

Definition compat (mt r : Z) : Prop := bpf_core_fields_are_compat local_btf targ_btf lmt mt = Some r.

Definition incompatible (id : Z) : Prop := ∃ raws tid off mt, member_named id raws tid off mt ∧ compat mt 0.

(** A nest of [n] members without names. *)
Inductive nested : Z → nat → Prop :=
| nested_here id i tid off mt name : member id i tid off mt name → nested id 0
| nested_inside id i tid off mt name n : member id i tid off mt name → str_is_empty name = true → nested mt n → nested id (S n).

(** Names are unique, as in every type of C. *)
Definition unique (id : Z) : Prop :=
  ∀ raws tid off mt raws' tid' off' mt', member_named id raws tid off mt → member_named id raws' tid' off' mt' →
    raws = raws' ∧ tid = tid' ∧ off = off' ∧ mt = mt'.

Lemma unique_inside id i tid off mt name : unique id → member id i tid off mt name → str_is_empty name = true → unique mt.
Proof.
  intros Hu Hm He raws t1 o1 m1 raws' t2 o2 m2 H1 H2.
  destruct (Hu (i :: raws) t1 (off + o1) m1 (i :: raws') t2 (off + o2) m2) as (E1 & E2 & E3 & E4);
    [by apply (named_inside id i tid off mt name)|by apply (named_inside id i tid off mt name)|]. injection E1 as ->. split_and!; [done|done|lia|done].
Qed.

(** The path with a member behind it. *)
Definition extended (sp : bpf_core_spec) (raws : list Z) (tid off : Z) : bpf_core_spec :=
  mkSpec (sp_btf sp) (spec sp ++ [mkAcc tid (default 0 (list.last raws)) (Some lname)]) (root_type_id sp) (sp_kind sp) (raw_spec sp ++ raws) (u32 (bit_offset sp + off)).

Record space (sp : bpf_core_spec) : Prop := {
  sp_off : word_ok (bit_offset sp); sp_raw : zlen (raw_spec sp) <= BPF_CORE_SPEC_MAX_LEN; sp_len : zlen (spec sp) <= zlen (raw_spec sp);
}.

(** After a search that failed at a member that is not compatible, whose index
    may be left in the path. *)
Definition kept (sp sp' : bpf_core_spec) : Prop :=
  space sp' ∧ spec sp' = spec sp ∧ zlen (raw_spec sp) <= zlen (raw_spec sp') <= zlen (raw_spec sp) + 1.

(** There are more members without names in each other than the path has room
    for, or exactly as many when an index was left in it. *)
Definition deeper (left id : Z) (raws : list Z) : Prop := nested id (Z.to_nat (BPF_CORE_SPEC_MAX_LEN - zlen raws - left)).

Definition no_space (id : Z) (raws : list Z) : Prop := deeper 0 id raws ∨ incompatible id ∧ deeper 1 id raws.

Definition found_at (id : Z) (sp : bpf_core_spec) (res : Z * bpf_core_spec * Z) : Prop :=
  let '(r, sp', next') := res in
  r = 1 ∧ ∃ raws tid off mt, member_named id raws tid off mt ∧ compat mt 1 ∧ sp' = extended sp raws tid off ∧ next' = mt ∧ space sp'.

(** What a search gives. *)
Definition search_post (id : Z) (sp : bpf_core_spec) (next : Z) (res : Z * bpf_core_spec * Z) : Prop :=
  found_at id sp res
  ∨ let '(r, sp', next') := res in
    r = - E2BIG ∧ no_space id (raw_spec sp)
    ∨ r = 0 ∧ sp' = sp ∧ next' = next ∧ (∀ raws tid off mt, ¬ member_named id raws tid off mt)
    ∨ r = 0 ∧ incompatible id ∧ kept sp sp'.

(** A turn of the loop sees one member. *)
Section turn.
Variables (id tid : Z) (t : type_ptr) (r : list Z) (vlen : Z) (rec : Z → bpf_core_spec → Z → option (Z * bpf_core_spec * Z)).
Hypothesis Hskip : skip_mods_and_typedefs targ_btf id = Some (t, tid).
Hypothesis Ht : btf__type_by_id targ_btf tid = Some (Some t).
Hypothesis Hr : record_at t r.
Hypothesis Hcomp : btf_is_composite t = Some true.
Hypothesis Hvlen : btf_vlen t = Some vlen.
Hypothesis Huniq : unique id.

Lemma member_of i tid' off mt name : member id i tid' off mt name → tid' = tid ∧ 0 <= i < vlen
  ∧ btf_member_bit_offset t i = Some off ∧ m_word t i 1 = Some mt.
Proof. intros (t' & v & no & H1 & H2 & H3 & H4 & H5 & H6 & H7 & H8). rewrite Hskip in H1. injection H1 as <- <-. by simplify_eq. Qed.

Lemma member_eq i off mt name off' mt' name' tid1 tid2 : member id i tid1 off mt name → member id i tid2 off' mt' name' → off = off' ∧ mt = mt' ∧ name = name'.
Proof.
  intros (t1 & v1 & n1 & H1 & H2 & H3 & H4 & H5 & H6 & H7 & H8) (t2 & v2 & n2 & K1 & K2 & K3 & K4 & K5 & K6 & K7 & K8).
  rewrite H1 in K1. injection K1 as <- <-. by simplify_eq.
Qed.

Lemma turn_member i : 0 <= i < vlen → ∃ no mt off name, m_word t i 0 = Some no ∧ m_word t i 1 = Some mt ∧ btf_member_bit_offset t i = Some off
  ∧ name_at targ_btf no = Some name ∧ member id i tid off mt name ∧ 0 <= mt < btf__type_cnt targ_btf.
Proof.
  intros Hi. destruct (member_total t r i vlen Hr Hcomp Hvlen Hi) as (no & mt & off & H1 & H2 & H3 & H4 & H5 & H6).
  destruct (name_total targ_btf no (to_btf _ Htarg) H2) as [name Hn]. exists no, mt, off, name. do 4 (split; [done|]). split.
  - exists t, vlen, no. by do 7 (split; [done|]).
  - pose proof (member_closed targ_btf tid t i vlen mt Htarg Ht Hcomp Hvlen Hi H3). unfold word_ok in H4. lia.
Qed.

Definition pushed (sp : bpf_core_spec) (i off : Z) : bpf_core_spec :=
  mkSpec (sp_btf sp) (spec sp) (root_type_id sp) (sp_kind sp) (raw_spec sp ++ [i]) (u32 (bit_offset sp + off)).

Lemma push_ok sp i off : zlen (raw_spec sp) < BPF_CORE_SPEC_MAX_LEN → push_raw (add_offset sp off) i = Some (pushed sp i off).
Proof. intros H. unfold push_raw, add_offset. cbn [raw_spec spec sp_btf root_type_id sp_kind bit_offset]. by rewrite (proj2 (Z.ltb_lt _ _) H). Qed.

Lemma pushed_space sp i off : space sp → zlen (raw_spec sp) < BPF_CORE_SPEC_MAX_LEN → space (pushed sp i off).
Proof.
  intros [H1 H2 H3] Hl. split; cbn [pushed bit_offset raw_spec spec]; [apply u32_range|rewrite length_app; cbn; lia|rewrite length_app; cbn; lia].
Qed.

Lemma pushed_undo sp i off : space sp → pop_raw (add_offset (pushed sp i off) (- off)) = sp.
Proof.
  intros [H1 _ _]. destruct sp as [b l ro k raw bo]. unfold pop_raw, add_offset, pushed. cbn [sp_btf spec root_type_id sp_kind raw_spec bit_offset] in *.
  rewrite removelast_last. f_equal. unfold u32. rewrite Zplus_mod_idemp_l. replace (bo + off + - off) with bo by lia. by apply Z.mod_small.
Qed.

Lemma kept_undo sp sp' i off : space sp → zlen (raw_spec sp) < BPF_CORE_SPEC_MAX_LEN → kept (pushed sp i off) sp' →
  kept sp (pop_raw (add_offset sp' (- off))).
Proof.
  intros S1 Hl ([H1 H2 H3] & L2 & L3). cbn [pushed raw_spec spec] in L2, L3. rewrite length_app in L3. cbn in L3.
  assert (zlen (removelast (raw_spec sp')) = zlen (raw_spec sp') - 1) as Hz.
  { rewrite (List.removelast_firstn_len (raw_spec sp')), length_take. destruct (raw_spec sp'); cbn in *; lia. }
  unfold kept, pop_raw, add_offset. cbn [sp_btf spec root_type_id sp_kind raw_spec bit_offset]. split; [|split; [congruence|lia]].
  destruct S1. split; cbn [sp_btf spec root_type_id sp_kind raw_spec bit_offset]; [apply u32_range|lia|rewrite L2; lia].
Qed.

Lemma kept_refl sp : space sp → kept sp sp.
Proof. intros H. split; [done|]. split; [done|lia]. Qed.

Section loop.
Variables (sp : bpf_core_spec) (next : Z).
Hypothesis Hspace : space sp.
Hypothesis Hrec : ∀ mt sp' next', 0 <= mt < btf__type_cnt targ_btf → unique mt → space sp' → zlen (raw_spec sp) < zlen (raw_spec sp') →
  ∃ res, rec mt sp' next' = Some res ∧ search_post mt sp' next' res.

(** Members below [i] have been seen; [dirty] is after a member of another
    kind. *)
Definition clean (i : Z) (sp1 : bpf_core_spec) (next1 : Z) : Prop :=
  sp1 = sp ∧ next1 = next ∧ ∀ j raws tid' off mt, member_named id (j :: raws) tid' off mt → i <= j.

Definition incompatible_below (i : Z) : Prop := ∃ j raws tid' off mt, member_named id (j :: raws) tid' off mt ∧ compat mt 0 ∧ j < i.

Definition dirty (i : Z) (sp1 : bpf_core_spec) : Prop := incompatible_below i ∧ kept sp sp1.

Definition loop_inv (i : Z) (s : bpf_core_spec * Z * option Z) : Prop :=
  let '(sp1, next1, ret) := s in ret = None ∧ (clean i sp1 next1 ∨ dirty i sp1).

Definition loop_post (s : bpf_core_spec * Z * option Z) : Prop :=
  let '(sp', next', ret) := s in ∃ r, ret = Some r ∧
    (found_at id sp (r, sp', next') ∨ r = - E2BIG ∧ no_space id (raw_spec sp) ∨ r = 0 ∧ incompatible id ∧ kept sp sp').

(** The name was seen before, and there is no other member with it. *)
Lemma dirty_unique i raws tid' off mt : incompatible_below i → member_named id (i :: raws) tid' off mt → False.
Proof. intros (j & raws1 & t1 & o1 & m1 & H1 & _ & Hlt') H2. destruct (Huniq _ _ _ _ _ _ _ _ H1 H2) as ([= ? _] & _). lia. Qed.

Lemma below_incompatible i : incompatible_below i → incompatible id.
Proof. intros (j & raws & t1 & o1 & m1 & H1 & C1 & _). by exists (j :: raws), t1, o1, m1. Qed.

Lemma below_S i : incompatible_below i → incompatible_below (i + 1).
Proof. intros (j & raws & t1 & o1 & m1 & H1 & C1 & Hlt'). exists j, raws, t1, o1, m1. split_and!; [done|done|lia]. Qed.

Lemma incompatible_inside i off mt name : member id i tid off mt name → str_is_empty name = true → incompatible mt → incompatible_below (i + 1).
Proof. intros Hm He (raws & t1 & o1 & m1 & H1 & C1). exists i, raws, t1, (off + o1), m1. split; [by apply (named_inside id i tid off mt name)|]. split; [done|lia]. Qed.

Lemma dirty_inside i off mt name : incompatible_below i → member id i tid off mt name → str_is_empty name = true → incompatible mt → False.
Proof. intros Hb Hm He (raws & t1 & o1 & m1 & H1 & C1). by eapply (dirty_unique i); [|apply (named_inside id i tid off mt name)]. Qed.

(** A nest inside of member [i], of a path that is that much longer. *)
Lemma deeper_inside i off mt name sp1 left left' : member id i tid off mt name → str_is_empty name = true →
  left' = left + (zlen (raw_spec sp1) - zlen (raw_spec sp)) → deeper left mt (raw_spec (pushed sp1 i off)) → deeper left' id (raw_spec sp).
Proof.
  intros Hm He -> Hd. unfold deeper in *. cbn [pushed raw_spec] in Hd. rewrite length_app in Hd. cbn [length] in Hd.
  destruct (Z.leb_spec 1 (BPF_CORE_SPEC_MAX_LEN - zlen (raw_spec sp) - (left + (zlen (raw_spec sp1) - zlen (raw_spec sp))))) as [Hge|Hge].
  - replace (Z.to_nat (BPF_CORE_SPEC_MAX_LEN - zlen (raw_spec sp) - (left + (zlen (raw_spec sp1) - zlen (raw_spec sp)))))
      with (S (Z.to_nat (BPF_CORE_SPEC_MAX_LEN - Z.of_nat (length (raw_spec sp1) + 1) - left))) by lia.
    by apply (nested_inside id i tid off mt name).
  - rewrite (Z2Nat_nonpos (BPF_CORE_SPEC_MAX_LEN - _ - _)) by lia. by apply (nested_here id i tid off mt name).
Qed.

(** The space that is missing inside of a member is missing here. *)
Lemma no_space_inside i off mt name sp1 next1 : member id i tid off mt name → str_is_empty name = true → kept sp sp1 → clean i sp1 next1 ∨ dirty i sp1 →
  no_space mt (raw_spec (pushed sp1 i off)) → no_space id (raw_spec sp).
Proof.
  intros Hm He (_ & _ & Hk) Hst [Hd|[Hi Hd]].
  - destruct (Z.eqb_spec (zlen (raw_spec sp1)) (zlen (raw_spec sp))) as [E|E].
    + left. apply (deeper_inside i off mt name sp1 0 0); [done|done|lia|done].
    + right. destruct Hst as [(-> & _)|[Hb _]]; [done|]. split; [by eapply below_incompatible|]. apply (deeper_inside i off mt name sp1 0 1); [done|done|lia|done].
  - destruct Hst as [(-> & _)|[Hb _]]; [|by destruct (dirty_inside i off mt name Hb Hm He Hi)]. right.
    split; [by eapply below_incompatible, incompatible_inside|]. apply (deeper_inside i off mt name sp 1 1); [done|done|lia|done].
Qed.

Lemma named_last j raws tid' off mt : member_named id (j :: raws) tid' off mt → ∃ n, list.last (j :: raws) = Some n.
Proof. intros _. revert j. induction raws as [|x l IH]; intros j; [by eexists|]. apply IH. Qed.

Lemma named_nonempty mt raws tid' off' mt' : member_named mt raws tid' off' mt' → ∃ j l, raws = j :: l.
Proof. by destruct 1; eexists _, _. Qed.

Lemma extended_pushed i off raws tid' off' : raws ≠ [] → extended (pushed sp i off) raws tid' off' = extended sp (i :: raws) tid' (off + off').
Proof.
  intros Hn. unfold extended, pushed. cbn [sp_btf spec root_type_id sp_kind raw_spec bit_offset]. rewrite <- app_assoc. destruct raws as [|j l]; [done|].
  cbn [app]. f_equal. unfold u32. rewrite Zplus_mod_idemp_l. f_equal. lia.
Qed.

(** A member without a name. *)
Lemma turn_inside i off mt name sp1 next1 : 0 <= i < vlen → member id i tid off mt name → str_is_empty name = true → 0 <= mt < btf__type_cnt targ_btf →
  space sp1 → kept sp sp1 → zlen (raw_spec sp1) < BPF_CORE_SPEC_MAX_LEN → clean i sp1 next1 ∨ dirty i sp1 →
  ∃ c, ('(found, sp', next') ← rec mt (pushed sp1 i off) next1;
        if negb (found =? 0) then Some (Break (sp', next', Some found)) else Some (Next (pop_raw (add_offset sp' (- off)), next', None))) = Some c
    ∧ match c with Next s' => loop_inv (i + 1) s' | Break s' => loop_post s' end.
Proof.
  intros Hi Hm He Hmt Hs1 Hk Hl Hst.
  destruct (Hrec mt (pushed sp1 i off) next1 Hmt (unique_inside _ _ _ _ _ _ Huniq Hm He) (pushed_space _ _ _ Hs1 Hl)) as ([[f sp'] next'] & E & Hp).
  { destruct Hk as (_ & _ & Hk). cbn [pushed raw_spec]. rewrite length_app. cbn. lia. }
  rewrite E. cbn [mbind option_bind]. destruct Hp as [(-> & raws & tid' & off' & mt' & Hn & Hc & -> & -> & Hsp)|[(-> & Hd)|[(-> & -> & -> & Hno)|(-> & Hinc & Hkept)]]].
  - eexists. split; [done|]. exists 1. split; [done|]. left. split; [done|]. pose proof (named_inside _ _ _ _ _ _ _ _ _ _ Hm He Hn) as Hn'.
    destruct Hst as [(-> & -> & _)|[Hinc _]]; [|by destruct (dirty_unique _ _ _ _ _ Hinc Hn')]. eexists _, _, _, _. split; [exact Hn'|]. split; [done|]. split; [|by split].
    apply extended_pushed. by destruct (named_nonempty _ _ _ _ _ Hn) as (j & l & ->).
  - eexists. split; [done|]. exists (- E2BIG). split; [done|]. right. left. split; [done|]. by apply (no_space_inside i off mt name sp1 next1).
  - eexists. split; [done|]. cbn [Z.eqb negb]. rewrite pushed_undo by done. split; [done|]. destruct Hst as [(-> & -> & Hlt')|[Hd ?]]; [left|right; split; [by apply below_S|done]].
    split; [done|]. split; [done|]. intros j raws tid' off' mt' Hn. pose proof (Hlt' _ _ _ _ _ Hn). destruct (decide (j = i)) as [->|]; [|lia]. exfalso.
    inversion Hn; subst.
    + match goal with H : member id i _ _ _ (Some lname) |- _ => destruct (member_eq _ _ _ _ _ _ _ _ _ Hm H) as (-> & -> & ->) end. by destruct lname.
    + match goal with H : member id i _ _ _ _, K : member_named _ raws _ _ _ |- _ => destruct (member_eq _ _ _ _ _ _ _ _ _ Hm H) as (-> & -> & ->); by apply Hno in K end.
  - eexists. split; [done|]. cbn [Z.eqb negb]. split; [done|]. right. split; [by apply (incompatible_inside i off mt name)|].
    destruct Hst as [(-> & _)|[Hb _]]; [by apply (kept_undo sp sp' i off)|by destruct (dirty_inside i off mt name Hb Hm He Hinc)].
Qed.

Lemma clean_step i off mt name sp1 next1 : member id i tid off mt name → str_is_empty name = false → name ≠ Some lname →
  clean i sp1 next1 ∨ dirty i sp1 → clean (i + 1) sp1 next1 ∨ dirty (i + 1) sp1.
Proof.
  intros Hm He Hne [(-> & -> & Hlt')|[Hd ?]]; [left|right; split; [by apply below_S|done]]. split; [done|]. split; [done|]. intros j raws tid' off' mt' Hn.
  pose proof (Hlt' _ _ _ _ _ Hn). destruct (decide (j = i)) as [->|]; [|lia]. exfalso. inversion Hn; subst;
    match goal with H : member id i _ _ _ _ |- _ => destruct (member_eq _ _ _ _ _ _ _ _ _ Hm H) as (-> & -> & ->) end; [done|congruence].
Qed.

(** The member with the name. *)
Lemma turn_named i off mt sp1 next1 : 0 <= i < vlen → member id i tid off mt (Some lname) → lname ≠ [] → 0 <= mt < btf__type_cnt targ_btf →
  space sp1 → kept sp sp1 → zlen (raw_spec sp1) < BPF_CORE_SPEC_MAX_LEN → clean i sp1 next1 ∨ dirty i sp1 →
  ∃ c, (sp' ← push_acc (pushed sp1 i off) (mkAcc tid i (Some lname));
        found ← bpf_core_fields_are_compat local_btf targ_btf lmt mt;
        Some (Break (if found =? 0 then pop_acc sp' else sp', mt, Some found))) = Some c
    ∧ match c with Next s' => loop_inv (i + 1) s' | Break s' => loop_post s' end.
Proof.
  intros Hi Hm Hne Hmt Hs1 Hk Hl Hst. pose proof (named_here _ _ _ _ _ Hm Hne) as Hn.
  destruct Hst as [(-> & -> & _)|[Hinc _]]; [|by destruct (dirty_unique _ _ _ _ _ Hinc Hn)]. destruct (Hcompat mt Hmt) as [found Hf]. pose proof (fields_compat_answer _ _ _ _ _ Hf) as Hr01.
  unfold push_acc. cbn [pushed spec]. rewrite (proj2 (Z.ltb_lt (zlen (spec sp)) _)) by (destruct Hs1; lia). cbn [mbind option_bind].
  rewrite Hf. cbn [mbind option_bind]. eexists. split; [done|]. exists found. split; [done|]. destruct Hr01 as [->| ->]; cbn [Z.eqb].
  - right. right. split; [done|]. split; [by exists [i], tid, off, mt|].
    unfold kept, pop_acc. cbn [sp_btf spec root_type_id sp_kind raw_spec bit_offset]. rewrite removelast_last. split; [|split; [done|cbn [pushed raw_spec]; rewrite length_app; cbn; lia]].
    exact (pushed_space sp i off Hs1 Hl).
  - left. split; [done|]. exists [i], tid, off, mt. do 4 (split; [done|]). destruct (pushed_space sp i off Hs1 Hl) as [P1 P2 P3]. split; [exact P1|exact P2|].
    cbn [spec raw_spec pushed]. destruct Hs1. rewrite !length_app. cbn. lia.
Qed.

Lemma turn i s : 0 <= i < vlen → loop_inv i s → ∃ c,
  member_body local_btf targ_btf (Some lname) lmt t tid rec i s = Some c ∧ match c with Next s' => loop_inv (i + 1) s' | Break s' => loop_post s' end.
Proof.
  destruct s as [[sp1 next1] ret]. intros Hi (-> & Hst). destruct (turn_member i Hi) as (no & mt & off & name & E1 & E2 & E3 & E4 & Hm & Hmt).
  assert (kept sp sp1) as Hk by (destruct Hst as [(-> & _)|[_ ?]]; [by apply kept_refl|done]). assert (space sp1) as Hs1 by (by destruct Hk).
  unfold member_body. rewrite E3. cbn [mbind option_bind]. destruct (Z.eqb_spec (zlen (raw_spec sp1)) BPF_CORE_SPEC_MAX_LEN) as [Efull|Efull].
  { eexists. split; [done|]. exists (- E2BIG). split; [done|]. right. left. split; [done|]. 
    assert (∀ k, BPF_CORE_SPEC_MAX_LEN - zlen (raw_spec sp) - k <= 0 → deeper k id (raw_spec sp)) as Hhere.
    { intros k Hk0. unfold deeper. rewrite Z2Nat_nonpos by done. by apply (nested_here id i tid off mt name). }
    destruct Hst as [(-> & _)|[Hinc _]]; [left; apply Hhere; lia|right]. split; [by eapply below_incompatible|]. apply Hhere. destruct Hk as (_ & _ & ?). lia. }
  assert (zlen (raw_spec sp1) < BPF_CORE_SPEC_MAX_LEN) as Hl by (destruct Hs1; lia). rewrite push_ok by done. cbn [mbind option_bind]. cbv zeta.
  rewrite E1. cbn [mbind option_bind]. rewrite E2. cbn [mbind option_bind]. rewrite E4. cbn [mbind option_bind]. destruct (str_is_empty name) eqn:He.
  { by apply (turn_inside i off mt name). }
  destruct (bool_decide_reflect (Some lname = name)) as [<-|Hne].
  { apply (turn_named i off mt sp1 next1); try done. by intros ->. }
  eexists. split; [done|]. rewrite pushed_undo by done. split; [done|]. apply (clean_step i off mt name); [done|done|congruence|done].
Qed.

Lemma turns : ∃ s, for_loop 0 vlen (member_body local_btf targ_btf (Some lname) lmt t tid rec) (sp, next, None) = Some s ∧ (loop_inv vlen s ∨ loop_post s).
Proof.
  apply (for_loop_inv_break loop_inv).
  - destruct (vlen_total t r Hr) as (v & Hv & ?). rewrite Hvlen in Hv. injection Hv as <-. lia.
  - apply turn.
  - split; [done|]. left. split; [done|]. split; [done|]. intros j raws tid' off' mt' Hn. inversion Hn; subst;
      match goal with H : member id _ _ _ _ _ |- _ => destruct (member_of _ _ _ _ _ H) as (_ & ? & _) end; lia.
Qed.
End loop.
End turn.

Lemma no_member id t tid i tid' off mt name :
  skip_mods_and_typedefs targ_btf id = Some (t, tid) → btf_is_composite t = Some false → member id i tid' off mt name → False.
Proof. intros Hs Hc (t' & vlen & no & H1 & H2 & _). rewrite Hs in H1. injection H1 as <- <-. congruence. Qed.

(** The search, whatever the depth of the nests. *)
Lemma search_ok : ∀ fuel id sp next, 0 <= id < btf__type_cnt targ_btf → unique id → space sp → BPF_CORE_SPEC_MAX_LEN - zlen (raw_spec sp) < Z.of_nat fuel →
  ∃ res, bpf_core_match_member fuel local_btf acc targ_btf id sp next = Some res ∧ search_post id sp next res.
Proof.
  induction fuel as [|fuel IH]; intros id sp next Hid Hu Hs Hf; [destruct Hs; lia|]. cbn [bpf_core_match_member].
  destruct (skip_ok targ_btf id Htarg Hid) as (t & tid & r & Hskip & Ht & _ & Htid & Hr). rewrite Hskip. cbn [mbind option_bind].
  destruct (composite_total t r Hr) as [c Hc]. rewrite Hc. cbn [mbind option_bind]. destruct c; cbn [negb].
  2:{ eexists. split; [done|]. right. right. left. split_and!; try done. intros raws tid' off mt Hn.
      inversion Hn; subst; by eapply no_member. }
  rewrite Hlt. cbn [mbind option_bind]. rewrite Hlno. cbn [mbind option_bind]. rewrite Hlmt. cbn [mbind option_bind]. rewrite Hlname. cbn [mbind option_bind].
  destruct (vlen_total t r Hr) as (vlen & Hv & _). rewrite Hv. cbn [mbind option_bind].
  destruct (turns id tid t r vlen (bpf_core_match_member fuel local_btf acc targ_btf) Hskip Ht Hr Hc Hv Hu sp next Hs) as ([[sp' next'] ret] & E & Hres).
  { intros mt sp' nx Hmt Hum Hs' Hlen. apply IH; [done|done|done|lia]. }
  rewrite E. cbn [mbind option_bind]. eexists. split; [done|]. destruct Hres as [(-> & [(-> & -> & Hno)|[Hinc Hk]])|(f & -> & [Hp|[Hp|Hp]])].
  - right. right. left. split_and!; try done. intros raws tid' off mt Hn. destruct (named_nonempty _ _ _ _ _ Hn) as (j & l & ->). pose proof (Hno _ _ _ _ _ Hn).
    inversion Hn; subst; match goal with H : member id _ _ _ _ _ |- _ => destruct (member_of id tid t vlen Hskip Hv _ _ _ _ _ H) as (_ & ? & _) end; lia.
  - right. right. right. split; [done|]. split; [|done]. by eapply below_incompatible.
  - by left.
  - right. by left.
  - right. right. by right.
Qed.
End member.
