(* ===== verification/ReloSpec.v ===== *)
(** * Matching an access path with a target ([bpf_core_spec_match])

    The path of a field in the local types is followed in a type of the target,
    one accessor after the other.  The steps are a relation on the state of a
    walk; the function returns 1 exactly with the state that the relation
    reaches, and 0 only when it reaches none. *)

From stdpp Require Import gmap.
From S2P Require Import Prelude CString Hashmap Strset StrsetCorrect Bytes Btf BtfBuild BtfRecords BtfCorrect BtfTypes Relo ReloTypes ReloMatch.

(** Searching a member by name in a well-formed target, whose names are
    unique, returns: 1 with the member, compatible, that is behind members
    without names, its indices and the sum of the offsets appended to the path;
    0 with the path unchanged when no member has the name, or when the one that
    has it is of an incompatible type; an error only for nests that the path has
    no room for. *)
Theorem bpf_core_match_member_spec local_btf targ_btf acc lt lno lmt lname id sp next :
  types_ok targ_btf → btf_type_by_id local_btf (acc_type_id acc) = Some lt → m_word lt (acc_idx acc) 0 = Some lno → m_word lt (acc_idx acc) 1 = Some lmt →
  name_at local_btf lno = Some (Some lname) →
  (∀ id, 0 <= id < btf__type_cnt targ_btf → is_Some (bpf_core_fields_are_compat local_btf targ_btf lmt id)) →
  0 <= id < btf__type_cnt targ_btf → unique targ_btf lname id → space sp →
  ∃ r sp' next', bpf_core_match_member 65 local_btf acc targ_btf id sp next = Some (r, sp', next') ∧
    (r = 1 ∧ (∃ raws tid off mt, member_named targ_btf lname id raws tid off mt ∧ compat local_btf targ_btf lmt mt 1
                ∧ sp' = extended lname sp raws tid off ∧ next' = mt)
     ∨ r = - E2BIG ∧ no_space local_btf targ_btf lmt lname id (raw_spec sp)
     ∨ r = 0 ∧ sp' = sp ∧ next' = next ∧ (∀ raws tid off mt, ¬ member_named targ_btf lname id raws tid off mt)
     ∨ r = 0 ∧ incompatible local_btf targ_btf lmt lname id).
Proof.
  intros Ht H1 H2 H3 H4 Hc Hid Hu Hs. destruct (search_ok local_btf targ_btf acc lt lno lmt lname Ht H1 H2 H3 H4 Hc 65 id sp next Hid Hu Hs) as ([[r sp'] next'] & E & Hp).
  { unfold BPF_CORE_SPEC_MAX_LEN. lia. }
  exists r, sp', next'. split; [exact E|]. destruct Hp as [(-> & raws & tid & off & mt & Hm & Hc1 & -> & -> & _)|[Hd|[Hn|(? & ? & _)]]]; [left; split; [done|]; by exists raws, tid, off, mt|right; by left|do 2 right; by left|by do 3 right].
Qed.

(** ** Steps of a walk *)

(** The accessors and the indices so far, the offset in bits as an unbounded
    integer, and the type that was reached. *)
Record walk : Type := mkWalk { w_accs : list bpf_core_accessor; w_raws : list Z; w_off : Z; w_type : Z }.

Section spec.
Variables local_btf targ_btf : btf.

(** Elements of arrays are inside of them, unless the array is the last member
    of its structure and has no length. *)
Definition in_bounds (accs : list bpf_core_accessor) (idx nelems : Z) : Prop :=
  idx < nelems ∨ ∃ last, list.last accs = Some last ∧ is_flex_arr targ_btf last nelems = Some true.

Definition sized (id sz : Z) : Prop := size_of (Z.to_nat MAX_RESOLVE_DEPTH) targ_btf id = Some sz ∧ sz < 2 ^ 31.

(** The type an index counts in: the one where the path starts, as if it were
    an array, or the elements of an array. *)
Inductive indexed (la : bpf_core_accessor) (w : walk) : Z → Prop :=
| idx_root t tid :
    acc_name la = None → w_accs w = [] → skip_mods_and_typedefs targ_btf (w_type w) = Some (t, tid) → indexed la w tid
| idx_elem t tid elem nelems t' eid :
    acc_name la = None → w_accs w ≠ [] → skip_mods_and_typedefs targ_btf (w_type w) = Some (t, tid) → btf_is_array t = Some true →
    array_type t = Some elem → array_nelems t = Some nelems → in_bounds (w_accs w) (acc_idx la) nelems →
    skip_mods_and_typedefs targ_btf elem = Some (t', eid) → indexed la w eid.

Inductive acc_step (la : bpf_core_accessor) : walk → walk → Prop :=
| step_index w eid sz :
    indexed la w eid → sized eid sz →
    acc_step la w (mkWalk (w_accs w ++ [mkAcc eid (acc_idx la) None]) (w_raws w ++ [s32 (acc_idx la)]) (w_off w + acc_idx la * sz * 8) eid)
| step_member w name lt lno lmt lname t tid raws tid' off mt :
    acc_name la = Some name → btf_type_by_id local_btf (acc_type_id la) = Some lt → m_word lt (acc_idx la) 0 = Some lno → m_word lt (acc_idx la) 1 = Some lmt →
    name_at local_btf lno = Some (Some lname) → skip_mods_and_typedefs targ_btf (w_type w) = Some (t, tid) →
    member_named targ_btf lname tid raws tid' off mt → compat local_btf targ_btf lmt mt 1 →
    acc_step la w (mkWalk (w_accs w ++ [mkAcc tid' (default 0 (list.last raws)) (Some lname)]) (w_raws w ++ raws) (w_off w + off) mt).

(** Why a walk that got to [w] fails at an accessor: the path has no room, or the
    type that is indexed has no size. *)
Inductive acc_error (la : bpf_core_accessor) (w : walk) : Z → Prop :=
| err_long eid : indexed la w eid → zlen (w_raws w) = BPF_CORE_SPEC_MAX_LEN → acc_error la w (- E2BIG)
| err_size eid z : indexed la w eid → resolve_size targ_btf eid = Some z → s32 z < 0 → (∀ sz, sized eid sz → sz = 0) → acc_error la w (s32 z)
| err_nested name lt lno lmt lname t tid :
    acc_name la = Some name → btf_type_by_id local_btf (acc_type_id la) = Some lt → m_word lt (acc_idx la) 0 = Some lno → m_word lt (acc_idx la) 1 = Some lmt →
    name_at local_btf lno = Some (Some lname) → skip_mods_and_typedefs targ_btf (w_type w) = Some (t, tid) →
    no_space local_btf targ_btf lmt lname tid (w_raws w) → acc_error la w (- E2BIG).

Definition walks (root : Z) : list bpf_core_accessor → walk → Prop := runs acc_step (mkWalk [] [] 0 root).

(** The walk on the accessors [ls] gets to one that fails with [r]. *)
Definition fails_at (root : Z) (ls : list bpf_core_accessor) (r : Z) : Prop :=
  r < 0 ∧ ∃ l1 la l2 w, ls = l1 ++ la :: l2 ∧ walks root l1 w ∧ acc_error la w r.

Hypothesis Htarg : types_ok targ_btf.
Hypothesis Hptr : ptr_ok targ_btf.
Hypothesis Hunique : ∀ lname id, 0 <= id < btf__type_cnt targ_btf → unique targ_btf lname id.

(** What the local path needs: members that are there, of types that can be
    compared. *)
Definition acc_ok (la : bpf_core_accessor) : Prop :=
  word_ok (acc_idx la) ∧ (acc_name la ≠ None → ∃ lt lno lmt lname,
    btf_type_by_id local_btf (acc_type_id la) = Some lt ∧ m_word lt (acc_idx la) 0 = Some lno ∧ m_word lt (acc_idx la) 1 = Some lmt
    ∧ name_at local_btf lno = Some (Some lname) ∧ ∀ id, 0 <= id < btf__type_cnt targ_btf → is_Some (bpf_core_fields_are_compat local_btf targ_btf lmt id)).

Lemma indexed_name la w eid : indexed la w eid → acc_name la = None.
Proof. by destruct 1. Qed.

Lemma indexed_fun la w e1 e2 : indexed la w e1 → indexed la w e2 → e1 = e2.
Proof. intros H1 H2. destruct H1, H2; try congruence; simplify_eq; congruence. Qed.

Lemma acc_step_fun la w w1 w2 : 0 <= w_type w < btf__type_cnt targ_btf → acc_step la w w1 → acc_step la w w2 → w1 = w2.
Proof.
  intros Hw H1 H2. destruct (skip_ok targ_btf (w_type w) Htarg Hw) as (t0 & tid0 & _ & Hs & _ & _ & Hr & _).
  destruct H1 as [w eid sz Hi Hz|]; destruct H2 as [w eid' sz' Hi' Hz'|]; try (apply indexed_name in Hi; congruence); try (apply indexed_name in Hi'; congruence); simplify_eq.
  - rewrite (indexed_fun _ _ _ _ Hi' Hi) in *. unfold sized in *. by destruct_and?; simplify_eq.
  - match goal with H1 : member_named _ _ _ _ _ _ _, H2 : member_named _ _ _ _ _ _ _ |- _ => destruct (Hunique _ _ Hr _ _ _ _ _ _ _ _ H1 H2) as (-> & -> & -> & ->) end. done.
Qed.

Definition in_range (id : Z) : Prop := 0 <= id < btf__type_cnt targ_btf.

Lemma member_range id i tid off mt name : in_range id → member targ_btf id i tid off mt name → in_range tid ∧ in_range mt.
Proof.
  intros Hid (t & vlen & no & H1 & H2 & H3 & H4 & _ & _ & _ & H8). destruct (skip_ok targ_btf id Htarg Hid) as (t0 & e & r & Hs & Ht & _ & Hr & Hrec).
  rewrite Hs in H1. injection H1 as -> ->. split; [done|]. pose proof (member_closed _ _ _ _ _ _ Htarg Ht H2 H3 H4 H8) as Hc.
  destruct (member_total t r i vlen Hrec H2 H3 H4) as (? & ty & ? & _ & _ & Hty & Hw & _). rewrite Hty in H8. injection H8 as ->. unfold word_ok in Hw. unfold in_range. lia.
Qed.

Lemma named_range lname id raws tid off mt : in_range id → member_named targ_btf lname id raws tid off mt → in_range tid ∧ in_range mt.
Proof.
  intros Hid Hn. induction Hn as [id i tid off mt Hm _|id i tid off mt name raws tid' off' mt' Hm _ _ IH]; [by eapply member_range|].
  apply IH. by eapply member_range.
Qed.

Lemma array_total t r : record_at t r → btf_is_array t = Some true → ∃ elem nelems, array_type t = Some elem ∧ word_ok elem ∧ array_nelems t = Some nelems ∧ word_ok nelems.
Proof.
  intros Hr Ha. destruct (record_info t r Hr) as (info & Hinfo & Hok & Hsz). unfold btf_is_array, is_kind, btf_kind in Ha. rewrite Hinfo, !bind_Some in Ha.
  apply (inj Some), bool_decide_eq_true in Ha. assert (zlen r = 24) as Hl.
  { destruct Hsz as [->|Hsz]; [|rewrite <- Hsz; unfold rec_size; by rewrite Ha]. exfalso.
    assert (t_info VoidType = Some 0) as E0 by (vm_compute; reflexivity). rewrite E0 in Hinfo. injection Hinfo as <-. vm_compute in Ha. discriminate Ha. }
  destruct (record_word t r 3 Hr ltac:(lia) ltac:(lia)) as (e & He & Hew & _), (record_word t r 5 Hr ltac:(lia) ltac:(lia)) as (n & Hn & Hnw & _).
  by exists e, n.
Qed.

Lemma array_closed id t elem : btf__type_by_id targ_btf id = Some (Some t) → btf_is_array t = Some true → array_type t = Some elem → elem < btf__type_cnt targ_btf.
Proof.
  intros Ht Ha He. apply (to_closed _ Htarg id). unfold btf_is_array, is_kind in Ha. destruct (btf_kind t) as [k|] eqn:Hk; [|done]. rewrite bind_Some in Ha.
  apply (inj Some), bool_decide_eq_true in Ha as ->. by exists t, ARRAY.
Qed.

Lemma indexed_range la w eid : in_range (w_type w) → indexed la w eid → in_range eid.
Proof.
  intros Hw H. destruct (skip_ok targ_btf (w_type w) Htarg Hw) as (t0 & tid0 & r0 & Hs & Ht & _ & Hr & Hrec).
  destruct H as [t tid H1 H2 H3|t tid elem nelems t' eid H1 H2 H3 H4 H5 _ _ H6]; rewrite Hs in H3; injection H3 as <- <-; [done|].
  destruct (array_total _ _ Hrec H4) as (e & _ & He & Hew & _). rewrite He in H5. injection H5 as ->. pose proof (array_closed _ _ _ Ht H4 He).
  destruct (skip_ok targ_btf elem Htarg ltac:(unfold word_ok in Hew; lia)) as (t2 & e2 & _ & Hs2 & _ & _ & Hr2 & _). rewrite Hs2 in H6. by injection H6 as <- <-.
Qed.

Lemma acc_step_range la w w' : in_range (w_type w) → acc_step la w w' →
  in_range (w_type w') ∧ ∃ a, w_accs w' = w_accs w ++ [a] ∧ in_range (acc_type_id a).
Proof.
  intros Hw H. destruct (skip_ok targ_btf (w_type w) Htarg Hw) as (t0 & tid0 & r0 & Hs & Ht & _ & Hr & Hrec).
  destruct H as [w eid sz Hi _|w name lt lno lmt lname t tid raws tid' off mt H1 _ _ _ _ H3 Hn _]; cbn [w_type w_accs].
  - split; [|eexists; split; [done|]]; by eapply indexed_range.
  - rewrite Hs in H3. injection H3 as <- <-. destruct (named_range _ _ _ _ _ _ Hr Hn). split; [done|]. by eexists.
Qed.

Definition walk_ok (w : walk) : Prop := in_range (w_type w) ∧ Forall (λ a, in_range (acc_type_id a)) (w_accs w).

Lemma acc_step_ok la w w' : walk_ok w → acc_step la w w' → walk_ok w' ∧ length (w_accs w') = S (length (w_accs w)).
Proof.
  intros [H1 H2] Hstep. destruct (acc_step_range _ _ _ H1 Hstep) as (H3 & a & E & Ha). rewrite E. split; [|rewrite length_app; cbn; lia].
  split; [done|]. rewrite E. apply Forall_app. split; [done|]. by constructor.
Qed.

Lemma root_ok root : in_range root → walk_ok (mkWalk [] [] 0 root).
Proof. intros H. split; [done|constructor]. Qed.

Lemma walks_ok root ls w : in_range root → walks root ls w → walk_ok w ∧ length (w_accs w) = length ls.
Proof.
  intros Hroot. induction 1 as [|ls la w w' _ [IH1 IH2] Hstep]; [split; [by apply root_ok|done]|].
  destruct (acc_step_ok _ _ _ IH1 Hstep). split; [done|]. rewrite length_app. cbn. lia.
Qed.

Lemma walks_stuck root l1 la l2 w : in_range root → walks root l1 w → (∀ w', ¬ acc_step la w w') → ∀ w', ¬ walks root (l1 ++ la :: l2) w'.
Proof.
  intros Hroot. apply (runs_stuck acc_step _ walk_ok); [by apply root_ok|intros; by eapply acc_step_ok|].
  intros a s s1 s2 [Hs _]. by apply acc_step_fun.
Qed.

#[local] Opaque for_loop size_from.
Lemma resolve_size_val id : in_range id → ∃ z, resolve_size targ_btf id = Some z ∧ (if s32 z <? 0 then ∀ sz, sized id sz → sz = 0 else sized id (s32 z)).
Proof.
  intros Hid. unfold resolve_size, btf__resolve_size, sized, size_of. destruct (type_by_id_valid targ_btf id (to_btf _ Htarg) (proj1 Hid)) as (t & -> & Hv & _). rewrite !bind_Some.
  remember (size_from (Z.to_nat MAX_RESOLVE_DEPTH) targ_btf t) as want eqn:Ew.
  destruct (resolve_loop targ_btf t want (to_btf _ Htarg) Hptr Hv (eq_sym Ew)) as (s & -> & Hr & _). rewrite bind_Some.
  exists (finish_size s). split; [reflexivity|]. unfold size_result, UINT32_MAX, E2BIG, EINVAL in Hr. destruct want as [n|].
  2:{ destruct Hr as [-> | ->]; (change (if true then ∀ sz, (None : option Z) = Some sz ∧ sz < 2 ^ 31 → sz = 0 else False); by intros sz [? _]). }
  destruct Hr as [[Hn ->]|[-> Hn]]; [|change (∀ sz, Some n = Some sz ∧ sz < 2 ^ 31 → sz = 0); intros sz [[= <-] Hs]; lia].
  assert (0 <= n) as Hn0 by (exact (size_from_nonneg _ targ_btf t n (to_btf _ Htarg) Hptr Hv (eq_sym Ew))). unfold s32.
  destruct (Z.ltb_spec n (2 ^ 31)).
  - rewrite Z.mod_small, Z.add_simpl_r, (proj2 (Z.ltb_ge n 0)) by lia. done.
  - replace ((n + 2 ^ 31) mod 2 ^ 32) with (n - 2 ^ 31) by (apply (Z.mod_unique _ _ 1); lia). rewrite (proj2 (Z.ltb_lt _ 0)) by lia.
    intros sz [[= <-] ?]. lia.
Qed.
#[local] Transparent for_loop size_from.

Section loop.
Variables (root : Z) (local : list bpf_core_accessor).
Hypothesis Hroot : in_range root.
Hypothesis Hlocal : Forall acc_ok local.

Definition walk_of (sp : bpf_core_spec) (off id : Z) : walk := mkWalk (spec sp) (raw_spec sp) off id.

Definition reached (ls : list bpf_core_accessor) (sp : bpf_core_spec) (id : Z) : Prop :=
  space sp ∧ ∃ off, walks root ls (walk_of sp off id) ∧ bit_offset sp = u32 off.

Definition spec_inv (i : Z) (s : bpf_core_spec * Z * option Z) : Prop :=
  let '(sp, id, ret) := s in ret = None ∧ reached (take (Z.to_nat i) local) sp id.

Definition spec_post (s : bpf_core_spec * Z * option Z) : Prop :=
  let '(sp, id, ret) := s in ∃ r, ret = Some r ∧ (fails_at root local r ∨ r = 0 ∧ ∀ w, ¬ walks root local w).

Definition step_or_stop (i : Z) (c : option (ctl (bpf_core_spec * Z * option Z))) : Prop :=
  ∃ c', c = Some c' ∧ match c' with Next s' => spec_inv (i + 1) s' | Break s' => spec_post s' end.

(** One accessor, on a walk that got so far. *)
Section accessor.
Variables (i : Z) (la : bpf_core_accessor) (sp : bpf_core_spec) (id off tid : Z) (t : type_ptr) (r : list Z).
Hypothesis Hi : 0 <= i < zlen local.
Hypothesis Hla : aget local i = Some la.
Hypothesis Hspace : space sp.
Hypothesis Hwalk : walks root (take (Z.to_nat i) local) (walk_of sp off id).
Hypothesis Hoff : bit_offset sp = u32 off.
Hypothesis Hskip : skip_mods_and_typedefs targ_btf id = Some (t, tid).
Hypothesis Ht : btf__type_by_id targ_btf tid = Some (Some t).
Hypothesis Htid : in_range tid.
Hypothesis Hr : record_at t r.

Lemma stuck : (∀ w', ¬ acc_step la (walk_of sp off id) w') → ∀ w, ¬ walks root local w.
Proof.
  intros Hno w Hw. rewrite aget_to_nat in Hla by lia. rewrite <- (take_drop_middle _ _ _ Hla) in Hw. by apply (walks_stuck _ _ _ _ _ Hroot Hwalk Hno) in Hw.
Qed.

Lemma stop_at sp' id' e : e < 0 ∧ acc_error la (walk_of sp off id) e ∨ e = 0 ∧ (∀ w', ¬ acc_step la (walk_of sp off id) w') →
  step_or_stop i (Some (Break (sp', id', Some e))).
Proof.
  intros H. eexists. split; [done|]. exists e. split; [done|]. destruct H as [[? H]|[? H]]; [left|right; split; [done|]; by apply stuck].
  split; [done|]. exists (take (Z.to_nat i) local), la, (drop (S (Z.to_nat i)) local), (walk_of sp off id). split_and!; [|done|done].
  rewrite aget_to_nat in Hla by lia. by rewrite take_drop_middle.
Qed.

Lemma go_on sp' id' off' : space sp' → bit_offset sp' = u32 off' → acc_step la (walk_of sp off id) (walk_of sp' off' id') → step_or_stop i (Some (Next (sp', id', None))).
Proof.
  intros Hs Ho Hstep. eexists. split; [done|]. split; [done|]. split; [done|]. exists off'. split; [|done].
  replace (Z.to_nat (i + 1)) with (S (Z.to_nat i)) by lia. rewrite aget_to_nat in Hla by lia. rewrite (take_S_r _ _ _ Hla). by eapply runs_snoc.
Qed.

Lemma index_tail eid : acc_ok la → in_range eid → indexed la (walk_of sp off id) eid →
  step_or_stop i (
    if zlen (raw_spec sp) =? BPF_CORE_SPEC_MAX_LEN then Some (Break (sp, eid, Some (- E2BIG))) else
    sp' ← push_acc sp (mkAcc eid (acc_idx la) None);
    sp' ← push_raw sp' (s32 (acc_idx la));
    sz ← resolve_size targ_btf eid;
    let sz := s32 sz in
    if sz <? 0 then Some (Break (sp', eid, Some sz)) else
    Some (Next (add_offset sp' (acc_idx la * sz * 8), eid, None))).
Proof.
  intros _ Heid Hindex. destruct Hspace as [S1 S2 S3]. destruct (Z.eqb_spec (zlen (raw_spec sp)) BPF_CORE_SPEC_MAX_LEN); [apply stop_at; left; split; [done|by apply (err_long _ _ eid)]|].
  unfold push_acc. rewrite (proj2 (Z.ltb_lt (zlen (spec sp)) _)) by lia. cbn [mbind option_bind]. unfold push_raw. cbn [raw_spec spec sp_btf root_type_id sp_kind bit_offset].
  rewrite (proj2 (Z.ltb_lt (zlen (raw_spec sp)) _)) by lia. cbn [mbind option_bind]. destruct (resolve_size_val eid Heid) as (sz & Hres & Hsz). rewrite Hres, bind_Some. cbv zeta.
  destruct (Z.ltb_spec (s32 sz) 0); [apply stop_at; left; split; [done|by apply (err_size _ _ eid)]|]. apply (go_on _ _ (off + acc_idx la * s32 sz * 8)).
  - split; cbn [add_offset raw_spec spec bit_offset]; [apply u32_range|rewrite length_app; cbn; lia|rewrite !length_app; cbn; lia].
  - cbn [add_offset bit_offset]. rewrite Hoff. unfold u32. by rewrite Zplus_mod_idemp_l.
  - by apply (step_index la (walk_of sp off id)).
Qed.

Lemma index_root : acc_name la = None → spec sp = [] → indexed la (walk_of sp off id) tid.
Proof. intros Hn He. by apply (idx_root la (walk_of sp off id) t). Qed.

Lemma spec_length : zlen (spec sp) = i ∧ Forall (λ a, in_range (acc_type_id a)) (spec sp).
Proof. destruct (walks_ok _ _ _ Hroot Hwalk) as ((_ & Hf) & Hl). cbn [walk_of w_accs] in Hl, Hf. rewrite length_take in Hl. split; [lia|done]. Qed.

Lemma flex_total last nelems : in_range (acc_type_id last) → ∃ f, is_flex_arr targ_btf last nelems = Some f.
Proof.
  intros Hr'. unfold is_flex_arr. destruct (acc_name last); [|by eexists]. destruct (0 <? nelems); [by eexists|].
  destruct (btf_type_by_id_ok targ_btf (acc_type_id last) (to_btf _ Htarg) Hr') as (t' & r' & -> & Hrec). cbn [mbind option_bind].
  destruct (vlen_total t' r' Hrec) as (v & -> & _). by eexists.
Qed.

(** An element of an array: the type that is reached, or none. *)
Lemma elem_turn : acc_name la = None → i ≠ 0 → ∃ res,
  (array ← btf_is_array t;
   if negb array then Some (inl 0) else
   elem ← array_type t; nelems ← array_nelems t;
   last ← aget (spec sp) (i - 1);
   flex ← is_flex_arr targ_btf last nelems;
   if negb flex && (nelems <=? acc_idx la) then Some (inl 0) else
   '(_, id) ← skip_mods_and_typedefs targ_btf elem; Some (inr id)) = Some res
  ∧ match res with
    | inl e => e = 0 ∧ ∀ w', ¬ acc_step la (walk_of sp off id) w'
    | inr eid => in_range eid ∧ indexed la (walk_of sp off id) eid
    end.
Proof.
  intros Hn Hi0.
  assert ((∀ eid, ¬ indexed la (walk_of sp off id) eid) → ∀ w', ¬ acc_step la (walk_of sp off id) w') as Hstuck.
  { intros Hno w' Hst. inversion Hst; subst; [by eapply Hno|congruence]. }
  destruct spec_length as [Hl Hf]. assert (spec sp ≠ []) as Hne by (intros E; rewrite E in Hl; cbn in Hl; lia).
  destruct (kind_total t r Hr) as [k Hk]. assert (∃ a, btf_is_array t = Some a) as [a Ha] by (unfold btf_is_array, is_kind; rewrite Hk; by eexists). rewrite Ha. cbn [mbind option_bind].
  destruct a; cbn [negb].
  2:{ eexists. split; [done|]. split; [done|]. apply Hstuck. intros eid Hst. inversion Hst; subst; cbn [walk_of w_accs w_type] in *; congruence. }
  destruct (array_total t r Hr Ha) as (elem & nelems & He & Hew & Hnl & _). rewrite He, Hnl. cbn [mbind option_bind].
  destruct (list_last_aget (spec sp) ltac:(lia)) as (x & Hx & Hlast). rewrite Hl in Hx. rewrite Hx. cbn [mbind option_bind].
  assert (in_range (acc_type_id x)) as Hxr by (rewrite list.Forall_forall in Hf; apply Hf; rewrite aget_to_nat in Hx by lia; by eapply list_elem_of_lookup_2).
  destruct (flex_total x nelems Hxr) as [f Hflex]. rewrite Hflex. cbn [mbind option_bind]. destruct (negb f && (nelems <=? acc_idx la)) eqn:Eb.
  { apply andb_true_iff in Eb as [Ef Eb]. apply Z.leb_le in Eb. eexists. split; [done|]. split; [done|]. apply Hstuck. intros eid Hst. inversion Hst; subst; cbn [walk_of w_accs w_type] in *; simplify_eq.
    match goal with H : in_bounds _ _ _ |- _ => destruct H as [H|(y & Hy & Hfy)] end; [lia|]. rewrite Hlast in Hy. injection Hy as <-. rewrite Hflex in Hfy. by destruct f. }
  pose proof (array_closed _ _ _ Ht Ha He). destruct (skip_ok targ_btf elem Htarg ltac:(unfold word_ok in Hew; lia)) as (t2 & e2 & _ & Hs2 & _ & _ & Hr2 & _).
  rewrite Hs2. cbn [mbind option_bind]. eexists. split; [done|]. split; [done|].
  apply (idx_elem la (walk_of sp off id) t tid elem nelems t2 e2); try done. apply andb_false_iff in Eb as [Ef|Eb].
  - right. exists x. split; [done|]. by destruct f.
  - left. by apply Z.leb_gt in Eb.
Qed.

(** A named member. *)
Lemma member_turn name : acc_ok la → acc_name la = Some name → step_or_stop i (
  '(matched, sp', id') ← bpf_core_match_member 65 local_btf la targ_btf tid sp tid;
  if matched <=? 0 then Some (Break (sp', id', Some matched)) else Some (Next (sp', id', None))).
Proof.
  intros [_ Hacc] Hn. destruct Hacc as (lt & lno & lmt & lname & H1 & H2 & H3 & H4 & Hc); [congruence|].
  destruct (search_ok local_btf targ_btf la lt lno lmt lname Htarg H1 H2 H3 H4 Hc 65 tid sp tid Htid (Hunique lname tid Htid) Hspace) as ([[m sp'] id'] & E & Hp).
  { destruct Hspace. unfold BPF_CORE_SPEC_MAX_LEN. lia. }
  rewrite E. cbn [mbind option_bind].
  assert (∀ w', acc_step la (walk_of sp off id) w' → ∃ raws tid' o mt, member_named targ_btf lname tid raws tid' o mt ∧ compat local_btf targ_btf lmt mt 1) as Hstep.
  { intros w' Hst. inversion Hst as [? ? ? Hix|]; subst; cbn [walk_of w_accs w_type] in *; [apply indexed_name in Hix; congruence|]. simplify_eq. by eexists _, _, _, _. }
  destruct Hp as [(-> & raws & tid' & o & mt & Hm & Hcm & -> & -> & Hsp)|[(-> & Hns)|[(-> & -> & -> & Hno)|(-> & (raws & tid' & o & mt & Hm & Hcm) & _)]]].
  - apply (go_on _ _ (off + o)); [done|cbn [extended bit_offset]; rewrite Hoff; unfold u32; by rewrite Zplus_mod_idemp_l|].
    by apply (step_member la (walk_of sp off id) name lt lno lmt lname t tid raws tid' o mt).
  - apply stop_at. left. split; [done|]. by apply (err_nested _ _ name lt lno lmt lname t tid).
  - apply stop_at. right. split; [done|]. intros w' Hst. destruct (Hstep w' Hst) as (raws & tid' & o & mt & Hm & _). by apply Hno in Hm.
  - apply stop_at. right. split; [done|]. intros w' Hst. destruct (Hstep w' Hst) as (raws1 & tid1 & o1 & mt1 & Hm1 & Hcm1).
    destruct (Hunique lname tid Htid _ _ _ _ _ _ _ _ Hm Hm1) as (_ & _ & _ & ->). unfold compat in *. congruence.
Qed.
End accessor.

Lemma spec_turn i s : 0 <= i < zlen local → spec_inv i s → step_or_stop i (spec_body local_btf targ_btf local i s).
Proof.
  destruct s as [[sp id] ret]. intros Hi (-> & Hs & off & Hw & Ho). destruct (aget_is_Some local i Hi) as [la Hla]. unfold spec_body. rewrite Hla. cbn [mbind option_bind].
  destruct (walks_ok _ _ _ Hroot Hw) as ((Hid & _) & _). cbn [walk_of w_type] in Hid. destruct (skip_ok targ_btf id Htarg Hid) as (t & tid & r & Hskip & Ht & _ & Htid & Hr).
  rewrite Hskip. cbn [mbind option_bind]. assert (acc_ok la) as Hacc by (rewrite list.Forall_forall in Hlocal; apply Hlocal; rewrite aget_to_nat in Hla by lia; by eapply list_elem_of_lookup_2).
  destruct (acc_name la) as [name|] eqn:Hn; [by apply (member_turn i la sp id off tid t Hi Hla Hs Hw Ho Hskip Htid name)|].
  destruct (Z.eqb_spec i 0) as [Hi0|Hi0].
  - cbn [mbind option_bind]. assert (spec sp = []) as He. { rewrite Hi0 in Hw. inversion Hw as [E|ls x ? ? _ _ E]; [done|by destruct ls]. }
    apply (index_tail i la sp id off Hi Hla Hs Hw Ho tid Hacc Htid). by apply (index_root la sp id off tid t Hskip).
  - destruct (elem_turn i la sp id off tid t r Hi Hla Hw Hskip Ht Hr Hn Hi0) as (res & E & Hres). rewrite E. cbn [mbind option_bind]. destruct res as [e|eid].
    + destruct Hres as [-> Hst]. apply (stop_at i la sp id off Hi Hla Hw). by right.
    + destruct Hres as [Heid Hst]. by apply (index_tail i la sp id off Hi Hla Hs Hw Ho eid Hacc Heid).
Qed.
End loop.
End spec.

(** C34: following the path of a field in a target whose types are well formed,
    whose names are unique and whose members can be compared with the local
    ones returns: 1 with the accessors and indices of the walk that has the
    local names and indices, inside of the bounds of arrays, and its offset
    modulo 2^32; 0 only when there is no such walk; or an error, where the walk
    gets to an accessor that fails: -E2BIG when the path is full, or when more
    members without names are nested than it has room for, and the error of
    [btf__resolve_size] when the type that is indexed has no size. *)
Theorem bpf_core_spec_match_walks local targ_btf root :
  core_relo_is_field_based (sp_kind local) = true → types_ok targ_btf → ptr_ok targ_btf → 0 <= root < btf__type_cnt targ_btf →
  (∀ lname id, 0 <= id < btf__type_cnt targ_btf → unique targ_btf lname id) → Forall (acc_ok (sp_btf local) targ_btf) (spec local) →
  ∃ r sp, bpf_core_spec_match local targ_btf root = Some (r, sp) ∧
    (r = 1 ∧ (∃ off id, walks (sp_btf local) targ_btf root (spec local) (mkWalk (spec sp) (raw_spec sp) off id) ∧ bit_offset sp = u32 off)
     ∨ r = 0 ∧ (∀ w, ¬ walks (sp_btf local) targ_btf root (spec local) w)
     ∨ fails_at (sp_btf local) targ_btf root (spec local) r).
Proof.
  intros Hk Ht Hp Hroot Hu Hl. unfold bpf_core_spec_match.
  assert (core_relo_is_type_based (sp_kind local) = false) as -> by (by destruct (sp_kind local)).
  assert (core_relo_is_enumval_based (sp_kind local) = false) as -> by (by destruct (sp_kind local)). rewrite Hk. cbn [negb].
  destruct (for_loop_inv_break (spec_inv (sp_btf local) targ_btf root (spec local)) (spec_post (sp_btf local) targ_btf root (spec local))
    (spec_body (sp_btf local) targ_btf (spec local)) 0 (zlen (spec local)) (empty_spec targ_btf root (sp_kind local), root, None)) as ([[sp id] ret] & E & Hres).
  - apply Nat2Z.is_nonneg.
  - intros i s Hi Hinv. by apply spec_turn.
  - split; [done|]. split; [by split|]. exists 0. split; [apply runs_nil|done].
  - rewrite E. cbn [mbind option_bind]. eexists _, sp. split; [done|]. destruct Hres as [(-> & _ & off & Hw & Ho)|(r & -> & [Hr|[-> Hr]])].
    + left. split; [done|]. exists off, id. rewrite firstn_all2 in Hw by lia. by split.
    + right. right. exact Hr.
    + right. left. by split.
Qed.

(** ** The sample *)

Lemma relo_member id i tid off mt name : 0 <= id < btf__type_cnt relo_btf → member relo_btf id i tid off mt name →
  In (id, i, tid, off, mt, name) [(2, 0, 2, 0, 1, Some [102]); (3, 0, 3, 0, 1, Some [103]); (3, 1, 3, 32, 1, Some [102]);
    (4, 0, 4, 0, 1, Some [104]); (4, 1, 4, 32, 3, Some [])].
Proof.
  intros Hid (t & vlen & no & H1 & H2 & H3 & H4 & H5 & H6 & H7 & H8).
  destruct (relo_ids id Hid) as [->|[->|[->|[->| ->]]]]; vm_compute in H1; injection H1 as <- <-; vm_compute in H2; try discriminate H2;
    vm_compute in H3; injection H3 as <-; (assert (i = 0 ∨ i = 1) as [->| ->] by lia; [|try (exfalso; lia)]);
    vm_compute in H5; injection H5 as <-; vm_compute in H6; injection H6 as <-; vm_compute in H7; injection H7 as <-; vm_compute in H8; injection H8 as <-; cbn; tauto.
Qed.

Ltac relo_cases H := apply relo_member in H; [cbn in H; repeat destruct H as [H|H]; try contradiction; simplify_eq|assumption].

Lemma relo_named lname id raws tid off mt : 0 <= id < btf__type_cnt relo_btf → member_named relo_btf lname id raws tid off mt →
  In (id, lname, raws, tid, off, mt) [(2, [102], [0], 2, 0, 1); (3, [103], [0], 3, 0, 1); (3, [102], [1], 3, 32, 1); (4, [104], [0], 4, 0, 1);
    (4, [103], [1; 0], 3, 32, 1); (4, [102], [1; 1], 3, 64, 1)].
Proof.
  intros Hid Hn. induction Hn as [id i tid off mt Hm Hne|id i tid off mt name raws tid' off' mt' Hm He Hn IH].
  - relo_cases Hm; cbn; tauto.
  - relo_cases Hm; try discriminate He. specialize (IH ltac:(change (btf__type_cnt relo_btf) with 5; lia)). cbn in IH. repeat destruct IH as [IH|IH]; simplify_eq; cbn; tauto.
Qed.

Lemma relo_unique lname id : 0 <= id < btf__type_cnt relo_btf → unique relo_btf lname id.
Proof.
  intros Hid raws tid off mt raws' tid' off' mt' H1 H2. apply relo_named in H1, H2; [|done..]. cbn in H1, H2.
  repeat destruct H1 as [H1|H1]; simplify_eq; repeat destruct H2 as [H2|H2]; simplify_eq; done.
Qed.

Lemma relo_comparable id : 0 <= id < btf__type_cnt relo_btf → is_Some (bpf_core_fields_are_compat relo_btf relo_btf 1 id).
Proof. intros Hid. destruct (relo_ids id Hid) as [->|[->|[->|[->| ->]]]]; vm_compute; by eexists. Qed.

Definition relo_acc : bpf_core_accessor := mkAcc 2 0 (Some [102]).
Definition relo_path : bpf_core_spec := mkSpec relo_btf [mkAcc 2 0 None; relo_acc] 2 FIELD_BYTE_OFFSET [0; 0] 0.

Lemma bpf_core_match_member_spec_witness : ∃ sp,
  bpf_core_match_member 65 relo_btf relo_acc relo_btf 4 (empty_spec relo_btf 4 FIELD_BYTE_OFFSET) 4 = Some (1, sp, 1) ∧ raw_spec sp = [1; 1] ∧ bit_offset sp = 64.
Proof.
  destruct (bpf_core_match_member_spec relo_btf relo_btf relo_acc (TypeAt relo_raw 40) 5 1 [102] 4 (empty_spec relo_btf 4 FIELD_BYTE_OFFSET) 4) as (r & sp & nx & E & _).
  - exact relo_types_ok.
  - vm_compute. reflexivity.
  - vm_compute. reflexivity.
  - vm_compute. reflexivity.
  - vm_compute. reflexivity.
  - exact relo_comparable.
  - change (btf__type_cnt relo_btf) with 5. lia.
  - apply relo_unique. change (btf__type_cnt relo_btf) with 5. lia.
  - by split.
  - rewrite E. vm_compute in E. injection E as <- <- <-. eexists. split; [reflexivity|]. by split.
Defined.

Lemma bpf_core_spec_match_walks_witness : ∃ sp, bpf_core_spec_match relo_path relo_btf 4 = Some (1, sp) ∧ bit_offset sp = 64
  ∧ spec sp = [mkAcc 4 0 None; mkAcc 3 1 (Some [102])].
Proof.
  destruct (bpf_core_spec_match_walks relo_path relo_btf 4) as (r & sp & E & _).
  - reflexivity.
  - exact relo_types_ok.
  - exact relo_ptr_ok.
  - change (btf__type_cnt relo_btf) with 5. lia.
  - exact relo_unique.
  - constructor; [split; [unfold word_ok; cbn; lia|by intros []]|]. constructor; [|constructor]. split; [unfold word_ok; cbn; lia|]. intros _.
    exists (TypeAt relo_raw 40), 5, 1, [102]. do 3 (split; [vm_compute; reflexivity|]). split; [vm_compute; reflexivity|exact relo_comparable].
  - rewrite E. vm_compute in E. injection E as <- <-. eexists. split; [reflexivity|]. by split.
Defined.
