(* ===== verification/ReloParse.v ===== *)
(** * Parsing an access path ([bpf_core_parse_spec])

    The compiler writes a path as numbers with colons between them.  They are
    read back, and then followed in the local types: the function returns the
    walk that the numbers describe, or an error exactly when there is none. *)

From stdpp Require Import gmap.
From S2P Require Import Prelude CString Hashmap Strset StrsetCorrect Bytes Btf BtfBuild BtfRecords BtfCorrect BtfTypes Relo ReloTypes ReloMatch ReloSpec.

(** ** Numbers *)

Fixpoint decimal (fuel : nat) (n : Z) : list Z :=
  match fuel with
  | O => []
  | S fuel => if n <? 10 then [48 + n] else decimal fuel (n / 10) ++ [48 + n mod 10]
  end.

(** The text of a path. *)
Definition access_string (raw : list Z) : list Z :=
  match raw with [] => [] | n :: l => decimal 10 n ++ List.concat (map (λ m, 58 :: decimal 10 m) l) end.

Definition all_digits (s : list Z) : Prop := Forall (λ c, is_digit c = true) s.

Lemma digits_app s1 s2 : all_digits s1 → ∀ a, digits a (s1 ++ s2) = digits (digits a s1) s2.
Proof.
  induction 1 as [|c s1 Hc _ IH]; intros a; [done|]. cbn [app digits]. rewrite Hc. apply IH.
Qed.

Lemma digit_ok n : 0 <= n < 10 → is_digit (48 + n) = true.
Proof. intros H. unfold is_digit. apply andb_true_iff. split; apply Z.leb_le; lia. Qed.

Lemma decimal_ok fuel n : 0 <= n < 10 ^ Z.of_nat fuel → (0 < fuel)%nat → all_digits (decimal fuel n) ∧ decimal fuel n ≠ [] ∧ digits 0 (decimal fuel n) = n.
Proof.
  revert n. induction fuel as [|fuel IH]; intros n Hn Hf; [lia|]. cbn [decimal]. destruct (Z.ltb_spec n 10).
  - split; [constructor; [by apply digit_ok; lia|constructor]|]. split; [done|]. cbn [digits]. rewrite digit_ok by lia. lia.
  - rewrite Nat2Z.inj_succ, Z.pow_succ_r in Hn by lia. destruct fuel as [|fuel]; [cbn in Hn; lia|].
    pose proof (Z.div_mod n 10 ltac:(lia)). pose proof (Z.mod_pos_bound n 10 ltac:(lia)).
    destruct (IH (n / 10)) as (D1 & D2 & D3); [split; [apply Z.div_pos; lia|apply Z.div_lt_upper_bound; lia]|lia|].
    split; [apply Forall_app; split; [done|]; constructor; [by apply digit_ok; lia|constructor]|]. split; [by destruct (decimal (S fuel) (n / 10))|].
    rewrite digits_app, D3 by done. cbn [digits]. rewrite digit_ok by lia. lia.
Qed.

Lemma take_digits_app s rest : all_digits s → match rest with c :: _ => is_digit c = false | [] => True end → take_digits (s ++ rest) = (s, rest).
Proof.
  intros Hs Hr. induction Hs as [|c s Hc _ IH]; cbn [app take_digits].
  - destruct rest as [|c rest]; [done|]. cbn. by rewrite Hr.
  - by rewrite Hc, IH.
Qed.

Lemma digit_plain c : is_digit c = true → is_space c = false ∧ (c =? 45) = false ∧ (c =? 43) = false ∧ (c =? 58) = false.
Proof.
  unfold is_digit. intros [H1%Z.leb_le H2%Z.leb_le]%andb_true_iff. split; [|lia]. unfold is_space.
  repeat first [apply orb_false_iff; split|apply andb_false_iff; right; apply Z.leb_gt; lia|apply Z.eqb_neq; lia].
Qed.

Lemma scan_decimal n rest : 0 <= n < 2 ^ 31 → match rest with c :: _ => c = 58 | [] => True end → scan_int (decimal 10 n ++ rest) = Some (n, rest).
Proof.
  intros Hn Hr. destruct (decimal_ok 10 n) as (Hd & Hne & Hv); [change (10 ^ Z.of_nat 10) with 10000000000; lia|lia|].
  destruct (decimal 10 n) as [|c s] eqn:E; [done|]. pose proof (Forall_inv Hd) as Hc. cbv beta in Hc. destruct (digit_plain c Hc) as (H1 & H2 & H3 & _).
  unfold scan_int. cbn [app skip_spaces]. rewrite H1. cbn [app]. rewrite H2, H3. change (c :: s ++ rest) with ((c :: s) ++ rest).
  rewrite take_digits_app by (done || by destruct rest; [|subst]). rewrite bool_decide_eq_false_2 by done. rewrite Hv. cbv zeta.
  unfold clamp64. rewrite Z.min_r, Z.max_r by lia. by rewrite s32_small by lia.
Qed.

Definition number (n : Z) : Prop := 0 <= n < 2 ^ 31.

Definition colons (l : list Z) : list Z := List.concat (map (λ m, 58 :: decimal 10 m) l).

Lemma colons_head l : match colons l with c :: _ => c = 58 | [] => True end.
Proof. by destruct l. Qed.

Lemma parse_one c s n l raw e :
  number n → (c = 58 ∧ s = decimal 10 n ++ colons l ∨ c :: s = decimal 10 n ++ colons l) → zlen raw < BPF_CORE_SPEC_MAX_LEN →
  parse_body (c :: s, raw, e) = Some (Next (colons l, raw ++ [n], 0)).
Proof.
  intros Hn Hs Hl. unfold parse_body. rewrite bool_decide_eq_false_2 by done.
  assert ((if c =? 58 then s else c :: s) = decimal 10 n ++ colons l) as ->.
  { destruct Hs as [[-> ->]|E]; [done|]. destruct (decimal_ok 10 n) as (Hd & Hne & _); [change (10 ^ Z.of_nat 10) with 10000000000; unfold number in Hn; lia|lia|].
    destruct (decimal 10 n) as [|c' s'] eqn:Ed; [done|]. cbn [app] in E. injection E as -> ->. pose proof (Forall_inv Hd) as Hc. cbv beta in Hc.
    destruct (digit_plain c' Hc) as (_ & _ & _ & ->). done. }
  rewrite scan_decimal by (done || apply colons_head). by rewrite (proj2 (Z.eqb_neq (zlen raw) BPF_CORE_SPEC_MAX_LEN)) by lia.
Qed.

Lemma parse_colons l : ∀ raw fuel, Forall number l → zlen raw + zlen l <= BPF_CORE_SPEC_MAX_LEN → (length l < fuel)%nat →
  while_loop fuel parse_body (colons l, raw, 0) = Some ([], raw ++ l, 0).
Proof.
  induction l as [|n l IH]; intros raw fuel Hl Hlen Hf; (destruct fuel as [|fuel]; [lia|]).
  - rewrite app_nil_r. by apply while_loop_break.
  - inversion Hl; subst. cbn [length] in *. change (colons (n :: l)) with (58 :: decimal 10 n ++ colons l).
    rewrite (while_loop_next _ _ _ (colons l, raw ++ [n], 0)) by (apply parse_one; [done|by left|lia]).
    rewrite IH by (done || rewrite ?length_app; cbn; lia). by rewrite <- app_assoc.
Qed.

Lemma colons_length l : (length l <= length (colons l))%nat.
Proof. induction l as [|n l IH]; [done|]. change (colons (n :: l)) with (58 :: decimal 10 n ++ colons l). cbn. rewrite length_app. lia. Qed.

(** The text of a path is read back. *)
Lemma parse_access_string raw : raw ≠ [] → Forall number raw → zlen raw <= BPF_CORE_SPEC_MAX_LEN → parse_numbers (access_string raw) = Some (inr raw).
Proof.
  intros Hne Hr Hlen. destruct raw as [|n l]; [done|]. inversion Hr as [|? ? Hn Hl]; subst. cbn [length] in Hlen. unfold parse_numbers, access_string. fold (colons l).
  destruct (decimal_ok 10 n) as (Hd & Hnil & _); [change (10 ^ Z.of_nat 10) with 10000000000; unfold number in Hn; lia|lia|].
  pose proof (colons_length l). assert (∃ c s, decimal 10 n ++ colons l = c :: s ∧ (length l < length (c :: s))%nat) as (c & s & E & Hlt).
  { destruct (decimal 10 n) as [|c s]; [done|]. eexists _, _. split; [done|]. cbn. rewrite length_app. lia. }
  rewrite E. rewrite (while_loop_next _ _ _ (colons l, [] ++ [n], 0)) by (apply parse_one; [done|by right|done]).
  rewrite parse_colons by (done || cbn; lia). cbn [mbind option_bind app Z.eqb negb]. done.
Qed.

Lemma access_string_head raw : raw ≠ [] → Forall number raw → ∃ c s, access_string raw = c :: s ∧ c ≠ 58.
Proof.
  intros Hne Hr. destruct raw as [|n l]; [done|]. pose proof (Forall_inv Hr) as Hn. unfold number in Hn. unfold access_string.
  destruct (decimal_ok 10 n) as (Hd & Hnil & _); [change (10 ^ Z.of_nat 10) with 10000000000; lia|lia|]. destruct (decimal 10 n) as [|c s]; [done|].
  exists c. eexists. split; [done|]. pose proof (Forall_inv Hd) as Hc. cbv beta in Hc. destruct (digit_plain c Hc) as (_ & _ & _ & H). by apply Z.eqb_neq.
Qed.

(** ** The walk that numbers describe *)

Section parse.
Variable b : btf.
Hypothesis Hb : types_ok b.
Hypothesis Hp : ptr_ok b.

(** Elements of arrays are inside of them, or the array is flexible. *)
Definition size_at (id sz : Z) : Prop := resolve_size b id = Some sz ∧ 0 <= sz.

Inductive num_step (n : Z) : walk → walk → Prop :=
| num_root w t tid sz :
    w_raws w = [] → skip_mods_and_typedefs b (w_type w) = Some (t, tid) → size_at tid sz →
    num_step n w (mkWalk [mkAcc tid n None] [n] (n * sz * 8) tid)
| num_anon w t tid vlen off mt :
    w_raws w ≠ [] → skip_mods_and_typedefs b (w_type w) = Some (t, tid) → btf_is_composite t = Some true → btf_vlen t = Some vlen → n < vlen →
    btf_member_bit_offset t n = Some off → m_word t n 0 = Some 0 → m_word t n 1 = Some mt →
    num_step n w (mkWalk (w_accs w) (w_raws w ++ [n]) (w_off w + off) mt)
| num_member w t tid vlen off mt no name :
    w_raws w ≠ [] → skip_mods_and_typedefs b (w_type w) = Some (t, tid) → btf_is_composite t = Some true → btf_vlen t = Some vlen → n < vlen →
    btf_member_bit_offset t n = Some off → m_word t n 0 = Some no → no ≠ 0 → name_at b no = Some (Some name) → name ≠ [] → m_word t n 1 = Some mt →
    num_step n w (mkWalk (w_accs w ++ [mkAcc tid n (Some name)]) (w_raws w ++ [n]) (w_off w + off) mt)
| num_elem w t tid elem nelems t' eid sz :
    w_raws w ≠ [] → skip_mods_and_typedefs b (w_type w) = Some (t, tid) → btf_is_composite t = Some false → btf_is_array t = Some true →
    array_type t = Some elem → array_nelems t = Some nelems → skip_mods_and_typedefs b elem = Some (t', eid) →
    in_bounds b (w_accs w) n nelems → size_at eid sz →
    num_step n w (mkWalk (w_accs w ++ [mkAcc eid n None]) (w_raws w ++ [n]) (w_off w + n * sz * 8) eid).

Definition num_walks (root : Z) : list Z → walk → Prop := runs num_step (mkWalk [] [] 0 root).

Lemma size_total id : in_range b id → ∃ sz, resolve_size b id = Some sz.
Proof. intros Hid. destruct (resolve_size_val b Hb Hp id Hid) as (sz & E & _). by exists sz. Qed.

Lemma size_at_fun id s1 s2 : size_at id s1 → size_at id s2 → s1 = s2.
Proof. intros [H1 _] [H2 _]. congruence. Qed.

Lemma num_step_fun n w w1 w2 : num_step n w w1 → num_step n w w2 → w1 = w2.
Proof.
  intros H1 H2. destruct H1; destruct H2; simplify_eq; try done;
    match goal with K1 : size_at _ ?s1, K2 : size_at _ ?s2 |- _ => by rewrite (size_at_fun _ _ _ K1 K2) end.
Qed.

Lemma num_step_ok n w w' : number n → walk_ok b w → num_step n w w' → walk_ok b w'.
Proof.
  intros Hn [Hw Hf] H. destruct (skip_ok b (w_type w) Hb Hw) as (t0 & tid0 & r0 & Hs & Ht & _ & Hr & Hrec).
  assert (∀ t tid vlen mt, skip_mods_and_typedefs b (w_type w) = Some (t, tid) → btf_is_composite t = Some true → btf_vlen t = Some vlen → n < vlen →
    m_word t n 1 = Some mt → in_range b tid ∧ in_range b mt) as Hmem.
  { intros t tid vlen mt E H1 H2 H3 H4. rewrite Hs in E. injection E as <- <-. split; [done|]. unfold number in Hn.
    destruct (member_total t0 r0 n vlen Hrec H1 H2 ltac:(lia)) as (? & ty & ? & _ & _ & Hty & Hwd & _). rewrite Hty in H4. injection H4 as ->.
    pose proof (member_closed b tid0 t0 n vlen mt Hb Ht H1 H2 ltac:(lia) Hty). unfold word_ok in Hwd. unfold in_range. lia. }
  destruct H as [w t tid sz _ Hsk _|w t tid vlen off mt _ Hsk Hc Hv Hlt _ _ Hmt|w t tid vlen off mt no name _ Hsk Hc Hv Hlt _ _ _ _ _ Hmt|w t tid elem nelems t' eid sz _ Hsk _ Ha He _ Hse _ _].
  - rewrite Hs in Hsk. injection Hsk as <- <-. split; [done|]. by constructor.
  - destruct (Hmem _ _ _ _ Hsk Hc Hv Hlt Hmt). by split.
  - destruct (Hmem _ _ _ _ Hsk Hc Hv Hlt Hmt). split; [done|]. apply Forall_app. split; [done|]. by constructor.
  - rewrite Hs in Hsk. injection Hsk as <- <-. destruct (array_total _ _ Hrec Ha) as (e & _ & He' & Hew & _). rewrite He' in He. injection He as ->.
    pose proof (array_closed _ Hb _ _ _ Ht Ha He'). destruct (skip_ok b elem Hb ltac:(unfold word_ok in Hew; lia)) as (t2 & e2 & _ & Hs2 & _ & _ & Hr2 & _).
    rewrite Hs2 in Hse. injection Hse as <- <-. split; [done|]. apply Forall_app. split; [done|]. by constructor.
Qed.

(** The loop behind the first number. *)
Section loop.
Variables (root : Z) (k : bpf_core_relo_kind) (raw : list Z).
Hypothesis Hroot : in_range b root.
Hypothesis Hraw : Forall number raw.
Hypothesis Hlen : zlen raw <= BPF_CORE_SPEC_MAX_LEN.

(** What the loop leaves alone. *)
Definition frame (sp : bpf_core_spec) : Prop := sp_btf sp = b ∧ root_type_id sp = root ∧ sp_kind sp = k ∧ raw_spec sp = raw.

Definition parse_inv (i : Z) (s : bpf_core_spec * Z * option Z) : Prop :=
  let '(sp, id, ret) := s in
  ret = None ∧ frame sp ∧ 0 < zlen (spec sp) <= i
  ∧ ∃ off, num_walks root (take (Z.to_nat i) raw) (mkWalk (spec sp) (take (Z.to_nat i) raw) off id)
      ∧ walk_ok b (mkWalk (spec sp) (take (Z.to_nat i) raw) off id) ∧ bit_offset sp = u32 off.

Definition parse_post (s : bpf_core_spec * Z * option Z) : Prop :=
  let '(sp, id, ret) := s in ∃ err, ret = Some err ∧ err < 0 ∧ ∀ w, ¬ num_walks root raw w.

Definition next_or_fail (i : Z) (c : option (ctl (bpf_core_spec * Z * option Z))) : Prop :=
  ∃ c', c = Some c' ∧ match c' with Next s' => parse_inv (i + 1) s' | Break s' => parse_post s' end.

Section number.
Variables (i n : Z) (sp : bpf_core_spec) (id off : Z).
Hypothesis Hi : 1 <= i < zlen raw.
Hypothesis Hn : aget raw i = Some n.
Hypothesis Hframe : frame sp.
Hypothesis Hsplen : 0 < zlen (spec sp) <= i.
Hypothesis Hwalk : num_walks root (take (Z.to_nat i) raw) (mkWalk (spec sp) (take (Z.to_nat i) raw) off id).
Hypothesis Hok : walk_ok b (mkWalk (spec sp) (take (Z.to_nat i) raw) off id).
Hypothesis Hoff : bit_offset sp = u32 off.

Abbreviation here := (mkWalk (spec sp) (take (Z.to_nat i) raw) off id).

Lemma number_n : number n.
Proof. rewrite aget_to_nat in Hn by lia. by apply (proj1 (Forall_lookup _ _) Hraw (Z.to_nat i)). Qed.

Lemma num_stuck : (∀ w', ¬ num_step n here w') → ∀ w, ¬ num_walks root raw w.
Proof.
  intros Hno w Hw. rewrite aget_to_nat in Hn by lia. rewrite <- (take_drop_middle _ _ _ Hn) in Hw.
  eapply (runs_stuck num_step (mkWalk [] [] 0 root) (λ _, True) I); [done|by intros a s s1 s2 _; apply num_step_fun|exact Hwalk|exact Hno|exact Hw].
Qed.

Lemma fail_at sp' id' e : e < 0 → (∀ w', ¬ num_step n here w') → next_or_fail i (Some (Break (sp', id', Some e))).
Proof. intros He H. eexists. split; [done|]. exists e. split; [done|]. split; [done|]. by apply num_stuck. Qed.

Lemma take_next : take (Z.to_nat (i + 1)) raw = take (Z.to_nat i) raw ++ [n].
Proof. replace (Z.to_nat (i + 1)) with (S (Z.to_nat i)) by lia. rewrite aget_to_nat in Hn by lia. by apply take_S_r. Qed.

Lemma num_next sp' id' off' : frame sp' → zlen (spec sp) <= zlen (spec sp') <= zlen (spec sp) + 1 → bit_offset sp' = u32 off' →
  num_step n here (mkWalk (spec sp') (take (Z.to_nat i) raw ++ [n]) off' id') → next_or_fail i (Some (Next (sp', id', None))).
Proof.
  intros Hr Hl Ho Hstep. eexists. split; [done|]. split; [done|]. split; [done|]. split; [lia|]. exists off'. rewrite take_next.
  split; [by eapply runs_snoc|]. split; [|done]. eapply num_step_ok; [apply number_n|exact Hok|done].
Qed.

Section type.
Variables (t : type_ptr) (tid : Z) (r : list Z).
Hypothesis Hskip : skip_mods_and_typedefs b id = Some (t, tid).
Hypothesis Ht : btf__type_by_id b tid = Some (Some t).
Hypothesis Hr : record_at t r.

Lemma raws_behind : take (Z.to_nat i) raw ≠ [].
Proof. intros E. apply (f_equal length) in E. rewrite length_take in E. cbn in E. lia. Qed.

Lemma push_acc_ok sp' a : zlen (spec sp') = zlen (spec sp) → push_acc sp' a = Some (mkSpec (sp_btf sp') (spec sp' ++ [a]) (root_type_id sp') (sp_kind sp') (raw_spec sp') (bit_offset sp')).
Proof. intros E. unfold push_acc. by rewrite (proj2 (Z.ltb_lt (zlen (spec sp')) BPF_CORE_SPEC_MAX_LEN)) by lia. Qed.

Lemma composite_turn : btf_is_composite t = Some true → next_or_fail i (
  vlen ← btf_vlen t;
  if vlen <=? n then Some (Break (sp, tid, Some (- EINVAL))) else
  off ← btf_member_bit_offset t (u32 n);
  let sp := add_offset sp off in
  name_off ← m_word t n 0;
  m_type ← m_word t n 1;
  if name_off =? 0 then Some (Next (sp, m_type, None)) else
  name ← name_at b name_off;
  if str_is_empty name then Some (Break (sp, tid, Some (- EINVAL))) else
  sp ← push_acc sp (mkAcc tid (u32 n) name);
  Some (Next (sp, m_type, None))).
Proof.
  intros Hc. pose proof number_n as Hnum. unfold number in Hnum. destruct (vlen_total t r Hr) as (vlen & Hv & Hvr). rewrite Hv. cbn [mbind option_bind].
  pose proof raws_behind as Hne. rewrite (u32_small n) by (unfold word_ok; lia). destruct (Z.leb_spec vlen n).
  { apply fail_at; [done|]. intros w' Hst. inversion Hst; subst; cbn [w_type w_raws] in *; simplify_eq; lia. }
  destruct (member_total t r n vlen Hr Hc Hv ltac:(lia)) as (no & mt & o & H1 & Hw & H2 & _ & H3 & _). rewrite H3. cbn [mbind option_bind]. cbv zeta.
  rewrite H1. cbn [mbind option_bind]. rewrite H2. cbn [mbind option_bind].
  assert (bit_offset (add_offset sp o) = u32 (off + o)) as Ho by (cbn [add_offset bit_offset]; rewrite Hoff; unfold u32; by rewrite Zplus_mod_idemp_l).
  destruct (Z.eqb_spec no 0) as [->|Hno].
  { apply (num_next _ _ (off + o)); [done|cbn [add_offset spec]; lia|exact Ho|]. by apply (num_anon n here t tid vlen o mt). }
  destruct (name_total b no (to_btf _ Hb) Hw) as [name Hname]. rewrite Hname. cbn [mbind option_bind]. destruct (str_is_empty name) eqn:He.
  { apply fail_at; [done|]. intros w' Hst. inversion Hst; subst; cbn [w_type w_raws] in *; simplify_eq. match goal with H : ?x ≠ [] |- _ => by destruct x end. }
  rewrite push_acc_ok by done. cbn [mbind option_bind]. destruct name as [name|]; [|done].
  apply (num_next _ _ (off + o)); [done|cbn [add_offset spec]; rewrite length_app; cbn; lia|exact Ho|].
  apply (num_member n here t tid vlen o mt no name); try done. by intros ->.
Qed.

Lemma array_turn : btf_is_composite t = Some false → next_or_fail i (
  array ← btf_is_array t;
  if negb array then Some (Break (sp, tid, Some (- EINVAL))) else
  elem ← array_type t; nelems ← array_nelems t;
  '(_, id) ← skip_mods_and_typedefs b elem;
  last ← list.last (spec sp);
  flex ← is_flex_arr b last nelems;
  if negb flex && (nelems <=? u32 n) then Some (Break (sp, id, Some (- EINVAL))) else
  sp ← push_acc sp (mkAcc id (u32 n) None);
  sz ← resolve_size b id;
  if sz <? 0 then Some (Break (sp, id, Some sz)) else
  Some (Next (add_offset sp (n * sz * 8), id, None))).
Proof.
  intros Hc. pose proof number_n as Hnum. unfold number in Hnum. pose proof raws_behind as Hne. rewrite (u32_small n) by (unfold word_ok; lia).
  destruct (kind_total t r Hr) as [kd Hk]. assert (∃ a, btf_is_array t = Some a) as [a Ha] by (unfold btf_is_array, is_kind; rewrite Hk; by eexists). rewrite Ha. cbn [mbind option_bind].
  destruct a; cbn [negb].
  2:{ apply fail_at; [done|]. intros w' Hst. inversion Hst; subst; cbn [w_type w_raws] in *; congruence. }
  destruct (array_total t r Hr Ha) as (elem & nelems & He & Hew & Hnl & _). rewrite He, Hnl. cbn [mbind option_bind].
  pose proof (array_closed b Hb _ _ _ Ht Ha He). destruct (skip_ok b elem Hb ltac:(unfold word_ok in Hew; lia)) as (t2 & eid & _ & Hs2 & _ & _ & Hr2 & _).
  rewrite Hs2. cbn [mbind option_bind]. destruct (list_last_aget (spec sp) (proj1 Hsplen)) as (x & Hx & Hlast). rewrite Hlast. cbn [mbind option_bind].
  destruct Hok as [_ Hf]. cbn [w_accs] in Hf. assert (in_range b (acc_type_id x)) as Hxr by (rewrite list.Forall_forall in Hf; apply Hf; rewrite aget_to_nat in Hx by lia; by eapply list_elem_of_lookup_2).
  destruct (flex_total b Hb x nelems Hxr) as [f Hflex]. rewrite Hflex. cbn [mbind option_bind]. destruct (negb f && (nelems <=? n)) eqn:Eb.
  { apply andb_true_iff in Eb as [Ef Eb]. apply Z.leb_le in Eb. apply fail_at; [done|]. intros w' Hst. inversion Hst; subst; cbn [w_type w_accs w_raws] in *; simplify_eq.
    match goal with H : in_bounds _ _ _ _ |- _ => destruct H as [H|(y & Hy & Hfy)] end; [lia|]. rewrite Hlast in Hy. injection Hy as <-. rewrite Hflex in Hfy. by destruct f. }
  rewrite push_acc_ok by done. cbn [mbind option_bind]. destruct (size_total eid Hr2) as [sz Hsz]. rewrite Hsz. cbn [mbind option_bind]. destruct (Z.ltb_spec sz 0).
  { apply fail_at; [done|]. intros w' Hst. inversion Hst; subst; cbn [w_type w_accs w_raws] in *; simplify_eq. match goal with H : size_at _ _ |- _ => destruct H as [K1 K2] end. rewrite Hsz in K1. injection K1 as ->. lia. }
  apply (num_next _ _ (off + n * sz * 8)); [done|cbn [add_offset spec]; rewrite length_app; cbn; lia| |].
  - cbn [add_offset bit_offset]. rewrite Hoff. unfold u32. by rewrite Zplus_mod_idemp_l.
  - apply (num_elem n here t tid elem nelems t2 eid sz); try done. apply andb_false_iff in Eb as [Ef|Eb].
    + right. exists x. split; [done|]. by destruct f.
    + left. by apply Z.leb_gt in Eb.
Qed.
End type.
End number.

Lemma num_turn i s : 1 <= i < zlen raw → parse_inv i s → next_or_fail i (walk_body b raw i s).
Proof.
  destruct s as [[sp id] ret]. intros Hi (-> & Hr & Hl & off & Hw & Hok & Ho). destruct (aget_is_Some raw i ltac:(lia)) as [n Hn].
  destruct Hok as [Hid Hf]. cbn [w_type w_accs] in Hid, Hf. destruct (skip_ok b id Hb Hid) as (t & tid & r & Hskip & Ht & _ & Htid & Hrec).
  unfold walk_body. rewrite Hskip. cbn [mbind option_bind]. rewrite Hn. cbn [mbind option_bind]. cbv zeta.
  destruct (composite_total t r Hrec) as [c Hc]. rewrite Hc. cbn [mbind option_bind]. destruct c.
  - by apply (composite_turn i n sp id off Hi Hn Hr Hl Hw (conj Hid Hf) Ho t tid r Hskip Hrec).
  - by apply (array_turn i n sp id off Hi Hn Hr Hl Hw (conj Hid Hf) Ho t tid r Hskip Ht Hrec).
Qed.
End loop.
End parse.

(** C38: parsing the path of a field, in the text the compiler writes for it,
    returns the walk that the numbers describe in the local types: the indices,
    the accessors, which leave out members without names, and the offset modulo
    2^32; it fails exactly when there is no such walk: an index outside of a type
    or of an array, something that has no members, a type without a size. *)
Theorem bpf_core_parse_spec_walks b relo raw :
  types_ok b → ptr_ok b → 0 <= type_id relo < btf__type_cnt b → core_relo_is_field_based (relo_kind relo) = true →
  raw ≠ [] → Forall number raw → zlen raw <= BPF_CORE_SPEC_MAX_LEN → name_at b (access_str_off relo) = Some (Some (access_string raw)) →
  ∃ res, bpf_core_parse_spec b relo = Some res ∧
    match res with
    | inr sp => sp_btf sp = b ∧ root_type_id sp = type_id relo ∧ sp_kind sp = relo_kind relo ∧ raw_spec sp = raw
        ∧ ∃ off id, num_walks b (type_id relo) raw (mkWalk (spec sp) raw off id) ∧ bit_offset sp = u32 off
    | inl err => err < 0 ∧ ∀ w, ¬ num_walks b (type_id relo) raw w
    end.
Proof.
  intros Hb Hp Hroot Hk Hne Hraw Hlen Hstr. unfold bpf_core_parse_spec. rewrite Hstr. cbn [mbind option_bind].
  destruct (access_string_head raw Hne Hraw) as (c & str & E & Hc). rewrite E. rewrite bool_decide_eq_false_2 by (cbn; congruence).
  assert (core_relo_is_type_based (relo_kind relo) = false) as -> by (by destruct (relo_kind relo)).
  rewrite <- E, parse_access_string by done. cbn [mbind option_bind]. cbv zeta.
  destruct (skip_ok b (type_id relo) Hb Hroot) as (t & tid & r & Hskip & Ht & _ & Htid & Hr). rewrite Hskip. cbn [mbind option_bind].
  destruct raw as [|n l] eqn:Er; [done|]. change (aget (n :: l) 0) with (Some n). cbn [mbind option_bind].
  assert (core_relo_is_enumval_based (relo_kind relo) = false) as -> by (by destruct (relo_kind relo)).
  pose proof (Forall_inv Hraw) as Hn. unfold number in Hn. rewrite (u32_small n) by (unfold word_ok; lia).
  unfold push_acc. cbn [with_raw_spec empty_spec spec]. change (zlen [] <? BPF_CORE_SPEC_MAX_LEN) with true. cbn [mbind option_bind]. rewrite Hk. cbn [negb].
  destruct (size_total b Hb Hp tid Htid) as [sz Hsz]. rewrite Hsz. cbn [mbind option_bind]. destruct (Z.ltb_spec sz 0) as [Hneg|Hpos].
  { eexists. split; [done|]. split; [lia|]. intros w Hw. apply (runs_prefix _ _ [n] l) in Hw as [w1 Hw]. apply (runs_last _ _ []) in Hw as (w2 & Hw2 & Hst).
    apply (runs_nil_inv _ _) in Hw2 as ->. inversion Hst; subst; cbn [w_type w_raws] in *; simplify_eq. match goal with H : size_at _ _ _ |- _ => destruct H as [K1 K2] end.
    rewrite Hsz in K1. injection K1 as ->. lia. }
  destruct (for_loop_inv_break (parse_inv b (type_id relo) (relo_kind relo) (n :: l)) (parse_post b (type_id relo) (n :: l)) (walk_body b (n :: l)) 1 (zlen (n :: l))
    (mkSpec b [mkAcc tid n None] (type_id relo) (relo_kind relo) (n :: l) (u32 (n * sz * 8)), tid, None)) as ([[sp id] ret] & Eloop & Hres).
  - cbn [length]. lia.
  - intros i s Hi Hinv. by apply num_turn.
  - split; [done|]. split; [done|]. split; [done|]. exists (n * sz * 8). change (take (Z.to_nat 1) (n :: l)) with [n]. split; [|split; [split; [done|by constructor]|done]].
    apply (runs_snoc _ _ [] n (mkWalk [] [] 0 (type_id relo))); [apply runs_nil|]. by apply (num_root b n (mkWalk [] [] 0 (type_id relo)) t).
  - unfold add_offset. cbn [with_raw_spec empty_spec sp_btf spec root_type_id sp_kind raw_spec bit_offset app]. rewrite Z.add_0_l. rewrite Eloop. cbn [mbind option_bind]. eexists. split; [done|].
    destruct Hres as [(-> & (F1 & F2 & F3 & F4) & _ & off & Hw & _ & Ho)|(err & -> & He & Hno)]; [|by split]. do 4 (split; [done|]).
    rewrite firstn_all2 in Hw by (cbn [length]; lia). by exists off, id.
Qed.

(** The path 0:1:1 of the sample: the second member has no name, the second
    member of that is the field. *)
Lemma bpf_core_parse_spec_walks_witness : ∃ sp, bpf_core_parse_spec relo_btf (mkRelo 0 4 18 FIELD_BYTE_OFFSET) = Some (inr sp)
  ∧ spec sp = [mkAcc 4 0 None; mkAcc 3 1 (Some [102])] ∧ bit_offset sp = 64.
Proof.
  destruct (bpf_core_parse_spec_walks relo_btf (mkRelo 0 4 18 FIELD_BYTE_OFFSET) [0; 1; 1]) as (res & E & _).
  - exact relo_types_ok.
  - exact relo_ptr_ok.
  - change (btf__type_cnt relo_btf) with 5. cbn. lia.
  - reflexivity.
  - discriminate.
  - unfold number. repeat constructor; lia.
  - unfold BPF_CORE_SPEC_MAX_LEN. cbn. lia.
  - vm_compute. reflexivity.
  - rewrite E. vm_compute in E. injection E as <-. eexists. split; [reflexivity|]. by split.
Defined.
