(* ===== verification/ReloInsn.v ===== *)
(** * Values and instructions of CO-RE relocations ([lib/libbpf/src/relo_core.c])

    From the path of a relocation in the local type and in a target: the value
    an instruction is expected to hold and the new one, the choice among several
    targets, and the change of the instruction. *)

From stdpp Require Import gmap.
From S2P Require Import Prelude CString Hashmap Strset Bytes Btf Relo.

(** [struct bpf_core_relo_res]. *)
Record bpf_core_relo_res : Type := mkRes {
  orig_val : Z; new_val : Z; poison : bool; validate : bool; fail_memsz_adjust : bool;
  orig_sz : Z; orig_type_id : Z; new_sz : Z; new_type_id : Z;
}.

(** ** Fields *)

(** What a computation leaves in [*val], [*field_sz], [*type_id] and
    [*validate]. *)
Record calc : Type := mkCalc { c_val : Z; c_sz : Z; c_type_id : Z; c_validate : bool }.

(** The smallest read for a bit field, on [byte_sz], [byte_off] and the error:
    the size is doubled until the read has all bits. *)
Definition bitfield_body (bit_off bit_sz : Z) (s : Z * Z * Z) : option (ctl (Z * Z * Z)) :=
  let '(byte_sz, byte_off, _) := s in
  if negb (u32 (byte_sz * 8) <? u32 (u32 (bit_off + bit_sz) - u32 (byte_off * 8))) then Some (Break s) else
  if 8 <=? byte_sz then Some (Break (byte_sz, byte_off, - E2BIG)) else
  let byte_sz := u32 (byte_sz * 2) in
  Some (Next (byte_sz, u32 (bit_off / 8 / byte_sz * byte_sz), 0)).

(** A type of size 0 divides by zero. *)
Definition bitfield_read (size bit_off bit_sz : Z) : option (Z * Z * Z) :=
  if size =? 0 then None else while_loop 4 (bitfield_body bit_off bit_sz) (size, u32 (bit_off / 8 / size * size), 0).

(** The shifts that take a field out of the 64 bits that were read. *)
Definition lshift_val (bit_off bit_sz byte_off : Z) : Z := u32 (64 - u32 (u32 (bit_off + bit_sz) - u32 (byte_off * 8))).
Definition rshift_val (bit_sz : Z) : Z := u32 (64 - bit_sz).

Definition field_signed (mt : type_ptr) : option Z :=
  e ← btf_is_any_enum mt;
  kflag ← btf_kflag mt;
  if e && kflag then Some 1 else enc ← btf_int_encoding mt; Some (if Z.land enc BTF_INT_SIGNED =? 0 then 0 else 1).

(** An accessor of an array element. *)
Definition calc_array_relo (kind : bpf_core_relo_kind) (sp : bpf_core_spec) (acc : bpf_core_accessor) (c : calc) : option (Z * calc) :=
  match kind with
  | FIELD_BYTE_OFFSET =>
      let c := mkCalc (bit_offset sp / 8) (c_sz c) (c_type_id c) (c_validate c) in
      sz ← resolve_size (sp_btf sp) (acc_type_id acc);
      if sz <? 0 then Some (- EINVAL, c) else Some (0, mkCalc (c_val c) (u32 sz) (acc_type_id acc) true)
  | FIELD_BYTE_SIZE =>
      sz ← resolve_size (sp_btf sp) (acc_type_id acc);
      if sz <? 0 then Some (- EINVAL, c) else Some (0, mkCalc (u64 sz) (c_sz c) (c_type_id c) true)
  | _ => Some (- EINVAL, c)
  end.

(** The kinds on a named field, whose place is known. *)
Definition calc_named_relo (kind : bpf_core_relo_kind) (mt : type_ptr) (field_type_id bit_off bit_sz byte_off byte_sz : Z) (bitfield : bool) (c : calc)
    : option (Z * calc) :=
  let c := mkCalc (c_val c) (c_sz c) (c_type_id c) (negb bitfield) in
  let value v := mkCalc v (c_sz c) (c_type_id c) (c_validate c) in
  match kind with
  | FIELD_BYTE_OFFSET => Some (0, if bitfield then value byte_off else mkCalc byte_off byte_sz field_type_id (c_validate c))
  | FIELD_BYTE_SIZE => Some (0, value byte_sz)
  | FIELD_SIGNED => v ← field_signed mt; Some (0, mkCalc v (c_sz c) (c_type_id c) true)
  | FIELD_LSHIFT_U64 => Some (0, value (lshift_val bit_off bit_sz byte_off))
  | FIELD_RSHIFT_U64 => Some (0, mkCalc (rshift_val bit_sz) (c_sz c) (c_type_id c) true)
  | _ => Some (- EOPNOTSUPP, c)
  end.

(** The path is NULL when there is no target. *)
Definition bpf_core_calc_field_relo (relo : bpf_core_relo) (sp : option bpf_core_spec) (c : calc) : option (Z * calc) :=
  let c := mkCalc (c_val c) 0 (c_type_id c) (c_validate c) in
  match relo_kind relo, sp with
  | FIELD_EXISTS, _ => Some (0, mkCalc (match sp with Some _ => 1 | None => 0 end) 0 (c_type_id c) (c_validate c))
  | _, None => Some (- EUCLEAN, c)
  | kind, Some sp =>
      acc ← list.last (spec sp);
      t ← btf_type_by_id (sp_btf sp) (acc_type_id acc);
      match acc_name acc with
      | None => calc_array_relo kind sp acc c
      | Some _ =>
          m_type ← m_word t (acc_idx acc) 1;
          '(mt, field_type_id) ← skip_mods_and_typedefs (sp_btf sp) m_type;
          bit_sz ← btf_member_bitfield_size t (acc_idx acc);
          let bit_off := bit_offset sp in
          if 0 <? bit_sz then
            size ← t_size mt;
            '(byte_sz, byte_off, err) ← bitfield_read size bit_off bit_sz;
            if negb (err =? 0) then Some (err, c) else
            calc_named_relo kind mt field_type_id bit_off bit_sz byte_off byte_sz true c
          else
            sz ← resolve_size (sp_btf sp) field_type_id;
            if sz <? 0 then Some (- EINVAL, c) else
            let byte_sz := u32 sz in
            calc_named_relo kind mt field_type_id bit_off (u32 (byte_sz * 8)) (bit_off / 8) byte_sz false c
      end
  end.

(** ** Types and enumerators *)

Definition bpf_core_calc_type_relo (relo : bpf_core_relo) (sp : option bpf_core_spec) (c : calc) : option (Z * calc) :=
  let c := mkCalc (c_val c) (c_sz c) (c_type_id c) true in
  let value v := mkCalc v (c_sz c) (c_type_id c) true in
  match sp with
  | None => Some (0, value 0)
  | Some sp =>
      match relo_kind relo with
      | TYPE_ID_TARGET => Some (0, mkCalc (root_type_id sp) (c_sz c) (c_type_id c) false)
      | TYPE_EXISTS | TYPE_MATCHES => Some (0, value 1)
      | TYPE_SIZE =>
          sz ← resolve_size (sp_btf sp) (root_type_id sp);
          if sz <? 0 then Some (- EINVAL, c) else Some (0, value (u64 sz))
      | _ => Some (- EOPNOTSUPP, c)
      end
  end.

Definition bpf_core_calc_enumval_relo (relo : bpf_core_relo) (sp : option bpf_core_spec) (c : calc) : option (Z * calc) :=
  let value v := mkCalc v (c_sz c) (c_type_id c) (c_validate c) in
  match relo_kind relo, sp with
  | ENUMVAL_EXISTS, _ => Some (0, value (match sp with Some _ => 1 | None => 0 end))
  | ENUMVAL_VALUE, None => Some (- EUCLEAN, c)
  | ENUMVAL_VALUE, Some sp =>
      acc ← aget (spec sp) 0;
      t ← btf_type_by_id (sp_btf sp) (acc_type_id acc);
      e ← btf_is_enum t;
      v ← (if e : bool then enum_val t (acc_idx acc) else btf_enum64_value t (acc_idx acc));
      Some (0, value (u64 v))
  | _, _ => Some (- EOPNOTSUPP, c)
  end.

(** ** The result of a relocation *)

(** Whether reads of another size than the local one may be adjusted. *)
Definition adjust_ok (orig_t new_t : type_ptr) : option bool :=
  op ← btf_is_ptr orig_t; np ← btf_is_ptr new_t;
  if op && np then Some true else
  oi ← btf_is_int orig_t; ni ← btf_is_int new_t;
  if negb (oi && ni) then Some false else
  oe ← btf_int_encoding orig_t; ne ← btf_int_encoding new_t;
  Some (negb (oe =? BTF_INT_SIGNED) && negb (ne =? BTF_INT_SIGNED)).

(** The computation on the local path, whose [validate] counts, and on the
    target. *)
Definition calc_both (f : option bpf_core_spec → calc → option (Z * calc)) (local : bpf_core_spec) (targ : option bpf_core_spec)
    : option (Z * calc * calc) :=
  '(err, co) ← f (Some local) (mkCalc 0 0 0 true);
  if negb (err =? 0) then Some (err, co, mkCalc 0 0 0 true) else
  '(err, cn) ← f targ (mkCalc 0 0 0 true);
  Some (err, co, cn).

Definition bpf_core_calc_relo (relo : bpf_core_relo) (local : bpf_core_spec) (targ : option bpf_core_spec) : option (Z * bpf_core_relo_res) :=
  let kind := relo_kind relo in
  '(err, co, cn) ← (if core_relo_is_field_based kind then calc_both (bpf_core_calc_field_relo relo) local targ
                    else if core_relo_is_type_based kind then calc_both (bpf_core_calc_type_relo relo) local targ
                    else if core_relo_is_enumval_based kind then calc_both (bpf_core_calc_enumval_relo relo) local targ
                    else Some (- EOPNOTSUPP, mkCalc 0 0 0 true, mkCalc 0 0 0 true));
  fail ← (if core_relo_is_field_based kind && (err =? 0) && negb (c_sz co =? c_sz cn) then
            targ ← targ;
            orig_t ← btf_type_by_id (sp_btf local) (c_type_id co);
            new_t ← btf_type_by_id (sp_btf targ) (c_type_id cn);
            ok ← adjust_ok orig_t new_t; Some (negb ok)
          else Some false);
  let res poison := mkRes (c_val co) (c_val cn) poison (c_validate co) fail (c_sz co) (c_type_id co) (c_sz cn) (c_type_id cn) in
  Some (if err =? - EUCLEAN then (0, res true) else (err, res false)).

(** The loop over the candidates: how many matched, the list in which those are
    moved to the front, the first result with the offset of its path, and the
    value returned from inside. *)
Definition relo_body (relo : bpf_core_relo) (local : bpf_core_spec) (i : Z)
    (s : Z * list bpf_core_cand * option (bpf_core_relo_res * Z) * option Z)
    : option (ctl (Z * list bpf_core_cand * option (bpf_core_relo_res * Z) * option Z)) :=
  let '(j, cands, first, _) := s in
  '(b, id) ← aget cands i;
  let fail err := Some (Break (j, cands, first, Some err)) in
  '(err, cand_spec) ← bpf_core_spec_match local b id;
  if err <? 0 then fail err else
  if err =? 0 then Some (Next s) else
  '(err, cand_res) ← bpf_core_calc_relo relo local (Some cand_spec);
  if negb (err =? 0) then fail err else
  let keep first := cands ← aset cands j (b, id); Some (Next (j + 1, cands, first, None)) in
  match first with
  | None => keep (Some (cand_res, bit_offset cand_spec))
  | Some (targ_res, targ_off) =>
      if negb (bit_offset cand_spec =? targ_off) then fail (- EINVAL) else
      if negb (Bool.eqb (poison cand_res) (poison targ_res)) || negb (new_val cand_res =? new_val targ_res) then fail (- EINVAL) else
      keep first
  end.

(** The error or 0, the candidates that are left, and the result when there is
    no error. *)
Definition bpf_core_calc_relo_insn (relo : bpf_core_relo) (local_btf : btf) (cands : list bpf_core_cand)
    : option (Z * list bpf_core_cand * option bpf_core_relo_res) :=
  local_t ← btf_type_by_id local_btf (type_id relo);
  name_off ← t_name_off local_t;
  local_name ← name_at local_btf name_off;
  match local_name with
  | None => Some (- EINVAL, cands, None)
  | Some _ =>
      r ← bpf_core_parse_spec local_btf relo;
      match r with
      | inl _ => Some (- EINVAL, cands, None)
      | inr local =>
          match relo_kind relo with
          | TYPE_ID_LOCAL => Some (0, cands, Some (mkRes (root_type_id local) (root_type_id local) false false false 0 0 0 0))
          | _ =>
              if str_is_empty local_name then Some (- EOPNOTSUPP, cands, None) else
              '(j, cands, first, ret) ← for_loop 0 (zlen cands) (relo_body relo local) (0, cands, None, None);
              match ret with
              | Some err => Some (err, cands, None)
              | None =>
                  match first with
                  | Some (res, _) => Some (0, take (Z.to_nat j) cands, Some res)
                  | None =>
                      '(err, res) ← bpf_core_calc_relo relo local None;
                      Some (err, cands, if err =? 0 then Some res else None)
                  end
              end
          end
      end
  end.

(** ** Instructions *)

Record bpf_insn : Type := mkInsn { code : Z; dst_reg : Z; src_reg : Z; off : Z; imm : Z }.

Definition BPF_LD : Z := 0.
Definition BPF_LDX : Z := 1.
Definition BPF_ST : Z := 2.
Definition BPF_STX : Z := 3.
Definition BPF_ALU : Z := 4.
Definition BPF_JMP : Z := 5.
Definition BPF_ALU64 : Z := 7.
Definition BPF_IMM : Z := 0.
Definition BPF_DW : Z := 0x18.
Definition BPF_W : Z := 0.
Definition BPF_H : Z := 8.
Definition BPF_B : Z := 0x10.
Definition BPF_K : Z := 0.
Definition BPF_CALL : Z := 0x80.
Definition SHRT_MAX : Z := 32767.
Definition BPF_CLASS (code : Z) : Z := Z.land code 7.
Definition BPF_SIZE (code : Z) : Z := Z.land code 0x18.
Definition BPF_MODE (code : Z) : Z := Z.land code 0xe0.
Definition BPF_SRC (code : Z) : Z := Z.land code 8.

Definition is_ldimm64_insn (i : bpf_insn) : bool := code i =? Z.lor (Z.lor BPF_LD BPF_IMM) BPF_DW.

Definition poisoned : bpf_insn := mkInsn (Z.lor BPF_JMP BPF_CALL) 0 0 0 195896080.

Definition bpf_core_poison_insn (insns : list bpf_insn) (i : Z) : option (list bpf_insn) := aset insns i poisoned.

Definition poison_at (insns : list bpf_insn) (i : Z) : option (Z * list bpf_insn) :=
  insn ← aget insns i;
  insns ← (if is_ldimm64_insn insn then bpf_core_poison_insn insns (i + 1) else Some insns);
  insns ← bpf_core_poison_insn insns i;
  Some (0, insns).

Definition insn_bpf_size_to_bytes (i : bpf_insn) : Z :=
  let s := BPF_SIZE (code i) in
  if s =? BPF_DW then 8 else if s =? BPF_W then 4 else if s =? BPF_H then 2 else if s =? BPF_B then 1 else -1.

Definition insn_bytes_to_bpf_size (sz : Z) : Z :=
  if sz =? 8 then BPF_DW else if sz =? 4 then BPF_W else if sz =? 2 then BPF_H else if sz =? 1 then BPF_B else -1.

Definition set_imm (i : bpf_insn) (v : Z) : bpf_insn := mkInsn (code i) (dst_reg i) (src_reg i) (off i) v.
Definition set_off (i : bpf_insn) (v : Z) : bpf_insn := mkInsn (code i) (dst_reg i) (src_reg i) v (imm i).
Definition set_code (i : bpf_insn) (v : Z) : bpf_insn := mkInsn v (dst_reg i) (src_reg i) (off i) (imm i).

(** The instruction after the offset was written, or an error. *)
Definition adjust_size (insn : bpf_insn) (res : bpf_core_relo_res) : Z * bpf_insn :=
  if new_sz res =? orig_sz res then (0, insn) else
  if negb (u32 (insn_bpf_size_to_bytes insn) =? orig_sz res) then (- EINVAL, insn) else
  let sz := insn_bytes_to_bpf_size (new_sz res) in
  if sz <? 0 then (- EINVAL, insn) else
  (0, set_code insn (Z.lor (Z.lor (BPF_MODE (code insn)) sz) (BPF_CLASS (code insn)))).

(** The value of the two halves of a load of 64 bits. *)
Definition imm64 (lo hi : bpf_insn) : Z := Z.lor (u32 (imm lo)) (u64 (Z.shiftl (u64 (imm hi)) 32)).

(** The instruction is [insns[i]]; the error or 0, and the instructions. *)
Definition bpf_core_patch_insn (insns : list bpf_insn) (i : Z) (res : bpf_core_relo_res) : option (Z * list bpf_insn) :=
  insn ← aget insns i;
  let class := BPF_CLASS (code insn) in
  if poison res then poison_at insns i else
  if (class =? BPF_ALU) || (class =? BPF_ALU64) then
    if negb (BPF_SRC (code insn) =? BPF_K) then Some (- EINVAL, insns) else
    if validate res && negb (u64 (imm insn) =? orig_val res) then Some (- EINVAL, insns) else
    insns ← aset insns i (set_imm insn (s32 (new_val res))); Some (0, insns)
  else if (class =? BPF_LDX) || (class =? BPF_ST) || (class =? BPF_STX) then
    if validate res && negb (u64 (off insn) =? orig_val res) then Some (- EINVAL, insns) else
    if SHRT_MAX <? new_val res then Some (- ERANGE, insns) else
    if fail_memsz_adjust res then poison_at insns i else
    let '(err, insn) := adjust_size (set_off insn (s16 (new_val res))) res in
    insns ← aset insns i insn; Some (err, insns)
  else if class =? BPF_LD then
    if negb (is_ldimm64_insn insn) || negb (src_reg insn =? 0) || negb (off insn =? 0) then Some (- EINVAL, insns) else
    next ← aget insns (i + 1);
    if negb (code next =? 0) || negb (dst_reg next =? 0) || negb (src_reg next =? 0) || negb (off next =? 0) then Some (- EINVAL, insns) else
    if validate res && negb (imm64 insn next =? orig_val res) then Some (- EINVAL, insns) else
    insns ← aset insns i (set_imm insn (s32 (new_val res)));
    insns ← aset insns (i + 1) (set_imm next (s32 (Z.shiftr (new_val res) 32)));
    Some (0, insns)
  else Some (- EINVAL, insns).
