(* ===== verification/ReloInsnCorrect.v ===== *)
(** * Correctness of the patched instructions

    Every case of a patch: poisoned, refused with nothing written, refused for
    the size of the access, or holding the new value and changed nowhere else. *)

From stdpp Require Import gmap.
From S2P Require Import Prelude CString Hashmap Strset Bytes Btf Relo ReloInsn.

(** ** Patched instructions *)

(** The value an instruction depends on. *)
Definition operand (insns : list bpf_insn) (i : Z) : option Z :=
  insn ← aget insns i;
  let class := BPF_CLASS (code insn) in
  if (class =? BPF_ALU) || (class =? BPF_ALU64) then Some (u64 (imm insn))
  else if (class =? BPF_LDX) || (class =? BPF_ST) || (class =? BPF_STX) then Some (u64 (off insn))
  else if is_ldimm64_insn insn then next ← aget insns (i + 1); Some (imm64 insn next)
  else None.

Definition is_mem (c : Z) : bool := (BPF_CLASS c =? BPF_LDX) || (BPF_CLASS c =? BPF_ST) || (BPF_CLASS c =? BPF_STX).
Definition is_alu (c : Z) : bool := (BPF_CLASS c =? BPF_ALU) || (BPF_CLASS c =? BPF_ALU64).

(** How a value is held: the immediate operand of arithmetic is a signed number
    of 32 bits. *)
Definition held (c v : Z) : Z := if is_alu c then u64 (s32 v) else v.

(** A second slot only when the instruction takes two. *)
Definition slots (insns : list bpf_insn) (i : Z) (insn : bpf_insn) : Prop :=
  aget insns i = Some insn ∧ (is_ldimm64_insn insn = true → ∃ next, aget insns (i + 1) = Some next).

Definition elsewhere (insns insns' : list bpf_insn) (i : Z) (insn : bpf_insn) : Prop :=
  zlen insns' = zlen insns ∧ ∀ j, 0 <= j → j ≠ i → (is_ldimm64_insn insn = false ∨ j ≠ i + 1) → aget insns' j = aget insns j.

Lemma aset_insn (l : list bpf_insn) i x y : aget l i = Some x → ∃ l', aset l i y = Some l' ∧ zlen l' = zlen l ∧ aget l' i = Some y ∧ ∀ j, j ≠ i → aget l' j = aget l j.
Proof.
  intros H. pose proof (aget_range _ _ _ H) as Hr. destruct (aset l i y) as [l'|] eqn:E; [|rewrite aset_eq in E by lia; done].
  exists l'. split; [done|]. split; [by rewrite (aset_length _ _ _ _ E)|]. split; [|intros j Hj]; rewrite (aget_aset _ _ _ _ _ E).
  - by rewrite Z.eqb_refl.
  - by rewrite (proj2 (Z.eqb_neq _ _) Hj).
Qed.

Lemma poison_at_ok insns i insn : slots insns i insn →
  ∃ insns', poison_at insns i = Some (0, insns') ∧ elsewhere insns insns' i insn ∧ aget insns' i = Some poisoned
    ∧ (is_ldimm64_insn insn = true → aget insns' (i + 1) = Some poisoned).
Proof.
  intros [Hi Hn]. unfold poison_at, bpf_core_poison_insn, elsewhere. rewrite Hi. cbn [mbind option_bind]. destruct (is_ldimm64_insn insn) eqn:El.
  - destruct (Hn eq_refl) as [next Hnext]. destruct (aset_insn insns (i + 1) next poisoned Hnext) as (l1 & -> & Z1 & A1 & O1). cbn [mbind option_bind].
    destruct (aset_insn l1 i insn poisoned) as (l2 & -> & Z2 & A2 & O2); [by rewrite O1 by lia|]. cbn [mbind option_bind].
    exists l2. split; [done|]. split_and!; [lia| |done|intros _; by rewrite O2 by lia].
    intros j _ Hj [?|Hj']; [done|]. by rewrite O2, O1.
  - cbn [mbind option_bind]. destruct (aset_insn insns i insn poisoned Hi) as (l2 & -> & Z2 & A2 & O2). cbn [mbind option_bind]. exists l2.
    split; [done|]. split_and!; [lia| |done|done]. intros j _ Hj _. by rewrite O2.
Qed.

(** ** The cases of a patch *)

(** An instruction of the machine. *)
Record insn_ok (i : bpf_insn) : Prop := { ik_code : 0 <= code i < 256; ik_imm : - 2 ^ 31 <= imm i < 2 ^ 31; ik_off : - 2 ^ 15 <= off i < 2 ^ 15 }.

(** The size of the access, which an adjustment has to find and to set. *)
Definition size_adjusted (insn insn' : bpf_insn) (res : bpf_core_relo_res) : Prop :=
  if new_sz res =? orig_sz res then code insn' = code insn
  else u32 (insn_bpf_size_to_bytes insn) = orig_sz res ∧ insn_bpf_size_to_bytes insn' = new_sz res
       ∧ BPF_MODE (code insn') = BPF_MODE (code insn) ∧ BPF_CLASS (code insn') = BPF_CLASS (code insn).

Lemma code_bits c sz : 0 <= c < 256 → In sz [BPF_W; BPF_H; BPF_B; BPF_DW] →
  let c' := Z.lor (Z.lor (BPF_MODE c) sz) (BPF_CLASS c) in
  BPF_MODE c' = BPF_MODE c ∧ BPF_CLASS c' = BPF_CLASS c ∧ BPF_SIZE c' = sz.
Proof.
  intros Hc Hs. cbv zeta. unfold BPF_MODE, BPF_CLASS, BPF_SIZE.
  assert (∀ m, Z.land (Z.lor (Z.lor (Z.land c 0xe0) sz) (Z.land c 7)) m = Z.lor (Z.lor (Z.land c (Z.land 0xe0 m)) (Z.land sz m)) (Z.land c (Z.land 7 m))) as E.
  { intros m. by rewrite !Z.land_lor_distr_l, !Z.land_assoc. }
  rewrite !E. clear E. cbn in Hs.
  destruct Hs as [<-|[<-|[<-|[<-|[]]]]]; cbn; rewrite !Z.land_0_r, ?Z.lor_0_r; done.
Qed.

Lemma code_byte c sz : 0 <= sz < 256 → 0 <= Z.lor (Z.lor (BPF_MODE c) sz) (BPF_CLASS c) < 256.
Proof.
  intros Hs. set (x := Z.lor _ _). assert (x = Z.land x 255) as ->; [|change 255 with (Z.ones 8); rewrite Z.land_ones by lia; apply Z.mod_pos_bound; lia].
  unfold x, BPF_MODE, BPF_CLASS. rewrite !Z.land_lor_distr_l, <- !Z.land_assoc. do 2 f_equal.
  change 255 with (Z.ones 8). rewrite Z.land_ones by lia. symmetry. by apply Z.mod_small.
Qed.

Lemma s32_range x : - 2 ^ 31 <= s32 x < 2 ^ 31.
Proof. unfold s32. pose proof (Z.mod_pos_bound (x + 2 ^ 31) (2 ^ 32) eq_refl). lia. Qed.

Lemma s16_small x : - 2 ^ 15 <= x < 2 ^ 15 → s16 x = x.
Proof. intros H. unfold s16. rewrite Z.mod_small by lia. lia. Qed.

(** The sizes an access can have. *)
Lemma bpf_size_cases sz : insn_bytes_to_bpf_size sz = -1 ∧ ¬ In sz [1; 2; 4; 8]
  ∨ In sz [1; 2; 4; 8] ∧ In (sz, insn_bytes_to_bpf_size sz) [(8, BPF_DW); (4, BPF_W); (2, BPF_H); (1, BPF_B)].
Proof.
  unfold insn_bytes_to_bpf_size.
  destruct (Z.eqb_spec sz 8) as [->|]; [right; cbn; tauto|]. destruct (Z.eqb_spec sz 4) as [->|]; [right; cbn; tauto|].
  destruct (Z.eqb_spec sz 2) as [->|]; [right; cbn; tauto|]. destruct (Z.eqb_spec sz 1) as [->|]; [right; cbn; tauto|]. left. split; [done|cbn; lia].
Qed.

(** The size of the access is not the expected one, or the new one is not the
    size of an access. *)
Definition bad_access (insn : bpf_insn) (res : bpf_core_relo_res) : Prop :=
  new_sz res ≠ orig_sz res ∧ (u32 (insn_bpf_size_to_bytes insn) ≠ orig_sz res ∨ ¬ In (new_sz res) [1; 2; 4; 8]).

Lemma adjust_size_ok insn res : insn_ok insn → ∃ err insn', adjust_size insn res = (err, insn') ∧ insn_ok insn'
  ∧ dst_reg insn' = dst_reg insn ∧ src_reg insn' = src_reg insn ∧ off insn' = off insn ∧ imm insn' = imm insn
  ∧ (err = 0 ∧ ¬ bad_access insn res ∧ size_adjusted insn insn' res ∨ err = - EINVAL ∧ bad_access insn res ∧ insn' = insn).
Proof.
  intros Hok. unfold adjust_size, size_adjusted, bad_access. destruct (Z.eqb_spec (new_sz res) (orig_sz res)) as [Ez|Ez].
  { eexists _, _. split; [done|]. do 5 (split; [done|]). left. split; [done|]. split; [by intros [? _]|done]. }
  destruct (Z.eqb_spec (u32 (insn_bpf_size_to_bytes insn)) (orig_sz res)) as [Eo|Eo]; cbn [negb].
  2:{ eexists _, _. split; [done|]. do 5 (split; [done|]). right. split; [done|]. split; [|done]. split; [done|by left]. }
  destruct (bpf_size_cases (new_sz res)) as [[E Hni]|[Hin Hp]].
  { rewrite E. eexists _, _. split; [done|]. do 5 (split; [done|]). right. split; [done|]. split; [|done]. split; [done|by right]. }
  assert (In (insn_bytes_to_bpf_size (new_sz res)) [BPF_W; BPF_H; BPF_B; BPF_DW]) as Hs by (cbn in Hp |- *; intuition congruence).
  assert (0 <= insn_bytes_to_bpf_size (new_sz res) < 256) as Hb by (cbn in Hs; unfold BPF_W, BPF_H, BPF_B, BPF_DW in Hs; lia).
  destruct (Z.ltb_spec (insn_bytes_to_bpf_size (new_sz res)) 0) as [Hlt|_]; [lia|]. destruct Hok as [Hc Him Hof].
  eexists _, _. split; [done|]. split; [split; unfold set_code; cbn [code imm off]; [by apply code_byte|done|done]|].
  do 4 (split; [done|]). left. split_and!; [done|by intros [_ [?|?]]|done| |by apply code_bits|by apply code_bits].
  unfold insn_bpf_size_to_bytes, set_code. cbn [code]. destruct (code_bits (code insn) _ Hc Hs) as (_ & _ & ->).
  cbn in Hp. destruct Hp as [H|[H|[H|[H|[]]]]]; injection H as <- <-; done.
Qed.

(** The forms of instructions that can be patched. *)
Definition patchable (insns : list bpf_insn) (i : Z) (insn : bpf_insn) : Prop :=
  is_alu (code insn) = true ∧ BPF_SRC (code insn) = BPF_K ∨ is_mem (code insn) = true
  ∨ is_ldimm64_insn insn = true ∧ src_reg insn = 0 ∧ off insn = 0
    ∧ ∃ next, aget insns (i + 1) = Some next ∧ code next = 0 ∧ dst_reg next = 0 ∧ src_reg next = 0 ∧ off next = 0.

(** Why a patch is refused before anything is written, and the error. *)
Inductive refused (insns : list bpf_insn) (i : Z) (insn : bpf_insn) (res : bpf_core_relo_res) : Z → Prop :=
  | refused_form : ¬ patchable insns i insn → refused insns i insn res (- EINVAL)
  | refused_value : validate res = true → operand insns i ≠ Some (orig_val res) → refused insns i insn res (- EINVAL)
  | refused_range : is_mem (code insn) = true → SHRT_MAX < new_val res → refused insns i insn res (- ERANGE).

Definition bad_size (insn : bpf_insn) (res : bpf_core_relo_res) : Prop := is_mem (code insn) = true ∧ bad_access insn res.

(** The size of the access has to change, and the types do not allow it. *)
Definition no_adjust (insn : bpf_insn) (res : bpf_core_relo_res) : Prop := is_mem (code insn) = true ∧ fail_memsz_adjust res = true.

Definition held_poison (insns' : list bpf_insn) (i : Z) (insn : bpf_insn) : Prop :=
  aget insns' i = Some poisoned ∧ (is_ldimm64_insn insn = true → aget insns' (i + 1) = Some poisoned).

(** What a patch that succeeds leaves: an instruction of the machine. *)
Definition patched (insns insns' : list bpf_insn) (i : Z) (insn : bpf_insn) (res : bpf_core_relo_res) : Prop :=
  ∃ insn', aget insns' i = Some insn' ∧ insn_ok insn' ∧ dst_reg insn' = dst_reg insn ∧ src_reg insn' = src_reg insn
    ∧ (if is_mem (code insn) then size_adjusted insn insn' res ∧ imm insn' = imm insn else code insn' = code insn ∧ off insn' = off insn)
    ∧ (is_ldimm64_insn insn = true → ∃ v, aget insns' (i + 1) = Some (mkInsn 0 0 0 0 v) ∧ insn_ok (mkInsn 0 0 0 0 v))
    ∧ (validate res = true → operand insns i = Some (orig_val res)) ∧ operand insns' i = Some (held (code insn) (new_val res)).

Lemma ldimm_class insn : is_ldimm64_insn insn = true → is_alu (code insn) = false ∧ is_mem (code insn) = false ∧ (BPF_CLASS (code insn) =? BPF_LD) = true.
Proof. unfold is_ldimm64_insn. intros ->%Z.eqb_eq. done. Qed.

Lemma class_cases c : is_alu c = true ∧ is_mem c = false ∨ is_alu c = false ∧ is_mem c = true
  ∨ is_alu c = false ∧ is_mem c = false.
Proof.
  unfold is_alu, is_mem. destruct (Z.eqb_spec (BPF_CLASS c) BPF_ALU) as [->|]; [by left|].
  destruct (Z.eqb_spec (BPF_CLASS c) BPF_ALU64) as [->|]; [by left|]. cbn [orb]. right.
  destruct (_ || _); [by left|by right].
Qed.

Lemma u64_small_nonneg x : 0 <= x < 2 ^ 64 → u64 x = x.
Proof. intros H. unfold u64. by rewrite Z.mod_small. Qed.

(** The halves of a number of 64 bits. *)
Lemma imm64_halves lo hi v : 0 <= v < 2 ^ 64 → imm lo = s32 v → imm hi = s32 (Z.shiftr v 32) → imm64 lo hi = v.
Proof.
  intros Hv El Eh. unfold imm64. rewrite El, Eh.
  assert (∀ x, u32 (s32 x) = u32 x) as Hs. { intros x. unfold u32, s32. rewrite Zminus_mod, Zmod_mod, <- Zminus_mod. f_equal. lia. }
  rewrite Hs. assert (u64 (Z.shiftl (u64 (s32 (Z.shiftr v 32))) 32) = Z.shiftl (Z.shiftr v 32) 32) as ->.
  { rewrite !Z.shiftl_mul_pow2 by lia. unfold u64. rewrite Z.shiftr_div_pow2 by lia. set (h := v / 2 ^ 32).
    assert (0 <= h < 2 ^ 32) as Hh by (unfold h; split; [apply Z.div_pos; lia|apply Z.div_lt_upper_bound; lia]).
    rewrite Zmult_mod_idemp_l. unfold s32. destruct (Z.ltb_spec h (2 ^ 31)).
    - rewrite (Z.mod_small (h + 2 ^ 31)) by lia. rewrite Z.mod_small by lia. lia.
    - replace ((h + 2 ^ 31) mod 2 ^ 32) with (h - 2 ^ 31) by (apply (Z.mod_unique _ _ 1); lia).
      symmetry. apply (Z.mod_unique _ _ (-1)); lia. }
  unfold u32. rewrite <- Z.land_ones by lia. apply Z.bits_inj'. intros n Hn. rewrite Z.lor_spec, Z.land_spec, Z.testbit_ones_nonneg by lia.
  destruct (Z.ltb_spec n 32).
  - rewrite Z.shiftl_spec_low by lia. by rewrite andb_true_r, orb_false_r.
  - rewrite Z.shiftl_spec, Z.shiftr_spec by lia. rewrite andb_false_r. cbn [orb]. f_equal. lia.
Qed.

Section patch.
Variables (insns : list bpf_insn) (i : Z) (insn : bpf_insn) (res : bpf_core_relo_res).
Hypothesis Hslots : slots insns i insn.
Hypothesis Hinsn : insn_ok insn.
Hypothesis Hnew : 0 <= new_val res < 2 ^ 64.

Definition patch_outcome (err : Z) (insns' : list bpf_insn) : Prop :=
  elsewhere insns insns' i insn ∧
  (refused insns i insn res err ∧ insns' = insns
   ∨ (∀ e, ¬ refused insns i insn res e) ∧
     (no_adjust insn res ∧ err = 0 ∧ held_poison insns' i insn
      ∨ ¬ no_adjust insn res ∧ bad_size insn res ∧ err = - EINVAL ∧ aget insns' i = Some (set_off insn (new_val res))
      ∨ ¬ no_adjust insn res ∧ ¬ bad_size insn res ∧ err = 0 ∧ patched insns insns' i insn res)).

Lemma elsewhere_refl : elsewhere insns insns i insn.
Proof. by split. Qed.

Lemma operand_eq : operand insns i =
  if is_alu (code insn) then Some (u64 (imm insn)) else if is_mem (code insn) then Some (u64 (off insn))
  else if is_ldimm64_insn insn then next ← aget insns (i + 1); Some (imm64 insn next) else None.
Proof. unfold operand. by rewrite (proj1 Hslots). Qed.

Lemma refuse_ok err : refused insns i insn res err → patch_outcome err insns.
Proof. intros Hr. split; [apply elsewhere_refl|]. by left. Qed.

(** Of an instruction that is not of memory, only its form and its value can be
    refused. *)
Lemma not_refused_other : is_mem (code insn) = false → patchable insns i insn →
  (validate res = true → operand insns i = Some (orig_val res)) → ∀ e, ¬ refused insns i insn res e.
Proof. intros Hm Hp Hv e [?|? ?|? ?]; [done|tauto|congruence]. Qed.

(** The value that is found is the expected one. *)
Lemma value_checked v : operand insns i = Some v →
  if validate res && negb (v =? orig_val res) then refused insns i insn res (- EINVAL) else validate res = true → operand insns i = Some (orig_val res).
Proof.
  intros Hop. destruct (validate res && _) eqn:Ev.
  - apply andb_true_iff in Ev as [Hv Ev]. apply refused_value; [done|]. rewrite Hop. intros [= E]. by rewrite E, Z.eqb_refl in Ev.
  - intros Hv. rewrite Hv in Ev. cbn [andb] in Ev. rewrite Hop. f_equal. by destruct (Z.eqb_spec v (orig_val res)).
Qed.

Lemma not_mem_outcome err insns' : is_mem (code insn) = false → elsewhere insns insns' i insn → patchable insns i insn →
  (validate res = true → operand insns i = Some (orig_val res)) → err = 0 → patched insns insns' i insn res → patch_outcome err insns'.
Proof.
  intros Hm He Hp Hv Herr Hd. split; [done|]. right. split; [by apply not_refused_other|]. do 2 right.
  split_and!; try done; intros [? _]; congruence.
Qed.

Lemma alu_other : is_alu (code insn) = true → is_mem (code insn) = false ∧ is_ldimm64_insn insn = false.
Proof.
  intros Ha. assert (is_mem (code insn) = false) as Hm by (destruct (class_cases (code insn)) as [[]|[[]|[]]]; congruence).
  split; [done|]. destruct (is_ldimm64_insn insn) eqn:E; [destruct (ldimm_class _ E); congruence|done].
Qed.

Lemma patch_alu : is_alu (code insn) = true → ∃ err insns',
  (if negb (BPF_SRC (code insn) =? BPF_K) then Some (- EINVAL, insns) else
    if validate res && negb (u64 (imm insn) =? orig_val res) then Some (- EINVAL, insns) else
    insns ← aset insns i (set_imm insn (s32 (new_val res))); Some (0, insns)) = Some (err, insns') ∧ patch_outcome err insns'.
Proof.
  intros Ha. pose proof operand_eq as Hop. rewrite Ha in Hop. destruct (alu_other Ha) as [Hm Hl].
  destruct (Z.eqb_spec (BPF_SRC (code insn)) BPF_K) as [Ek|Ek]; cbn [negb].
  2:{ eexists _, _. split; [done|]. apply refuse_ok, refused_form. intros [[]|[|[]]]; congruence. }
  pose proof (value_checked _ Hop) as Hv. destruct (validate res && _); [eexists _, _; split; [done|]; by apply refuse_ok|].
  destruct (aset_insn insns i insn (set_imm insn (s32 (new_val res))) (proj1 Hslots)) as (l & -> & Zl & Al & Ol). cbn [mbind option_bind].
  eexists _, _. split; [done|]. apply not_mem_outcome; try done; [split; [done|]; intros j _ Hj _; by apply Ol|by left|].
  exists (set_imm insn (s32 (new_val res))). split; [done|]. rewrite Hm, Hl. destruct Hinsn as [Hc _ Ho]. unfold set_imm. cbn [dst_reg src_reg code off imm]. split_and!; try done.
  - split; cbn [code imm off]; [done|apply s32_range|done].
  - unfold operand. rewrite Al. cbn [mbind option_bind code set_imm imm]. unfold held. rewrite Ha. unfold is_alu in Ha. by rewrite Ha.
Qed.

Lemma mem_other : is_mem (code insn) = true → is_alu (code insn) = false ∧ is_ldimm64_insn insn = false ∧ operand insns i = Some (u64 (off insn)).
Proof.
  intros Hm. assert (is_alu (code insn) = false) as Ha by (destruct (class_cases (code insn)) as [[]|[[]|[]]]; congruence).
  rewrite operand_eq, Ha, Hm. destruct (is_ldimm64_insn insn) eqn:E; [destruct (ldimm_class _ E) as (_ & Hn & _); congruence|done].
Qed.

(** An access that was changed has its class, and its offset is its operand. *)
Lemma mem_patched insns' insn' : is_mem (code insn) = true → aget insns' i = Some insn' → size_adjusted insn insn' res → off insn' = new_val res →
  operand insns' i = Some (held (code insn) (new_val res)).
Proof.
  intros Hm Ai Hs Ho. destruct (mem_other Hm) as (Ha & _ & _). assert (BPF_CLASS (code insn') = BPF_CLASS (code insn)) as Hcl.
  { unfold size_adjusted in Hs. destruct (new_sz res =? orig_sz res); [by rewrite Hs|by destruct Hs as (_ & _ & _ & ?)]. }
  unfold operand. rewrite Ai. cbn [mbind option_bind]. unfold held, is_alu, is_mem in *. rewrite Hcl, Ha, Hm, Ho. f_equal. by apply u64_small_nonneg.
Qed.

Lemma patch_mem : is_mem (code insn) = true → ∃ err insns',
  (if validate res && negb (u64 (off insn) =? orig_val res) then Some (- EINVAL, insns) else
    if SHRT_MAX <? new_val res then Some (- ERANGE, insns) else
    if fail_memsz_adjust res then poison_at insns i else
    let '(err, insn) := adjust_size (set_off insn (s16 (new_val res))) res in
    insns ← aset insns i insn; Some (err, insns)) = Some (err, insns') ∧ patch_outcome err insns'.
Proof.
  intros Hm. destruct (mem_other Hm) as (Ha & Hl & Hop). pose proof (value_checked _ Hop) as Hv.
  destruct (validate res && _); [eexists _, _; split; [done|]; by apply refuse_ok|].
  destruct (Z.ltb_spec SHRT_MAX (new_val res)) as [Hs|Hs]; [eexists _, _; split; [done|]; by apply refuse_ok, refused_range|].
  assert (∀ e, ¬ refused insns i insn res e) as Hnr.
  { intros e [Hp|? ?|? ?]; [|tauto|lia]. apply Hp. right. by left. }
  destruct (fail_memsz_adjust res) eqn:Ef.
  { destruct (poison_at_ok insns i insn Hslots) as (l & -> & He & Ai & An). eexists _, _. split; [done|]. split; [done|]. right. split; [done|]. left. by split_and!. }
  rewrite s16_small by (unfold SHRT_MAX in Hs; lia).
  destruct (adjust_size_ok (set_off insn (new_val res)) res) as (err & insn' & -> & Hok' & Hd & Hsr & Hof & Him & Hres).
  { destruct Hinsn as [Hc Hi Ho]. unfold SHRT_MAX in Hs. split; unfold set_off; cbn [code imm off]; lia. }
  unfold set_off in Hd, Hsr, Hof, Him. cbn [dst_reg src_reg off imm] in *.
  destruct (aset_insn insns i insn insn' (proj1 Hslots)) as (l & -> & Zl & Al & Ol). cbn [mbind option_bind].
  eexists _, _. split; [done|]. split; [split; [done|]; intros j _ Hj _; by apply Ol|]. right. split; [done|]. right.
  assert (¬ no_adjust insn res) as Hna by (intros [_ ?]; congruence).
  destruct Hres as [(-> & Hb & Hsa)|(-> & Hb & ->)]; [right|left; by split_and!].
  split_and!; [done|by intros [_ ?]|done|]. exists insn'. rewrite Hm, Hl. split_and!; try done. by apply (mem_patched _ insn').
Qed.

Lemma patch_ld : is_alu (code insn) = false → is_mem (code insn) = false → ∃ err insns',
  (if BPF_CLASS (code insn) =? BPF_LD then
    if negb (is_ldimm64_insn insn) || negb (src_reg insn =? 0) || negb (off insn =? 0) then Some (- EINVAL, insns) else
    next ← aget insns (i + 1);
    if negb (code next =? 0) || negb (dst_reg next =? 0) || negb (src_reg next =? 0) || negb (off next =? 0) then Some (- EINVAL, insns) else
    if validate res && negb (imm64 insn next =? orig_val res) then Some (- EINVAL, insns) else
    insns ← aset insns i (set_imm insn (s32 (new_val res)));
    insns ← aset insns (i + 1) (set_imm next (s32 (Z.shiftr (new_val res) 32)));
    Some (0, insns)
  else Some (- EINVAL, insns)) = Some (err, insns') ∧ patch_outcome err insns'.
Proof.
  intros Ha Hm. pose proof operand_eq as Hop. rewrite Ha, Hm in Hop. destruct Hslots as [Hi Hn].
  assert (¬ patchable insns i insn → ∃ e l, Some (- EINVAL, insns) = Some (e, l) ∧ patch_outcome e l) as Hbad.
  { intros Hp. eexists _, _. split; [done|]. by apply refuse_ok, refused_form. }
  assert (patchable insns i insn → is_ldimm64_insn insn = true ∧ src_reg insn = 0 ∧ off insn = 0
    ∧ ∃ next, aget insns (i + 1) = Some next ∧ code next = 0 ∧ dst_reg next = 0 ∧ src_reg next = 0 ∧ off next = 0) as Hp.
  { intros [[H _]|[H|H]]; [congruence|congruence|done]. }
  destruct (is_ldimm64_insn insn) eqn:El; cbn [negb orb].
  2:{ destruct (BPF_CLASS (code insn) =? BPF_LD); apply Hbad; intros H; by destruct (Hp H). }
  destruct (ldimm_class _ El) as (_ & _ & ->). destruct (Hn eq_refl) as [next Hnext].
  destruct (Z.eqb_spec (src_reg insn) 0) as [E1|E1]; cbn [negb orb]; [|apply Hbad; intros H; by destruct (Hp H) as (_ & ? & _)].
  destruct (Z.eqb_spec (off insn) 0) as [E2|E2]; cbn [negb]; [|apply Hbad; intros H; by destruct (Hp H) as (_ & _ & ? & _)].
  rewrite Hnext in *. cbn [mbind option_bind] in *. destruct (negb (code next =? 0) || _ || _ || _) eqn:Eb.
  { apply Hbad. intros H. destruct (Hp H) as (_ & _ & _ & next' & [= <-] & C1 & C2 & C3 & C4). by rewrite C1, C2, C3, C4 in Eb. }
  pose proof (value_checked _ Hop) as Hv. destruct (validate res && _); [eexists _, _; split; [done|]; by apply refuse_ok|].
  destruct next as [nc nd ns no ni]. cbn [code dst_reg src_reg off] in Eb. repeat (apply orb_false_iff in Eb as [Eb ?]).
  repeat match goal with H : negb (_ =? 0) = false |- _ => apply negb_false_iff, Z.eqb_eq in H as -> end.
  destruct (aset_insn insns i insn (set_imm insn (s32 (new_val res))) Hi) as (l1 & -> & Z1 & A1 & O1). cbn [mbind option_bind].
  destruct (aset_insn l1 (i + 1) _ (mkInsn 0 0 0 0 (s32 (Z.shiftr (new_val res) 32))) (eq_trans (O1 (i + 1) ltac:(lia)) Hnext)) as (l2 & E3 & Z2 & A2 & O2).
  change (set_imm (mkInsn 0 0 0 0 ni) (s32 (Z.shiftr (new_val res) 32))) with (mkInsn 0 0 0 0 (s32 (Z.shiftr (new_val res) 32))). rewrite E3. cbn [mbind option_bind]. eexists _, _. split; [done|].
  apply not_mem_outcome; try done; [split; [lia|]; intros j _ Hj [?|Hj']; [congruence|by rewrite O2, O1]| |].
  { do 2 right. split_and!; try done. by eexists. }
  exists (set_imm insn (s32 (new_val res))). split; [by rewrite O2 by lia|]. rewrite Hm. destruct Hinsn as [Hc _ Ho]. split_and!; try done.
  - unfold set_imm. split; cbn [code imm off]; [done|apply s32_range|done].
  - intros _. eexists. split; [exact A2|]. split; cbn [code imm off]; [lia|apply s32_range|lia].
  - unfold operand. rewrite (O2 i), A1 by lia. unfold is_ldimm64_insn, set_imm, held, is_alu, is_mem in *. cbn [mbind option_bind code imm]. rewrite Ha, Hm, El, A2.
    cbn [mbind option_bind]. f_equal. by apply imm64_halves.
Qed.
End patch.

(** C36: patching an instruction never faults when its slots are there. When the
    relocation asks for it, it is replaced, with its second slot, by the call of
    an invalid helper. Otherwise it is refused with nothing written exactly when
    its form is not one that can be patched, it does not hold the expected value
    (-EINVAL), or the new value does not fit the offset of an access to memory
    (-ERANGE); else it is poisoned exactly when the size of an access may not be
    adjusted, refused with the offset written exactly when the size is not the
    expected one or not the size of an access, and in all other cases it is an
    instruction of the machine that holds the new value, with the registers and
    the class it had. No other instruction changes. *)
Theorem bpf_core_patch_insn_spec insns i insn res :
  slots insns i insn → insn_ok insn → 0 <= new_val res < 2 ^ 64 →
  ∃ err insns', bpf_core_patch_insn insns i res = Some (err, insns')
    ∧ elsewhere insns insns' i insn
    ∧ if poison res then err = 0 ∧ held_poison insns' i insn
      else refused insns i insn res err ∧ insns' = insns
        ∨ (∀ e, ¬ refused insns i insn res e) ∧
          (no_adjust insn res ∧ err = 0 ∧ held_poison insns' i insn
           ∨ ¬ no_adjust insn res ∧ bad_size insn res ∧ err = - EINVAL ∧ aget insns' i = Some (set_off insn (new_val res))
           ∨ ¬ no_adjust insn res ∧ ¬ bad_size insn res ∧ err = 0 ∧ patched insns insns' i insn res).
Proof.
  intros Hs Hi Hn. unfold bpf_core_patch_insn. rewrite (proj1 Hs). cbn [mbind option_bind]. cbv zeta. destruct (poison res) eqn:Ep.
  { destruct (poison_at_ok insns i insn Hs) as (l & -> & He & Hp). by exists 0, l. }
  fold (is_alu (code insn)). fold (is_mem (code insn)).
  destruct (class_cases (code insn)) as [[Ha Hm]|[[Ha Hm]|[Ha Hm]]]; rewrite Ha; [|rewrite Hm|rewrite Hm].
  - exact (patch_alu insns i insn res Hs Hi Hn Ha).
  - exact (patch_mem insns i insn res Hs Hi Hn Hm).
  - exact (patch_ld insns i insn res Hs Hi Hn Ha Hm).
Qed.

(** A load of a field that moved from offset 8 to 16 and grew from 4 bytes to 8. *)
Lemma bpf_core_patch_insn_spec_witness :
  let insn := mkInsn 0x61 1 2 8 0 in let res := mkRes 8 16 false true false 4 1 8 1 in
  ∃ err insns', bpf_core_patch_insn [insn] 0 res = Some (err, insns') ∧ err = 0 ∧ insns' = [mkInsn 0x79 1 2 16 0].
Proof.
  cbv zeta. destruct (bpf_core_patch_insn_spec [mkInsn 0x61 1 2 8 0] 0 (mkInsn 0x61 1 2 8 0) (mkRes 8 16 false true false 4 1 8 1)) as (err & l & E & _).
  - split; [reflexivity|discriminate].
  - split; cbn; lia.
  - cbn. lia.
  - exists err, l. vm_compute in E. injection E as <- <-. vm_compute. split_and!; reflexivity.
Defined.
