(* ===== verification/ReloBitfield.v ===== *)
(** * Bit fields of CO-RE relocations ([lib/libbpf/src/bpf_core_read.h])

    A program reads a bit field with four relocated numbers: where to read, how
    much, and two shifts.  The macro that does it is modelled here and composed
    with the computation of the numbers in [ReloInsn]: whatever the target has,
    the program gets the bits of the field. *)

From stdpp Require Import gmap.
From S2P Require Import Prelude CString Hashmap Strset Bytes Btf Relo ReloInsn.

(** ** The macro *)

Definition s64 (x : Z) : Z := (x + 2 ^ 63) mod 2 ^ 64 - 2 ^ 63.

(** A number of bytes, lowest first. *)
Fixpoint le_value (l : list Z) : Z :=
  match l with [] => 0 | b :: l => Z.lor b (Z.shiftl (le_value l) 8) end.

(** [__CORE_BITFIELD_PROBE_READ] into a zeroed [val] of 64 bits, of memory that
    is there; a longer read would write past [val]. *)
Definition probe_read (mem : list Z) (byte_off byte_sz : Z) : option Z :=
  if (0 <=? byte_off) && (byte_off + byte_sz <=? zlen mem) && (0 <=? byte_sz) && (byte_sz <=? 8)
  then Some (le_value (take (Z.to_nat byte_sz) (drop (Z.to_nat byte_off) mem))) else None.

(** Shifting by more than 63 is undefined. *)
Definition BPF_CORE_READ_BITFIELD_PROBED (mem : list Z) (byte_off byte_sz lshift rshift sgn : Z) : option Z :=
  val ← probe_read mem byte_off byte_sz;
  if (64 <=? lshift) || (64 <=? rshift) then None else
  let val := u64 (Z.shiftl val lshift) in
  Some (if sgn =? 0 then Z.shiftr val rshift else u64 (Z.shiftr (s64 val) rshift)).

(** ** Bits of memory *)

Definition mem_bit (mem : list Z) (i : Z) : bool :=
  match aget mem (i / 8) with Some b => Z.testbit b (i mod 8) | None => false end.

Lemma le_value_nonneg l : bytes_ok l → 0 <= le_value l.
Proof.
  induction 1 as [|b l Hb _ IH]; cbn [le_value]; [done|]. unfold byte_ok in Hb.
  apply Z.lor_nonneg. split; [lia|]. by apply Z.shiftl_nonneg.
Qed.

Lemma le_value_bit l n : bytes_ok l → 0 <= n → Z.testbit (le_value l) n = mem_bit l n.
Proof.
  intros Hl. revert n. induction Hl as [|b l Hb Hl IH]; intros n Hn.
  { unfold mem_bit. rewrite aget_to_nat by (apply Z.div_pos; lia). apply Z.bits_0. }
  cbn [le_value]. unfold byte_ok in Hb. rewrite Z.lor_spec. unfold mem_bit. destruct (Z.ltb_spec n 8).
  - rewrite Z.shiftl_spec_low by lia. rewrite Z.div_small, Z.mod_small by lia. apply orb_false_r.
  - rewrite (testbit_small 8 b) by lia. rewrite Z.shiftl_spec by lia. rewrite IH by lia. unfold mem_bit. cbn [orb].
    remember (n - 8) as m eqn:Em. replace n with (m + 1 * 8) by lia. rewrite Z.div_add, Z.mod_add by lia.
    assert (0 <= m / 8) as Hd by (apply Z.div_pos; lia).
    rewrite !aget_to_nat by lia. by replace (Z.to_nat (m / 8 + 1)) with (S (Z.to_nat (m / 8))) by lia.
Qed.

Lemma mem_bit_slice mem off sz n : 0 <= off → 0 <= n < sz * 8 →
  mem_bit (take (Z.to_nat sz) (drop (Z.to_nat off) mem)) n = mem_bit mem (off * 8 + n).
Proof.
  intros Ho Hn. unfold mem_bit. replace (off * 8 + n) with (n + off * 8) by lia. rewrite Z.div_add, Z.mod_add by lia.
  assert (0 <= n / 8 < sz) by (split; [apply Z.div_pos; lia|apply Z.div_lt_upper_bound; lia]).
  rewrite !aget_to_nat by lia. rewrite lookup_take_lt by lia. rewrite lookup_drop. by replace (Z.to_nat off + Z.to_nat (n / 8))%nat with (Z.to_nat (n / 8 + off)) by lia.
Qed.

Lemma s64_bit x n : 0 <= x < 2 ^ 64 → 0 <= n → Z.testbit (s64 x) n = Z.testbit x (Z.min n 63).
Proof.
  intros Hx Hn. unfold s64. destruct (Z.ltb_spec x (2 ^ 63)) as [Hl|Hl].
  - rewrite Z.mod_small by lia. replace (x + 2 ^ 63 - 2 ^ 63) with x by lia. destruct (Z.min_spec n 63) as [[? ->]|[? ->]]; [done|].
    by rewrite !(testbit_small 63 x) by lia.
  - replace ((x + 2 ^ 63) mod 2 ^ 64) with (x - 2 ^ 63) by (apply (Z.mod_unique _ _ 1); lia).
    replace (x - 2 ^ 63 - 2 ^ 63) with (x - 2 ^ 64) by lia.
    assert (∀ k, 63 <= k → Z.testbit (x - 2 ^ 64) k = true) as Hhigh.
    { intros k Hk. apply Z.bits_above_log2_neg; [lia|]. apply Z.lt_le_trans with 63; [|lia].
      destruct (Z.eq_dec (Z.pred (- (x - 2 ^ 64))) 0) as [->|]; [done|]. apply Z.log2_lt_pow2; lia. }
    assert (∀ k, 0 <= k < 64 → Z.testbit (x - 2 ^ 64) k = Z.testbit x k) as Hlow.
    { intros k Hk. rewrite <- (Z.mod_pow2_bits_low _ 64) by lia. f_equal. symmetry. apply (Z.mod_unique _ _ (-1)); lia. }
    destruct (Z.min_spec n 63) as [[? ->]|[? ->]]; [apply Hlow; lia|]. rewrite <- Hlow by lia. by rewrite !Hhigh by lia.
Qed.

Lemma u64_bit x n : 0 <= n → Z.testbit (u64 x) n = (n <? 64) && Z.testbit x n.
Proof.
  intros Hn. unfold u64. destruct (Z.ltb_spec n 64); [by rewrite Z.mod_pow2_bits_low by lia|]. by rewrite Z.mod_pow2_bits_high by lia.
Qed.

(** ** The read that was computed *)

Definition covers (bit_off bit_sz byte_sz : Z) : Prop := bit_off + bit_sz <= (bit_off / 8 / byte_sz * byte_sz + byte_sz) * 8.

Section read.
Variables size bit_off bit_sz : Z.
Hypothesis Hsize : 0 < size < 2 ^ 26.
Hypothesis Hoff : 0 <= bit_off.
Hypothesis Hsz : 0 < bit_sz.
Hypothesis Hend : bit_off + bit_sz < 2 ^ 32.

Definition window (w : Z) : Z := bit_off / 8 / w * w.

Lemma window_le w : 0 < w → 0 <= window w ∧ window w * 8 <= bit_off.
Proof.
  intros Hw. unfold window. pose proof (Z.div_pos bit_off 8 Hoff ltac:(lia)). pose proof (Z.div_pos (bit_off / 8) w ltac:(lia) Hw).
  pose proof (Z.mul_div_le (bit_off / 8) w Hw). pose proof (Z.mul_div_le bit_off 8 ltac:(lia)). nia.
Qed.

Definition read_inv (s : Z * Z * Z) : Prop :=
  let '(w, o, e) := s in e = 0 ∧ 0 < w < 2 ^ 27 ∧ o = window w ∧ ∃ k : nat, w = size * 2 ^ Z.of_nat k
    ∧ (∀ j : nat, (j < k)%nat → ¬ covers bit_off bit_sz (size * 2 ^ Z.of_nat j)) ∧ (In size [1; 2; 4; 8] → In w [1; 2; 4; 8]).

Definition read_post (s : Z * Z * Z) : Prop :=
  let '(w, o, e) := s in 0 < w < 2 ^ 27 ∧ o = window w ∧ (∃ k : nat, w = size * 2 ^ Z.of_nat k
    ∧ (∀ j : nat, (j < k)%nat → ¬ covers bit_off bit_sz (size * 2 ^ Z.of_nat j))) ∧ (In size [1; 2; 4; 8] → In w [1; 2; 4; 8])
    ∧ (e = 0 ∧ covers bit_off bit_sz w ∨ e = - E2BIG ∧ 8 <= w ∧ ¬ covers bit_off bit_sz w).

Lemma read_step s : read_inv s → ∃ c, bitfield_body bit_off bit_sz s = Some c ∧
  match c with Next s' => read_inv s' ∧ (Z.to_nat (3 - Z.log2 s'.1.1) < Z.to_nat (3 - Z.log2 s.1.1))%nat | Break s' => read_post s' end.
Proof.
  destruct s as [[w o] e]. intros (-> & Hw & -> & k & Ek & Hk & Hin). destruct (window_le w ltac:(lia)) as [Hw0 Hw8]. unfold bitfield_body, u32.
  rewrite (Z.mod_small (w * 8)), (Z.mod_small (window w * 8)), (Z.mod_small (bit_off + bit_sz)), Z.mod_small by lia.
  destruct (Z.ltb_spec (w * 8) (bit_off + bit_sz - window w * 8)) as [Hlt|Hge]; cbn [negb].
  2:{ eexists. split; [done|]. split_and!; [lia|lia|done|by exists k|done|]. left. split; [done|]. unfold covers. fold (window w). lia. }
  assert (¬ covers bit_off bit_sz w) as Hnc by (unfold covers; fold (window w); lia).
  destruct (Z.leb_spec 8 w) as [H8|H8].
  { eexists. split; [done|]. split_and!; [lia|lia|done|by exists k|done|]. by right. }
  destruct (window_le (w * 2) ltac:(lia)) as [Hv0 Hv8]. rewrite (Z.mod_small (w * 2)) by lia. fold (window (w * 2)). rewrite Z.mod_small by lia.
  eexists. split; [done|]. split.
  - split_and!; [done|lia|lia|done|]. exists (S k). split; [rewrite Nat2Z.inj_succ, Z.pow_succ_r by lia; nia|]. split.
    + intros j Hj. destruct (decide (j = k)) as [->|]; [by rewrite <- Ek|]. apply Hk. lia.
    + intros Hs. specialize (Hin Hs). cbn in Hin |- *. lia.
  - cbn [fst]. replace (w * 2) with (2 * w) by lia. rewrite Z.log2_double by lia.
    assert (Z.log2 w < 3) by (apply Z.log2_lt_pow2; lia). pose proof (Z.log2_nonneg w). lia.
Qed.

Lemma bitfield_read_ok : ∃ s, bitfield_read size bit_off bit_sz = Some s ∧ read_post s.
Proof.
  unfold bitfield_read. destruct (Z.eqb_spec size 0); [lia|]. destruct (window_le size ltac:(lia)) as [Hw0 Hw8]. fold (window size).
  unfold u32. rewrite Z.mod_small by lia.
  apply (while_loop_inv read_inv _ (λ s, Z.to_nat (3 - Z.log2 s.1.1))); [apply read_step| |].
  - split_and!; [done|lia|lia|done|]. exists O. split_and!; [lia|lia|done].
  - cbn [fst]. pose proof (Z.log2_nonneg size). lia.
Qed.
End read.

(** ** The field that is read *)

Section bits.
Variables (mem : list Z) (bit_off bit_sz byte_off byte_sz : Z).
Hypothesis Hmem : bytes_ok mem.
Hypothesis Hw : 0 <= byte_off ∧ 0 < byte_sz <= 8 ∧ byte_off + byte_sz <= zlen mem.
Hypothesis Hfield : byte_off * 8 <= bit_off ∧ 0 < bit_sz ∧ bit_off + bit_sz <= (byte_off + byte_sz) * 8.
Hypothesis Hend : bit_off + bit_sz < 2 ^ 32.

(** The bits of the result: the field, extended by zeros or by its sign. *)
Definition field_bit (sgn n : Z) : bool :=
  if n <? bit_sz then mem_bit mem (bit_off + n) else negb (sgn =? 0) && mem_bit mem (bit_off + bit_sz - 1).

Lemma shifts_eq : lshift_val bit_off bit_sz byte_off = 64 - (bit_off + bit_sz - byte_off * 8) ∧ rshift_val bit_sz = 64 - bit_sz.
Proof.
  unfold lshift_val, rshift_val, u32. rewrite (Z.mod_small (bit_off + bit_sz)), (Z.mod_small (byte_off * 8)) by lia.
  rewrite (Z.mod_small (bit_off + bit_sz - byte_off * 8)), !Z.mod_small by lia. done.
Qed.

Lemma read_bits sgn : ∃ v, BPF_CORE_READ_BITFIELD_PROBED mem byte_off byte_sz (lshift_val bit_off bit_sz byte_off) (rshift_val bit_sz) sgn = Some v
  ∧ 0 <= v < 2 ^ 64 ∧ ∀ n, 0 <= n < 64 → Z.testbit v n = field_bit sgn n.
Proof.
  destruct shifts_eq as [-> ->]. unfold BPF_CORE_READ_BITFIELD_PROBED, probe_read. destruct Hw as (W1 & W2 & W3). destruct Hfield as (F1 & F2 & F3).
  rewrite (proj2 (Z.leb_le 0 byte_off)), (proj2 (Z.leb_le (byte_off + byte_sz) _)), (proj2 (Z.leb_le 0 byte_sz)), (proj2 (Z.leb_le byte_sz 8)) by lia.
  cbn [andb mbind option_bind]. set (L := 64 - (bit_off + bit_sz - byte_off * 8)). set (R := 64 - bit_sz).
  destruct (Z.leb_spec 64 L) as [?|HL]; [lia|]. destruct (Z.leb_spec 64 R) as [?|HR]; [lia|]. cbn [orb]. cbv zeta.
  set (bs := take _ _). assert (bytes_ok bs) as Hbs by (by apply Forall_take, Forall_drop).
  assert (∀ n, L <= n < 64 → Z.testbit (u64 (Z.shiftl (le_value bs) L)) n = mem_bit mem (byte_off * 8 + (n - L))) as Hval.
  { intros n Hn. rewrite u64_bit by lia. rewrite (proj2 (Z.ltb_lt n 64)) by lia. rewrite Z.shiftl_spec, le_value_bit by (done || lia).
    apply mem_bit_slice; lia. }
  pose proof (u64_range (Z.shiftl (le_value bs) L)) as Hr. set (val := u64 _) in *. eexists. split; [done|]. unfold field_bit.
  destruct (Z.eqb_spec sgn 0) as [->|Hs]; cbn [negb andb]; (split; [first [apply u64_range|apply shiftr_ok; lia]|]); intros n Hn.
  - rewrite Z.shiftr_spec by lia. destruct (Z.ltb_spec n bit_sz); [|apply (testbit_small 64); lia]. rewrite Hval by lia. f_equal. lia.
  - rewrite u64_bit by lia. rewrite (proj2 (Z.ltb_lt n 64)) by lia. cbn [andb]. rewrite Z.shiftr_spec, s64_bit by lia.
    destruct (Z.ltb_spec n bit_sz).
    + rewrite Z.min_l, Hval by lia. f_equal. lia.
    + rewrite Z.min_r, Hval by lia. f_equal. lia.
Qed.
End bits.

(** The path ends at a bit field of [bit_sz] bits, of a type of [size] bytes
    whose signedness is [sgn]. *)
Definition bitfield_at (sp : bpf_core_spec) (size bit_sz sgn : Z) : Prop :=
  ∃ acc name t m_type mt fid, list.last (spec sp) = Some acc ∧ acc_name acc = Some name ∧ btf_type_by_id (sp_btf sp) (acc_type_id acc) = Some t
    ∧ m_word t (acc_idx acc) 1 = Some m_type ∧ skip_mods_and_typedefs (sp_btf sp) m_type = Some (mt, fid)
    ∧ btf_member_bitfield_size t (acc_idx acc) = Some bit_sz ∧ t_size mt = Some size ∧ field_signed mt = Some sgn.

(** A relocation of the field computes [v]. *)
Definition computes (sp : bpf_core_spec) (k : bpf_core_relo_kind) (v : Z) : Prop :=
  ∀ io id acc c, ∃ c', bpf_core_calc_field_relo (mkRelo io id acc k) (Some sp) c = Some (0, c') ∧ c_val c' = v.

Lemma bitfield_computes sp size bit_sz sgn w o :
  bitfield_at sp size bit_sz sgn → 0 < bit_sz → bitfield_read size (bit_offset sp) bit_sz = Some (w, o, 0) →
  computes sp FIELD_BYTE_OFFSET o ∧ computes sp FIELD_BYTE_SIZE w ∧ computes sp FIELD_LSHIFT_U64 (lshift_val (bit_offset sp) bit_sz o)
  ∧ computes sp FIELD_RSHIFT_U64 (rshift_val bit_sz) ∧ computes sp FIELD_SIGNED sgn.
Proof.
  intros (acc & name & t & m_type & mt & fid & E1 & E2 & E3 & E4 & E5 & E6 & E7 & E8) Hsz Hr.
  split_and!; intros io id ac c; unfold bpf_core_calc_field_relo; cbn [relo_kind]; rewrite E1; cbn [mbind option_bind]; rewrite E3; cbn [mbind option_bind];
    rewrite E2, E4; cbn [mbind option_bind]; rewrite E5; cbn [mbind option_bind]; rewrite E6; cbn [mbind option_bind];
    rewrite (proj2 (Z.ltb_lt 0 bit_sz)) by lia; rewrite E7; cbn [mbind option_bind]; rewrite Hr; cbn [mbind option_bind Z.eqb negb];
    unfold calc_named_relo; rewrite ?E8; cbn [mbind option_bind]; by eexists.
Qed.

Lemma bitfield_refused sp size bit_sz sgn w o :
  bitfield_at sp size bit_sz sgn → 0 < bit_sz → bitfield_read size (bit_offset sp) bit_sz = Some (w, o, - E2BIG) →
  ∀ k io id acc c, core_relo_is_field_based k = true → k ≠ FIELD_EXISTS →
    ∃ c', bpf_core_calc_field_relo (mkRelo io id acc k) (Some sp) c = Some (- E2BIG, c').
Proof.
  intros (acc & name & t & m_type & mt & fid & E1 & E2 & E3 & E4 & E5 & E6 & E7 & E8) Hsz Hr k io id ac c Hk Hne.
  eexists. unfold bpf_core_calc_field_relo. cbn [relo_kind]. rewrite E1. cbn [mbind option_bind]. rewrite E3. cbn [mbind option_bind].
  rewrite E2, E4. cbn [mbind option_bind]. rewrite E5. cbn [mbind option_bind]. rewrite E6. cbn [mbind option_bind].
  rewrite (proj2 (Z.ltb_lt 0 bit_sz)) by lia. rewrite E7. cbn [mbind option_bind]. rewrite Hr. cbn [mbind option_bind].
  change (negb (- E2BIG =? 0)) with true. cbn iota. by destruct k.
Qed.

(** C37: the relocations of a bit field compute the smallest aligned window of
    the size of its type, doubled up to eight bytes, that has all its bits, and
    two shifts with which the macro gets from any memory of the target exactly
    the bits of the field, extended by zeros or by its sign; when no such window
    exists all of them fail with the same error. *)
Theorem bitfield_relo_reads_field sp size bit_sz sgn :
  bitfield_at sp size bit_sz sgn → 0 < size < 2 ^ 26 → 0 <= bit_offset sp → 0 < bit_sz → bit_offset sp + bit_sz < 2 ^ 32 →
  ∃ (k : nat) byte_sz, byte_sz = size * 2 ^ Z.of_nat k ∧ (In size [1; 2; 4; 8] → In byte_sz [1; 2; 4; 8])
    ∧ (∀ j : nat, (j < k)%nat → ¬ covers (bit_offset sp) bit_sz (size * 2 ^ Z.of_nat j))
    ∧ let byte_off := bit_offset sp / 8 / byte_sz * byte_sz in
      (covers (bit_offset sp) bit_sz byte_sz
       ∧ (∃ lshift rshift, computes sp FIELD_BYTE_OFFSET byte_off ∧ computes sp FIELD_BYTE_SIZE byte_sz ∧ computes sp FIELD_LSHIFT_U64 lshift
          ∧ computes sp FIELD_RSHIFT_U64 rshift ∧ computes sp FIELD_SIGNED sgn
          ∧ ∀ mem, bytes_ok mem → byte_sz <= 8 → byte_off + byte_sz <= zlen mem →
            ∃ v, BPF_CORE_READ_BITFIELD_PROBED mem byte_off byte_sz lshift rshift sgn = Some v ∧ 0 <= v < 2 ^ 64
              ∧ ∀ n, 0 <= n < 64 → Z.testbit v n = field_bit mem (bit_offset sp) bit_sz sgn n))
       ∨ 8 <= byte_sz ∧ ¬ covers (bit_offset sp) bit_sz byte_sz
         ∧ ∀ kind io id acc c, core_relo_is_field_based kind = true → kind ≠ FIELD_EXISTS →
           ∃ c', bpf_core_calc_field_relo (mkRelo io id acc kind) (Some sp) c = Some (- E2BIG, c').
Proof.
  intros Hat Hsize Hoff Hsz Hend.
  destruct (bitfield_read_ok size (bit_offset sp) bit_sz Hsize Hoff Hsz Hend) as ([[w o] e] & Er & Hw & -> & (k & Ek & Hk) & Hin & Hres).
  exists k, w. split; [done|]. split; [done|]. split; [done|]. cbv zeta. destruct Hres as [[-> Hc]|(-> & H8 & Hc)].
  - left. split; [done|]. destruct (bitfield_computes _ _ _ _ _ _ Hat Hsz Er) as (C1 & C2 & C3 & C4 & C5). eexists _, _. do 5 (split; [done|]).
    intros mem Hm H8 Hlen. destruct (window_le (bit_offset sp) Hoff w ltac:(lia)). unfold window in *. apply read_bits; [done|lia|unfold covers in Hc; lia|done].
  - right. split; [done|]. split; [done|]. exact (bitfield_refused _ _ _ _ _ _ Hat Hsz Er).
Qed.

(** [struct S { int f : 5; }] with the field at bit 30: it is in two words, so
    that eight bytes are read. *)
Definition bitfield_raw : list Z :=
  [159; 235; 1; 0; 24; 0; 0; 0; 0; 0; 0; 0; 40; 0; 0; 0; 40; 0; 0; 0; 7; 0; 0; 0; 1; 0; 0; 0; 0; 0; 0; 1; 4; 0; 0; 0; 32; 0; 0; 1;
   3; 0; 0; 0; 1; 0; 0; 132; 8; 0; 0; 0; 5; 0; 0; 0; 1; 0; 0; 0; 30; 0; 0; 5; 0; 105; 0; 83; 0; 102; 0].

Definition bitfield_btf : btf :=
  mkBtf (mkHdr 60319 1 0 24 0 40 40 7) [] (Contiguous bitfield_raw 24 64) [0; 16; 0; 0; 0; 0; 0; 0; 0; 0; 0; 0; 0; 0; 0; 0] 16 2
    None 1 0 71 None false false 0.

Example bitfield_btf_new : btf_new (λ _, true) true true bitfield_raw (zlen bitfield_raw) None = Some (inr bitfield_btf).
Proof. vm_compute. reflexivity. Qed.

Definition bitfield_spec : bpf_core_spec :=
  mkSpec bitfield_btf [mkAcc 2 0 None; mkAcc 2 0 (Some [102])] 2 FIELD_BYTE_OFFSET [0; 0] 30.

Lemma bitfield_at_sample : bitfield_at bitfield_spec 4 5 1.
Proof.
  exists (mkAcc 2 0 (Some [102])), [102], (TypeAt bitfield_raw 40), 1, (TypeAt bitfield_raw 24), 1. repeat split; vm_compute; reflexivity.
Defined.

Lemma bitfield_relo_reads_field_witness : ∃ lshift rshift,
  computes bitfield_spec FIELD_BYTE_SIZE 8 ∧ computes bitfield_spec FIELD_LSHIFT_U64 lshift ∧ computes bitfield_spec FIELD_RSHIFT_U64 rshift
  ∧ ∃ v, BPF_CORE_READ_BITFIELD_PROBED [0; 0; 0; 64; 6; 0; 0; 0] 0 8 lshift rshift 1 = Some v
    ∧ ∀ n, 0 <= n < 64 → Z.testbit v n = field_bit [0; 0; 0; 64; 6; 0; 0; 0] 30 5 1 n.
Proof.
  destruct (bitfield_relo_reads_field bitfield_spec 4 5 1 bitfield_at_sample) as (k & w & Ew & Hin & _ & H); [lia|cbn; lia|lia|cbn; lia|].
  specialize (Hin ltac:(cbn; auto)). cbn in Hin. unfold covers in H. cbn [bitfield_spec bit_offset] in H.
  destruct Hin as [<-|[<-|[<-|[<-|[]]]]]; [pose proof (Z.pow_pos_nonneg 2 (Z.of_nat k)); lia..|destruct H as [[H _]|[H _]]; [by vm_compute in H|lia]|].
  destruct H as [(_ & l & r & _ & C2 & C3 & C4 & _ & H)|(_ & H & _)]; [|by destruct H].
  exists l, r. do 3 (split; [done|]). destruct (H [0; 0; 0; 64; 6; 0; 0; 0]) as (v & Ev & _ & Hv); [by apply bytes_ok_dec|lia|done|]. by exists v.
Defined.
