(* ===== verification/ReloTargets.v ===== *)
(** * The choice among targets ([bpf_core_calc_relo_insn])

    Several types of the kernel may stand for a local one.  The candidates that
    match are moved to the front of the list while it is read; all of them have
    to give the same answer. *)

From stdpp Require Import gmap.
From S2P Require Import Prelude CString Hashmap Strset Bytes Btf Relo ReloInsn ReloBitfield.

Section targets.
Variables (relo : bpf_core_relo) (local : bpf_core_spec).

(** What a candidate says: an error, that it does not match, or a result with
    the offset of the field. *)
Definition verdict (c : bpf_core_cand) : option (Z + option (bpf_core_relo_res * Z)) :=
  '(err, sp) ← bpf_core_spec_match local c.1 c.2;
  if err <? 0 then Some (inl err) else if err =? 0 then Some (inr None) else
  '(err, res) ← bpf_core_calc_relo relo local (Some sp);
  Some (if negb (err =? 0) then inl err else inr (Some (res, bit_offset sp))).

Definition result (c : bpf_core_cand) : option (bpf_core_relo_res * Z) :=
  match verdict c with Some (inr r) => r | _ => None end.

Definition matching (c : bpf_core_cand) : bool := match result c with Some _ => true | None => false end.

Definition agrees (x y : bpf_core_relo_res * Z) : Prop := y.2 = x.2 ∧ poison y.1 = poison x.1 ∧ new_val y.1 = new_val x.1.

(** Candidates without an error whose results agree with the first one. *)
Definition agreed (cands : list bpf_core_cand) : Prop :=
  Forall (λ c, ∃ r, verdict c = Some (inr r)) cands ∧ ∀ x y, head (omap result cands) = Some x → y ∈ omap result cands → agrees x y.

(** The first candidate that cannot be accepted. *)
Definition rejected (cands : list bpf_core_cand) (err : Z) : Prop :=
  ∃ before c after, cands = before ++ c :: after ∧ agreed before ∧
    (verdict c = Some (inl err) ∨ err = - EINVAL ∧ ∃ x y, head (omap result before) = Some x ∧ verdict c = Some (inr (Some y)) ∧ ¬ agrees x y).

Lemma verdict_error c err : verdict c = Some (inl err) → err ≠ 0.
Proof.
  unfold verdict. destruct (bpf_core_spec_match _ _ _) as [[e sp]|]; [|done]. cbn [mbind option_bind].
  destruct (Z.ltb_spec e 0); [intros [= <-]; lia|]. destruct (e =? 0); [done|].
  destruct (bpf_core_calc_relo _ _ _) as [[e' res]|]; [|done]. cbn [mbind option_bind]. destruct (Z.eqb_spec e' 0); [done|]. cbn [negb]. by intros [= <-].
Qed.

(** One turn in terms of the verdict. *)
Lemma relo_body_verdict i s b id v : aget s.1.1.2 i = Some (b, id) → verdict (b, id) = Some v →
  relo_body relo local i s =
  let '(j, cands, first, _) := s in
  match v with
  | inl err => Some (Break (j, cands, first, Some err))
  | inr None => Some (Next s)
  | inr (Some (res, off)) =>
      if match first with None => true | Some (r, o) => (off =? o) && (Bool.eqb (poison res) (poison r) && (new_val res =? new_val r)) end
      then cands ← aset (A:=bpf_core_cand) cands j (b, id); Some (Next (j + 1, cands, match first with None => Some (res, off) | _ => first end, None))
      else Some (Break (j, cands, first, Some (- EINVAL)))
  end.
Proof.
  destruct s as [[[j cands] first] ret]. cbn [fst snd]. intros Hc. unfold verdict, relo_body. cbn [fst snd]. unfold bpf_core_cand in *. rewrite Hc. cbn [mbind option_bind].
  destruct (bpf_core_spec_match local b id) as [[e sp]|]; [|done]. cbn [mbind option_bind].
  destruct (e <? 0); [by intros [= <-]|]. destruct (e =? 0); [by intros [= <-]|].
  destruct (bpf_core_calc_relo relo local (Some sp)) as [[e' res]|]; [|done]. cbn [mbind option_bind].
  destruct (negb (e' =? 0)); [by intros [= <-]|]. intros [= <-]. destruct first as [[r o]|]; [|done].
  destruct (bit_offset sp =? o); cbn [negb andb]; [|done]. destruct (Bool.eqb _ _); cbn [negb andb orb]; [|done]. by destruct (new_val res =? new_val r).
Qed.

Section loop.
Variable cands : list bpf_core_cand.
Hypothesis answered : Forall (λ c, is_Some (verdict c)) cands.

Definition before (i : Z) : list bpf_core_cand := take (Z.to_nat i) cands.

(** After [i] candidates the kept ones are in front, the others not yet seen are
    where they were. *)
Definition targets_inv (i : Z) (s : Z * list bpf_core_cand * option (bpf_core_relo_res * Z) * option Z) : Prop :=
  let '(j, l, first, ret) := s in
  ret = None ∧ agreed (before i) ∧ first = head (omap result (before i)) ∧ take (Z.to_nat j) l = List.filter matching (before i)
  ∧ j = zlen (List.filter matching (before i)) ∧ drop (Z.to_nat i) l = drop (Z.to_nat i) cands ∧ length l = length cands
  ∧ (j = 0 → l = cands).

Definition targets_post (s : Z * list bpf_core_cand * option (bpf_core_relo_res * Z) * option Z) : Prop :=
  let '(j, l, first, ret) := s in ∃ err, ret = Some err ∧ rejected cands err.

Lemma before_step i c : aget cands i = Some c → before (i + 1) = before i ++ [c] ∧ cands = before i ++ c :: drop (Z.to_nat (i + 1)) cands.
Proof.
  intros H. pose proof (aget_range _ _ _ H). rewrite aget_to_nat in H by lia. unfold before. replace (Z.to_nat (i + 1)) with (S (Z.to_nat i)) by lia.
  split; [by apply take_S_r|]. by rewrite <- (drop_S _ _ _ H), take_drop.
Qed.

Lemma filter_before_le i : 0 <= i → zlen (List.filter matching (before i)) <= i.
Proof.
  intros Hi. pose proof (List.filter_length_le matching (before i)) as H. unfold before in *. rewrite length_take in H. lia.
Qed.

Lemma omap_result_one c r : verdict c = Some (inr r) → omap result [c] = match r with Some y => [y] | None => [] end.
Proof. intros Hc. cbn. unfold result. rewrite Hc. by destruct r. Qed.

Lemma agreed_snoc l c r : agreed l → verdict c = Some (inr r) →
  (match r with Some y => ∀ x, head (omap result l) = Some x → agrees x y | None => True end) → agreed (l ++ [c]).
Proof.
  intros [Hf Ha] Hc Hr. split; [apply Forall_app; split; [done|]; constructor; [by exists r|done]|].
  rewrite omap_app. intros x y Hx Hy. apply elem_of_app in Hy.
  rewrite (omap_result_one c r Hc) in *. destruct (omap result l) as [|x0 rest] eqn:El; cbn in Hx; destruct r as [y0|].
  - injection Hx as <-. destruct Hy as [Hy|Hy]; [by apply elem_of_nil in Hy|]. apply list_elem_of_singleton in Hy as ->. done.
  - done.
  - injection Hx as <-. destruct Hy as [Hy|Hy]; [by apply Ha|]. apply list_elem_of_singleton in Hy as ->. by apply Hr.
  - injection Hx as <-. destruct Hy as [Hy|Hy]; [by apply Ha|by apply elem_of_nil in Hy].
Qed.

Lemma agree_check (x y : bpf_core_relo_res * Z) :
  (y.2 =? x.2) && (Bool.eqb (poison y.1) (poison x.1) && (new_val y.1 =? new_val x.1)) = true ↔ agrees x y.
Proof. unfold agrees. rewrite !andb_true_iff, !Z.eqb_eq, Bool.eqb_true_iff. done. Qed.

Lemma targets_step i s : 0 <= i < zlen cands → targets_inv i s → ∃ c, relo_body relo local i s = Some c ∧
  match c with Next s' => targets_inv (i + 1) s' | Break s' => targets_post s' end.
Proof.
  destruct s as [[[j l] first] ret]. intros Hi (-> & Ha & -> & Ht & -> & Hd & Hl & Hnone). destruct (aget_is_Some cands i Hi) as [c Hc].
  destruct (before_step i c Hc) as [Hb Hsplit]. destruct (proj1 (Forall_lookup _ _) answered (Z.to_nat i) c) as [v Hv]; [by rewrite <- aget_to_nat by lia|].
  pose proof (filter_before_le i ltac:(lia)) as Hj. set (j := zlen (List.filter matching (before i))) in *. assert (0 <= j) by apply Nat2Z.is_nonneg. assert (Z.to_nat j < length l)%nat as Hjl by lia.
  assert (aget l i = Some c) as Hlc. { rewrite aget_to_nat in * by lia. rewrite <- Hc, <- (Nat.add_0_r (Z.to_nat i)), <- !lookup_drop. by rewrite Hd. }
  destruct c as [b id]. rewrite (relo_body_verdict i (j, l, head (omap result (before i)), None) b id v Hlc Hv).
  assert (∀ l', drop (Z.to_nat i) l' = drop (Z.to_nat i) cands → drop (Z.to_nat (i + 1)) l' = drop (Z.to_nat (i + 1)) cands) as Hdrop.
  { intros l' Hl'. replace (Z.to_nat (i + 1)) with (Z.to_nat i + 1)%nat by lia. by rewrite <- !drop_drop, Hl'. }
  assert (List.filter matching (before (i + 1)) = List.filter matching (before i) ++ (if matching (b, id) then [(b, id)] else [])) as Hf
    by (rewrite Hb, List.filter_app; cbn; by destruct (matching (b, id))).
  destruct v as [err|[[res o]|]].
  - eexists. split; [done|]. exists err. split; [done|]. exists (before i), (b, id), (drop (Z.to_nat (i + 1)) cands). split; [done|]. split; [done|by left].
  - destruct (match head _ with None => true | _ => _ end) eqn:E.
    + assert (matching (b, id) = true) as Hm by (unfold matching, result; by rewrite Hv). rewrite Hm in Hf.
      rewrite aset_eq by lia. cbn [mbind option_bind]. eexists. split; [done|]. split_and!; [done| | | | | |by rewrite length_insert|lia].
      * rewrite Hb. apply (agreed_snoc _ _ (Some (res, o))); [done|done|]. intros x Hx. rewrite Hx in E. apply agree_check. by destruct x.
      * rewrite Hb, omap_app, (omap_result_one _ _ Hv). by destruct (omap result (before i)).
      * rewrite Hf. replace (Z.to_nat (j + 1)) with (S (Z.to_nat j)) by lia. rewrite (take_S_r _ _ (b, id)) by (by apply list_lookup_insert_eq).
        f_equal. rewrite take_insert_ge by lia. exact Ht.
      * rewrite Hf, length_app. cbn. unfold j. lia.
      * rewrite drop_insert_lt by lia. by apply Hdrop.
    + destruct (head (omap result (before i))) as [[r o']|] eqn:Eh; [|done]. eexists. split; [done|]. exists (- EINVAL). split; [done|].
      exists (before i), (b, id), (drop (Z.to_nat (i + 1)) cands). split; [done|]. split; [done|]. right. split; [done|].
      exists (r, o'), (res, o). split_and!; [done|done|]. intros Hag. apply agree_check in Hag. cbn [fst snd] in Hag. by rewrite E in Hag.
  - eexists. split; [done|]. assert (matching (b, id) = false) as Hm by (unfold matching, result; by rewrite Hv).
    rewrite Hm, app_nil_r in Hf. split_and!; [done| | | |by rewrite Hf|by apply Hdrop|done|done].
    + rewrite Hb. by apply (agreed_snoc _ _ None).
    + by rewrite Hb, omap_app, (omap_result_one _ _ Hv), app_nil_r.
    + by rewrite Hf.
Qed.

Lemma targets_loop : ∃ s, for_loop 0 (zlen cands) (relo_body relo local) (0, cands, None, None) = Some s ∧ (targets_inv (zlen cands) s ∨ targets_post s).
Proof.
  apply (for_loop_inv_break targets_inv); [apply Nat2Z.is_nonneg|apply targets_step|]. unfold targets_inv, before. cbn.
  split_and!; done.
Qed.

Lemma filter_matching_nil l : omap result l = [] → List.filter matching l = [].
Proof.
  induction l as [|c l IH]; [done|]. cbn. unfold matching. destruct (result c); [done|]. exact IH.
Qed.
End loop.
End targets.

(** The relocation has a path in the local types, and needs a target. *)
Definition local_path (relo : bpf_core_relo) (b : btf) (local : bpf_core_spec) : Prop :=
  ∃ t name_off c name, btf_type_by_id b (type_id relo) = Some t ∧ t_name_off t = Some name_off ∧ name_at b name_off = Some (Some (c :: name))
    ∧ bpf_core_parse_spec b relo = Some (inr local) ∧ relo_kind relo ≠ TYPE_ID_LOCAL.

Definition targets_outcome (relo : bpf_core_relo) (local : bpf_core_spec) (cands : list bpf_core_cand) (err : Z) (cands' : list bpf_core_cand)
    (res : option bpf_core_relo_res) : Prop :=
  agreed relo local cands ∧ err = 0 ∧ (∃ x, head (omap (result relo local) cands) = Some x ∧ res = Some x.1)
    ∧ cands' = List.filter (matching relo local) cands
  ∨ agreed relo local cands ∧ omap (result relo local) cands = [] ∧ cands' = cands
    ∧ (∃ r, bpf_core_calc_relo relo local None = Some (err, r) ∧ res = if err =? 0 then Some r else None)
  ∨ rejected relo local cands err ∧ err ≠ 0 ∧ res = None.

(** C35: with several targets, a relocation succeeds exactly when no candidate is
    in error and all that match give the same value, offset and verdict; it
    then leaves those candidates, in their order, and the common result.  When
    none matches the candidates stay and the result is that of a missing
    target.  Otherwise the first candidate in error or in disagreement decides
    the error. *)
Theorem bpf_core_calc_relo_insn_spec relo b local cands :
  local_path relo b local → Forall (λ c, is_Some (verdict relo local c)) cands → is_Some (bpf_core_calc_relo relo local None) →
  ∃ err cands' res, bpf_core_calc_relo_insn relo b cands = Some (err, cands', res)
    ∧ targets_outcome relo local cands err cands' res.
Proof.
  intros (t & off & c & name & E1 & E2 & E3 & E4 & Hk) Hv [[err0 r0] Hnone]. unfold bpf_core_calc_relo_insn.
  rewrite E1. cbn [mbind option_bind]. rewrite E2. cbn [mbind option_bind]. rewrite E3. cbn [mbind option_bind]. rewrite E4. cbn [mbind option_bind str_is_empty].
  match goal with |- context [match relo_kind relo with TYPE_ID_TARGET => ?X | _ => _ end] =>
    cut (∃ err cands' res, X = Some (err, cands', res) ∧ targets_outcome relo local cands err cands' res); [by destruct (relo_kind relo)|] end.
  destruct (targets_loop relo local cands Hv) as ([[[j l] first] ret] & E & Hs). rewrite E. cbn [mbind option_bind].
  destruct Hs as [(-> & Ha & -> & Ht & Hj & _ & _ & Hl)|(err & -> & Hr)].
  - unfold before in *. rewrite (firstn_all2 cands) in * by lia. destruct (head (omap (result relo local) cands)) as [[x o]|] eqn:Eh.
    + eexists _, _, _. split; [done|]. left. split; [done|]. split; [done|]. split; [by eexists|done].
    + assert (omap (result relo local) cands = []) as En by (by destruct (omap (result relo local) cands)).
      rewrite Hnone. cbn [mbind option_bind]. eexists _, _, _. split; [done|]. right. left. split; [done|]. split; [done|]. split; [|by exists r0].
      apply Hl. by rewrite Hj, filter_matching_nil.
  - eexists _, _, _. split; [done|]. do 2 right. split; [done|]. split; [|done]. destruct Hr as (bf & c' & af & _ & _ & [H|[-> _]]); [|done].
    by eapply verdict_error.
Qed.

(** [struct S { int f; }] with the field at byte 4; the integer type is a
    candidate that does not match. *)
Definition targets_raw : list Z :=
  [159; 235; 1; 0; 24; 0; 0; 0; 0; 0; 0; 0; 40; 0; 0; 0; 40; 0; 0; 0; 11; 0; 0; 0; 1; 0; 0; 0; 0; 0; 0; 1; 4; 0; 0; 0; 32; 0; 0; 1;
   3; 0; 0; 0; 1; 0; 0; 4; 8; 0; 0; 0; 5; 0; 0; 0; 1; 0; 0; 0; 32; 0; 0; 0; 0; 105; 0; 83; 0; 102; 0; 48; 58; 48; 0].

Definition targets_btf : btf :=
  mkBtf (mkHdr 60319 1 0 24 0 40 40 11) [] (Contiguous targets_raw 24 64) [0; 16; 0; 0; 0; 0; 0; 0; 0; 0; 0; 0; 0; 0; 0; 0] 16 2
    None 1 0 75 None false false 0.

Example targets_btf_new : btf_new (λ _, true) true true targets_raw (zlen targets_raw) None = Some (inr targets_btf).
Proof. vm_compute. reflexivity. Qed.

Definition targets_relo : bpf_core_relo := mkRelo 0 2 7 FIELD_BYTE_OFFSET.
Definition targets_path : bpf_core_spec :=
  mkSpec targets_btf [mkAcc 2 0 None; mkAcc 2 0 (Some [102])] 2 FIELD_BYTE_OFFSET [0; 0] 32.

Lemma targets_path_ok : local_path targets_relo targets_btf targets_path.
Proof. exists (TypeAt targets_raw 40), 3, 83, []. repeat split; [vm_compute; reflexivity..|discriminate]. Defined.

Lemma bpf_core_calc_relo_insn_spec_witness :
  ∃ res, bpf_core_calc_relo_insn targets_relo targets_btf [(targets_btf, 1); (targets_btf, 2)] = Some (0, [(targets_btf, 2)], Some res) ∧ new_val res = 4.
Proof.
  destruct (bpf_core_calc_relo_insn_spec targets_relo targets_btf targets_path [(targets_btf, 1); (targets_btf, 2)] targets_path_ok)
    as (err & l & res & E & H).
  - constructor; [|constructor; [|constructor]].
    + exists (inr None). vm_compute. reflexivity.
    + exists (inr (Some (mkRes 4 4 false true false 4 1 4 1, 32))). vm_compute. reflexivity.
  - exists (0, mkRes 4 0 true true false 4 1 0 0). vm_compute. reflexivity.
  - destruct H as [(_ & -> & (x & Hx & ->) & ->)|[(_ & H & _)|(_ & Hne & _)]].
    + exists x.1. split; [exact E|]. vm_compute in Hx. by injection Hx as <-.
    + by vm_compute in H.
    + exfalso. apply Hne. vm_compute in E. by injection E as <- _ _.
Defined.
