(* ===== verification/UserBpf.v ===== *)
(** * User-space BPF helpers ([common/common_user_bpf_xdp.c],
    [common/common_libbpf.c])

    libbpf and libxdp are libraries.  The calls made to them are recorded in
    order as a trace of [libcall]s; what a call returns is a parameter, a
    function of the calls made before it and of its arguments, so that two
    equal calls may return different results. *)

From S2P Require Import Prelude CString UserParams XdpStats.

Definition PATH_MAX : Z := 4096.
Definition ENOENT : Z := 2.
Definition EINVAL : Z := 22.
Definition ENAMETOOLONG : Z := 36.

(** Programs and maps are named by numbers. *)
Inductive libcall : Type :=
| ProgCreate (file name : list Z)
| ProgAttach (prog ifindex mode : Z)
| ProgFd (prog : Z)
| ProgSetIfindex (prog ifindex : Z)
| ProgSetType (prog type : Z)
| ProgSetAttachType (prog type : Z)
| MapSetIfindex (m ifindex : Z)
| MapReuseFd (m fd : Z)
| MapPin (m : Z) (file : list Z)
| MapFd (m : Z)
| ObjOpen (file : list Z) (type : Z)
| ObjLoad
| ObjClose
| ObjGet (file : list Z)
| GetInfo (fd : Z)
| GetMultiprog (ifindex : Z)
| DetachAll
| Detach (prog : option Z) (ifindex mode : Z)
| MultiprogClose
| Access (file : list Z)
| ObjUnpinMaps (dir : list Z)
| ObjPinMaps (dir : list Z).

Record bpf_map : Type := mkMap { map_id : Z; map_name : list Z; map_offload_neutral : bool }.
Record bpf_object : Type := mkObj { obj_programs : list Z; obj_maps : list bpf_map }.

(** ** [check_map_fd_info], [action2str] *)

(** The fields of [struct bpf_map_info] that are used. *)
Record map_info : Type := mkInfo {
  info_type : Z; info_id : Z; info_key_size : Z; info_value_size : Z; info_max_entries : Z;
}.

Definition check_map_fd_info (info exp : map_info) : Z :=
  if negb (info_key_size exp =? 0) && negb (info_key_size exp =? info_key_size info) then EXIT_FAIL else
  if negb (info_value_size exp =? 0) && negb (info_value_size exp =? info_value_size info) then EXIT_FAIL else
  if negb (info_max_entries exp =? 0) && negb (info_max_entries exp =? info_max_entries info) then EXIT_FAIL else
  if negb (info_type exp =? 0) && negb (info_type exp =? info_type info) then EXIT_FAIL else
  0.

Definition xdp_action_names : list (list Z) :=
  [cstr "XDP_ABORTED"; cstr "XDP_DROP"; cstr "XDP_PASS"; cstr "XDP_TX"; cstr "XDP_REDIRECT"; cstr "XDP_UNKNOWN"].

(** The file defines [XDP_ACTION_MAX] as [XDP_REDIRECT + 1 + 1]; a null result
    is [None] inside. *)
Definition action2str (action : Z) : option (option (list Z)) :=
  if action <? 6 then s ← aget xdp_action_names action; Some (Some s) else Some None.

(** ** [open_bpf_map_file] and [reuse_maps] *)

Section pinned.
Variable bpf_obj_get : list libcall → list Z → Z.                     (* a descriptor or a negative error *)
Variable bpf_obj_get_info_by_fd : list libcall → Z → option map_info. (* [None]: an error *)
Variable bpf_map__reuse_fd : list libcall → Z → Z → Z.

(** [info0] is the information structure of the caller before the call. *)
Definition open_bpf_map_file (trace : list libcall) (pin_dir mapname : list Z) (info0 : map_info)
    : Z * map_info * list libcall :=
  let filename := take (Z.to_nat (PATH_MAX - 1)) (pin_dir ++ cstr "/" ++ mapname) in
  let fd := bpf_obj_get trace filename in
  let trace := trace ++ [ObjGet filename] in
  if fd <? 0 then (fd, info0, trace) else
  match bpf_obj_get_info_by_fd trace fd with
  | None => (EXIT_FAIL_BPF, info0, trace ++ [GetInfo fd])
  | Some info => (fd, info, trace ++ [GetInfo fd])
  end.

Fixpoint reuse_loop (path : list Z) (maps : list bpf_map) (trace : list libcall) : Z * list libcall :=
  match maps with
  | [] => (0, trace)
  | m :: maps' =>
      let buf := path ++ cstr "/" ++ map_name m in
      if PATH_MAX <=? zlen buf then (- ENAMETOOLONG, trace) else
      let pinned_map_fd := bpf_obj_get trace buf in
      let trace := trace ++ [ObjGet buf] in
      if pinned_map_fd <? 0 then (pinned_map_fd, trace) else
      let err := bpf_map__reuse_fd trace (map_id m) pinned_map_fd in
      let trace := trace ++ [MapReuseFd (map_id m) pinned_map_fd] in
      if negb (err =? 0) then (err, trace) else reuse_loop path maps' trace
  end.

Definition reuse_maps (trace : list libcall) (obj : option bpf_object) (path : option (list Z))
    : Z * list libcall :=
  match obj with
  | None => (- ENOENT, trace)
  | Some obj =>
      match path with
      | None => (- EINVAL, trace)
      | Some path => reuse_loop path (obj_maps obj) trace
      end
  end.
End pinned.

(** ** [load_bpf_and_xdp_attach] *)

(** The function returns the program or the process exits. *)
Inductive attach_result : Type :=
| Attached (prog : Z)
| ExitCode (code : Z).

Section attach.
Variable xdp_program__create : list libcall → list Z → list Z → Z + Z.   (* an error, or the program *)
Variable xdp_program__attach : list libcall → Z → Z → Z → Z.
Variable xdp_program__fd : list libcall → Z → Z.

(** The library reads both names as C strings. *)
Definition load_bpf_and_xdp_attach (trace : list libcall) (cfg : config)
    : option (attach_result * list libcall) :=
  file ← read_cstr (filename cfg);
  name ← read_cstr (progname cfg);
  match xdp_program__create trace file name with
  | inl _ => Some (ExitCode EXIT_FAIL_BPF, trace ++ [ProgCreate file name])
  | inr prog =>
      let trace := trace ++ [ProgCreate file name] in
      let err := xdp_program__attach trace prog (ifindex cfg) (attach_mode cfg) in
      let trace := trace ++ [ProgAttach prog (ifindex cfg) (attach_mode cfg)] in
      if negb (err =? 0) then Some (ExitCode err, trace) else
      let fd := xdp_program__fd trace prog in
      let trace := trace ++ [ProgFd prog] in
      if fd <? 0 then Some (ExitCode EXIT_FAIL_BPF, trace) else Some (Attached prog, trace)
  end.
End attach.

(** ** [do_unload] *)

(** A dispatcher: its programs in order, the main program of a legacy one, the
    hardware program, all with their identifiers, and the attach mode. *)
Record multiprog : Type := mkMp {
  mp_programs : list (Z * Z); mp_is_legacy : bool; mp_main : option (Z * Z); mp_hw : option (Z * Z);
  mp_attach_mode : Z;
}.

Inductive multiprog_result : Type :=
| MpError
| MpNull
| Mp (mp : multiprog).

Section unload.
Variable get_from_ifindex : Z → multiprog_result.
Variable multiprog__detach : multiprog → Z.
Variable program__detach : multiprog → option Z → Z → Z → Z.

(** [xdp_program__id]: 0 for a null pointer. *)
Definition prog_id_of (prog : option (Z * Z)) : Z := match prog with Some (_, id) => id | None => 0 end.

Definition handle_of (prog : option (Z * Z)) : option Z := fst <$> prog.

(** The loop over the programs; [xdp_multiprog__next_prog] gives none of a
    legacy dispatcher. *)
Definition find_prog (id : Z) (mp : multiprog) : option (Z * Z) :=
  if mp_is_legacy mp then None else List.find (λ p, p.2 =? id) (mp_programs mp).

(** The program to detach and its mode: [goto found]. *)
Definition select_prog (id : Z) (mp : multiprog) : option (option Z * Z) :=
  match find_prog id mp with
  | Some p => Some (Some p.1, mp_attach_mode mp)
  | None =>
      if mp_is_legacy mp && (prog_id_of (mp_main mp) =? id) then Some (handle_of (mp_main mp), mp_attach_mode mp)
      else if prog_id_of (mp_hw mp) =? id then Some (handle_of (mp_hw mp), XDP_MODE_HW)
      else None
  end.

Definition EXIT_SUCCESS : Z := 0.
Definition EXIT_FAILURE : Z := 1.

(** [out: xdp_multiprog__close(mp); return err ? EXIT_FAILURE : EXIT_SUCCESS]. *)
Definition unload_out (err : Z) (trace : list libcall) : Z * list libcall :=
  (if err =? 0 then EXIT_SUCCESS else EXIT_FAILURE, trace ++ [MultiprogClose]).

Definition do_unload (cfg : config) : Z * list libcall :=
  let trace := [GetMultiprog (ifindex cfg)] in
  match get_from_ifindex (ifindex cfg) with
  | MpError | MpNull => unload_out EXIT_FAILURE trace
  | Mp mp =>
      if unload_all cfg then unload_out (multiprog__detach mp) (trace ++ [DetachAll]) else
      match select_prog (prog_id cfg) mp with
      | None => unload_out (- ENOENT) trace
      | Some (prog, mode) =>
          unload_out (program__detach mp prog (ifindex cfg) mode) (trace ++ [Detach prog (ifindex cfg) mode])
      end
  end.
End unload.

(** ** [bpf_prog_load_xattr_maps] *)

Record bpf_pinned_map : Type := mkPinned { pin_name : list Z; pin_filename : list Z; pin_map_fd : Z }.

Record bpf_prog_load_attr_maps : Type := mkAttr {
  attr_file : option (list Z); attr_prog_type : Z; attr_expected_attach_type : Z; attr_ifindex : Z;
  attr_pinned_maps : list bpf_pinned_map;
}.

Definition set_fd (p : bpf_pinned_map) (fd : Z) : bpf_pinned_map := mkPinned (pin_name p) (pin_filename p) fd.

Section load.
Variable open_xattr : list Z → Z → option bpf_object.  (* [None]: an error or NULL *)
Variable bpf_obj_get : list libcall → list Z → Z.
Variable bpf_object__load : list libcall → Z.
Variable bpf_map__pin : list libcall → Z → list Z → Z.
Variable bpf_map__fd : list libcall → Z → Z.
Variable bpf_program__fd : list libcall → Z → Z.

(** Body of the loop over the programs. *)
Definition program_calls (attr : bpf_prog_load_attr_maps) (prog : Z) : list libcall :=
  [ProgSetIfindex prog (attr_ifindex attr); ProgSetType prog (attr_prog_type attr);
   ProgSetAttachType prog (attr_expected_attach_type attr)].

(** One pinned map against one map of the object, before the load. *)
Definition reuse_pinned (m : bpf_map) (pin : bpf_pinned_map) (trace : list libcall)
    : bpf_pinned_map * list libcall :=
  if bool_decide (map_name m ≠ pin_name pin) then (pin, trace) else
  let fd := bpf_obj_get trace (pin_filename pin) in
  let trace := trace ++ [ObjGet (pin_filename pin)] in
  if 0 <? fd then (set_fd pin fd, trace ++ [MapReuseFd (map_id m) fd]) else (pin, trace).

(** The same after the load: pin the maps that were not replaced. *)
Definition pin_loaded (m : bpf_map) (pin : bpf_pinned_map) (trace : list libcall)
    : bpf_pinned_map * list libcall :=
  if bool_decide (map_name m ≠ pin_name pin) then (pin, trace) else
  if negb (pin_map_fd pin =? -1) then (pin, trace) else
  let err := bpf_map__pin trace (map_id m) (pin_filename pin) in
  let trace := trace ++ [MapPin (map_id m) (pin_filename pin)] in
  if negb (err =? 0) then (pin, trace)
  else (set_fd pin (bpf_map__fd trace (map_id m)), trace ++ [MapFd (map_id m)]).

(** [for (i = 0; i < attr->nr_pinned_maps; i++)] with a body on entry [i]. *)
Fixpoint over_pins (body : bpf_pinned_map → list libcall → bpf_pinned_map * list libcall)
    (pins : list bpf_pinned_map) (trace : list libcall) : list bpf_pinned_map * list libcall :=
  match pins with
  | [] => ([], trace)
  | p :: pins' =>
      let '(p, trace) := body p trace in
      let '(ps, trace) := over_pins body pins' trace in (p :: ps, trace)
  end.

Definition set_map_ifindex (attr : bpf_prog_load_attr_maps) (m : bpf_map) : list libcall :=
  if map_offload_neutral m then [] else [MapSetIfindex (map_id m) (attr_ifindex attr)].

(** [bpf_map__for_each]: the maps in order, each against all pinned maps. *)
Fixpoint over_maps (pre : bpf_map → list libcall)
    (body : bpf_map → bpf_pinned_map → list libcall → bpf_pinned_map * list libcall)
    (maps : list bpf_map) (pins : list bpf_pinned_map) (trace : list libcall)
    : list bpf_pinned_map * list libcall :=
  match maps with
  | [] => (pins, trace)
  | m :: maps' =>
      let '(pins, trace) := over_pins (body m) pins (trace ++ pre m) in
      over_maps pre body maps' pins trace
  end.

(** The outcome: the return value, [*pobj] and [*prog_fd] when they are
    written, the pinned maps and the calls. *)
Record load_result : Type := mkLoad {
  lr_ret : Z; lr_out : option (bpf_object * Z); lr_pins : list bpf_pinned_map; lr_trace : list libcall;
}.

(** [attr] is dereferenced by the initialiser of [open_attr] before it is
    compared with NULL. *)
Definition bpf_prog_load_xattr_maps (attr : option bpf_prog_load_attr_maps) : option load_result :=
  attr ← attr;
  match attr_file attr with
  | None => Some (mkLoad (- EINVAL) None (attr_pinned_maps attr) [])
  | Some file =>
      let trace := [ObjOpen file (attr_prog_type attr)] in
      match open_xattr file (attr_prog_type attr) with
      | None => Some (mkLoad (- ENOENT) None (attr_pinned_maps attr) trace)
      | Some obj =>
          let trace := trace ++ List.concat (map (program_calls attr) (obj_programs obj)) in
          let pins := map (λ p, set_fd p (-1)) (attr_pinned_maps attr) in
          let '(pins, trace) := over_maps (set_map_ifindex attr) reuse_pinned (obj_maps obj) pins trace in
          match obj_programs obj with
          | [] => Some (mkLoad (- ENOENT) None pins (trace ++ [ObjClose]))
          | first_prog :: _ =>
              let err := bpf_object__load trace in
              let trace := trace ++ [ObjLoad] in
              if negb (err =? 0) then Some (mkLoad (- EINVAL) None pins (trace ++ [ObjClose])) else
              let '(pins, trace) := over_maps (λ _, []) pin_loaded (obj_maps obj) pins trace in
              Some (mkLoad 0 (Some (obj, bpf_program__fd trace first_prog)) pins (trace ++ [ProgFd first_prog]))
          end
      end
  end.
End load.
