(* ===== verification/UserBpfCorrect.v ===== *)
(** * Correctness of the user-space BPF helpers

    The map compatibility test, opening a pinned map, reusing the maps of an
    object, unloading, and loading an object with pinned maps. *)

From S2P Require Import Prelude CString UserParams XdpStats UserBpf.

(** ** The compatibility test *)

(** An expected value of zero matches anything. *)
Definition expects (exp val : Z) : Prop := exp = 0 ∨ exp = val.

Lemma mismatch_test exp val :
  (negb (exp =? 0) && negb (exp =? val) = false ↔ expects exp val)
  ∧ (negb (exp =? 0) && negb (exp =? val) = true ↔ ¬ expects exp val).
Proof. unfold expects. destruct (Z.eqb_spec exp 0), (Z.eqb_spec exp val); cbn; intuition congruence. Qed.

(** [check_map_fd_info] returns 0 exactly when every expectation that is
    not zero is met, and [EXIT_FAIL] otherwise. *)
Theorem check_map_fd_info_spec info exp :
  (check_map_fd_info info exp = 0 ↔
     expects (info_key_size exp) (info_key_size info) ∧ expects (info_value_size exp) (info_value_size info)
     ∧ expects (info_max_entries exp) (info_max_entries info) ∧ expects (info_type exp) (info_type info))
  ∧ (check_map_fd_info info exp ≠ 0 ↔ check_map_fd_info info exp = EXIT_FAIL).
Proof.
  unfold check_map_fd_info.
  repeat match goal with |- context [if negb (?e =? 0) && negb (?e =? ?v) then _ else _] =>
    destruct (mismatch_test e v) as [? ?]; destruct (negb (e =? 0) && negb (e =? v)) eqn:? end;
  unfold EXIT_FAIL; intuition (try lia).
Qed.

(** ** Opening a pinned map *)

(** [open_bpf_map_file].  The path is cut at 4095 bytes.  A failed open is
    reported as a negative number and leaves the information as it was; when
    the information cannot be read the result is the positive number 40, which
    a caller that looks for negative results takes for a descriptor; otherwise
    the descriptor and its information are returned. *)
Theorem open_bpf_map_file_spec get info_of trace dir name info0 :
  let path := take 4095 (dir ++ cstr "/" ++ name) in
  let fd := get trace path in
  let '(r, info, trace') := open_bpf_map_file get info_of trace dir name info0 in
  (fd < 0 → r = fd ∧ info = info0 ∧ trace' = trace ++ [ObjGet path])
  ∧ (0 <= fd → trace' = trace ++ [ObjGet path] ++ [GetInfo fd]
       ∧ match info_of (trace ++ [ObjGet path]) fd with
         | None => r = 40 ∧ info = info0
         | Some i => r = fd ∧ info = i
         end).
Proof.
  intros path fd. unfold open_bpf_map_file. change (Z.to_nat (PATH_MAX - 1)) with 4095%nat. fold path fd.
  rewrite app_assoc. destruct (Z.ltb_spec fd 0) as [H|H].
  - split; [done|lia].
  - destruct (info_of _ fd); split; done || lia.
Qed.

(** ** Reusing the maps of an object *)

(** The calls for one map whose pinned file gave a descriptor. *)
Definition reuse_calls (path : list Z) (m : bpf_map) (fd : Z) : list libcall :=
  [ObjGet (path ++ cstr "/" ++ map_name m); MapReuseFd (map_id m) fd].

Definition reused (path : list Z) (done : list (bpf_map * Z)) : list libcall :=
  List.concat (map (λ e, reuse_calls path e.1 e.2) done).

(** Why the loop stopped at map [m], with the calls made for it. *)
Inductive reuse_error (path : list Z) (m : bpf_map) : Z → list libcall → Prop :=
| path_too_long : 4096 <= zlen (path ++ cstr "/" ++ map_name m) → reuse_error path m (-36) []
| open_failed err : err < 0 → reuse_error path m err [ObjGet (path ++ cstr "/" ++ map_name m)]
| reuse_failed fd err : 0 <= fd → err ≠ 0 → reuse_error path m err (reuse_calls path m fd).

Lemma reuse_loop_spec get reuse path maps : ∀ trace,
  let '(r, trace') := reuse_loop get reuse path maps trace in
  ∃ finished,
    Forall (λ e, 0 <= e.2) finished
    ∧ ((r = 0 ∧ maps = map fst finished ∧ trace' = trace ++ reused path finished)
       ∨ ∃ m rest calls, maps = map fst finished ++ m :: rest ∧ reuse_error path m r calls
           ∧ trace' = trace ++ reused path finished ++ calls).
Proof.
  induction maps as [|m maps IH]; intros trace; cbn [reuse_loop].
  - exists []. split; [done|]. left. by rewrite app_nil_r.
  - destruct (Z.leb_spec PATH_MAX (zlen (path ++ cstr "/" ++ map_name m))) as [Hp|Hp].
    { exists []. split; [done|]. right. exists m, maps, []. rewrite app_nil_r. by repeat constructor. }
    set (fd := get trace _). destruct (Z.ltb_spec fd 0) as [Hf|Hf].
    { exists []. split; [done|]. right. exists m, maps, [ObjGet (path ++ cstr "/" ++ map_name m)].
      by repeat constructor. }
    destruct (Z.eqb_spec (reuse (trace ++ [ObjGet (path ++ cstr "/" ++ map_name m)]) (map_id m) fd) 0) as [He|He]; cbn [negb].
    + specialize (IH ((trace ++ [ObjGet (path ++ cstr "/" ++ map_name m)]) ++ [MapReuseFd (map_id m) fd])).
      destruct (reuse_loop _ _ _ _ _) as [r trace']. destruct IH as (fin & Hfin & H).
      exists ((m, fd) :: fin). split; [by constructor|].
      destruct H as [(-> & -> & ->)|(m' & rest & calls & -> & Herr & ->)].
      * left. split_and!; [done|done|]. unfold reused. cbn [map List.concat]. unfold reuse_calls at 2. by rewrite <- !app_assoc.
      * right. exists m', rest, calls. split_and!; [done|done|].
        unfold reused. cbn [map List.concat]. unfold reuse_calls at 2. by rewrite <- !app_assoc.
    + exists []. split; [done|]. right. eexists m, maps, _. split_and!; [done|by econstructor 3|].
      cbn. unfold reuse_calls. by rewrite <- app_assoc.
Qed.

(** [reuse_maps] goes through the maps in order.  It returns 0 exactly when
    every map got the descriptor of its pinned file; otherwise it returns the
    error of the first map that did not, and the maps before it are left
    replaced. *)
Theorem reuse_maps_spec get reuse trace obj path :
  let '(r, trace') := reuse_maps get reuse trace (Some obj) (Some path) in
  ∃ finished,
    Forall (λ e, 0 <= e.2) finished
    ∧ ((r = 0 ∧ obj_maps obj = map fst finished ∧ trace' = trace ++ reused path finished)
       ∨ (r ≠ 0 ∧ ∃ m rest calls, obj_maps obj = map fst finished ++ m :: rest ∧ reuse_error path m r calls
           ∧ trace' = trace ++ reused path finished ++ calls)).
Proof.
  unfold reuse_maps. pose proof (reuse_loop_spec get reuse path (obj_maps obj) trace) as H.
  destruct (reuse_loop _ _ _ _ _) as [r trace']. destruct H as (fin & Hf & H).
  exists fin. split; [done|]. destruct H as [H|(m & rest & calls & H1 & H2 & H3)]; [by left|].
  right. split; [by destruct H2; lia|]. by exists m, rest, calls.
Qed.

(** ** Unloading *)

Definition exit_of (err : Z) : Z := if err =? 0 then 0 else 1.

Lemma find_first id l1 p l2 :
  Forall (λ e : Z * Z, e.2 ≠ id) l1 → List.find (λ e, e.2 =? id) (l1 ++ (p, id) :: l2) = Some (p, id).
Proof.
  induction 1 as [|e l1 He _ IH]; cbn; [by rewrite Z.eqb_refl|]. by rewrite (proj2 (Z.eqb_neq _ _) He).
Qed.

Lemma find_absent id l :
  Forall (λ e : Z * Z, e.2 ≠ id) l → List.find (λ e, e.2 =? id) l = None.
Proof. induction 1 as [|e l He _ IH]; cbn; [done|]. by rewrite (proj2 (Z.eqb_neq _ _) He). Qed.

(** [do_unload] on an interface with a dispatcher.  With [unload_all] the
    whole dispatcher is detached.  Otherwise the first of its programs with the
    requested identifier is detached in the mode of the dispatcher; when there
    is none, the hardware program with that identifier; when there is none
    either, nothing.  A missing hardware program counts as one with
    identifier 0, so that asking for identifier 0 (the one of a configuration
    that names none) detaches a null program in hardware mode.  The exit status
    is that of the one call that detaches, and the dispatcher is always closed. *)
Theorem do_unload_spec get_from detach_all detach cfg mp :
  get_from (ifindex cfg) = Mp mp →
  let open := GetMultiprog (ifindex cfg) in
  let run := do_unload get_from detach_all detach cfg in
  (unload_all cfg = true → run = (exit_of (detach_all mp), [open; DetachAll; MultiprogClose]))
  ∧ (unload_all cfg = false → mp_is_legacy mp = false →
     (∀ p before after, mp_programs mp = before ++ (p, prog_id cfg) :: after →
        Forall (λ e, e.2 ≠ prog_id cfg) before →
        run = (exit_of (detach mp (Some p) (ifindex cfg) (mp_attach_mode mp)),
               [open; Detach (Some p) (ifindex cfg) (mp_attach_mode mp); MultiprogClose]))
     ∧ (Forall (λ e, e.2 ≠ prog_id cfg) (mp_programs mp) →
        match mp_hw mp with
        | Some (h, id) =>
            if decide (id = prog_id cfg) then
              run = (exit_of (detach mp (Some h) (ifindex cfg) 3), [open; Detach (Some h) (ifindex cfg) 3; MultiprogClose])
            else run = (1, [open; MultiprogClose])
        | None =>
            if decide (prog_id cfg = 0) then
              run = (exit_of (detach mp None (ifindex cfg) 3), [open; Detach None (ifindex cfg) 3; MultiprogClose])
            else run = (1, [open; MultiprogClose])
        end)).
Proof.
  intros Hmp open run. unfold run, do_unload. rewrite Hmp. fold open. split; [by intros ->|].
  intros -> Hl. unfold select_prog, find_prog. rewrite Hl. cbn [andb]. split.
  - intros p l1 l2 -> Hb. rewrite find_first by done. done.
  - intros Hn. rewrite find_absent by done. destruct (mp_hw mp) as [[h id]|]; cbn [prog_id_of handle_of fmap option_fmap fst].
    + destruct (decide (id = prog_id cfg)) as [->|Hne]; [by rewrite Z.eqb_refl|].
      by rewrite (proj2 (Z.eqb_neq _ _) Hne).
    + destruct (decide (prog_id cfg = 0)) as [->|Hne]; [done|].
      by rewrite (proj2 (Z.eqb_neq 0 _)) by congruence.
Qed.

Definition unload_cfg : config :=
  mkConfig XDP_MODE_NATIVE 0 7 false [] 0 false [] true 42 false [] [] [] [] [] 0 0 false false.

Lemma do_unload_spec_witness :
  do_unload (λ _, Mp (mkMp [(1, 41); (2, 42); (3, 42)] false None None 1)) (λ _, 0) (λ _ _ _ _, -2) unload_cfg
    = (1, [GetMultiprog 7; Detach (Some 2) 7 1; MultiprogClose]).
Proof.
  refine (proj1 (proj2 (do_unload_spec (λ _, Mp (mkMp [(1, 41); (2, 42); (3, 42)] false None None 1)) (λ _, 0)
    (λ _ _ _ _, -2) unload_cfg (mkMp [(1, 41); (2, 42); (3, 42)] false None None 1) _) _ _) 2 [(1, 41)] [(3, 42)] _ _); try reflexivity.
  by repeat constructor.
Defined.

(** ** Loading an object with pinned maps *)

(** What is known of a pinned map once the loops have seen it. *)
Inductive pin_outcome (maps : list bpf_map) (fd_of : list libcall → Z → Z) (trace : list libcall)
    (p : bpf_pinned_map) : Prop :=
| pin_absent : pin_map_fd p = -1 → pin_outcome maps fd_of trace p
| pin_reused m : In m maps → map_name m = pin_name p → 0 < pin_map_fd p →
    In (MapReuseFd (map_id m) (pin_map_fd p)) trace → pin_outcome maps fd_of trace p
| pin_created m before : In m maps → map_name m = pin_name p →
    pin_map_fd p = fd_of before (map_id m) →
    In (MapPin (map_id m) (pin_filename p)) trace → pin_outcome maps fd_of trace p.

Definition same_entry (p q : bpf_pinned_map) : Prop := pin_name p = pin_name q ∧ pin_filename p = pin_filename q.

(** A loop body that keeps an assertion about pinned maps and traces. *)
Section loops.
Variable P : bpf_pinned_map → list libcall → Prop.
Hypothesis P_mono : ∀ p t t', P p t → P p (t ++ t').

Definition body_keeps (body : bpf_pinned_map → list libcall → bpf_pinned_map * list libcall) : Prop :=
  ∀ p t, P p t → let '(p', t') := body p t in P p' t' ∧ same_entry p p' ∧ ∃ calls, t' = t ++ calls.

Lemma over_pins_keeps body :
  body_keeps body → ∀ pins t, Forall (λ p, P p t) pins →
  let '(pins', t') := over_pins body pins t in
  Forall (λ p, P p t') pins' ∧ Forall2 same_entry pins pins' ∧ ∃ calls, t' = t ++ calls.
Proof.
  intros Hb. induction pins as [|p pins IH]; intros t H; cbn.
  - split_and!; [constructor|constructor|exists []; by rewrite app_nil_r].
  - apply Forall_cons_1 in H as [Hp H]. specialize (Hb p t Hp). destruct (body p t) as [p' t'].
    destruct Hb as (Hp' & Hs & c1 & ->). specialize (IH (t ++ c1)).
    destruct (over_pins body pins (t ++ c1)) as [ps t'].
    destruct IH as (Hf & H2 & c2 & ->); [refine (List.Forall_impl _ _ H); intros q; apply P_mono|].
    split_and!; [|by constructor|exists (c1 ++ c2); by rewrite app_assoc].
    constructor; [by apply P_mono|done].
Qed.

Lemma same_entry_trans p q r : same_entry p q → same_entry q r → same_entry p r.
Proof. unfold same_entry. intuition congruence. Qed.

Lemma same_entries_trans l1 l2 l3 :
  Forall2 same_entry l1 l2 → Forall2 same_entry l2 l3 → Forall2 same_entry l1 l3.
Proof.
  intros H. revert l3. induction H; intros l3 H'; inversion H'; subst; constructor; eauto using same_entry_trans.
Qed.

Lemma over_maps_keeps pre body all :
  (∀ m, In m all → body_keeps (body m)) → ∀ maps pins t, incl maps all → Forall (λ p, P p t) pins →
  let '(pins', t') := over_maps pre body maps pins t in
  Forall (λ p, P p t') pins' ∧ Forall2 same_entry pins pins' ∧ ∃ calls, t' = t ++ calls.
Proof.
  intros Hb. induction maps as [|m maps IH]; intros pins t Hi H; cbn.
  - split_and!; [done| |exists []; by rewrite app_nil_r].
    clear. induction pins; constructor; [by split|done].
  - pose proof (over_pins_keeps (body m) (Hb m (Hi m (or_introl eq_refl))) pins (t ++ pre m)) as Hp.
    destruct (over_pins _ _ _) as [pins1 t1].
    destruct Hp as (Hf & H2 & c1 & ->); [refine (List.Forall_impl _ _ H); intros q; apply P_mono|].
    specialize (IH pins1 ((t ++ pre m) ++ c1) (λ x Hx, Hi x (or_intror Hx)) Hf).
    destruct (over_maps _ _ _ _ _) as [pins2 t2]. destruct IH as (Hf2 & H3 & c2 & ->).
    split_and!; [done|by eapply same_entries_trans|exists (pre m ++ c1 ++ c2); by rewrite <- !app_assoc].
Qed.
End loops.

Lemma pin_outcome_mono maps fd_of p t t' : pin_outcome maps fd_of t p → pin_outcome maps fd_of (t ++ t') p.
Proof.
  intros [H|m H1 H2 H3 H4|m b H1 H2 H3 H4]; [by apply pin_absent|eapply pin_reused|eapply pin_created]; eauto using in_or_app.
Qed.

Lemma reuse_pinned_keeps get fd_of maps m :
  In m maps → body_keeps (λ p t, pin_outcome maps fd_of t p) (reuse_pinned get m).
Proof.
  intros Hm p t Hp. unfold reuse_pinned. case_bool_decide as Hn.
  { split_and!; [done|done|exists []; by rewrite app_nil_r]. }
  destruct (Z.ltb_spec 0 (get t (pin_filename p))) as [Hf|Hf].
  - split_and!; [|done|rewrite <- app_assoc; by eexists].
    eapply pin_reused; [exact Hm|done|done|]. apply in_or_app. right. by left.
  - split_and!; [by apply pin_outcome_mono|done|by eexists].
Qed.

Lemma pin_loaded_keeps pin fd_of maps m :
  In m maps → body_keeps (λ p t, pin_outcome maps fd_of t p) (pin_loaded pin fd_of m).
Proof.
  intros Hm p t Hp. unfold pin_loaded. case_bool_decide as Hn.
  { split_and!; [done|done|exists []; by rewrite app_nil_r]. }
  destruct (negb (pin_map_fd p =? -1)).
  { split_and!; [done|done|exists []; by rewrite app_nil_r]. }
  destruct (negb _).
  - split_and!; [by apply pin_outcome_mono|done|by eexists].
  - split_and!; [|done|rewrite <- app_assoc; by eexists].
    eapply pin_created; [exact Hm|done|reflexivity|]. apply in_or_app. left. apply in_or_app. right. by left.
Qed.

(** [bpf_prog_load_xattr_maps].  A null [attr] is read before it is tested:
    the call faults instead of returning [-EINVAL].  Otherwise the call returns.
    Without a file or an object nothing is changed; without a program or when
    the load fails the object is closed as the last call, and nothing is stored
    in the results.  On success the results are the object and the descriptor of
    its first program, and every requested map keeps its name and file, and
    holds the descriptor of the pinned map that replaced a map of that name, or
    the descriptor of a map of that name that was pinned to the file, or -1. *)
Theorem bpf_prog_load_xattr_maps_spec open get load pin fd_of prog_fd attr :
  let run := bpf_prog_load_xattr_maps open get load pin fd_of prog_fd in
  run None = None
  ∧ ∃ r, run (Some attr) = Some r
    ∧ match lr_out r with
      | None =>
          lr_ret r < 0
          ∧ match attr_file attr ≫= λ f, open f (attr_prog_type attr) with
            | None => lr_pins r = attr_pinned_maps attr
            | Some _ => ∃ before, lr_trace r = before ++ [ObjClose]
            end
      | Some (obj, fd) =>
          lr_ret r = 0 ∧ (attr_file attr ≫= λ f, open f (attr_prog_type attr)) = Some obj
          ∧ (∃ first rest before, obj_programs obj = first :: rest ∧ fd = prog_fd before first)
          ∧ Forall2 same_entry (attr_pinned_maps attr) (lr_pins r)
          ∧ Forall (pin_outcome (obj_maps obj) fd_of (lr_trace r)) (lr_pins r)
      end.
Proof.
  intros run. split; [done|]. unfold run, bpf_prog_load_xattr_maps. cbn [mbind option_bind].
  destruct (attr_file attr) as [file|]; [|eexists; split; [reflexivity|]; cbn; unfold EINVAL; split; [lia|done]].
  cbn [mbind option_bind]. destruct (open file _) as [obj|]; cbn [mbind option_bind];
    [|eexists; split; [reflexivity|]; cbn; unfold ENOENT; split; [lia|done]].
  set (pins0 := map _ _). set (t0 := [_] ++ _).
  pose proof (over_maps_keeps (λ p t, pin_outcome (obj_maps obj) fd_of t p) (λ p t t' H, pin_outcome_mono _ _ _ _ _ H)
    (set_map_ifindex attr) (reuse_pinned get) (obj_maps obj) (λ m Hm, reuse_pinned_keeps get fd_of _ m Hm)
    (obj_maps obj) pins0 t0 (λ x Hx, Hx)) as H1.
  destruct (over_maps _ _ _ _ _) as [pins1 t1].
  destruct H1 as (Hf1 & Hs1 & c1 & ->); [apply List.Forall_map, List.Forall_forall; intros; by apply pin_absent|].
  assert (Forall2 same_entry (attr_pinned_maps attr) pins0) as Hs0
    by (unfold pins0; clear; induction (attr_pinned_maps attr); constructor; [by split|done]).
  destruct (obj_programs obj) as [|first rest] eqn:Ep;
    [eexists; split; [reflexivity|]; cbn [lr_out lr_ret lr_trace mbind option_bind]; unfold ENOENT; split; [lia|by eexists]|].
  destruct (negb _); [eexists; split; [reflexivity|]; cbn [lr_out lr_ret lr_trace mbind option_bind]; unfold EINVAL; split; [lia|by eexists]|].
  pose proof (over_maps_keeps (λ p t, pin_outcome (obj_maps obj) fd_of t p) (λ p t t' H, pin_outcome_mono _ _ _ _ _ H)
    (λ _, []) (pin_loaded pin fd_of) (obj_maps obj) (λ m Hm, pin_loaded_keeps pin fd_of _ m Hm)
    (obj_maps obj) pins1 ((t0 ++ c1) ++ [ObjLoad]) (λ x Hx, Hx)) as H2.
  destruct (over_maps _ _ _ _ _) as [pins2 t2].
  destruct H2 as (Hf2 & Hs2 & c2 & ->); [refine (List.Forall_impl _ _ Hf1); intros p; apply pin_outcome_mono|].
  eexists. split; [reflexivity|]. cbn [lr_out lr_ret lr_pins lr_trace]. split_and!; [done|done|by eexists _, _, _| |].
  - eauto using same_entries_trans.
  - refine (List.Forall_impl _ _ Hf2). intros p. apply pin_outcome_mono.
Qed.
