(* ===== verification/XdpTools.v ===== *)
(** * The tools [xdp_loader] and [xdp_stats] ([basic-solutions/])

    The main programs and the functions they add to the shared helpers.  The
    loader records its calls to the libraries as [UserBpf] does.  The statistics
    tool runs until a map cannot be opened or does not fit; what it finds in its
    [n]-th round (a round is one call of [open_bpf_map_file]) is the [n]-th
    [round] of a sequence, and its loops take fuel. *)

From S2P Require Import Prelude CString UserParams XdpStats UserBpf.

Definition pin_basedir : list Z := cstr "/sys/fs/bpf".
Definition map_name : list Z := cstr "xdp_stats_map".

(** [%s] of the device name: a null pointer or a missing NUL is a fault. *)
Definition ifname_str (cfg : config) : option (list Z) :=
  if ifname cfg then read_cstr (ifname_buf cfg) else None.

Definition set_pin_dir (cfg : config) (dir : list Z) : config :=
  set_names cfg dir (filename cfg) (progname cfg) (src_mac cfg) (dest_mac cfg).

(** ** [xdp_loader.c] *)

Section loader.
Variable access : list libcall → list Z → Z.
Variable unpin_maps : list libcall → list Z → Z.
Variable pin_maps : list libcall → list Z → Z.

(** The path tested is cut at 4095 bytes, [pin_dir] is read as a string. *)
Definition pin_maps_in_bpf_object (trace : list libcall) (cfg : config) : option (Z * list libcall) :=
  dir ← read_cstr (pin_dir cfg);
  dev ← ifname_str cfg;
  let map_filename := take (Z.to_nat (PATH_MAX - 1)) (dir ++ cstr "/" ++ dev ++ cstr "/" ++ map_name) in
  let found := access trace map_filename in
  let trace := trace ++ [Access map_filename] in
  let '(err, trace) :=
    if negb (found =? -1) then (unpin_maps trace dir, trace ++ [ObjUnpinMaps dir]) else (0, trace) in
  if negb (err =? 0) then Some (EXIT_FAIL_BPF, trace) else
  let err := pin_maps trace dir in
  let trace := trace ++ [ObjPinMaps dir] in
  Some (if negb (err =? 0) then EXIT_FAIL_BPF else 0, trace).

Variable xdp_program__create : list libcall → list Z → list Z → Z + Z.
Variable xdp_program__attach : list libcall → Z → Z → Z → Z.
Variable xdp_program__fd : list libcall → Z → Z.

(** [main] after the parameters: the exit code and the calls; the usage text it
    prints without [--dev] is that of [UserParams.usage].  The branch of
    [do_unload] is empty in the source. *)
Definition loader_run (wrappers : list option_wrapper) (buf0 argv0 doc : list Z) (argc : Z) (p : params)
    : option (Z * list libcall) :=
  let cfg := p_cfg p in
  if ifindex cfg =? -1 then
    _ ← usage wrappers buf0 argv0 doc (argc =? 1); Some (EXIT_FAIL_OPTION, [])
  else
  dev ← ifname_str cfg;
  dir ← snprintf (pin_dir cfg) 0 512 (pin_basedir ++ cstr "/" ++ dev);
  let cfg := set_pin_dir cfg dir in
  '(r, trace) ← load_bpf_and_xdp_attach xdp_program__create xdp_program__attach xdp_program__fd [] cfg;
  match r with
  | ExitCode code => Some (code, trace)
  | Attached program =>
      if negb (UserParams.reuse_maps cfg) then
        '(err, trace) ← pin_maps_in_bpf_object trace cfg;
        if negb (err =? 0) then Some (err, trace) else Some (EXIT_OK, trace)
      else Some (EXIT_OK, trace)
  end.

(** The configuration [main] starts with: all bytes that are not named are 0. *)
Definition loader_config : config :=
  mkConfig XDP_MODE_NATIVE 0 (-1) false (replicate 16 0) 0 false (replicate 16 0) false 0 false
    (replicate 512 0) (strncpy (cstr "xdp_prog_kern.o") 512) (replicate 32 0) (replicate 18 0) (replicate 18 0)
    0 0 false false.

Definition loader_doc : list Z :=
  cstr "XDP loader" ++ [10] ++ cstr " - Allows selecting BPF program --progname name to XDP-attach to --dev" ++ [10].

Variable if_nametoindex : list Z → Z.

Definition loader_main (buf0 : list Z) (alloc : bool) (argv0 : list Z) (argc : Z)
    (events : list (Z * option (list Z))) : option (Z * list libcall) :=
  r ← parse_cmdline_args if_nametoindex loader_options buf0 alloc argv0 loader_doc events
        (mkParams loader_config true);
  match r with
  | Exited code _ => Some (code, [])
  | Parsed p => loader_run loader_options buf0 argv0 loader_doc argc p
  end.
End loader.

(** ** [xdp_stats.c] *)

(** What one round finds: pinned files, map information, the values of the
    maps behind a descriptor, the clock and the indeterminate locals. *)
Record round : Type := mkRound {
  r_get : list Z → Z; r_info : Z → option map_info;
  r_lookup : Z → Z → option datarec; r_lookup_percpu : Z → Z → option (list datarec);
  r_now : Z → Z; r_value : datarec;
}.

Section stats.
Variable nr_cpus : Z.
Variable rounds : nat → round.

Definition collect_at (n : nat) (map_fd map_type : Z) (stats : list record) : option (list record) :=
  stats_collect (r_lookup (rounds n) map_fd) (r_lookup_percpu (rounds n) map_fd) nr_cpus map_type
    (r_now (rounds n)) (r_value (rounds n)) stats.

Definition open_at (n : nat) (pin_dir : list Z) (info : map_info) : Z * map_info :=
  let '(fd, info, _) := open_bpf_map_file (λ _, r_get (rounds n)) (λ _, r_info (rounds n)) [] pin_dir
                          (cstr "xdp_stats_map") info in (fd, info).

(** How a loop ended: still running when the fuel was used up, or the value it
    returned and the number of the next round. *)
Inductive run_result : Type :=
| Running
| Returned (code : Z) (next : nat).

(** The loop of [stats_poll]; the printed tables are collected in [out]. *)
Fixpoint poll_loop (fuel : nat) (pin_dir : list Z) (id map_type : Z) (n : nat) (info : map_info)
    (rec : list record) (out : list (list stats_row)) : option (run_result * list (list stats_row)) :=
  match fuel with
  | O => Some (Running, out)
  | S fuel =>
      let prev := rec in
      let '(map_fd, info) := open_at n pin_dir info in
      if map_fd <? 0 then Some (Returned EXIT_FAIL_BPF (S n), out) else
      if negb (id =? info_id info) then Some (Returned 0 (S n), out) else
      rec ← collect_at n map_fd map_type rec;
      rows ← stats_print rec prev;
      poll_loop fuel pin_dir id map_type (S n) info rec (out ++ [rows])
  end.

Definition info0 : map_info := mkInfo 0 0 0 0 0.
Definition record0 : list record := replicate 5 (mkRecord 0 (mkRec 0 0)).

(** The first collection uses the descriptor of the caller, in round [n - 1]. *)
Definition stats_poll (fuel : nat) (pin_dir : list Z) (map_fd id map_type : Z) (n : nat)
    : option (run_result * list (list stats_row)) :=
  rec ← collect_at (Nat.pred n) map_fd map_type record0;
  poll_loop fuel pin_dir id map_type n info0 rec [].

Definition map_expect : map_info := mkInfo 0 0 4 16 5.

(** The loop of [main]; [fuel] bounds its turns and those of [stats_poll]. *)
Fixpoint main_loop (fuel : nat) (pin_dir : list Z) (n : nat) (info : map_info) : option run_result :=
  match fuel with
  | O => Some Running
  | S fuel' =>
      let '(stats_map_fd, info) := open_at n pin_dir info in
      if stats_map_fd <? 0 then Some (Returned EXIT_FAIL_BPF (S n)) else
      let err := check_map_fd_info info map_expect in
      if negb (err =? 0) then Some (Returned err (S n)) else
      '(r, _) ← stats_poll fuel' pin_dir stats_map_fd (info_id info) (info_type info) (S n);
      match r with
      | Running => Some Running
      | Returned err next =>
          if err <? 0 then Some (Returned err next) else main_loop fuel' pin_dir next info
      end
  end.

(** [main] after the parameters. *)
Definition stats_run (fuel : nat) (wrappers : list option_wrapper) (buf0 argv0 doc : list Z) (argc : Z) (p : params)
    : option run_result :=
  let cfg := p_cfg p in
  if ifindex cfg =? -1 then
    _ ← usage wrappers buf0 argv0 doc (argc =? 1); Some (Returned EXIT_FAIL_OPTION 0)
  else
  dev ← ifname_str cfg;
  let pin_dir := take (Z.to_nat (PATH_MAX - 1)) (pin_basedir ++ cstr "/" ++ dev) in
  main_loop fuel pin_dir 0 info0.
End stats.
