(* ===== verification/XdpToolsCorrect.v ===== *)
(** * Correctness of the tools

    The loop of the statistics program and its ends; the run of the loader, the
    paths it uses, and the option it ignores. *)

From S2P Require Import Prelude Packet CString UserParams ParamsCorrect XdpStats UserBpf UserBpfCorrect XdpTools.

(** ** The statistics program *)

Section stats.
Variable nr_cpus : Z.
Variable rounds : nat → round.

(** A per-CPU lookup fills the array of [nr_cpus] values. *)
Hypothesis cpus_ok : 0 <= nr_cpus
  ∧ ∀ n fd key values, r_lookup_percpu (rounds n) fd key = Some values → zlen values = nr_cpus.

Lemma collect_at_total n fd map_type stats :
  length stats = 5%nat → ∃ stats', collect_at nr_cpus rounds n fd map_type stats = Some stats' ∧ length stats' = 5%nat.
Proof.
  intros Hl. destruct cpus_ok as [Hn Hv]. unfold collect_at, stats_collect.
  apply (for_loop_inv (λ _ s, length s = 5%nat)); [done| |done].
  intros key s Hk Hs. unfold XDP_ACTION_MAX, XDP_REDIRECT in Hk. unfold collect_body.
  destruct (aget_is_Some s key) as [rec ->]; [lia|]. cbn [mbind option_bind].
  assert (∃ b rec', map_collect (r_lookup (rounds n) fd) (r_lookup_percpu (rounds n) fd) nr_cpus map_type key
    (r_now (rounds n) key) (r_value (rounds n)) rec = Some (b, rec')) as (b & rec' & ->).
  { unfold map_collect. destruct (map_type =? _); [by eexists _, _|]. destruct (map_type =? _); [|by eexists _, _].
    destruct (r_lookup_percpu (rounds n) fd key) as [values|] eqn:E.
    - rewrite <- (Hv _ _ _ _ E), (percpu_sum _ _ _ _ E). by eexists _, _.
    - unfold map_get_value_percpu_array. rewrite E. by eexists _, _. }
  cbn [mbind option_bind]. rewrite aset_eq by lia. eexists. split; [done|]. by rewrite length_insert.
Qed.

Lemma stats_print_total rec prev :
  length rec = 5%nat → length prev = 5%nat → ∃ rows, stats_print rec prev = Some rows.
Proof.
  intros H1 H2. unfold stats_print.
  destruct (for_loop_inv_break (λ _ _, True) (λ _, True) (print_body rec prev) 0 XDP_ACTION_MAX []) as (r & -> & _);
    [done| |done|by eexists].
  intros i out Hi _. unfold XDP_ACTION_MAX, XDP_REDIRECT in Hi. unfold print_body.
  destruct (aget_is_Some rec i) as [r ->]; [lia|]. destruct (aget_is_Some prev i) as [p ->]; [lia|].
  cbn [mbind option_bind]. destruct (_ =? 0); by eexists.
Qed.

(** [stats_poll] goes on in round [n] with the information [info] it got. *)
Definition polls_on (dir : list Z) (id : Z) (n : nat) (info : map_info) : Prop :=
  0 <= (open_at rounds n dir info).1 ∧ info_id (open_at rounds n dir info).2 = id.

(** The information after [k] rounds from [n]. *)
Fixpoint info_after (dir : list Z) (n k : nat) (info : map_info) : map_info :=
  match k with O => info | S k => info_after dir (S n) k (open_at rounds n dir info).2 end.

Lemma poll_loop_runs dir id map_type k : ∀ fuel n info rec out,
  length rec = 5%nat → (∀ j, (j < k)%nat → polls_on dir id (n + j) (info_after dir n j info)) →
  ∃ rec' tables, length rec' = 5%nat ∧ length tables = k
    ∧ poll_loop nr_cpus rounds (k + fuel) dir id map_type n info rec out
      = poll_loop nr_cpus rounds fuel dir id map_type (n + k) (info_after dir n k info) rec' (out ++ tables).
Proof.
  induction k as [|k IH]; intros fuel n info rec out Hl H.
  - exists rec, []. rewrite app_nil_r, Nat.add_0_r. done.
  - destruct (H 0%nat ltac:(lia)) as [Hf Hi]. rewrite Nat.add_0_r in Hf, Hi. cbn [info_after] in Hf, Hi.
    cbn [Nat.add poll_loop]. destruct (open_at rounds n dir info) as [fd info'] eqn:Eo. cbn [fst snd] in *.
    rewrite (proj2 (Z.ltb_ge fd 0)) by lia. rewrite Hi, Z.eqb_refl. cbn [negb].
    destruct (collect_at_total n fd map_type rec Hl) as (rec1 & -> & Hl1). cbn [mbind option_bind].
    destruct (stats_print_total rec1 rec Hl1 Hl) as [rows ->]. cbn [mbind option_bind].
    destruct (IH fuel (S n) info' rec1 (out ++ [rows]) Hl1) as (rec' & tables & Hl' & Ht & ->).
    { intros j Hj. specialize (H (S j) ltac:(lia)). cbn [info_after] in H. rewrite Eo in H.
      by rewrite Nat.add_succ_r in H. }
    exists rec', (rows :: tables). cbn [info_after length]. rewrite Eo, Ht, <- app_assoc, Nat.add_succ_r. done.
Qed.

Lemma poll_loop_total dir id map_type fuel : ∀ n info rec out,
  length rec = 5%nat →
  ∃ r out', poll_loop nr_cpus rounds fuel dir id map_type n info rec out = Some (r, out')
    ∧ match r with Running => True | Returned code next => (code = 0 ∨ code = EXIT_FAIL_BPF) ∧ (n < next)%nat end.
Proof.
  induction fuel as [|fuel IH]; intros n info rec out Hl; cbn [poll_loop]; [by eexists _, _|].
  destruct (open_at rounds n dir info) as [fd info'].
  destruct (fd <? 0); [eexists _, _; split; [done|]; split; [auto|lia]|].
  destruct (negb _); [eexists _, _; split; [done|]; split; [auto|lia]|].
  destruct (collect_at_total n fd map_type rec Hl) as (rec1 & -> & Hl1). cbn [mbind option_bind].
  destruct (stats_print_total rec1 rec Hl1 Hl) as [rows ->]. cbn [mbind option_bind].
  destruct (IH (S n) info' rec1 (out ++ [rows]) Hl1) as (r & out' & E & H). exists r, out'. split; [done|].
  destruct r; [done|]. split; [tauto|lia].
Qed.

Lemma stats_poll_total fuel dir fd id map_type n :
  ∃ r out', stats_poll nr_cpus rounds fuel dir fd id map_type n = Some (r, out')
    ∧ match r with Running => True | Returned code next => (code = 0 ∨ code = EXIT_FAIL_BPF) ∧ (n < next)%nat end.
Proof.
  unfold stats_poll. destruct (collect_at_total (Nat.pred n) fd map_type record0 eq_refl) as (rec & -> & Hl).
  by apply poll_loop_total.
Qed.

(** How the first turn of [main] ends, or does not. *)
Inductive main_end (dir : list Z) (n : nat) (info : map_info) : Z → Prop :=
| end_open : (open_at rounds n dir info).1 < 0 → main_end dir n info EXIT_FAIL_BPF
| end_check : 0 <= (open_at rounds n dir info).1 →
    check_map_fd_info (open_at rounds n dir info).2 map_expect ≠ 0 → main_end dir n info EXIT_FAIL.

Lemma main_loop_total dir fuel : ∀ n info,
  ∃ r, main_loop nr_cpus rounds fuel dir n info = Some r
    ∧ match r with
      | Running => True
      | Returned code next => ∃ m info', next = S m ∧ (n <= m)%nat ∧ main_end dir m info' code
      end.
Proof.
  induction fuel as [|fuel IH]; intros n info; cbn [main_loop]; [by eexists|].
  destruct (open_at rounds n dir info) as [fd info'] eqn:Eo.
  destruct (Z.ltb_spec fd 0) as [Hf|Hf].
  { eexists. split; [done|]. exists n, info. split_and!; [done|lia|]. apply end_open. by rewrite Eo. }
  destruct (Z.eqb_spec (check_map_fd_info info' map_expect) 0) as [Hc|Hc]; cbn [negb].
  2: { eexists. split; [done|]. exists n, info. split_and!; [done|lia|].
    destruct (check_map_fd_info_spec info' map_expect) as [_ Hfail]. rewrite (proj1 Hfail Hc).
    apply end_check; rewrite Eo; done. }
  destruct (stats_poll_total fuel dir fd (info_id info') (info_type info') (S n)) as (r & out & -> & H).
  cbn [mbind option_bind]. destruct r as [|code next]; [by eexists|]. destruct H as [Hcode Hn].
  assert ((code <? 0) = false) as -> by (destruct Hcode as [-> | ->]; done).
  destruct (IH next info') as (r & -> & Hr). exists r. split; [done|].
  destruct r; [done|]. destruct Hr as (m & i & -> & Hm & He). exists m, i. split_and!; [done|lia|done].
Qed.
End stats.

(** The loop of [stats_poll].  After [k] rounds in which the map is opened
    and still has the identifier, and a round in which it does not, the function
    has printed [k] tables and returns, with enough fuel, [EXIT_FAIL_BPF] when
    the map could not be opened and 0 when it is another map. *)
Theorem stats_poll_returns nr_cpus rounds dir map_fd id map_type n k fuel :
  0 <= nr_cpus ∧ (∀ n fd key values, r_lookup_percpu (rounds n) fd key = Some values → zlen values = nr_cpus) →
  (∀ j, (j < k)%nat → polls_on rounds dir id (n + j) (info_after rounds dir n j info0)) →
  ¬ polls_on rounds dir id (n + k) (info_after rounds dir n k info0) →
  (k < fuel)%nat →
  ∃ tables, length tables = k
    ∧ stats_poll nr_cpus rounds fuel dir map_fd id map_type n
      = Some (Returned (if (open_at rounds (n + k) dir (info_after rounds dir n k info0)).1 <? 0 then EXIT_FAIL_BPF else 0)
                       (S (n + k)), tables).
Proof.
  intros Hcpu Hon Hoff Hf. unfold stats_poll.
  destruct (collect_at_total nr_cpus rounds Hcpu (Nat.pred n) map_fd map_type record0 eq_refl) as (rec & -> & Hl).
  cbn [mbind option_bind]. replace fuel with (k + S (fuel - k - 1))%nat by lia.
  destruct (poll_loop_runs nr_cpus rounds Hcpu dir id map_type k (S (fuel - k - 1)) n info0 rec [] Hl Hon)
    as (rec' & tables & _ & Ht & ->).
  exists tables. split; [done|]. cbn [poll_loop app]. unfold polls_on in Hoff.
  destruct (open_at rounds (n + k) dir _) as [fd info]. cbn [fst snd] in *.
  destruct (Z.ltb_spec fd 0); [done|]. rewrite (proj2 (Z.eqb_neq id (info_id info))); [done|]. intros ->. tauto.
Qed.

Lemma stats_table_ok : table_ok (take 3 stats_options) last_entry [] stats_options.
Proof. split; [reflexivity|]. split; [apply entries_ok_dec; vm_compute; reflexivity|done]. Qed.

Lemma ifname_str_ok f c : config_ok f c → ifindex c ≠ -1 → ∃ dev, ifname_str c = Some dev ∧ ifindex c = f dev.
Proof.
  intros Hc Hi. unfold ifname_str. destruct (ifname c) eqn:E.
  - destruct (co_dev _ _ Hc E) as (s & H1 & H2 & _). by exists s.
  - exfalso. by apply Hi, (co_nodev _ _ Hc).
Qed.

(** [main] of the statistics program never faults, and every way it ends is
    one of: no device (code 2); a map that [main] itself could not open (code
    40); a map whose sizes do not fit (code 1).  It never ends because of what
    [stats_poll] returns: that is 0 or 40, and [main] tests for a negative
    result. *)
Theorem stats_run_exits if_nametoindex nr_cpus rounds fuel buf0 argv0 doc argc p :
  config_ok if_nametoindex (p_cfg p) → length buf0 = 30%nat →
  0 <= nr_cpus ∧ (∀ n fd key values, r_lookup_percpu (rounds n) fd key = Some values → zlen values = nr_cpus) →
  ∃ r, stats_run nr_cpus rounds fuel stats_options buf0 argv0 doc argc p = Some r
    ∧ match r with
      | Running => ifindex (p_cfg p) ≠ -1
      | Returned code next =>
          (ifindex (p_cfg p) = -1 ∧ code = 2)
          ∨ ∃ dir m info, ifindex (p_cfg p) ≠ -1 ∧ next = S m ∧ main_end rounds dir m info code
      end.
Proof.
  intros Hc Hb Hcpu. unfold stats_run. destruct (Z.eqb_spec (ifindex (p_cfg p)) (-1)) as [Hi|Hi].
  - destruct (usage_ok _ _ _ _ _ argv0 doc (argc =? 1) stats_table_ok Hb) as [lines ->]. eexists. split; [done|]. by left.
  - destruct (ifname_str_ok _ _ Hc Hi) as (dev & -> & _). cbn [mbind option_bind].
    set (dir := take _ _). destruct (main_loop_total nr_cpus rounds Hcpu dir fuel 0 info0) as (r & -> & H).
    exists r. split; [done|]. destruct r as [|code next]; [done|]. right.
    destruct H as (m & info & -> & _ & H). by exists dir, m, info.
Qed.

(** A failure inside [stats_poll] is not noticed: when [main] has opened a
    map that fits in round [n] and [stats_poll] cannot open it in round [n + 1],
    the program goes on with round [n + 2] instead of ending. *)
Theorem failed_poll_ignored nr_cpus rounds dir n info fuel :
  0 <= nr_cpus ∧ (∀ n fd key values, r_lookup_percpu (rounds n) fd key = Some values → zlen values = nr_cpus) →
  0 <= (open_at rounds n dir info).1 →
  check_map_fd_info (open_at rounds n dir info).2 map_expect = 0 →
  (open_at rounds (S n) dir info0).1 < 0 →
  main_loop nr_cpus rounds (S (S fuel)) dir n info
    = main_loop nr_cpus rounds (S fuel) dir (S (S n)) (open_at rounds n dir info).2.
Proof.
  intros Hcpu Hf Hc Hp. remember (S fuel) as fuel' eqn:Ef. cbn [main_loop].
  destruct (open_at rounds n dir info) as [fd info'] eqn:Eo. cbn [fst snd] in *.
  rewrite (proj2 (Z.ltb_ge fd 0)) by lia. rewrite Hc. cbn [Z.eqb negb].
  unfold stats_poll. destruct (collect_at_total nr_cpus rounds Hcpu (Nat.pred (S n)) fd (info_type info') record0 eq_refl)
    as (rec & -> & _). cbn [mbind option_bind]. rewrite Ef. cbn [poll_loop].
  destruct (open_at rounds (S n) dir info0) as [fd1 info1]. cbn [fst] in Hp.
  by rewrite (proj2 (Z.ltb_lt fd1 0)).
Qed.

(** ** The loader *)

(** [--unload] has no effect on the loader: [main] does the same calls and
    returns the same code whatever the unload switch and the program identifier
    of the configuration are; it goes on to load and attach the program. *)
Theorem loader_ignores_unload access unpin pin create attach fd wrappers buf0 argv0 doc argc c v unload id :
  loader_run access unpin pin create attach fd wrappers buf0 argv0 doc argc
    (mkParams (set_switches c unload id (UserParams.reuse_maps c) (xsk_if_queue c) (xsk_poll_mode c) (unload_all c)) v)
  = loader_run access unpin pin create attach fd wrappers buf0 argv0 doc argc (mkParams c v).
Proof. reflexivity. Qed.

(** The calls of a run of the loader that got a device [dev]. *)
Definition bpf_dir (dev : list Z) : list Z := cstr "/sys/fs/bpf/" ++ dev.

Definition attach_calls (file name : list Z) (prog index mode : Z) : list libcall :=
  [ProgCreate file name; ProgAttach prog index mode; ProgFd prog].

Inductive loader_outcome (index_of : list Z → Z) : Z → list libcall → Prop :=
| lo_usage : loader_outcome index_of 2 []
| lo_create file name : loader_outcome index_of 40 [ProgCreate file name]
| lo_attach file name prog dev mode code : code ≠ 0 →
    loader_outcome index_of code [ProgCreate file name; ProgAttach prog (index_of dev) mode]
| lo_fd file name prog dev mode : loader_outcome index_of 40 (attach_calls file name prog (index_of dev) mode)
| lo_reuse file name prog dev mode : loader_outcome index_of 0 (attach_calls file name prog (index_of dev) mode)
| lo_unpin file name prog dev mode :
    loader_outcome index_of 40 (attach_calls file name prog (index_of dev) mode
      ++ [Access (bpf_dir dev ++ cstr "/" ++ dev ++ cstr "/xdp_stats_map"); ObjUnpinMaps (bpf_dir dev)])
| lo_pin file name prog dev mode code unpin : (code = 0 ∨ code = 40) → (unpin = [] ∨ unpin = [ObjUnpinMaps (bpf_dir dev)]) →
    loader_outcome index_of code (attach_calls file name prog (index_of dev) mode
      ++ [Access (bpf_dir dev ++ cstr "/" ++ dev ++ cstr "/xdp_stats_map")] ++ unpin ++ [ObjPinMaps (bpf_dir dev)]).

Definition names_ok (c : config) : Prop :=
  (∃ file, read_cstr (filename c) = Some file) ∧ (∃ name, read_cstr (progname c) = Some name).

(** The names given fit in their arrays. *)
Definition names_fit (ev : Z * option (list Z)) : Prop :=
  match ev with
  | (opt, Some arg) => (opt = 1 → (length arg < 512)%nat) ∧ (opt = 2 → (length arg < 32)%nat)
  | _ => True
  end.

Lemma parse_option_names f opt optarg p p' :
  names_ok (p_cfg p) → ParamsCorrect.event_ok (opt, optarg) → names_fit (opt, optarg) →
  parse_option f opt optarg p = Some (Go p') → names_ok (p_cfg p').
Proof.
  intros Hn He Hs. unfold parse_option.
  repeat match goal with |- (if opt =? ?k then _ else _) = _ → _ => destruct (Z.eqb_spec opt k) as [?|_] end;
    try (by intros [= <-]);
    try (by destruct optarg as [arg|]; [|done]; cbn [mbind option_bind]; intros [= <-]).
  1,2: destruct optarg as [arg|]; [|done]; cbn [mbind option_bind];
    destruct (dev_name f arg) as [[[buf i]|]|]; cbn [mbind option_bind]; try done; by intros [= <-].
  - destruct optarg as [arg|]; [|done]; cbn [mbind option_bind]; intros [= <-]. destruct Hn as [_ Hn].
    destruct (He ltac:(by subst opt)) as (arg' & [= <-] & Ha). destruct Hs as [Hs _]. split; [|done].
    cbn [p_cfg set_names filename]. rewrite read_strncpy, decide_True by auto. by eexists.
  - destruct optarg as [arg|]; [|done]; cbn [mbind option_bind]; intros [= <-]. destruct Hn as [Hn _].
    destruct (He ltac:(by subst opt)) as (arg' & [= <-] & Ha). destruct Hs as [_ Hs]. split; [done|].
    cbn [p_cfg set_names progname]. rewrite read_strncpy, decide_True by auto. by eexists.
Qed.

Lemma ifname_str_short f c dev :
  config_ok f c → ifname_str c = Some dev → Forall (λ b, b ≠ 0) dev ∧ (length dev < 16)%nat.
Proof.
  intros Hc. unfold ifname_str. destruct (ifname c); [|done]. intros [H1 H2]%read_cstr_inv.
  split; [done|]. rewrite (co_ifname _ _ Hc) in H2. lia.
Qed.

Lemma snprintf_read buf n s :
  length buf = n → (length s < n)%nat → Forall (λ b, b ≠ 0) s →
  ∃ buf', snprintf buf 0 (Z.of_nat n) s = Some buf' ∧ read_cstr buf' = Some s.
Proof.
  intros Hb Hs Hz. unfold snprintf. rewrite (proj2 (Z.leb_gt _ 0)) by lia.
  rewrite (take_ge s) by lia.
  rewrite aset_list_eq by (rewrite ?length_app; cbn [length]; lia). eexists. split; [done|].
  cbn [Z.to_nat take app]. rewrite <- app_assoc. by apply read_cstr_app.
Qed.

Lemma bpf_dir_text dev : pin_basedir ++ cstr "/" ++ dev = bpf_dir dev.
Proof. reflexivity. Qed.

Lemma bpf_dir_short dev :
  Forall (λ b, b ≠ 0) dev → (length dev < 16)%nat → Forall (λ b, b ≠ 0) (bpf_dir dev) ∧ (length (bpf_dir dev) < 28)%nat.
Proof.
  intros Hz Hl. unfold bpf_dir. split; [|rewrite length_app; cbn; lia].
  apply Forall_app. split; [|done]. by repeat (apply List.Forall_cons; [vm_compute; discriminate|]).
Qed.

(** The pinning step for a device. *)
Lemma pin_maps_ok access unpin pin trace cfg dev :
  ifname_str cfg = Some dev → (length dev < 16)%nat → read_cstr (pin_dir cfg) = Some (bpf_dir dev) →
  ∃ code trace', pin_maps_in_bpf_object access unpin pin trace cfg = Some (code, trace ++ trace')
    ∧ let acc := Access (bpf_dir dev ++ cstr "/" ++ dev ++ cstr "/xdp_stats_map") in
      (code = 40 ∧ trace' = [acc; ObjUnpinMaps (bpf_dir dev)])
      ∨ (code = 0 ∨ code = 40) ∧ ∃ u, (u = [] ∨ u = [ObjUnpinMaps (bpf_dir dev)])
          ∧ trace' = [acc] ++ u ++ [ObjPinMaps (bpf_dir dev)].
Proof.
  intros Hd Hl Hp. unfold pin_maps_in_bpf_object. rewrite Hp, Hd. cbn [mbind option_bind].
  change (cstr "/" ++ map_name) with (cstr "/xdp_stats_map").
  rewrite take_ge by (unfold bpf_dir; rewrite !length_app; change (Z.to_nat (PATH_MAX - 1)) with 4095%nat; cbn [length cstr]; cbn; lia).
  set (acc := Access _). destruct (negb (access _ _ =? -1)).
  - destruct (negb (_ =? 0)); eexists _, _; rewrite <- ?app_assoc; (split; [reflexivity|]).
    + by left.
    + right. split; [destruct (negb _); auto|]. exists [ObjUnpinMaps (bpf_dir dev)]. auto.
  - cbn [Z.eqb negb]. eexists _, _. rewrite <- app_assoc. split; [reflexivity|].
    right. split; [destruct (negb _); auto|]. exists []. auto.
Qed.

Lemma loader_run_ok f access unpin pin create attach fd buf0 argv0 doc argc p :
  config_ok f (p_cfg p) → names_ok (p_cfg p) → length buf0 = 30%nat →
  ∃ code trace,
    loader_run access unpin pin create attach fd loader_options buf0 argv0 doc argc p = Some (code, trace)
    ∧ loader_outcome f code trace.
Proof.
  intros Hc [[file Hfile] [name Hname]] Hb. unfold loader_run.
  destruct (Z.eqb_spec (ifindex (p_cfg p)) (-1)) as [Hi|Hi].
  { destruct (usage_ok _ _ _ _ _ argv0 doc (argc =? 1) loader_table_ok Hb) as [lines ->].
    eexists _, _. split; [done|]. apply lo_usage. }
  destruct (ifname_str_ok _ _ Hc Hi) as (dev & Hdev & Hidx).
  destruct (ifname_str_short _ _ _ Hc Hdev) as [Hz Hl]. destruct (bpf_dir_short dev Hz Hl) as [Hz' Hl'].
  rewrite Hdev. cbn [mbind option_bind]. rewrite bpf_dir_text.
  destruct (snprintf_read (pin_dir (p_cfg p)) 512 (bpf_dir dev)) as (dir & Hs & Hdir);
    [apply (co_pin_dir _ _ Hc)|lia|done|].
  change (Z.of_nat 512) with 512 in Hs. rewrite Hs. cbn [mbind option_bind].
  unfold load_bpf_and_xdp_attach. cbn [set_pin_dir set_names filename progname ifindex attach_mode].
  rewrite Hfile, Hname. cbn [mbind option_bind]. rewrite Hidx.
  destruct (create [] file name) as [e|prog]; [eexists _, _; split; [done|]; apply lo_create|].
  cbn [app]. destruct (Z.eqb_spec (attach [ProgCreate file name] prog (f dev) (attach_mode (p_cfg p))) 0) as [He|He];
    cbn [negb]; [|eexists _, _; split; [done|]; by apply lo_attach].
  destruct (fd _ prog <? 0); [eexists _, _; split; [done|]; apply lo_fd|]. cbn [mbind option_bind].
  destruct (negb _); [|eexists _, _; split; [done|]; apply lo_reuse].
  destruct (pin_maps_ok access unpin pin (attach_calls file name prog (f dev) (attach_mode (p_cfg p)))
    (set_pin_dir (p_cfg p) dir) dev Hdev Hl Hdir) as (code & trace & E & H).
  unfold attach_calls in E at 1. cbn [app]. rewrite E. cbn [mbind option_bind].
  eexists code, _. split; [by destruct (Z.eqb_spec code 0) as [->|]|].
  destruct H as [[-> ->]|(Hcode & u & Hu & ->)]; [apply lo_unpin|by apply lo_pin].
Qed.

Lemma parse_events_ok f buf0 argv0 doc events p :
  length buf0 = 30%nat → config_ok f (p_cfg p) → names_ok (p_cfg p) →
  Forall ParamsCorrect.event_ok events → Forall names_fit events →
  ∃ r, parse_events f loader_options buf0 argv0 doc events p = Some r
    ∧ match r with
      | Parsed p' => config_ok f (p_cfg p') ∧ names_ok (p_cfg p')
      | Exited code _ => code = 2
      end.
Proof.
  intros Hb Hc Hn He. revert p Hc Hn.
  induction He as [|[opt arg] events He _ IH]; intros p Hc Hn Hf; cbn [parse_events]; [by eexists|].
  apply Forall_cons_1 in Hf as [Hf Hfs].
  destruct (parse_option_ok f opt arg p Hc He) as (r & E & Hr). rewrite E. cbn [mbind option_bind].
  destruct r as [p'|full]; [apply IH; try done; by eapply parse_option_names|].
  destruct (usage_ok _ _ _ _ buf0 argv0 doc full loader_table_ok Hb) as [lines ->]. by eexists.
Qed.

(** A run of the loader.  Whatever the options are, as long as [getopt_long]
    delivers the arguments the cases read and the two names fit, [main] does not
    fault, and the run is one of: usage or option error, code 2; the program
    cannot be created, attached or asked for its descriptor; attached, maps
    left alone ([--reuse-maps]); attached, and the maps pinned in
    [/sys/fs/bpf/<dev>], after removing pinned maps when the path tested exists.
    That path is [/sys/fs/bpf/<dev>/<dev>/xdp_stats_map]. *)
Theorem loader_main_outcome f access unpin pin create attach fd buf0 alloc argv0 argc events :
  length buf0 = 30%nat → Forall ParamsCorrect.event_ok events → Forall names_fit events →
  ∃ code trace,
    loader_main access unpin pin create attach fd f buf0 alloc argv0 argc events = Some (code, trace)
    ∧ loader_outcome f code trace.
Proof.
  intros Hb He Hf. unfold loader_main, parse_cmdline_args.
  destruct (options_array _ _ _ _ loader_table_ok) as [Ea Eb].
  destruct alloc; [rewrite Ea|rewrite Eb; eexists _, _; split; [done|apply lo_usage]].
  cbn [mbind option_bind Z.eqb negb].
  destruct (parse_events_ok f buf0 argv0 loader_doc events (mkParams loader_config true) Hb) as (r & -> & Hr);
    [split; try reflexivity; done|split; by eexists|done|done|].
  cbn [mbind option_bind]. destruct r as [p|code lines].
  - destruct Hr as [Hc Hn]. by apply loader_run_ok.
  - subst code. eexists _, _. split; [done|apply lo_usage].
Qed.

(** The file the statistics program opens for a device. *)
Definition stats_map_file (dev : list Z) : list Z := bpf_dir dev ++ cstr "/xdp_stats_map".

(** The loader looks for old maps in the wrong place.  When the one file of
    the file system is the map that [xdp_stats] opens for the device, the loader
    does not find it and pins without unpinning. *)
Theorem previous_maps_not_found unpin pin get info_of trace cfg dev info :
  ifname_str cfg = Some dev → (length dev < 16)%nat → read_cstr (pin_dir cfg) = Some (bpf_dir dev) →
  dev ≠ [] →
  (∃ rest, (open_bpf_map_file get info_of trace (bpf_dir dev) (cstr "xdp_stats_map") info).2
     = trace ++ ObjGet (stats_map_file dev) :: rest)
  ∧ ∃ code, pin_maps_in_bpf_object (λ _ f, if bool_decide (f = stats_map_file dev) then 0 else -1) unpin pin trace cfg
    = Some (code, trace ++ [Access (bpf_dir dev ++ cstr "/" ++ dev ++ cstr "/xdp_stats_map"); ObjPinMaps (bpf_dir dev)]).
Proof.
  intros Hd Hl Hp Hne. split.
  - unfold open_bpf_map_file.
    assert (∀ s : list Z, (length s <= 4095)%nat → take (Z.to_nat (PATH_MAX - 1)) s = s) as Ht
      by (intros s Hs; apply take_ge; change (Z.to_nat (PATH_MAX - 1)) with 4095%nat; lia).
    change (cstr "/" ++ cstr "xdp_stats_map") with (cstr "/xdp_stats_map"). fold (stats_map_file dev).
    rewrite Ht by (unfold stats_map_file, bpf_dir; rewrite !length_app; cbn [length cstr]; cbn; lia).
    destruct (_ <? 0); [by eexists|]. destruct (info_of _ _); rewrite <- app_assoc; by eexists.
  - unfold pin_maps_in_bpf_object. rewrite Hp, Hd. cbn [mbind option_bind].
    change (cstr "/" ++ map_name) with (cstr "/xdp_stats_map").
    rewrite take_ge by (unfold bpf_dir; rewrite !length_app; change (Z.to_nat (PATH_MAX - 1)) with 4095%nat; cbn [length cstr]; cbn; lia).
    rewrite bool_decide_false.
    + change (-1 =? -1) with true. change (0 =? 0) with true. cbn [negb]. change (0 =? 0) with true. cbn [negb]. rewrite <- app_assoc. by eexists.
    + unfold stats_map_file. intros H. apply app_inv_head in H. apply (f_equal length) in H.
      rewrite !length_app in H. destruct dev; [done|]. cbn [length] in H. lia.
Qed.

(** ** Witnesses *)

Definition sample_rounds (n : nat) : round :=
  mkRound (λ _, if (n <? 3)%nat then 5 else -2) (λ _, Some (mkInfo 6 9 4 16 5)) (λ _ _, None)
    (λ _ _, Some [mkRec 1 60; mkRec 2 120]) (λ key, Z.of_nat n * 1000 + key) (mkRec 0 0).

Lemma sample_cpus_ok : 0 <= 2
  ∧ ∀ n fd key values, r_lookup_percpu (sample_rounds n) fd key = Some values → zlen values = 2.
Proof. split; [lia|]. intros n fd key values H. injection H as <-. reflexivity. Qed.

Lemma stats_poll_returns_witness :
  ∃ tables, length tables = 2%nat
    ∧ stats_poll 2 sample_rounds 8 (cstr "/sys/fs/bpf/lo") 5 9 6 1 = Some (Returned 40 4, tables).
Proof.
  apply (stats_poll_returns 2 sample_rounds (cstr "/sys/fs/bpf/lo") 5 9 6 1 2 8 sample_cpus_ok); [|intros [H _]; vm_compute in H; by apply H|lia].
  intros [|[|j]] Hj; [split; vm_compute; (done || discriminate)..|lia].
Defined.

Definition lo_config : config := set_dev config0 (strncpy (cstr "lo") 16) 1.

Lemma lo_config_ok : config_ok lo_index lo_config.
Proof. split; try reflexivity; try done. intros _. exists (cstr "lo"). done. Qed.

Lemma stats_run_exits_witness :
  ∃ r, stats_run 2 sample_rounds 9 stats_options (replicate 30 0) (cstr "xdp_stats") [] 3 (mkParams lo_config true) = Some r
    ∧ match r with
      | Running => ifindex lo_config ≠ -1
      | Returned code next =>
          (ifindex lo_config = -1 ∧ code = 2)
          ∨ ∃ dir m info, ifindex lo_config ≠ -1 ∧ next = S m ∧ main_end sample_rounds dir m info code
      end.
Proof.
  apply (stats_run_exits lo_index 2 sample_rounds 9 (replicate 30 0) (cstr "xdp_stats") [] 3 (mkParams lo_config true));
    [apply lo_config_ok|done|apply sample_cpus_ok].
Defined.

Lemma failed_poll_ignored_witness :
  main_loop 2 sample_rounds 4 [] 2 info0 = main_loop 2 sample_rounds 3 [] 4 (mkInfo 6 9 4 16 5).
Proof.
  apply (failed_poll_ignored 2 sample_rounds [] 2 info0 2 sample_cpus_ok);
    [vm_compute; discriminate|reflexivity|reflexivity].
Defined.

Lemma loader_main_outcome_witness :
  ∃ code trace,
    loader_main (λ _ _, 0) (λ _ _, 0) (λ _ _, 0) (λ _ _ _, inr 3) (λ _ _ _ _, 0) (λ _ _, 4) lo_index (replicate 30 0)
      true (cstr "xdp_loader") 5 [(ch "d", Some (cstr "lo")); (2, Some (cstr "xdp_ip_hash"))] = Some (code, trace)
    ∧ loader_outcome lo_index code trace.
Proof.
  apply (loader_main_outcome lo_index (λ _ _, 0) (λ _ _, 0) (λ _ _, 0) (λ _ _ _, inr 3) (λ _ _ _ _, 0) (λ _ _, 4)); [done| |].
  - repeat (apply List.Forall_cons; [intros _; eexists; split; [reflexivity|by apply cstr_ok_dec]|]). apply List.Forall_nil.
  - repeat (apply List.Forall_cons; [split; intros ?; cbn; (done || lia)|]). apply List.Forall_nil.
Defined.

Lemma previous_maps_not_found_witness :
  ∃ code, pin_maps_in_bpf_object (λ _ f, if bool_decide (f = stats_map_file (cstr "lo")) then 0 else -1)
      (λ _ _, 0) (λ _ _, 0) [] (set_pin_dir lo_config (strncpy (bpf_dir (cstr "lo")) 512))
    = Some (code, [Access (cstr "/sys/fs/bpf/lo/lo/xdp_stats_map"); ObjPinMaps (cstr "/sys/fs/bpf/lo")]).
Proof.
  refine (proj2 (previous_maps_not_found (λ _ _, 0) (λ _ _, 0) (λ _ _, 0) (λ _ _, None) [] _ (cstr "lo") info0 _ _ _ _));
    [reflexivity|cbn; lia|vm_compute; reflexivity|done].
Defined.
