(* ===== verification/PatchPorts.v ===== *)
(** * The programs [xdp_patch_ports] and [xdp_pass] ([xdp_prog_kern_02.c])

    The alternative program of the file: it decrements the destination port of
    UDP and TCP packets and updates the transport checksum in place.  The update
    is compared with the recomputation of RFC 1071 over the pseudo-header and
    the segment. *)

From S2P Require Import Prelude Checksum Packet ParsingHelpers XdpStats.

(** ** The code *)

(** [h->dest = bpf_htons(bpf_ntohs(h->dest) - 1); h->check += bpf_htons(1);
    if (!h->check) h->check += bpf_htons(1);] for the offsets of the fields. *)
Definition patch_port (ctx : xdp_md) (dest check : Z) : option xdp_md :=
  d ← ld16 ctx dest;
  ctx ← st16 ctx dest (bpf_htons (bpf_ntohs d - 1));
  c ← ld16 ctx check;
  ctx ← st16 ctx check (u16 (c + bpf_htons 1));
  c ← ld16 ctx check;
  if c =? 0 then st16 ctx check (u16 (c + bpf_htons 1)) else Some ctx.

(** The branches on the transport protocol, up to [out]. *)
Definition patch_transport (ctx : xdp_md) (ip_type nh : Z) : option (Z * xdp_md) :=
  let data_end := xd_data_end ctx in
  if ip_type =? IPPROTO_UDP then
    '(ret, _, hdr) ← parse_udphdr ctx nh data_end;
    if ret <? 0 then Some (XDP_ABORTED, ctx) else
    udphdr ← hdr;
    ctx ← patch_port ctx (udphdr + 2) (udphdr + 6);
    Some (XDP_PASS, ctx)
  else if ip_type =? IPPROTO_TCP then
    '(ret, _, hdr) ← parse_tcphdr ctx nh data_end;
    if ret <? 0 then Some (XDP_ABORTED, ctx) else
    tcphdr ← hdr;
    ctx ← patch_port ctx (tcphdr + 2) (tcphdr + 16);
    Some (XDP_PASS, ctx)
  else Some (XDP_PASS, ctx).

Definition xdp_patch_ports_func (ctx : xdp_md) (stats : list datarec)
    : option (Z * xdp_md * list datarec) :=
  let data_end := xd_data_end ctx in
  let out (action : Z) (ctx : xdp_md) :=
    let '(ret, stats) := xdp_stats_record_action ctx action stats in Some (ret, ctx, stats) in
  '(eth_type, nh, _) ← parse_ethhdr ctx (xd_data ctx) data_end;
  if eth_type <? 0 then out XDP_ABORTED ctx else
  if eth_type =? bpf_htons ETH_P_IP then
    '(ip_type, nh, _) ← parse_iphdr ctx nh data_end;
    '(action, ctx) ← patch_transport ctx ip_type nh;
    out action ctx
  else if eth_type =? bpf_htons ETH_P_IPV6 then
    '(ip_type, nh, _) ← parse_ip6hdr ctx nh data_end;
    '(action, ctx) ← patch_transport ctx ip_type nh;
    out action ctx
  else out XDP_PASS ctx.

Definition xdp_pass_func (ctx : xdp_md) : Z := XDP_PASS.

(** ** The checksum update *)

(** The field after the update: the low byte is incremented without its carry,
    and a zero result is incremented once more. *)
Definition bump (ck : Z) : Z :=
  let c := ck / 256 * 256 + (ck + 1) mod 256 in if c =? 0 then 1 else c.

Lemma bump_range ck : 0 <= ck < 2 ^ 16 → 0 <= bump ck < 2 ^ 16.
Proof. intros H. unfold bump. pose proof (Z.mod_pos_bound (ck + 1) 256). zcase; [lia|]. nat_div. Qed.

(** Adding [bpf_htons 1] to a field loaded by a little-endian machine. *)
Lemma add_htons_1 ck :
  0 <= ck < 2 ^ 16 →
  u16 (bpf_htons ck + bpf_htons 1) = bpf_htons (ck / 256 * 256 + (ck + 1) mod 256).
Proof.
  intros H. assert (0 <= ck / 256 * 256 + (ck + 1) mod 256 < 2 ^ 16) as Hr by nat_div.
  unfold bpf_htons at 1 3. rewrite (u16_small ck), (u16_small (ck / 256 * 256 + (ck + 1) mod 256)) by done.
  change (bpf_htons 1) with 256.
  assert (∀ x, 0 <= x < 2 ^ 16 → bswap16 x = x / 256 + x mod 256 * 256) as Hb.
  { intros x Hx. replace x with (x mod 256 + x / 256 * 2 ^ 8) at 1 by nat_div.
    rewrite bswap16_bytes by (unfold byte_ok; nat_div). lia. }
  rewrite !Hb by done. unfold u16. nat_div.
Qed.

Lemma bpf_htons_0 x : 0 <= x < 2 ^ 16 → bpf_htons x = 0 ↔ x = 0.
Proof.
  intros H. split; [|by intros ->]. intros E. apply (bpf_htons_inj x 0); [done|lia|done].
Qed.

Lemma patch_port_ok ctx pre dest mid ck post :
  xd_bytes ctx = pre ++ be16 dest ++ mid ++ be16 ck ++ post →
  0 <= dest < 2 ^ 16 → 0 <= ck < 2 ^ 16 →
  patch_port ctx (xd_data ctx + zlen pre) (xd_data ctx + zlen pre + 2 + zlen mid) =
    Some (mkMd (xd_data ctx) (pre ++ be16 (u16 (dest - 1)) ++ mid ++ be16 (bump ck) ++ post)).
Proof.
  intros Hb Hd Hc. destruct ctx as [d bs]. cbn [xd_data xd_bytes] in *. subst bs. unfold patch_port.
  assert (∀ x y bs v, 0 <= y < 2 ^ 16 → length bs = 2%nat → v = bpf_htons y →
    st16 (mkMd d (pre ++ be16 x ++ mid ++ bs ++ post)) (d + zlen pre + 2 + zlen mid) v
    = Some (mkMd d (pre ++ be16 x ++ mid ++ be16 y ++ post))) as Hst.
  { intros x y bs v Hy Hl ->.
    erewrite (st16_htons_at _ (pre ++ be16 x ++ mid) bs post); [by rewrite <- !app_assoc| |done| |done].
    - cbn [xd_bytes]. by rewrite <- !app_assoc.
    - cbn [xd_data]. rewrite !length_app, be16_length. lia. }
  assert (∀ x y, 0 <= y < 2 ^ 16 →
    ld16 (mkMd d (pre ++ be16 x ++ mid ++ be16 y ++ post)) (d + zlen pre + 2 + zlen mid) = Some (bpf_htons y)) as Hld.
  { intros x y Hy. apply (ld16_field _ (pre ++ be16 x ++ mid) y post); [|done|].
    - cbn [xd_bytes]. by rewrite <- !app_assoc.
    - cbn [xd_data]. rewrite !length_app, be16_length. lia. }
  rewrite (ld16_field _ pre dest (mid ++ be16 ck ++ post)) by done. cbn [mbind option_bind].
  rewrite bpf_ntohs_htons, <- (bpf_htons_u16 (dest - 1)) by done.
  rewrite (st16_htons_at _ pre (be16 dest) (mid ++ be16 ck ++ post)) by (done || apply u16_range).
  cbn [mbind option_bind xd_data]. rewrite Hld by done. cbn [mbind option_bind].
  rewrite add_htons_1 by done. unfold bump.
  set (c1 := ck / 256 * 256 + (ck + 1) mod 256). assert (0 <= c1 < 2 ^ 16) as Hc1 by (unfold c1; nat_div).
  rewrite (Hst _ c1) by done. cbn [mbind option_bind]. rewrite Hld by done. cbn [mbind option_bind].
  destruct (Z.eqb_spec (bpf_htons c1) 0) as [E|E]; destruct (Z.eqb_spec c1 0) as [E1|E1]; try done.
  - rewrite E. apply Hst; [lia|done|reflexivity].
  - by pose proof (proj1 (bpf_htons_0 c1 Hc1) E).
  - by rewrite E1 in E.
Qed.

(** ** Validity of the transport checksum *)

Lemma checksum_valid_iff bs :
  bytes_ok bs →
  checksum_valid bs ↔ 0 < sum_list (be_words bs) ∧ sum_list (be_words bs) mod 65535 = 0.
Proof.
  intros Hok. unfold checksum_valid. pose proof (be_words_ok bs Hok) as Hw.
  rewrite oc_sum_rep by done. pose proof (sum_list_nonneg _ Hw). unfold oc_rep. zcase; [lia|]. nat_div.
Qed.

(** The sum of a segment as a function of one field. *)
Lemma sum_field (pre : list Z) x post n :
  length pre = (2 * n)%nat → 0 <= x < 2 ^ 16 →
  sum_list (be_words (pre ++ be16 x ++ post)) = sum_list (be_words pre) + x + sum_list (be_words post).
Proof.
  intros Hl Hx. rewrite (be_words_app pre _ n) by done. rewrite sum_list_app. cbn [be16 app be_words].
  cbn [sum_list foldr]. fold (sum_list (be_words post)).
  pose proof (Z.div_mod x (2 ^ 8) ltac:(lia)). lia.
Qed.

Section transport.
(** The words of the pseudo-header and the segment: the destination port and
    the checksum are 16-bit fields at even offsets. *)
Variables (pseudo pre mid post : list Z).
Variables (np nm : nat).
Hypothesis pre_even : length (pseudo ++ pre) = (2 * np)%nat.
Hypothesis mid_even : length mid = (2 * nm)%nat.

Definition segment (dest ck : Z) : list Z := pre ++ be16 dest ++ mid ++ be16 ck ++ post.

Lemma segment_sum dest ck :
  0 <= dest < 2 ^ 16 → 0 <= ck < 2 ^ 16 →
  sum_list (be_words (pseudo ++ segment dest ck)) =
    sum_list (be_words (pseudo ++ pre)) + dest + (sum_list (be_words mid) + ck + sum_list (be_words post)).
Proof.
  intros Hd Hc. unfold segment. rewrite app_assoc, (sum_field _ dest _ np) by done.
  by rewrite (sum_field mid ck post nm).
Qed.

Lemma segment_ok dest ck dest' ck' :
  bytes_ok (pseudo ++ segment dest ck) → 0 <= dest' < 2 ^ 16 → 0 <= ck' < 2 ^ 16 →
  bytes_ok (pseudo ++ segment dest' ck').
Proof.
  unfold segment. intros H Hd Hc. rewrite !Forall_app in *.
  split_and!; try tauto; by apply be16_ok.
Qed.

(** When the segment was valid, the sum modulo 2^16-1 decides. *)
Lemma patched_valid dest ck :
  bytes_ok (pseudo ++ segment dest ck) → 0 <= dest < 2 ^ 16 → 0 <= ck < 2 ^ 16 →
  checksum_valid (pseudo ++ segment dest ck) →
  checksum_valid (pseudo ++ segment (u16 (dest - 1)) (bump ck)) ↔ dest ≠ 0 ∧ ck mod 256 ≠ 255.
Proof.
  intros Hok Hd Hc Hv. pose proof (bump_range ck Hc) as Hb. pose proof (u16_range (dest - 1)) as Hu.
  pose proof (segment_ok _ _ _ _ Hok Hu Hb) as Hok'.
  apply (proj1 (checksum_valid_iff _ Hok)) in Hv as [Hpos Hz]. rewrite checksum_valid_iff by done.
  rewrite segment_sum in Hpos, Hz |- * by done.
  pose proof Hok as Hoks. unfold segment in Hoks. rewrite !Forall_app in Hoks.
  assert (0 <= sum_list (be_words (pseudo ++ pre))) as H1
    by (apply sum_list_nonneg, be_words_ok; rewrite Forall_app; tauto).
  assert (0 <= sum_list (be_words mid)) as H2 by (apply sum_list_nonneg, be_words_ok; tauto).
  assert (0 <= sum_list (be_words post)) as H3 by (apply sum_list_nonneg, be_words_ok; tauto).
  set (s := sum_list (be_words (pseudo ++ pre))) in *. set (t := sum_list (be_words mid)) in *.
  set (w := sum_list (be_words post)) in *. clearbody s t w. clear Hok Hok' Hoks.
  assert (u16 (dest - 1) = if dest =? 0 then 65535 else dest - 1) as ->.
  { unfold u16. zcase; [by subst|]. apply Z.mod_small. lia. }
  assert (bump ck = if ck mod 256 =? 255 then (if ck =? 255 then 1 else ck - 255) else ck + 1) as ->.
  { unfold bump. clear - Hc. zcase; nat_div. }
  set (x := s + dest + (t + ck + w)) in *.
  destruct (Z.eqb_spec dest 0) as [->|Hd0]; destruct (Z.eqb_spec (ck mod 256) 255) as [Ec|Ec];
    [destruct (Z.eqb_spec ck 255) as [->|Hc0]| |destruct (Z.eqb_spec ck 255) as [->|Hc0]|].
  1-5: split; [intros [_ Hm]; exfalso|by intros []].
  - replace (s + 65535 + (t + 1 + w)) with (x + (65535 - 254)) in Hm by (unfold x; lia). nat_div.
  - replace (s + 65535 + (t + (ck - 255) + w)) with (x + (65535 - 255)) in Hm by (unfold x; lia). nat_div.
  - replace (s + 65535 + (t + (ck + 1) + w)) with (x + 65535 + 1) in Hm by (unfold x; lia). nat_div.
  - replace (s + (dest - 1) + (t + 1 + w)) with (x - 255) in Hm by (unfold x; lia). nat_div.
  - replace (s + (dest - 1) + (t + (ck - 255) + w)) with (x - 256) in Hm by (unfold x; lia). nat_div.
  - replace (s + (dest - 1) + (t + (ck + 1) + w)) with x by (unfold x; lia). by split.
Qed.
End transport.

(** ** Safety *)

Lemma patch_port_safe ctx dest check :
  md_ok ctx → xd_data ctx <= dest → dest + 1 < xd_data_end ctx →
  xd_data ctx <= check → check + 1 < xd_data_end ctx →
  ∃ ctx', patch_port ctx dest check = Some ctx' ∧ md_ok ctx'
    ∧ xd_data ctx' = xd_data ctx ∧ xd_data_end ctx' = xd_data_end ctx.
Proof.
  intros Hok H1 H2 H3 H4. unfold patch_port.
  destruct (ld16_in ctx dest Hok) as (a & b & _ & _ & _ & _ & ->); [done..|]. cbn [mbind option_bind].
  destruct (st16_in ctx dest (bpf_htons (bpf_ntohs (a + b * 2 ^ 8) - 1)) Hok)
    as (c1 & -> & Hok1 & Hd1 & He1); [done..|]. cbn [mbind option_bind].
  destruct (ld16_in c1 check Hok1) as (a1 & b1 & _ & _ & _ & _ & ->); [lia..|]. cbn [mbind option_bind].
  destruct (st16_in c1 check (u16 (a1 + b1 * 2 ^ 8 + bpf_htons 1)) Hok1)
    as (c2 & -> & Hok2 & Hd2 & He2); [lia..|]. cbn [mbind option_bind].
  destruct (ld16_in c2 check Hok2) as (a2 & b2 & _ & _ & _ & _ & ->); [lia..|]. cbn [mbind option_bind].
  destruct (_ =? 0).
  - destruct (st16_in c2 check (u16 (a2 + b2 * 2 ^ 8 + bpf_htons 1)) Hok2)
      as (c3 & -> & Hok3 & Hd3 & He3); [lia..|]. exists c3. split_and!; [done|done|lia|lia].
  - exists c2. split_and!; [done|done|lia|lia].
Qed.

Lemma patch_transport_safe ctx ip_type nh :
  md_ok ctx → xd_data ctx <= nh <= xd_data_end ctx →
  ∃ action ctx', patch_transport ctx ip_type nh = Some (action, ctx') ∧ md_ok ctx'
    ∧ (action = XDP_ABORTED ∨ action = XDP_PASS)
    ∧ xd_data ctx' = xd_data ctx ∧ xd_data_end ctx' = xd_data_end ctx.
Proof.
  intros Hok Hnh. unfold patch_transport. destruct (ip_type =? IPPROTO_UDP); [|destruct (ip_type =? IPPROTO_TCP)].
  - destruct (parser_ok (parse := parse_udphdr) ctx nh Hok Hnh) as (ret & pos & hdr & -> & _ & Hpos & Hh).
    cbn [mbind option_bind]. destruct (Z.ltb_spec ret 0); [by eexists _, _; split; auto|].
    destruct hdr as [h|]; [|lia]. destruct Hh as [-> Hs]. cbn [mbind option_bind].
    destruct (patch_port_safe ctx (nh + 2) (nh + 6) Hok) as (ctx' & -> & Hok' & Hd & He); [lia..|].
    cbn [mbind option_bind]. by eexists _, _; split; auto 10.
  - destruct (parser_ok (parse := parse_tcphdr) ctx nh Hok Hnh) as (ret & pos & hdr & -> & _ & Hpos & Hh).
    cbn [mbind option_bind]. destruct (Z.ltb_spec ret 0); [by eexists _, _; split; auto|].
    destruct hdr as [h|]; [|lia]. destruct Hh as [-> Hs]. cbn [mbind option_bind].
    destruct (patch_port_safe ctx (nh + 2) (nh + 16) Hok) as (ctx' & -> & Hok' & Hd & He); [lia..|].
    cbn [mbind option_bind]. by eexists _, _; split; auto 10.
  - by eexists _, _; split; auto.
Qed.

(** ** The theorems *)

(** Safety of [xdp_patch_ports_func].  On any packet it returns without an
    access outside it, aborts or passes, keeps the packet's bounds and the
    shape of the counters. *)
Theorem patch_ports_safe ctx stats :
  md_ok ctx → length stats = 5%nat →
  ∃ action ctx' stats', xdp_patch_ports_func ctx stats = Some (action, ctx', stats')
    ∧ (action = XDP_ABORTED ∨ action = XDP_PASS) ∧ md_ok ctx' ∧ length stats' = 5%nat
    ∧ xd_data ctx' = xd_data ctx ∧ xd_data_end ctx' = xd_data_end ctx.
Proof.
  intros Hok Hst. unfold xdp_patch_ports_func.
  assert (∀ a c, a = XDP_ABORTED ∨ a = XDP_PASS → md_ok c → xd_data c = xd_data ctx → xd_data_end c = xd_data_end ctx →
    ∃ action ctx' stats',
      (let '(ret, stats) := xdp_stats_record_action c a stats in Some (ret, c, stats)) = Some (action, ctx', stats')
      ∧ (action = XDP_ABORTED ∨ action = XDP_PASS) ∧ md_ok ctx' ∧ length stats' = 5%nat
      ∧ xd_data ctx' = xd_data ctx ∧ xd_data_end ctx' = xd_data_end ctx) as Hout.
  { intros a c Ha Hc Hd He. destruct (aget_is_Some stats a) as [r Hr];
      [rewrite Hst; destruct Ha as [->| ->]; unfold XDP_ABORTED, XDP_PASS; lia|].
    rewrite (record_action_ok c a stats r) by (done || by destruct Ha as [->| ->]).
    eexists _, _, _. split; [done|]. rewrite length_insert. auto. }
  destruct (parser_ok (parse := parse_ethhdr) ctx (xd_data ctx) Hok)
    as (ty & nh & hdr & -> & _ & Hnh & _); [unfold xd_data_end; lia|]. cbn [mbind option_bind].
  destruct (ty <? 0); [by apply Hout; auto|].
  destruct (ty =? bpf_htons ETH_P_IP); [|destruct (ty =? bpf_htons ETH_P_IPV6); [|by apply Hout; auto]].
  - destruct (parser_ok (parse := parse_iphdr) ctx nh Hok) as (ty' & nh' & hdr' & -> & _ & Hnh' & _); [lia|].
    cbn [mbind option_bind].
    destruct (patch_transport_safe ctx ty' nh' Hok) as (a & c & -> & Hc & Ha & Hd & He); [lia|].
    cbn [mbind option_bind]. by apply Hout.
  - destruct (parser_ok (parse := parse_ip6hdr) ctx nh Hok) as (ty' & nh' & hdr' & -> & _ & Hnh' & _); [lia|].
    cbn [mbind option_bind].
    destruct (patch_transport_safe ctx ty' nh' Hok) as (a & c & -> & Hc & Ha & Hd & He); [lia|].
    cbn [mbind option_bind]. by apply Hout.
Qed.

Lemma patch_ports_safe_witness :
  ∃ action ctx' stats', xdp_patch_ports_func ipv4_md (replicate 5 rec0) = Some (action, ctx', stats')
    ∧ (action = XDP_ABORTED ∨ action = XDP_PASS) ∧ md_ok ctx' ∧ length stats' = 5%nat
    ∧ xd_data ctx' = 64 ∧ xd_data_end ctx' = xd_data_end ipv4_md.
Proof. apply (patch_ports_safe ipv4_md (replicate 5 rec0)); [apply ipv4_md_ok|done]. Defined.

(** The in-place checksum update.  [patch_port] decrements the port modulo
    2^16 and bumps the checksum field, nothing else.  If the checksum was valid
    over the pseudo-header and the segment, it is valid afterwards exactly when
    the port was not 0 and the low byte of the checksum was not 0xff: the
    addition of [bpf_htons(1)] to the field loses the end-around carry, and the
    wrap of the port from 0 to 0xffff does not change the sum. *)
Theorem patch_port_checksum ctx head pseudo pre mid post dest ck np nm :
  length (pseudo ++ pre) = (2 * np)%nat → length mid = (2 * nm)%nat →
  0 <= dest < 2 ^ 16 → 0 <= ck < 2 ^ 16 →
  xd_bytes ctx = head ++ segment pre mid post dest ck →
  bytes_ok (pseudo ++ segment pre mid post dest ck) →
  ∃ ck', patch_port ctx (xd_data ctx + zlen (head ++ pre)) (xd_data ctx + zlen (head ++ pre) + 2 + zlen mid)
      = Some (mkMd (xd_data ctx) (head ++ segment pre mid post (u16 (dest - 1)) ck'))
    ∧ (checksum_valid (pseudo ++ segment pre mid post dest ck) →
       checksum_valid (pseudo ++ segment pre mid post (u16 (dest - 1)) ck') ↔ dest ≠ 0 ∧ ck mod 256 ≠ 255).
Proof.
  intros Hp Hm Hd Hc Hb Hok. exists (bump ck). split.
  - rewrite (patch_port_ok ctx (head ++ pre) dest mid ck post) by
      (done || by rewrite Hb; unfold segment; rewrite <- app_assoc).
    unfold segment. by rewrite <- app_assoc.
  - intros Hv. by apply (patched_valid pseudo pre mid post np nm).
Qed.

(** An UDP segment over IPv4 whose checksum has the low byte 0xff. *)
Definition udp_pseudo : list Z := [10; 0; 0; 1; 10; 0; 0; 2; 0; 17; 0; 8].

Lemma patch_port_checksum_witness :
  ∃ ck', patch_port (mkMd 64 (segment [0; 1] [0; 8] [] 53 0xeba8)) 66 70
      = Some (mkMd 64 (segment [0; 1] [0; 8] [] 52 ck'))
    ∧ (checksum_valid (udp_pseudo ++ segment [0; 1] [0; 8] [] 53 0xeba8) →
       checksum_valid (udp_pseudo ++ segment [0; 1] [0; 8] [] 52 ck') ↔ 53 ≠ 0 ∧ 0xeba8 mod 256 ≠ 255).
Proof.
  apply (patch_port_checksum (mkMd 64 (segment [0; 1] [0; 8] [] 53 0xeba8)) [] udp_pseudo [0; 1] [0; 8] [] 53 0xeba8 7 1);
    [done|done|lia|lia|done|by apply bytes_ok_dec].
Defined.

(** The counter update of a passed or aborted packet. *)
Lemma record_pass ctx stats r :
  md_ok ctx → stats !! 2%nat = Some r →
  xdp_stats_record_action ctx XDP_PASS stats =
    (XDP_PASS, <[2%nat := mkRec (u64 (rx_packets r + 1)) (u64 (rx_bytes r + zlen (xd_bytes ctx)))]> stats).
Proof. intros Hok Hr. by rewrite (record_action_ok ctx XDP_PASS stats r). Qed.

(** An IPv4 header without options of a UDP packet. *)
Definition udp_ip_header (vi tos tot : Z) (mid ck addrs : list Z) : list Z :=
  vi :: tos :: be16 tot ++ mid ++ IPPROTO_UDP :: ck ++ addrs.

Lemma parse_udp_ip_header d pre vi tos tot mid ck addrs rest :
  length mid = 5%nat → length ck = 2%nat → length addrs = 8%nat → vi mod 16 = 5 →
  let md := mkMd d (pre ++ udp_ip_header vi tos tot mid ck addrs ++ rest) in
  parse_iphdr md (d + zlen pre) (xd_data_end md) = Some (IPPROTO_UDP, d + zlen pre + 20, Some (d + zlen pre)).
Proof.
  intros Hm Hc Ha Hvi md. unfold parse_iphdr, sizeof_iphdr.
  assert (xd_data_end md = d + zlen pre + 20 + zlen rest) as ->.
  { unfold xd_data_end, md, udp_ip_header. cbn [xd_data xd_bytes].
    rewrite !length_app. cbn [length]. rewrite !length_app. cbn [length]. rewrite length_app, be16_length. lia. }
  rewrite (proj2 (Z.ltb_ge _ (d + zlen pre + 20))) by lia.
  rewrite (ld8_at md pre vi _ (d + zlen pre)) by done. cbn [mbind option_bind].
  change 15 with (Z.ones 4). rewrite Z.land_ones by lia. change (2 ^ 4) with 16. rewrite Hvi.
  change (5 * 4) with 20. rewrite Z.ltb_irrefl, (proj2 (Z.ltb_ge _ (d + zlen pre + 20))) by lia.
  rewrite (ld8_at md (pre ++ vi :: tos :: be16 tot ++ mid) IPPROTO_UDP (ck ++ addrs ++ rest)); [done| |].
  - unfold md, udp_ip_header. list_eq.
  - unfold md. off_eq.
Qed.

(** A UDP packet over IPv4: the destination port is decremented, the
    checksum field bumped, every other byte kept, and the packet is passed and
    counted. *)
Theorem patch_ports_ipv4_udp d macs vi tos tot mid ck addrs sport dest len check payload stats r :
  length macs = 12%nat → length mid = 5%nat → length ck = 2%nat → length addrs = 8%nat →
  length sport = 2%nat → vi mod 16 = 5 →
  0 <= dest < 2 ^ 16 → 0 <= check < 2 ^ 16 → 8 <= len < 2 ^ 16 →
  let frame p c := eth_frame macs [] ETH_P_IP (udp_ip_header vi tos tot mid ck addrs
                     ++ sport ++ be16 p ++ be16 len ++ be16 c ++ payload) in
  md_ok (mkMd d (frame dest check)) → stats !! 2%nat = Some r →
  xdp_patch_ports_func (mkMd d (frame dest check)) stats
    = Some (XDP_PASS, mkMd d (frame (u16 (dest - 1)) (bump check)),
        <[2%nat := mkRec (u64 (rx_packets r + 1)) (u64 (rx_bytes r + zlen (frame dest check)))]> stats).
Proof.
  intros Hm Hmid Hck Ha Hs Hvi Hd Hc Hl frame Hok Hr. unfold xdp_patch_ports_func.
  assert (∀ p c, frame p c = (macs ++ be16 ETH_P_IP) ++ udp_ip_header vi tos tot mid ck addrs
    ++ sport ++ be16 p ++ be16 len ++ be16 c ++ payload) as Ef
    by (intros; unfold frame, eth_frame; by rewrite <- !app_assoc).
  set (hd := macs ++ be16 ETH_P_IP) in *. set (ih := udp_ip_header vi tos tot mid ck addrs) in *.
  assert (zlen hd = 14) as Hhd by (unfold hd; rewrite length_app, be16_length; lia).
  assert (zlen ih = 20) as Hih by (unfold ih, udp_ip_header; cbn [length]; rewrite !length_app;
    cbn [length]; rewrite length_app, be16_length; lia).
  rewrite (parse_ethhdr_tags (mkMd d (frame dest check)) macs [] ETH_P_IP _ eq_refl Hm) by
    (apply Forall_nil || done || (cbn; lia) || (unfold ETH_P_IP; lia) || (intros _ [?|?]; discriminate)).
  cbn [mbind option_bind xd_data length]. pose proof (bpf_htons_nonneg ETH_P_IP).
  rewrite (proj2 (Z.ltb_ge (bpf_htons ETH_P_IP) 0)), Z.eqb_refl by lia.
  replace (d + 14 + 4 * Z.of_nat 0) with (d + zlen hd) by lia. rewrite Ef.
  unfold ih at 1 2. rewrite parse_udp_ip_header by done. fold ih. cbn [mbind option_bind].
  unfold patch_transport. rewrite Z.eqb_refl. rewrite <- Ef.
  assert (ld16 (mkMd d (frame dest check)) (d + zlen hd + 20 + 4) = Some (bpf_htons len)) as El.
  { rewrite Ef. apply (ld16_field _ (hd ++ ih ++ sport ++ be16 dest) len (be16 check ++ payload)); [|lia|].
    - cbn [xd_bytes]. by rewrite <- !app_assoc.
    - cbn [xd_data]. rewrite !length_app, be16_length. lia. }
  assert (xd_data_end (mkMd d (frame dest check)) = d + zlen hd + 28 + zlen payload) as Hend.
  { unfold xd_data_end. rewrite Ef. cbn [xd_data xd_bytes]. rewrite !length_app, !be16_length. lia. }
  unfold parse_udphdr, sizeof_udphdr. rewrite (proj2 (Z.ltb_ge _ _)) by lia. rewrite El. cbn [mbind option_bind].
  rewrite udp_len_value, bpf_ntohs_htons by lia. rewrite (proj2 (Z.ltb_ge (len - 8) 0)) by lia.
  cbn [mbind option_bind]. rewrite (proj2 (Z.ltb_ge (len - 8) 0)) by lia. cbn [mbind option_bind].
  pose proof (patch_port_ok (mkMd d (frame dest check)) (hd ++ ih ++ sport) dest (be16 len) check payload) as E.
  cbn [xd_data xd_bytes] in E.
  replace (d + zlen (hd ++ ih ++ sport)) with (d + zlen hd + 20 + 2) in E by (rewrite !length_app; lia).
  replace (d + zlen hd + 20 + 2 + 2 + zlen (be16 len)) with (d + zlen hd + 20 + 6) in E by (rewrite be16_length; lia).
  rewrite E by (done || by rewrite Ef, <- !app_assoc). cbn [mbind option_bind].
  replace ((hd ++ ih ++ sport) ++ be16 (u16 (dest - 1)) ++ be16 len ++ be16 (bump check) ++ payload)
    with (frame (u16 (dest - 1)) (bump check)) by (by rewrite Ef, <- !app_assoc).
  assert (zlen (frame (u16 (dest - 1)) (bump check)) = zlen (frame dest check)) as <-
    by (rewrite !Ef, !length_app, !be16_length; lia).
  rewrite (record_pass _ _ r); [done| |done].
  destruct Hok as [Hok1 Hok2 Hok3]. unfold xd_data_end in Hok2. rewrite Ef in Hok2, Hok3. split; [done| |].
  - unfold xd_data_end. rewrite Ef. cbn [xd_data xd_bytes] in *. rewrite !length_app, !be16_length in *. lia.
  - rewrite Ef. cbn [xd_bytes] in *. rewrite !Forall_app in *. pose proof (bump_range check Hc).
    split_and!; try tauto; apply be16_ok; [apply u16_range|done].
Qed.

Lemma patch_ports_ipv4_udp_witness :
  let frame p c := eth_frame (replicate 12 7) [] ETH_P_IP (udp_ip_header 0x45 0 29 [0; 1; 0; 0; 64] [9; 9]
    [10; 0; 0; 1; 10; 0; 0; 2] ++ [0; 1] ++ be16 p ++ be16 9 ++ be16 c ++ [65]) in
  xdp_patch_ports_func (mkMd 64 (frame 53 0x12fe)) (replicate 5 rec0)
    = Some (XDP_PASS, mkMd 64 (frame (u16 (53 - 1)) (bump 0x12fe)),
        <[2%nat := mkRec (u64 (0 + 1)) (u64 (0 + zlen (frame 53 0x12fe)))]> (replicate 5 rec0)).
Proof.
  apply (patch_ports_ipv4_udp 64 (replicate 12 7) 0x45 0 29 [0; 1; 0; 0; 64] [9; 9] [10; 0; 0; 1; 10; 0; 0; 2]
    [0; 1] 53 9 0x12fe [65] (replicate 5 rec0) rec0); try reflexivity; [lia|lia|lia|].
  split; [zeval|zeval|by apply bytes_ok_dec].
Defined.

(** Malformed packets.  A frame shorter than an Ethernet header and an IPv6
    packet whose UDP header is cut off are aborted; an IPv4 packet with a
    cut-off IP header is passed, since its negative type matches no protocol.
    None of them is changed. *)
Theorem patch_ports_malformed ctx stats :
  md_ok ctx → length stats = 5%nat →
  let out action := Some (action, ctx, (xdp_stats_record_action ctx action stats).2) in
  (zlen (xd_bytes ctx) < 14 → xdp_patch_ports_func ctx stats = out XDP_ABORTED)
  ∧ (∀ macs payload, length macs = 12%nat → xd_bytes ctx = eth_frame macs [] ETH_P_IP payload →
      zlen payload < 20 → xdp_patch_ports_func ctx stats = out XDP_PASS)
  ∧ (∀ macs v6 hop rest, length macs = 12%nat → length v6 = 6%nat → length hop = 33%nat →
      xd_bytes ctx = eth_frame macs [] ETH_P_IPV6 (v6 ++ IPPROTO_UDP :: hop ++ rest) →
      zlen rest < 8 → xdp_patch_ports_func ctx stats = out XDP_ABORTED).
Proof.
  intros Hok Hst out.
  assert (∀ a, a = XDP_ABORTED ∨ a = XDP_PASS →
    (let '(ret, stats) := xdp_stats_record_action ctx a stats in Some (ret, ctx, stats)) = out a) as Hout.
  { intros a Ha. unfold out. destruct (aget_is_Some stats a) as [r Hr];
      [rewrite Hst; destruct Ha as [->| ->]; unfold XDP_ABORTED, XDP_PASS; lia|].
    by rewrite (record_action_ok ctx a stats r) by (done || by destruct Ha as [->| ->]). }
  split_and!; unfold xdp_patch_ports_func.
  - intros Hs. unfold parse_ethhdr, parse_ethhdr_vlan, sizeof_ethhdr.
    rewrite (proj2 (Z.ltb_lt _ _)) by (unfold xd_data_end; lia). cbn [mbind option_bind].
    by apply Hout; left.
  - intros macs payload Hm Hb Hp.
    rewrite (parse_ethhdr_tags ctx macs [] ETH_P_IP payload Hb Hm) by
      (apply Forall_nil || done || (cbn; lia) || (unfold ETH_P_IP; lia) || (intros _ [?|?]; discriminate)).
    cbn [mbind option_bind length]. pose proof (bpf_htons_nonneg ETH_P_IP).
    rewrite (proj2 (Z.ltb_ge (bpf_htons ETH_P_IP) 0)), Z.eqb_refl by lia.
    unfold parse_iphdr, sizeof_iphdr. rewrite (proj2 (Z.ltb_lt _ _)).
    2: { unfold xd_data_end. rewrite Hb. unfold eth_frame. cbn [map concat app]. off_eq. }
    cbn [mbind option_bind]. by apply Hout; right.
  - intros macs v6 hop rest Hm Hv Hh Hb Hp.
    rewrite (parse_ethhdr_tags ctx macs [] ETH_P_IPV6 _ Hb Hm) by
      (apply Forall_nil || done || (cbn; lia) || (unfold ETH_P_IPV6; lia) || (intros _ [?|?]; discriminate)).
    cbn [mbind option_bind length]. pose proof (bpf_htons_nonneg ETH_P_IPV6).
    rewrite (proj2 (Z.ltb_ge (bpf_htons ETH_P_IPV6) 0)) by lia.
    change (bpf_htons ETH_P_IPV6 =? bpf_htons ETH_P_IP) with false. cbn match. rewrite Z.eqb_refl.
    assert (xd_data_end ctx = xd_data ctx + 54 + zlen rest) as Hend.
    { unfold xd_data_end. rewrite Hb. unfold eth_frame. cbn [map concat app]. off_eq. }
    unfold parse_ip6hdr, sizeof_ipv6hdr. rewrite (proj2 (Z.ltb_ge _ _)) by lia.
    assert (ld8 ctx (xd_data ctx + 14 + 4 * Z.of_nat 0 + 6) = Some IPPROTO_UDP) as ->.
    { apply (ld8_at ctx (macs ++ be16 ETH_P_IPV6 ++ v6) IPPROTO_UDP (hop ++ rest));
        [rewrite Hb; unfold eth_frame; cbn [map concat]; list_eq|off_eq]. }
    cbn [mbind option_bind]. unfold patch_transport. rewrite Z.eqb_refl.
    unfold parse_udphdr, sizeof_udphdr. rewrite (proj2 (Z.ltb_lt _ _)) by lia. cbn [mbind option_bind].
    by apply Hout; left.
Qed.

Definition cut_udp6 : xdp_md :=
  mkMd 64 (eth_frame (replicate 12 7) [] ETH_P_IPV6 (replicate 6 0 ++ IPPROTO_UDP :: replicate 33 0 ++ [1; 2])).

Lemma patch_ports_malformed_witness :
  xdp_patch_ports_func cut_udp6 (replicate 5 rec0) =
    Some (XDP_ABORTED, cut_udp6, (xdp_stats_record_action cut_udp6 XDP_ABORTED (replicate 5 rec0)).2).
Proof.
  assert (md_ok cut_udp6) as Hok by (split; [zeval|zeval|by apply bytes_ok_dec]).
  apply (proj2 (proj2 (patch_ports_malformed cut_udp6 (replicate 5 rec0) Hok eq_refl)) (replicate 12 7)
    (replicate 6 0) (replicate 33 0) [1; 2]); try reflexivity.
Defined.
