(* ===== verification/XdpIpHash.v ===== *)
(** * The program [xdp_ip_hash] ([packet-solutions/xdp_prog_kern_02.c])

    For an IPv4 packet the program zeroes the header checksum, hashes a key and
    the first 20 bytes of the IP header, inserts the digest as an IP option of
    36 bytes behind the fixed header and recomputes the checksum.  A run is a
    function of the context, of the two hash maps and of this CPU's statistics;
    [hash0] is the indeterminate content of the stack array [hash_result]. *)

From S2P Require Import Prelude Sha256Spec Sha256 Sha256Correct Checksum Packet ParsingHelpers XdpStats.

(** ** Constants *)

Definition IP_OPT_HASH_ID : Z := 25.
Definition IP_OPT_HASH_LEN : Z := 36.
Definition ETHERNET_HEADER_SIZE : Z := 14.

Definition SECRET_KEY : list Z :=
  [ 0x4b; 0x75; 0x8f; 0x94; 0x98; 0xd3; 0x31; 0x26;
    0x16; 0xec; 0xc2; 0x61; 0x99; 0x43; 0x76; 0x45 ].

(** The assignments [temp->buffer[i] = SECRET_KEY[j]], as pairs [(i, j)]. *)
Definition key_assignments : list (Z * Z) :=
  [(0, 0); (1, 1); (2, 1); (3, 1); (4, 1); (5, 1); (6, 1); (7, 1);
   (8, 1); (9, 1); (10, 1); (11, 1); (12, 1); (13, 1); (14, 1); (15, 1)].

(** ** [compute_keyed_hash] *)

Fixpoint put_key (l : list (Z * Z)) (buffer : list Z) : option (list Z) :=
  match l with
  | [] => Some buffer
  | (i, j) :: l' => b ← aget SECRET_KEY j; buffer ← aset buffer i b; put_key l' buffer
  end.

(** The twenty guarded copies, the [j]-th of them. *)
Definition copy_body (ctx : xdp_md) (data data_end max_copy j : Z) (buffer : list Z)
    : option (ctl (list Z)) :=
  if (j + 1 <=? max_copy) && (data + j <? data_end) then
    b ← ld8 ctx (data + j);
    buffer ← aset buffer (16 + j) b;
    Some (Next buffer)
  else Some (Next buffer).

Definition compute_keyed_hash (ctx : xdp_md) (data data_len : Z) (hash : list Z) (σ : bpf_maps)
    : option (Z * list Z * bpf_maps) :=
  let data_end := xd_data_end ctx in
  if data_end <? data + data_len then Some (-1, hash, σ) else
  match sha256_temp_map σ with
  | None => Some (-1, hash, σ)
  | Some temp =>
      temp ← put_key key_assignments temp;
      let max_copy := if 20 <? data_len then 20 else data_len in
      temp ← for_loop 0 20 (copy_body ctx data data_end max_copy) temp;
      let σ := (sha256_init (mkMaps (sha256_ctx_map σ) (Some temp))).2 in
      '(_, σ) ← sha256_update TempBuffer (16 + max_copy) σ;
      '(_, hash, σ) ← sha256_final hash σ;
      Some (0, hash, σ)
  end.

(** ** [add_ip_option_hash] *)

(** Iteration [i = 4 q] of the unrolled copy of the hash into the option. *)
Definition option_body (options : Z) (hash : list Z) (q : Z) (ctx : xdp_md) : option (ctl xdp_md) :=
  let i := 4 * q in
  if (i + 3 <? 32) && (4 + i + 3 <? IP_OPT_HASH_LEN) then
    h0 ← aget hash i; ctx ← st8 ctx (options + (4 + i)) h0;
    h1 ← aget hash (i + 1); ctx ← st8 ctx (options + (4 + i + 1)) h1;
    h2 ← aget hash (i + 2); ctx ← st8 ctx (options + (4 + i + 2)) h2;
    h3 ← aget hash (i + 3); ctx ← st8 ctx (options + (4 + i + 3)) h3;
    Some (Next ctx)
  else Some (Next ctx).

Section program.
Context `{XdpHelpers}.

(** [iph->ihl = n]: the low nibble of the first byte. *)
Definition set_ihl (b n : Z) : Z := Z.lor (Z.land b 0xF0) (Z.land n 15).

Definition add_ip_option_hash (ctx : xdp_md) (hash : list Z) : option (Z * xdp_md) :=
  let sizeof_copy := ETHERNET_HEADER_SIZE + sizeof_iphdr in
  if xd_data_end ctx <? xd_data ctx + sizeof_copy then Some (-1, ctx) else
  headers_copy ← ld_bytes ctx (xd_data ctx) (Z.to_nat sizeof_copy);
  let '(ret, ctx) := bpf_xdp_adjust_head ctx (0 - IP_OPT_HASH_LEN) in
  if negb (ret =? 0) then Some (-1, ctx) else
  let data_end := xd_data_end ctx in
  let data := xd_data ctx in
  if data_end <? data + sizeof_copy then Some (-1, ctx) else
  ctx ← st_bytes ctx data headers_copy;
  let new_ip := data + ETHERNET_HEADER_SIZE in
  if data_end <? new_ip + sizeof_iphdr then Some (-1, ctx) else
  b0 ← ld8 ctx new_ip;
  ctx ← st8 ctx new_ip (set_ihl b0 ((sizeof_iphdr + IP_OPT_HASH_LEN) / 4));
  tot_len ← ld16 ctx (new_ip + 2);
  ctx ← st16 ctx (new_ip + 2) (bpf_htons (bpf_ntohs tot_len + IP_OPT_HASH_LEN));
  ctx ← st16 ctx (new_ip + 10) 0;
  let options := new_ip + sizeof_iphdr in
  if data_end <? options + IP_OPT_HASH_LEN then Some (-1, ctx) else
  ctx ← st8 ctx options IP_OPT_HASH_ID;
  ctx ← st8 ctx (options + 1) IP_OPT_HASH_LEN;
  ctx ← st8 ctx (options + 2) 0x12;
  ctx ← st8 ctx (options + 3) 0x34;
  ctx ← for_loop 0 8 (option_body options hash) ctx;
  b0 ← ld8 ctx new_ip;
  let header_len := Z.land b0 15 * 4 in
  check ← calculate_ip_checksum (view ctx new_ip) header_len;
  ctx ← st16 ctx (new_ip + 10) check;
  Some (0, ctx).

(** ** [xdp_ip_hash_func] *)

Record kstate : Type := mkK {
  k_ctx : xdp_md;
  k_maps : bpf_maps;
  k_stats : list datarec;
}.

(** [out: return xdp_stats_record_action(ctx, action);] *)
Definition finish (k : kstate) (action : Z) : Z * kstate :=
  let '(ret, stats) := xdp_stats_record_action (k_ctx k) action (k_stats k) in
  (ret, mkK (k_ctx k) (k_maps k) stats).

(** The branch of IPv4 packets, from the cursor behind the Ethernet header. *)
Definition process_ipv4 (k : kstate) (nh : Z) (hash0 : list Z) : option (Z * kstate) :=
  let ctx := k_ctx k in
  let data_end := xd_data_end ctx in
  '(ip_type, _, hdr) ← parse_iphdr ctx nh data_end;
  if ip_type <? 0 then Some (XDP_ABORTED, k) else
  iphdr ← hdr;
  if data_end <? iphdr + sizeof_iphdr then Some (XDP_ABORTED, k) else
  b0 ← ld8 ctx iphdr;
  let header_size := Z.land b0 15 * 4 in
  if data_end <? iphdr + header_size then Some (XDP_ABORTED, k) else
  ctx ← st16 ctx (iphdr + 10) 0;
  '(ret, hash, σ) ← compute_keyed_hash ctx iphdr header_size hash0 (k_maps k);
  if ret =? 0 then
    '(_, ctx) ← add_ip_option_hash ctx hash;
    Some (XDP_PASS, mkK ctx σ (k_stats k))
  else Some (XDP_PASS, mkK ctx σ (k_stats k)).

Definition xdp_ip_hash_func (k : kstate) (hash0 : list Z) : option (Z * kstate) :=
  let ctx := k_ctx k in
  '(eth_type, nh, _) ← parse_ethhdr ctx (xd_data ctx) (xd_data_end ctx);
  if eth_type <? 0 then Some (finish k XDP_ABORTED) else
  if eth_type =? bpf_htons ETH_P_IP then
    '(action, k) ← process_ipv4 k nh hash0; Some (finish k action)
  else if eth_type =? bpf_htons ETH_P_IPV6 then Some (finish k XDP_PASS)
  else Some (finish k XDP_PASS).
End program.
