(* ===== verification/KeyedHash.v ===== *)
(** * Correctness of [compute_keyed_hash]

    The keyed hash is the SHA-256 digest of 16 key bytes followed by at most 20
    bytes of the IP header.  The key that reaches the hash is [effective_key],
    not [SECRET_KEY]: the assignments use index 1 for 15 of the 16 bytes. *)

From S2P Require Import Prelude Sha256Spec Sha256 Sha256Correct Packet XdpIpHash.

(** The 16 bytes the explicit assignments store. *)
Definition effective_key : list Z := 0x4b :: replicate 15 0x75.

(** The data length that is hashed. *)
Definition hashed_len (len : Z) : nat := Z.to_nat (Z.min 20 len).

(** The digest the program computes over the bytes at [data]. *)
Definition keyed_hash (ctx : xdp_md) (data len : Z) : list Z :=
  sha256 (effective_key ++ take (hashed_len len) (view ctx data)).

(** ** The key *)

(** Assignments to consecutive elements replace a segment. *)
Lemma put_key_segment js : ∀ pre old rest bs,
  length old = length js → mapM (aget SECRET_KEY) js = Some bs →
  put_key (zip (map Z.of_nat (seq (length pre) (length js))) js) (pre ++ old ++ rest)
    = Some (pre ++ bs ++ rest).
Proof.
  induction js as [|j js IH]; intros pre old rest bs Hl Hb.
  { injection Hb as <-. by destruct old. }
  destruct old as [|o old]; [discriminate Hl|]. cbn [length] in Hl. cbn in Hb.
  destruct (aget SECRET_KEY j) as [b|] eqn:E; [|discriminate Hb]. cbn in Hb.
  destruct (mapM (aget SECRET_KEY) js) as [bs'|] eqn:E'; [|discriminate Hb]. injection Hb as <-.
  cbn [length seq map zip zip_with put_key]. rewrite E. cbn [mbind option_bind app].
  rewrite aset_eq by (rewrite length_app; cbn; lia). cbn [mbind option_bind].
  rewrite Nat2Z.id, insert_app_r_alt, Nat.sub_diag by lia. cbn [insert list_insert].
  specialize (IH (pre ++ [b]) old rest bs' ltac:(lia) eq_refl).
  rewrite length_app, Nat.add_1_r, <- !app_assoc in IH. exact IH.
Qed.

Lemma put_key_ok temp :
  (16 <= length temp)%nat → put_key key_assignments temp = Some (effective_key ++ drop 16 temp).
Proof.
  intros Hl.
  change key_assignments with
    (zip (map Z.of_nat (seq (@length Z []) (length (0 :: replicate 15 1)))) (0 :: replicate 15 1)).
  rewrite <- (take_drop 16 temp) at 1.
  apply (put_key_segment _ [] (take 16 temp)); [by rewrite length_take_le by lia|done].
Qed.

(** ** The copy of the data *)

Lemma take_app_insert {A} (l : list A) n x :
  (n < length l)%nat → take (S n) (<[n := x]> l) = take n l ++ [x].
Proof.
  intros H. rewrite (take_S_r _ _ x) by (apply list_lookup_insert_eq; lia).
  by rewrite take_insert_ge by lia.
Qed.

Lemma view_lookup ctx p b (n : nat) :
  xd_data ctx <= p → ld8 ctx (p + Z.of_nat n) = Some b → view ctx p !! n = Some b.
Proof.
  intros Hp. unfold ld8, view. intros H. pose proof (aget_range _ _ _ H).
  rewrite aget_to_nat in H by lia. rewrite lookup_drop, <- H. f_equal. lia.
Qed.

Lemma copy_loop_ok ctx data len temp :
  xd_data ctx <= data → 0 <= len → data + len <= xd_data_end ctx → (36 <= length temp)%nat →
  ∃ temp', for_loop 0 20 (copy_body ctx data (xd_data_end ctx) (Z.min 20 len)) temp = Some temp'
    ∧ length temp' = length temp
    ∧ take (16 + hashed_len len) temp' = take 16 temp ++ take (hashed_len len) (view ctx data).
Proof.
  intros Hd Hlen Hend Ht.
  set (n i := Z.to_nat (Z.min i (Z.min 20 len))).
  destruct (for_loop_inv (λ i t, length t = length temp
      ∧ take (16 + n i) t = take 16 temp ++ take (n i) (view ctx data))
    (copy_body ctx data (xd_data_end ctx) (Z.min 20 len)) 0 20 temp) as (t & E & Hl & Hc); [lia| | |].
  - intros i t Hi [Hl Hc]. unfold copy_body.
    destruct (Z.leb_spec (i + 1) (Z.min 20 len)) as [Hle|Hgt]; cbn [andb].
    + rewrite (proj2 (Z.ltb_lt _ _)) by lia.
      destruct (ld8_in ctx (data + i)) as [b Eb]; [lia|]. rewrite Eb. cbn [mbind option_bind].
      rewrite aset_eq by lia. cbn [mbind option_bind]. eexists. split; [done|].
      rewrite length_insert. split; [done|].
      assert (n i = Z.to_nat i) as Ei by (unfold n; lia).
      assert (n (i + 1) = S (Z.to_nat i)) as -> by (unfold n; lia). rewrite Ei in Hc.
      replace (Z.to_nat (16 + i)) with (16 + Z.to_nat i)%nat by lia.
      rewrite Nat.add_succ_r, take_app_insert, Hc by lia.
      rewrite (take_S_r (view ctx data) _ b); [by rewrite app_assoc|].
      apply view_lookup; [done|]. by rewrite Z2Nat.id by lia.
    + eexists. split; [done|]. split; [done|]. by replace (n (i + 1)) with (n i) by (unfold n; lia).
  - split; [done|]. replace (n 0) with 0%nat by (unfold n; lia). by rewrite take_0, app_nil_r.
  - exists t. split; [done|]. split; [done|].
    replace (n 20) with (hashed_len len) in Hc by (unfold n, hashed_len; lia). done.
Qed.

(** ** The function *)

Lemma set_temp_ok c σ t t' :
  maps_ok c σ → sha256_temp_map σ = Some t → length t' = length t →
  maps_ok c (mkMaps (sha256_ctx_map σ) (Some t')).
Proof.
  intros [Hc (t0 & Ht0 & HL) Hl Hb Hs] Ht Hlt.
  rewrite Ht in Ht0. injection Ht0 as <-. split; [done| |done..]. exists t'. split; [done|congruence].
Qed.

Lemma effective_key_ok : bytes_ok effective_key.
Proof. by apply bytes_ok_dec. Qed.

Lemma compute_keyed_hash_ok ctx c σ data len hash :
  md_ok ctx → maps_ok c σ → xd_data ctx <= data → 0 <= len → data + len <= xd_data_end ctx →
  length hash = 32%nat →
  ∃ c' σ', compute_keyed_hash ctx data len hash σ = Some (0, keyed_hash ctx data len, σ')
    ∧ maps_ok c' σ'.
Proof.
  intros Hok Hm Hd Hlen Hend Hh. unfold compute_keyed_hash.
  rewrite (proj2 (Z.ltb_ge _ _)) by lia.
  destruct (mo_temp _ _ Hm) as (t & Ht & HL). rewrite Ht.
  rewrite put_key_ok by lia. cbn [mbind option_bind].
  replace (if 20 <? len then 20 else len) with (Z.min 20 len) by (zcase; lia).
  destruct (copy_loop_ok ctx data len (effective_key ++ drop 16 t)) as (t' & -> & Hl' & Htk);
    [done..|rewrite length_app, length_drop; cbn; lia|]. cbn [mbind option_bind].
  assert (length t' = 384%nat) as HL' by (rewrite Hl', length_app, length_drop; cbn; lia).
  rewrite (take_app_length' effective_key) in Htk by done.
  assert (16 + Z.min 20 len = Z.of_nat (16 + hashed_len len)) as -> by (unfold hashed_len; lia).
  destruct (sha256_temp_run_ok c (mkMaps (sha256_ctx_map σ) (Some t')) t' (16 + hashed_len len) hash)
    as (c' & σ' & E & Hm'); [by eapply set_temp_ok; [done..|congruence]|done| | |done|].
  - rewrite Htk. apply Forall_app_2; [apply effective_key_ok|]. by apply Forall_take, view_ok.
  - unfold hashed_len. lia.
  - exists c', σ'. split; [|done]. rewrite Htk in E. unfold sha256_temp_run in E.
    destruct (sha256_update _ _ _) as [[r σ2]|]; [|discriminate E]. cbn in E |- *. by rewrite E.
Qed.

(** ** The errors *)

Lemma compute_keyed_hash_out_of_bounds ctx data len hash σ :
  xd_data_end ctx < data + len → compute_keyed_hash ctx data len hash σ = Some (-1, hash, σ).
Proof. intros H. unfold compute_keyed_hash. by rewrite (proj2 (Z.ltb_lt _ _)). Qed.

Lemma compute_keyed_hash_no_temp ctx data len hash σ :
  sha256_temp_map σ = None → compute_keyed_hash ctx data len hash σ = Some (-1, hash, σ).
Proof. intros H. unfold compute_keyed_hash. rewrite H. by destruct (_ <? _). Qed.

(** Without a context entry nothing is hashed, and the code does not notice. *)
Lemma compute_keyed_hash_no_ctx ctx data len hash t :
  xd_data ctx <= data → 0 <= len → data + len <= xd_data_end ctx → length t = 384%nat →
  ∃ t', compute_keyed_hash ctx data len hash (mkMaps None (Some t)) = Some (0, hash, mkMaps None (Some t'))
    ∧ length t' = 384%nat.
Proof.
  intros Hd Hlen Hend HL. unfold compute_keyed_hash. rewrite (proj2 (Z.ltb_ge _ _)) by lia.
  cbn [sha256_temp_map sha256_ctx_map]. rewrite put_key_ok by lia. cbn [mbind option_bind].
  replace (if 20 <? len then 20 else len) with (Z.min 20 len) by (zcase; lia).
  destruct (copy_loop_ok ctx data len (effective_key ++ drop 16 t)) as (t' & -> & Hl' & _);
    [done..|rewrite length_app, length_drop; cbn; lia|]. cbn.
  exists t'. split; [done|]. rewrite Hl', length_app, length_drop. cbn. lia.
Qed.

(** ** The theorems *)

(** A packet whose IPv4 header starts at address 78. *)
Definition hash_md : xdp_md :=
  mkMd 64 (replicate 12 7 ++ be16 0x0800
    ++ 0x46 :: 0 :: be16 24 ++ [0; 1; 0; 0; 64; 17] ++ [0; 0] ++ [10; 0; 0; 1; 10; 0; 0; 2] ++ [1; 1; 1; 0]).

Lemma hash_md_ok : md_ok hash_md.
Proof. split; [zeval|zeval|by apply bytes_ok_dec]. Qed.

(** For a header inside the packet and map entries of the declared sizes,
    [compute_keyed_hash] returns 0 without a fault, writes to [hash] the
    SHA-256 digest of the 16 effective key bytes followed by the first
    min(20, data_len) bytes at [data], and leaves well-formed entries. *)
Theorem compute_keyed_hash_digest ctx c σ data len hash :
  md_ok ctx → maps_ok c σ → xd_data ctx <= data → 0 <= len → data + len <= xd_data_end ctx →
  length hash = 32%nat →
  ∃ c' σ', compute_keyed_hash ctx data len hash σ =
      Some (0, sha256 (effective_key ++ take (Z.to_nat (Z.min 20 len)) (view ctx data)), σ')
    ∧ maps_ok c' σ'.
Proof. apply compute_keyed_hash_ok. Qed.

Lemma compute_keyed_hash_digest_witness :
  ∃ c' σ', compute_keyed_hash hash_md 78 24 (replicate 32 0) maps0 =
      Some (0, sha256 (effective_key ++ take (Z.to_nat (Z.min 20 24)) (view hash_md 78)), σ')
    ∧ maps_ok c' σ'.
Proof.
  apply (compute_keyed_hash_digest hash_md ctx0); [apply hash_md_ok|apply maps0_ok|zeval|lia|zeval|done].
Defined.

(** The error branches of [compute_keyed_hash].  Data past the end of the
    packet, or no temporary entry: -1, and nothing is written.  A missing
    context entry goes unnoticed: the results of init, update and final are
    dropped, so the function reports success and [hash] keeps the bytes it had. *)
Theorem compute_keyed_hash_errors ctx data len hash :
  (∀ σ, xd_data_end ctx < data + len → compute_keyed_hash ctx data len hash σ = Some (-1, hash, σ))
  ∧ (∀ σ, sha256_temp_map σ = None → compute_keyed_hash ctx data len hash σ = Some (-1, hash, σ))
  ∧ (∀ t, xd_data ctx <= data → 0 <= len → data + len <= xd_data_end ctx → length t = 384%nat →
      ∃ t', compute_keyed_hash ctx data len hash (mkMaps None (Some t))
        = Some (0, hash, mkMaps None (Some t'))).
Proof.
  split_and!; intros.
  - by apply compute_keyed_hash_out_of_bounds.
  - by apply compute_keyed_hash_no_temp.
  - destruct (compute_keyed_hash_no_ctx ctx data len hash t) as (t' & E & _); [done..|]. by exists t'.
Qed.

Lemma compute_keyed_hash_errors_witness :
  ∃ t', compute_keyed_hash hash_md 78 24 (replicate 32 9) (mkMaps None (Some (replicate 384 0)))
    = Some (0, replicate 32 9, mkMaps None (Some t')).
Proof. apply (proj2 (proj2 (compute_keyed_hash_errors hash_md 78 24 (replicate 32 9)))); [zeval|lia|zeval|done]. Defined.

(** What the digest authenticates.  Two headers that agree on their first
    20 bytes get the same digest, whatever their IP options and payloads: the
    hash covers the fixed header only. *)
Theorem keyed_hash_ignores_options ctx1 ctx2 c1 c2 σ1 σ2 p1 p2 len1 len2 hash1 hash2 :
  md_ok ctx1 → md_ok ctx2 → maps_ok c1 σ1 → maps_ok c2 σ2 →
  xd_data ctx1 <= p1 → p1 + len1 <= xd_data_end ctx1 →
  xd_data ctx2 <= p2 → p2 + len2 <= xd_data_end ctx2 →
  20 <= len1 → 20 <= len2 → take 20 (view ctx1 p1) = take 20 (view ctx2 p2) →
  length hash1 = 32%nat → length hash2 = 32%nat →
  ∃ h σ1' σ2', compute_keyed_hash ctx1 p1 len1 hash1 σ1 = Some (0, h, σ1')
    ∧ compute_keyed_hash ctx2 p2 len2 hash2 σ2 = Some (0, h, σ2').
Proof.
  intros Hok1 Hok2 Hm1 Hm2 H1 H1' H2 H2' Hl1 Hl2 E Hh1 Hh2.
  destruct (compute_keyed_hash_ok ctx1 c1 σ1 p1 len1 hash1) as (? & σ1' & E1 & _); [done..|lia|done|done|].
  destruct (compute_keyed_hash_ok ctx2 c2 σ2 p2 len2 hash2) as (? & σ2' & E2 & _); [done..|lia|done|done|].
  exists (keyed_hash ctx1 p1 len1), σ1', σ2'. split; [done|]. rewrite E2. unfold keyed_hash, hashed_len.
  replace (Z.min 20 len1) with 20 by lia. replace (Z.min 20 len2) with 20 by lia.
  change (Z.to_nat 20) with 20%nat. by rewrite E.
Qed.

Lemma keyed_hash_ignores_options_witness :
  ∃ h σ1' σ2', compute_keyed_hash hash_md 78 20 (replicate 32 0) maps0 = Some (0, h, σ1')
    ∧ compute_keyed_hash hash_md 78 24 (replicate 32 0) maps0 = Some (0, h, σ2').
Proof.
  apply (keyed_hash_ignores_options hash_md hash_md ctx0 ctx0); try apply hash_md_ok; try apply maps0_ok;
    first [zeval | lia | reflexivity].
Defined.
