(* ===== verification/HashOption.v ===== *)
(** * Correctness of [add_ip_option_hash]

    On a packet of at least 34 bytes the function moves the first 34 bytes 36
    bytes down, rewrites the IPv4 header at offset 14 and writes the option
    behind its fixed part.  The result is described by [new_header]. *)

From S2P Require Import Prelude Sha256Spec Sha256Correct Checksum Packet ParsingHelpers XdpIpHash.

(** The 20 bytes of a fixed IPv4 header: version and length, TOS, total length,
    identification to protocol (6 bytes), checksum, addresses (8 bytes). *)
Definition ip_header (vi tos tot : Z) (mid ck addrs : list Z) : list Z :=
  vi :: tos :: be16 tot ++ mid ++ ck ++ addrs.

(** The option: its four bytes and the digest. *)
Definition hash_option (hash : list Z) : list Z := IP_OPT_HASH_ID :: IP_OPT_HASH_LEN :: 0x12 :: 0x34 :: hash.

(** The rewritten header with its option, for a given checksum field. *)
Definition header_with (vi tos tot : Z) (mid ck addrs hash : list Z) : list Z :=
  ip_header (set_ihl vi 14) tos (u16 (tot + 36)) mid ck addrs ++ hash_option hash.

Definition new_header (vi tos tot : Z) (mid addrs hash : list Z) : list Z :=
  header_with vi tos tot mid (be16 (rfc1071 (header_with vi tos tot mid [0; 0] addrs hash))) addrs hash.

(** ** The header length field *)

Lemma set_ihl_low b n : 0 <= n < 16 → Z.land (set_ihl b n) 15 = n.
Proof.
  intros H. unfold set_ihl. rewrite Z.land_lor_distr_l, <- !Z.land_assoc. cbn [Z.land Pos.land].
  change (Z.land 240 15) with 0. change (Z.land 15 15) with (Z.ones 4).
  rewrite Z.land_0_r, Z.land_ones by lia. by rewrite Z.mod_small by lia.
Qed.

Lemma set_ihl_ok b n : byte_ok b → byte_ok (set_ihl b n).
Proof.
  unfold byte_ok, set_ihl. intros H. apply (lor_ok 8); [lia|apply land_ok; lia|].
  rewrite Z.land_comm. destruct (Z.ltb_spec n 0).
  - change 15 with (Z.ones 4). rewrite Z.land_comm, Z.land_ones by lia.
    pose proof (Z.mod_pos_bound n (2 ^ 4)). lia.
  - apply land_ok; lia.
Qed.

Lemma rfc1071_range bs : bytes_ok bs → 0 <= rfc1071 bs < 2 ^ 16.
Proof.
  intros H. unfold rfc1071. rewrite oc_sum_rep by (by apply be_words_ok).
  pose proof (oc_rep_range (sum_list (be_words bs))). lia.
Qed.

(** ** The unrolled copy of the hash *)

(** One store into a segment that is filled from the left. *)
Lemma st8_fill d pre done old post k h :
  (k < length old)%nat → length done = k →
  st8 (mkMd d (pre ++ done ++ drop k old ++ post)) (d + zlen pre + Z.of_nat k) h
    = Some (mkMd d (pre ++ (done ++ [h]) ++ drop (S k) old ++ post)).
Proof.
  intros Hk Hl. destruct (lookup_lt_is_Some_2 old k Hk) as [o Ho].
  rewrite (drop_S old o k Ho).
  rewrite (st8_at _ (pre ++ done) o (drop (S k) old ++ post)).
  - by rewrite <- !app_assoc.
  - cbn [xd_bytes]. by rewrite <- app_assoc.
  - cbn [xd_data]. rewrite length_app. lia.
Qed.

Lemma option_body_ok d pre hash old post (q : nat) :
  length hash = 32%nat → length old = 32%nat → (q < 8)%nat →
  option_body (d + zlen pre - 4) hash (Z.of_nat q)
    (mkMd d (pre ++ take (4 * q) hash ++ drop (4 * q) old ++ post))
  = Some (Next (mkMd d (pre ++ take (4 * S q) hash ++ drop (4 * S q) old ++ post))).
Proof.
  intros Hh Ho Hq. unfold option_body, IP_OPT_HASH_LEN.
  rewrite !(proj2 (Z.ltb_lt _ _)) by lia. cbn [andb].
  destruct (lookup_lt_is_Some_2 hash (4 * q)) as [h0 E0]; [lia|].
  destruct (lookup_lt_is_Some_2 hash (4 * q + 1)) as [h1 E1]; [lia|].
  destruct (lookup_lt_is_Some_2 hash (4 * q + 2)) as [h2 E2]; [lia|].
  destruct (lookup_lt_is_Some_2 hash (4 * q + 3)) as [h3 E3]; [lia|].
  rewrite !aget_to_nat by lia.
  replace (Z.to_nat (4 * Z.of_nat q)) with (4 * q)%nat by lia.
  replace (Z.to_nat (4 * Z.of_nat q + 1)) with (4 * q + 1)%nat by lia.
  replace (Z.to_nat (4 * Z.of_nat q + 2)) with (4 * q + 2)%nat by lia.
  replace (Z.to_nat (4 * Z.of_nat q + 3)) with (4 * q + 3)%nat by lia.
  rewrite E0, E1, E2, E3. cbn [mbind option_bind].
  assert (∀ k h, hash !! k = Some h → take k hash ++ [h] = take (S k) hash) as Ht
    by (intros k h Hk; symmetry; by apply take_S_r).
  assert (∀ k h, (k < 32)%nat → hash !! k = Some h →
     st8 (mkMd d (pre ++ take k hash ++ drop k old ++ post)) (d + zlen pre + Z.of_nat k) h
     = Some (mkMd d (pre ++ take (S k) hash ++ drop (S k) old ++ post))) as Hst.
  { intros k h Hk Hl. rewrite st8_fill by (rewrite ?length_take; lia). by rewrite (Ht k h). }
  replace (d + zlen pre - 4 + (4 + 4 * Z.of_nat q)) with (d + zlen pre + Z.of_nat (4 * q)) by lia.
  rewrite Hst by (done || lia). cbn [mbind option_bind].
  replace (d + zlen pre - 4 + (4 + 4 * Z.of_nat q + 1)) with (d + zlen pre + Z.of_nat (S (4 * q))) by lia.
  rewrite Nat.add_1_r in E1. rewrite Hst by (done || lia). cbn [mbind option_bind].
  replace (d + zlen pre - 4 + (4 + 4 * Z.of_nat q + 2)) with (d + zlen pre + Z.of_nat (S (S (4 * q)))) by lia.
  replace (4 * q + 2)%nat with (S (S (4 * q))) in E2 by lia. rewrite Hst by (done || lia). cbn [mbind option_bind].
  replace (d + zlen pre - 4 + (4 + 4 * Z.of_nat q + 3)) with (d + zlen pre + Z.of_nat (S (S (S (4 * q))))) by lia.
  replace (4 * q + 3)%nat with (S (S (S (4 * q)))) in E3 by lia. rewrite Hst by (done || lia). cbn [mbind option_bind].
  by replace (4 * S q)%nat with (S (S (S (S (4 * q))))) by lia.
Qed.

Lemma option_loop_ok d pre hash old post :
  length hash = 32%nat → length old = 32%nat →
  for_loop 0 8 (option_body (d + zlen pre - 4) hash) (mkMd d (pre ++ old ++ post))
    = Some (mkMd d (pre ++ hash ++ post)).
Proof.
  intros Hh Ho.
  destruct (for_loop_inv (λ i ctx, ctx = mkMd d (pre ++ take (4 * Z.to_nat i) hash
      ++ drop (4 * Z.to_nat i) old ++ post))
    (option_body (d + zlen pre - 4) hash) 0 8 (mkMd d (pre ++ old ++ post)))
    as (s & -> & ->); [lia| |done|].
  - intros i s Hi ->. eexists. split; [|reflexivity].
    replace (Z.to_nat (i + 1)) with (S (Z.to_nat i)) by lia.
    rewrite <- (option_body_ok d pre hash old post (Z.to_nat i)) by lia. by rewrite Z2Nat.id by lia.
  - change (4 * Z.to_nat 8)%nat with 32%nat.
    by rewrite take_ge, drop_ge by lia.
Qed.

(** ** The function *)

(** [list_eq] through the layout definitions. *)
Ltac app_eq := unfold ip_header, hash_option; list_eq.

Section add_option.
Context `{XdpHelpers}.

(** The packet while the option is being written: the fixed header, the bytes
    [opt] where the option goes, and the rest. *)
Definition with_opt (l2 : list Z) (vi tos tot : Z) (mid ck addrs opt rest : list Z) : list Z :=
  l2 ++ vi :: tos :: be16 tot ++ mid ++ ck ++ addrs ++ opt ++ rest.

Variables (l2 : list Z) (vi tos tot : Z) (mid ck addrs rest : list Z).
Hypothesis l2_len : length l2 = 14%nat.
Hypothesis mid_len : length mid = 6%nat.
Hypothesis ck_len : length ck = 2%nat.
Hypothesis addrs_len : length addrs = 8%nat.
Hypothesis tot_range : 0 <= tot < 2 ^ 16.

(** Moving the headers: the fresh bytes and the old headers give the headers
    and 36 bytes for the option. *)
Lemma move_headers d fresh :
  length fresh = 36%nat →
  ∃ opt, length opt = 36%nat ∧
    st_bytes (mkMd d (fresh ++ l2 ++ ip_header vi tos tot mid ck addrs ++ rest)) d
      (l2 ++ ip_header vi tos tot mid ck addrs)
    = Some (mkMd d (with_opt l2 vi tos tot mid ck addrs opt rest)).
Proof.
  intros Hf. set (hd := l2 ++ ip_header vi tos tot mid ck addrs).
  assert (length hd = 34%nat) as Hhd by (unfold hd, ip_header; off_eq).
  exists (drop 34 (fresh ++ hd)). split; [rewrite length_drop, length_app; lia|].
  rewrite (st_bytes_at _ [] (take 34 (fresh ++ hd)) (drop 34 (fresh ++ hd) ++ rest)).
  - do 2 f_equal. unfold hd, with_opt. app_eq.
  - cbn [xd_bytes app]. rewrite (app_assoc (take _ _)), take_drop. unfold hd. by rewrite <- !app_assoc.
  - rewrite length_take_le by (rewrite length_app; lia). done.
  - cbn. lia.
Qed.

(** The three stores into the fixed header. *)
Lemma rewrite_fixed d opt :
  length opt = 36%nat →
  (b0 ← ld8 (mkMd d (with_opt l2 vi tos tot mid ck addrs opt rest)) (d + 14);
   ctx ← st8 (mkMd d (with_opt l2 vi tos tot mid ck addrs opt rest)) (d + 14) (set_ihl b0 14);
   tot_len ← ld16 ctx (d + 14 + 2);
   ctx ← st16 ctx (d + 14 + 2) (bpf_htons (bpf_ntohs tot_len + 36));
   st16 ctx (d + 14 + 10) 0)
  = Some (mkMd d (with_opt l2 (set_ihl vi 14) tos (u16 (tot + 36)) mid [0; 0] addrs opt rest)).
Proof.
  intros Ho. unfold with_opt.
  erewrite (ld8_at _ l2 vi) by (done || off_eq). cbn [mbind option_bind].
  erewrite (st8_at _ l2 vi) by (done || off_eq). cbn [mbind option_bind xd_data].
  erewrite (ld16_field _ (l2 ++ [set_ihl vi 14; tos]) tot) by (app_eq || done || off_eq).
  cbn [mbind option_bind].
  rewrite bpf_ntohs_htons, <- bpf_htons_u16 by done.
  erewrite (st16_htons_at _ (l2 ++ [set_ihl vi 14; tos]) (be16 tot)) by
    (app_eq || done || off_eq || apply u16_range).
  cbn [mbind option_bind xd_data].
  change 0 with (bpf_htons 0) at 1.
  erewrite (st16_htons_at _ (l2 ++ set_ihl vi 14 :: tos :: be16 (u16 (tot + 36)) ++ mid) ck) by
    (app_eq || done || off_eq || lia).
  do 2 f_equal. app_eq.
Qed.

(** The option's bytes: identifier, length, magic and hash. *)
Lemma write_option d hash opt :
  length opt = 36%nat → length hash = 32%nat →
  (ctx ← st8 (mkMd d (with_opt l2 vi tos tot mid ck addrs opt rest)) (d + 14 + 20) IP_OPT_HASH_ID;
   ctx ← st8 ctx (d + 14 + 20 + 1) 36;
   ctx ← st8 ctx (d + 14 + 20 + 2) 0x12;
   ctx ← st8 ctx (d + 14 + 20 + 3) 0x34;
   for_loop 0 8 (option_body (d + 14 + 20) hash) ctx)
  = Some (mkMd d (with_opt l2 vi tos tot mid ck addrs (hash_option hash) rest)).
Proof.
  change 36 with IP_OPT_HASH_LEN. intros Ho Hh. destruct opt as [|o0 [|o1 [|o2 [|o3 old]]]]; try discriminate Ho.
  set (p := l2 ++ vi :: tos :: be16 tot ++ mid ++ ck ++ addrs).
  assert (length p = 34%nat) as Hp by (unfold p; off_eq).
  assert (∀ o, with_opt l2 vi tos tot mid ck addrs o rest = p ++ o ++ rest) as Ew
    by (intros o; unfold with_opt, p; app_eq).
  rewrite !Ew. cbn [app].
  erewrite (st8_at _ p o0) by (done || off_eq). cbn [mbind option_bind xd_data].
  erewrite (st8_at _ (p ++ [IP_OPT_HASH_ID]) o1) by (app_eq || off_eq). cbn [mbind option_bind xd_data].
  erewrite (st8_at _ ((p ++ [IP_OPT_HASH_ID]) ++ [IP_OPT_HASH_LEN]) o2) by (app_eq || off_eq).
  cbn [mbind option_bind xd_data].
  erewrite (st8_at _ (((p ++ [IP_OPT_HASH_ID]) ++ [IP_OPT_HASH_LEN]) ++ [0x12]) o3) by (app_eq || off_eq).
  cbn [mbind option_bind xd_data].
  replace (d + 14 + 20) with
    (d + zlen (p ++ [IP_OPT_HASH_ID; IP_OPT_HASH_LEN; 0x12; 0x34]) - 4) by off_eq.
  replace (((p ++ [IP_OPT_HASH_ID]) ++ [IP_OPT_HASH_LEN]) ++ [0x12]) with (p ++ [IP_OPT_HASH_ID; IP_OPT_HASH_LEN; 0x12])
    by app_eq.
  pose proof (option_loop_ok d (p ++ [IP_OPT_HASH_ID; IP_OPT_HASH_LEN; 0x12; 0x34]) hash old rest Hh) as E.
  rewrite <- !app_assoc in E. cbn [app] in E. rewrite <- app_assoc. cbn [app].
  rewrite E by (cbn in Ho; lia). done.
Qed.

(** The checksum of the finished header, stored in network order. *)
Lemma store_checksum d vi' tot' hash :
  length hash = 32%nat → bytes_ok (header_with vi' tos tot' mid [0; 0] addrs hash) → bytes_ok rest →
  (b0 ← ld8 (mkMd d (l2 ++ header_with vi' tos tot' mid [0; 0] addrs hash ++ rest)) (d + 14);
   check ← calculate_ip_checksum
     (view (mkMd d (l2 ++ header_with vi' tos tot' mid [0; 0] addrs hash ++ rest)) (d + 14))
     (Z.land b0 15 * 4);
   st16 (mkMd d (l2 ++ header_with vi' tos tot' mid [0; 0] addrs hash ++ rest)) (d + 14 + 10) check)
  = Some (mkMd d (l2 ++ new_header vi' tos tot' mid addrs hash ++ rest)).
Proof.
  clear tot_range ck_len.
  intros Hh Hok Hrest. set (h := header_with vi' tos tot' mid [0; 0] addrs hash) in *.
  assert (length h = 56%nat) as Hl by (unfold h, header_with, ip_header, hash_option; off_eq).
  erewrite (ld8_at _ l2 (set_ihl vi' 14)) by (unfold h, header_with; app_eq || off_eq).
  cbn [mbind option_bind]. rewrite set_ihl_low by lia.
  assert (view (mkMd d (l2 ++ h ++ rest)) (d + 14) = h ++ rest) as ->.
  { unfold view. cbn [xd_data xd_bytes]. replace (Z.to_nat (d + 14 - d)) with (length l2) by lia.
    by rewrite drop_app_length. }
  assert (calculate_ip_checksum (h ++ rest) (14 * 4) = Some (bswap16 (rfc1071 h))) as ->.
  { rewrite <- (take_app_length' h rest 56) at 2 by done.
    apply (calculate_ip_checksum_ok _ 56); [by apply Forall_app_2|rewrite length_app; lia|lia]. }
  cbn [mbind option_bind].
  pose proof (rfc1071_range h Hok) as Hr.
  rewrite <- (u16_small (rfc1071 h) Hr). change (bswap16 (u16 (rfc1071 h))) with (bpf_htons (rfc1071 h)).
  erewrite (st16_htons_at _ (l2 ++ set_ihl vi' 14 :: tos :: be16 (u16 (tot' + 36)) ++ mid) [0; 0]) by
    (unfold h, header_with; app_eq || done || off_eq).
  do 2 f_equal. unfold new_header. fold h. generalize (be16 (rfc1071 h)). intros ck'.
  unfold header_with. app_eq.
Qed.
End add_option.

Lemma with_opt_header l2 vi tos tot mid addrs hash rest :
  with_opt l2 (set_ihl vi 14) tos (u16 (tot + 36)) mid [0; 0] addrs (hash_option hash) rest
  = l2 ++ header_with vi tos tot mid [0; 0] addrs hash ++ rest.
Proof. unfold with_opt, header_with. app_eq. Qed.

Lemma header_with_ok vi tos tot mid ck ck' addrs hash :
  bytes_ok (ip_header vi tos tot mid ck addrs) → bytes_ok ck' → bytes_ok hash →
  bytes_ok (header_with vi tos tot mid ck' addrs hash).
Proof.
  intros H Hck Hh. unfold header_with, ip_header, hash_option in *.
  apply Forall_cons_1 in H as [Hvi H]. apply Forall_cons_1 in H as [Htos H].
  apply Forall_app in H as [_ H]. apply Forall_app in H as [Hmid H]. apply Forall_app in H as [_ H].
  cbn [app]. apply List.Forall_cons; [by apply set_ihl_ok|]. apply List.Forall_cons; [done|].
  rewrite <- !app_assoc. apply Forall_app_2; [apply be16_ok, u16_range|].
  repeat (apply Forall_app_2; [done|]).
  repeat (apply List.Forall_cons; [unfold byte_ok, IP_OPT_HASH_ID, IP_OPT_HASH_LEN; lia|]). done.
Qed.

(** Execute the steps of a block whose result is the equation [H]. *)
Ltac run_steps H :=
  let E := fresh "E" in pose proof H as E; opt_inv E;
  repeat match goal with
  | E : ?a = Some _ |- ?a ≫= _ = _ => rewrite E; cbn [mbind option_bind]; clear E
  end.

(** The whole function, on success of the head adjustment. *)
Lemma add_ip_option_hash_ok `{XdpHelpers} ctx l2 vi tos tot mid ck addrs rest hash :
  length l2 = 14%nat → length mid = 6%nat → length ck = 2%nat → length addrs = 8%nat → 0 <= tot < 2 ^ 16 →
  xd_bytes ctx = l2 ++ ip_header vi tos tot mid ck addrs ++ rest → bytes_ok (xd_bytes ctx) →
  length hash = 32%nat → bytes_ok hash → (bpf_xdp_adjust_head ctx (-36)).1 = 0 →
  add_ip_option_hash ctx hash =
    Some (0, mkMd (xd_data ctx - 36) (l2 ++ new_header vi tos tot mid addrs hash ++ rest)).
Proof.
  intros Hl2 Hmid Hck Haddrs Htot Hb Hok Hh Hhok Hadj. unfold add_ip_option_hash, ETHERNET_HEADER_SIZE, sizeof_iphdr, IP_OPT_HASH_LEN.
  assert (length (l2 ++ ip_header vi tos tot mid ck addrs) = 34%nat) as H34 by (unfold ip_header; off_eq).
  assert (xd_data_end ctx = xd_data ctx + 34 + zlen rest) as Hend.
  { unfold xd_data_end. rewrite Hb, app_assoc, length_app, H34. lia. }
  rewrite Hb in Hok. apply Forall_app in Hok as [_ Hok]. apply Forall_app in Hok as [Hok1 Hok2].
  pose proof (header_with_ok vi tos tot mid ck [0; 0] addrs hash Hok1 (zeros_ok 2) Hhok) as Hok3.
  rewrite (proj2 (Z.ltb_ge _ _)) by lia.
  rewrite (ld_bytes_at ctx [] (l2 ++ ip_header vi tos tot mid ck addrs) rest) by
    (rewrite ?Hb, ?H34; app_eq || done || (cbn; lia)).
  cbn [mbind option_bind]. change (0 - 36) with (-36). change ((20 + 36) / 4) with 14.
  destruct (bpf_xdp_adjust_head ctx (-36)) as [r ctx1] eqn:E. cbn in Hadj. subst r. cbn [Z.eqb negb].
  destruct (adjust_head_grow ctx 36 ctx1 E) as (fresh & Hf & Hfok & Hpos & ->).
  rewrite Hb. change (Z.of_nat 36) with 36. cbn [xd_data]. set (d := xd_data ctx - 36).
  assert (xd_data_end (mkMd d (fresh ++ l2 ++ ip_header vi tos tot mid ck addrs ++ rest))
          = d + 70 + zlen rest) as ->.
  { unfold xd_data_end, ip_header. cbn [xd_bytes]. off_eq. }
  rewrite !(proj2 (Z.ltb_ge _ _)) by lia.
  destruct (move_headers l2 vi tos tot mid ck addrs rest Hl2 Hmid Hck Haddrs d fresh Hf) as (opt & Ho & Em).
  rewrite Em. cbn [mbind option_bind xd_data].
  run_steps (rewrite_fixed l2 vi tos tot mid ck addrs rest Hl2 Hmid Hck Haddrs Htot d opt Ho).
  run_steps (write_option l2 (set_ihl vi 14) tos (u16 (tot + 36)) mid [0; 0] addrs rest
    Hl2 Hmid eq_refl Haddrs d hash opt Ho Hh).
  rewrite with_opt_header.
  run_steps (store_checksum l2 tos mid addrs rest Hl2 Hmid Haddrs d vi tot hash Hh Hok3 Hok2).
  done.
Qed.

(** ** Errors *)

Lemma add_ip_option_hash_short `{XdpHelpers} ctx hash :
  zlen (xd_bytes ctx) < 34 → add_ip_option_hash ctx hash = Some (-1, ctx).
Proof.
  intros Hl. unfold add_ip_option_hash, xd_data_end, ETHERNET_HEADER_SIZE, sizeof_iphdr.
  by rewrite (proj2 (Z.ltb_lt _ _)) by lia.
Qed.

Lemma add_ip_option_hash_no_room `{XdpHelpers} ctx hash :
  (bpf_xdp_adjust_head ctx (-36)).1 ≠ 0 → add_ip_option_hash ctx hash = Some (-1, ctx).
Proof.
  intros Hr. unfold add_ip_option_hash, ETHERNET_HEADER_SIZE, sizeof_iphdr.
  destruct (Z.ltb_spec (xd_data_end ctx) (xd_data ctx + (14 + 20))); [done|].
  destruct (ld_bytes_in ctx (xd_data ctx) (Z.to_nat (14 + 20))) as (bs & -> & _); [lia..|].
  cbn [mbind option_bind]. change (0 - IP_OPT_HASH_LEN) with (-36).
  destruct (bpf_xdp_adjust_head ctx (-36)) as [r ctx1] eqn:E. cbn in Hr.
  rewrite (proj2 (Z.eqb_neq r 0)) by done. cbn [negb].
  by rewrite (adjust_head_fail _ _ _ _ E Hr).
Qed.

(** ** Every packet of at least 34 bytes has the shape of the lemma *)

Lemma be16_of_bytes a b : byte_ok a → byte_ok b → be16 (a * 2 ^ 8 + b) = [a; b].
Proof.
  unfold byte_ok, be16. intros Ha Hb. rewrite Z.div_add_l, Z.div_small by lia.
  rewrite (Z.add_comm (a * 2 ^ 8)), Z.mod_add, Z.mod_small by lia. by rewrite Z.add_0_r.
Qed.

Lemma split_packet l :
  bytes_ok l → (34 <= length l)%nat →
  ∃ l2 vi tos tot mid ck addrs rest, l = l2 ++ ip_header vi tos tot mid ck addrs ++ rest
    ∧ length l2 = 14%nat ∧ length mid = 6%nat ∧ length ck = 2%nat ∧ length addrs = 8%nat
    ∧ 0 <= tot < 2 ^ 16 ∧ l2 = take 14 l ∧ rest = drop 34 l.
Proof.
  intros Hok Hl. pose proof (take_drop 14 l) as E.
  destruct (drop 14 l) as [|vi [|tos [|a [|b l']]]] eqn:Ed;
    try (apply (f_equal length) in Ed; rewrite length_drop in Ed; cbn in Ed; lia).
  assert (length l' = (length l - 18)%nat) as Hl'
    by (apply (f_equal length) in Ed; rewrite length_drop in Ed; cbn in Ed; lia).
  pose proof (Forall_drop _ 14 _ Hok) as Hd. rewrite Ed in Hd.
  apply Forall_cons_1 in Hd as [_ Hd]. apply Forall_cons_1 in Hd as [_ Hd].
  apply Forall_cons_1 in Hd as [Ha Hd]. apply Forall_cons_1 in Hd as [Hb _].
  exists (take 14 l), vi, tos, (a * 2 ^ 8 + b), (take 6 l'), (take 2 (drop 6 l')),
    (take 8 (drop 2 (drop 6 l'))), (drop 8 (drop 2 (drop 6 l'))).
  assert (ip_header vi tos (a * 2 ^ 8 + b) (take 6 l') (take 2 (drop 6 l')) (take 8 (drop 2 (drop 6 l')))
    ++ drop 8 (drop 2 (drop 6 l')) = vi :: tos :: a :: b :: l') as Er.
  { unfold ip_header. rewrite be16_of_bytes by done. cbn [app].
    rewrite <- !app_assoc. by rewrite !take_drop. }
  unfold byte_ok in Ha, Hb. split_and!; [by rewrite Er| | | | | | |done|].
  1-6: rewrite ?length_take, ?length_drop; lia.
  - change l' with (drop 4 (vi :: tos :: a :: b :: l')). rewrite <- Ed. by rewrite !drop_drop.
Qed.

(** The rewritten header passes the receiver's checksum test. *)
Lemma new_header_valid vi tos tot mid ck addrs hash :
  length mid = 6%nat → bytes_ok (ip_header vi tos tot mid ck addrs) → bytes_ok hash →
  checksum_valid (new_header vi tos tot mid addrs hash).
Proof.
  intros Hm Hok Hh.
  pose proof (header_with_ok vi tos tot mid ck [0; 0] addrs hash Hok (zeros_ok 2) Hh) as Hok0.
  unfold new_header. set (r := rfc1071 _).
  set (l1 := set_ihl vi 14 :: tos :: be16 (u16 (tot + 36)) ++ mid).
  assert (∀ x y, header_with vi tos tot mid [x; y] addrs hash = l1 ++ x :: y :: addrs ++ hash_option hash) as Eh.
  { intros. unfold header_with, l1. app_eq. }
  unfold be16 at 1. rewrite Eh. apply (checksum_stored_valid l1 _ 5).
  - unfold l1. cbn [length]. rewrite length_app, be16_length. lia.
  - by rewrite <- Eh.
  - unfold r. by rewrite Eh.
Qed.

Lemma new_header_prefix vi tos tot mid addrs hash :
  ∃ r, new_header vi tos tot mid addrs hash = set_ihl vi 14 :: tos :: be16 (u16 (tot + 36)) ++ mid ++ r.
Proof.
  unfold new_header. generalize (be16 (rfc1071 (header_with vi tos tot mid [0; 0] addrs hash))). intros ck.
  exists (ck ++ addrs ++ hash_option hash). unfold header_with. app_eq.
Qed.

Lemma new_header_length vi tos tot mid addrs hash :
  length mid = 6%nat → length addrs = 8%nat → length hash = 32%nat →
  length (new_header vi tos tot mid addrs hash) = 56%nat.
Proof. intros. unfold new_header, header_with, ip_header, hash_option. off_eq. Qed.

Lemma new_header_ok vi tos tot mid ck addrs hash :
  bytes_ok (ip_header vi tos tot mid ck addrs) → bytes_ok hash → bytes_ok (new_header vi tos tot mid addrs hash).
Proof.
  intros Hok Hh. unfold new_header. eapply header_with_ok; [done| |done].
  apply be16_ok, rfc1071_range. by eapply header_with_ok; [|apply (zeros_ok 2)|].
Qed.

(** All outcomes of the function. *)
Lemma add_ip_option_hash_cases `{XdpHelpers} ctx hash :
  md_ok ctx → length hash = 32%nat → bytes_ok hash →
  ∃ ret ctx', add_ip_option_hash ctx hash = Some (ret, ctx') ∧ md_ok ctx'
    ∧ ((ret = -1 ∧ ctx' = ctx ∧ (zlen (xd_bytes ctx) < 34 ∨ (bpf_xdp_adjust_head ctx (-36)).1 ≠ 0))
       ∨ (ret = 0 ∧ 34 <= zlen (xd_bytes ctx) ∧ (bpf_xdp_adjust_head ctx (-36)).1 = 0
          ∧ xd_data_end ctx' = xd_data_end ctx ∧ zlen (xd_bytes ctx') = zlen (xd_bytes ctx) + 36)).
Proof.
  intros Hok Hh Hhok. destruct (Z.ltb_spec (zlen (xd_bytes ctx)) 34) as [Hs|Hs].
  { exists (-1), ctx. rewrite add_ip_option_hash_short by done. eauto 10. }
  destruct (decide ((bpf_xdp_adjust_head ctx (-36)).1 = 0)) as [Ha|Ha].
  2: { exists (-1), ctx. rewrite add_ip_option_hash_no_room by done. eauto 10. }
  destruct (split_packet (xd_bytes ctx)) as (l2 & vi & tos & tot & mid & ck & addrs & rest & Hb & H1 & H2 & H3 & H4 & Ht & _);
    [apply Hok|lia|].
  rewrite (add_ip_option_hash_ok ctx l2 vi tos tot mid ck addrs rest hash) by (done || apply Hok).
  eexists _, _. split; [reflexivity|]. pose proof (md_bytes _ Hok) as Hbok. rewrite Hb in Hbok.
  apply Forall_app in Hbok as [Hok1 Hbok]. apply Forall_app in Hbok as [Hok2 Hok3].
  assert (zlen (l2 ++ new_header vi tos tot mid addrs hash ++ rest) = zlen (xd_bytes ctx) + 36) as Hlen.
  { rewrite Hb, !length_app, new_header_length by done. unfold ip_header. off_eq. }
  assert (0 <= xd_data ctx - 36) as Hpos.
  { destruct (bpf_xdp_adjust_head ctx (-36)) as [r ctx1] eqn:E. cbn in Ha. subst r.
    by destruct (adjust_head_grow ctx 36 ctx1 E) as (_ & _ & _ & Hp & _). }
  split; [split|].
  - done.
  - pose proof (md_end _ Hok). unfold xd_data_end in *. cbn [xd_data xd_bytes]. lia.
  - cbn [xd_bytes]. apply Forall_app_2; [done|]. apply Forall_app_2; [|done]. by eapply new_header_ok.
  - right. unfold xd_data_end. cbn [xd_data xd_bytes]. split_and!; done || lia.
Qed.

Lemma add_option_safe `{XdpHelpers} ctx hash :
  md_ok ctx → length hash = 32%nat → bytes_ok hash →
  ∃ ret ctx', add_ip_option_hash ctx hash = Some (ret, ctx') ∧ md_ok ctx'
    ∧ xd_data_end ctx' = xd_data_end ctx.
Proof.
  intros Hok Hh Hhok. destruct (add_ip_option_hash_cases ctx hash Hok Hh Hhok) as (r & c' & E & Hok' & Hc).
  exists r, c'. split; [done|]. split; [done|]. by destruct Hc as [(_ & -> & _)|(_ & _ & _ & He & _)].
Qed.

(** ** The theorems *)

(** C5: the packet [add_ip_option_hash] builds.  On a packet with an Ethernet
    header and a fixed IPv4 header, when the kernel grants the 36 bytes, the
    function returns 0 without a fault, and the new packet is the Ethernet
    header, the rewritten header (length 14 words, total length plus 36 modulo
    2^16, checksum of the 56 bytes), the option with the digest, and everything
    that followed the fixed header, byte for byte. *)
Theorem add_ip_option_hash_layout `{XdpHelpers} ctx l2 vi tos tot mid ck addrs rest hash :
  length l2 = 14%nat → length mid = 6%nat → length ck = 2%nat → length addrs = 8%nat → 0 <= tot < 2 ^ 16 →
  xd_bytes ctx = l2 ++ ip_header vi tos tot mid ck addrs ++ rest → bytes_ok (xd_bytes ctx) →
  length hash = 32%nat → bytes_ok hash → (bpf_xdp_adjust_head ctx (-36)).1 = 0 →
  add_ip_option_hash ctx hash =
    Some (0, mkMd (xd_data ctx - 36) (l2 ++ new_header vi tos tot mid addrs hash ++ rest)).
Proof. apply add_ip_option_hash_ok. Qed.

Definition option_md : xdp_md :=
  mkMd 64 (replicate 14 7 ++ ip_header 0x45 0 21 [0; 1; 0; 0; 64; 17] [9; 9] [10; 0; 0; 1; 10; 0; 0; 2] ++ [5]).

Lemma add_ip_option_hash_layout_witness :
  add_ip_option_hash option_md (replicate 32 3) =
    Some (0, mkMd (64 - 36) (replicate 14 7
      ++ new_header 0x45 0 21 [0; 1; 0; 0; 64; 17] [10; 0; 0; 1; 10; 0; 0; 2] (replicate 32 3) ++ [5])).
Proof.
  apply (add_ip_option_hash_layout option_md (replicate 14 7) 0x45 0 21 [0; 1; 0; 0; 64; 17] [9; 9]
    [10; 0; 0; 1; 10; 0; 0; 2] [5] (replicate 32 3)); try reflexivity; [lia|by apply bytes_ok_dec..].
Defined.

(** The failures of [add_ip_option_hash].  It returns -1 and leaves the
    packet as it was when the packet is shorter than the two headers and when
    the kernel refuses the head room; there is no other failure: the bounds
    tests after the adjustment never fire. *)
Theorem add_ip_option_hash_errors `{XdpHelpers} ctx hash :
  md_ok ctx → length hash = 32%nat → bytes_ok hash →
  ∃ ret ctx', add_ip_option_hash ctx hash = Some (ret, ctx') ∧ md_ok ctx'
    ∧ ((ret = -1 ∧ ctx' = ctx ∧ (zlen (xd_bytes ctx) < 34 ∨ (bpf_xdp_adjust_head ctx (-36)).1 ≠ 0))
       ∨ (ret = 0 ∧ 34 <= zlen (xd_bytes ctx) ∧ (bpf_xdp_adjust_head ctx (-36)).1 = 0
          ∧ xd_data_end ctx' = xd_data_end ctx ∧ zlen (xd_bytes ctx') = zlen (xd_bytes ctx) + 36)).
Proof. apply add_ip_option_hash_cases. Qed.

Lemma add_ip_option_hash_errors_witness :
  ∃ ret ctx', add_ip_option_hash (mkMd 4 (xd_bytes option_md)) (replicate 32 3) = Some (ret, ctx') ∧ md_ok ctx'
    ∧ ((ret = -1 ∧ ctx' = mkMd 4 (xd_bytes option_md) ∧ (zlen (xd_bytes option_md) < 34
          ∨ (bpf_xdp_adjust_head (mkMd 4 (xd_bytes option_md)) (-36)).1 ≠ 0))
       ∨ (ret = 0 ∧ 34 <= zlen (xd_bytes option_md)
          ∧ (bpf_xdp_adjust_head (mkMd 4 (xd_bytes option_md)) (-36)).1 = 0
          ∧ xd_data_end ctx' = xd_data_end (mkMd 4 (xd_bytes option_md))
          ∧ zlen (xd_bytes ctx') = zlen (xd_bytes option_md) + 36)).
Proof.
  apply (add_ip_option_hash_errors (mkMd 4 (xd_bytes option_md)) (replicate 32 3));
    [split; [zeval|zeval|by apply bytes_ok_dec]|done|by apply bytes_ok_dec].
Defined.

(** C6: a receiver's view of the new packet.  [parse_iphdr] accepts the new
    header: it returns the protocol of the original packet and a cursor behind
    56 bytes of header, where the bytes that followed the fixed header start;
    the header checksum is valid.  When the original header had options of its
    own, those bytes are its options: the length field says 14 words whatever
    it said before, so they are taken for the start of the payload. *)
Theorem hash_option_accepted `{XdpHelpers} ctx hash ret ctx' proto :
  md_ok ctx → length hash = 32%nat → bytes_ok hash →
  add_ip_option_hash ctx hash = Some (ret, ctx') → ret = 0 → ld8 ctx (xd_data ctx + 23) = Some proto →
  let ip := xd_data ctx' + 14 in
  parse_iphdr ctx' ip (xd_data_end ctx') = Some (proto, ip + 56, Some ip)
  ∧ view ctx' (ip + 56) = view ctx (xd_data ctx + 34)
  ∧ checksum_valid (take 56 (view ctx' ip)).
Proof.
  intros Hok Hh Hhok E -> Hp.
  destruct (Z.ltb_spec (zlen (xd_bytes ctx)) 34) as [Hs|Hs].
  { by rewrite add_ip_option_hash_short in E. }
  destruct (decide ((bpf_xdp_adjust_head ctx (-36)).1 = 0)) as [Ha|Ha].
  2: { by rewrite add_ip_option_hash_no_room in E. }
  destruct (split_packet (xd_bytes ctx)) as (l2 & vi & tos & tot & mid & ck & addrs & rest & Hb & H1 & H2 & H3 & H4 & Ht & _ & Hrest);
    [apply Hok|lia|].
  rewrite (add_ip_option_hash_ok ctx l2 vi tos tot mid ck addrs rest hash) in E by (done || apply Hok).
  apply (f_equal (from_option snd ctx)) in E. cbn [from_option snd] in E. subst ctx'.
  cbv zeta. cbn [xd_data xd_bytes]. set (d := xd_data ctx - 36).
  pose proof (md_bytes _ Hok) as Hbok. rewrite Hb in Hbok.
  apply Forall_app in Hbok as [Hok1 Hbok]. apply Forall_app in Hbok as [Hok2 Hok3].
  set (h := new_header vi tos tot mid addrs hash).
  assert (length h = 56%nat) as Hl by (by apply new_header_length).
  assert (∀ n, view (mkMd d (l2 ++ h ++ rest)) (d + 14 + Z.of_nat n) = drop n (h ++ rest)) as Hv.
  { intros n. unfold view. cbn [xd_data xd_bytes].
    replace (Z.to_nat (d + 14 + Z.of_nat n - d)) with (length l2 + n)%nat by lia.
    by rewrite <- drop_drop, drop_app_length. }
  split_and!.
  - assert (xd_data_end (mkMd d (l2 ++ h ++ rest)) = d + 70 + zlen rest) as ->.
    { unfold xd_data_end. cbn [xd_data xd_bytes]. rewrite !length_app. lia. }
    unfold parse_iphdr, sizeof_iphdr. rewrite (proj2 (Z.ltb_ge _ _)) by lia.
    destruct (new_header_prefix vi tos tot mid addrs hash) as [r Er]. fold h in Er. rewrite Er.
    erewrite (ld8_at _ l2 (set_ihl vi 14) _ (d + 14)) by (app_eq || off_eq).
    cbn [mbind option_bind]. rewrite set_ihl_low by lia. change (14 * 4) with 56. cbn [Z.ltb Z.compare Pos.compare Pos.compare_cont].
    rewrite (proj2 (Z.ltb_ge _ _)) by lia.
    destruct mid as [|m0 [|m1 [|m2 [|m3 [|m4 [|m5 [|]]]]]]]; try discriminate H2.
    erewrite (ld8_at _ (l2 ++ [set_ihl vi 14; tos] ++ be16 (u16 (tot + 36)) ++ [m0; m1; m2; m3; m4]) m5)
      by (app_eq || off_eq).
    erewrite (ld8_at ctx (l2 ++ [vi; tos] ++ be16 tot ++ [m0; m1; m2; m3; m4]) m5) in Hp
      by (rewrite ?Hb; app_eq || off_eq).
    by injection Hp as <-.
  - specialize (Hv 56%nat). change (Z.of_nat 56) with 56 in Hv. rewrite Hv, <- Hl, drop_app_length.
    rewrite Hrest. unfold view. f_equal. lia.
  - specialize (Hv 0%nat). rewrite Z.add_0_r in Hv. rewrite Hv, drop_0, (take_app_length' h) by done.
    by eapply new_header_valid.
Qed.

Lemma hash_option_accepted_witness :
  let ctx' := mkMd (64 - 36) (replicate 14 7
      ++ new_header 0x45 0 21 [0; 1; 0; 0; 64; 17] [10; 0; 0; 1; 10; 0; 0; 2] (replicate 32 3) ++ [5]) in
  parse_iphdr ctx' 42 (xd_data_end ctx') = Some (17, 42 + 56, Some 42)
  ∧ view ctx' (42 + 56) = view option_md (64 + 34) ∧ checksum_valid (take 56 (view ctx' 42)).
Proof.
  intros ctx'. apply (hash_option_accepted option_md (replicate 32 3) 0 ctx' 17);
    [split; [zeval|zeval|by apply bytes_ok_dec]|done|by apply bytes_ok_dec|vm_compute; reflexivity|done|done].
Defined.
