(* ===== verification/XdpIpHashCorrect.v ===== *)
(** * Correctness of the program [xdp_ip_hash_func]

    Safety and the invariant of the whole program, what it does to an IPv4
    packet, to the packets it leaves alone and to the packets it rejects, and
    two shapes of packets it damages: tagged frames, and frames for which the
    kernel has no head room. *)

From S2P Require Import Prelude Sha256Spec Sha256 Sha256Correct Checksum Packet ParsingHelpers XdpStats XdpIpHash KeyedHash HashOption.

(** ** The invariant *)

(** The map entries, when the lookups find them, have the declared sizes. *)
Record maps_wf (σ : bpf_maps) : Prop := {
  mw_ctx : ∀ c, sha256_ctx_map σ = Some c →
    length (ctx_data c) = 64%nat ∧ bytes_ok (ctx_data c) ∧ words8_ok (ctx_state c);
  mw_temp : ∀ t, sha256_temp_map σ = Some t → length t = 384%nat;
}.

Record kstate_ok (k : kstate) : Prop := {
  ks_ctx : md_ok (k_ctx k);
  ks_maps : maps_wf (k_maps k);
  ks_stats : length (k_stats k) = 5%nat;
}.

Lemma maps_ok_wf c σ : maps_ok c σ → maps_wf σ.
Proof.
  intros [Hc (t & Ht & HL) Hl Hb Hs]. split; intros ? E.
  - rewrite Hc in E. by injection E as <-.
  - rewrite Ht in E. by injection E as <-.
Qed.

Lemma maps_wf_ok σ c t :
  maps_wf σ → sha256_ctx_map σ = Some c → sha256_temp_map σ = Some t → maps_ok c σ.
Proof.
  intros [Hc Ht] Ec Et. destruct (Hc c Ec) as (? & ? & ?). split; [done| |done..].
  exists t. auto.
Qed.

(** [compute_keyed_hash] on any state of the maps. *)
Lemma compute_keyed_hash_safe ctx data len hash σ :
  md_ok ctx → maps_wf σ → xd_data ctx <= data → 0 <= len → length hash = 32%nat → bytes_ok hash →
  ∃ ret h σ', compute_keyed_hash ctx data len hash σ = Some (ret, h, σ')
    ∧ maps_wf σ' ∧ length h = 32%nat ∧ bytes_ok h.
Proof.
  intros Hok Hw Hd Hlen Hh Hhok.
  destruct (Z.ltb_spec (xd_data_end ctx) (data + len)) as [Ho|Hi].
  { rewrite compute_keyed_hash_out_of_bounds by lia. eauto 10. }
  destruct (sha256_temp_map σ) as [t|] eqn:Et.
  2: { rewrite compute_keyed_hash_no_temp by done. eauto 10. }
  destruct (sha256_ctx_map σ) as [c|] eqn:Ec.
  - destruct (compute_keyed_hash_ok ctx c σ data len hash) as (c' & σ' & -> & Hm');
      [done|by eapply maps_wf_ok|done..|].
    eexists _, _, _. split; [done|]. split; [by eapply maps_ok_wf|]. split; [apply sha256_length|apply sha256_ok].
  - destruct σ as [c t0]. cbn in Et, Ec. subst.
    destruct (compute_keyed_hash_no_ctx ctx data len hash t) as (t' & -> & HL); [done..|by apply (mw_temp _ Hw)|].
    eexists _, _, _. split; [done|]. split; [|done]. split; [done|]. by intros ? [= <-].
Qed.

(** ** Safety *)

Section safety.
Context `{XdpHelpers}.

Lemma process_ipv4_safe k nh hash0 :
  kstate_ok k → xd_data (k_ctx k) <= nh <= xd_data_end (k_ctx k) → length hash0 = 32%nat → bytes_ok hash0 →
  ∃ action k', process_ipv4 k nh hash0 = Some (action, k') ∧ kstate_ok k'
    ∧ (action = XDP_ABORTED ∨ action = XDP_PASS) ∧ xd_data_end (k_ctx k') = xd_data_end (k_ctx k)
    ∧ k_stats k' = k_stats k.
Proof.
  intros Hk Hnh Hh Hhok. pose proof Hk as [Hok Hw Hst]. unfold process_ipv4. set (ctx := k_ctx k) in *.
  assert (∃ action k', Some (XDP_ABORTED, k) = Some (action, k') ∧ kstate_ok k'
    ∧ (action = XDP_ABORTED ∨ action = XDP_PASS) ∧ xd_data_end (k_ctx k') = xd_data_end ctx
    ∧ k_stats k' = k_stats k) as Habort by (exists XDP_ABORTED, k; split_and!; by auto).
  destruct (parser_ok (parse := parse_iphdr) ctx nh Hok Hnh) as (ret & pos & hdr & -> & _ & Hpos & Hhdr).
  cbn [mbind option_bind]. destruct (Z.ltb_spec ret 0); [done|].
  destruct hdr as [iphdr|]; [|lia]. destruct Hhdr as [-> Hsz]. cbn [mbind option_bind].
  unfold sizeof_iphdr. rewrite (proj2 (Z.ltb_ge _ _)) by lia.
  destruct (ld8_in ctx nh) as [b0 ->]; [lia|]. cbn [mbind option_bind]. pose proof (land15 b0).
  destruct (Z.ltb_spec (xd_data_end ctx) (nh + Z.land b0 15 * 4)); [done|].
  destruct (st16_in ctx (nh + 10) 0 Hok) as (ctx1 & -> & Hok1 & Hd1 & He1); [lia..|].
  cbn [mbind option_bind].
  destruct (compute_keyed_hash_safe ctx1 nh (Z.land b0 15 * 4) hash0 (k_maps k))
    as (r & h & σ' & -> & Hw' & Hlh & Hhok'); [done|done|lia|lia|done|done|].
  cbn [mbind option_bind]. destruct (r =? 0).
  - destruct (add_option_safe ctx1 h Hok1 Hlh Hhok') as (r' & ctx2 & -> & Hok2 & He2).
    cbn [mbind option_bind]. eexists _, _. split; [done|]. split; [split; done|].
    cbn [k_ctx k_stats]. split_and!; [by right|congruence|done].
  - eexists _, _. split; [done|]. split; [split; done|]. cbn. split_and!; [by right|done|done].
Qed.

Lemma finish_ok k action :
  kstate_ok k → kstate_ok (finish k action).2 ∧ k_ctx (finish k action).2 = k_ctx k.
Proof.
  intros [Hok Hw Hst]. unfold finish.
  pose proof (record_action_length (k_ctx k) action (k_stats k)) as E.
  destruct (xdp_stats_record_action _ _ _) as [r st]. cbn in *. split; [|done].
  split; [done|done|cbn; congruence].
Qed.

Lemma finish_action k action :
  kstate_ok k → (action = XDP_ABORTED ∨ action = XDP_PASS) → (finish k action).1 = action.
Proof.
  intros [Hok Hw Hst] Ha. unfold finish.
  destruct (aget_is_Some (k_stats k) action) as [r Hr];
    [rewrite Hst; destruct Ha as [->| ->]; unfold XDP_ABORTED, XDP_PASS; lia|].
  rewrite (record_action_ok _ _ _ r) by (done || by destruct Ha as [->| ->]). done.
Qed.
End safety.

(** ** What the program does to an IPv4 packet *)

Section functional.
Context `{XdpHelpers}.

(** The header whose checksum field is zero, as it is hashed. *)
Definition hashed_header (vi tos tot : Z) (mid addrs : list Z) : list Z :=
  ip_header vi tos tot mid [0; 0] addrs.

(** The digest stored in the option. *)
Definition header_digest (vi tos tot : Z) (mid addrs : list Z) : list Z :=
  sha256 (effective_key ++ hashed_header vi tos tot mid addrs).

Variables (pre : list Z) (vi tos tot : Z) (mid ck addrs rest : list Z).
Hypothesis mid_len : length mid = 6%nat.
Hypothesis ck_len : length ck = 2%nat.
Hypothesis addrs_len : length addrs = 8%nat.
Hypothesis ihl_min : 5 <= vi mod 16.
Hypothesis ihl_fits : 4 * (vi mod 16) <= 20 + zlen rest.

Let l : list Z := pre ++ ip_header vi tos tot mid ck addrs ++ rest.
Let l0 : list Z := pre ++ hashed_header vi tos tot mid addrs ++ rest.

Lemma ip_header_length ck' : length ck' = 2%nat → length (ip_header vi tos tot mid ck' addrs) = 20%nat.
Proof. intros. unfold ip_header. off_eq. Qed.

Lemma l_end d : xd_data_end (mkMd d l) = d + zlen pre + 20 + zlen rest.
Proof.
  unfold xd_data_end, l. cbn [xd_data xd_bytes].
  rewrite !length_app, ip_header_length by done. lia.
Qed.

Lemma l0_ok d : md_ok (mkMd d l) → md_ok (mkMd d l0).
Proof.
  intros [Hd He Hb]. unfold l, l0, hashed_header in *. cbn [xd_data xd_bytes] in *. split; [done| |].
  - unfold xd_data_end in *. cbn [xd_data xd_bytes] in *.
    rewrite !length_app, ip_header_length in He |- * by done. done.
  - cbn [xd_bytes]. apply Forall_app in Hb as [H1 Hb]. apply Forall_app in Hb as [Hh H2].
    apply Forall_app_2; [done|]. apply Forall_app_2; [|done]. unfold ip_header in *.
    apply Forall_cons_1 in Hh as [? Hh]. apply Forall_cons_1 in Hh as [? Hh].
    apply Forall_app in Hh as [? Hh]. apply Forall_app in Hh as [? Hh]. apply Forall_app in Hh as [_ ?].
    repeat (apply List.Forall_cons; [done|]). repeat (apply Forall_app_2; [done|]).
    apply Forall_app_2; [apply (zeros_ok 2)|done].
Qed.

(** The whole IPv4 branch, up to the outcome of the option insertion. *)
Lemma process_ipv4_ok d c σ stats hash0 :
  md_ok (mkMd d l) → maps_ok c σ → length hash0 = 32%nat →
  ∃ c' σ', maps_ok c' σ' ∧
    process_ipv4 (mkK (mkMd d l) σ stats) (d + zlen pre) hash0 =
      ('(_, ctx) ← add_ip_option_hash (mkMd d l0) (header_digest vi tos tot mid addrs);
       Some (XDP_PASS, mkK ctx σ' stats)).
Proof.
  intros Hok Hm Hh. unfold process_ipv4. cbn [k_ctx k_maps k_stats].
  assert (ld8 (mkMd d l) (d + zlen pre) = Some vi) as Evi by (eapply ld8_at; [reflexivity|done]).
  assert (Z.land vi 15 = vi mod 16) as Eland by (change 15 with (Z.ones 4); by rewrite Z.land_ones by lia).
  destruct (ld8_in (mkMd d l) (d + zlen pre + 9)) as [b9 E9]; [rewrite l_end; cbn [xd_data]; lia|].
  assert (byte_ok b9) as Hb9 by (by eapply ld8_byte). unfold byte_ok in *.
  unfold parse_iphdr, sizeof_iphdr. rewrite l_end.
  rewrite (proj2 (Z.ltb_ge _ (d + zlen pre + 20))) by lia. rewrite Evi. cbn [mbind option_bind].
  rewrite Eland. rewrite (proj2 (Z.ltb_ge (vi mod 16 * 4) 20)) by lia.
  rewrite (proj2 (Z.ltb_ge _ (d + zlen pre + vi mod 16 * 4))) by lia.
  rewrite E9. cbn [mbind option_bind]. rewrite (proj2 (Z.ltb_ge b9 0)) by lia. cbn [mbind option_bind].
  rewrite (proj2 (Z.ltb_ge _ (d + zlen pre + 20))) by lia. rewrite Evi. cbn [mbind option_bind].
  rewrite Eland, (proj2 (Z.ltb_ge _ (d + zlen pre + vi mod 16 * 4))) by lia.
  assert (st16 (mkMd d l) (d + zlen pre + 10) 0 = Some (mkMd d l0)) as ->.
  { change 0 with (bpf_htons 0).
    erewrite (st16_htons_at _ (pre ++ vi :: tos :: be16 tot ++ mid) ck) by
      (unfold l; app_eq || done || off_eq || lia).
    do 2 f_equal. unfold l0, hashed_header. app_eq. }
  cbn [mbind option_bind].
  destruct (compute_keyed_hash_ok (mkMd d l0) c σ (d + zlen pre) (vi mod 16 * 4) hash0)
    as (c' & σ' & -> & Hm'); [by apply l0_ok|done|cbn [xd_data]; lia|lia| |done|].
  { unfold xd_data_end, l0, hashed_header. cbn [xd_data xd_bytes].
    rewrite !length_app, ip_header_length by done. lia. }
  cbn [mbind option_bind Z.eqb]. exists c', σ'. split; [done|].
  assert (take (hashed_len (vi mod 16 * 4)) (view (mkMd d l0) (d + zlen pre)) = hashed_header vi tos tot mid addrs) as E;
    [|unfold keyed_hash, header_digest; rewrite E; reflexivity].
  unfold hashed_len, view. replace (Z.min 20 (vi mod 16 * 4)) with 20 by lia. cbn [xd_data xd_bytes].
  replace (Z.to_nat (d + zlen pre - d)) with (length pre) by lia. unfold l0. rewrite drop_app_length.
  apply take_app_length'. unfold hashed_header. by rewrite ip_header_length.
Qed.
End functional.

(** The bytes in front of the IPv4 header of a frame. *)
Definition l2_bytes (macs : list Z) (tags : list (Z * Z)) : list Z :=
  macs ++ concat (map (λ t, be16 t.1 ++ be16 t.2) tags) ++ be16 ETH_P_IP.

Lemma eth_frame_l2 macs tags payload :
  eth_frame macs tags ETH_P_IP payload = l2_bytes macs tags ++ payload.
Proof. unfold eth_frame, l2_bytes. by rewrite <- !app_assoc. Qed.

Lemma l2_bytes_length macs tags :
  length macs = 12%nat → zlen (l2_bytes macs tags) = 14 + 4 * zlen tags.
Proof.
  intros Hm. unfold l2_bytes. rewrite !length_app, Hm, be16_length.
  assert (length (concat (map (λ t, be16 t.1 ++ be16 t.2) tags)) = (4 * length tags)%nat) as ->; [|lia].
  induction tags as [|t tags IH]; [done|]. cbn [map concat]. rewrite !length_app, IH, !be16_length. cbn [length]. lia.
Qed.

Section program.
Context `{XdpHelpers}.

(** The program on an IPv4 frame with up to two VLAN tags. *)
Lemma xdp_ip_hash_frame d macs tags vi tos tot mid ck addrs rest c σ stats hash0 :
  length macs = 12%nat → Forall tag_ok tags → (length tags <= 2)%nat →
  length mid = 6%nat → length ck = 2%nat → length addrs = 8%nat →
  5 <= vi mod 16 → 4 * (vi mod 16) <= 20 + zlen rest →
  md_ok (mkMd d (eth_frame macs tags ETH_P_IP (ip_header vi tos tot mid ck addrs ++ rest))) →
  maps_ok c σ → length hash0 = 32%nat →
  ∃ c' σ', maps_ok c' σ' ∧
    xdp_ip_hash_func (mkK (mkMd d (eth_frame macs tags ETH_P_IP (ip_header vi tos tot mid ck addrs ++ rest)))
        σ stats) hash0 =
      ('(_, ctx) ← add_ip_option_hash
          (mkMd d (eth_frame macs tags ETH_P_IP (hashed_header vi tos tot mid addrs ++ rest)))
          (header_digest vi tos tot mid addrs);
       Some (finish (mkK ctx σ' stats) XDP_PASS)).
Proof.
  intros Hm Ht Hl2 H1 H2 H3 Hmin Hfit Hok Hmaps Hh.
  assert ((bpf_htons ETH_P_IP <? 0) = false) as Hpos by reflexivity.
  unfold xdp_ip_hash_func. cbn [k_ctx].
  rewrite (parse_ethhdr_tags _ macs tags ETH_P_IP (ip_header vi tos tot mid ck addrs ++ rest)) by
    (done || (unfold ETH_P_IP; lia) || (intros _ [?|?]; discriminate)).
  cbn [mbind option_bind]. rewrite Hpos, Z.eqb_refl. cbn [xd_data].
  pose proof (l2_bytes_length macs tags Hm) as Hlen. rewrite !eth_frame_l2 in *.
  replace (d + 14 + 4 * zlen tags) with (d + zlen (l2_bytes macs tags)) by lia.
  destruct (process_ipv4_ok (l2_bytes macs tags) vi tos tot mid ck addrs rest H1 H2 H3 Hmin Hfit
    d c σ stats hash0 Hok Hmaps Hh) as (c' & σ' & Hm' & ->).
  exists c', σ'. split; [done|].
  by destruct (add_ip_option_hash _ _) as [[r ctx]|].
Qed.

Lemma split20 (h : list Z) :
  length h = 20%nat → h = take 6 h ++ take 2 (drop 6 h) ++ take 8 (drop 8 h) ++ drop 16 h.
Proof. intros Hl. do 20 (destruct h as [|? h]; [discriminate Hl|]). by destruct h. Qed.

(** The counter update of a packet that is passed. *)
Lemma finish_pass ctx σ stats r :
  md_ok ctx → stats !! 2%nat = Some r →
  finish (mkK ctx σ stats) XDP_PASS =
    (XDP_PASS, mkK ctx σ (<[2%nat := mkRec (u64 (rx_packets r + 1)) (u64 (rx_bytes r + zlen (xd_bytes ctx)))]> stats)).
Proof.
  intros Hok Hr. unfold finish. cbn [k_ctx k_stats k_maps].
  by rewrite (record_action_ok ctx XDP_PASS stats r).
Qed.

Lemma stats_pass (stats : list datarec) : length stats = 5%nat → ∃ r, stats !! 2%nat = Some r.
Proof. intros. apply lookup_lt_is_Some_2. lia. Qed.

(** An untagged frame that gets its option. *)
Lemma xdp_ip_hash_ipv4_ok d macs vi tos tot mid ck addrs rest c σ stats r hash0 :
  length macs = 12%nat → length mid = 6%nat → length ck = 2%nat → length addrs = 8%nat →
  0 <= tot < 2 ^ 16 → 5 <= vi mod 16 → 4 * (vi mod 16) <= 20 + zlen rest →
  md_ok (mkMd d (eth_frame macs [] ETH_P_IP (ip_header vi tos tot mid ck addrs ++ rest))) →
  maps_ok c σ → stats !! 2%nat = Some r → length hash0 = 32%nat →
  (bpf_xdp_adjust_head (mkMd d (eth_frame macs [] ETH_P_IP (hashed_header vi tos tot mid addrs ++ rest))) (-36)).1 = 0 →
  let digest := sha256 (effective_key ++ hashed_header vi tos tot mid addrs) in
  let frame := eth_frame macs [] ETH_P_IP (new_header vi tos tot mid addrs digest ++ rest) in
  ∃ c' σ', maps_ok c' σ' ∧
    xdp_ip_hash_func (mkK (mkMd d (eth_frame macs [] ETH_P_IP (ip_header vi tos tot mid ck addrs ++ rest)))
        σ stats) hash0
    = Some (XDP_PASS, mkK (mkMd (d - 36) frame) σ'
        (<[2%nat := mkRec (u64 (rx_packets r + 1)) (u64 (rx_bytes r + zlen frame))]> stats)).
Proof.
  intros Hm H1 H2 H3 Htot Hmin Hfit Hok Hmaps Hr Hh Hadj digest frame.
  destruct (xdp_ip_hash_frame d macs [] vi tos tot mid ck addrs rest c σ stats hash0)
    as (c' & σ' & Hm' & ->); [done|done|cbn; lia|done..|].
  exists c', σ'. split; [done|].
  pose proof (l0_ok (l2_bytes macs []) vi tos tot mid ck addrs rest H1 H2 H3 d) as Hok0.
  rewrite <- !eth_frame_l2 in Hok0. specialize (Hok0 Hok).
  pose proof (l2_bytes_length macs [] Hm) as Hl2. cbn [length] in Hl2.
  pose proof (add_ip_option_hash_cases _ (header_digest vi tos tot mid addrs) Hok0
    (sha256_length _) (sha256_ok _)) as (ret & ctx' & E' & Hok' & _).
  rewrite (add_ip_option_hash_ok _ (l2_bytes macs []) vi tos tot mid [0; 0] addrs rest) in E' |- * by
    (done || lia || apply eth_frame_l2 || apply Hok0 || apply sha256_length || apply sha256_ok).
  apply (f_equal (from_option snd ctx')) in E'. cbn [from_option snd xd_data] in E'.
  cbn [mbind option_bind xd_data]. rewrite E'.
  assert (ctx' = mkMd (d - 36) frame) as ->.
  { rewrite <- E'. unfold frame. by rewrite eth_frame_l2. }
  by rewrite (finish_pass _ _ _ r).
Qed.

(** ** The theorems *)

(** C2: safety of the whole program.  From any packet, any state of the maps
    (a failed lookup included) and any content of the stack array, the program
    returns without an access outside the packet or an array, with one of the
    two actions it knows; context, maps and counters stay well-formed and the
    end of the packet does not move. *)
Theorem xdp_ip_hash_safe k hash0 :
  kstate_ok k → length hash0 = 32%nat → bytes_ok hash0 →
  ∃ action k', xdp_ip_hash_func k hash0 = Some (action, k') ∧ kstate_ok k'
    ∧ (action = XDP_ABORTED ∨ action = XDP_PASS) ∧ xd_data_end (k_ctx k') = xd_data_end (k_ctx k).
Proof.
  intros Hk Hh Hhok. pose proof Hk as [Hok Hw Hst]. unfold xdp_ip_hash_func.
  assert (∀ k1 a, kstate_ok k1 → (a = XDP_ABORTED ∨ a = XDP_PASS) →
    xd_data_end (k_ctx k1) = xd_data_end (k_ctx k) →
    ∃ action k', Some (finish k1 a) = Some (action, k') ∧ kstate_ok k'
      ∧ (action = XDP_ABORTED ∨ action = XDP_PASS) ∧ xd_data_end (k_ctx k') = xd_data_end (k_ctx k)) as Hfin.
  { intros k1 a Hk1 Ha He. destruct (finish_ok k1 a Hk1) as [Hk' Hc].
    pose proof (finish_action k1 a Hk1 Ha) as Hf. destruct (finish k1 a) as [a' k'].
    cbn [fst snd] in *. subst a'. exists a, k'. rewrite Hc. auto. }
  destruct (parser_ok (parse := parse_ethhdr) (k_ctx k) (xd_data (k_ctx k)) Hok)
    as (ty & nh & hdr & -> & _ & Hnh & _); [unfold xd_data_end; lia|]. cbn [mbind option_bind].
  destruct (ty <? 0); [by apply Hfin; auto|].
  destruct (ty =? bpf_htons ETH_P_IP).
  - destruct (process_ipv4_safe k nh hash0 Hk) as (a & k1 & -> & Hk1 & Ha & He & _); [lia|done|done|].
    cbn [mbind option_bind]. by apply Hfin.
  - destruct (ty =? bpf_htons ETH_P_IPV6); by apply Hfin; auto.
Qed.

(** C1: an untagged IPv4 frame.  When the header is well-formed, both map
    entries are found and the kernel grants 36 bytes of head room, the program
    passes the frame with the header extended by the option: its digest is the
    SHA-256 of the effective key and of the fixed header with a zero checksum,
    the checksum is that of the new header, everything else is unchanged, and
    the packet is counted with its new length. *)
Theorem xdp_ip_hash_ipv4 d macs vi tos tot mid ck addrs rest c σ stats r hash0 :
  length macs = 12%nat → length mid = 6%nat → length ck = 2%nat → length addrs = 8%nat →
  0 <= tot < 2 ^ 16 → 5 <= vi mod 16 → 4 * (vi mod 16) <= 20 + zlen rest →
  md_ok (mkMd d (eth_frame macs [] ETH_P_IP (ip_header vi tos tot mid ck addrs ++ rest))) →
  maps_ok c σ → stats !! 2%nat = Some r → length hash0 = 32%nat →
  (bpf_xdp_adjust_head (mkMd d (eth_frame macs [] ETH_P_IP (hashed_header vi tos tot mid addrs ++ rest))) (-36)).1 = 0 →
  let digest := sha256 (effective_key ++ hashed_header vi tos tot mid addrs) in
  let frame := eth_frame macs [] ETH_P_IP (new_header vi tos tot mid addrs digest ++ rest) in
  ∃ c' σ', maps_ok c' σ' ∧
    xdp_ip_hash_func (mkK (mkMd d (eth_frame macs [] ETH_P_IP (ip_header vi tos tot mid ck addrs ++ rest)))
        σ stats) hash0
    = Some (XDP_PASS, mkK (mkMd (d - 36) frame) σ'
        (<[2%nat := mkRec (u64 (rx_packets r + 1)) (u64 (rx_bytes r + zlen frame))]> stats)).
Proof. apply xdp_ip_hash_ipv4_ok. Qed.

(** No head room.  When the kernel refuses to grow the packet (or the
    insertion fails for any other reason), the frame is passed on all the same,
    with its checksum field overwritten by zero and no option: the failure is
    tested but changes nothing. *)
Theorem xdp_ip_hash_no_headroom d macs vi tos tot mid ck addrs rest c σ stats r hash0 :
  length macs = 12%nat → length mid = 6%nat → length ck = 2%nat → length addrs = 8%nat →
  5 <= vi mod 16 → 4 * (vi mod 16) <= 20 + zlen rest →
  md_ok (mkMd d (eth_frame macs [] ETH_P_IP (ip_header vi tos tot mid ck addrs ++ rest))) →
  maps_ok c σ → stats !! 2%nat = Some r → length hash0 = 32%nat →
  let zeroed := eth_frame macs [] ETH_P_IP (ip_header vi tos tot mid [0; 0] addrs ++ rest) in
  (bpf_xdp_adjust_head (mkMd d zeroed) (-36)).1 ≠ 0 →
  ∃ c' σ', maps_ok c' σ' ∧
    xdp_ip_hash_func (mkK (mkMd d (eth_frame macs [] ETH_P_IP (ip_header vi tos tot mid ck addrs ++ rest)))
        σ stats) hash0
    = Some (XDP_PASS, mkK (mkMd d zeroed) σ'
        (<[2%nat := mkRec (u64 (rx_packets r + 1)) (u64 (rx_bytes r + zlen zeroed))]> stats)).
Proof.
  intros Hm H1 H2 H3 Hmin Hfit Hok Hmaps Hr Hh zeroed Hadj.
  destruct (xdp_ip_hash_frame d macs [] vi tos tot mid ck addrs rest c σ stats hash0)
    as (c' & σ' & Hm' & ->); [done|done|cbn; lia|done..|].
  exists c', σ'. split; [done|].
  pose proof (l0_ok (l2_bytes macs []) vi tos tot mid ck addrs rest H1 H2 H3 d) as Hok0.
  rewrite <- !eth_frame_l2 in Hok0. specialize (Hok0 Hok).
  rewrite add_ip_option_hash_no_room by done. cbn [mbind option_bind].
  by rewrite (finish_pass _ _ _ r).
Qed.

(** VLAN-tagged frames are damaged.  [parse_ethhdr] skips the tag, so the
    right header is hashed; [add_ip_option_hash] assumes 14 bytes of link
    header and rewrites the bytes behind them.  On a single-tagged IPv4 frame
    (tag [tp], [tci]) the frame that is passed on has the nibble 14 in place of
    the upper four bits of the VLAN identifier and the EtherType 0x0824: 36 has
    been added to 0x0800 as if it were a total length. *)
Theorem xdp_ip_hash_vlan_damage d macs tp tci vi tos tot mid ck addrs rest c σ stats hash0 :
  length macs = 12%nat → tag_ok (tp, tci) →
  length mid = 6%nat → length ck = 2%nat → length addrs = 8%nat →
  5 <= vi mod 16 → 4 * (vi mod 16) <= 20 + zlen rest →
  md_ok (mkMd d (eth_frame macs [(tp, tci)] ETH_P_IP (ip_header vi tos tot mid ck addrs ++ rest))) →
  maps_ok c σ → length stats = 5%nat → length hash0 = 32%nat →
  (bpf_xdp_adjust_head
     (mkMd d (eth_frame macs [(tp, tci)] ETH_P_IP (hashed_header vi tos tot mid addrs ++ rest))) (-36)).1 = 0 →
  ∃ k' damaged, xdp_ip_hash_func
      (mkK (mkMd d (eth_frame macs [(tp, tci)] ETH_P_IP (ip_header vi tos tot mid ck addrs ++ rest))) σ stats) hash0
    = Some (XDP_PASS, k')
    ∧ xd_bytes (k_ctx k') = macs ++ be16 tp ++ [set_ihl (tci / 2 ^ 8) 14; tci mod 2 ^ 8] ++ be16 0x0824 ++ damaged.
Proof.
  intros Hm Htag H1 H2 H3 Hmin Hfit Hok Hmaps Hst Hh Hadj.
  destruct (xdp_ip_hash_frame d macs [(tp, tci)] vi tos tot mid ck addrs rest c σ stats hash0)
    as (c' & σ' & Hm' & ->); [done|by apply List.Forall_cons|cbn; lia|done..|].
  pose proof (l0_ok (l2_bytes macs [(tp, tci)]) vi tos tot mid ck addrs rest H1 H2 H3 d) as Hok0.
  rewrite <- !eth_frame_l2 in Hok0. specialize (Hok0 Hok).
  assert (length (hashed_header vi tos tot mid addrs) = 20%nat) as Hlh by (unfold hashed_header, ip_header; off_eq).
  (* the bytes the option code takes for the fixed header *)
  set (hh := hashed_header vi tos tot mid addrs) in *.
  assert (eth_frame macs [(tp, tci)] ETH_P_IP (hh ++ rest) = (macs ++ be16 tp) ++
    ip_header (tci / 2 ^ 8) (tci mod 2 ^ 8) ETH_P_IP (take 6 hh) (take 2 (drop 6 hh)) (take 8 (drop 8 hh))
    ++ drop 16 hh ++ rest) as Eb.
  { unfold eth_frame, ip_header. cbn [map concat fst snd]. rewrite (split20 hh Hlh) at 1.
    unfold be16. app_eq. }
  pose proof (add_ip_option_hash_cases _ (header_digest vi tos tot mid addrs) Hok0
    (sha256_length _) (sha256_ok _)) as (ret & ctx' & E' & Hok' & _).
  rewrite (add_ip_option_hash_ok _ (macs ++ be16 tp) (tci / 2 ^ 8) (tci mod 2 ^ 8) ETH_P_IP
    (take 6 hh) (take 2 (drop 6 hh)) (take 8 (drop 8 hh)) (drop 16 hh ++ rest)) in E' |- * by
    (done || (rewrite ?length_app, ?length_take, ?length_drop, ?Hlh; cbn; lia)
     || (unfold ETH_P_IP; lia) || apply Hok0 || apply sha256_length || apply sha256_ok).
  apply (f_equal (from_option snd ctx')) in E'. cbn [from_option snd xd_data] in E'.
  cbn [mbind option_bind xd_data]. rewrite E'.
  destruct (stats_pass stats Hst) as [r Hr]. rewrite (finish_pass _ _ _ r) by done.
  destruct (new_header_prefix (tci / 2 ^ 8) (tci mod 2 ^ 8) ETH_P_IP (take 6 hh) (take 8 (drop 8 hh))
    (header_digest vi tos tot mid addrs)) as [tail Et].
  eexists _, (take 6 hh ++ tail ++ drop 16 hh ++ rest). split; [reflexivity|]. cbn [k_ctx].
  rewrite <- E', Et. cbn [xd_bytes]. unfold be16 at 1 2. app_eq.
Qed.

(** The action is returned and counted; packet and maps are those of [k]. *)
Definition left_alone (k : kstate) (hash0 : list Z) (action : Z) : Prop :=
  ∃ stats', xdp_ip_hash_func k hash0 = Some (action, mkK (k_ctx k) (k_maps k) stats')
    ∧ stats' = (xdp_stats_record_action (k_ctx k) action (k_stats k)).2.

Lemma finish_left_alone k hash0 action :
  kstate_ok k → (action = XDP_ABORTED ∨ action = XDP_PASS) →
  xdp_ip_hash_func k hash0 = Some (finish k action) → left_alone k hash0 action.
Proof.
  intros Hk Ha E. unfold left_alone. rewrite E. pose proof (finish_action k action Hk Ha) as Hf.
  unfold finish in *. destruct (xdp_stats_record_action _ _ _) as [a st]. cbn in Hf |- *. subst a.
  by exists st.
Qed.

(** C4: the packets the program does not change.  A frame shorter than an
    Ethernet header, and an IPv4 frame whose header is cut off, shorter than
    five words or longer than the packet, are aborted; a frame of any other
    EtherType is passed; in each case packet and hash maps are as before and
    the action is counted. *)
Theorem xdp_ip_hash_leaves_alone k hash0 :
  kstate_ok k →
  (zlen (xd_bytes (k_ctx k)) < 14 → left_alone k hash0 XDP_ABORTED)
  ∧ (∀ macs tags ty payload, length macs = 12%nat → Forall tag_ok tags → (length tags <= 2)%nat →
      0 <= ty < 2 ^ 16 → ((length tags < 2)%nat → ¬ is_tpid ty) →
      xd_bytes (k_ctx k) = eth_frame macs tags ty payload →
      (ty ≠ ETH_P_IP → left_alone k hash0 XDP_PASS)
      ∧ (ty = ETH_P_IP → zlen payload < 20 → left_alone k hash0 XDP_ABORTED)
      ∧ (∀ vi p, ty = ETH_P_IP → payload = vi :: p → vi mod 16 < 5 ∨ zlen payload < 4 * (vi mod 16) →
           left_alone k hash0 XDP_ABORTED)).
Proof.
  intros Hk. split; [|intros macs tags ty payload Hm Ht Hl Hty Hn Hb].
  - intros Hs. apply finish_left_alone; [done|by left|]. unfold xdp_ip_hash_func, parse_ethhdr, parse_ethhdr_vlan.
    rewrite (proj2 (Z.ltb_lt _ _)); [done|]. unfold xd_data_end, sizeof_ethhdr. lia.
  - pose proof (parse_ethhdr_tags _ macs tags ty payload Hb Hm Ht Hl Hty Hn) as E.
    assert (xd_data_end (k_ctx k) = xd_data (k_ctx k) + 14 + 4 * zlen tags + zlen payload) as Hend.
    { unfold xd_data_end. rewrite Hb. unfold eth_frame. pose proof (l2_bytes_length macs tags Hm) as E2.
      unfold l2_bytes in E2. rewrite !length_app, be16_length in *. lia. }
    pose proof (bpf_htons_nonneg ty).
    assert (ty = ETH_P_IP → (zlen payload < 20 ∨ ∃ vi p, payload = vi :: p ∧
      (vi mod 16 < 5 ∨ zlen payload < 4 * (vi mod 16))) → left_alone k hash0 XDP_ABORTED) as Hbad.
    { intros -> Hp. apply finish_left_alone; [done|by left|]. unfold xdp_ip_hash_func. rewrite E.
      cbn [mbind option_bind]. rewrite (proj2 (Z.ltb_ge _ _)), Z.eqb_refl by lia.
      unfold process_ipv4, parse_iphdr, sizeof_iphdr. rewrite Hend.
      destruct (Z.ltb_spec (xd_data (k_ctx k) + 14 + 4 * zlen tags + zlen payload)
        (xd_data (k_ctx k) + 14 + 4 * zlen tags + 20)); [done|].
      destruct Hp as [?|(vi & p & -> & Hp)]; [lia|].
      assert (ld8 (k_ctx k) (xd_data (k_ctx k) + 14 + 4 * zlen tags) = Some vi) as ->.
      { eapply (ld8_at _ (l2_bytes macs tags)); [by rewrite Hb, eth_frame_l2|].
        rewrite l2_bytes_length by done. lia. }
      cbn [mbind option_bind]. change 15 with (Z.ones 4). rewrite Z.land_ones by lia. change (2 ^ 4) with 16.
      destruct (Z.ltb_spec (vi mod 16 * 4) 20); [done|].
      by rewrite (proj2 (Z.ltb_lt _ _)) by lia. }
    split_and!; [|eauto 10|eauto 10].
    intros Hne. apply finish_left_alone; [done|by right|]. unfold xdp_ip_hash_func. rewrite E.
    cbn [mbind option_bind]. rewrite (proj2 (Z.ltb_ge _ _)) by lia.
    rewrite (proj2 (Z.eqb_neq (bpf_htons ty) _)); [by destruct (_ =? _)|].
    intros Eq. apply bpf_htons_inj in Eq; [done|done|unfold ETH_P_IP; lia].
Qed.
End program.

(** ** The theorems at concrete packets *)

Definition v4_frame : list Z :=
  eth_frame (replicate 12 7) [] ETH_P_IP (ip_header 0x45 0 21 [0; 1; 0; 0; 64; 17] [9; 9] [10; 0; 0; 1; 10; 0; 0; 2] ++ [5]).

Definition stats0 : list datarec := replicate 5 rec0.

Lemma v4_frame_ok d : 0 <= d < 1000 → md_ok (mkMd d v4_frame).
Proof.
  intros Hd. assert (xd_data_end (mkMd d v4_frame) = d + 35) as E by reflexivity.
  split; [cbn; lia|rewrite E; lia|by apply bytes_ok_dec].
Qed.

Lemma v4_state_ok : kstate_ok (mkK (mkMd 64 v4_frame) maps0 stats0).
Proof. split; [by apply v4_frame_ok|eapply maps_ok_wf, maps0_ok|done]. Qed.

Lemma xdp_ip_hash_safe_witness :
  ∃ action k', xdp_ip_hash_func (mkK (mkMd 64 v4_frame) maps0 stats0) (replicate 32 0) = Some (action, k')
    ∧ kstate_ok k' ∧ (action = XDP_ABORTED ∨ action = XDP_PASS) ∧ xd_data_end (k_ctx k') = 99.
Proof.
  apply (xdp_ip_hash_safe (mkK (mkMd 64 v4_frame) maps0 stats0) (replicate 32 0));
    [apply v4_state_ok|done|apply zeros_ok].
Defined.

Lemma xdp_ip_hash_ipv4_witness :
  let digest := sha256 (effective_key ++ hashed_header 0x45 0 21 [0; 1; 0; 0; 64; 17] [10; 0; 0; 1; 10; 0; 0; 2]) in
  let frame := eth_frame (replicate 12 7) [] ETH_P_IP
    (new_header 0x45 0 21 [0; 1; 0; 0; 64; 17] [10; 0; 0; 1; 10; 0; 0; 2] digest ++ [5]) in
  ∃ c' σ', maps_ok c' σ' ∧
    xdp_ip_hash_func (mkK (mkMd 64 v4_frame) maps0 stats0) (replicate 32 0)
    = Some (XDP_PASS, mkK (mkMd (64 - 36) frame) σ'
        (<[2%nat := mkRec (u64 (0 + 1)) (u64 (0 + zlen frame))]> stats0)).
Proof.
  apply (xdp_ip_hash_ipv4 64 (replicate 12 7) 0x45 0 21 [0; 1; 0; 0; 64; 17] [9; 9] [10; 0; 0; 1; 10; 0; 0; 2] [5]
    ctx0 maps0 stats0 rec0); try reflexivity; [lia|zeval|by apply v4_frame_ok|apply maps0_ok].
Defined.

Lemma xdp_ip_hash_no_headroom_witness :
  let zeroed := eth_frame (replicate 12 7) [] ETH_P_IP
    (ip_header 0x45 0 21 [0; 1; 0; 0; 64; 17] [0; 0] [10; 0; 0; 1; 10; 0; 0; 2] ++ [5]) in
  ∃ c' σ', maps_ok c' σ' ∧
    xdp_ip_hash_func (mkK (mkMd 4 v4_frame) maps0 stats0) (replicate 32 0)
    = Some (XDP_PASS, mkK (mkMd 4 zeroed) σ' (<[2%nat := mkRec (u64 (0 + 1)) (u64 (0 + zlen zeroed))]> stats0)).
Proof.
  apply (xdp_ip_hash_no_headroom 4 (replicate 12 7) 0x45 0 21 [0; 1; 0; 0; 64; 17] [9; 9] [10; 0; 0; 1; 10; 0; 0; 2] [5]
    ctx0 maps0 stats0 rec0); try reflexivity; [zeval|by apply v4_frame_ok|apply maps0_ok|discriminate].
Defined.

Definition vlan_frame : list Z :=
  eth_frame (replicate 12 7) [(0x8100, 0x0123)] ETH_P_IP
    (ip_header 0x45 0 21 [0; 1; 0; 0; 64; 17] [9; 9] [10; 0; 0; 1; 10; 0; 0; 2] ++ [5]).

Lemma xdp_ip_hash_vlan_damage_witness :
  ∃ k' damaged, xdp_ip_hash_func (mkK (mkMd 64 vlan_frame) maps0 stats0) (replicate 32 0) = Some (XDP_PASS, k')
    ∧ xd_bytes (k_ctx k') = replicate 12 7 ++ [0x81; 0x00; 0x0e; 0x23] ++ be16 0x0824 ++ damaged.
Proof.
  apply (xdp_ip_hash_vlan_damage 64 (replicate 12 7) 0x8100 0x0123 0x45 0 21 [0; 1; 0; 0; 64; 17] [9; 9]
    [10; 0; 0; 1; 10; 0; 0; 2] [5] ctx0 maps0 stats0); try reflexivity;
    [split; [by left|cbn; lia]|zeval| |apply maps0_ok].
  split; [zeval|zeval|by apply bytes_ok_dec].
Defined.

Lemma xdp_ip_hash_leaves_alone_witness :
  left_alone (mkK (mkMd 64 [1; 2; 3]) maps0 stats0) (replicate 32 0) XDP_ABORTED.
Proof.
  apply (xdp_ip_hash_leaves_alone (mkK (mkMd 64 [1; 2; 3]) maps0 stats0) (replicate 32 0)); [|zeval].
  split; [|eapply maps_ok_wf, maps0_ok|done]. split; [zeval|zeval|by apply bytes_ok_dec].
Defined.
