(* ===== verification/HashVerifier.v ===== *)
(** * The user-space verifier ([packet-solutions/hash_verifier.c])

    [packet_handler] is called by libpcap with the captured bytes of a frame: it
    looks for the hash option, rebuilds the header as it was before the option
    was inserted and compares the digests.  The model returns what the handler
    prints, [None] for a read outside the captured bytes or outside one of its
    two stack arrays.  The SHA-256 functions the file calls are not part of the
    repository (their declarations in [sha256.h] are commented out): they are
    the parameter [sha256_lib], the digest of the bytes given to the single
    [sha256_update] call. *)

From S2P Require Import Prelude Packet XdpIpHash.

(** ** Constants *)

Definition ETHERTYPE_IP : Z := 0x0800.
Definition IP_DF : Z := 0x4000.
Definition IP_MF : Z := 0x2000.
Definition IP_OFFMASK : Z := 0x1fff.

Definition IP_OPT_HASH_ID : Z := 25.
Definition IP_OPT_HASH_LEN : Z := 36.

(** The key of the verifier. *)
Definition SECRET_KEY : list Z :=
  [ 0x4b; 0x75; 0x8f; 0x94; 0x98; 0xd3; 0x31; 0x26;
    0x16; 0xec; 0xc2; 0x61; 0x99; 0x43; 0x76; 0x45 ].

(** ** Output *)

(** The lines of [dump_ip_header], as the values printed. *)
Record ip_dump : Type := mkDump {
  dump_version : Z; dump_header_len : Z; dump_tos : Z; dump_total : Z; dump_id : Z;
  dump_df : bool; dump_mf : bool; dump_offset : Z; dump_ttl : Z; dump_proto : Z;
  dump_sum : Z; dump_src : list Z; dump_dst : list Z;
  dump_options : option (list Z);      (* printed when ip_hl > 5 *)
}.

Inductive output : Type :=
| Dump (d : ip_dump)
| NoOptions (ihl : Z)
| NoHashOption
| Received (hash : list Z)
| Computed (hash : list Z)
| Match
| Mismatch (header : list Z).

(** [print_hex]: the bytes that are printed. *)
Definition print_hex (data : list Z) (p : Z) (len : Z) : option (list Z) :=
  aget_list data p (Z.to_nat len).

(** [ip] is the offset of the header in [packet]. *)
Definition dump_ip_header (packet : list Z) (ip : Z) : option ip_dump :=
  b0 ← aget packet ip;
  tos ← aget packet (ip + 1);
  ip_len ← ld_le16 packet (ip + 2);
  ip_id ← ld_le16 packet (ip + 4);
  ip_off ← ld_le16 packet (ip + 6);
  let frag := bpf_ntohs ip_off in
  ttl ← aget packet (ip + 8);
  proto ← aget packet (ip + 9);
  ip_sum ← ld_le16 packet (ip + 10);
  src ← aget_list packet (ip + 12) 4;
  dst ← aget_list packet (ip + 16) 4;
  let ip_hl := Z.land b0 15 in
  opts ← (if 5 <? ip_hl then
            l ← print_hex packet (ip + 20) ((ip_hl - 5) * 4); Some (Some l)
          else Some None);
  Some (mkDump (Z.shiftr b0 4) (ip_hl * 4) tos (bpf_ntohs ip_len) (bpf_ntohs ip_id)
          (negb (Z.land frag IP_DF =? 0)) (negb (Z.land frag IP_MF =? 0)) (Z.land frag IP_OFFMASK)
          ttl proto (bpf_ntohs ip_sum) src dst opts).

(** ** The search for the option *)

(** The end of an iteration: [options += opt_len], a length byte 0 counting
    as 1, or the break when the length byte would be outside. *)
Definition next_option {T} (bytes : list Z) (options end_options : Z) (stop : T) (next : Z → T)
    : option (ctl T) :=
  if end_options <=? options + 1 then Some (Break stop) else
  l ← aget bytes (options + 1);
  Some (Next (next (options + (if l =? 0 then 1 else l)))).

(** The state is [options] and [received_hash]. *)
Definition scan_body (packet : list Z) (end_options : Z) (s : Z * option Z)
    : option (ctl (Z * option Z)) :=
  let '(options, received) := s in
  if negb (options <? end_options) then Some (Break s) else
  b ← aget packet options;
  if b =? 0 then Some (Break s) else
  if b =? 1 then Some (Next (options + 1, received)) else
  let move := next_option packet options end_options s (λ o, (o, received)) in
  if (b =? IP_OPT_HASH_ID) && (options + 1 <? end_options) then
    opt_len ← aget packet (options + 1);
    if (opt_len =? IP_OPT_HASH_LEN) && (options + opt_len <=? end_options)
    then Some (Break (options, Some (options + 4)))
    else move
  else move.

(** An iteration advances by at least one byte of at most 40. *)
Definition scan_fuel : nat := 41.

(** ** The removal of the option *)

Definition memmove (h : list Z) (dst src : Z) (n : nat) : option (list Z) :=
  bs ← aget_list h src n; aset_list h dst bs.

(** The state is [mod_options] and [original_header]. *)
Definition strip_body (mod_end_options : Z) (s : Z * list Z) : option (ctl (Z * list Z)) :=
  let '(mod_options, h) := s in
  if negb (mod_options <? mod_end_options) then Some (Break s) else
  b ← aget h mod_options;
  let move := next_option h mod_options mod_end_options s (λ o, (o, h)) in
  if (b =? IP_OPT_HASH_ID) && (mod_options + 1 <? mod_end_options) then
    opt_len ← aget h (mod_options + 1);
    if (opt_len =? IP_OPT_HASH_LEN) && (mod_options + opt_len <=? mod_end_options) then
      let remaining := mod_end_options - (mod_options + opt_len) in
      h ← (if 0 <? remaining then memmove h mod_options (mod_options + opt_len) (Z.to_nat remaining)
           else Some h);
      Some (Break (mod_options, h))
    else move
  else move.

(** The three field updates of the copied header. *)
Definition adjust_header (h : list Z) (new_ihl : Z) : option (list Z) :=
  b0 ← aget h 0;
  h ← aset h 0 (set_ihl b0 new_ihl);
  old_len ← ld_le16 h 2;
  h ← st_le16 h 2 (bpf_htons (u16 (bpf_ntohs old_len - IP_OPT_HASH_LEN)));
  st_le16 h 10 0.

Section verifier.
Variable sha256_lib : list Z → list Z.

(** [buffer0] is the indeterminate content of [buffer[128]]. *)
Definition compute_keyed_hash (buffer0 data : list Z) (data_len : Z) : option (list Z) :=
  buffer ← aset_list buffer0 0 SECRET_KEY;
  let header_size := data_len in
  bs ← aget_list data 0 (Z.to_nat header_size);
  buffer ← aset_list buffer 16 bs;
  bs ← aget_list buffer 0 (Z.to_nat (16 + header_size));
  Some (sha256_lib bs).

(** The part of the handler behind the search: the header is copied and
    rebuilt, hashed, and the digests compared.  [header0] and [buffer0] are the
    indeterminate stack arrays. *)
Definition check_hash (header0 buffer0 packet : list Z) (ip_header_len received_hash : Z)
    : option (list output) :=
  bs ← aget_list packet 14 (Z.to_nat ip_header_len);
  original_header ← aset_list header0 0 bs;
  b0 ← aget original_header 0;
  let new_ihl := u8 (Z.land b0 15 - IP_OPT_HASH_LEN / 4) in
  original_header ← adjust_header original_header new_ihl;
  let true_header_size := new_ihl * 4 in
  '(_, original_header) ← while_loop scan_fuel (strip_body ip_header_len) (20, original_header);
  computed_hash ← compute_keyed_hash buffer0 original_header true_header_size;
  received ← print_hex packet received_hash 32;
  if bool_decide (received = computed_hash)
  then Some [Received received; Computed computed_hash; Match]
  else
    raw ← print_hex original_header 0 true_header_size;
    Some [Received received; Computed computed_hash; Mismatch raw].

Definition packet_handler (header0 buffer0 packet : list Z) : option (list output) :=
  ether_type ← ld_le16 packet 12;
  if negb (bpf_ntohs ether_type =? ETHERTYPE_IP) then Some [] else
  let ip_header := 14 in
  b0 ← aget packet ip_header;
  let ip_hl := Z.land b0 15 in
  let ip_header_len := ip_hl * 4 in
  dump ← dump_ip_header packet ip_header;
  if ip_hl <=? 5 then Some [Dump dump; NoOptions ip_hl] else
  let options := ip_header + 20 in
  let end_options := ip_header + ip_header_len in
  '(_, received_hash) ← while_loop scan_fuel (scan_body packet end_options) (options, None);
  match received_hash with
  | None => Some [Dump dump; NoHashOption]
  | Some received_hash =>
      out ← check_hash header0 buffer0 packet ip_header_len received_hash;
      Some (Dump dump :: out)
  end.
End verifier.

(** ** The two loops *)

Lemma next_option_ok {T} (bytes : list Z) o end_ (stop : T) next :
  bytes_ok bytes → 0 <= o < end_ → end_ <= zlen bytes →
  next_option bytes o end_ stop next = Some (Break stop)
  ∨ ∃ o', o < o' ∧ next_option bytes o end_ stop next = Some (Next (next o')).
Proof.
  intros Hb Ho He. unfold next_option. destruct (Z.leb_spec end_ (o + 1)); [by left|]. right.
  destruct (aget_is_Some bytes (o + 1)) as [l El]; [lia|]. rewrite El. cbn [mbind option_bind].
  pose proof (aget_byte _ _ _ Hb El) as Hl. unfold byte_ok in Hl.
  exists (o + (if l =? 0 then 1 else l)). split; [zcase; lia|done].
Qed.

Lemma scan_loop_ok packet start end_ :
  bytes_ok packet → 0 <= start → end_ <= start + 40 → end_ <= zlen packet →
  ∃ o received, while_loop scan_fuel (scan_body packet end_) (start, None) = Some (o, received)
    ∧ match received with None => True | Some p => start <= p - 4 ∧ p + 32 <= end_ end.
Proof.
  intros Hb Hs He Hl.
  destruct (while_loop_inv
    (λ s : Z * option Z, start <= s.1 ∧ s.2 = None)
    (λ s : Z * option Z, match s.2 with None => True | Some p => start <= p - 4 ∧ p + 32 <= end_ end)
    (λ s, Z.to_nat (end_ - s.1)) (scan_body packet end_) scan_fuel (start, None))
    as ([o r] & E & H); [|done| |by exists o, r].
  - intros [o r] [Ho Hr]. cbn in Ho, Hr. subst r. unfold scan_body.
    destruct (Z.ltb_spec o end_); cbn [negb]; [|by eexists].
    destruct (aget_is_Some packet o) as [b ->]; [lia|]. cbn [mbind option_bind].
    destruct (b =? 0); [by eexists|].
    destruct (b =? 1); [eexists; split; [done|]; cbn; split; [by split; [lia|]|lia]|].
    assert (∃ c, next_option packet o end_ (o, @None Z) (λ o, (o, None)) = Some c ∧
      match c with Next s' => (start <= s'.1 ∧ s'.2 = None) ∧ (Z.to_nat (end_ - s'.1) < Z.to_nat (end_ - o))%nat
      | Break s' => match s'.2 with None => True | Some p => start <= p - 4 ∧ p + 32 <= end_ end end) as Hmove.
    { destruct (next_option_ok packet o end_ (o, @None Z) (λ o, (o, None)) Hb) as [->|(o' & Ho' & ->)];
        [lia|lia| |]; (eexists; split; [done|]); cbn; [done|]. split; [split; [lia|done]|lia]. }
    destruct ((b =? IP_OPT_HASH_ID) && (o + 1 <? end_)) eqn:Ec; [|exact Hmove].
    apply andb_prop in Ec as [_ Ec%Z.ltb_lt].
    destruct (aget_is_Some packet (o + 1)) as [l ->]; [lia|]. cbn [mbind option_bind].
    destruct ((l =? IP_OPT_HASH_LEN) && (o + l <=? end_)) eqn:Ef; [|exact Hmove].
    apply andb_prop in Ef as [Ef1%Z.eqb_eq Ef2%Z.leb_le]. unfold IP_OPT_HASH_LEN in Ef1.
    eexists. split; [done|]. cbn. lia.
  - unfold scan_fuel. cbn [fst]. lia.
Qed.

Lemma memmove_ok h dst src n :
  bytes_ok h → 0 <= dst → dst <= src → src + Z.of_nat n <= zlen h →
  ∃ h', memmove h dst src n = Some h' ∧ length h' = length h ∧ bytes_ok h'.
Proof.
  intros Hb Hd Hs Hn. unfold memmove. rewrite aget_list_eq by lia. cbn [mbind option_bind].
  assert (length (take n (drop (Z.to_nat src) h)) = n) as Hl by (rewrite length_take, length_drop; lia).
  rewrite aset_list_eq by lia. eexists. split; [done|].
  rewrite Hl, !length_app, length_drop, length_take, Hl. split; [lia|].
  apply Forall_app_2; [by apply Forall_take|]. apply Forall_app_2; [by apply Forall_take, Forall_drop|].
  by apply Forall_drop.
Qed.

Lemma strip_loop_ok h end_ :
  bytes_ok h → end_ <= 60 → length h = 60%nat →
  ∃ m h', while_loop scan_fuel (strip_body end_) (20, h) = Some (m, h') ∧ length h' = 60%nat ∧ bytes_ok h'.
Proof.
  intros Hb He Hl.
  destruct (while_loop_inv
    (λ s : Z * list Z, 20 <= s.1 ∧ s.2 = h) (λ s : Z * list Z, length s.2 = 60%nat ∧ bytes_ok s.2)
    (λ s, Z.to_nat (end_ - s.1)) (strip_body end_) scan_fuel (20, h)) as ([m h'] & E & H); [|done| |by exists m, h'].
  - intros [o h1] [Ho Hh]. cbn in Ho, Hh. subst h1. unfold strip_body.
    destruct (Z.ltb_spec o end_); cbn [negb]; [|by eexists].
    destruct (aget_is_Some h o) as [b ->]; [lia|]. cbn [mbind option_bind].
    assert (∃ c, next_option h o end_ (o, h) (λ o, (o, h)) = Some c ∧
      match c with Next s' => (20 <= s'.1 ∧ s'.2 = h) ∧ (Z.to_nat (end_ - s'.1) < Z.to_nat (end_ - o))%nat
      | Break s' => length s'.2 = 60%nat ∧ bytes_ok s'.2 end) as Hmove.
    { destruct (next_option_ok h o end_ (o, h) (λ o, (o, h)) Hb) as [->|(o' & Ho' & ->)];
        [lia|lia| |]; (eexists; split; [done|]); cbn; [done|]. split; [split; [lia|done]|lia]. }
    destruct ((b =? IP_OPT_HASH_ID) && (o + 1 <? end_)) eqn:Ec; [|exact Hmove].
    apply andb_prop in Ec as [_ Ec%Z.ltb_lt].
    destruct (aget_is_Some h (o + 1)) as [l ->]; [lia|]. cbn [mbind option_bind].
    destruct ((l =? IP_OPT_HASH_LEN) && (o + l <=? end_)) eqn:Ef; [|exact Hmove].
    apply andb_prop in Ef as [Ef1%Z.eqb_eq Ef2%Z.leb_le]. unfold IP_OPT_HASH_LEN in Ef1. subst l.
    destruct (Z.ltb_spec 0 (end_ - (o + 36))).
    + destruct (memmove_ok h o (o + 36) (Z.to_nat (end_ - (o + 36)))) as (h' & -> & Hl' & Hb'); [done|lia..|].
      eexists. split; [done|]. cbn. split; [lia|done].
    + eexists. split; [done|]. done.
  - unfold scan_fuel. cbn [fst]. lia.
Qed.
