(* ===== verification/VerifierCorrect.v ===== *)
(** * Correctness of the user-space verifier, and the two programs together

    Safety of [packet_handler], what it reads outside the captured bytes, and
    its verdict on the packets the kernel program builds. *)

From S2P Require Import Prelude Sha256Spec Sha256 Sha256Correct Checksum Packet ParsingHelpers XdpStats XdpIpHash.
From S2P Require Import KeyedHash HashOption XdpIpHashCorrect HashVerifier.

(** ** The pieces of the handler *)

Lemma verifier_hash_ok lib buffer0 data n :
  length buffer0 = 128%nat → 0 <= n <= 112 → n <= zlen data →
  HashVerifier.compute_keyed_hash lib buffer0 data n = Some (lib (HashVerifier.SECRET_KEY ++ take (Z.to_nat n) data)).
Proof.
  intros Hb Hn Hd. unfold HashVerifier.compute_keyed_hash.
  rewrite aset_list_eq by (cbn [length HashVerifier.SECRET_KEY]; lia). cbn [mbind option_bind].
  rewrite aget_list_eq by lia. cbn [mbind option_bind]. change (Z.to_nat 0) with 0%nat.
  rewrite take_0, drop_0. cbn [app]. set (key := HashVerifier.SECRET_KEY).
  assert (length key = 16%nat) as Hk by reflexivity.
  set (bs := take (Z.to_nat n) data). assert (zlen bs = n) as Hbs by (unfold bs; rewrite length_take; lia).
  rewrite aset_list_eq by (rewrite ?length_app, ?length_drop; lia). cbn [mbind option_bind].
  change (Z.to_nat 16) with (length key). rewrite take_app_length.
  rewrite aget_list_eq by (rewrite ?length_app, ?length_drop, ?length_app, ?length_drop; lia).
  cbn [mbind option_bind]. rewrite drop_0, app_assoc.
  rewrite take_app_le by (rewrite length_app; lia). do 2 f_equal. rewrite take_ge; [done|rewrite length_app; lia].
Qed.

Lemma dump_ok packet ip b0 :
  0 <= ip → aget packet ip = Some b0 → ip + 20 <= zlen packet → ip + 4 * (b0 mod 16) <= zlen packet →
  ∃ d, dump_ip_header packet ip = Some d.
Proof.
  intros Hip Hb0 H20 Hopt. unfold dump_ip_header. rewrite Hb0. cbn [mbind option_bind].
  assert (∀ i, 0 <= i < zlen packet → ∃ x, aget packet i = Some x) as Hget by (intros; by apply aget_is_Some).
  assert (∀ i, 0 <= i → i + 1 < zlen packet → ∃ x, ld_le16 packet i = Some x) as Hld by (intros; by apply ld_le16_in).
  destruct (Hget (ip + 1)) as [? ->]; [lia|]. cbn [mbind option_bind].
  destruct (Hld (ip + 2)) as [? ->]; [lia|lia|]. cbn [mbind option_bind].
  destruct (Hld (ip + 4)) as [? ->]; [lia|lia|]. cbn [mbind option_bind].
  destruct (Hld (ip + 6)) as [? ->]; [lia|lia|]. cbn [mbind option_bind].
  destruct (Hget (ip + 8)) as [? ->]; [lia|]. cbn [mbind option_bind].
  destruct (Hget (ip + 9)) as [? ->]; [lia|]. cbn [mbind option_bind].
  destruct (Hld (ip + 10)) as [? ->]; [lia|lia|]. cbn [mbind option_bind].
  rewrite !aget_list_eq by lia. cbn [mbind option_bind].
  change 15 with (Z.ones 4). rewrite !Z.land_ones by lia. change (2 ^ 4) with 16.
  destruct (Z.ltb_spec 5 (b0 mod 16)); [|by eexists].
  unfold print_hex. rewrite aget_list_eq by lia. by eexists.
Qed.

Lemma adjust_header_safe h n :
  bytes_ok h → length h = 60%nat →
  ∃ h', adjust_header h n = Some h' ∧ length h' = 60%nat ∧ bytes_ok h'.
Proof.
  intros Hb Hl. unfold adjust_header.
  destruct (aget_is_Some h 0) as [b E]; [lia|]. rewrite E. cbn [mbind option_bind].
  rewrite aset_eq by lia. cbn [mbind option_bind].
  pose proof (aget_byte _ _ _ Hb E) as Hb0.
  set (h1 := <[Z.to_nat 0 := set_ihl b n]> h).
  assert (length h1 = 60%nat) as Hl1 by (unfold h1; by rewrite length_insert).
  assert (bytes_ok h1) as Hb1 by (apply Forall_insert; [done|by apply set_ihl_ok]).
  destruct (ld_le16_in h1 2) as [w ->]; [lia|lia|]. cbn [mbind option_bind].
  destruct (st_le16_in h1 2 (bpf_htons (u16 (bpf_ntohs w - HashVerifier.IP_OPT_HASH_LEN))) Hb1)
    as (h2 & -> & Hl2 & Hb2); [lia|lia|]. cbn [mbind option_bind].
  destruct (st_le16_in h2 10 0 Hb2) as (h3 & -> & Hl3 & Hb3); [lia|lia|].
  exists h3. split; [done|]. split; [congruence|done].
Qed.

(** The field updates on a copied header. *)
Lemma adjust_header_ok vi tos tot mid ck post n :
  length mid = 6%nat → length ck = 2%nat → 0 <= tot < 2 ^ 16 →
  adjust_header (vi :: tos :: be16 tot ++ mid ++ ck ++ post) n =
    Some (set_ihl vi n :: tos :: be16 (u16 (tot - 36)) ++ mid ++ [0; 0] ++ post).
Proof.
  intros Hm Hc Ht. unfold adjust_header.
  assert (aget (vi :: tos :: be16 tot ++ mid ++ ck ++ post) 0 = Some vi) as -> by reflexivity.
  cbn [mbind option_bind]. rewrite aset_eq by (cbn [length]; lia). cbn [mbind option_bind].
  change (<[Z.to_nat 0:=set_ihl vi n]> (vi :: tos :: be16 tot ++ mid ++ ck ++ post))
    with ([set_ihl vi n; tos] ++ be16 tot ++ mid ++ ck ++ post).
  rewrite (ld_le16_at _ tot) by done. cbn [mbind option_bind]. rewrite bpf_ntohs_htons by done.
  unfold HashVerifier.IP_OPT_HASH_LEN.
  rewrite (st_le16_at [set_ihl vi n; tos] (be16 tot)) by (done || apply u16_range). cbn [mbind option_bind].
  change 0 with (bpf_htons 0).
  replace ([set_ihl vi n; tos] ++ be16 (u16 (tot - 36)) ++ mid ++ ck ++ post)
    with (([set_ihl vi n; tos] ++ be16 (u16 (tot - 36)) ++ mid) ++ ck ++ post) by list_eq.
  rewrite (st_le16_at _ ck) by (done || lia || (rewrite !length_app; cbn [length]; rewrite be16_length; lia)).
  list_eq.
Qed.

(** ** Safety *)

(** The bytes the handler needs: an Ethernet header, and for an IP packet the
    fixed header and as many bytes as its length field announces. *)
Definition captured_enough (packet : list Z) : Prop :=
  14 <= zlen packet ∧
  (∀ b0, ld_le16 packet 12 = Some (bpf_htons ETHERTYPE_IP) → aget packet 14 = Some b0 →
     14 + 4 * (b0 mod 16) <= zlen packet) ∧
  (ld_le16 packet 12 = Some (bpf_htons ETHERTYPE_IP) → 34 <= zlen packet).

Lemma ntohs_type w : 0 <= w < 2 ^ 16 → bpf_ntohs w = ETHERTYPE_IP → w = bpf_htons ETHERTYPE_IP.
Proof.
  intros Hw E. rewrite <- E. unfold bpf_htons, bpf_ntohs. pose proof (bswap16_range w Hw).
  rewrite (u16_small w), u16_small by done. by rewrite bswap16_involutive.
Qed.

(** The part of the handler behind the search: the option was found at [p - 4],
    so the header is of 56 or 60 bytes and the rebuilt one of 20 or 24. *)
Lemma check_hash_safe lib header0 buffer0 packet ihl p :
  bytes_ok packet → bytes_ok header0 → length header0 = 60%nat → length buffer0 = 128%nat →
  5 < ihl < 16 → 14 + ihl * 4 <= zlen packet → 34 <= p - 4 → p + 32 <= 14 + ihl * 4 →
  (∃ b0, aget packet 14 = Some b0 ∧ ihl = b0 mod 16) →
  ∃ out, check_hash lib header0 buffer0 packet (ihl * 4) p = Some out.
Proof.
  intros Hb Hh0 Hl0 Hlb Hi Hend Hp Hp' (b0 & Eb0 & Eihl). unfold check_hash.
  rewrite aget_list_eq by lia. cbn [mbind option_bind]. change (Z.to_nat 14) with 14%nat.
  set (bs := take (Z.to_nat (ihl * 4)) (drop 14 packet)).
  assert (length bs = Z.to_nat (ihl * 4)) as Hbs by (unfold bs; rewrite length_take, length_drop; lia).
  rewrite aset_list_eq by lia. cbn [mbind option_bind]. change (Z.to_nat 0) with 0%nat. rewrite take_0. cbn [app].
  set (h := bs ++ drop (0 + length bs) header0).
  assert (length h = 60%nat) as Hlh by (unfold h; rewrite length_app, length_drop; lia).
  assert (bytes_ok h) as Hbh by (apply Forall_app_2; [by apply Forall_take, Forall_drop|by apply Forall_drop]).
  assert (aget h 0 = Some b0) as ->.
  { unfold h. rewrite aget_app_l by lia. unfold bs. rewrite aget_take by lia. by rewrite aget_drop by lia. }
  cbn [mbind option_bind].
  assert (Z.land b0 15 = ihl) as -> by (change 15 with (Z.ones 4); by rewrite Z.land_ones by lia).
  change (HashVerifier.IP_OPT_HASH_LEN / 4) with 9. rewrite u8_small by (unfold byte_ok; lia).
  destruct (adjust_header_safe h (ihl - 9) Hbh Hlh) as (h1 & -> & Hl1 & Hb1). cbn [mbind option_bind].
  destruct (strip_loop_ok h1 (ihl * 4) Hb1) as (m & h2 & -> & Hl2 & Hb2); [lia|done|]. cbn [mbind option_bind].
  rewrite verifier_hash_ok by (done || lia). cbn [mbind option_bind].
  unfold print_hex. rewrite !aget_list_eq by lia. cbn [mbind option_bind].
  destruct (bool_decide _); by eexists.
Qed.

(** C7: safety and termination of [packet_handler].  Whatever the bytes of the
    packet, if they reach as far as the header length field says, the handler
    returns: no read outside the packet, no access outside the 60 and 128 byte
    arrays, and both option loops end; this needs no assumption on the SHA-256
    library. *)
Theorem packet_handler_safe lib header0 buffer0 packet :
  bytes_ok packet → bytes_ok header0 → length header0 = 60%nat → length buffer0 = 128%nat →
  captured_enough packet →
  ∃ out, packet_handler lib header0 buffer0 packet = Some out.
Proof.
  intros Hb Hh0 Hl0 Hlb (H14 & Hopt & H34). unfold packet_handler.
  destruct (ld_le16_in packet 12) as [w Ew]; [lia|lia|]. rewrite Ew in Hopt, H34 |- *. cbn [mbind option_bind].
  destruct (Z.eqb_spec (bpf_ntohs w) ETHERTYPE_IP) as [Et|]; cbn [negb]; [|by eexists].
  apply ntohs_type in Et; [|by apply (ld_le16_range packet 12)]. subst w.
  specialize (H34 eq_refl). destruct (aget_is_Some packet 14) as [b0 Eb0]; [lia|].
  specialize (Hopt b0 eq_refl Eb0). rewrite Eb0. cbn [mbind option_bind].
  destruct (dump_ok packet 14 b0) as [d ->]; [lia|done|lia|lia|]. cbn [mbind option_bind].
  assert (Z.land b0 15 = b0 mod 16) as -> by (change 15 with (Z.ones 4); by rewrite Z.land_ones by lia).
  pose proof (Z.mod_pos_bound b0 16 ltac:(lia)) as Hm.
  destruct (Z.leb_spec (b0 mod 16) 5); [by eexists|].
  destruct (scan_loop_ok packet (14 + 20) (14 + b0 mod 16 * 4) Hb) as (o & r & -> & Hr); [lia..|].
  cbn [mbind option_bind]. destruct r as [p|]; [|by eexists].
  destruct (check_hash_safe lib header0 buffer0 packet (b0 mod 16) p) as [out ->]; [done..|lia|lia|lia|lia|by exists b0|].
  by eexists.
Qed.

Lemma packet_handler_safe_witness :
  ∃ out, packet_handler sha256 (replicate 60 0) (replicate 128 0) v4_frame = Some out.
Proof.
  apply (packet_handler_safe sha256 (replicate 60 0) (replicate 128 0) v4_frame);
    [by apply bytes_ok_dec|apply zeros_ok|done|done|].
  split; [zeval|]. split; [|intros _; zeval]. intros b0 _ [= <-]. zeval.
Defined.

(** ** The kernel's packets *)

Lemma aget_at {A} (pre : list A) x post p : p = zlen pre → aget (pre ++ x :: post) p = Some x.
Proof. intros ->. by rewrite aget_nat, lookup_app_r, Nat.sub_diag by lia. Qed.

Lemma aget_list_at {A} (pre bs post : list A) p n :
  p = zlen pre → n = length bs → aget_list (pre ++ bs ++ post) p n = Some bs.
Proof.
  intros -> ->. rewrite aget_list_eq by (rewrite ?length_app; lia).
  by rewrite Nat2Z.id, drop_app_length, take_app_length.
Qed.

(** A length nibble written twice. *)
Lemma set_ihl_twice b n m : 0 <= n < 16 → set_ihl (set_ihl b n) m = set_ihl b m.
Proof.
  intros Hn. unfold set_ihl. f_equal. rewrite Z.land_lor_distr_l, <- !Z.land_assoc.
  change (Z.land 240 240) with 240. change (Z.land 15 240) with 0.
  by rewrite Z.land_0_r, Z.lor_0_r.
Qed.

Lemma set_ihl_same b : byte_ok b → set_ihl b (b mod 16) = b.
Proof.
  unfold byte_ok, set_ihl. intros Hb. change 15 with (Z.ones 4). rewrite Z.land_ones by lia.
  change (2 ^ 4) with 16. rewrite Z.mod_mod by lia.
  assert (Z.land b 240 = Z.shiftl (b / 16) 4) as ->.
  { apply Z.bits_inj'. intros i Hi. rewrite Z.land_spec, Z.shiftl_spec by done.
    change 240 with (Z.shiftl (Z.ones 4) 4). rewrite Z.shiftl_spec by done.
    change (b / 16) with (b / 2 ^ 4). rewrite <- Z.shiftr_div_pow2 by lia.
    destruct (Z.ltb_spec i 4).
    - rewrite (Z.testbit_neg_r _ (i - 4)), andb_false_r by lia. by rewrite Z.testbit_neg_r by lia.
    - rewrite Z.shiftr_spec by lia. replace (i - 4 + 4) with i by lia. destruct (Z.ltb_spec i 8).
      + rewrite Z.ones_spec_low by lia. apply andb_true_r.
      + rewrite (testbit_small 8 b) by lia. done. }
  rewrite (lor_add_disjoint 4) by nat_div. change (2 ^ 4) with 16. nat_div.
Qed.

(** The header the verifier hashes for a packet whose option follows the fixed
    header. *)
Definition rebuilt_header (vi tos tot : Z) (mid addrs : list Z) : list Z :=
  ip_header (set_ihl vi 5) tos tot mid [0; 0] addrs.

Definition verdict (received computed header : list Z) : output :=
  if bool_decide (received = computed) then Match else Mismatch header.

Section kernel_packet.
Variables (macs : list Z) (vi tos tot : Z) (mid addrs hash rest : list Z).
Hypothesis macs_len : length macs = 12%nat.
Hypothesis mid_len : length mid = 6%nat.
Hypothesis addrs_len : length addrs = 8%nat.
Hypothesis hash_len : length hash = 32%nat.
Hypothesis tot_range : 0 <= tot < 2 ^ 16.

(** The first iteration of both loops finds the option. *)
Lemma scan_finds n (pre post : list Z) end_ :
  zlen pre + 36 <= end_ →
  while_loop (S n) (scan_body (pre ++ hash_option hash ++ post) end_) (zlen pre, None)
    = Some (zlen pre, Some (zlen pre + 4)).
Proof.
  clear macs_len mid_len addrs_len hash_len tot_range.
  intros He. apply while_loop_break. unfold scan_body.
  rewrite (proj2 (Z.ltb_lt (zlen pre) end_)) by lia. cbn [negb].
  assert (aget (pre ++ hash_option hash ++ post) (zlen pre) = Some 25) as -> by (by apply aget_at).
  cbn [mbind option_bind]. rewrite (proj2 (Z.ltb_lt (zlen pre + 1) end_)) by lia. cbn [andb Z.eqb Pos.eqb].
  change (25 =? HashVerifier.IP_OPT_HASH_ID) with true. cbn [andb].
  assert (aget (pre ++ hash_option hash ++ post) (zlen pre + 1) = Some 36) as ->.
  { unfold hash_option. cbn [app].
    replace (pre ++ XdpIpHash.IP_OPT_HASH_ID :: XdpIpHash.IP_OPT_HASH_LEN :: 18 :: 52 :: hash ++ post)
      with ((pre ++ [XdpIpHash.IP_OPT_HASH_ID]) ++ 36 :: 18 :: 52 :: hash ++ post) by list_eq.
    apply aget_at. off_eq. }
  cbn [mbind option_bind]. change (36 =? HashVerifier.IP_OPT_HASH_LEN) with true.
  by rewrite (proj2 (Z.leb_le (zlen pre + 36) end_)) by lia.
Qed.

Lemma strip_finds (pre post : list Z) :
  zlen pre = 20 →
  while_loop scan_fuel (strip_body 56) (20, pre ++ hash_option hash ++ post) = Some (20, pre ++ hash_option hash ++ post).
Proof.
  clear macs_len mid_len addrs_len hash_len tot_range.
  intros He. apply (while_loop_break 40). unfold strip_body. cbn [Z.ltb Z.compare Pos.compare Pos.compare_cont negb].
  assert (aget (pre ++ hash_option hash ++ post) 20 = Some 25) as -> by (by apply aget_at).
  cbn [mbind option_bind].
  change ((25 =? HashVerifier.IP_OPT_HASH_ID) && (20 + 1 <? 56)) with true. cbn match.
  assert (aget (pre ++ hash_option hash ++ post) (20 + 1) = Some 36) as ->.
  { unfold hash_option. cbn [app].
    replace (pre ++ XdpIpHash.IP_OPT_HASH_ID :: XdpIpHash.IP_OPT_HASH_LEN :: 18 :: 52 :: hash ++ post)
      with ((pre ++ [XdpIpHash.IP_OPT_HASH_ID]) ++ 36 :: 18 :: 52 :: hash ++ post) by list_eq.
    apply aget_at. off_eq. }
  cbn [mbind option_bind].
  change ((36 =? HashVerifier.IP_OPT_HASH_LEN) && (20 + 36 <=? 56)) with true. done.
Qed.

(** The rest of the handler on a packet built by the kernel program. *)
Lemma check_hash_kernel lib header0 buffer0 l2 :
  length header0 = 60%nat → length buffer0 = 128%nat → length l2 = 14%nat →
  let h := rebuilt_header vi tos tot mid addrs in
  let computed := lib (HashVerifier.SECRET_KEY ++ h) in
  check_hash lib header0 buffer0 (l2 ++ new_header vi tos tot mid addrs hash ++ rest) 56 38 =
    Some [Received hash; Computed computed; verdict hash computed h].
Proof.
  intros Hl0 Hlb Hl2 h computed. unfold check_hash.
  assert (length (new_header vi tos tot mid addrs hash) = 56%nat) as Hnh by (by apply new_header_length).
  rewrite (aget_list_at l2) by (done || lia). cbn [mbind option_bind].
  rewrite aset_list_eq by lia. cbn [mbind option_bind]. change (Z.to_nat 0) with 0%nat. rewrite take_0. cbn [app].
  rewrite Hnh. unfold new_header, header_with.
  generalize (be16_length (rfc1071 (ip_header (set_ihl vi 14) tos (u16 (tot + 36)) mid [0; 0] addrs ++ hash_option hash))).
  generalize (be16 (rfc1071 (ip_header (set_ihl vi 14) tos (u16 (tot + 36)) mid [0; 0] addrs ++ hash_option hash))).
  intros ck Hck. set (tail := drop (0 + 56) header0). unfold ip_header.
  assert (∀ x, aget ((set_ihl vi 14 :: x) ++ tail) 0 = Some (set_ihl vi 14)) as Eh by done.
  cbn [app]. rewrite <- !app_assoc.
  match goal with |- context [aget (set_ihl vi 14 :: ?x) 0] =>
    change (aget (set_ihl vi 14 :: x) 0) with (Some (set_ihl vi 14)) end.
  cbn [mbind option_bind]. rewrite set_ihl_low by lia. change (u8 (14 - HashVerifier.IP_OPT_HASH_LEN / 4)) with 5.
  rewrite adjust_header_ok by (done || apply u16_range). cbn [mbind option_bind].
  rewrite set_ihl_twice by lia.
  assert (u16 (u16 (tot + 36) - 36) = tot) as ->.
  { unfold u16. rewrite Zminus_mod_idemp_l. replace (tot + 36 - 36) with tot by lia. by apply Z.mod_small. }
  assert (length h = 20%nat) as Hh by (unfold h, rebuilt_header, ip_header; off_eq).
  replace (set_ihl vi 5 :: tos :: be16 tot ++ mid ++ [0; 0] ++ addrs ++ hash_option hash ++ tail)
    with (h ++ hash_option hash ++ tail) by (unfold h, rebuilt_header; app_eq).
  rewrite (strip_finds h tail) by lia. cbn [mbind option_bind].
  rewrite verifier_hash_ok by (done || lia || (rewrite length_app; lia)). cbn [mbind option_bind].
  rewrite (take_app_length' h) by (by rewrite Hh). fold computed.
  match goal with |- context [print_hex ?l 38 32] => assert (print_hex l 38 32 = Some hash) as -> end.
  { replace (l2 ++ _) with ((l2 ++ ip_header (set_ihl vi 14) tos (u16 (tot + 36)) mid ck addrs ++ [25; 36; 18; 52])
      ++ hash ++ rest) by app_eq.
    apply aget_list_at; [unfold ip_header; off_eq|by rewrite hash_len]. }
  cbn [mbind option_bind].
  unfold verdict. destruct (bool_decide _); [done|].
  unfold print_hex. change (h ++ hash_option hash ++ tail) with ([] ++ h ++ hash_option hash ++ tail).
  by rewrite (aget_list_at [] h) by (done || lia).
Qed.

(** The whole handler on such a packet. *)
Lemma handler_kernel_packet lib header0 buffer0 :
  length header0 = 60%nat → length buffer0 = 128%nat →
  let h := rebuilt_header vi tos tot mid addrs in
  let computed := lib (HashVerifier.SECRET_KEY ++ h) in
  ∃ d, packet_handler lib header0 buffer0
      (eth_frame macs [] ETH_P_IP (new_header vi tos tot mid addrs hash ++ rest)) =
    Some [Dump d; Received hash; Computed computed; verdict hash computed h].
Proof.
  intros Hl0 Hlb h computed. unfold packet_handler.
  set (packet := eth_frame macs [] ETH_P_IP (new_header vi tos tot mid addrs hash ++ rest)).
  assert (length (new_header vi tos tot mid addrs hash) = 56%nat) as Hnh by (by apply new_header_length).
  set (l2 := macs ++ be16 ETH_P_IP). assert (length l2 = 14%nat) as Hl2 by (unfold l2; off_eq).
  assert (packet = l2 ++ new_header vi tos tot mid addrs hash ++ rest) as Ep
    by (unfold packet, l2, eth_frame; list_eq).
  assert (zlen packet = 70 + zlen rest) as Hlen by (rewrite Ep; off_eq).
  assert (ld_le16 packet 12 = Some (bpf_htons ETH_P_IP)) as ->.
  { unfold packet, eth_frame. cbn [map concat app]. apply ld_le16_at; [unfold ETH_P_IP; lia|lia]. }
  cbn [mbind option_bind]. change (bpf_ntohs (bpf_htons ETH_P_IP) =? ETHERTYPE_IP) with true. cbn [negb].
  destruct (new_header_prefix vi tos tot mid addrs hash) as [r Er].
  assert (aget packet 14 = Some (set_ihl vi 14)) as E14 by (rewrite Ep, Er; cbn [app]; apply aget_at; lia).
  rewrite E14. cbn [mbind option_bind]. rewrite set_ihl_low by lia.
  assert (set_ihl vi 14 mod 16 = 14) as Emod.
  { rewrite <- (set_ihl_low vi 14) at 2 by lia. change 15 with (Z.ones 4). by rewrite Z.land_ones by lia. }
  destruct (dump_ok packet 14 (set_ihl vi 14)) as [d ->]; [lia|done|lia|rewrite Emod; lia|].
  exists d. cbn [mbind option_bind]. change (14 <=? 5) with false. cbn match.
  assert (∃ fixed, length fixed = 20%nat ∧ packet = (l2 ++ fixed) ++ hash_option hash ++ rest) as (fixed & Hf & Ef).
  { eexists (ip_header _ _ _ mid (be16 _) addrs). split; [unfold ip_header; off_eq|]. rewrite Ep.
    unfold new_header, header_with at 1. by rewrite <- !app_assoc. }
  pose proof (scan_finds 40 (l2 ++ fixed) rest (14 + 14 * 4)) as Hscan.
  rewrite length_app, Hl2, Hf, <- Ef in Hscan. specialize (Hscan ltac:(lia)).
  change (Z.of_nat (14 + 20)) with (14 + 20) in Hscan. change 41%nat with scan_fuel in Hscan. rewrite Hscan. cbn [mbind option_bind].
  change (14 + 20 + 4) with 38. change (14 * 4) with 56. rewrite Ep.
  by rewrite check_hash_kernel.
Qed.
End kernel_packet.

(** ** The theorems *)

Lemma aget_list_range {A} (l : list A) off n r :
  aget_list l off n = Some r → n = 0%nat ∨ off + Z.of_nat n <= zlen l.
Proof.
  revert off r. induction n as [|n IH]; intros off r H; [by left|]. right. cbn in H. opt_inv H.
  apply aget_range in E. destruct (IH _ _ E0) as [->|]; lia.
Qed.

(** Reads past the capture.  The handler never looks at the captured
    length: on an IPv4 frame cut off before the end of the fixed header, or
    before the end the length field announces, it reads outside the packet. *)
Theorem packet_handler_overread lib header0 buffer0 packet :
  ld_le16 packet 12 = Some (bpf_htons ETHERTYPE_IP) →
  (zlen packet < 34 → packet_handler lib header0 buffer0 packet = None)
  ∧ (∀ b0, aget packet 14 = Some b0 → 5 < b0 mod 16 → zlen packet < 14 + 4 * (b0 mod 16) →
       packet_handler lib header0 buffer0 packet = None).
Proof.
  intros Et.
  assert (∀ b0, aget packet 14 = Some b0 → dump_ip_header packet 14 = None →
    packet_handler lib header0 buffer0 packet = None) as Hnone.
  { intros b0 E0 Ed. unfold packet_handler. rewrite Et. cbn [mbind option_bind].
    change (bpf_ntohs (bpf_htons ETHERTYPE_IP) =? ETHERTYPE_IP) with true. cbn [negb].
    by rewrite E0, Ed. }
  split.
  - intros Hs. destruct (aget packet 14) as [b0|] eqn:E0.
    + apply (Hnone b0 eq_refl). destruct (dump_ip_header packet 14) as [d|] eqn:Ed; [|done].
      unfold dump_ip_header in Ed. cbv zeta in Ed. opt_inv Ed.
      match goal with H : aget_list packet (14 + 16) 4 = Some _ |- _ => apply aget_list_range in H end. lia.
    + unfold packet_handler. rewrite Et. cbn [mbind option_bind].
      change (bpf_ntohs (bpf_htons ETHERTYPE_IP) =? ETHERTYPE_IP) with true. cbn [negb]. by rewrite E0.
  - intros b0 E0 H5 Hs. apply (Hnone b0 E0). destruct (dump_ip_header packet 14) as [d|] eqn:Ed; [|done].
    unfold dump_ip_header in Ed. rewrite E0 in Ed. cbn [mbind option_bind] in Ed.
    change 15 with (Z.ones 4) in Ed. rewrite Z.land_ones in Ed by lia. change (2 ^ 4) with 16 in Ed.
    rewrite (proj2 (Z.ltb_lt 5 (b0 mod 16)) H5) in Ed. cbv zeta in Ed. opt_inv Ed.
    opt_inv E9. match goal with H : print_hex packet _ _ = Some _ |- _ => apply aget_list_range in H end. lia.
Qed.

Lemma packet_handler_overread_witness :
  packet_handler sha256 (replicate 60 0) (replicate 128 0) (take 20 v4_frame) = None.
Proof. apply (packet_handler_overread sha256 (replicate 60 0) (replicate 128 0) (take 20 v4_frame)); [done|zeval]. Defined.

(** C3: the two programs together.  Take any untagged IPv4 frame without options
    for which the kernel program finds its maps and gets head room, and run the
    verifier on the frame it passes on, with a library that computes SHA-256.
    The verifier rebuilds exactly the header the kernel hashed, and prints the
    kernel's digest, its own, and the comparison of the two: they are digests
    of the same header under two different keys, because the kernel stores
    bytes 0 and 1 of [SECRET_KEY] where the verifier uses all 16. *)
Theorem kernel_and_verifier `{XdpHelpers} lib header0 buffer0 d macs vi tos tot mid ck addrs rest c σ stats hash0 :
  (∀ m, bytes_ok m → lib m = sha256 m) → length header0 = 60%nat → length buffer0 = 128%nat →
  length macs = 12%nat → length mid = 6%nat → length ck = 2%nat → length addrs = 8%nat →
  0 <= tot < 2 ^ 16 → byte_ok vi → vi mod 16 = 5 →
  md_ok (mkMd d (eth_frame macs [] ETH_P_IP (ip_header vi tos tot mid ck addrs ++ rest))) →
  maps_ok c σ → length stats = 5%nat → length hash0 = 32%nat →
  (bpf_xdp_adjust_head (mkMd d (eth_frame macs [] ETH_P_IP (hashed_header vi tos tot mid addrs ++ rest))) (-36)).1 = 0 →
  let h := hashed_header vi tos tot mid addrs in
  let received := sha256 (effective_key ++ h) in
  let computed := sha256 (HashVerifier.SECRET_KEY ++ h) in
  effective_key ++ h ≠ HashVerifier.SECRET_KEY ++ h
  ∧ ∃ k' dump, xdp_ip_hash_func (mkK (mkMd d (eth_frame macs [] ETH_P_IP (ip_header vi tos tot mid ck addrs ++ rest)))
        σ stats) hash0 = Some (XDP_PASS, k')
    ∧ packet_handler lib header0 buffer0 (xd_bytes (k_ctx k')) =
        Some [Dump dump; Received received; Computed computed; verdict received computed h].
Proof.
  intros Hlib Hl0 Hlb Hm H1 H2 H3 Htot Hvi Hihl Hok Hmaps Hst Hh Hadj h received computed.
  split; [by intros ?%app_inv_tail|].
  destruct (stats_pass stats Hst) as [r Hr].
  destruct (xdp_ip_hash_ipv4_ok d macs vi tos tot mid ck addrs rest c σ stats r hash0)
    as (c' & σ' & _ & ->); [done..|lia|lia|done|done|done|done|done|].
  assert (rebuilt_header vi tos tot mid addrs = h) as Eh.
  { unfold rebuilt_header, h, hashed_header. by rewrite <- Hihl, set_ihl_same. }
  destruct (handler_kernel_packet macs vi tos tot mid addrs received rest Hm H1 H3 (sha256_length _) Htot
    lib header0 buffer0 Hl0 Hlb) as [dump Ed].
  rewrite Eh in Ed. rewrite Hlib in Ed.
  2: { apply Forall_app_2; [by apply bytes_ok_dec|].
       pose proof (l0_ok (l2_bytes macs []) vi tos tot mid ck addrs rest H1 H2 H3 d) as Hok0.
       rewrite <- eth_frame_l2 in Hok0. apply Hok0, md_bytes in Hok. cbn [xd_bytes] in Hok.
       apply Forall_app in Hok as [_ Hok]. by apply Forall_app in Hok as [Hok _]. }
  eexists _, dump. split; [reflexivity|]. exact Ed.
Qed.

Lemma kernel_and_verifier_witness :
  let h := hashed_header 0x45 0 21 [0; 1; 0; 0; 64; 17] [10; 0; 0; 1; 10; 0; 0; 2] in
  effective_key ++ h ≠ HashVerifier.SECRET_KEY ++ h
  ∧ ∃ k' dump, xdp_ip_hash_func (mkK (mkMd 64 v4_frame) maps0 stats0) (replicate 32 0) = Some (XDP_PASS, k')
    ∧ packet_handler sha256 (replicate 60 0) (replicate 128 0) (xd_bytes (k_ctx k')) =
        Some [Dump dump; Received (sha256 (effective_key ++ h)); Computed (sha256 (HashVerifier.SECRET_KEY ++ h));
              verdict (sha256 (effective_key ++ h)) (sha256 (HashVerifier.SECRET_KEY ++ h)) h].
Proof.
  apply (kernel_and_verifier sha256 (replicate 60 0) (replicate 128 0) 64 (replicate 12 7) 0x45 0 21
    [0; 1; 0; 0; 64; 17] [9; 9] [10; 0; 0; 1; 10; 0; 0; 2] [5] ctx0 maps0 stats0 (replicate 32 0));
    try reflexivity; [lia|unfold byte_ok; lia|by apply v4_frame_ok|apply maps0_ok].
Defined.

(** A mismatch, decided by evaluation. *)
Definition is_mismatch (run : option (Z * kstate)) (handler : list Z → option (list output)) : bool :=
  match run with
  | Some (action, k') =>
      (action =? XDP_PASS) &&
      match handler (xd_bytes (k_ctx k')) with
      | Some [Dump _; Received _; Computed _; Mismatch _] => true
      | _ => false
      end
  | None => false
  end.

Lemma is_mismatch_spec run handler :
  is_mismatch run handler = true →
  ∃ k' dump received computed header, run = Some (XDP_PASS, k')
    ∧ handler (xd_bytes (k_ctx k')) = Some [Dump dump; Received received; Computed computed; Mismatch header].
Proof.
  intros H. destruct run as [[a k']|]; [|discriminate H]. cbn [is_mismatch] in H.
  apply andb_prop in H as [Ha%Z.eqb_eq H]. subst a. exists k'.
  destruct (handler (xd_bytes (k_ctx k'))) as [[|[] [|[] [|[] [|[] [|]]]]]|]; try discriminate H.
  by eexists _, _, _, _.
Qed.

(** An authentic packet is reported as tampered with: for a UDP frame that
    goes through the kernel program and reaches the verifier unmodified, with
    SHA-256 as the library, the verdict is the mismatch. *)
Theorem authentic_packet_mismatch :
  ∃ k' dump received computed header,
    xdp_ip_hash_func (mkK (mkMd 64 v4_frame) maps0 stats0) (replicate 32 0) = Some (XDP_PASS, k')
    ∧ packet_handler sha256 (replicate 60 0) (replicate 128 0) (xd_bytes (k_ctx k')) =
        Some [Dump dump; Received received; Computed computed; Mismatch header].
Proof. apply is_mismatch_spec. vm_compute. reflexivity. Qed.

(** The search and the removal disagree about options of one byte.  In a
    60-byte header whose option area starts with a NOP (1) before the hash
    option, the search finds the option; the removal takes the byte after the
    NOP (25) for a length, jumps over the option and ends without finding it:
    the header that is hashed still starts with the NOP and the option. *)
Theorem strip_misses_after_nop l2 fixed hash post :
  length l2 = 14%nat → length fixed = 20%nat → length hash = 32%nat → length post = 3%nat →
  bytes_ok (fixed ++ 1 :: hash_option hash ++ post) →
  while_loop scan_fuel (scan_body ((l2 ++ fixed) ++ 1 :: hash_option hash ++ post) 74) (34, None)
    = Some (35, Some 39)
  ∧ ∃ m, while_loop scan_fuel (strip_body 60) (20, fixed ++ 1 :: hash_option hash ++ post)
    = Some (m, fixed ++ 1 :: hash_option hash ++ post).
Proof.
  intros Hl2 Hf Hh Hp Hok. split.
  - set (l := (l2 ++ fixed) ++ 1 :: hash_option hash ++ post).
    assert (scan_body l 74 (34, None) = Some (Next (35, None))) as E1.
    { unfold scan_body. change (negb (34 <? 74)) with false. cbn match.
      assert (aget l 34 = Some 1) as -> by (apply aget_at; rewrite length_app; lia). done. }
    unfold scan_fuel. rewrite (while_loop_next 40 _ _ _ E1).
    pose proof (scan_finds hash 39 ((l2 ++ fixed) ++ [1]) post 74) as E2.
    rewrite !length_app, Hl2, Hf in E2. specialize (E2 ltac:(cbn; lia)).
    replace (((l2 ++ fixed) ++ [1]) ++ hash_option hash ++ post) with l in E2 by (unfold l; app_eq).
    exact E2.
  - set (h := fixed ++ 1 :: hash_option hash ++ post).
    assert (length h = 60%nat) as Hl by (unfold h, hash_option; off_eq).
    destruct (while_loop_inv
      (λ s : Z * list Z, (s.1 = 20 ∨ 25 <= s.1) ∧ s.2 = h) (λ s : Z * list Z, s.2 = h)
      (λ s, Z.to_nat (60 - s.1)) (strip_body 60) scan_fuel (20, h)) as ([m h'] & E & Eh); [|by auto| |cbn [snd] in Eh; exists m; rewrite E, Eh; done].
    + intros [o h1] [Ho Hh1]. cbn [fst snd] in Ho, Hh1. subst h1. unfold strip_body.
      destruct (Z.ltb_spec o 60); cbn [negb]; [|by eexists].
      destruct (aget_is_Some h o) as [b Eb]; [lia|]. rewrite Eb. cbn [mbind option_bind].
      assert (∃ c, next_option h o 60 (o, h) (λ o, (o, h)) = Some c ∧
        match c with Next s' => ((s'.1 = 20 ∨ 25 <= s'.1) ∧ s'.2 = h) ∧ (Z.to_nat (60 - s'.1) < Z.to_nat (60 - o))%nat
        | Break s' => s'.2 = h end) as Hmove.
      { destruct Ho as [->|Ho].
        - unfold next_option. change (60 <=? 20 + 1) with false. cbn match.
          assert (aget h (20 + 1) = Some 25) as ->.
          { replace h with ((fixed ++ [1]) ++ 25 :: 36 :: 18 :: 52 :: hash ++ post) by (unfold h; app_eq).
            apply aget_at. off_eq. }
          cbn. eexists. split; [done|]. cbn. split; [auto with lia|lia].
        - destruct (next_option_ok h o 60 (o, h) (λ o, (o, h)) Hok) as [->|(o' & Ho' & ->)];
            [lia|lia| |]; (eexists; split; [done|]); cbn; [done|]. split; [split; [lia|done]|lia]. }
      destruct ((b =? HashVerifier.IP_OPT_HASH_ID) && (o + 1 <? 60)) eqn:Ec; [|exact Hmove].
      apply andb_prop in Ec as [Ec1%Z.eqb_eq Ec%Z.ltb_lt].
      destruct (aget_is_Some h (o + 1)) as [l ->]; [lia|]. cbn [mbind option_bind].
      destruct ((l =? HashVerifier.IP_OPT_HASH_LEN) && (o + l <=? 60)) eqn:Ef; [|exact Hmove].
      apply andb_prop in Ef as [Ef1%Z.eqb_eq Ef2%Z.leb_le]. unfold HashVerifier.IP_OPT_HASH_LEN in Ef1.
      destruct Ho as [->|Ho]; [|lia]. exfalso.
      assert (aget h 20 = Some 1) as E20 by (apply aget_at; lia). rewrite E20 in Eb.
      injection Eb as <-. discriminate Ec1.
    + unfold scan_fuel. cbn [fst]. lia.
Qed.

Lemma strip_misses_after_nop_witness :
  while_loop scan_fuel (scan_body ((replicate 14 0 ++ replicate 20 7)
      ++ 1 :: hash_option (replicate 32 9) ++ [0; 0; 0]) 74) (34, None) = Some (35, Some 39)
  ∧ ∃ m, while_loop scan_fuel (strip_body 60) (20, replicate 20 7 ++ 1 :: hash_option (replicate 32 9) ++ [0; 0; 0])
    = Some (m, replicate 20 7 ++ 1 :: hash_option (replicate 32 9) ++ [0; 0; 0]).
Proof.
  apply (strip_misses_after_nop (replicate 14 0) (replicate 20 7) (replicate 32 9) [0; 0; 0]); try reflexivity.
  by apply bytes_ok_dec.
Defined.
